(* ===== verification/_CoqProject ===== *)
-Q . S2P
Prelude.v
SeqNo.v
Packet.v
Ranges.v
RcvLossList.v
RcvLossListSpec.v
RcvLossListRefine.v
SndLossList.v
SndLossListSpec.v
SndLossListRefine.v
SndBuffer.v
SndBufferSpec.v
SndBufferRefine.v
SndCtl.v
SndCtlInv.v
SndCtlProps.v
Tsbpd.v
Float64.v
Windows.v
WindowsSpec.v
RttCtl.v
RcvBuffer.v
RcvBufferSpec.v
RcvBufferRefine.v
RcvBufferProps.v
FreshLoss.v
FreshLossSpec.v
RcvLossCtl.v
RcvLossInv.v
RcvPath.v
RcvPathInv.v
RcvPathProps.v
Queue.v
SndUListSpec.v
QueueSpec.v
RcvUListSpec.v
RcvQueue.v
RcvQueueSpec.v
RcvQueueProps.v
Handshake.v
HandshakeSpec.v
HandshakeSafe.v
HandshakeExt.v
HandshakeNeg.v
HandshakeProps.v
Rendezvous.v
RendezvousProps.v
Fec.v
FecSpec.v
FecSend.v
FecRcv.v
FecGroups.v
FecRebuild.v
FecHang.v
FecReceive.v
FecProps.v
SrtlaRec.v
SrtlaRecInv.v
SrtlaRecWire.v
SrtlaRecProps.v
