(* ===== verification/Prelude.v ===== *)
(** * Verification of the SRT transport library (openirl-srt)

    SRT carries messages or a byte stream over UDP, retransmits what was lost and
    delivers in time; this fork adds a receiver for SRTLA, which bonds several
    links of one sender below SRT. The program modelled is the C++ of srtcore/.

    ** The parts of the program and the files that model them

    - Numbers (common.h). Packets carry 31-bit sequence numbers that wrap around;
      SeqNo.v models [CSeqNo], [CAckNo] and [RollNumber] and relates the wire
      numbers to unbounded packet indices ([seq_of]). All later statements are
      about indices, so they hold across the wrap-around.
    - Packets (packet.h, packet.cpp): Packet.v models the header fields and the
      byte order conversions.
    - Loss lists (list.h, list.cpp): RcvLossList.v and SndLossList.v model
      [CRcvLossList] and [CSndLossList], linked lists laid out in a circular array.
      The Spec files tie the array to sorted ranges (Ranges.v), the Refine files to
      a set of packets. FreshLoss.v models [CRcvFreshLoss] and the plan of an SRTLA
      loss report, FreshLossSpec.v its correctness.
    - Sender's buffer (buffer_snd.h, buffer_snd.cpp): SndBuffer.v models
      [CSndBuffer], a growing circular list of blocks with three pointers into it;
      SndBufferSpec.v and SndBufferRefine.v relate it to a queue of packets.
    - Sender's control (core.cpp, class [CUDT]): SndCtl.v composes the sender's
      buffer, its loss list and the sequence numbers: scheduling a message, packing
      for first transmission and retransmission, loss reports, acknowledgements,
      late drop and the retransmission timer. It is written in a state monad with
      an error for undefined behaviour and a log of what the socket is asked to do
      (drop requests, congestion control, scheduling). SndCtlInv.v states the
      invariant and the effect of each operation, SndCtlProps.v the properties.
    - Receiver's loss control (core.cpp): RcvLossCtl.v keeps the loss list and the
      fresh-loss records together and reports losses; RcvLossInv.v its invariant.
    - Delivery times (tsbpd_time.h, tsbpd_time.cpp; [DriftTracer] of utilities.h):
      Tsbpd.v, model and refinement of a clock on unbounded times.
    - Windows (window.h, window.cpp): Windows.v models [CACKWindow] and
      [CPktTimeWindow] (on IEEE doubles, Float64.v), WindowsSpec.v the refinement of
      the ACK window; RttCtl.v the handlers of ACKACK and keepalive packets, which
      use that window and the delivery clock.
    - Receiver's buffer (buffer_rcv.h, buffer_rcv.cpp): RcvBuffer.v models
      [CRcvBuffer], a circular array of packets; RcvBufferSpec.v and
      RcvBufferRefine.v relate it to a map from packet indices to packets,
      RcvBufferProps.v states what is delivered.
    - Receiver's data path (core.cpp): RcvPath.v composes the receiver's buffer, the
      loss control and the delivery clock: data packets, drop requests, late drops,
      the rounds of the delivery thread and acknowledgements. RcvPathInv.v has the
      invariant, RcvPathProps.v the properties.
    - Queues (queue.h, queue.cpp): Queue.v models the unit pool, the heap of sending
      sockets, the list of receiving sockets and the table of sockets by ID, proved
      in SndUListSpec.v, RcvUListSpec.v and QueueSpec.v; RcvQueue.v the worker of the
      receiving queue with its connecting sockets, proved in RcvQueueSpec.v and
      RcvQueueProps.v.
    - Handshake (handshake.h, handshake.cpp, core.cpp): Handshake.v models the fixed
      part and the extension blocks, their writing and their interpretation.
      HandshakeSpec.v has the layout of the blocks, HandshakeSafe.v that nothing is
      read outside a packet, HandshakeExt.v what is written, HandshakeNeg.v what the
      other side makes of it, HandshakeProps.v the properties. The key exchange is an
      interface ([Peripherals]) the handshake is proved against.
    - Rendezvous (core.cpp): Rendezvous.v models two sockets that connect to each
      other and the network between them, RendezvousProps.v their protocol.
    - Packet filter (fec.h, fec.cpp, packetfilter.cpp): Fec.v models the sender and the
      receiver of the built-in forward error correction. FecSpec.v has the algebra of
      clips, FecSend.v what the sender puts on the wire; FecRcv.v the queues of groups
      of the receiver, FecGroups.v its rows and columns, FecRebuild.v the rebuilding,
      FecHang.v and FecReceive.v what a packet does to it; FecProps.v the properties.
    - SRTLA receiver (srtla_rec.h, srtla_rec.cpp, the receive path of channel.cpp):
      SrtlaRec.v models the whole [SrtlaRec]; SrtlaRecInv.v its invariant,
      SrtlaRecWire.v the byte-level helpers, SrtlaRecProps.v the behaviour.

    This file holds what all share: machine integers, arrays with bounds, and the
    tactics for them.

    ** Conventions

    A [w]-bit integer is a [Z], with the wrap-around of the source written out
    ([i32], [u32], [i64]). An array is a list; an access out of bounds is undefined
    in the source and [None] here, so a result [Some _] also says that the code
    stayed in bounds. A pointer is an index of the store it points into. Clock
    readings are arguments, [clk k] being the k-th reading of a call. A function
    that holds a lock from start to end is one step; threads are not modelled
    beyond that. Logging and statistics are left out.

    ** What the theorems show

    - Refinement: the loss lists, both buffers, the ACK window, the delivery clock,
      the heap of sending sockets and the first-copy window of SRTLA behave, over
      every sequence of operations, as a set, a queue, a map or a clock on unbounded
      numbers, and never leave their arrays.
    - Invariants of reachable states: the sender's numbers, buffer and loss list; the
      receiver's buffer, loss records and numbers; the registries of the receiving
      queue and of the SRTLA receiver; two rendezvous sockets and their messages.
    - Behaviour: a loss report made by the receiver reaches the sender's loss list;
      an acknowledgement frees exactly the packets before it; a retransmission is
      the packet first sent; what is read is what was sent, in order and once;
      packets are dispatched to their socket and timers are served; both sides of a
      handshake settle on the same values, and a rendezvous can always complete;
      the packet filter rebuilds exactly the packets that were lost, whenever a row or
      a column lacks one; registration, admission, fan-out and cleanup of SRTLA; round trips of messages,
      of streams, of packet bytes and of handshake extensions.
    - Safety on any input: the interpretation of a handshake ends and stays inside
      the packet, whatever its bytes; a handshake that is made fits its packet.
    - Errors: what the sender does with reports and acknowledgements no peer may
      send; among the theorems are the behaviours that look unintended (a
      retransmission loop without end, a heap that loses its order, losses that are
      never reported, a rendezvous that a late packet breaks, a packet rebuilt under
      the number of another).

    ** Bounds and fuel

    The loops over an array or a list of blocks get the array's size (or the number
    of elements) as fuel; the refinement theorems show that it is never used up. The
    loops over handshake extensions get one round per byte and one more, as every
    round consumes at least a word; [hs_interpret_total] shows that it is enough. The
    rebuilding from rows to columns and back gets one round per group, as every round
    completes a group ([fec_recovers]). The
    retransmission loop that does not end is given its number of rounds. The loss
    lists have at most 2^29 elements and the buffer 2^30 blocks, which keeps their
    index arithmetic inside an [int]; packets compared with each other are less than
    half the number space apart, the window in which circular comparison is exact.
    The sender is the default build: no socket groups ([ENABLE_BONDING]), no
    retransmission bandwidth limit ([ENABLE_MAXREXMITBW]), a cipher without tag.

    ** Not modelled

    Socket groups ([ENABLE_BONDING], not in the default build); encryption and the
    key exchange, which the models take as parameters; congestion control, whose
    file mode computes with rates the properties above do not depend on; event
    polling, socket options, the socket life cycle and the C interface, which are
    mostly bookkeeping around system calls, locks and threads; the parsing and the
    negotiation of a packet filter's configuration; of connecting, the
    caller-listener mode's requests, the non-blocking mode and version 4; the worker
    of the sending queue and the multiplexer; statistics, logging, addresses and
    digests. *)

From Stdlib Require Export ZArith Lia Bool.
From stdpp Require Export base list gmap sets option.

#[global] Open Scope Z_scope.

Create HintDb arrays.
Create HintDb ranges.
Create HintDb seqno.
#[global] Set Default Goal Selector "!".
#[global] Set Default Proof Using "Type".

(** ** Machine integers

    The source computes on fixed-width integers. A [w]-bit value is a [Z]; the
    functions below are the conversions the language applies when a result is
    stored in (or converted to) a type of that width. Signed overflow is
    modelled by two's complement wrap-around. *)

Definition i32 (z : Z) : Z := (z + 2 ^ 31) mod 2 ^ 32 - 2 ^ 31.
Definition u32 (z : Z) : Z := z mod 2 ^ 32.
Definition u16 (z : Z) : Z := z mod 2 ^ 16.
Definition u8 (z : Z) : Z := z mod 2 ^ 8.
Definition i64 (z : Z) : Z := (z + 2 ^ 63) mod 2 ^ 64 - 2 ^ 63.

(** [abs] of <cstdlib> on [int]. *)
Definition c_abs (z : Z) : Z := i32 (Z.abs z).

Definition is_i32 (z : Z) : Prop := - 2 ^ 31 <= z < 2 ^ 31.
Definition is_u32 (z : Z) : Prop := 0 <= z < 2 ^ 32.
Definition is_byte (z : Z) : Prop := 0 <= z < 2 ^ 8.

(** Arithmetic with [Z.div] and [Z.modulo] in the goal: [lia] after the
    Euclidean equations of every quotient. *)
Ltac zlia := Z.div_mod_to_equations; lia.

Lemma i32_id z : is_i32 z -> i32 z = z.
Proof. unfold is_i32, i32. intros. rewrite Z.mod_small; lia. Qed.

Lemma i32_range z : is_i32 (i32 z).
Proof. unfold is_i32, i32. pose proof (Z.mod_pos_bound (z + 2 ^ 31) (2 ^ 32)). lia. Qed.

Lemma i32_i32 z : i32 (i32 z) = i32 z.
Proof. apply i32_id, i32_range. Qed.

Lemma i32_add_l a b : i32 (i32 a + b) = i32 (a + b).
Proof. unfold i32. f_equal. replace (_ - 2 ^ 31 + b + 2 ^ 31) with ((a + 2 ^ 31) mod 2 ^ 32 + b) by lia.
  rewrite Zplus_mod_idemp_l. f_equal. lia. Qed.

Lemma i32_sub_r a b : i32 (a - i32 b) = i32 (a - b).
Proof. unfold i32. f_equal. replace (a - ((b + 2 ^ 31) mod 2 ^ 32 - 2 ^ 31) + 2 ^ 31) with (a + 2 ^ 32 - (b + 2 ^ 31) mod 2 ^ 32) by lia.
  rewrite Zminus_mod_idemp_r. replace (a + 2 ^ 32 - (b + 2 ^ 31)) with (a - b + 2 ^ 31) by lia. done. Qed.

Lemma i32_sub_l a b : i32 (i32 a - b) = i32 (a - b).
Proof. apply (i32_add_l a (- b)). Qed.

Lemma u32_id z : is_u32 z -> u32 z = z.
Proof. apply Z.mod_small. Qed.

Lemma u32_range z : is_u32 (u32 z).
Proof. apply Z.mod_pos_bound. lia. Qed.

Lemma i64_id z : - 2 ^ 63 <= z < 2 ^ 63 -> i64 z = z.
Proof. unfold i64. intros. rewrite Z.mod_small; lia. Qed.

Lemma c_abs_id z : - 2 ^ 31 < z < 2 ^ 31 -> c_abs z = Z.abs z.
Proof. intros. apply i32_id. unfold is_i32. lia. Qed.

(** Removes the wrap-around of every sub-term [lia] can show in range. *)
Ltac unwrap_ints :=
  repeat match goal with
    | |- context [i32 ?z] => rewrite (i32_id z) by (unfold is_i32; lia)
    | |- context [u32 ?z] => rewrite (u32_id z) by (unfold is_u32; lia)
    | |- context [i64 ?z] => rewrite (i64_id z) by lia
    | |- context [c_abs ?z] => rewrite (c_abs_id z) by lia
    end.

(** Splits every boolean integer comparison the goal branches on. *)
Ltac split_ifs :=
  repeat match goal with
    | |- context [if ?a <? ?b then _ else _] => destruct (Z.ltb_spec a b)
    | |- context [if ?a <=? ?b then _ else _] => destruct (Z.leb_spec a b)
    | |- context [if ?a =? ?b then _ else _] => destruct (Z.eqb_spec a b)
    | |- context [if ?a >? ?b then _ else _] => rewrite (Z.gtb_ltb a b)
    | |- context [if ?a >=? ?b then _ else _] => rewrite (Z.geb_leb a b)
    end.

(** Inverts a computation of the option monad that succeeded. *)
Ltac bind_inv :=
  repeat match goal with
    | H : Some _ = Some _ |- _ => injection H; clear H; intros; subst
    | H : None = Some _ |- _ => discriminate H
    | H : (_ ≫= _) = Some _ |- _ =>
        let x := fresh "v" in let E := fresh "E" in
        apply bind_Some in H as (x & E & H); cbv beta in H
    | H : (if ?b then _ else _) = Some _ |- _ => destruct b eqn:?
    | H : (match ?x with _ => _ end) = Some _ |- _ => destruct x eqn:?
    end.

(** ** Arrays

    A C array is a list; indices are [int]. Reading or writing outside the
    bounds is undefined behaviour in the source and [None] here, so that a
    result [Some _] of a routine also says that it stayed in bounds. *)

Definition aget {A} (a : list A) (i : Z) : option A :=
  if 0 <=? i then a !! Z.to_nat i else None.

Definition aset {A} (a : list A) (i : Z) (x : A) : option (list A) :=
  if (0 <=? i) && (i <? Z.of_nat (length a)) then Some (<[Z.to_nat i := x]> a) else None.

(** [a[i].field = v]: update of one element in place. *)
Definition aupd {A} (a : list A) (i : Z) (f : A -> A) : option (list A) :=
  x ← aget a i; aset a i (f x).

Section Arrays.

Context {A : Type}.
Implicit Types (a : list A) (i j : Z).

Definition in_bounds a i : Prop := 0 <= i < Z.of_nat (length a).

Lemma aget_is_Some a i : in_bounds a i -> exists x, aget a i = Some x.
Proof.
  unfold in_bounds, aget. intros H. destruct (Z.leb_spec 0 i); [|lia].
  apply lookup_lt_is_Some. lia.
Qed.

Lemma aget_in_bounds a i x : aget a i = Some x -> in_bounds a i.
Proof.
  unfold in_bounds, aget. destruct (Z.leb_spec 0 i); [|done].
  intros Hl%lookup_lt_Some. lia.
Qed.

Lemma aset_Some a i x : in_bounds a i -> aset a i x = Some (<[Z.to_nat i := x]> a).
Proof.
  unfold in_bounds, aset. intros H.
  destruct (Z.leb_spec 0 i); [|lia]. destruct (Z.ltb_spec i (Z.of_nat (length a))); [done|lia].
Qed.

Lemma aset_inv a a' i x : aset a i x = Some a' -> in_bounds a i /\ a' = <[Z.to_nat i := x]> a.
Proof.
  unfold in_bounds, aset.
  destruct (Z.leb_spec 0 i), (Z.ltb_spec i (Z.of_nat (length a))); simpl; intros; simplify_eq; split; lia || done.
Qed.

Lemma aset_length a a' i x : aset a i x = Some a' -> length a' = length a.
Proof. intros [_ ->]%aset_inv. apply length_insert. Qed.

Lemma aget_insert_eq a i x : in_bounds a i -> aget (<[Z.to_nat i := x]> a) i = Some x.
Proof.
  unfold in_bounds, aget. intros H. destruct (Z.leb_spec 0 i); [|lia].
  apply list_lookup_insert_eq. lia.
Qed.

Lemma aget_insert_ne a i j x : 0 <= i -> i <> j -> aget (<[Z.to_nat i := x]> a) j = aget a j.
Proof.
  unfold aget. intros H N. destruct (Z.leb_spec 0 j); [|done].
  apply list_lookup_insert_ne. lia.
Qed.

Lemma aupd_Some a i x f :
  aget a i = Some x -> aupd a i f = Some (<[Z.to_nat i := f x]> a).
Proof.
  intros H. unfold aupd. rewrite H. simpl. apply aset_Some.
  by eapply aget_in_bounds.
Qed.

(** An in-bounds update, element by element. *)
Lemma aupd_spec a i f :
  in_bounds a i ->
  exists a', aupd a i f = Some a' /\ length a' = length a
    /\ forall j, aget a' j = if decide (i = j) then f <$> aget a j else aget a j.
Proof.
  intros Hi. destruct (aget_is_Some a i Hi) as [x Hx]. eexists. split; [by apply aupd_Some|].
  split; [apply length_insert|]. intros j. case_decide as E.
  - subst j. rewrite Hx. by apply aget_insert_eq.
  - apply aget_insert_ne; [unfold in_bounds in Hi; lia | done].
Qed.

Lemma in_bounds_insert a i x j : in_bounds (<[Z.to_nat i := x]> a) j <-> in_bounds a j.
Proof. unfold in_bounds. by rewrite length_insert. Qed.

End Arrays.

(** Runs the next array update of the goal. *)
Ltac upd_step :=
  match goal with
  | |- context [aupd ?a ?i ?f] =>
      let a' := fresh "arr" in let E := fresh "E" in
      let Hl := fresh "Hl" in let Hg := fresh "Hg" in
      destruct (aupd_spec a i f) as (a' & E & Hl & Hg);
      [ unfold in_bounds in *; try lia
      | rewrite E; cbn [mbind option_bind fst snd]; clear E ]
  end.

(** Reads an element of an updated array back through the updates. *)
Ltac aget_simp :=
  repeat match goal with
    | H : forall j, aget ?a' j = _ |- context [aget ?a' _] => rewrite H
    end;
  repeat match goal with
    | |- context [decide (?x = ?x)] => rewrite (decide_True (P := x = x)) by reflexivity
    | |- context [decide (?x = ?y)] => rewrite (decide_False (P := x = y)) by (first [assumption | apply not_eq_sym; assumption | lia | congruence])
    end.

#[export] Hint Resolve aget_in_bounds : arrays.
