(* ===== verification/SeqNo.v ===== *)
(** * Circular number arithmetic (srtcore/common.h)

    [CSeqNo]: 31-bit packet sequence numbers. [CAckNo]: ACK sub-sequence
    numbers. [RollNumber]: the template behind message numbers.

    Every sequence number on the wire stands for an unbounded packet index;
    [seq_of] is that projection, and the lemmas of this file say on which
    distances the comparison and the arithmetic of the code agree with the
    arithmetic of the indices. The components that keep sequence numbers are
    verified against these lemmas only. *)

From S2P Require Import Prelude.

Definition SRT_SEQNO_NONE : Z := -1.
Definition SRT_MSGNO_NONE : Z := -1.
Definition SRT_MSGNO_CONTROL : Z := 0.

Module CSeqNo.

Definition m_iSeqNoTH : Z := 0x3FFFFFFF.
Definition m_iMaxSeqNo : Z := 0x7FFFFFFF.

Definition seqcmp (seq1 seq2 : Z) : Z :=
  if c_abs (i32 (seq1 - seq2)) <? m_iSeqNoTH then i32 (seq1 - seq2) else i32 (seq2 - seq1).

Definition seqlen (seq1 seq2 : Z) : Z :=
  if seq1 <=? seq2 then i32 (seq2 - seq1 + 1) else i32 (seq2 - seq1 + m_iMaxSeqNo + 2).

Definition seqoff (seq1 seq2 : Z) : Z :=
  if c_abs (i32 (seq1 - seq2)) <? m_iSeqNoTH then i32 (seq2 - seq1)
  else if seq1 <? seq2 then i32 (seq2 - seq1 - m_iMaxSeqNo - 1)
  else i32 (seq2 - seq1 + m_iMaxSeqNo + 1).

Definition incseq (seq : Z) : Z := if seq =? m_iMaxSeqNo then 0 else i32 (seq + 1).

Definition decseq (seq : Z) : Z := if seq =? 0 then m_iMaxSeqNo else i32 (seq - 1).

(** The two-argument overloads. *)
Definition incseq_by (seq inc : Z) : Z :=
  if i32 (m_iMaxSeqNo - seq) >=? inc then i32 (seq + inc)
  else i32 (seq - m_iMaxSeqNo + inc - 1).

Definition decseq_by (seq dec : Z) : Z :=
  if seq <? dec then
    let left := i32 (dec - seq) in
    i32 (m_iMaxSeqNo - left + 1)
  else i32 (seq - dec).

Definition maxseq (seq1 seq2 : Z) : Z :=
  if seqcmp seq1 seq2 <? 0 then seq2 else seq1.

(** The object wrapper: comparison and arithmetic operators. *)
Definition op_lt (a b : Z) : bool := seqcmp a b <? 0.
Definition op_ge (a b : Z) : bool := seqcmp a b >=? 0.
Definition op_le (a b : Z) : bool := seqcmp a b <=? 0.
Definition op_gt (a b : Z) : bool := op_lt b a.
Definition op_minus (c1 c2 : Z) : Z := seqoff c2 c1.

End CSeqNo.

Module CAckNo.

Definition m_iMaxAckSeqNo : Z := 0x7FFFFFFF.

Definition incack (ackno : Z) : Z := if ackno =? m_iMaxAckSeqNo then 0 else i32 (ackno + 1).

End CAckNo.

(** [RollNumber<BITS, MIN>]: numbers [MIN .. 2^(BITS+1) - 1] on a [uint32_t]. *)
Module RollNumber.

Section Roll.

Context (BITS MIN : Z).

Definition mask : Z := 2 ^ (BITS + 1) - 1.
Definition OVER : Z := mask + 1.
Definition HALF : Z := (OVER - MIN) / 2.

Definition Diff (left right : Z) : Z :=
  if left <? right then
    let diff := i32 (right - left) in
    let left' := if diff >=? i32 HALF then u32 (left + (OVER - MIN)) else left in
    i32 (left' - right)
  else
    let diff := i32 (left - right) in
    let right' := if diff >=? i32 HALF then u32 (right + (OVER - MIN)) else right in
    i32 (left - right').

Definition op_lt (number right : Z) : bool :=
  let ndiff := i32 (number - right) in
  if ndiff <? - i32 HALF then false
  else if ndiff >? i32 HALF then true
  else ndiff <? 0.

Definition op_inc (number : Z) : Z :=
  let number' := u32 (number + 1) in
  if number' >? mask then MIN else number'.

Definition op_dec (number : Z) : Z :=
  if number =? MIN then mask else u32 (number - 1).

Definition op_add (number delta : Z) : Z :=
  if i32 (- delta) >? number then u32 (OVER - MIN + number + delta)
  else
    let number' := u32 (number + delta) in
    if number' >=? OVER then u32 (number' - (OVER - MIN)) else number'.

End Roll.

End RollNumber.

(** [typedef RollNumber<MSGNO_SEQ::size - 1, 1> MsgNo] of packet.h, with
    [MSGNO_SEQ = Bits<25, 0>]. *)
Definition MsgNo_inc : Z -> Z := RollNumber.op_inc 25 1.
Definition MsgNo_diff : Z -> Z -> Z := RollNumber.Diff 25 1.

(** ** Packet indices and their sequence numbers *)

(** The wire sequence number of packet index [x]. *)
Definition seq_of (x : Z) : Z := x mod 2 ^ 31.

Definition valid_seq (s : Z) : Prop := 0 <= s <= CSeqNo.m_iMaxSeqNo.

Lemma seq_of_valid x : valid_seq (seq_of x).
Proof.
  unfold valid_seq, seq_of, CSeqNo.m_iMaxSeqNo.
  pose proof (Z.mod_pos_bound x (2 ^ 31)). lia.
Qed.

Lemma seq_of_id s : valid_seq s -> seq_of s = s.
Proof. unfold valid_seq, CSeqNo.m_iMaxSeqNo. intros. apply Z.mod_small. lia. Qed.

(** Two indices are a whole number of laps apart when their wire numbers are a
    given distance apart. *)
Lemma seq_of_lap x y : exists k, seq_of y - seq_of x = y - x + k * 2 ^ 31.
Proof.
  unfold seq_of. exists (x / 2 ^ 31 - y / 2 ^ 31).
  pose proof (Z.div_mod x (2 ^ 31)). pose proof (Z.div_mod y (2 ^ 31)). lia.
Qed.

Lemma seq_of_shift x k : seq_of (x + k * 2 ^ 31) = seq_of x.
Proof. apply Z.mod_add. lia. Qed.

(** Inside one lap, equal wire numbers are equal indices. *)
Lemma seq_of_inj x y : Z.abs (x - y) < 2 ^ 31 -> seq_of x = seq_of y -> x = y.
Proof. intros H E. destruct (seq_of_lap x y) as [k Hk]. lia. Qed.

Ltac seq_facts :=
  repeat match goal with
    | |- context [seq_of ?x] =>
        lazymatch goal with
        | _ : valid_seq (seq_of x) |- _ => fail
        | _ => pose proof (seq_of_valid x)
        end
    end;
  unfold valid_seq, CSeqNo.m_iMaxSeqNo, CSeqNo.m_iSeqNoTH in *.

Section Window.

Context (x y : Z) (Hnear : Z.abs (x - y) < CSeqNo.m_iSeqNoTH).

Lemma seqoff_seq_of : CSeqNo.seqoff (seq_of x) (seq_of y) = y - x.
Proof using Hnear.
  destruct (seq_of_lap x y) as [k Hk].
  unfold CSeqNo.seqoff. seq_facts. unwrap_ints. split_ifs; unwrap_ints; lia.
Qed.

Lemma seqcmp_seq_of_sgn : Z.sgn (CSeqNo.seqcmp (seq_of x) (seq_of y)) = Z.sgn (x - y).
Proof using Hnear.
  destruct (seq_of_lap x y) as [k Hk].
  unfold CSeqNo.seqcmp. seq_facts. unwrap_ints. split_ifs; unwrap_ints; lia.
Qed.

Lemma seqcmp_lt : CSeqNo.seqcmp (seq_of x) (seq_of y) < 0 <-> x < y.
Proof using Hnear. pose proof seqcmp_seq_of_sgn. lia. Qed.

Lemma seqcmp_gt : CSeqNo.seqcmp (seq_of x) (seq_of y) > 0 <-> x > y.
Proof using Hnear. pose proof seqcmp_seq_of_sgn. lia. Qed.

Lemma seqcmp_eq : CSeqNo.seqcmp (seq_of x) (seq_of y) = 0 <-> x = y.
Proof using Hnear. pose proof seqcmp_seq_of_sgn. lia. Qed.

(** The tests of the code, as tests on the indices. *)
Lemma seqcmp_ltb : (CSeqNo.seqcmp (seq_of x) (seq_of y) <? 0) = (x <? y).
Proof using Hnear. pose proof seqcmp_lt. lia. Qed.

Lemma seqcmp_gtb : (CSeqNo.seqcmp (seq_of x) (seq_of y) >? 0) = (x >? y).
Proof using Hnear. pose proof seqcmp_gt. lia. Qed.

Lemma seqcmp_geb : (CSeqNo.seqcmp (seq_of x) (seq_of y) >=? 0) = (x >=? y).
Proof using Hnear. pose proof seqcmp_lt. lia. Qed.

Lemma maxseq_seq_of : CSeqNo.maxseq (seq_of x) (seq_of y) = seq_of (Z.max x y).
Proof using Hnear. unfold CSeqNo.maxseq. rewrite seqcmp_ltb. destruct (Z.ltb_spec x y); f_equal; lia. Qed.

End Window.

Lemma seqlen_seq_of x y :
  x <= y < x + CSeqNo.m_iMaxSeqNo -> CSeqNo.seqlen (seq_of x) (seq_of y) = y - x + 1.
Proof.
  intros. destruct (seq_of_lap x y) as [k Hk].
  unfold CSeqNo.seqlen. seq_facts. split_ifs; unwrap_ints; lia.
Qed.

Lemma seq_of_succ x : seq_of (x + 1) = if seq_of x =? 2 ^ 31 - 1 then 0 else seq_of x + 1.
Proof.
  destruct (seq_of_lap x (x + 1)) as [k Hk]. pose proof (seq_of_valid x).
  pose proof (seq_of_valid (x + 1)). unfold valid_seq, CSeqNo.m_iMaxSeqNo in *.
  split_ifs; lia.
Qed.

Lemma incseq_seq_of x : CSeqNo.incseq (seq_of x) = seq_of (x + 1).
Proof.
  rewrite seq_of_succ. unfold CSeqNo.incseq. seq_facts.
  change 0x7FFFFFFF with (2 ^ 31 - 1). split_ifs; unwrap_ints; lia.
Qed.

Lemma decseq_seq_of x : CSeqNo.decseq (seq_of x) = seq_of (x - 1).
Proof.
  destruct (seq_of_lap x (x - 1)) as [k Hk].
  unfold CSeqNo.decseq. seq_facts. split_ifs; unwrap_ints; lia.
Qed.

Lemma incseq_by_seq_of x k :
  0 <= k <= CSeqNo.m_iMaxSeqNo -> CSeqNo.incseq_by (seq_of x) k = seq_of (x + k).
Proof.
  intros. destruct (seq_of_lap x (x + k)) as [j Hj].
  unfold CSeqNo.incseq_by. seq_facts. unwrap_ints. split_ifs; unwrap_ints; lia.
Qed.

Lemma decseq_by_seq_of x k :
  0 <= k <= CSeqNo.m_iMaxSeqNo -> CSeqNo.decseq_by (seq_of x) k = seq_of (x - k).
Proof.
  intros. destruct (seq_of_lap x (x - k)) as [j Hj].
  unfold CSeqNo.decseq_by. cbv zeta. seq_facts. split_ifs; unwrap_ints; lia.
Qed.

#[export] Hint Rewrite incseq_seq_of decseq_seq_of : seqno.
#[export] Hint Rewrite seqoff_seq_of seqlen_seq_of using lia : seqno.

(** ** Properties *)



(** Stepping a sequence number forwards or backwards is stepping the packet
    index; stepping back undoes stepping forward, the offset measures the step
    and the inclusive length is one more than the step. *)
Theorem seqno_step_exact s k :
  valid_seq s -> 0 <= k < CSeqNo.m_iSeqNoTH ->
  let t := CSeqNo.incseq_by s k in
  valid_seq t /\ CSeqNo.decseq_by t k = s /\ CSeqNo.seqoff s t = k
  /\ CSeqNo.seqlen s t = k + 1
  /\ CSeqNo.incseq t = CSeqNo.incseq_by s (k + 1)
  /\ CSeqNo.decseq (CSeqNo.incseq t) = t.
Proof.
  intros Hs Hk t. unfold t. rewrite <- (seq_of_id s Hs).
  unfold CSeqNo.m_iSeqNoTH in *.
  assert (0 <= k + 1 <= CSeqNo.m_iMaxSeqNo) by (unfold CSeqNo.m_iMaxSeqNo; lia).
  rewrite !incseq_by_seq_of, decseq_by_seq_of by lia.
  repeat split; try apply seq_of_valid.
  - f_equal. lia.
  - rewrite seqoff_seq_of; unfold CSeqNo.m_iSeqNoTH; lia.
  - rewrite seqlen_seq_of; unfold CSeqNo.m_iMaxSeqNo; lia.
  - rewrite incseq_seq_of. f_equal. lia.
  - rewrite incseq_seq_of, decseq_seq_of. f_equal. lia.
Qed.

Lemma seqno_step_exact_witness :
  CSeqNo.incseq_by 0x7FFFFFF0 32 = 16 /\ CSeqNo.decseq_by 16 32 = 0x7FFFFFF0.
Proof.
  split; [reflexivity |].
  apply (seqno_step_exact 0x7FFFFFF0 32).
  - unfold valid_seq, CSeqNo.m_iMaxSeqNo. lia.
  - unfold CSeqNo.m_iSeqNoTH. lia.
Defined.

(** ** Rolling numbers *)

Section RollFacts.

Context (BITS MIN : Z).
Context (HB : 1 <= BITS <= 29) (HM : 0 <= MIN < 2 ^ BITS).

Notation P := (RollNumber.OVER BITS - MIN).

(** The [x]-th number of the roll. *)
Definition roll_of (x : Z) : Z := MIN + x mod (RollNumber.OVER BITS - MIN).

Lemma roll_bounds :
  2 <= RollNumber.OVER BITS <= 2 ^ 30 /\ 2 * MIN < RollNumber.OVER BITS.
Proof using HB HM.
  unfold RollNumber.OVER, RollNumber.mask.
  pose proof (Z.pow_add_r 2 BITS 1 ltac:(lia) ltac:(lia)).
  pose proof (Z.pow_le_mono_r 2 1 (BITS + 1) ltac:(lia) ltac:(lia)).
  pose proof (Z.pow_le_mono_r 2 (BITS + 1) 30 ltac:(lia) ltac:(lia)). lia.
Qed.

Lemma roll_half : 0 <= RollNumber.HALF BITS MIN /\ 2 * RollNumber.HALF BITS MIN <= P.
Proof using HB HM.
  pose proof roll_bounds. unfold RollNumber.HALF.
  pose proof (Z.mul_div_le P 2). pose proof (Z.div_pos P 2). lia.
Qed.

Lemma roll_of_range x : MIN <= roll_of x < RollNumber.OVER BITS.
Proof using HB HM.
  pose proof roll_bounds. unfold roll_of.
  pose proof (Z.mod_pos_bound x P ltac:(lia)). lia.
Qed.

Lemma roll_of_id n : MIN <= n < RollNumber.OVER BITS -> roll_of (n - MIN) = n.
Proof using HB HM. intros. unfold roll_of. rewrite Z.mod_small; lia. Qed.

Lemma roll_of_unique x k :
  MIN <= roll_of x + k < RollNumber.OVER BITS -> roll_of (x + k) = roll_of x + k.
Proof using HB HM.
  pose proof roll_bounds. unfold roll_of. intros.
  rewrite <- Z.add_mod_idemp_l by lia. rewrite (Z.mod_small (_ + k)); lia.
Qed.

Lemma roll_of_lap x k : roll_of (x + k * P) = roll_of x.
Proof using HB HM. pose proof roll_bounds. unfold roll_of. rewrite Z.mod_add; lia. Qed.

Lemma roll_of_down x k :
  MIN <= roll_of x + k + P < RollNumber.OVER BITS -> roll_of (x + k) = roll_of x + k + P.
Proof using HB HM.
  intros. rewrite <- (roll_of_lap (x + k) 1), <- Z.add_assoc, roll_of_unique; lia.
Qed.

Lemma roll_of_up x k :
  MIN <= roll_of x + k - P < RollNumber.OVER BITS -> roll_of (x + k) = roll_of x + k - P.
Proof using HB HM.
  intros. rewrite <- (roll_of_lap (x + k) (-1)), <- Z.add_assoc, roll_of_unique; lia.
Qed.

Lemma op_inc_roll x : RollNumber.op_inc BITS MIN (roll_of x) = roll_of (x + 1).
Proof using HB HM.
  pose proof roll_bounds. pose proof (roll_of_range x). unfold RollNumber.op_inc. cbv zeta.
  unwrap_ints. split_ifs; unfold RollNumber.OVER in *.
  - rewrite roll_of_up; unfold RollNumber.OVER; lia.
  - rewrite roll_of_unique; unfold RollNumber.OVER; lia.
Qed.

Lemma op_dec_roll x : RollNumber.op_dec BITS MIN (roll_of x) = roll_of (x - 1).
Proof using HB HM.
  pose proof roll_bounds. pose proof (roll_of_range x). unfold RollNumber.op_dec.
  replace (x - 1) with (x + -1) by lia. split_ifs; unwrap_ints.
  - rewrite roll_of_down; unfold RollNumber.OVER in *; lia.
  - rewrite roll_of_unique; lia.
Qed.

(** The distance of two numbers is the distance of the indices, up to laps. *)
Lemma roll_of_dist x y :
  Z.abs (x - y) < P -> exists k, -1 <= k <= 1 /\ roll_of x - roll_of y = x - y + k * P.
Proof using HB HM.
  intros. pose proof (roll_of_range x). pose proof (roll_of_range y).
  destruct (decide (MIN <= roll_of y + (x - y) < RollNumber.OVER BITS)) as [E|E].
  { exists 0. pose proof (roll_of_unique y _ E) as R.
    replace (y + (x - y)) with x in R by lia. lia. }
  destruct (decide (roll_of y + (x - y) < MIN)) as [F|F].
  - exists 1. pose proof (roll_of_down y (x - y) ltac:(lia)) as R.
    replace (y + (x - y)) with x in R by lia. lia.
  - exists (-1). pose proof (roll_of_up y (x - y) ltac:(lia)) as R.
    replace (y + (x - y)) with x in R by lia. lia.
Qed.

Lemma Diff_roll x y :
  Z.abs (x - y) < RollNumber.HALF BITS MIN ->
  RollNumber.Diff BITS MIN (roll_of x) (roll_of y) = x - y.
Proof using HB HM.
  intros. pose proof roll_bounds. pose proof roll_half.
  pose proof (roll_of_range x). pose proof (roll_of_range y).
  destruct (roll_of_dist x y) as (k & Hk & E); [lia|].
  assert (k = -1 \/ k = 0 \/ k = 1) as Hc by lia.
  unfold RollNumber.Diff. cbv zeta. unwrap_ints.
  destruct Hc as [-> | [-> | ->]]; split_ifs; unwrap_ints; lia.
Qed.

Lemma op_lt_roll x y :
  Z.abs (x - y) < RollNumber.HALF BITS MIN ->
  RollNumber.op_lt BITS MIN (roll_of x) (roll_of y) = (x <? y).
Proof using HB HM.
  intros. pose proof roll_bounds. pose proof roll_half.
  pose proof (roll_of_range x). pose proof (roll_of_range y).
  destruct (roll_of_dist x y) as (k & Hk & E); [lia|].
  assert (k = -1 \/ k = 0 \/ k = 1) as Hc by lia.
  unfold RollNumber.op_lt. cbv zeta. unwrap_ints.
  destruct Hc as [-> | [-> | ->]]; split_ifs; lia.
Qed.

Lemma op_add_roll x d :
  Z.abs d <= P -> ~ 0 <= roll_of x + d < MIN ->
  RollNumber.op_add BITS MIN (roll_of x) d = roll_of (x + d).
Proof using HB HM.
  intros. pose proof roll_bounds. pose proof (roll_of_range x).
  unfold RollNumber.op_add. cbv zeta. unwrap_ints. rewrite Z.gtb_ltb.
  destruct (Z.ltb_spec (roll_of x) (- d)); unwrap_ints.
  - rewrite roll_of_down; lia.
  - split_ifs; unwrap_ints; [rewrite roll_of_up | rewrite roll_of_unique]; lia.
Qed.

End RollFacts.

(** Message numbers (and every rolling number of at most 30 bits) step
    through [MIN .. 2^(BITS+1) - 1] cyclically: increment and decrement move to
    the next and the previous number of the roll and so undo each other, and
    the difference and the order of two numbers less than half a roll apart are
    those of their positions, across the wrap-around too. *)
Theorem roll_number_cyclic BITS MIN x y :
  1 <= BITS <= 29 -> 0 <= MIN < 2 ^ BITS ->
  Z.abs (x - y) < RollNumber.HALF BITS MIN ->
  RollNumber.op_inc BITS MIN (roll_of BITS MIN x) = roll_of BITS MIN (x + 1)
  /\ RollNumber.op_dec BITS MIN (RollNumber.op_inc BITS MIN (roll_of BITS MIN x))
     = roll_of BITS MIN x
  /\ RollNumber.Diff BITS MIN (roll_of BITS MIN x) (roll_of BITS MIN y) = x - y
  /\ RollNumber.op_lt BITS MIN (roll_of BITS MIN x) (roll_of BITS MIN y) = (x <? y)
  /\ MIN <= roll_of BITS MIN x <= RollNumber.mask BITS.
Proof.
  intros HB HM Hd. repeat split.
  - by apply op_inc_roll.
  - rewrite op_inc_roll, op_dec_roll by done. f_equal. lia.
  - by apply Diff_roll.
  - by apply op_lt_roll.
  - by apply roll_of_range.
  - pose proof (roll_of_range BITS MIN HB HM x). unfold RollNumber.OVER in *. lia.
Qed.

Lemma roll_number_cyclic_witness :
  MsgNo_inc 0x3FFFFFF = 1 /\ MsgNo_diff 1 0x3FFFFFF = 1.
Proof.
  pose proof (roll_number_cyclic 25 1 0x3FFFFFF 0x3FFFFFE ltac:(lia) ltac:(lia) ltac:(reflexivity))
    as (_ & _ & D & _).
  pose proof (roll_number_cyclic 25 1 0x3FFFFFE 0x3FFFFFE ltac:(lia) ltac:(lia) ltac:(reflexivity))
    as (I & _).
  split; [exact I | exact D].
Defined.

(** [operator+=] of the rolling number lands on the right number except in
    one case: a step back that reaches a value below [MIN] but not below zero
    is not rolled over and leaves the range (for message numbers, the value 0,
    which is [SRT_MSGNO_CONTROL]). *)
Theorem roll_number_add_exact BITS MIN n d :
  1 <= BITS <= 29 -> 0 <= MIN < 2 ^ BITS ->
  MIN <= n < RollNumber.OVER BITS -> Z.abs d <= RollNumber.OVER BITS - MIN ->
  RollNumber.op_add BITS MIN n d
  = if (0 <=? n + d) && (n + d <? MIN) then n + d else roll_of BITS MIN (n - MIN + d).
Proof.
  intros HB HM Hn Hd. pose proof (roll_bounds BITS MIN HB HM).
  destruct ((0 <=? n + d) && (n + d <? MIN)) eqn:E.
  - unfold RollNumber.op_add. cbv zeta. unwrap_ints. rewrite Z.gtb_ltb.
    destruct (Z.ltb_spec n (- d)); unwrap_ints; split_ifs; lia.
  - pose proof (op_add_roll BITS MIN HB HM (n - MIN) d Hd) as R.
    rewrite roll_of_id in R by done. apply R. lia.
Qed.

Lemma roll_number_add_exact_witness :
  RollNumber.op_add 25 1 5 (-5) = SRT_MSGNO_CONTROL
  /\ RollNumber.op_add 25 1 5 (-6) = 0x3FFFFFE.
Proof.
  split.
  - rewrite (roll_number_add_exact 25 1 5 (-5)); [reflexivity | lia | lia | | ];
      vm_compute; intuition congruence.
  - rewrite (roll_number_add_exact 25 1 5 (-6)); [reflexivity | lia | lia | | ];
      vm_compute; intuition congruence.
Defined.
