(* ===== verification/Packet.v ===== *)
(** * SRT packets (srtcore/packet.h, packet.cpp; the [Bits] template and the byte
      order conversions of srtcore/utilities.h)

    A packet has four 32-bit header words and its data as the bytes in memory.
    The host is little-endian: a word's bytes in memory are least significant
    first, and [htobe32]/[be32toh] reverse them. *)

From S2P Require Import Prelude.

(** ** Bit ranges *)

Module Bits.

(** [BitsetMask<R + n, R>::value]. *)
Fixpoint BitsetMask (n : nat) (R : Z) : Z :=
  match n with
  | O => Z.shiftl 1 R
  | S n' => Z.lor (Z.shiftl 1 (R + Z.of_nat n)) (BitsetMask n' R)
  end.

(** [Bits<L, R>]. *)
Record t := mk { L : Z; R : Z }.

Definition size (b : t) : Z := L b - R b + 1.
Definition mask (b : t) : Z := BitsetMask (Z.to_nat (L b - R b)) (R b).
Definition offset (b : t) : Z := R b.

Definition fit (b : t) (value : Z) : bool :=
  Z.land (BitsetMask (Z.to_nat (L b - R b)) 0) value =? value.

Definition wrap (b : t) (baseval : Z) : Z := Z.land (u32 (Z.shiftl baseval (offset b))) (mask b).
Definition unwrap (b : t) (bitset : Z) : Z := Z.shiftr (Z.land bitset (mask b)) (offset b).

Definition wf (b : t) : Prop := 0 <= R b <= L b /\ L b <= 31.

Arguments mask : simpl never.
Arguments wrap : simpl never.
Arguments unwrap : simpl never.

End Bits.

Definition IsSet (bitset flagset : Z) : bool := Z.land bitset flagset =? flagset.

(** ** The header fields *)

Definition SEQNO_CONTROL := Bits.mk 31 31.
Definition SEQNO_MSGTYPE := Bits.mk 30 16.
Definition SEQNO_EXTTYPE := Bits.mk 15 0.
Definition SEQNO_VALUE := Bits.mk 30 0.
Definition MSGNO_PACKET_BOUNDARY := Bits.mk 31 30.
Definition MSGNO_PACKET_INORDER := Bits.mk 29 29.
Definition MSGNO_ENCKEYSPEC := Bits.mk 28 27.
Definition MSGNO_REXMIT := Bits.mk 26 26.
Definition MSGNO_SEQ := Bits.mk 25 0.
Definition MSGNO_SEQ_OLD := Bits.mk 26 0.

Inductive PacketBoundary := PB_SUBSEQUENT | PB_LAST | PB_FIRST | PB_SOLO.

Definition PacketBoundary_of (z : Z) : PacketBoundary :=
  if z =? 3 then PB_SOLO else if z =? 2 then PB_FIRST else if z =? 1 then PB_LAST else PB_SUBSEQUENT.

Definition PacketBoundary_to (b : PacketBoundary) : Z :=
  match b with PB_SUBSEQUENT => 0 | PB_LAST => 1 | PB_FIRST => 2 | PB_SOLO => 3 end.

Definition PacketBoundaryBits (o : PacketBoundary) : Z := Bits.wrap MSGNO_PACKET_BOUNDARY (PacketBoundary_to o).

Definition EK_NOENC : Z := 0.
Definition EK_EVEN : Z := 1.
Definition EK_ODD : Z := 2.

Definition EncryptionKeyBits (f : Z) : Z := Bits.wrap MSGNO_ENCKEYSPEC f.
Definition GetEncryptionKeySpec (msgno : Z) : Z := Bits.unwrap MSGNO_ENCKEYSPEC msgno.

(** Versions, and the reasons of a rejection several components use. *)
Definition SrtVersion (major minor patch : Z) : Z := patch + minor * 0x100 + major * 0x10000.
Definition SRT_REJ_UNKNOWN : Z := 0.
Definition SRT_REJ_PEER : Z := 2.

(** [UDTMessageType]. *)
Inductive UDTMessageType :=
| UMSG_HANDSHAKE | UMSG_KEEPALIVE | UMSG_ACK | UMSG_LOSSREPORT | UMSG_CGWARNING
| UMSG_SHUTDOWN | UMSG_ACKACK | UMSG_DROPREQ | UMSG_PEERERROR | UMSG_EXT.

Definition msgtype_code (m : UDTMessageType) : Z :=
  match m with
  | UMSG_HANDSHAKE => 0 | UMSG_KEEPALIVE => 1 | UMSG_ACK => 2 | UMSG_LOSSREPORT => 3 | UMSG_CGWARNING => 4
  | UMSG_SHUTDOWN => 5 | UMSG_ACKACK => 6 | UMSG_DROPREQ => 7 | UMSG_PEERERROR => 8 | UMSG_EXT => 0x7FFF
  end.

Definition CreateControlSeqNo (type : UDTMessageType) : Z :=
  i32 (Z.lor (Bits.mask SEQNO_CONTROL) (Bits.wrap SEQNO_MSGTYPE (msgtype_code type))).

Definition CreateControlExtSeqNo (exttype : Z) : Z :=
  i32 (Z.lor (Z.lor (Bits.mask SEQNO_CONTROL) (Bits.wrap SEQNO_MSGTYPE (msgtype_code UMSG_EXT)))
         (Bits.wrap SEQNO_EXTTYPE (u32 exttype))).

(** ** Words and bytes *)

Definition le_bytes (w : Z) : list Z :=
  [Z.land w 255; Z.land (Z.shiftr w 8) 255; Z.land (Z.shiftr w 16) 255; Z.land (Z.shiftr w 24) 255].

Definition le_word (b0 b1 b2 b3 : Z) : Z :=
  Z.lor b0 (Z.lor (Z.shiftl b1 8) (Z.lor (Z.shiftl b2 16) (Z.shiftl b3 24))).

(** [htobe32], [be32toh] on a little-endian host. *)
Definition bswap32 (w : Z) : Z :=
  le_word (Z.land (Z.shiftr w 24) 255) (Z.land (Z.shiftr w 16) 255) (Z.land (Z.shiftr w 8) 255) (Z.land w 255).

(** [HtoNLA] and [NtoHLA] in place over the first [n] words of a byte array. *)
Fixpoint swap_words (n : nat) (data : list Z) : list Z :=
  match n, data with
  | S n', b0 :: b1 :: b2 :: b3 :: rest => le_bytes (bswap32 (le_word b0 b1 b2 b3)) ++ swap_words n' rest
  | _, _ => data
  end.

Arguments le_bytes : simpl never.
Arguments le_word : simpl never.
Arguments bswap32 : simpl never.

Module CPacket.

Record t := mk { ph_seqno : Z; ph_msgno : Z; ph_timestamp : Z; ph_id : Z; m_pcData : list Z }.

Definition MAX_TIMESTAMP : Z := 0xFFFFFFFF.

Definition getLength (p : t) : Z := Z.of_nat (length (m_pcData p)).

Definition set_seqno (v : Z) (p : t) : t := mk v (ph_msgno p) (ph_timestamp p) (ph_id p) (m_pcData p).
Definition set_msgno (v : Z) (p : t) : t := mk (ph_seqno p) v (ph_timestamp p) (ph_id p) (m_pcData p).
Definition set_data (d : list Z) (p : t) : t := mk (ph_seqno p) (ph_msgno p) (ph_timestamp p) (ph_id p) d.

Definition isControl (p : t) : bool := negb (Bits.unwrap SEQNO_CONTROL (ph_seqno p) =? 0).
Definition getType (p : t) : Z := Bits.unwrap SEQNO_MSGTYPE (ph_seqno p).
Definition getExtendedType (p : t) : Z := Bits.unwrap SEQNO_EXTTYPE (ph_seqno p).
Definition getControlFlags (p : t) : Z := u16 (Bits.unwrap SEQNO_EXTTYPE (ph_seqno p)).
Definition getAckSeqNo (p : t) : Z := i32 (ph_msgno p).
Definition getSeqNo (p : t) : Z := i32 (ph_seqno p).
Definition getMsgBoundary (p : t) : PacketBoundary := PacketBoundary_of (Bits.unwrap MSGNO_PACKET_BOUNDARY (ph_msgno p)).
Definition getMsgOrderFlag (p : t) : bool := negb (Bits.unwrap MSGNO_PACKET_INORDER (ph_msgno p) =? 0).
Definition getMsgSeq (has_rexmit : bool) (p : t) : Z :=
  if has_rexmit then Bits.unwrap MSGNO_SEQ (ph_msgno p) else Bits.unwrap MSGNO_SEQ_OLD (ph_msgno p).
Definition getRexmitFlag (p : t) : bool := negb (Bits.unwrap MSGNO_REXMIT (ph_msgno p) =? 0).
Definition getMsgCryptoFlags (p : t) : Z := Bits.unwrap MSGNO_ENCKEYSPEC (ph_msgno p).
Definition getMsgTimeStamp (p : t) : Z := Z.land (ph_timestamp p) MAX_TIMESTAMP.

(** [m_nHeader[SRT_PH_MSGNO] & ~mask | bits]. *)
Definition set_field (b : Bits.t) (v : Z) (w : Z) : Z := Z.lor (Z.ldiff w (Bits.mask b)) (Bits.wrap b v).

Definition setRexmitFlag (bRexmit : bool) (p : t) : t :=
  set_msgno (set_field MSGNO_REXMIT (if bRexmit then 1 else 0) (ph_msgno p)) p.

Definition setMsgCryptoFlags (spec : Z) (p : t) : t :=
  set_msgno (set_field MSGNO_ENCKEYSPEC spec (ph_msgno p)) p.

Definition setControl (type : UDTMessageType) (p : t) : t :=
  set_seqno (Z.lor (Bits.mask SEQNO_CONTROL) (Bits.wrap SEQNO_MSGTYPE (msgtype_code type))) p.

(** [pack]: [lparam] and [rparam] are [None] for a null pointer (a null [rparam]
    of [UMSG_ACK], [UMSG_LOSSREPORT], ... leaves no data); [extra_pad] is the
    four bytes sent where no data is defined. The result is [None] where the
    source would read through a null [lparam]. *)
Definition pack (type : UDTMessageType) (lparam : option Z) (rparam : option (list Z)) (extra_pad : list Z)
    (p0 : t) : option t :=
  let p := setControl type p0 in
  let data := from_option id [] rparam in
  match type with
  | UMSG_ACK => Some (set_data data (match lparam with Some v => set_msgno (u32 v) p | None => p end))
  | UMSG_ACKACK => v ← lparam; Some (set_data extra_pad (set_msgno (u32 v) p))
  | UMSG_LOSSREPORT => Some (set_data data p)
  | UMSG_CGWARNING => Some (set_data extra_pad p)
  | UMSG_KEEPALIVE => Some (set_data extra_pad (match lparam with Some v => set_msgno (u32 v) p | None => p end))
  | UMSG_HANDSHAKE => Some (set_data data p)
  | UMSG_SHUTDOWN => Some (set_data extra_pad p)
  | UMSG_DROPREQ => v ← lparam; Some (set_data data (set_msgno (u32 v) p))
  | UMSG_PEERERROR => v ← lparam; Some (set_data extra_pad (set_msgno (u32 v) p))
  | UMSG_EXT =>
    v ← lparam;
    Some (set_data (from_option id extra_pad rparam) (set_seqno (Z.lor (ph_seqno p) (u32 v)) p))
  end.

Definition swap_header (p : t) : t :=
  mk (bswap32 (ph_seqno p)) (bswap32 (ph_msgno p)) (bswap32 (ph_timestamp p)) (bswap32 (ph_id p)) (m_pcData p).

Definition toNetworkByteOrder (p : t) : t :=
  let p := if isControl p
           then set_data (swap_words (Z.to_nat (getLength p / 4)) (m_pcData p)) p else p in
  swap_header p.

Definition toHostByteOrder (p : t) : t :=
  let p := swap_header p in
  if isControl p then set_data (swap_words (Z.to_nat (getLength p / 4)) (m_pcData p)) p else p.

(** The datagram of a packet: header words and data as they lie in memory. *)
Definition datagram (p : t) : list Z :=
  le_bytes (ph_seqno p) ++ le_bytes (ph_msgno p) ++ le_bytes (ph_timestamp p) ++ le_bytes (ph_id p) ++ m_pcData p.

(** The packet a datagram of at least 16 bytes is received into. *)
Definition of_datagram (d : list Z) : option t :=
  match d with
  | a0 :: a1 :: a2 :: a3 :: b0 :: b1 :: b2 :: b3 :: c0 :: c1 :: c2 :: c3 :: d0 :: d1 :: d2 :: d3 :: rest =>
    Some (mk (le_word a0 a1 a2 a3) (le_word b0 b1 b2 b3) (le_word c0 c1 c2 c3) (le_word d0 d1 d2 d3) rest)
  | _ => None
  end.

(** All words are 32-bit and all data bytes are bytes. *)
Definition wf (p : t) : Prop :=
  is_u32 (ph_seqno p) /\ is_u32 (ph_msgno p) /\ is_u32 (ph_timestamp p) /\ is_u32 (ph_id p)
  /\ Forall is_byte (m_pcData p).

End CPacket.

Import CPacket.

(** ** Bit ranges: every bit *)

Lemma testbit_mask_n n R i : 0 <= R -> 0 <= i ->
  Z.testbit (Bits.BitsetMask n R) i = (R <=? i) && (i <=? R + Z.of_nat n).
Proof.
  intros HR Hi. induction n as [|n IH]; cbn [Bits.BitsetMask].
  - rewrite Z.shiftl_spec by done. change 1 with (2 ^ 0). rewrite Z.pow2_bits_eqb by lia.
    destruct (Z.eqb_spec 0 (i - R)), (Z.leb_spec R i), (Z.leb_spec i (R + Z.of_nat 0)); simpl; lia.
  - rewrite Z.lor_spec, IH, Z.shiftl_spec by done. change 1 with (2 ^ 0). rewrite Z.pow2_bits_eqb by lia.
    destruct (Z.eqb_spec 0 (i - (R + Z.of_nat (S n)))), (Z.leb_spec R i), (Z.leb_spec i (R + Z.of_nat n)),
      (Z.leb_spec i (R + Z.of_nat (S n))); simpl; lia.
Qed.

Section Fields.

Context (b : Bits.t) (Hb : Bits.wf b).

Lemma testbit_mask i : 0 <= i -> Z.testbit (Bits.mask b) i = (Bits.R b <=? i) && (i <=? Bits.L b).
Proof using Hb.
  intros Hi. unfold Bits.mask. destruct Hb as [H1 H2]. rewrite testbit_mask_n by lia.
  by replace (Bits.R b + Z.of_nat (Z.to_nat (Bits.L b - Bits.R b))) with (Bits.L b) by lia.
Qed.

Lemma testbit_unwrap x i : 0 <= i ->
  Z.testbit (Bits.unwrap b x) i = Z.testbit x (i + Bits.R b) && (i + Bits.R b <=? Bits.L b).
Proof using Hb.
  intros Hi. unfold Bits.unwrap, Bits.offset. destruct Hb as [H1 H2].
  rewrite Z.shiftr_spec, Z.land_spec, testbit_mask by lia.
  destruct (Z.leb_spec (Bits.R b) (i + Bits.R b)); [done|lia].
Qed.

Lemma testbit_wrap v i : 0 <= i ->
  Z.testbit (Bits.wrap b v) i = (Bits.R b <=? i) && (i <=? Bits.L b) && Z.testbit v (i - Bits.R b).
Proof using Hb.
  intros Hi. unfold Bits.wrap, u32, Bits.offset. destruct Hb as [H1 H2].
  rewrite Z.land_spec, testbit_mask by done.
  destruct (Z.leb_spec i (Bits.L b)); [|by rewrite !andb_false_r].
  rewrite Z.mod_pow2_bits_low, Z.shiftl_spec by lia. apply andb_comm.
Qed.

Lemma unwrap_set_field v w : 0 <= v < 2 ^ Bits.size b -> Bits.unwrap b (set_field b v w) = v.
Proof using Hb.
  intros Hv. pose proof Hb as [H1 H2]. unfold Bits.size in Hv. apply Z.bits_inj'. intros i Hi.
  rewrite testbit_unwrap by done. unfold set_field.
  rewrite Z.lor_spec, Z.ldiff_spec, testbit_wrap, testbit_mask by lia.
  replace (i + Bits.R b - Bits.R b) with i by lia.
  destruct (Z.leb_spec (Bits.R b) (i + Bits.R b)); [|lia].
  destruct (Z.leb_spec (i + Bits.R b) (Bits.L b)); simpl; [by rewrite andb_false_r, andb_true_r|].
  rewrite andb_false_r. symmetry. rewrite <- (Z.mod_small v (2 ^ (Bits.L b - Bits.R b + 1))) by lia.
  apply Z.mod_pow2_bits_high. lia.
Qed.

Lemma unwrap_set_other b' v w :
  Bits.wf b' -> Bits.L b' < Bits.R b \/ Bits.L b < Bits.R b' ->
  Bits.unwrap b (set_field b' v w) = Bits.unwrap b w.
Proof using Hb.
  intros Hb' Hd. pose proof Hb as [H1 H2]. pose proof Hb' as [H3 H4]. apply Z.bits_inj'. intros i Hi.
  rewrite !testbit_unwrap by done.
  destruct (Z.leb_spec (i + Bits.R b) (Bits.L b)); [|by rewrite !andb_false_r]. unfold set_field.
  rewrite Z.lor_spec, Z.ldiff_spec. unfold Bits.wrap, Bits.offset. rewrite Z.land_spec.
  assert (Z.testbit (Bits.mask b') (i + Bits.R b) = false) as ->.
  { unfold Bits.mask. rewrite testbit_mask_n by lia.
    destruct (Z.leb_spec (Bits.R b') (i + Bits.R b)),
      (Z.leb_spec (i + Bits.R b) (Bits.R b' + Z.of_nat (Z.to_nat (Bits.L b' - Bits.R b')))); simpl; lia. }
  by rewrite andb_false_r, orb_false_r, andb_true_r.
Qed.

Lemma unwrap_wrap v : 0 <= v < 2 ^ Bits.size b -> Bits.unwrap b (Bits.wrap b v) = v.
Proof using Hb.
  intros Hv. replace (Bits.wrap b v) with (set_field b v 0); [by apply unwrap_set_field|].
  unfold set_field. by rewrite Z.ldiff_0_l.
Qed.

End Fields.

(** ** Bytes and words *)

Lemma land_255 x : Z.land x 255 = x mod 256.
Proof. change 255 with (Z.ones 8). by rewrite Z.land_ones. Qed.

Lemma lor_shift_add a b n : 0 <= n -> 0 <= a < 2 ^ n -> Z.lor a (Z.shiftl b n) = a + b * 2 ^ n.
Proof.
  intros Hn Ha. rewrite <- Z.shiftl_mul_pow2 by done. symmetry. apply Z.add_nocarry_lor.
  apply Z.bits_inj'. intros i Hi. rewrite Z.land_spec, Z.bits_0. destruct (Z.lt_ge_cases i n).
  - rewrite Z.shiftl_spec_low by lia. apply andb_false_r.
  - rewrite <- (Z.mod_small a (2 ^ n)) by lia. by rewrite Z.mod_pow2_bits_high by lia.
Qed.

Lemma le_word_sum b0 b1 b2 b3 :
  is_byte b0 -> is_byte b1 -> is_byte b2 -> is_byte b3 ->
  le_word b0 b1 b2 b3 = b0 + b1 * 2 ^ 8 + b2 * 2 ^ 16 + b3 * 2 ^ 24.
Proof.
  unfold is_byte, le_word. intros H0 H1 H2 H3.
  replace (Z.shiftl b3 24) with (Z.shiftl (Z.shiftl b3 8) 16) by (by rewrite Z.shiftl_shiftl).
  rewrite <- Z.shiftl_lor, (lor_shift_add b2 b3 8) by lia.
  replace (Z.shiftl (b2 + b3 * 2 ^ 8) 16) with (Z.shiftl (Z.shiftl (b2 + b3 * 2 ^ 8) 8) 8) by (by rewrite Z.shiftl_shiftl).
  rewrite <- Z.shiftl_lor, (lor_shift_add b1), lor_shift_add by lia. lia.
Qed.

Lemma le_bytes_le_word b0 b1 b2 b3 :
  is_byte b0 -> is_byte b1 -> is_byte b2 -> is_byte b3 ->
  le_bytes (le_word b0 b1 b2 b3) = [b0; b1; b2; b3].
Proof.
  intros H0 H1 H2 H3. rewrite le_word_sum by done. unfold le_bytes, is_byte in *.
  rewrite !land_255, !Z.shiftr_div_pow2 by lia. repeat f_equal; zlia.
Qed.

Lemma byte_range x : is_byte (Z.land x 255).
Proof. rewrite land_255. unfold is_byte. apply Z.mod_pos_bound. lia. Qed.

Lemma le_word_le_bytes w :
  is_u32 w -> le_word (Z.land w 255) (Z.land (Z.shiftr w 8) 255) (Z.land (Z.shiftr w 16) 255)
                (Z.land (Z.shiftr w 24) 255) = w.
Proof.
  unfold is_u32. intros H. rewrite le_word_sum by apply byte_range.
  rewrite !land_255, !Z.shiftr_div_pow2 by lia. zlia.
Qed.

Lemma le_word_range b0 b1 b2 b3 :
  is_byte b0 -> is_byte b1 -> is_byte b2 -> is_byte b3 -> is_u32 (le_word b0 b1 b2 b3).
Proof. intros. rewrite le_word_sum by done. unfold is_byte, is_u32 in *. lia. Qed.

Lemma bswap32_le_word b0 b1 b2 b3 :
  is_byte b0 -> is_byte b1 -> is_byte b2 -> is_byte b3 ->
  bswap32 (le_word b0 b1 b2 b3) = le_word b3 b2 b1 b0.
Proof.
  intros H0 H1 H2 H3. pose proof (le_bytes_le_word b0 b1 b2 b3 H0 H1 H2 H3) as E. unfold bswap32.
  generalize dependent (le_word b0 b1 b2 b3). unfold le_bytes. intros w E.
  injection E as E0 E1 E2 E3. by rewrite E0, E1, E2, E3.
Qed.

(** ** Byte order *)

Lemma bswap32_involutive w : is_u32 w -> bswap32 (bswap32 w) = w /\ is_u32 (bswap32 w).
Proof.
  intros H. pose proof (le_word_le_bytes w H) as E. rewrite <- E.
  rewrite !bswap32_le_word by apply byte_range. split; [done|]. apply le_word_range; apply byte_range.
Qed.

Lemma swap_words_reverse n b0 b1 b2 b3 rest :
  is_byte b0 -> is_byte b1 -> is_byte b2 -> is_byte b3 ->
  swap_words (S n) (b0 :: b1 :: b2 :: b3 :: rest) = b3 :: b2 :: b1 :: b0 :: swap_words n rest.
Proof.
  intros. cbn [swap_words]. by rewrite bswap32_le_word, le_bytes_le_word.
Qed.

Lemma Forall_byte_4 b0 b1 b2 b3 rest :
  Forall is_byte (b0 :: b1 :: b2 :: b3 :: rest) ->
  (is_byte b0 /\ is_byte b1 /\ is_byte b2 /\ is_byte b3) /\ Forall is_byte rest.
Proof. intros H. repeat (apply list.Forall_cons in H as [? H]). auto. Qed.

Lemma swap_words_facts n data :
  Forall is_byte data ->
  swap_words n (swap_words n data) = data /\ length (swap_words n data) = length data
  /\ Forall is_byte (swap_words n data).
Proof.
  revert data. induction n as [|n IH]; intros data Hd; [done|].
  destruct data as [|b0 [|b1 [|b2 [|b3 rest]]]]; try done.
  apply Forall_byte_4 in Hd as [(H0 & H1 & H2 & H3) Hr].
  destruct (IH rest Hr) as (E1 & E2 & E3).
  rewrite !swap_words_reverse, E1 by done. simpl. rewrite E2. split; [done|]. split; [done|]. repeat (apply Forall_cons_2; [done|]); done.
Qed.

Lemma toHost_facts p : CPacket.wf p -> CPacket.wf (swap_header p) /\ swap_header (swap_header p) = p.
Proof.
  intros (H1 & H2 & H3 & H4 & Hd). unfold swap_header, CPacket.wf. simpl.
  destruct (bswap32_involutive _ H1) as [E1 R1], (bswap32_involutive _ H2) as [E2 R2],
    (bswap32_involutive _ H3) as [E3 R3], (bswap32_involutive _ H4) as [E4 R4].
  rewrite E1, E2, E3, E4. split; [done|]. by destruct p.
Qed.

Lemma toHost_toNetwork p : CPacket.wf p -> toHostByteOrder (toNetworkByteOrder p) = p.
Proof.
  intros Hwf. pose proof Hwf as (H1 & H2 & H3 & H4 & Hd). unfold toNetworkByteOrder, toHostByteOrder. cbv zeta.
  destruct (isControl p) eqn:Ec.
  - set (p1 := set_data _ p).
    assert (CPacket.wf p1) as Hw1 by (repeat split; try apply H1; try apply H2; try apply H3; try apply H4; by apply swap_words_facts).
    destruct (toHost_facts p1 Hw1) as [_ ->]. change (isControl p1) with (isControl p). rewrite Ec. unfold p1.
    destruct (swap_words_facts (Z.to_nat (getLength p / 4)) (m_pcData p) Hd) as (E1 & E2 & _).
    assert (getLength p1 = getLength p) as El by (unfold p1; unfold getLength at 1; cbn [m_pcData set_data]; rewrite E2; reflexivity).
    unfold p1 in El. rewrite El. cbn [m_pcData set_data ph_seqno ph_msgno ph_timestamp ph_id].
    rewrite E1. by destruct p.
  - destruct (toHost_facts p Hwf) as [_ ->]. by rewrite Ec.
Qed.

Lemma length_datagram p : length (datagram p) = (16 + length (m_pcData p))%nat.
Proof. unfold datagram. rewrite !length_app. unfold le_bytes. cbn [length]. lia. Qed.

(** A field whose bits are all set stays so when more bits are added. *)
Lemma unwrap_full_or b w v :
  Bits.wf b -> (forall i, Bits.R b <= i <= Bits.L b -> Z.testbit w i = true) ->
  Bits.unwrap b (Z.lor w v) = Z.ones (Bits.size b).
Proof.
  intros Hb Hw. pose proof Hb as [H1 H2]. apply Z.bits_inj'. intros i Hi.
  rewrite testbit_unwrap, Z.lor_spec by done. unfold Bits.size.
  destruct (Z.leb_spec (i + Bits.R b) (Bits.L b)).
  - rewrite Hw, Z.ones_spec_low by lia. done.
  - rewrite andb_false_r, Z.ones_spec_high by lia. done.
Qed.

(** ** The properties *)

(** Byte order round trip. Converting a packet to network byte order and back
    gives the same packet, for control packets with any payload length (the
    bytes after the last whole word are not touched) as for data packets. *)
Theorem packet_byte_order_roundtrip (p : CPacket.t) :
  CPacket.wf p -> toHostByteOrder (toNetworkByteOrder p) = p
    /\ length (datagram (toNetworkByteOrder p)) = (16 + length (m_pcData p))%nat.
Proof.
  intros H. split; [by apply toHost_toNetwork|]. destruct H as (_ & _ & _ & _ & Hd).
  rewrite length_datagram. f_equal. unfold toNetworkByteOrder. cbv zeta.
  destruct (isControl p); cbn [swap_header set_data m_pcData]; [by apply swap_words_facts|done].
Qed.

Lemma packet_byte_order_roundtrip_witness :
  let p := CPacket.mk (2 ^ 31 + 3 * 2 ^ 16) 5 1000 77 [1; 2; 3; 4; 5; 6] in
  toHostByteOrder (toNetworkByteOrder p) = p /\ length (datagram (toNetworkByteOrder p)) = 22%nat.
Proof.
  intros p. apply (packet_byte_order_roundtrip p). unfold p, CPacket.wf, is_u32.
  cbn [ph_seqno ph_msgno ph_timestamp ph_id m_pcData]. split_and!; try lia.
  repeat (apply Forall_cons_2; [unfold is_byte; lia|]). constructor.
Defined.

(** The fields of the message-number word are independent: setting the
    retransmission flag or the key flags changes that field to the given value
    and no other one. *)
Theorem packet_flags_independent (p : CPacket.t) (rexmit : bool) (spec : Z) :
  0 <= spec < 4 ->
  let p1 := setRexmitFlag rexmit p in
  let p2 := setMsgCryptoFlags spec p in
  getRexmitFlag p1 = rexmit /\ getMsgCryptoFlags p1 = getMsgCryptoFlags p
  /\ getMsgSeq true p1 = getMsgSeq true p /\ getMsgBoundary p1 = getMsgBoundary p
  /\ getMsgOrderFlag p1 = getMsgOrderFlag p
  /\ getMsgCryptoFlags p2 = spec /\ getRexmitFlag p2 = getRexmitFlag p
  /\ getMsgSeq true p2 = getMsgSeq true p /\ getMsgSeq false p2 = getMsgSeq false p
  /\ getMsgBoundary p2 = getMsgBoundary p /\ getMsgOrderFlag p2 = getMsgOrderFlag p.
Proof.
  intros Hs p1 p2. unfold p1, p2, getRexmitFlag, getMsgCryptoFlags, getMsgSeq, getMsgBoundary, getMsgOrderFlag,
    setRexmitFlag, setMsgCryptoFlags. cbn [set_msgno ph_msgno].
  repeat split;
    try (rewrite unwrap_set_field by (unfold Bits.wf, Bits.size; simpl; destruct rexmit; lia); by destruct rexmit);
    try (rewrite unwrap_set_field by (unfold Bits.wf, Bits.size; simpl; lia); done);
    rewrite unwrap_set_other by (unfold Bits.wf; simpl; lia); done.
Qed.

Lemma packet_flags_independent_witness :
  getMsgCryptoFlags (setMsgCryptoFlags EK_ODD (CPacket.mk 0 (2 ^ 32 - 1) 0 0 [])) = EK_ODD.
Proof. apply (packet_flags_independent (CPacket.mk 0 (2 ^ 32 - 1) 0 0 []) true EK_ODD). unfold EK_ODD. lia. Defined.

#[export] Instance UDTMessageType_eq_dec : EqDecision UDTMessageType.
Proof. solve_decision. Defined.

Definition control_word (type : UDTMessageType) : Z :=
  Z.lor (Bits.mask SEQNO_CONTROL) (Bits.wrap SEQNO_MSGTYPE (msgtype_code type)).

Lemma control_seqno type :
  Bits.unwrap SEQNO_CONTROL (control_word type) = 1 /\ Bits.unwrap SEQNO_MSGTYPE (control_word type) = msgtype_code type.
Proof. destruct type; vm_compute; done. Qed.

(** The header [pack] leaves: the type word, with more bits only for the
    user-defined type. *)
Lemma pack_header type lparam rparam pad p p' :
  pack type lparam rparam pad p = Some p' ->
  exists v, ph_seqno p' = Z.lor (control_word type) v /\ (type <> UMSG_EXT -> v = 0)
    /\ ph_timestamp p' = ph_timestamp p /\ ph_id p' = ph_id p.
Proof.
  unfold pack. cbv zeta. fold (control_word type). intros H.
  assert (forall q, ph_seqno q = control_word type -> ph_timestamp q = ph_timestamp p -> ph_id q = ph_id p ->
    exists v, ph_seqno q = Z.lor (control_word type) v /\ (type <> UMSG_EXT -> v = 0)
    /\ ph_timestamp q = ph_timestamp p /\ ph_id q = ph_id p) as Hq
    by (intros q E ? ?; exists 0; by rewrite Z.lor_0_r).
  destruct type; bind_inv; try (apply Hq; try (destruct lparam); reflexivity).
  eexists. split; [reflexivity|]. done.
Qed.

(** [pack] makes a control packet of the requested type and keeps the
    timestamp and the destination. *)
Theorem packet_pack_type (type : UDTMessageType) (lparam : option Z) (rparam : option (list Z))
    (pad : list Z) (p p' : CPacket.t) :
  pack type lparam rparam pad p = Some p' ->
  isControl p' = true
  /\ getType p' = msgtype_code type
  /\ ph_timestamp p' = ph_timestamp p /\ ph_id p' = ph_id p.
Proof.
  intros H. apply pack_header in H as (v & Hs & Hv & -> & ->).
  destruct (control_seqno type) as [E1 E2]. unfold isControl, getType. rewrite Hs.
  destruct (decide (type = UMSG_EXT)) as [->|Hne]; [|rewrite (Hv Hne), Z.lor_0_r, E1, E2; done].
  rewrite (unwrap_full_or SEQNO_MSGTYPE), (unwrap_full_or SEQNO_CONTROL); try (unfold Bits.wf; simpl; lia).
  - done.
  - intros i Hi. assert (i = 31) as -> by (simpl in Hi; lia). vm_compute. reflexivity.
  - intros i Hi. simpl in Hi.
    assert (i = 16 \/ i = 17 \/ i = 18 \/ i = 19 \/ i = 20 \/ i = 21 \/ i = 22 \/ i = 23 \/ i = 24 \/ i = 25 \/ i = 26
      \/ i = 27 \/ i = 28 \/ i = 29 \/ i = 30) as Hc by lia.
    repeat (destruct Hc as [->|Hc]; [vm_compute; reflexivity|]). subst i. vm_compute. reflexivity.
Qed.

Lemma packet_pack_type_witness :
  exists p', pack UMSG_DROPREQ (Some 7) (Some [1; 2]) [] (CPacket.mk 0 0 9 5 []) = Some p' /\ isControl p' = true.
Proof.
  eexists. split; [reflexivity|].
  exact (proj1 (packet_pack_type UMSG_DROPREQ (Some 7) (Some [1; 2]) [] (CPacket.mk 0 0 9 5 []) _ eq_refl)).
Defined.
