(* ===== verification/Ranges.v ===== *)
(** * Ranges of packet indices and their places in a circular array

    Both loss lists keep ranges of lost packets in a circular array in which
    the place of a range follows from its first packet. This file holds what
    their specifications share: sorted lists of ranges, the set of packets they
    stand for, and the index arithmetic of the placement. *)

From S2P Require Import Prelude SeqNo.

(** ** Lists of ranges *)

Notation range := (Z * Z)%type.

(** The ranges are nonempty, disjoint, increasing and inside [lo, hi). *)
Fixpoint ordered (lo : Z) (nodes : list range) (hi : Z) : Prop :=
  match nodes with
  | [] => True
  | (a, b) :: r => lo <= a <= b /\ b < hi /\ ordered (b + 1) r hi
  end.

(** [x] is one of the lost packets. *)
Definition lost (nodes : list range) (x : Z) : Prop :=
  exists a b, (a, b) ∈ nodes /\ a <= x <= b.

Fixpoint count (nodes : list range) : Z :=
  match nodes with
  | [] => 0
  | (a, b) :: r => b - a + 1 + count r
  end.

Lemma ordered_weaken lo nodes hi lo' hi' :
  ordered lo nodes hi -> lo' <= lo -> hi <= hi' -> ordered lo' nodes hi'.
Proof.
  revert lo lo'. induction nodes as [|[a b] r IH]; intros lo lo'; simpl; [done|].
  intros (? & ? & H) **. repeat split; try lia. eapply IH; [exact H|lia..].
Qed.

Lemma ordered_elem lo nodes hi a b :
  ordered lo nodes hi -> (a, b) ∈ nodes -> lo <= a <= b /\ b < hi.
Proof.
  revert lo. induction nodes as [|[a' b'] r IH]; intros lo; simpl.
  - by intros _ ?%not_elem_of_nil.
  - intros (? & ? & H) [[= -> ->] | Hin]%elem_of_cons; [lia|].
    specialize (IH _ H Hin). lia.
Qed.

Lemma ordered_split lo pre a b post hi :
  ordered lo (pre ++ (a, b) :: post) hi ->
  ordered lo pre a /\ lo <= a <= b /\ b < hi /\ ordered (b + 1) post hi.
Proof.
  revert lo. induction pre as [|[a' b'] r IH]; intros lo; simpl.
  - intros (? & ? & ?). repeat split; try lia. done.
  - intros (? & ? & H). destruct (IH _ H) as (? & ? & ? & ?).
    repeat split; try lia; done.
Qed.

Lemma ordered_join lo pre a b post hi :
  ordered lo pre a -> lo <= a <= b -> b < hi -> ordered (b + 1) post hi ->
  ordered lo (pre ++ (a, b) :: post) hi.
Proof.
  revert lo. induction pre as [|[a' b'] r IH]; intros lo; simpl.
  - intros. repeat split; try lia. done.
  - intros (? & ? & H) **. repeat split; try lia. apply IH; try lia; done.
Qed.

Lemma ordered_app lo l1 l2 mid hi :
  lo <= mid -> ordered lo l1 mid -> ordered mid l2 hi -> mid <= hi -> ordered lo (l1 ++ l2) hi.
Proof.
  revert lo. induction l1 as [|[a b] r IH]; intros lo ? H1 H2 ?; simpl in *.
  - eapply ordered_weaken; [exact H2|lia|lia].
  - destruct H1 as (? & ? & ?). repeat split; try lia. apply IH; [lia|done..].
Qed.

Lemma ordered_suffix lo l1 l2 hi : ordered lo (l1 ++ l2) hi -> ordered lo l2 hi.
Proof.
  revert lo. induction l1 as [|[a b] r IH]; intros lo; simpl; [done|]. intros (? & ? & H).
  eapply ordered_weaken; [by apply IH|lia|lia].
Qed.

Lemma ordered_length lo nodes hi : ordered lo nodes hi -> Z.of_nat (length nodes) <= count nodes.
Proof.
  revert lo. induction nodes as [|[a b] r IH]; intros lo; simpl; [lia|].
  intros (? & ? & H). specialize (IH _ H). lia.
Qed.

Lemma count_app l1 l2 : count (l1 ++ l2) = count l1 + count l2.
Proof. induction l1 as [|[a b] r IH]; simpl; lia. Qed.

Lemma count_nonneg lo nodes hi : ordered lo nodes hi -> 0 <= count nodes.
Proof.
  revert lo. induction nodes as [|[a b] r IH]; intros lo; simpl; [lia|].
  intros (? & ? & H). specialize (IH _ H). lia.
Qed.

Lemma count_le lo nodes hi : lo <= hi -> ordered lo nodes hi -> count nodes <= hi - lo.
Proof.
  revert lo. induction nodes as [|[a b] r IH]; intros lo; simpl; [lia|].
  intros ? (? & ? & H). specialize (IH (b + 1) ltac:(lia) H). lia.
Qed.

Lemma lost_nil x : lost [] x <-> False.
Proof. split; [|done]. by intros (a & b & ?%not_elem_of_nil & _). Qed.

Lemma lost_app l1 l2 x : lost (l1 ++ l2) x <-> lost l1 x \/ lost l2 x.
Proof.
  unfold lost. split.
  - intros (a & b & [H|H]%elem_of_app & ?); eauto 10.
  - intros [(a & b & H & ?) | (a & b & H & ?)]; exists a, b; rewrite elem_of_app; eauto.
Qed.

Lemma lost_cons a b r x : lost ((a, b) :: r) x <-> a <= x <= b \/ lost r x.
Proof.
  unfold lost. split.
  - intros (a' & b' & [[= -> ->]|H]%elem_of_cons & ?); eauto 10.
  - intros [H | (a' & b' & H & ?)].
    + exists a, b. split; [constructor | done].
    + exists a', b'. split; [by constructor | done].
Qed.

Lemma lost_bounds lo nodes hi x : ordered lo nodes hi -> lost nodes x -> lo <= x < hi.
Proof. intros Ho (a & b & Hin & ?). pose proof (ordered_elem _ _ _ _ _ Ho Hin). lia. Qed.

#[export] Hint Rewrite lost_nil lost_app lost_cons count_app : ranges.

(** ** Places in the array *)

Section Layout.

Context (N c : Z).

(** The array element of the range that starts at packet [x]. *)
Definition pos (x : Z) : Z := (x + c) mod N.

Definition end_of (a b : Z) : Z := if a =? b then SRT_SEQNO_NONE else seq_of b.

Definition first_pos (nodes : list range) (next : Z) : Z :=
  match nodes with [] => next | (a, _) :: _ => pos a end.

Fixpoint last_pos (prev : Z) (nodes : list range) : Z :=
  match nodes with [] => prev | (a, _) :: r => last_pos (pos a) r end.

Lemma first_pos_app l1 l2 next : first_pos (l1 ++ l2) next = first_pos l1 (first_pos l2 next).
Proof. by destruct l1 as [|[a b] r]. Qed.

Lemma last_pos_app prev l1 l2 : last_pos prev (l1 ++ l2) = last_pos (last_pos prev l1) l2.
Proof. revert prev. induction l1 as [|[a b] r IH]; intros prev; simpl; [done | apply IH]. Qed.

Context (HN : 0 < N).

Lemma pos_range x : 0 <= pos x < N.
Proof using HN. apply Z.mod_pos_bound. lia. Qed.

Lemma pos_inj x y : Z.abs (x - y) < N -> pos x = pos y -> x = y.
Proof using HN.
  unfold pos. intros Hd E.
  pose proof (Z.div_mod (x + c) N ltac:(lia)) as Ex.
  pose proof (Z.div_mod (y + c) N ltac:(lia)) as Ey. rewrite E in Ex.
  assert (x - y = N * ((x + c) / N - (y + c) / N)) as Ed by (rewrite Z.mul_sub_distr_l; lia).
  destruct (Z.eq_dec ((x + c) / N - (y + c) / N) 0) as [E0|E0]; [rewrite E0 in Ed; lia|].
  clear Ex Ey E. nia.
Qed.

(** The index arithmetic of the source: [(p + k) % m_iSize]. *)
Lemma pos_shift x k :
  0 <= pos x + k -> Z.rem (pos x + k) N = pos (x + k).
Proof using HN.
  intros. rewrite Z.rem_mod_nonneg by lia. unfold pos.
  rewrite Z.add_mod_idemp_l by lia. f_equal. lia.
Qed.

Lemma pos_shift_back x : Z.rem (pos x - 1 + N) N = pos (x - 1).
Proof using HN.
  pose proof (pos_range x). rewrite Z.rem_mod_nonneg by lia. unfold pos.
  replace ((x + c) mod N - 1 + N) with ((x + c) mod N + (N - 1)) by lia.
  rewrite Z.add_mod_idemp_l by lia.
  replace (x + c + (N - 1)) with (x - 1 + c + 1 * N) by lia. apply Z.mod_add. lia.
Qed.

Lemma last_pos_snoc prev nodes a b : last_pos prev (nodes ++ [(a, b)]) = pos a.
Proof. by rewrite last_pos_app. Qed.

End Layout.

(** ** Ranges within one turn of the array *)

Definition window (N : Z) (nodes : list range) : Prop :=
  match nodes with [] => True | (a, _) :: _ => ordered a nodes (a + N) end.

Lemma window_head N a b r : window N ((a, b) :: r) -> ordered a ((a, b) :: r) (a + N).
Proof. done. Qed.

Lemma count_zero N nodes : window N nodes -> count nodes = 0 -> nodes = [].
Proof.
  destruct nodes as [|[a b] r]; [done|]. intros (? & ? & H)%window_head. simpl.
  pose proof (count_nonneg _ _ _ H). lia.
Qed.

Lemma window_elem N a0 b0 r a b :
  window N ((a0, b0) :: r) -> (a, b) ∈ (a0, b0) :: r -> a0 <= a <= b /\ b < a0 + N.
Proof. intros H%window_head Hin. by eapply ordered_elem. Qed.

Lemma window_snoc N pre a b :
  window N (pre ++ [(a, b)]) ->
  exists a0 b0 r, pre ++ [(a, b)] = (a0, b0) :: r /\ ordered a0 pre a /\ a0 <= a <= b /\ b < a0 + N.
Proof.
  destruct pre as [|[a0 b0] r].
  - intros H%window_head. exists a, b, []. split; [done|].
    simpl in H. split; [done | lia].
  - intros H. exists a0, b0, (r ++ [(a, b)]). split; [done|].
    assert (ordered a0 (((a0, b0) :: r) ++ [(a, b)]) (a0 + N)) as H' by exact H.
    apply ordered_split in H'. intuition lia.
Qed.

Lemma nodes_snoc (nodes : list range) : nodes = [] \/ exists pre a b, nodes = pre ++ [(a, b)].
Proof.
  destruct nodes as [|x r] using rev_ind; [by left|].
  right. destruct x as [a b]. eauto.
Qed.

Lemma seq_of_not_none x : (seq_of x =? SRT_SEQNO_NONE) = false.
Proof. apply Z.eqb_neq. pose proof (seq_of_valid x). unfold valid_seq, SRT_SEQNO_NONE in *. lia. Qed.

Lemma end_of_none a b : (end_of a b =? SRT_SEQNO_NONE) = (a =? b).
Proof. unfold end_of. destruct (Z.eqb_spec a b); [done | apply seq_of_not_none]. Qed.

Lemma end_of_multi a b : a <> b -> end_of a b = seq_of b.
Proof. unfold end_of. by destruct (Z.eqb_spec a b). Qed.

(** ** Sets of packets *)

Definition range_set (a b : Z) : gset Z := list_to_set (seqZ a (b - a + 1)).

Lemma elem_of_range_set a b x : x ∈ range_set a b <-> a <= x <= b.
Proof. unfold range_set. rewrite elem_of_list_to_set, elem_of_seqZ. lia. Qed.

#[export] Instance set_unfold_range_set a b x :
  SetUnfoldElemOf x (range_set a b) (a <= x <= b).
Proof. constructor. apply elem_of_range_set. Qed.

Lemma size_range_set a b : a <= b + 1 -> Z.of_nat (size (range_set a b)) = b - a + 1.
Proof.
  intros. unfold range_set. rewrite size_list_to_set by apply NoDup_seqZ. rewrite length_seqZ. lia.
Qed.

Lemma count_size lo nodes hi (X : gset Z) :
  ordered lo nodes hi -> (forall x, x ∈ X <-> lost nodes x) -> count nodes = Z.of_nat (size X).
Proof.
  revert lo X. induction nodes as [|[a b] r IH]; intros lo X Ho HX.
  - assert (X = ∅) as -> by (apply set_eq; intros x; rewrite HX, lost_nil; set_solver). done.
  - destruct Ho as (? & ? & Ho).
    assert (range_set a b ## X ∖ range_set a b) as Hd by set_solver.
    rewrite (union_difference_L (range_set a b) X)
      by (intros x; rewrite HX, lost_cons; set_solver).
    rewrite size_union by done. simpl. rewrite (IH (b + 1) (X ∖ range_set a b) Ho).
    + pose proof (size_range_set a b). lia.
    + intros x. rewrite elem_of_difference, HX, lost_cons, elem_of_range_set.
      split; [tauto|]. intros Hx. pose proof (lost_bounds _ _ _ _ Ho Hx). split; [tauto|lia].
Qed.

(** The range that starts at [y], if any. *)
Lemma start_at (nodes : list range) (y : Z) :
  (exists pre b post, nodes = pre ++ (y, b) :: post) \/ (forall a b, (a, b) ∈ nodes -> a <> y).
Proof.
  induction nodes as [|[a b] r [(pre & b' & post & ->)|IH]].
  - right. by intros ?? ?%not_elem_of_nil.
  - left. by exists ((a, b) :: pre), b', post.
  - destruct (decide (a = y)) as [->|Hne]; [left; by exists [], b, r|]. right.
    intros a' b' [[= -> ->]|Hin]%elem_of_cons; [done | eauto].
Qed.

(** Any packet from the first lost one on, in the window or beyond it. *)
Lemma window_alias N a0 y : 0 < N -> exists k, a0 <= y - k * N < a0 + N.
Proof. intros. exists ((y - a0) / N). pose proof (Z.div_mod (y - a0) N). pose proof (Z.mod_pos_bound (y - a0) N). lia. Qed.

Lemma pos_alias N c y k : 0 < N -> pos N c (y - k * N) = pos N c y.
Proof.
  intros. unfold pos. replace (y - k * N + c) with (y + c + (- k) * N) by lia. apply Z.mod_add. lia.
Qed.
