(* ===== verification/RcvLossList.v ===== *)
(** * The receiver's loss list (srtcore/list.h, list.cpp: [CRcvLossList])

    A doubly linked list of loss ranges laid out in a circular array: the node
    of a range that begins [k] packets after the first lost one is the array
    element [k] places after the head. This file is the model; the
    correctness proof against a set of packet indices is in RcvLossListSpec.v.

    Every operation returns [None] exactly when the source would access
    [m_caSeq] out of bounds (or the search loop would run forever). *)

From S2P Require Import Prelude SeqNo.

Module CRcvLossList.

Record Seq := mkSeq { seqstart : Z; seqend : Z; inext : Z; iprior : Z }.

Definition set_seqstart (v : Z) (s : Seq) := mkSeq v (seqend s) (inext s) (iprior s).
Definition set_seqend (v : Z) (s : Seq) := mkSeq (seqstart s) v (inext s) (iprior s).
Definition set_inext (v : Z) (s : Seq) := mkSeq (seqstart s) (seqend s) v (iprior s).
Definition set_iprior (v : Z) (s : Seq) := mkSeq (seqstart s) (seqend s) (inext s) v.

Record t := mk {
  m_caSeq : list Seq;
  m_iHead : Z;
  m_iTail : Z;
  m_iLength : Z;
  m_iSize : Z;
  m_iLargestSeq : Z
}.

Definition set_largest (v : Z) (l : t) : t :=
  mk (m_caSeq l) (m_iHead l) (m_iTail l) (m_iLength l) (m_iSize l) v.

(** [new Seq[m_iSize]] leaves the link fields indeterminate: [junk]. *)
Definition create (junk size : Z) : t :=
  mk (replicate (Z.to_nat size) (mkSeq SRT_SEQNO_NONE SRT_SEQNO_NONE junk junk))
     (-1) (-1) 0 size SRT_SEQNO_NONE.

Definition getLossLength (l : t) : Z := m_iLength l.

Definition getFirstLostSeq (l : t) : option Z :=
  if m_iLength l =? 0 then Some SRT_SEQNO_NONE
  else h ← aget (m_caSeq l) (m_iHead l); Some (seqstart h).

(** The range still to be inserted once what is not newer than
    [m_iLargestSeq] is cut off; [None]: all of it. *)
Definition insert_cut (largest seqno1 seqno2 : Z) : option Z :=
  if negb (largest =? SRT_SEQNO_NONE) && (CSeqNo.seqcmp seqno1 largest <=? 0) then
    if CSeqNo.seqcmp seqno2 largest >? 0 then Some (CSeqNo.incseq largest) else None
  else Some seqno1.

(** The branch of [insert] that fills node [loc] and links it after [tail]. *)
Definition append_node (a : list Seq) (tail loc seqno1 seqno2 : Z) : option (list Seq) :=
  a ← aupd a loc (set_seqstart seqno1);
  a ← (if seqno2 =? seqno1 then Some a else aupd a loc (set_seqend seqno2));
  a ← aupd a tail (set_inext loc);
  a ← aupd a loc (set_iprior tail);
  aupd a loc (set_inext (-1)).

Definition insert (l : t) (seqno1_ seqno2 : Z) : option (Z * t) :=
  match insert_cut (m_iLargestSeq l) seqno1_ seqno2 with
  | None => Some (0, l)
  | Some seqno1 =>
    let a := m_caSeq l in
    if m_iLength l =? 0 then
      a ← aupd a 0 (set_seqstart seqno1);
      a ← (if seqno2 =? seqno1 then Some a else aupd a 0 (set_seqend seqno2));
      a ← aupd a 0 (set_inext (-1));
      a ← aupd a 0 (set_iprior (-1));
      let n := CSeqNo.seqlen seqno1 seqno2 in
      Some (n, mk a 0 0 (i32 (m_iLength l + n)) (m_iSize l) seqno2)
    else
      h ← aget a (m_iHead l);
      let offset := CSeqNo.seqoff (seqstart h) seqno1 in
      if offset <? 0 then Some (-1, set_largest seqno2 l)
      else
        let loc := Z.rem (i32 (m_iHead l + offset)) (m_iSize l) in
        tl ← aget a (m_iTail l);
        at_ ← (if negb (seqend tl =? SRT_SEQNO_NONE) && (CSeqNo.incseq (seqend tl) =? seqno1) then
                 a ← aupd a (m_iTail l) (set_seqend seqno2);
                 Some (a, m_iTail l)
               else
                 a ← append_node a (m_iTail l) loc seqno1 seqno2;
                 Some (a, loc));
        let n := CSeqNo.seqlen seqno1 seqno2 in
        Some (n, mk (fst at_) (m_iHead l) (snd at_) (i32 (m_iLength l + n)) (m_iSize l) seqno2)
  end.

(** [while (SRT_SEQNO_NONE == m_caSeq[i].seqstart) i = (i - 1 + m_iSize) % m_iSize;]
    A full turn without a node would loop forever: the fuel is [m_iSize]. *)
Fixpoint scan_back (fuel : nat) (a : list Seq) (size i : Z) : option Z :=
  match fuel with
  | O => None
  | S f =>
    c ← aget a i;
    if seqstart c =? SRT_SEQNO_NONE then scan_back f a size (Z.rem (i32 (i - 1 + size)) size)
    else Some i
  end.

(** Removal of a range's first number ([seqno == m_caSeq[loc].seqstart]):
    the array with the new head and tail. *)
Definition remove_single (l : t) (a : list Seq) (loc : Z) : option (list Seq * Z * Z) :=
  if m_iHead l =? loc then
    h ← aget a (m_iHead l);
    let head := inext h in
    if negb (head =? -1) then
      a ← aupd a head (set_iprior (-1)); Some (a, head, m_iTail l)
    else Some (a, head, -1)
  else
    c ← aget a loc;
    a ← aupd a (iprior c) (set_inext (inext c));
    c ← aget a loc;
    if negb (inext c =? -1) then
      a ← aupd a (inext c) (set_iprior (iprior c)); Some (a, m_iHead l, m_iTail l)
    else Some (a, m_iHead l, iprior c).

(** The end of the branch that moves node [loc] to [i]: the neighbours (or the
    head and tail) follow. *)
Definition move_links (l : t) (a : list Seq) (loc i : Z) : option (list Seq * Z * Z) :=
  ah ← (if m_iHead l =? loc then Some (a, i)
        else
          ci ← aget a i;
          a ← aupd a (iprior ci) (set_inext i);
          Some (a, m_iHead l));
  let '(a, head) := ah in
  if m_iTail l =? loc then Some (a, head, i)
  else
    ci ← aget a i;
    a ← aupd a (inext ci) (set_iprior i);
    Some (a, head, m_iTail l).

Definition remove_start (l : t) (loc : Z) : option (list Seq * Z * Z) :=
  let a := m_caSeq l in
  c ← aget a loc;
  if seqend c =? SRT_SEQNO_NONE then
    aht ← remove_single l a loc;
    let '(a, head, tail) := aht in
    a ← aupd a loc (set_seqstart SRT_SEQNO_NONE);
    Some (a, head, tail)
  else
    let i := Z.rem (i32 (loc + 1)) (m_iSize l) in
    a ← aupd a i (set_seqstart (CSeqNo.incseq (seqstart c)));
    c ← aget a loc;
    a ← (if CSeqNo.seqcmp (seqend c) (CSeqNo.incseq (seqstart c)) >? 0
         then aupd a i (set_seqend (seqend c)) else Some a);
    a ← aupd a loc (set_seqstart SRT_SEQNO_NONE);
    a ← aupd a loc (set_seqend SRT_SEQNO_NONE);
    c ← aget a loc;
    a ← aupd a i (set_inext (inext c));
    c ← aget a loc;
    a ← aupd a i (set_iprior (iprior c));
    move_links l a loc i.

(** The range of node [i] cut before [seqno]. *)
Definition cut_end (a : list Seq) (i seqno : Z) : option (list Seq) :=
  c ← aget a i;
  if seqno =? CSeqNo.incseq (seqstart c) then aupd a i (set_seqend SRT_SEQNO_NONE)
  else aupd a i (set_seqend (CSeqNo.decseq seqno)).

(** Removal from inside or from the end of the range of node [i]. *)
Definition remove_inner (l : t) (loc i seqno : Z) : option (list Seq * Z) :=
  let a := m_caSeq l in
  c ← aget a i;
  if seqno =? seqend c then
    a ← cut_end a i seqno;
    Some (a, m_iTail l)
  else
    let loc := Z.rem (i32 (loc + 1)) (m_iSize l) in
    a ← aupd a loc (set_seqstart (CSeqNo.incseq seqno));
    c ← aget a i;
    n ← aget a loc;
    a ← (if CSeqNo.seqcmp (seqend c) (seqstart n) >? 0
         then aupd a loc (set_seqend (seqend c)) else Some a);
    a ← cut_end a i seqno;
    c ← aget a i;
    a ← aupd a loc (set_inext (inext c));
    a ← aupd a i (set_inext loc);
    a ← aupd a loc (set_iprior i);
    if m_iTail l =? i then Some (a, loc)
    else
      n ← aget a loc;
      a ← aupd a (inext n) (set_iprior loc);
      Some (a, m_iTail l).

(** The common end of both removals. *)
Definition removed (l : t) (a : list Seq) (head tail largest : Z) : t :=
  let len := i32 (m_iLength l - 1) in
  mk a head tail len (m_iSize l) (if len =? 0 then SRT_SEQNO_NONE else largest).

(** [remove] after its update of [m_iLargestSeq]. *)
Definition remove_known (l : t) (seqno : Z) : option (bool * t) :=
  if m_iLength l =? 0 then Some (false, l)
  else
    h ← aget (m_caSeq l) (m_iHead l);
    let offset := CSeqNo.seqoff (seqstart h) seqno in
    if offset <? 0 then Some (false, l)
    else
      let loc := Z.rem (i32 (m_iHead l + offset)) (m_iSize l) in
      c ← aget (m_caSeq l) loc;
      if seqno =? seqstart c then
        r ← remove_start l loc;
        let '(a, head, tail) := r in
        Some (true, removed l a head tail (m_iLargestSeq l))
      else
        i ← scan_back (Z.to_nat (m_iSize l)) (m_caSeq l) (m_iSize l)
              (Z.rem (i32 (loc - 1 + m_iSize l)) (m_iSize l));
        c ← aget (m_caSeq l) i;
        if (seqend c =? SRT_SEQNO_NONE) || (CSeqNo.seqcmp seqno (seqend c) >? 0) then Some (false, l)
        else
          r ← remove_inner l loc i seqno;
          let '(a, tail) := r in
          Some (true, removed l a (m_iHead l) tail (m_iLargestSeq l)).

Definition remove (l : t) (seqno : Z) : option (bool * t) :=
  remove_known
    (if (m_iLargestSeq l =? SRT_SEQNO_NONE) || (CSeqNo.seqcmp seqno (m_iLargestSeq l) >? 0)
     then set_largest seqno l else l) seqno.

(** [for (i = seqno1; seqcmp(i, seqno2) <= 0; i = incseq(i)) remove(i);] *)
Fixpoint remove_loop (fuel : nat) (l : t) (i last : Z) : option t :=
  if CSeqNo.seqcmp i last <=? 0 then
    match fuel with
    | O => None
    | S f => r ← remove l i; remove_loop f (snd r) (CSeqNo.incseq i) last
    end
  else Some l.

Definition remove_range (fuel : nat) (l : t) (seqno1 seqno2 : Z) : option (bool * t) :=
  if CSeqNo.seqcmp seqno1 seqno2 >? 0 then Some (false, l)
  else l' ← remove_loop fuel l seqno1 seqno2; Some (true, l').

Definition removeUpTo (fuel : nat) (l : t) (seqno_last : Z) : option (Z * t) :=
  first ← getFirstLostSeq l;
  if first =? SRT_SEQNO_NONE then Some (first, l)
  else if CSeqNo.seqcmp seqno_last first <? 0 then Some (first, l)
  else l' ← remove_loop fuel l first seqno_last; Some (first, l').

Definition find_node (c : Seq) (seqno1 seqno2 : Z) : bool :=
  (CSeqNo.seqcmp (seqstart c) seqno1 =? 0)
  || ((CSeqNo.seqcmp (seqstart c) seqno1 >? 0) && (CSeqNo.seqcmp (seqstart c) seqno2 <=? 0))
  || ((CSeqNo.seqcmp (seqstart c) seqno1 <? 0) && negb (seqend c =? SRT_SEQNO_NONE)
      && (CSeqNo.seqcmp (seqend c) seqno1 >=? 0)).

Fixpoint find_loop (fuel : nat) (a : list Seq) (p seqno1 seqno2 : Z) : option bool :=
  if p =? -1 then Some false
  else
    match fuel with
    | O => None
    | S f =>
      c ← aget a p;
      if find_node c seqno1 seqno2 then Some true
      else find_loop f a (inext c) seqno1 seqno2
    end.

Definition find (l : t) (seqno1 seqno2 : Z) : option bool :=
  if m_iLength l =? 0 then Some false
  else find_loop (Z.to_nat (m_iSize l)) (m_caSeq l) (m_iHead l) seqno1 seqno2.

Definition LOSSDATA_SEQNO_RANGE_FIRST : Z := i32 (2 ^ 31).

(** [getLossArray]: [cap] is the size of the output array, the result its
    filled part. *)
Fixpoint loss_array_loop (fuel : nat) (a : list Seq) (cap i : Z) (out : list Z) : option (list Z) :=
  if (Z.of_nat (length out) <? cap - 1) && negb (i =? -1) then
    match fuel with
    | O => None
    | S f =>
      c ← aget a i;
      let out' :=
        if seqend c =? SRT_SEQNO_NONE then out ++ [seqstart c]
        else out ++ [Z.lor (seqstart c) LOSSDATA_SEQNO_RANGE_FIRST; seqend c] in
      loss_array_loop f a cap (inext c) out'
    end
  else Some out.

Definition getLossArray (l : t) (cap : Z) : option (list Z) :=
  loss_array_loop (Z.to_nat (m_iSize l)) (m_caSeq l) cap (m_iHead l) [].

End CRcvLossList.
