(* ===== verification/RcvLossListSpec.v ===== *)
(** * The receiver's loss list is a set of lost packets

    The specification of [CRcvLossList] is a set of packet indices. The
    representation relation [rep] ties the array, its links and counters to a
    sorted list of disjoint index ranges; each operation is shown to stay in
    bounds, to terminate and to act on that set as documented in list.h. *)

From S2P Require Import Prelude SeqNo Ranges RcvLossList.
Import CRcvLossList.

(** ** The linked layout *)

Section Layout.

Context (N c : Z).

Notation pos := (pos N c).
Notation first_pos := (first_pos N c).
Notation last_pos := (last_pos N c).

Fixpoint chain (arr : list Seq) (prev : Z) (nodes : list range) (next : Z) : Prop :=
  match nodes with
  | [] => True
  | (a, b) :: r =>
    aget arr (pos a) = Some (mkSeq (seq_of a) (end_of a b) (first_pos r next) prev)
    /\ chain arr (pos a) r next
  end.

Lemma chain_app arr prev l1 l2 next :
  chain arr prev (l1 ++ l2) next <->
  chain arr prev l1 (first_pos l2 next) /\ chain arr (last_pos prev l1) l2 next.
Proof.
  revert prev. induction l1 as [|[a b] r IH]; intros prev; simpl; [tauto|].
  rewrite IH, first_pos_app. tauto.
Qed.

Lemma chain_frame arr arr' prev nodes next :
  (forall a b, (a, b) ∈ nodes -> aget arr' (pos a) = aget arr (pos a)) ->
  chain arr prev nodes next -> chain arr' prev nodes next.
Proof.
  revert prev. induction nodes as [|[a b] r IH]; intros prev Hf; simpl; [done|].
  intros [Hc Hr]. split.
  - rewrite (Hf a b); [done | constructor].
  - apply IH; [|done]. intros a' b' Hin. apply (Hf a' b'). by constructor.
Qed.

End Layout.

Definition blank (arr : list Seq) (i : Z) : Prop :=
  exists s, aget arr i = Some s /\ seqstart s = SRT_SEQNO_NONE /\ seqend s = SRT_SEQNO_NONE.

(** [nodes]: the loss ranges, as packet indices; [c]: the placement of indices
    in the array; [L]: the largest index seen, if any. *)
Record rep (l : t) (c : Z) (nodes : list range) (L : option Z) : Prop := {
  rep_size : 0 < m_iSize l <= 2 ^ 29;
  rep_len : Z.of_nat (length (m_caSeq l)) = m_iSize l;
  rep_window : window (m_iSize l) nodes;
  rep_chain : chain (m_iSize l) c (m_caSeq l) (-1) nodes (-1);
  rep_head : m_iHead l = first_pos (m_iSize l) c nodes (-1);
  rep_tail : m_iTail l = last_pos (m_iSize l) c (-1) nodes;
  rep_count : m_iLength l = count nodes;
  rep_blank : forall i, 0 <= i < m_iSize l ->
    (forall a b, (a, b) ∈ nodes -> pos (m_iSize l) c a <> i) -> blank (m_caSeq l) i;
  rep_largest :
    match L with
    | None => m_iLargestSeq l = SRT_SEQNO_NONE /\ nodes = []
    | Some m => m_iLargestSeq l = seq_of m /\ forall a b, (a, b) ∈ nodes -> b <= m
    end
}.

(** [y] is close enough to the list's numbers for the circular comparisons. *)
Definition near (nodes : list range) (L : option Z) (y : Z) : Prop :=
  (forall m, L = Some m -> Z.abs (y - m) < CSeqNo.m_iSeqNoTH)
  /\ (forall a b r, nodes = (a, b) :: r -> Z.abs (y - a) < CSeqNo.m_iSeqNoTH).

(** Fields of an updated element. *)
Ltac seq_simp := unfold set_seqstart, set_seqend, set_inext, set_iprior in *; simpl in *.

Ltac seq_red :=
  cbn [mbind option_bind fmap option_fmap option_map seqstart seqend inext iprior
       set_seqstart set_seqend set_inext set_iprior fst snd].

Lemma insert_empty_rep l c L s1 x1 x2 :
  rep l c [] L -> x1 <= x2 < x1 + m_iSize l ->
  insert_cut (m_iLargestSeq l) s1 (seq_of x2) = Some (seq_of x1) ->
  exists l', insert l s1 (seq_of x2) = Some (x2 - x1 + 1, l')
    /\ rep l' (- x1) [(x1, x2)] (Some x2).
Proof.
  intros R Hx Hcut. destruct R. simpl in *.
  unfold insert. rewrite Hcut. cbv zeta. rewrite rep_count0. simpl (0 =? 0). cbv iota.
  assert (pos (m_iSize l) (- x1) x1 = 0) as Hp
    by (unfold pos; rewrite Z.add_opp_diag_r; apply Z.mod_0_l; lia).
  destruct (rep_blank0 0 ltac:(lia)) as (s & Hs & Hs1 & Hs2).
  { by intros a b ?%not_elem_of_nil. }
  upd_step.
  assert (exists arr', (if seq_of x2 =? seq_of x1 then Some arr else aupd arr 0 (set_seqend (seq_of x2)))
                       = Some arr' /\ length arr' = length arr
          /\ aget arr' 0 = Some (mkSeq (seq_of x1) (end_of x1 x2) (inext s) (iprior s))
          /\ forall j, j <> 0 -> aget arr' j = aget (m_caSeq l) j) as (arr' & -> & Hl' & H0 & Hj).
  { unfold end_of. destruct (Z.eqb_spec (seq_of x2) (seq_of x1)) as [E|E].
    - apply seq_of_inj in E; [|lia]. subst x2. rewrite Z.eqb_refl. exists arr.
      repeat split; [by aget_simp; rewrite Hs; seq_simp; rewrite Hs2 | intros; by aget_simp].
    - destruct (Z.eqb_spec x1 x2); [congruence|]. upd_step. exists arr0.
      repeat split; [lia | by aget_simp; rewrite Hs | intros; by aget_simp]. }
  cbn [mbind option_bind]. do 2 upd_step. rewrite seqlen_seq_of by (unfold CSeqNo.m_iMaxSeqNo; lia).
  eexists. split; [reflexivity|]. constructor; simpl; try lia.
  - rewrite Hp. split; [|done]. by aget_simp; rewrite H0.
  - rewrite i32_id by (unfold is_i32; lia). lia.
  - intros i Hi Hni. specialize (Hni x1 x2 ltac:(constructor)). rewrite Hp in Hni.
    destruct (rep_blank0 i ltac:(lia)) as (s' & Hs' & ?).
    { by intros a b ?%not_elem_of_nil. }
    exists s'. split; [|done]. aget_simp. rewrite Hj by done. done.
  - split; [done|]. intros a b [[= -> ->]|?%not_elem_of_nil]%elem_of_cons; lia.
Qed.

(** What the links and the window say about the last and the first range. *)
Lemma rep_snoc l c pre a b L :
  rep l c (pre ++ [(a, b)]) L ->
  exists a0 b0 r,
    pre ++ [(a, b)] = (a0, b0) :: r
    /\ ordered a0 pre a /\ a0 <= a <= b /\ b < a0 + m_iSize l
    /\ m_iHead l = pos (m_iSize l) c a0 /\ m_iTail l = pos (m_iSize l) c a
    /\ aget (m_caSeq l) (m_iHead l)
       = Some (mkSeq (seq_of a0) (end_of a0 b0) (first_pos (m_iSize l) c r (-1)) (-1))
    /\ aget (m_caSeq l) (m_iTail l)
       = Some (mkSeq (seq_of a) (end_of a b) (-1) (last_pos (m_iSize l) c (-1) pre)).
Proof.
  intros R. destruct (window_snoc _ _ _ _ (rep_window _ _ _ _ R)) as (a0 & b0 & r & E & ? & ? & ?).
  exists a0, b0, r. pose proof (rep_head _ _ _ _ R) as Hh. pose proof (rep_tail _ _ _ _ R) as Ht.
  pose proof (rep_chain _ _ _ _ R) as Hc. rewrite last_pos_snoc in Ht.
  rewrite E in Hh. simpl in Hh. repeat (split; [done || lia|]). split.
  - rewrite Hh. rewrite E in Hc. apply Hc.
  - rewrite Ht. apply chain_app in Hc. apply Hc.
Qed.

Lemma count_snoc_pos l c pre a b L : rep l c (pre ++ [(a, b)]) L -> m_iLength l <> 0.
Proof.
  intros R E. rewrite (rep_count _ _ _ _ R) in E.
  apply (count_zero (m_iSize l)) in E; [|apply R]. by destruct pre.
Qed.

Lemma count_bound l c nodes L : rep l c nodes L -> 0 <= count nodes <= m_iSize l.
Proof.
  intros R. pose proof (rep_size _ _ _ _ R). destruct nodes as [|[a b] r]; [simpl; lia|].
  pose proof (window_head _ _ _ _ (rep_window _ _ _ _ R)) as Ho.
  pose proof (count_nonneg _ _ _ Ho). pose proof (count_le a _ (a + m_iSize l) ltac:(lia) Ho).
  simpl in *. lia.
Qed.

(** Appending a range that does not touch the last one. *)
Lemma insert_new_rep l c pre a b L x1 x2 :
  rep l c (pre ++ [(a, b)]) L -> b < x1 <= x2 ->
  (forall a0 b0 r, pre ++ [(a, b)] = (a0, b0) :: r -> x2 < a0 + m_iSize l) ->
  exists arr', append_node (m_caSeq l) (m_iTail l) (pos (m_iSize l) c x1) (seq_of x1) (seq_of x2)
               = Some arr'
    /\ rep (mk arr' (m_iHead l) (pos (m_iSize l) c x1) (count (pre ++ [(a, b); (x1, x2)])) (m_iSize l)
             (seq_of x2)) c (pre ++ [(a, b); (x1, x2)]) (Some x2).
Proof.
  intros R Hx Hfit. destruct (rep_snoc _ _ _ _ _ _ R) as (a0 & b0 & r & E & Hpre & Ha & Hb & Hh & Ht & Hch & Hct).
  specialize (Hfit _ _ _ E). set (N := m_iSize l) in *. set (p := pos N c x1).
  destruct R as [HN Hlen Hw Hc _ _ _ Hbl _]. fold N in HN, Hlen, Hw, Hc, Hbl.
  pose proof (pos_range N c ltac:(lia) x1) as Hp. fold p in Hp.
  pose proof (pos_range N c ltac:(lia) a) as Hpa.
  assert (forall a' b', (a', b') ∈ pre ++ [(a, b)] -> pos N c a' <> p) as Hne.
  { intros a' b' Hin Eq. rewrite E in Hin, Hw. pose proof (window_elem _ _ _ _ _ _ Hw Hin).
    rewrite <- E in Hin. apply (pos_inj N c) in Eq; [|lia|lia]. subst a'.
    apply elem_of_app in Hin as [Hin|[[= -> ->]|?%not_elem_of_nil]%elem_of_cons]; [|lia|done].
    pose proof (ordered_elem _ _ _ _ _ Hpre Hin). lia. }
  assert (pos N c a <> p) as Hap by (apply (Hne a b), elem_of_app; right; constructor).
  destruct (Hbl p Hp Hne) as (s & Hs & Hs1 & Hs2). rewrite Ht in *.
  unfold append_node. upd_step.
  assert (exists arr', (if seq_of x2 =? seq_of x1 then Some arr else aupd arr p (set_seqend (seq_of x2)))
                       = Some arr' /\ length arr' = length arr
          /\ aget arr' p = Some (mkSeq (seq_of x1) (end_of x1 x2) (inext s) (iprior s))
          /\ forall j, j <> p -> aget arr' j = aget (m_caSeq l) j) as (arr' & -> & Hl' & H0 & Hj).
  { unfold end_of. destruct (Z.eqb_spec (seq_of x2) (seq_of x1)) as [Eq|Eq].
    - apply seq_of_inj in Eq; [|lia]. subst x2. rewrite Z.eqb_refl. exists arr.
      repeat split; [by aget_simp; rewrite Hs; seq_simp; rewrite Hs2 | intros; by aget_simp].
    - destruct (Z.eqb_spec x1 x2); [congruence|]. upd_step. exists arr0.
      repeat split; [lia | by aget_simp; rewrite Hs | intros; by aget_simp]. }
  cbn [mbind option_bind]. do 3 upd_step. eexists. split; [reflexivity|].
  assert (forall j, j <> p -> j <> pos N c a -> aget arr2 j = aget (m_caSeq l) j) as Hfr
    by (intros; aget_simp; auto).
  constructor; simpl; fold N; try lia.
  - rewrite E in Hw. pose proof (window_head _ _ _ _ Hw) as Ho.
    change (pre ++ [(a, b); (x1, x2)]) with (pre ++ ([(a, b)] ++ [(x1, x2)])).
    rewrite app_assoc, E. simpl. rewrite <- E in Ho.
    change ((a0, b0) :: r ++ [(x1, x2)]) with (((a0, b0) :: r) ++ [(x1, x2)]).
    assert (ordered a0 ((pre ++ [(a, b)]) ++ [(x1, x2)]) (a0 + N)) as Hw'.
    { rewrite <- app_assoc. apply ordered_join; simpl; [done|lia..|]. repeat split; lia. }
    rewrite E in Hw'. exact Hw'.
  - apply chain_app in Hc as [Hc1 _]. apply chain_app. split.
    + eapply chain_frame; [|exact Hc1]. intros a' b' Hin. apply Hfr.
      * apply (Hne a' b'), elem_of_app. by left.
      * intros Eq. pose proof (ordered_elem _ _ _ _ _ Hpre Hin).
        apply (pos_inj N c) in Eq; lia.
    + simpl. fold p. repeat split.
      * aget_simp. rewrite Hj by done. by rewrite Hct.
      * aget_simp. by rewrite H0.
  - rewrite Hh. destruct pre as [|[a1 b1] pre]; simpl in E |- *; congruence.
  - by rewrite last_pos_app.
  - intros i Hi Hni. assert (i <> p) by (intros ->; eapply (Hni x1 x2); [|done]; set_solver).
    assert (i <> pos N c a) by (intros ->; eapply (Hni a b); [|done]; set_solver).
    destruct (Hbl i Hi) as (s' & Hs' & ?).
    { intros a' b' Hin. apply (Hni a' b'). set_solver. }
    exists s'. split; [|done]. by rewrite Hfr.
  - split; [done|]. intros a' b' [Hin|[[= -> ->]|[[= -> ->]|?%not_elem_of_nil]%elem_of_cons]%elem_of_cons]%elem_of_app;
      try lia; try done. pose proof (ordered_elem _ _ _ _ _ Hpre Hin). lia.
Qed.

(** Extending the last range. *)
Lemma insert_extend_rep l c pre a b L x2 :
  rep l c (pre ++ [(a, b)]) L -> a < b < x2 ->
  (forall a0 b0 r, pre ++ [(a, b)] = (a0, b0) :: r -> x2 < a0 + m_iSize l) ->
  exists arr', aupd (m_caSeq l) (m_iTail l) (set_seqend (seq_of x2)) = Some arr'
    /\ rep (mk arr' (m_iHead l) (m_iTail l) (count (pre ++ [(a, x2)])) (m_iSize l) (seq_of x2))
         c (pre ++ [(a, x2)]) (Some x2).
Proof.
  intros R Hx Hfit. destruct (rep_snoc _ _ _ _ _ _ R) as (a0 & b0 & r & E & Hpre & Ha & Hb & Hh & Ht & Hch & Hct).
  specialize (Hfit _ _ _ E). set (N := m_iSize l) in *.
  destruct R as [HN Hlen Hw Hc _ _ _ Hbl _]. fold N in HN, Hlen, Hw, Hc, Hbl.
  pose proof (pos_range N c ltac:(lia) a) as Hpa. rewrite Ht in *.
  upd_step. eexists. split; [reflexivity|]. constructor; simpl; fold N; try lia.
  - assert (ordered a0 (pre ++ [(a, x2)]) (a0 + N)) as Hw'
      by (apply ordered_join; [done|lia|lia|done]).
    destruct pre as [|[a1 b1] pre]; simpl in E |- *; injection E as -> -> _; exact Hw'.
  - apply chain_app in Hc as [Hc1 _]. apply chain_app. split.
    + eapply chain_frame; [|exact Hc1]. intros a' b' Hin. rewrite Hg, decide_False; [done|].
      intros Eq. pose proof (ordered_elem _ _ _ _ _ Hpre Hin). apply (pos_inj N c) in Eq; lia.
    + simpl. split; [|done]. aget_simp. rewrite Hct. unfold end_of. simpl.
      destruct (Z.eqb_spec a x2); [lia | done].
  - rewrite Hh. destruct pre as [|[a1 b1] pre]; simpl in E |- *; congruence.
  - by rewrite last_pos_snoc.
  - intros i Hi Hni. assert (i <> pos N c a) by (intros ->; eapply (Hni a x2); [|done]; set_solver).
    destruct (Hbl i Hi) as (s' & Hs' & ?).
    { intros a' b' [Hin|[[= -> ->]|?%not_elem_of_nil]%elem_of_cons]%elem_of_app; [|done|done].
      apply (Hni a' b'). set_solver. }
    exists s'. split; [|done]. by aget_simp.
  - split; [done|]. intros a' b' [Hin|[[= -> ->]|?%not_elem_of_nil]%elem_of_cons]%elem_of_app; [|lia|done].
    pose proof (ordered_elem _ _ _ _ _ Hpre Hin). lia.
Qed.

(** The cut of [insert]: only what is newer than the largest number seen. *)
Definition cutoff (L : option Z) (x1 : Z) : Z :=
  match L with None => x1 | Some m => Z.max x1 (m + 1) end.

Lemma insert_cut_exact l c nodes L x1 x2 :
  rep l c nodes L -> near nodes L x1 -> near nodes L x2 -> x1 <= x2 ->
  insert_cut (m_iLargestSeq l) (seq_of x1) (seq_of x2) =
    if x2 <? cutoff L x1 then None else Some (seq_of (cutoff L x1)).
Proof.
  intros R [N1 _] [N2 _] Hx. pose proof (rep_largest _ _ _ _ R) as HL. unfold insert_cut, cutoff.
  destruct L as [m|].
  - destruct HL as [-> _]. specialize (N1 m eq_refl). specialize (N2 m eq_refl).
    destruct (Z.eqb_spec (seq_of m) SRT_SEQNO_NONE) as [E|_];
      [pose proof (seq_of_valid m); unfold valid_seq, SRT_SEQNO_NONE in *; lia|].
    rewrite Z.gtb_ltb. simpl.
    pose proof (seqcmp_seq_of_sgn x1 m ltac:(lia)). pose proof (seqcmp_seq_of_sgn x2 m ltac:(lia)).
    rewrite incseq_seq_of.
    destruct (Z.leb_spec (CSeqNo.seqcmp (seq_of x1) (seq_of m)) 0),
      (Z.ltb_spec 0 (CSeqNo.seqcmp (seq_of x2) (seq_of m))), (Z.ltb_spec x2 (Z.max x1 (m + 1)));
      try reflexivity; try lia; do 2 f_equal; lia.
  - destruct HL as [-> _]. rewrite Z.eqb_refl. simpl. destruct (Z.ltb_spec x2 x1); [lia | done].
Qed.

Lemma rep_set_length l c nodes L k :
  rep l c nodes L -> k = count nodes ->
  rep (mk (m_caSeq l) (m_iHead l) (m_iTail l) k (m_iSize l) (m_iLargestSeq l)) c nodes L.
Proof. intros R ->. destruct R. by constructor. Qed.

(** [(m_iHead + offset) % m_iSize] is the place of the packet [offset] after the head. *)
Lemma head_offset l c a0 x :
  m_iHead l = pos (m_iSize l) c a0 -> 0 < m_iSize l <= 2 ^ 29 -> 0 <= x - a0 < 2 ^ 30 ->
  Z.rem (i32 (m_iHead l + (x - a0))) (m_iSize l) = pos (m_iSize l) c x.
Proof.
  intros -> ??. pose proof (pos_range (m_iSize l) c ltac:(lia) a0).
  rewrite i32_id by (unfold is_i32; lia). rewrite pos_shift by lia. f_equal. lia.
Qed.

(** [insert] on a nonempty list. *)
Lemma insert_nonempty_rep l c pre a b L s1 x1 x2 :
  rep l c (pre ++ [(a, b)]) L -> b < x1 <= x2 ->
  (forall a0 b0 r, pre ++ [(a, b)] = (a0, b0) :: r -> x2 < a0 + m_iSize l) ->
  insert_cut (m_iLargestSeq l) s1 (seq_of x2) = Some (seq_of x1) ->
  exists l' nodes', insert l s1 (seq_of x2) = Some (x2 - x1 + 1, l')
    /\ rep l' c nodes' (Some x2)
    /\ forall z, lost nodes' z <-> lost (pre ++ [(a, b)]) z \/ x1 <= z <= x2.
Proof.
  intros R Hx Hfit Hcut. pose proof (rep_size _ _ _ _ R) as HN.
  destruct (rep_snoc _ _ _ _ _ _ R) as (a0 & b0 & r & E & Hpre & Ha & Hb & Hh & Ht & Hch & Hct).
  pose proof (Hfit _ _ _ E) as Hfit0. pose proof (count_snoc_pos _ _ _ _ _ _ R) as Hlen.
  pose proof (count_bound _ _ _ _ R) as Hcb. pose proof (rep_count _ _ _ _ R) as Hcnt.
  unfold insert. rewrite Hcut. cbv zeta. apply Z.eqb_neq in Hlen. rewrite Hlen.
  rewrite Hch, Hct. cbn [mbind option_bind seqstart seqend].
  rewrite seqoff_seq_of by (unfold CSeqNo.m_iSeqNoTH; lia).
  destruct (Z.ltb_spec (x1 - a0) 0); [lia|].
  rewrite seqlen_seq_of by (unfold CSeqNo.m_iMaxSeqNo; lia).
  rewrite (head_offset _ c a0 x1), end_of_none by (assumption || lia). 
  assert (i32 (m_iLength l + (x2 - x1 + 1)) = count (pre ++ [(a, b)]) + (x2 - x1 + 1)) as ->
    by (rewrite Hcnt; apply i32_id; unfold is_i32; lia).
  destruct (Z.eqb_spec a b) as [Eab|Eab]; simpl negb; cbn [andb];
    [|replace (end_of a b) with (seq_of b) by (unfold end_of; by destruct (Z.eqb_spec a b));
      rewrite incseq_seq_of; destruct (Z.eqb_spec (seq_of (b + 1)) (seq_of x1)) as [Eb|Eb]].
  2: { apply seq_of_inj in Eb; [|lia]. subst x1.
       destruct (insert_extend_rep _ _ _ _ _ _ x2 R ltac:(lia) Hfit) as (arr' & -> & R').
       cbn [mbind option_bind fst snd]. eexists _, (pre ++ [(a, x2)]). split; [reflexivity|]. split.
       - revert R'. autorewrite with ranges. simpl.
         replace (count pre + (x2 - a + 1 + 0)) with (count pre + (b - a + 1 + 0) + (x2 - (b + 1) + 1)) by lia. done.
       - intros z. autorewrite with ranges. intuition lia. }
  all: destruct (insert_new_rep _ _ _ _ _ _ x1 x2 R ltac:(lia) Hfit) as (arr' & Harr & R').
  all: rewrite Harr; cbn [mbind option_bind fst snd]; eexists _, (pre ++ [(a, b); (x1, x2)]).
  all: split; [reflexivity|]; split; [|intros z; autorewrite with ranges; intuition lia].
  all: revert R'; rewrite !count_app; simpl.
  all: replace (b - a + 1 + (x2 - x1 + 1 + 0)) with (b - a + 1 + 0 + (x2 - x1 + 1)) by lia.
  all: rewrite Z.add_assoc; done.
Qed.

(** ** Searching backwards *)

(** The range that precedes or contains [x]. *)
Lemma ordered_floor lo nodes hi a0 b0 r x :
  ordered lo nodes hi -> nodes = (a0, b0) :: r -> a0 <= x ->
  exists pre a b post, nodes = pre ++ (a, b) :: post /\ a <= x
    /\ forall a' b', (a', b') ∈ post -> x < a'.
Proof.
  revert lo a0 b0 r. induction nodes as [|[a b] nodes IH]; intros lo a0 b0 r; [done|].
  intros (? & ? & Ho) [= -> -> ->] Hx. destruct r as [|[a1 b1] r].
  - exists [], a0, b0, []. repeat split; [done|]. by intros ?? ?%not_elem_of_nil.
  - destruct (Z.le_gt_cases a1 x) as [H1|H1].
    + destruct (IH _ a1 b1 r Ho eq_refl H1) as (pre & a & b & post & E & ? & ?).
      exists ((a0, b0) :: pre), a, b, post. rewrite E. repeat split; done.
    + exists [], a0, b0, ((a1, b1) :: r). repeat split; [done|]. intros a' b' Hin.
      destruct Ho as (? & ? & Ho). apply elem_of_cons in Hin as [[= -> ->]|Hin]; [lia|].
      pose proof (ordered_elem _ _ _ _ _ Ho Hin). lia.
Qed.

Lemma scan_back_finds N c arr k x s fuel :
  0 < N <= 2 ^ 29 -> (k < fuel)%nat ->
  aget arr (pos N c (x - Z.of_nat k)) = Some s -> seqstart s <> SRT_SEQNO_NONE ->
  (forall k', (k' < k)%nat -> blank arr (pos N c (x - Z.of_nat k'))) ->
  scan_back fuel arr N (pos N c x) = Some (pos N c (x - Z.of_nat k)).
Proof.
  intros HN. revert x fuel. induction k as [|k IH]; intros x fuel Hf Hs Hns Hb.
  - destruct fuel; [lia|]. simpl. rewrite Z.sub_0_r in *. rewrite Hs. simpl.
    by destruct (Z.eqb_spec (seqstart s) SRT_SEQNO_NONE).
  - destruct fuel as [|f]; [lia|]. simpl. destruct (Hb 0%nat ltac:(lia)) as (s' & Hs' & E & _).
    rewrite Z.sub_0_r in Hs'. rewrite Hs'. simpl. rewrite E, Z.eqb_refl.
    pose proof (pos_range N c ltac:(lia) x). rewrite i32_id by (unfold is_i32; lia).
    rewrite pos_shift_back by lia. replace (x - Z.of_nat (S k)) with (x - 1 - Z.of_nat k) in * by lia.
    apply IH; [lia|done|done|]. intros k' Hk'. replace (x - 1 - Z.of_nat k') with (x - Z.of_nat (S k')) by lia.
    apply Hb. lia.
Qed.

(** The backward search from a packet of the window ends at its floor range. *)
Lemma scan_back_rep l c nodes L a0 b0 r x :
  rep l c nodes L -> nodes = (a0, b0) :: r -> a0 <= x < a0 + m_iSize l ->
  exists pre a b post, nodes = pre ++ (a, b) :: post /\ a <= x
    /\ (forall a' b', (a', b') ∈ post -> x < a')
    /\ scan_back (Z.to_nat (m_iSize l)) (m_caSeq l) (m_iSize l) (pos (m_iSize l) c x)
       = Some (pos (m_iSize l) c a)
    /\ aget (m_caSeq l) (pos (m_iSize l) c a)
       = Some (mkSeq (seq_of a) (end_of a b) (first_pos (m_iSize l) c post (-1))
                 (last_pos (m_iSize l) c (-1) pre)).
Proof.
  intros R E Hx. pose proof (rep_window _ _ _ _ R) as Hw. pose proof (rep_size _ _ _ _ R) as HN.
  rewrite E in Hw. apply window_head in Hw. rewrite <- E in Hw.
  destruct (ordered_floor _ _ _ _ _ _ x Hw E ltac:(lia)) as (pre & a & b & post & Es & Ha & Hpost).
  exists pre, a, b, post. repeat (split; [done|]).
  pose proof (rep_chain _ _ _ _ R) as Hc. rewrite Es in Hc. apply chain_app in Hc as [_ [Hca _]].
  split; [|done]. pose proof Hw as Hw'. rewrite Es in Hw'. apply ordered_split in Hw' as (Hpre & ? & ? & Hpo).
  replace (pos (m_iSize l) c a) with (pos (m_iSize l) c (x - Z.of_nat (Z.to_nat (x - a)))) in *
    by (f_equal; lia).
  eapply scan_back_finds; [lia|lia|exact Hca| |].
  - simpl. apply Z.eqb_neq, seq_of_not_none.
  - intros k' Hk'. apply (rep_blank _ _ _ _ R); [apply pos_range; lia|].
    intros a' b' Hin Eq. pose proof (ordered_elem _ _ _ _ _ Hw Hin).
    apply pos_inj in Eq; [|lia|lia]. rewrite Es in Hin.
    apply elem_of_app in Hin as [Hin|[[= -> ->]|Hin]%elem_of_cons].
    + pose proof (ordered_elem _ _ _ _ _ Hpre Hin). lia.
    + lia.
    + specialize (Hpost _ _ Hin). lia.
Qed.

(** ** Replacing one range *)

Section Relink.

Context (N c : Z) (HN : 0 < N).
Implicit Types (arr : list Seq) (nodes : list range).

Lemma first_pos_range nodes lo hi next :
  ordered lo nodes hi -> first_pos N c nodes next = next \/ 0 <= first_pos N c nodes next < N.
Proof using HN. destruct nodes as [|[a b] r]; simpl; [by left|]. intros. right. by apply pos_range. Qed.

Lemma last_pos_elem prev nodes :
  nodes <> [] -> exists a b, (a, b) ∈ nodes /\ last_pos N c prev nodes = pos N c a.
Proof.
  clear HN. intros Hn. destruct (nodes_snoc nodes) as [->|(pre & a & b & ->)]; [done|].
  exists a, b. rewrite last_pos_snoc. split; [|done]. set_solver.
Qed.

(** A new successor for the last range of a chain. *)
Lemma chain_set_next arr arr' prev nodes lo hi next next' :
  ordered lo nodes hi -> hi <= lo + N -> chain N c arr prev nodes next ->
  (forall a b, (a, b) ∈ nodes -> aget arr' (pos N c a) =
     if decide (last_pos N c prev nodes = pos N c a) then set_inext next' <$> aget arr (pos N c a)
     else aget arr (pos N c a)) ->
  chain N c arr' prev nodes next'.
Proof using HN.
  revert prev lo. induction nodes as [|[a b] r IH]; intros prev lo; [done|].
  intros (? & ? & Ho) Hhi [Hc Hr] Hf. split.
  - rewrite (Hf a b) by constructor. rewrite Hc. destruct r as [|[a1 b1] r].
    + simpl. by rewrite decide_True.
    + rewrite decide_False; [done|]. change (last_pos N c prev ((a, b) :: (a1, b1) :: r))
        with (last_pos N c (pos N c a) ((a1, b1) :: r)).
      destruct (last_pos_elem (pos N c a) ((a1, b1) :: r)) as (a2 & b2 & Hin & ->); [done|].
      pose proof (ordered_elem _ _ _ _ _ Ho Hin). intros E. apply pos_inj in E; lia.
  - eapply IH; [exact Ho|lia|exact Hr|]. intros a' b' Hin.
    rewrite (Hf a' b') by (by constructor). done.
Qed.

(** A new predecessor for the first one. *)
Lemma chain_set_prev arr arr' prev prev' nodes lo hi next :
  ordered lo nodes hi -> hi <= lo + N -> chain N c arr prev nodes next ->
  (forall a b, (a, b) ∈ nodes -> aget arr' (pos N c a) =
     if decide (first_pos N c nodes (-1) = pos N c a) then set_iprior prev' <$> aget arr (pos N c a)
     else aget arr (pos N c a)) ->
  chain N c arr' prev' nodes next.
Proof using HN.
  destruct nodes as [|[a b] r]; [done|]. intros (? & ? & Ho) Hhi [Hc Hr] Hf. split.
  - rewrite (Hf a b) by constructor. rewrite Hc. simpl. by rewrite decide_True.
  - eapply chain_frame; [|exact Hr]. intros a' b' Hin. rewrite (Hf a' b') by (by constructor).
    pose proof (ordered_elem _ _ _ _ _ Ho Hin). rewrite decide_False; [done|].
    simpl. intros E. apply pos_inj in E; lia.
Qed.

Lemma ordered_window lo nodes : ordered lo nodes (lo + N) -> window N nodes.
Proof.
  clear HN.
  destruct nodes as [|[a b] r]; simpl; [done|]. intros (? & ? & H). repeat split; try lia.
  eapply ordered_weaken; [exact H|lia..].
Qed.

End Relink.

(** The neighbours of a replaced range point at what replaced it, the elements
    in [touched] are described apart, the rest of the array is unchanged. *)
Definition relinked (arr arr' : list Seq) (prev next : Z) (next' prev' : Z) (touched : list Z) : Prop :=
  forall j, 0 <= j -> j ∉ touched -> aget arr' j =
    if decide (prev = j) then set_inext next' <$> aget arr j
    else if decide (next = j) then set_iprior prev' <$> aget arr j
    else aget arr j.

Lemma rep_replace l c pre a b post L mid arr' touched L' :
  let N := m_iSize l in
  let p := last_pos N c (-1) pre in
  let n := first_pos N c post (-1) in
  rep l c (pre ++ (a, b) :: post) L ->
  ordered a mid (b + 1) -> length arr' = length (m_caSeq l) ->
  relinked (m_caSeq l) arr' p n (first_pos N c (mid ++ post) (-1)) (last_pos N c p mid) touched ->
  chain N c arr' p mid n ->
  (forall j, j ∈ touched -> exists x, a <= x <= b /\ j = pos N c x) ->
  pos N c a ∈ touched ->
  (forall x y, (x, y) ∈ mid -> pos N c x ∈ touched) ->
  (forall j, j ∈ touched -> (forall x y, (x, y) ∈ mid -> pos N c x <> j) -> blank arr' j) ->
  (match L' with None => pre ++ mid ++ post = []
   | Some m => forall x y, (x, y) ∈ pre ++ mid ++ post -> y <= m end) ->
  rep (mk arr' (first_pos N c (pre ++ mid ++ post) (-1)) (last_pos N c (-1) (pre ++ mid ++ post))
         (count (pre ++ mid ++ post)) N (from_option seq_of SRT_SEQNO_NONE L'))
      c (pre ++ mid ++ post) L'.
Proof.
  intros N p n R Hmid Hlen Hrel Hcm Ht Hta Hmt Hbt HL.
  destruct R as [HN Hl Hw Hc _ _ _ Hbl _]. fold N in HN, Hl, Hw, Hc, Hbl.
  assert (exists lo, ordered lo (pre ++ (a, b) :: post) (lo + N)) as [lo Ho]
    by (destruct pre as [|[x y] pre]; [exists a | exists x]; exact Hw).
  apply ordered_split in Ho as (Hpre & Ha & Hb & Hpost).
  apply chain_app in Hc as (Hc1 & Hca & Hc2). simpl in Hc1, Hc2.
  assert (forall x y, (x, y) ∈ pre -> pos N c x ∉ touched /\ n <> pos N c x) as Hpn.
  { intros x y Hin. pose proof (ordered_elem _ _ _ _ _ Hpre Hin). split.
    - intros (z & ? & E)%Ht. apply pos_inj in E; lia.
    - unfold n. pose proof (pos_range N c ltac:(lia) x). destruct post as [|[a1 b1] post]; simpl; [lia|].
      destruct Hpost as (? & ? & _). intros E. apply pos_inj in E; lia. }
  assert (forall x y, (x, y) ∈ post -> pos N c x ∉ touched /\ p <> pos N c x) as Hpo.
  { intros x y Hin. pose proof (ordered_elem _ _ _ _ _ Hpost Hin). split.
    - intros (z & ? & E)%Ht. apply pos_inj in E; lia.
    - unfold p. pose proof (pos_range N c ltac:(lia) x). destruct pre as [|x0 pre0]; [simpl; lia|].
      destruct (last_pos_elem N c (-1) (x0 :: pre0)) as (a1 & b1 & Hin' & ->); [done|].
      pose proof (ordered_elem _ _ _ _ _ Hpre Hin'). intros E. apply pos_inj in E; lia. }
  constructor; simpl; fold N; try done; try lia.
  - apply (ordered_window N lo). apply (ordered_app _ _ _ a); [lia|done| |lia].
    apply (ordered_app _ _ _ (b + 1)); [lia|done|done|lia].
  - rewrite !chain_app. split; [|split].
    + apply (chain_set_next N c ltac:(lia) (m_caSeq l) arr' _ _ lo a (pos N c a)); [done|lia|done|].
      intros x y Hin. destruct (Hpn _ _ Hin) as [Hnt Hne]. rewrite Hrel;
        [|apply pos_range; lia|done]. fold p. by rewrite (decide_False (P := n = _)).
    + done.
    + apply (chain_set_prev N c ltac:(lia) (m_caSeq l) arr' (pos N c a) _ _ (b + 1) (lo + N)); [done|lia|done|].
      intros x y Hin. destruct (Hpo _ _ Hin) as [Hnt Hne]. rewrite Hrel;
        [|apply pos_range; lia|done]. fold p n. by rewrite (decide_False (P := p = _)).
  - intros i Hi Hni. destruct (decide (i ∈ touched)) as [Hit|Hit].
    { apply Hbt; [done|]. intros x y Hin. apply (Hni x y). set_solver. }
    assert (p <> i) as Hpi.
    { unfold p. destruct pre as [|x0 pre0]; [simpl; lia|].
      destruct (last_pos_elem N c (-1) (x0 :: pre0)) as (a1 & b1 & Hin' & ->); [done|].
      apply (Hni a1 b1). set_solver. }
    assert (n <> i) as Hnn.
    { unfold n. destruct post as [|[a1 b1] post0]; simpl; [lia|]. apply (Hni a1 b1). set_solver. }
    destruct (Hbl i Hi) as (s & Hs & ?).
    { intros x y Hin Eq. apply elem_of_app in Hin as [Hin|[[= -> ->]|Hin]%elem_of_cons].
      - apply (Hni x y); [set_solver|done].
      - by subst i.
      - apply (Hni x y); [set_solver|done]. }
    exists s. split; [|done]. rewrite Hrel; [|lia|done]. by rewrite !decide_False.
  - destruct L' as [m|]; [split; [done|exact HL] | done].
Qed.

Definition largest_covers (nodes : list range) (L : option Z) : Prop :=
  match L with None => nodes = [] | Some m => forall x y, (x, y) ∈ nodes -> y <= m end.

(** [arr'] holds [nodes], whatever largest number goes with it. *)
Definition holds (l : t) (c : Z) (arr' : list Seq) (nodes : list range) : Prop :=
  forall L', largest_covers nodes L' ->
  rep (mk arr' (first_pos (m_iSize l) c nodes (-1)) (last_pos (m_iSize l) c (-1) nodes)
         (count nodes) (m_iSize l) (from_option seq_of SRT_SEQNO_NONE L')) c nodes L'.

(** What the representation says about one range and its neighbours. *)
Lemma rep_focus l c pre a b post L :
  rep l c (pre ++ (a, b) :: post) L ->
  let N := m_iSize l in
  let p := last_pos N c (-1) pre in
  let n := first_pos N c post (-1) in
  aget (m_caSeq l) (pos N c a) = Some (mkSeq (seq_of a) (end_of a b) n p)
  /\ (m_iHead l =? pos N c a) = (p =? -1) /\ (m_iTail l =? pos N c a) = (n =? -1)
  /\ m_iHead l = first_pos N c pre (pos N c a)
  /\ m_iTail l = last_pos N c (pos N c a) post
  /\ ((p = -1 /\ pre = []) \/ (0 <= p < N /\ p <> n /\ pre <> [] /\ forall x, a <= x <= b -> p <> pos N c x))
  /\ ((n = -1 /\ post = []) \/ (0 <= n < N /\ post <> [] /\ forall x, a <= x <= b -> n <> pos N c x))
  /\ (forall x, a < x <= b -> blank (m_caSeq l) (pos N c x) /\ pos N c x <> pos N c a)
  /\ (forall x, a <= x <= b -> p <> pos N c x /\ n <> pos N c x)
  /\ a <= b < a + N.
Proof.
  intros R N p n. destruct R as [HN Hl Hw Hc Hh Ht _ Hbl _]. fold N in HN, Hl, Hw, Hc, Hbl, Hh, Ht.
  assert (exists lo, ordered lo (pre ++ (a, b) :: post) (lo + N)) as [lo Ho]
    by (destruct pre as [|[x y] pre]; [exists a | exists x]; exact Hw).
  pose proof Ho as Ho'. apply ordered_split in Ho as (Hpre & Ha & Hb & Hpost).
  apply chain_app in Hc as (Hc1 & Hca & Hc2).
  assert ((p = -1 /\ pre = []) \/ (0 <= p < N /\ p <> n /\ pre <> [] /\ forall x, a <= x <= b -> p <> pos N c x)) as Hp.
  { unfold p, n. destruct pre as [|x0 pre0]; [by left|]. right.
    destruct (last_pos_elem N c (-1) (x0 :: pre0)) as (a1 & b1 & Hin & ->); [done|].
    pose proof (ordered_elem _ _ _ _ _ Hpre Hin). pose proof (pos_range N c ltac:(lia) a1).
    repeat split; try lia; try done.
    - destruct post as [|[a2 b2] post]; simpl; [lia|]. destruct Hpost as (? & ? & _).
      intros E. apply pos_inj in E; lia.
    - intros x ? E. apply pos_inj in E; lia. }
  assert ((n = -1 /\ post = []) \/ (0 <= n < N /\ post <> [] /\ forall x, a <= x <= b -> n <> pos N c x)) as Hn.
  { unfold n. destruct post as [|[a2 b2] post]; [by left|]. right. simpl.
    pose proof (pos_range N c ltac:(lia) a2). destruct Hpost as (? & ? & _).
    repeat split; try lia; try done. intros x ? E. apply pos_inj in E; lia. }
  split; [done|]. rewrite Hh, Ht. clear Hh Ht. split; [|split; [|split; [|split; [|split; [|split; [|split; [|split]]]]]]];
    try done; try lia.
  - rewrite first_pos_app. simpl. destruct Hp as [[-> ->]|(? & ? & ? & Hne)]; [by rewrite Z.eqb_refl|].
    destruct pre as [|[x0 y0] pre]; [done|]. simpl. destruct Hpre as (? & ? & _).
    transitivity false; [|symmetry; apply Z.eqb_neq; lia]. apply Z.eqb_neq. intros E. apply pos_inj in E; lia.
  - rewrite last_pos_app. simpl. destruct Hn as [[-> ->]|(? & Hpn & Hne)]; [by rewrite Z.eqb_refl|].
    transitivity false; [|symmetry; apply Z.eqb_neq; lia]. apply Z.eqb_neq.
    destruct (last_pos_elem N c (pos N c a) post) as (a1 & b1 & Hin & ->); [done|].
    pose proof (ordered_elem _ _ _ _ _ Hpost Hin). intros E. apply pos_inj in E; lia.
  - by rewrite first_pos_app.
  - by rewrite last_pos_app.
  - intros x Hx. split; [|intros E; apply pos_inj in E; lia]. apply Hbl; [apply pos_range; lia|].
    intros a' b' Hin E. pose proof (ordered_elem _ _ _ _ _ Ho' Hin). apply pos_inj in E; [|lia|lia].
    apply elem_of_app in Hin as [Hin|[[= -> ->]|Hin]%elem_of_cons]; [| |].
    + pose proof (ordered_elem _ _ _ _ _ Hpre Hin). lia.
    + lia.
    + pose proof (ordered_elem _ _ _ _ _ Hpost Hin). lia.
  - intros x Hx. pose proof (pos_range N c ltac:(lia) x).
    destruct Hp as [[? _]|(? & ? & ? & Hpx)], Hn as [[? _]|(? & ? & Hnx)]; split; try lia; auto.
Qed.

(** Unlinking a range of one packet from its neighbours. *)
Lemma remove_single_run l c pre y post L :
  let N := m_iSize l in
  let p := last_pos N c (-1) pre in
  let n := first_pos N c post (-1) in
  rep l c (pre ++ (y, y) :: post) L ->
  exists arr1, length arr1 = length (m_caSeq l)
   /\ relinked (m_caSeq l) arr1 p n n p []
   /\ remove_single l (m_caSeq l) (pos N c y)
      = Some (arr1, first_pos N c (pre ++ post) (-1), last_pos N c (-1) (pre ++ post)).
Proof.
  intros N p n R. pose proof (rep_focus _ _ _ _ _ _ _ R) as F. simpl in F.
  pose proof (rep_size _ _ _ _ R) as HN. pose proof (rep_len _ _ _ _ R) as Hlen. fold N p n in F, HN, Hlen.
  destruct F as (Hy & Hh & _ & Ehd & Etl & Hp & Hn & _ & _ & _).
  rewrite first_pos_app, last_pos_app. fold p n. clearbody p n.
  unfold remove_single. rewrite Hh. destruct (Z.eqb_spec p (-1)) as [Ep|Ep].
  - destruct Hp as [[_ ->]|?]; [|lia]. rewrite Ehd. simpl (first_pos _ _ [] _). rewrite Hy.
    cbn [mbind option_bind inext iprior].
    destruct (Z.eqb_spec n (-1)) as [En|En]; simpl negb; cbv iota.
    + destruct Hn as [[_ ->]|?]; [|lia]. eexists. split; [reflexivity|]. split.
      * intros j ? _. by rewrite !decide_False by lia.
      * simpl. congruence.
    + destruct Hn as [?|(? & Hne & _)]; [lia|]. upd_step. eexists. split; [eassumption|]. split.
      * intros j ? _. rewrite Hg, (decide_False (P := p = j)) by lia. by rewrite Ep.
      * rewrite Etl. f_equal. f_equal. destruct post; [done|]. by destruct p0.
  - destruct Hp as [?|(? & Hpn & Hpre & Hpx)]; [lia|]. rewrite Hy. cbn [mbind option_bind inext iprior].
    specialize (Hpx y ltac:(lia)). upd_step. aget_simp. rewrite Hy. cbn [mbind option_bind inext iprior].
    assert (m_iHead l = first_pos N c pre n) as -> by (rewrite Ehd; by destruct pre as [|[??]?]).
    destruct (Z.eqb_spec n (-1)) as [En|En]; simpl negb; cbv iota.
    + destruct Hn as [[_ ->]|?]; [|lia]. eexists. split; [exact Hl|]. split; [|done].
      intros j ? _. rewrite Hg. case_decide; [done|]. by rewrite decide_False by lia.
    + destruct Hn as [?|(? & Hne & Hnx)]; [lia|]. upd_step. exists arr0. split; [lia|]. split.
      * intros j ? _. rewrite Hg0, Hg. destruct (decide (p = j)); [by rewrite decide_False by lia|done].
      * rewrite Etl. f_equal. f_equal. destruct post; [done|]. by destruct p0.
Qed.

Lemma relinked_weaken arr arr' p n n' p' T T' :
  relinked arr arr' p n n' p' T -> (forall j, j ∈ T -> j ∈ T') -> relinked arr arr' p n n' p' T'.
Proof. intros H HT j ? Hj. apply H; [done|]. intros ?%HT. done. Qed.

Lemma relinked_touch arr arr' arr'' p n n' p' T i f :
  relinked arr arr' p n n' p' T -> i ∈ T ->
  (forall j, aget arr'' j = if decide (i = j) then f <$> aget arr' j else aget arr' j) ->
  relinked arr arr'' p n n' p' T.
Proof. intros H Hi Hg j ? Hj. rewrite Hg, decide_False by (intros ->; done). by apply H. Qed.

(** A range of one packet: unlinked. *)
Lemma remove_single_rep l c pre y post L :
  rep l c (pre ++ (y, y) :: post) L ->
  exists arr', remove_start l (pos (m_iSize l) c y)
      = Some (arr', first_pos (m_iSize l) c (pre ++ post) (-1), last_pos (m_iSize l) c (-1) (pre ++ post))
    /\ holds l c arr' (pre ++ post).
Proof.
  intros R. pose proof (rep_focus _ _ _ _ _ _ _ R) as F. simpl in F.
  pose proof (rep_size _ _ _ _ R) as HN. pose proof (rep_len _ _ _ _ R) as Hlen.
  pose proof (pos_range (m_iSize l) c ltac:(lia) y) as Hpy.
  destruct F as (Hy & _ & _ & _ & _ & _ & _ & _ & Hx & _). specialize (Hx y ltac:(lia)) as [Hx1 Hx2].
  unfold remove_start. rewrite Hy. cbn [mbind option_bind seqend]. rewrite end_of_none, Z.eqb_refl.
  destruct (remove_single_run _ _ _ _ _ _ R) as (arr1 & Hl1 & Hj1 & ->).
  cbn [mbind option_bind]. upd_step. eexists. split; [reflexivity|].
  intros L' HL. apply (rep_replace l c pre y y post L [] _ [pos (m_iSize l) c y]); try done; try lia.
  - eapply relinked_touch; [eapply relinked_weaken; [exact Hj1|set_solver]| |exact Hg]. constructor.
  - intros j ->%list_elem_of_singleton. exists y. split; [lia|done].
  - set_solver.
  - by intros ?? ?%not_elem_of_nil.
  - intros j ->%list_elem_of_singleton _. eexists. aget_simp.
    rewrite (Hj1 (pos (m_iSize l) c y) ltac:(lia)) by set_solver.
    rewrite !decide_False, Hy by done. split; [reflexivity|].
    unfold end_of. simpl. by rewrite Z.eqb_refl.
Qed.

(** [(loc + 1) % m_iSize]. *)
Lemma pos_next l c nodes L y :
  rep l c nodes L -> Z.rem (i32 (pos (m_iSize l) c y + 1)) (m_iSize l) = pos (m_iSize l) c (y + 1).
Proof.
  intros R. pose proof (rep_size _ _ _ _ R). pose proof (pos_range (m_iSize l) c ltac:(lia) y).
  rewrite i32_id by (unfold is_i32; lia). apply pos_shift; lia.
Qed.

(** Setting the end of a fresh node unless it holds one packet only. *)
Lemma set_end_fresh arr i a b s :
  a <= b < a + 2 ^ 29 -> aget arr i = Some s -> seqend s = SRT_SEQNO_NONE ->
  exists arr', (if CSeqNo.seqcmp (seq_of b) (seq_of a) >? 0 then aupd arr i (set_seqend (seq_of b))
                else Some arr) = Some arr'
    /\ length arr' = length arr
    /\ forall j, aget arr' j = if decide (i = j) then set_seqend (end_of a b) <$> aget arr j else aget arr j.
Proof.
  intros Hab Hs He. rewrite Z.gtb_ltb.
  pose proof (seqcmp_seq_of_sgn b a ltac:(unfold CSeqNo.m_iSeqNoTH; lia)).
  destruct (Z.ltb_spec 0 (CSeqNo.seqcmp (seq_of b) (seq_of a))).
  - rewrite end_of_multi by lia. apply aupd_spec. by eapply aget_in_bounds.
  - assert (a = b) as <- by lia. exists arr. split; [done|]. split; [done|]. intros j. case_decide; [|done].
    subst j. rewrite Hs. destruct s. simpl in *. subst. unfold set_seqend, end_of. by rewrite Z.eqb_refl.
Qed.

Lemma move_links_run l c pre a b post L arr i s :
  let N := m_iSize l in
  let p := last_pos N c (-1) pre in
  let n := first_pos N c post (-1) in
  rep l c (pre ++ (a, b) :: post) L ->
  length arr = length (m_caSeq l) -> aget arr i = Some s -> inext s = n -> iprior s = p ->
  p <> i -> n <> i ->
  exists arr', length arr' = length arr /\ relinked arr arr' p n i i []
    /\ move_links l arr (pos N c a) i = Some (arr', first_pos N c pre i, last_pos N c i post).
Proof.
  intros N p n R Hla Hs Hsn Hsp Hpi Hni. pose proof (rep_focus _ _ _ _ _ _ _ R) as F. simpl in F.
  pose proof (rep_len _ _ _ _ R) as Hlen. fold N p n in F, Hlen.
  destruct F as (_ & Hh & Ht & Ehd & Etl & Hp & Hn & _). unfold move_links. rewrite Hh, Ht.
  assert (exists arr1, length arr1 = length arr /\ aget arr1 i = Some s
    /\ (forall j, 0 <= j -> aget arr1 j = if decide (p = j) then set_inext i <$> aget arr j else aget arr j)
    /\ (if p =? -1 then Some (arr, i)
        else ci ← aget arr i; a ← aupd arr (iprior ci) (set_inext i); Some (a, m_iHead l))
       = Some (arr1, first_pos N c pre i)) as (arr1 & Hl1 & Hs1 & Hg1 & ->).
  { clearbody p n. destruct (Z.eqb_spec p (-1)) as [Ep|Ep].
    - destruct Hp as [[_ ->]|?]; [|lia]. exists arr. repeat split; [done|].
      intros j ?. by rewrite decide_False by lia.
    - destruct Hp as [?|(? & _ & ? & _)]; [lia|]. rewrite Hs. seq_red. rewrite Hsp. upd_step.
      exists arr0. repeat split; [done|by aget_simp|by intros; rewrite Hg|].
      rewrite Ehd. by destruct pre as [|[??]?]. }
  cbn [mbind option_bind]. clearbody p n. destruct (Z.eqb_spec n (-1)) as [En|En].
  - destruct Hn as [[_ ->]|?]; [|lia]. exists arr1. repeat split; [done|].
    intros j ? _. rewrite Hg1 by done. by rewrite (decide_False (P := n = j)) by lia.
  - destruct Hn as [?|(? & ? & _)]; [lia|]. rewrite Hs1. seq_red. rewrite Hsn. upd_step.
    exists arr0. split; [lia|]. split.
    + intros j ? _. rewrite Hg, Hg1 by done.
      destruct (decide (p = j)), (decide (n = j)); try done. exfalso. destruct Hp as [?|?]; lia.
    + rewrite Etl. by destruct post as [|[??]?].
Qed.

(** The first packet of a longer range: the node moves one place on. *)
Lemma remove_head_rep l c pre y b post L :
  rep l c (pre ++ (y, b) :: post) L -> y < b ->
  let nodes' := pre ++ [(y + 1, b)] ++ post in
  exists arr', remove_start l (pos (m_iSize l) c y)
      = Some (arr', first_pos (m_iSize l) c nodes' (-1), last_pos (m_iSize l) c (-1) nodes')
    /\ holds l c arr' nodes'.
Proof.
  intros R Hyb. pose proof (rep_focus _ _ _ _ _ _ _ R) as F. simpl in F.
  pose proof (rep_size _ _ _ _ R) as HN. pose proof (rep_len _ _ _ _ R) as Hlen.
  pose proof (pos_range (m_iSize l) c ltac:(lia) y) as Hpy.
  pose proof (pos_range (m_iSize l) c ltac:(lia) (y + 1)) as Hpy1.
  unfold remove_start. rewrite (pos_next _ _ _ _ y R).
  pose proof (rep_replace l c pre y b post L [(y + 1, b)]) as RR. cbv zeta in *.
  rewrite !first_pos_app, !last_pos_app. unfold holds.
  set (N := m_iSize l) in *. set (p := last_pos N c (-1) pre) in *. set (n := first_pos N c post (-1)) in *.
  destruct F as (Hy & _ & _ & _ & _ & _ & _ & Hin & Hx & Hb).
  destruct (Hx y ltac:(lia)) as [Hpy' Hny']. destruct (Hx (y + 1) ltac:(lia)) as [Hpy1' Hny1'].
  destruct (Hin (y + 1) ltac:(lia)) as [(s & Hs & Hs1 & Hs2) Hne]. clear Hin Hx.
  rewrite Hy. cbn [mbind option_bind seqend seqstart]. rewrite end_of_none.
  destruct (Z.eqb_spec y b); [lia|]. rewrite incseq_seq_of.
  upd_step. aget_simp. rewrite Hy. seq_red. rewrite incseq_seq_of, end_of_multi by lia.
  destruct (set_end_fresh arr (pos N c (y + 1)) (y + 1) b (set_seqstart (seq_of (y + 1)) s))
    as (arr1 & -> & Hl1 & Hg1); [lia|by aget_simp; rewrite Hs|done|].
  cbn [mbind option_bind]. do 2 upd_step.
  aget_simp. rewrite Hy. seq_red. upd_step. aget_simp. rewrite Hy. seq_red. upd_step.
  set (s1 := mkSeq (seq_of (y + 1)) (end_of (y + 1) b) n p).
  assert (aget arr4 (pos N c (y + 1)) = Some s1) as Hs4 by (aget_simp; by rewrite Hs).
  destruct (move_links_run l c pre y b post L arr4 (pos N c (y + 1)) s1) as (arr5 & Hl5 & Hr5 & E5);
    [exact R|congruence|exact Hs4|done..|].
  fold N in E5, Hr5. fold p n in Hr5. rewrite E5. eexists. split; [reflexivity|]. intros L' HL.
  apply (RR arr5 [pos N c y; pos N c (y + 1)]); clear RR; try done.
  - simpl. lia.
  - congruence.
  - intros j Hj Hnt. rewrite Hr5 by set_solver. apply not_elem_of_cons in Hnt as [? Hnt].
    apply not_elem_of_cons in Hnt as [? _]. by aget_simp.
  - split; [|done]. rewrite Hr5 by set_solver. rewrite !decide_False by done. exact Hs4.
  - intros j [->|Hj%list_elem_of_singleton]%elem_of_cons; [|subst j]; [exists y | exists (y + 1)]; split; lia || done.
  - constructor.
  - intros x1 x2 E%list_elem_of_singleton. injection E as -> ->. set_solver.
  - intros j [->|Hj%list_elem_of_singleton]%elem_of_cons Hnm; [|subst j].
    + eexists. rewrite (Hr5 (pos N c y) ltac:(lia)) by set_solver. rewrite !decide_False by done.
      aget_simp. rewrite Hy. split; [reflexivity | done].
    + exfalso. by apply (Hnm (y + 1) b); [constructor|].
Qed.

Lemma cut_end_run arr i s a y :
  aget arr i = Some s -> seqstart s = seq_of a -> a < y < a + 2 ^ 30 ->
  exists arr', cut_end arr i (seq_of y) = Some arr' /\ length arr' = length arr
    /\ forall j, aget arr' j = if decide (i = j) then set_seqend (end_of a (y - 1)) <$> aget arr j else aget arr j.
Proof.
  intros Hs Ha Hy. unfold cut_end. rewrite Hs. cbn [mbind option_bind]. rewrite Ha, incseq_seq_of, decseq_seq_of.
  unfold end_of. destruct (Z.eqb_spec (seq_of y) (seq_of (a + 1))) as [E|E].
  - apply seq_of_inj in E; [|lia]. subst y. replace (a + 1 - 1) with a by lia. rewrite Z.eqb_refl.
    apply aupd_spec. by eapply aget_in_bounds.
  - destruct (Z.eqb_spec a (y - 1)) as [E'|E']; [exfalso; apply E; f_equal; lia|].
    apply aupd_spec. by eapply aget_in_bounds.
Qed.

(** The neighbours of a range already point at it. *)
Lemma rep_linked l c pre a b post L :
  let N := m_iSize l in
  rep l c (pre ++ (a, b) :: post) L ->
  relinked (m_caSeq l) (m_caSeq l) (last_pos N c (-1) pre) (first_pos N c post (-1))
    (pos N c a) (pos N c a) [].
Proof.
  intros N R j Hj _. pose proof (rep_chain _ _ _ _ R) as HC. fold N in HC.
  apply chain_app in HC as (HC1 & _ & HC2). simpl in HC1, HC2. case_decide as Ep.
  - destruct (nodes_snoc pre) as [->|(pre0 & x & y & ->)]; [simpl in Ep; lia|].
    apply chain_app in HC1 as [_ [HC1 _]]. rewrite last_pos_snoc in Ep. subst j. by rewrite HC1.
  - case_decide as En; [|done]. destruct post as [|[x y] post]; [simpl in En; lia|].
    destruct HC2 as [HC2 _]. simpl in En. subst j. by rewrite HC2.
Qed.

(** The last packet of a longer range. *)
Lemma remove_last_rep l c pre a b post L :
  rep l c (pre ++ (a, b) :: post) L -> a < b ->
  let nodes' := pre ++ [(a, b - 1)] ++ post in
  exists arr', remove_inner l (pos (m_iSize l) c b) (pos (m_iSize l) c a) (seq_of b)
      = Some (arr', last_pos (m_iSize l) c (-1) nodes')
    /\ m_iHead l = first_pos (m_iSize l) c nodes' (-1) /\ holds l c arr' nodes'.
Proof.
  intros R Hyb nodes'. pose proof (rep_focus _ _ _ _ _ _ _ R) as F. simpl in F.
  pose proof (rep_size _ _ _ _ R) as HN. pose proof (pos_range (m_iSize l) c ltac:(lia) a) as Hpa.
  destruct F as (Hy & _ & _ & Ehd & Etl & _ & _ & _ & Hx & Hb). destruct (Hx a ltac:(lia)) as [Hpa' Hna'].
  unfold remove_inner. rewrite Hy. cbn [mbind option_bind seqend]. rewrite end_of_multi, Z.eqb_refl by lia.
  destruct (cut_end_run _ _ _ a b Hy eq_refl ltac:(lia)) as (arr' & -> & Hl & Hg).
  cbn [mbind option_bind]. exists arr'. unfold nodes'. split; [|split].
  - rewrite Etl, !last_pos_app. done.
  - by rewrite Ehd, first_pos_app.
  - intros L' HL. apply (rep_replace l c pre a b post L [(a, b - 1)] arr' [pos (m_iSize l) c a]); try done.
    + simpl. lia.
    + intros j Hj Hnt. rewrite Hg, (decide_False (P := pos _ _ _ = j)) by set_solver.
      apply (rep_linked _ _ _ _ _ _ _ R); [done|set_solver].
    + split; [|done]. rewrite Hg, decide_True, Hy by done. done.
    + intros j ->%list_elem_of_singleton. exists a. split; [lia|done].
    + constructor.
    + intros x1 x2 E%list_elem_of_singleton. injection E as -> ->. constructor.
    + intros j ->%list_elem_of_singleton Hnm. exfalso. by apply (Hnm a (b - 1)); [constructor|].
Qed.

(** A packet inside a range: the range is split in two. *)
Lemma remove_split_run l c pre a b post L y :
  let N := m_iSize l in
  let p := last_pos N c (-1) pre in
  let n := first_pos N c post (-1) in
  rep l c (pre ++ (a, b) :: post) L -> a < y < b ->
  exists arr', remove_inner l (pos N c y) (pos N c a) (seq_of y)
      = Some (arr', last_pos N c (pos N c (y + 1)) post)
    /\ length arr' = length (m_caSeq l)
    /\ relinked (m_caSeq l) arr' p n (pos N c a) (pos N c (y + 1)) [pos N c a; pos N c (y + 1)]
    /\ aget arr' (pos N c a) = Some (mkSeq (seq_of a) (end_of a (y - 1)) (pos N c (y + 1)) p)
    /\ aget arr' (pos N c (y + 1)) = Some (mkSeq (seq_of (y + 1)) (end_of (y + 1) b) n (pos N c a)).
Proof.
  intros N p n R Hyb. pose proof (rep_focus _ _ _ _ _ _ _ R) as F. simpl in F.
  pose proof (rep_size _ _ _ _ R) as HN. pose proof (rep_len _ _ _ _ R) as Hlen.
  pose proof (rep_linked _ _ _ _ _ _ _ R) as Hlk.
  unfold remove_inner. pose proof (pos_next _ _ _ _ y R) as Hnx. fold N in Hnx |- *. rewrite Hnx. fold N p n in F, HN, Hlen, Hlk |- *.
  pose proof (pos_range N c ltac:(lia) a) as Hpa. pose proof (pos_range N c ltac:(lia) (y + 1)) as Hpy1.
  destruct F as (Ha & _ & Ht & _ & Etl & Hp & Hn & Hin & Hx & Hb).
  assert (0 <= p -> p <> n) as Hpn by (destruct Hp as [?|?]; lia). clear Hp.
  destruct (Hx a ltac:(lia)) as [Hpa' Hna']. destruct (Hx (y + 1) ltac:(lia)) as [Hpy1' Hny1'].
  destruct (Hin (y + 1) ltac:(lia)) as [(s & Hs & Hs1 & Hs2) Hne]. clear Hin Hx. clearbody p n.
  rewrite Ha. cbn [mbind option_bind seqend]. rewrite end_of_multi by lia.
  destruct (Z.eqb_spec (seq_of y) (seq_of b)) as [E|_]; [apply seq_of_inj in E; lia|].
  rewrite incseq_seq_of. upd_step. aget_simp. rewrite Ha, Hs. seq_red.
  destruct (set_end_fresh arr (pos N c (y + 1)) (y + 1) b (set_seqstart (seq_of (y + 1)) s))
    as (arr1 & E1 & Hl1 & Hg1); [lia|by aget_simp; rewrite Hs|done|].
  rewrite end_of_multi, E1 by lia. cbn [mbind option_bind]. clear E1.
  destruct (cut_end_run arr1 (pos N c a) (mkSeq (seq_of a) (seq_of b) n p) a y)
    as (arr2 & -> & Hl2 & Hg2); [aget_simp; rewrite Ha; by rewrite end_of_multi by lia|done|lia|].
  cbn [mbind option_bind]. aget_simp. rewrite Ha. seq_red. do 3 upd_step. rewrite Ht.
  assert (aget arr4 (pos N c (y + 1)) = Some (mkSeq (seq_of (y + 1)) (end_of (y + 1) b) n (pos N c a)))
    as H4n by (aget_simp; by rewrite Hs).
  assert (aget arr4 (pos N c a) = Some (mkSeq (seq_of a) (end_of a (y - 1)) (pos N c (y + 1)) p))
    as H4a by (aget_simp; by rewrite Ha).
  assert (forall j, j ∉ [pos N c a; pos N c (y + 1)] -> aget arr4 j = aget (m_caSeq l) j) as H4.
  { intros j [? [? _]%not_elem_of_cons]%not_elem_of_cons. by aget_simp. }
  assert (length arr4 = length (m_caSeq l)) as Hlf by congruence.
  clear Hg Hg0 Hg1 Hg2 Hg3 Hg4 Hl Hl0 Hl1 Hl2 Hl3 Hl4.
  destruct (Z.eqb_spec n (-1)) as [En|En].
  - destruct Hn as [[_ ->]|?]; [|lia]. exists arr4. repeat (split; [done|]). split; [|done].
    intros j ? Hj. rewrite H4 by done. rewrite Hlk by set_solver. case_decide; [done|].
    by rewrite !(decide_False (P := n = j)) by lia.
  - destruct Hn as [?|(? & ? & _)]; [lia|]. rewrite H4n. seq_red. upd_step.
    eexists. split; [rewrite Etl; destruct post as [|[??]?]; [done|reflexivity]|]. split; [congruence|].
    split; [|by aget_simp].
    intros j ? Hj. rewrite Hg, H4 by done. pose proof (Hlk j ltac:(lia) ltac:(set_solver)) as Hk.
    revert Hk. destruct (decide (p = j)), (decide (n = j)); intros Hk; try done; exfalso; lia.
Qed.

Lemma remove_split_rep l c pre a b post L y :
  rep l c (pre ++ (a, b) :: post) L -> a < y < b ->
  let nodes' := pre ++ [(a, y - 1); (y + 1, b)] ++ post in
  exists arr', remove_inner l (pos (m_iSize l) c y) (pos (m_iSize l) c a) (seq_of y)
      = Some (arr', last_pos (m_iSize l) c (-1) nodes')
    /\ m_iHead l = first_pos (m_iSize l) c nodes' (-1) /\ holds l c arr' nodes'.
Proof.
  intros R Hyb nodes'. pose proof (rep_focus _ _ _ _ _ _ _ R) as F. simpl in F.
  pose proof (rep_size _ _ _ _ R) as HN.
  destruct F as (_ & _ & _ & Ehd & _).
  destruct (remove_split_run _ _ _ _ _ _ _ y R Hyb) as (arr' & E & Hl & Hrel & Ha & Hy).
  exists arr'. rewrite E. unfold nodes'. split; [|split].
  - rewrite (last_pos_app _ _ (-1) pre). done.
  - by rewrite Ehd, first_pos_app.
  - intros L' HL. eapply (rep_replace l c pre a b post L [(a, y - 1); (y + 1, b)] arr'); [done| |done|exact Hrel|..].
    + simpl. lia.
    + split; [exact Ha|]. split; [exact Hy | done].
    + intros j [->|Hj%list_elem_of_singleton]%elem_of_cons; [exists a; split; lia || done|].
      exists (y + 1). split; [lia|done].
    + constructor.
    + intros x1 x2 [E1|E1%list_elem_of_singleton]%elem_of_cons; injection E1 as -> ->; set_solver.
    + intros j [->|Hj%list_elem_of_singleton]%elem_of_cons Hnm; exfalso.
      * by apply (Hnm a (y - 1)); [constructor|].
      * by apply (Hnm (y + 1) b); [set_solver|].
    + exact HL.
Qed.
