(* ===== verification/RcvLossListRefine.v ===== *)
(** * Refinement of the receiver's loss list

    The abstract state is the set of lost packet indices and the largest index
    seen; [models] relates it to the concrete list. Each public operation of
    [CRcvLossList] returns the abstract operation's answer and leads to a state
    that models the abstract result. Packet indices are unbounded; the wire
    number of index [x] is [seq_of x], so the statements cover lists that cross
    the wrap-around of the 31-bit sequence space. *)

From S2P Require Import Prelude SeqNo Ranges RcvLossList RcvLossListSpec.
Import CRcvLossList.

Record loss_set := mkLossSet { lostset : gset Z; seen : option Z }.

(** ** The abstract operations *)

Definition spec_insert (A : loss_set) (x1 x2 : Z) : Z * loss_set :=
  let x1' := cutoff (seen A) x1 in
  if x2 <? x1' then (0, A)
  else (x2 - x1' + 1, mkLossSet (lostset A ∪ range_set x1' x2) (Some x2)).

Definition seen_with (A : loss_set) (y : Z) : Z :=
  match seen A with None => y | Some m => Z.max m y end.

Definition spec_remove (A : loss_set) (y : Z) : bool * loss_set :=
  if decide (y ∈ lostset A) then
    (true, mkLossSet (lostset A ∖ {[y]})
             (if decide (lostset A ∖ {[y]} = ∅) then None else Some (seen_with A y)))
  else (false, mkLossSet (lostset A) (Some (seen_with A y))).

Fixpoint spec_remove_n (A : loss_set) (y : Z) (n : nat) : loss_set :=
  match n with O => A | S n => spec_remove_n (snd (spec_remove A y)) (y + 1) n end.

(** ** The abstraction *)

Definition models (l : t) (A : loss_set) : Prop :=
  exists c nodes, rep l c nodes (seen A) /\ forall x, x ∈ lostset A <-> lost nodes x.

(** [y] is within half the sequence space of everything in the list. *)
Definition nearby (A : loss_set) (y : Z) : Prop :=
  (forall m, seen A = Some m -> Z.abs (y - m) < CSeqNo.m_iSeqNoTH)
  /\ (forall x, x ∈ lostset A -> Z.abs (y - x) < CSeqNo.m_iSeqNoTH).

Lemma nearby_between A x y z : nearby A x -> nearby A y -> x <= z <= y -> nearby A z.
Proof.
  intros [Hx1 Hx2] [Hy1 Hy2] Hz. split.
  - intros m Hm. specialize (Hx1 m Hm). specialize (Hy1 m Hm). lia.
  - intros w Hw. specialize (Hx2 w Hw). specialize (Hy2 w Hw). lia.
Qed.

Lemma nearby_near l c nodes A y :
  rep l c nodes (seen A) -> (forall x, x ∈ lostset A <-> lost nodes x) -> nearby A y ->
  near nodes (seen A) y.
Proof.
  intros R HS [H1 H2]. split; [done|]. intros a b r E. apply H2, HS. subst.
  pose proof (window_head _ _ _ _ (rep_window _ _ _ _ R)) as (? & ? & _). apply lost_cons. lia.
Qed.

Lemma models_length l A : models l A -> m_iLength l = Z.of_nat (size (lostset A)).
Proof.
  intros (c & nodes & R & HS). rewrite (rep_count _ _ _ _ R). destruct nodes as [|[a b] r].
  - by eapply (count_size 0 _ 0).
  - eapply count_size; [exact (rep_window _ _ _ _ R)|done].
Qed.

(** Room in the array for a loss up to [x2]. *)
Definition fits (N : Z) (A : loss_set) (x1 x2 : Z) : Prop :=
  x2 < x1 + N /\ forall x, x ∈ lostset A -> x2 < x + N.

Lemma insert_models l A x1 x2 :
  models l A -> nearby A x1 -> nearby A x2 -> x1 <= x2 ->
  fits (m_iSize l) A (cutoff (seen A) x1) x2 ->
  exists l', insert l (seq_of x1) (seq_of x2) = Some (fst (spec_insert A x1 x2), l')
    /\ models l' (snd (spec_insert A x1 x2)).
Proof.
  intros (c & nodes & R & HS) N1 N2 Hx [F1 F2]. unfold spec_insert.
  pose proof (insert_cut_exact _ _ _ _ x1 x2 R
    (nearby_near _ _ _ _ _ R HS N1) (nearby_near _ _ _ _ _ R HS N2) Hx) as Hcut.
  pose proof (rep_largest _ _ _ _ R) as HL.
  destruct (Z.ltb_spec x2 (cutoff (seen A) x1)) as [H|H].
  { exists l. split; [unfold insert; by rewrite Hcut | by exists c, nodes]. }
  destruct (nodes_snoc nodes) as [->|(pre & a & b & ->)].
  - destruct (insert_empty_rep _ _ _ _ (cutoff (seen A) x1) x2 R ltac:(lia) Hcut) as (l' & E & R').
    exists l'. split; [exact E|]. eexists _, _. split; [exact R'|]. simpl. intros x.
    rewrite lost_cons, lost_nil, elem_of_union, HS, lost_nil, elem_of_range_set. tauto.
  - assert (b < cutoff (seen A) x1) as Hb.
    { destruct (seen A) as [m|]; simpl.
      - destruct HL as [_ HL]. specialize (HL a b ltac:(set_solver)). lia.
      - destruct HL as [_ HL]. by destruct pre. }
    destruct (insert_nonempty_rep _ _ _ _ _ _ (seq_of x1) (cutoff (seen A) x1) x2 R (conj Hb H))
      as (l' & nodes' & E & R' & HS'); [|exact Hcut|].
    { intros a0 b0 r E. apply F2, HS. rewrite E in *.
      pose proof (window_head _ _ _ _ (rep_window _ _ _ _ R)) as (? & ? & _). apply lost_cons. lia. }
    exists l'. split; [exact E|]. exists c, nodes'. split; [exact R'|]. simpl. intros x.
    rewrite HS', elem_of_union, HS, elem_of_range_set. tauto.
Qed.

(** ** Removal *)

Lemma removed_rep l c nodes M arr' nodes' :
  rep l c nodes (Some M) -> holds l c arr' nodes' -> count nodes' = count nodes - 1 ->
  (forall x y, (x, y) ∈ nodes' -> y <= M) ->
  rep (removed l arr' (first_pos (m_iSize l) c nodes' (-1)) (last_pos (m_iSize l) c (-1) nodes') (m_iLargestSeq l))
      c nodes' (if count nodes' =? 0 then None else Some M).
Proof.
  intros R Hh Hc HM. pose proof (rep_count _ _ _ _ R) as Hcnt. pose proof (count_bound _ _ _ _ R).
  pose proof (rep_size _ _ _ _ R). destruct (rep_largest _ _ _ _ R) as [HL _].
  unfold removed. rewrite Hcnt, HL, <- Hc.
  pose proof (rep_window _ _ _ _ (Hh (Some M) HM)) as Hw. simpl in Hw.
  rewrite i32_id.
  2: { pose proof (count_bound _ _ _ _ (Hh (Some M) HM)) as Hb. simpl in Hb. unfold is_i32. lia. }
  destruct (Z.eqb_spec (count nodes') 0) as [E|E].
  - apply (Hh None). exact (count_zero _ _ Hw E).
  - exact (Hh (Some M) HM).
Qed.

Lemma rep_elem_ordered l c nodes L :
  rep l c nodes L -> exists lo, ordered lo nodes (lo + m_iSize l).
Proof. intros R. pose proof (rep_window _ _ _ _ R) as Hw. destruct nodes as [|[a b] r]; [by exists 0 | by exists a]. Qed.

(** Both outcomes of [remove] once [m_iLargestSeq] is up to date. *)
Definition remove_outcome (l : t) (c : Z) (nodes : list range) (M y : Z) (r : option (bool * t)) : Prop :=
  (lost nodes y /\ exists l' nodes', r = Some (true, l')
     /\ rep l' c nodes' (if count nodes' =? 0 then None else Some M)
     /\ forall z, lost nodes' z <-> lost nodes z /\ z <> y)
  \/ (~ lost nodes y /\ r = Some (false, l)).

Lemma remove_start_outcome l c pre y b post M :
  rep l c (pre ++ (y, b) :: post) (Some M) ->
  remove_outcome l c (pre ++ (y, b) :: post) M y
    (r ← remove_start l (pos (m_iSize l) c y);
     let '(a, head, tail) := r in Some (true, removed l a head tail (m_iLargestSeq l))).
Proof.
  intros R. left. destruct (rep_elem_ordered _ _ _ _ R) as [lo Ho].
  pose proof (rep_largest _ _ _ _ R) as [_ HM].
  apply ordered_split in Ho as (Hpre & ? & ? & Hpost).
  split; [autorewrite with ranges; lia|]. destruct (Z.eq_dec y b) as [->|Hne].
  - destruct (remove_single_rep _ _ _ _ _ _ R) as (arr' & -> & Hh). cbn [mbind option_bind].
    eexists _, _. split; [reflexivity|]. split.
    + eapply removed_rep; [exact R|exact Hh|autorewrite with ranges; simpl; lia|].
      intros x z Hin. apply (HM x z). set_solver.
    + intros z. autorewrite with ranges. pose proof (lost_bounds _ _ _ z Hpre).
      pose proof (lost_bounds _ _ _ z Hpost). intuition lia.
  - destruct (remove_head_rep _ _ _ _ _ _ _ R ltac:(lia)) as (arr' & -> & Hh). cbn [mbind option_bind].
    eexists _, _. split; [reflexivity|]. split.
    + eapply removed_rep; [exact R|exact Hh|autorewrite with ranges; simpl; lia|].
      intros x z Hin. apply elem_of_app in Hin as [Hin|[[= -> ->]|Hin]%elem_of_cons]; [apply (HM x z); set_solver| |apply (HM x z); set_solver].
      apply (HM y b). set_solver.
    + intros z. autorewrite with ranges. pose proof (lost_bounds _ _ _ z Hpre).
      pose proof (lost_bounds _ _ _ z Hpost). intuition lia.
Qed.

Lemma remove_inner_outcome l c pre a b post M y :
  rep l c (pre ++ (a, b) :: post) (Some M) -> a < y <= b ->
  remove_outcome l c (pre ++ (a, b) :: post) M y
    (r ← remove_inner l (pos (m_iSize l) c y) (pos (m_iSize l) c a) (seq_of y);
     let '(a, tail) := r in Some (true, removed l a (m_iHead l) tail (m_iLargestSeq l))).
Proof.
  intros R Hy. left. destruct (rep_elem_ordered _ _ _ _ R) as [lo Ho].
  pose proof (rep_largest _ _ _ _ R) as [_ HM]. specialize (HM a b ltac:(set_solver)) as HMb.
  apply ordered_split in Ho as (Hpre & ? & ? & Hpost).
  split; [autorewrite with ranges; lia|]. destruct (Z.eq_dec y b) as [->|Hne].
  - destruct (remove_last_rep _ _ _ _ _ _ _ R ltac:(lia)) as (arr' & -> & Hhd & Hh). cbn [mbind option_bind].
    eexists _, _. split; [reflexivity|]. rewrite Hhd. split.
    + eapply removed_rep; [exact R|exact Hh|autorewrite with ranges; simpl; lia|].
      intros x z [Hin|[[= -> ->]|Hin]%elem_of_cons]%elem_of_app; [apply (HM x z); set_solver|lia|apply (HM x z); set_solver].
    + intros z. autorewrite with ranges. pose proof (lost_bounds _ _ _ z Hpre).
      pose proof (lost_bounds _ _ _ z Hpost). intuition lia.
  - destruct (remove_split_rep _ _ _ _ _ _ _ y R ltac:(lia)) as (arr' & -> & Hhd & Hh). cbn [mbind option_bind].
    eexists _, _. split; [reflexivity|]. rewrite Hhd. split.
    + eapply removed_rep; [exact R|exact Hh|autorewrite with ranges; simpl; lia|].
      intros x z [Hin|[[= -> ->]|[[= -> ->]|Hin]%elem_of_cons]%elem_of_cons]%elem_of_app;
        [apply (HM x z); set_solver|lia|lia|apply (HM x z); set_solver].
    + intros z. autorewrite with ranges. pose proof (lost_bounds _ _ _ z Hpre).
      pose proof (lost_bounds _ _ _ z Hpost). intuition lia.
Qed.

(** The place of a packet that starts no range does not hold its number. *)
Lemma not_start_cell l c a0 b0 r L y :
  rep l c ((a0, b0) :: r) L -> a0 <= y < a0 + 2 ^ 30 -> (forall a b, (a, b) ∈ (a0, b0) :: r -> a <> y) ->
  exists s, aget (m_caSeq l) (pos (m_iSize l) c y) = Some s /\ (seq_of y =? seqstart s) = false.
Proof.
  intros R Hy Hns. pose proof (rep_size _ _ _ _ R) as HN.
  destruct (window_alias (m_iSize l) a0 y ltac:(lia)) as [k Hk].
  rewrite <- (pos_alias (m_iSize l) c y k) by lia. set (x := y - k * m_iSize l) in *.
  destruct (start_at ((a0, b0) :: r) x) as [(pre & b & post & E)|Hx].
  - pose proof (rep_chain _ _ _ _ R) as HC. rewrite E in HC. apply chain_app in HC as [_ [HC _]].
    eexists. split; [exact HC|]. simpl. apply Z.eqb_neq. intros Eq. apply seq_of_inj in Eq; [|lia].
    apply (Hns x b); [rewrite E; set_solver | done].
  - destruct (rep_blank _ _ _ _ R (pos (m_iSize l) c x)) as (s & Hs & Hs1 & _); [apply pos_range; lia| |].
    { intros a b Hin E. pose proof (window_elem _ _ _ _ _ _ (rep_window _ _ _ _ R) Hin).
      apply pos_inj in E; [|lia|lia]. by apply (Hx a b). }
    exists s. split; [done|]. rewrite Hs1. apply seq_of_not_none.
Qed.

(** The whole of [remove] after the update of [m_iLargestSeq]. *)
Lemma remove_body_outcome l c nodes M y :
  rep l c nodes (Some M) -> (forall a b r, nodes = (a, b) :: r -> Z.abs (y - a) < CSeqNo.m_iSeqNoTH) ->
  remove_outcome l c nodes M y
    (remove_known l (seq_of y)).
Proof.
  intros R Hnear. unfold remove_known. pose proof (rep_size _ _ _ _ R) as HN. rewrite (rep_count _ _ _ _ R).
  destruct nodes as [|[a0 b0] r]; [right; split; [by intros ?%lost_nil|done]|].
  destruct (rep_elem_ordered _ _ _ _ R) as [lo Ho].
  destruct (Z.eqb_spec (count ((a0, b0) :: r)) 0) as [E|_];
    [apply (count_zero (m_iSize l)) in E; [done | apply R]|].
  specialize (Hnear _ _ _ eq_refl).
  pose proof (rep_head _ _ _ _ R) as Hh. simpl in Hh.
  destruct (rep_chain _ _ _ _ R) as [Hc0 _]. rewrite Hh, Hc0. cbn [mbind option_bind seqstart].
  rewrite seqoff_seq_of by lia. cbv zeta.
  pose proof (window_head _ _ _ _ (rep_window _ _ _ _ R)) as Hw.
  destruct (Z.ltb_spec (y - a0) 0).
  { right. split; [|done]. intros Hl. pose proof (lost_bounds _ _ _ _ Hw Hl). lia. }
  rewrite <- Hh, (head_offset l c a0 y Hh HN) by (unfold CSeqNo.m_iSeqNoTH in *; lia).
  destruct (start_at ((a0, b0) :: r) y) as [(pre & b & post & E)|Hns].
  - rewrite E in R |- *. destruct (rep_focus _ _ _ _ _ _ _ R) as (Hy & _). simpl in Hy. rewrite Hy.
    cbn [mbind option_bind seqstart]. rewrite Z.eqb_refl. by apply remove_start_outcome.
  - destruct (not_start_cell _ _ _ _ _ _ y R) as (s & -> & Hs); [unfold CSeqNo.m_iSeqNoTH in *; lia|done|].
    cbn [mbind option_bind]. rewrite Hs.
    assert (a0 < y) as Hya by (destruct (Z.eq_dec a0 y); [exfalso; by apply (Hns a0 b0); [constructor|]|lia]).
    pose proof (pos_range (m_iSize l) c ltac:(lia) y). rewrite i32_id by (unfold is_i32; lia).
    rewrite pos_shift_back by lia.
    destruct (window_alias (m_iSize l) a0 (y - 1) ltac:(lia)) as [k Hk].
    rewrite <- (pos_alias (m_iSize l) c (y - 1) k) by lia.
    destruct (scan_back_rep _ _ _ _ _ _ _ (y - 1 - k * m_iSize l) R eq_refl Hk)
      as (pre & a & b & post & E & Ha & Hpost & -> & Hca).
    cbn [mbind option_bind]. rewrite Hca. cbn [mbind option_bind seqend]. rewrite end_of_none.
    rewrite E in Hw. apply ordered_split in Hw as (Hpre & ? & ? & Hpo).
    assert (0 <= k) as Hk0 by nia.
    assert (lost ((a0, b0) :: r) y -> k = 0 /\ a <= y <= b) as Hin.
    { intros Hl. pose proof (lost_bounds _ _ _ _ (window_head _ _ _ _ (rep_window _ _ _ _ R)) Hl) as Hb.
      assert (k = 0) as -> by nia. rewrite E in Hl. revert Hl. autorewrite with ranges.
      intros [Hl|[Hl|(a' & b' & Hin & Hl)]]; [pose proof (lost_bounds _ _ _ _ Hpre Hl); lia|lia|].
      specialize (Hpost _ _ Hin). exfalso. apply (Hns a' b'); [rewrite E; set_solver|lia]. }
    destruct (Z.eqb_spec a b) as [Eab|Eab]; simpl orb; [right; split; [|done]|].
    { intros Hl. destruct (Hin Hl) as [-> ?]. apply (Hns a b); [rewrite E; set_solver|lia]. }
    rewrite end_of_multi, Z.gtb_ltb by done.
    pose proof (seqcmp_seq_of_sgn y b ltac:(unfold CSeqNo.m_iSeqNoTH in *; lia)) as Hsg.
    destruct (Z.ltb_spec 0 (CSeqNo.seqcmp (seq_of y) (seq_of b))) as [Hgt|Hgt].
    + right. split; [|done]. intros Hl. destruct (Hin Hl). lia.
    + rewrite E in R |- *. apply remove_inner_outcome; [done|lia].
Qed.

Lemma raise_largest_rep l c nodes A y :
  rep l c nodes (seen A) -> nearby A y ->
  rep (if (m_iLargestSeq l =? SRT_SEQNO_NONE) || (CSeqNo.seqcmp (seq_of y) (m_iLargestSeq l) >? 0)
       then set_largest (seq_of y) l else l) c nodes (Some (seen_with A y)).
Proof.
  intros R [HL _]. unfold seen_with. destruct R as [? ? ? ? ? ? ? ? HLg]. destruct (seen A) as [m|].
  - destruct HLg as [E Hm]. rewrite E, seq_of_not_none, Z.gtb_ltb. simpl orb.
    pose proof (seqcmp_seq_of_sgn y m (HL m eq_refl)).
    destruct (Z.ltb_spec 0 (CSeqNo.seqcmp (seq_of y) (seq_of m))).
    + constructor; try done. simpl. split; [f_equal; lia|]. intros a b Hin. specialize (Hm _ _ Hin). lia.
    + constructor; try done. split; [rewrite E; f_equal; lia|]. intros a b Hin. specialize (Hm _ _ Hin). lia.
  - destruct HLg as [-> ->]. simpl. constructor; try done. simpl. split; [done|].
    by intros ?? ?%not_elem_of_nil.
Qed.

Lemma models_unseen nodes (X : gset Z) lo N :
  ordered lo nodes (lo + N) -> (forall x, x ∈ X <-> lost nodes x) ->
  (count nodes =? 0) = bool_decide (X = ∅).
Proof.
  intros Ho HX. rewrite (count_size _ _ _ _ Ho HX). destruct (decide (X = ∅)) as [->|Hne].
  - by rewrite bool_decide_eq_true_2 by done.
  - rewrite bool_decide_eq_false_2 by done. apply Z.eqb_neq. intros E. apply Hne.
    apply leibniz_equiv, size_empty_iff. lia.
Qed.

Lemma remove_models l A y :
  models l A -> nearby A y ->
  exists l', remove l (seq_of y) = Some (fst (spec_remove A y), l')
    /\ models l' (snd (spec_remove A y)).
Proof.
  intros (c & nodes & R & HS) HN. unfold remove.
  pose proof (raise_largest_rep _ _ _ _ _ R HN) as R1.
  set (l1 := if _ || _ then _ else l) in *. clearbody l1.
  destruct (nearby_near _ _ _ _ _ R HS HN) as [_ Hnear].
  unfold spec_remove.
  destruct (remove_body_outcome _ _ _ _ _ R1 Hnear) as [(Hl & l' & nodes' & E & R' & HS')|[Hl E]].
  - rewrite E. rewrite decide_True by (by apply HS). exists l'. split; [done|].
    exists c, nodes'. simpl. destruct (rep_elem_ordered _ _ _ _ R') as [lo Ho].
    assert (forall x, x ∈ lostset A ∖ {[y]} <-> lost nodes' x) as HS2
      by (intros x; rewrite HS', <- HS; set_solver).
    rewrite (models_unseen _ _ _ _ Ho HS2) in R'. case_decide as Ee.
    + by rewrite bool_decide_eq_true_2 in R'.
    + by rewrite bool_decide_eq_false_2 in R'.
  - rewrite E. rewrite decide_False by (by rewrite HS). exists l1. split; [done|]. by exists c, nodes.
Qed.

(** ** The range removals *)

Lemma spec_remove_lost A y : lostset (snd (spec_remove A y)) = lostset A ∖ {[y]}.
Proof. unfold spec_remove. case_decide; simpl; [done|]. set_solver. Qed.

Lemma spec_remove_n_lost A y n :
  lostset (spec_remove_n A y n) = lostset A ∖ range_set y (y + Z.of_nat n - 1).
Proof.
  revert A y. induction n as [|n IH]; intros A y; cbn [spec_remove_n].
  - apply set_eq. intros x. rewrite elem_of_difference, elem_of_range_set. split; [split; [done|lia]|tauto].
  - rewrite IH, spec_remove_lost. apply set_eq. intros x.
    rewrite !elem_of_difference, !elem_of_range_set, elem_of_singleton. split.
    + intros [[? ?] ?]. split; [done|lia].
    + intros [? ?]. repeat split; [done|lia|lia].
Qed.

Lemma nearby_remove A y z :
  nearby A z -> Z.abs (z - y) < CSeqNo.m_iSeqNoTH -> nearby (snd (spec_remove A y)) z.
Proof.
  intros [H1 H2] Hy. split.
  - intros m. unfold spec_remove, seen_with. repeat case_decide; simpl; [done|..];
      intros [= <-]; destruct (seen A) as [m'|]; try (specialize (H1 _ eq_refl)); lia.
  - intros x. rewrite spec_remove_lost. intros [Hx _]%elem_of_difference. auto.
Qed.

Lemma remove_loop_models fuel l A x n :
  (n <= fuel)%nat -> Z.of_nat n < CSeqNo.m_iSeqNoTH ->
  models l A -> (forall y, x <= y < x + Z.of_nat n -> nearby A y) ->
  exists l', remove_loop fuel l (seq_of x) (seq_of (x + Z.of_nat n - 1)) = Some l'
    /\ models l' (spec_remove_n A x n).
Proof.
  revert fuel l A x. induction n as [|n IH]; intros fuel l A x Hf Hn Hm Hnear.
  - destruct fuel; simpl; pose proof (seqcmp_seq_of_sgn x (x + Z.of_nat 0 - 1) ltac:(unfold CSeqNo.m_iSeqNoTH; lia));
      destruct (Z.leb_spec (CSeqNo.seqcmp (seq_of x) (seq_of (x + Z.of_nat 0 - 1))) 0); try lia; eauto.
  - destruct fuel as [|f]; [lia|]. cbn [remove_loop spec_remove_n].
    pose proof (seqcmp_seq_of_sgn x (x + Z.of_nat (S n) - 1) ltac:(lia)).
    destruct (Z.leb_spec (CSeqNo.seqcmp (seq_of x) (seq_of (x + Z.of_nat (S n) - 1))) 0); [|lia].
    destruct (remove_models l A x Hm (Hnear x ltac:(lia))) as (l' & -> & Hm'). cbn [mbind option_bind snd].
    rewrite incseq_seq_of. replace (x + Z.of_nat (S n) - 1) with (x + 1 + Z.of_nat n - 1) by lia.
    apply IH; [lia|lia|done|]. intros y Hy. apply nearby_remove; [apply Hnear; lia|lia].
Qed.

(** ** Queries *)

Lemma models_first l A :
  models l A ->
  (lostset A = ∅ /\ getFirstLostSeq l = Some SRT_SEQNO_NONE)
  \/ exists x, x ∈ lostset A /\ (forall y, y ∈ lostset A -> x <= y < x + m_iSize l)
       /\ getFirstLostSeq l = Some (seq_of x).
Proof.
  intros (c & nodes & R & HS). unfold getFirstLostSeq. rewrite (rep_count _ _ _ _ R).
  destruct nodes as [|[a b] r].
  - left. split; [|done]. apply set_eq. intros x. rewrite HS, lost_nil. set_solver.
  - right. pose proof (window_head _ _ _ _ (rep_window _ _ _ _ R)) as Hw. exists a.
    split; [apply HS, lost_cons; destruct Hw; lia|].
    split; [intros y Hy%HS; by apply (lost_bounds _ _ _ _ Hw)|].
    destruct (Z.eqb_spec (count ((a, b) :: r)) 0) as [E|_]; [apply (count_zero (m_iSize l)) in E; [done|apply R]|].
    rewrite (rep_head _ _ _ _ R). destruct (rep_chain _ _ _ _ R) as [H _]. simpl. by rewrite H.
Qed.

Lemma models_nodes_fuel l c nodes L : rep l c nodes L -> (length nodes <= Z.to_nat (m_iSize l))%nat.
Proof.
  intros R. destruct (rep_elem_ordered _ _ _ _ R) as [lo Ho].
  pose proof (ordered_length _ _ _ Ho). pose proof (count_bound _ _ _ _ R). lia.
Qed.

(** One range of [find]: the three tests together say that the ranges meet. *)
Lemma find_node_meets a b x1 x2 nx pr :
  a <= b -> x1 <= x2 ->
  Z.abs (a - x1) < CSeqNo.m_iSeqNoTH -> Z.abs (a - x2) < CSeqNo.m_iSeqNoTH ->
  Z.abs (b - x1) < CSeqNo.m_iSeqNoTH ->
  find_node (mkSeq (seq_of a) (end_of a b) nx pr) (seq_of x1) (seq_of x2)
    = bool_decide (Z.max a x1 <= Z.min b x2).
Proof.
  intros. unfold find_node. simpl. rewrite end_of_none, Z.geb_leb, !Z.gtb_ltb.
  pose proof (seqcmp_seq_of_sgn a x1 ltac:(lia)). pose proof (seqcmp_seq_of_sgn a x2 ltac:(lia)).
  pose proof (seqcmp_seq_of_sgn b x1 ltac:(lia)). symmetry.
  destruct (Z.eqb_spec a b) as [->|Hne]; [|rewrite end_of_multi by done].
  all: case_bool_decide;
    repeat match goal with |- context [?x =? ?y] => destruct (Z.eqb_spec x y)
                      | |- context [?x <? ?y] => destruct (Z.ltb_spec x y)
                      | |- context [?x <=? ?y] => destruct (Z.leb_spec x y) end;
    try reflexivity; exfalso; lia.
Qed.

Lemma find_loop_exact N c arr prev nodes lo hi fuel x1 x2 :
  0 < N -> chain N c arr prev nodes (-1) -> ordered lo nodes hi -> (length nodes <= fuel)%nat -> x1 <= x2 ->
  (forall a b, (a, b) ∈ nodes -> Z.abs (a - x1) < CSeqNo.m_iSeqNoTH
     /\ Z.abs (a - x2) < CSeqNo.m_iSeqNoTH /\ Z.abs (b - x1) < CSeqNo.m_iSeqNoTH) ->
  exists r, find_loop fuel arr (first_pos N c nodes (-1)) (seq_of x1) (seq_of x2) = Some r
    /\ (r = true <-> exists x, lost nodes x /\ x1 <= x <= x2).
Proof.
  intros HN. revert prev lo fuel. induction nodes as [|[a b] r IH]; intros prev lo fuel Hc Ho Hf Hx Hn.
  - exists false. split; [by destruct fuel|]. split; [done|]. by intros (x & ?%lost_nil & _).
  - destruct fuel as [|f]; simpl in Hf; [lia|]. destruct Hc as [Ha Hc]. destruct Ho as (? & ? & Ho).
    cbn [find_loop first_pos]. pose proof (pos_range N c HN a).
    destruct (Z.eqb_spec (pos N c a) (-1)); [lia|]. rewrite Ha. cbn [mbind option_bind inext].
    destruct (Hn a b ltac:(constructor)) as (? & ? & ?). rewrite find_node_meets by lia.
    case_bool_decide as Hm.
    + exists true. split; [done|]. split; [|done]. intros _. exists (Z.max a x1). rewrite lost_cons. lia.
    + destruct (IH (pos N c a) (b + 1) f Hc Ho ltac:(lia) Hx) as (res & E & Hr).
      { intros a' b' Hin. apply Hn. by constructor. }
      exists res. split; [done|]. rewrite Hr. split; intros (x & Hl & ?); exists x; rewrite lost_cons in *; intuition lia.
Qed.

Lemma find_models l A x1 x2 :
  models l A -> nearby A x1 -> nearby A x2 -> x1 <= x2 ->
  exists r, find l (seq_of x1) (seq_of x2) = Some r
    /\ (r = true <-> exists x, x ∈ lostset A /\ x1 <= x <= x2).
Proof.
  intros (c & nodes & R & HS) [_ N1] [_ N2] Hx. unfold find. rewrite (rep_count _ _ _ _ R), (rep_head _ _ _ _ R).
  destruct (rep_elem_ordered _ _ _ _ R) as [lo Ho]. pose proof (rep_size _ _ _ _ R).
  destruct (find_loop_exact (m_iSize l) c (m_caSeq l) (-1) nodes lo (lo + m_iSize l)
    (Z.to_nat (m_iSize l)) x1 x2) as (r & E & Hr); try done; try lia.
  - apply R.
  - by eapply models_nodes_fuel.
  - intros a b Hin. pose proof (ordered_elem _ _ _ _ _ Ho Hin).
    assert (a ∈ lostset A) as Ha by (apply HS; exists a, b; split; [done|lia]).
    assert (b ∈ lostset A) as Hb by (apply HS; exists a, b; split; [done|lia]).
    pose proof (N1 _ Ha). pose proof (N2 _ Ha). pose proof (N1 _ Hb). lia.
  - setoid_rewrite HS. destruct (Z.eqb_spec (count nodes) 0) as [E0|_]; [|eauto].
    apply (count_zero (m_iSize l)) in E0; [|apply R]. subst nodes. exists false. split; [done|].
    split; [done|]. by intros (x & ?%lost_nil & _).
Qed.

Lemma create_models junk size : 0 < size <= 2 ^ 29 -> models (create junk size) (mkLossSet ∅ None).
Proof.
  intros H. exists 0, []. split; [|intros x; rewrite lost_nil; set_solver].
  constructor; simpl; try done.
  - rewrite length_replicate. lia.
  - intros i Hi _. exists (mkSeq SRT_SEQNO_NONE SRT_SEQNO_NONE junk junk). split; [|done].
    unfold aget. destruct (Z.leb_spec 0 i); [|lia]. apply lookup_replicate_2. lia.
Qed.

(** ** Sequences of operations *)

Inductive loss_op := OpInsert (x1 x2 : Z) | OpRemove (y : Z).

Definition run_op (l : t) (o : loss_op) : option (Z * t) :=
  match o with
  | OpInsert x1 x2 => insert l (seq_of x1) (seq_of x2)
  | OpRemove y => r ← remove l (seq_of y); Some (Z.b2z (fst r), snd r)
  end.

Definition spec_op (A : loss_set) (o : loss_op) : Z * loss_set :=
  match o with
  | OpInsert x1 x2 => spec_insert A x1 x2
  | OpRemove y => (Z.b2z (fst (spec_remove A y)), snd (spec_remove A y))
  end.

(** What a caller has to respect: losses no wider than the array and numbers
    within half the sequence space of the recorded ones. *)
Definition op_ok (N : Z) (A : loss_set) (o : loss_op) : Prop :=
  match o with
  | OpInsert x1 x2 =>
    nearby A x1 /\ nearby A x2 /\ x1 <= x2 /\ fits N A (cutoff (seen A) x1) x2
  | OpRemove y => nearby A y
  end.

Fixpoint run_ops (l : t) (os : list loss_op) : option (list Z * t) :=
  match os with
  | [] => Some ([], l)
  | o :: os => r ← run_op l o; rs ← run_ops (snd r) os; Some (fst r :: fst rs, snd rs)
  end.

Fixpoint spec_ops (A : loss_set) (os : list loss_op) : list Z * loss_set :=
  match os with
  | [] => ([], A)
  | o :: os => let r := spec_op A o in let rs := spec_ops (snd r) os in (fst r :: fst rs, snd rs)
  end.

Fixpoint ops_ok (N : Z) (A : loss_set) (os : list loss_op) : Prop :=
  match os with [] => True | o :: os => op_ok N A o /\ ops_ok N (snd (spec_op A o)) os end.

Lemma insert_size l s1 s2 r l' : insert l s1 s2 = Some (r, l') -> m_iSize l' = m_iSize l.
Proof. unfold insert. cbv zeta. intros H. bind_inv; done. Qed.

Lemma remove_size l s r l' : remove l s = Some (r, l') -> m_iSize l' = m_iSize l.
Proof.
  unfold remove. set (l1 := if _ || _ then _ else l).
  assert (m_iSize l1 = m_iSize l) as <- by (unfold l1; by destruct (_ || _)). clearbody l1.
  unfold remove_known. cbv zeta. intros H. bind_inv; done.
Qed.

Lemma run_op_models l A o :
  models l A -> op_ok (m_iSize l) A o ->
  exists l', run_op l o = Some (fst (spec_op A o), l') /\ models l' (snd (spec_op A o))
    /\ m_iSize l' = m_iSize l.
Proof.
  intros Hm Hok. destruct o as [x1 x2|y]; simpl in *.
  - destruct Hok as (? & ? & ? & ?). destruct (insert_models l A x1 x2) as (l' & E & Hm'); try done.
    exists l'. rewrite E. eauto using insert_size.
  - destruct (remove_models l A y Hm Hok) as (l' & E & Hm'). exists l'. rewrite E. eauto using remove_size.
Qed.

Lemma run_ops_models l A os :
  models l A -> ops_ok (m_iSize l) A os ->
  exists l', run_ops l os = Some (fst (spec_ops A os), l') /\ models l' (snd (spec_ops A os)).
Proof.
  revert l A. induction os as [|o os IH]; intros l A Hm Hok; simpl in *; [eauto|].
  destruct Hok as [Ho Hos]. destruct (run_op_models l A o Hm Ho) as (l1 & -> & Hm1 & Hs).
  cbn [mbind option_bind snd fst]. rewrite <- Hs in Hos.
  destruct (IH l1 _ Hm1 Hos) as (l2 & -> & Hm2). simpl. eauto.
Qed.

(** ** The loss report *)

(** The words of one range in a loss report. *)
Definition report_words (n : range) : list Z :=
  if fst n =? snd n then [seq_of (fst n)]
  else [Z.lor (seq_of (fst n)) LOSSDATA_SEQNO_RANGE_FIRST; seq_of (snd n)].

Lemma loss_array_loop_exact N c arr prev nodes fuel cap out :
  0 < N -> chain N c arr prev nodes (-1) -> (length nodes <= fuel)%nat ->
  exists k, (k <= length nodes)%nat
    /\ loss_array_loop fuel arr cap (first_pos N c nodes (-1)) out
       = Some (out ++ concat (report_words <$> take k nodes))
    /\ ((k < length nodes)%nat -> cap - 1 <= Z.of_nat (length (out ++ concat (report_words <$> take k nodes))))
    /\ (Z.of_nat (length out) <= cap -> Z.of_nat (length (out ++ concat (report_words <$> take k nodes))) <= cap).
Proof.
  intros HN. revert prev fuel out. induction nodes as [|[a b] r IH]; intros prev fuel out Hc Hf.
  - exists 0%nat. simpl. rewrite app_nil_r. split; [lia|]. split; [|split; [lia|done]].
    destruct fuel; simpl; rewrite andb_false_r; done.
  - destruct fuel as [|f]; simpl in Hf; [lia|]. destruct Hc as [Ha Hc].
    cbn [loss_array_loop first_pos]. pose proof (pos_range N c HN a).
    destruct (Z.eqb_spec (pos N c a) (-1)); [lia|]. simpl negb. rewrite andb_true_r.
    destruct (Z.ltb_spec (Z.of_nat (length out)) (cap - 1)) as [Hcap|Hcap].
    + rewrite Ha. cbn [mbind option_bind seqend seqstart inext]. rewrite end_of_none.
      set (out' := if a =? b then _ else _).
      assert (out' = out ++ report_words (a, b)) as Hout.
      { unfold out', report_words. simpl. destruct (Z.eqb_spec a b); [done|]. by rewrite end_of_multi. }
      destruct (IH (pos N c a) f out' Hc ltac:(lia)) as (k & Hk & E & Hk1 & Hk2).
      exists (S k). simpl. rewrite E, Hout in *. rewrite <- app_assoc in *. split; [lia|]. split; [done|].
      split; [intros; apply Hk1; lia|]. intros Hle. apply Hk2. rewrite length_app. unfold report_words.
      simpl. destruct (a =? b); simpl; lia.
    + exists 0%nat. simpl. rewrite app_nil_r. split; [lia|]. split; [done|]. split; [lia|done].
Qed.

(** ** The properties *)

(** C3: the receiver's loss list refines a set of packet indices. Starting from
    a list that models a set of lost packets, every sequence of [insert] and
    [remove] calls that respects the list's contract stays inside the array,
    terminates, returns the number of newly recorded packets (respectively
    whether the packet was recorded) that the set specification gives, and ends
    in a list that models the specification's final set. *)
Theorem rcv_loss_list_refines (l : t) (A : loss_set) (os : list loss_op) :
  models l A -> ops_ok (m_iSize l) A os ->
  exists l', run_ops l os = Some (fst (spec_ops A os), l')
    /\ models l' (snd (spec_ops A os))
    /\ getLossLength l' = Z.of_nat (size (lostset (snd (spec_ops A os)))).
Proof.
  intros Hm Hok. destruct (run_ops_models l A os Hm Hok) as (l' & E & Hm'). exists l'.
  split; [done|]. split; [done|]. by apply models_length.
Qed.

(** The list crosses the wrap-around of the sequence space: indices around
    [2 ^ 31]. *)
Lemma rcv_loss_list_refines_witness :
  exists l', run_ops (create 0 8) [OpInsert (2 ^ 31 - 2) (2 ^ 31 + 2); OpRemove (2 ^ 31)]
      = Some ([5; 1], l') /\ getLossLength l' = 4.
Proof.
  destruct (rcv_loss_list_refines (create 0 8) (mkLossSet ∅ None)
    [OpInsert (2 ^ 31 - 2) (2 ^ 31 + 2); OpRemove (2 ^ 31)]) as (l' & E & _ & Hn).
  - apply create_models. lia.
  - unfold ops_ok, op_ok, nearby, fits, spec_op, spec_insert, cutoff, CSeqNo.m_iSeqNoTH. simpl.
    repeat split; try (intros; set_solver); try lia; try (intros ? [= <-]; lia).
    intros x [?%not_elem_of_empty|?%elem_of_range_set]%elem_of_union; [done|lia].
  - exists l'. split; [exact E|]. rewrite Hn. vm_compute. reflexivity.
Defined.

(** [removeUpTo] returns the number of the oldest recorded packet (none for
    an empty list) and, when that packet is not newer than the given one, removes exactly the packets up to it: the
    loop ends after one iteration per packet number of the range. *)
Theorem rcv_loss_remove_up_to (l : t) (A : loss_set) (y : Z) (fuel : nat) :
  models l A -> nearby A y ->
  (forall x, x ∈ lostset A -> y - x < Z.of_nat fuel /\ y - x < CSeqNo.m_iSeqNoTH - 1) ->
  (forall x, x ∈ lostset A -> nearby A x) ->
  exists l' A', removeUpTo fuel l (seq_of y)
      = Some (from_option id SRT_SEQNO_NONE (getFirstLostSeq l), l')
    /\ models l' A' /\ forall x, x ∈ lostset A' <-> x ∈ lostset A /\ y < x.
Proof.
  intros Hm Hny Hfuel Hz. unfold removeUpTo.
  destruct (models_first _ _ Hm) as [[He ->]|(x & Hx & Hmin & ->)].
  - exists l, A. simpl. split; [done|]. split; [done|]. rewrite He. set_solver.
  - cbn [mbind option_bind from_option]. rewrite seq_of_not_none. unfold id.
    pose proof (seqcmp_seq_of_sgn y x (proj2 Hny x Hx)).
    destruct (Z.ltb_spec (CSeqNo.seqcmp (seq_of y) (seq_of x)) 0).
    + exists l, A. split; [done|]. split; [done|]. intros z. split; [|tauto]. intros Hin. specialize (Hmin _ Hin). split; [done|lia].
    + destruct (Hfuel x Hx). destruct (remove_loop_models fuel l A x (Z.to_nat (y - x + 1))) as (l' & E & Hm'); try done; try lia.
      * intros z Hz'. apply (nearby_between A x y); [auto|done|lia].
      * rewrite Z2Nat.id in E by lia. replace (x + (y - x + 1) - 1) with y in E by lia. rewrite E.
        simpl. eexists l', _. split; [done|]. split; [exact Hm'|]. intros z.
        rewrite spec_remove_n_lost, elem_of_difference, elem_of_range_set.
        split; [intros [Hin Hn]; specialize (Hmin _ Hin); split; [done|lia]|intros [??]; split; [done|lia]].
Qed.

Lemma rcv_loss_remove_up_to_witness :
  exists l l', run_ops (create 0 8) [OpInsert 5 9] = Some ([5], l)
    /\ removeUpTo 4 l (seq_of 7) = Some (from_option id SRT_SEQNO_NONE (getFirstLostSeq l), l').
Proof.
  set (A0 := mkLossSet ∅ None). set (A := mkLossSet (∅ ∪ range_set 5 9) (Some 9)).
  destruct (run_ops_models (create 0 8) A0 [OpInsert 5 9]) as (l & E & Hm).
  { apply create_models. lia. }
  { unfold ops_ok, op_ok, nearby, fits, CSeqNo.m_iSeqNoTH. simpl.
    repeat split; try (intros; set_solver); lia. }
  assert (forall x, x ∈ lostset A <-> 5 <= x <= 9) as HA
    by (intros x; unfold A; simpl; rewrite elem_of_union, elem_of_range_set; set_solver).
  assert (forall x, 5 <= x <= 9 -> nearby A x) as Hn.
  { intros x Hx. unfold nearby, CSeqNo.m_iSeqNoTH. split; [intros m [= <-]; lia|].
    intros y Hy%HA. lia. }
  destruct (rcv_loss_remove_up_to l A 7 4) as (l' & A' & E' & _).
  - exact Hm.
  - apply Hn. lia.
  - intros x Hx%HA. unfold CSeqNo.m_iSeqNoTH. lia.
  - intros x Hx%HA. by apply Hn.
  - exists l, l'. split; [exact E | exact E'].
Defined.

(** The queries of the loss list are exact: the first number is the
    smallest recorded packet's, and [find] answers whether a recorded packet
    lies in the given range, without leaving the array. *)
Theorem rcv_loss_queries (l : t) (A : loss_set) (x1 x2 : Z) :
  models l A -> nearby A x1 -> nearby A x2 -> x1 <= x2 ->
  (getFirstLostSeq l = Some SRT_SEQNO_NONE /\ lostset A = ∅
   \/ exists x, getFirstLostSeq l = Some (seq_of x) /\ x ∈ lostset A /\ forall y, y ∈ lostset A -> x <= y)
  /\ exists r, find l (seq_of x1) (seq_of x2) = Some r
       /\ (r = true <-> exists x, x ∈ lostset A /\ x1 <= x <= x2).
Proof.
  intros Hm H1 H2 Hx. split; [|by apply find_models].
  destruct (models_first _ _ Hm) as [[? ?]|(x & ? & Hmin & ?)]; [by left|right].
  exists x. split; [done|]. split; [done|]. intros y Hy. by apply Hmin.
Qed.

Lemma rcv_loss_queries_witness :
  exists r, find (create 0 8) (seq_of 1) (seq_of 2) = Some r
    /\ (r = true <-> exists x, x ∈ (∅ : gset Z) /\ 1 <= x <= 2).
Proof.
  apply (rcv_loss_queries (create 0 8) (mkLossSet ∅ None) 1 2).
  - apply create_models. lia.
  - split; [done|]. intros x Hx. by apply not_elem_of_empty in Hx.
  - split; [done|]. intros x Hx. by apply not_elem_of_empty in Hx.
  - lia.
Defined.

(** [getLossArray] writes the words of a prefix of the loss ranges, in
    order, never more words than the output array has; a range is left out only
    when at most one word of the array is left. *)
Theorem rcv_loss_array_exact (l : t) (A : loss_set) (cap : Z) :
  models l A -> 0 <= cap ->
  exists nodes k out,
    (forall x, x ∈ lostset A <-> lost nodes x)
    /\ getLossArray l cap = Some out
    /\ out = concat (report_words <$> take k nodes)
    /\ Z.of_nat (length out) <= cap
    /\ ((k < length nodes)%nat -> cap - 1 <= Z.of_nat (length out)).
Proof.
  intros (c & nodes & R & HS) Hcap. unfold getLossArray. rewrite (rep_head _ _ _ _ R).
  pose proof (rep_size _ _ _ _ R).
  destruct (loss_array_loop_exact (m_iSize l) c (m_caSeq l) (-1) nodes (Z.to_nat (m_iSize l)) cap [])
    as (k & Hk & E & Hfull & Hle); [lia|apply R|by eapply models_nodes_fuel|].
  eexists nodes, k, _. split; [done|]. split; [exact E|]. split; [done|].
  split; [apply Hle; simpl; lia | exact Hfull].
Qed.

Lemma rcv_loss_array_exact_witness :
  exists l, run_ops (create 0 8) [OpInsert 5 9; OpRemove 7] = Some ([5; 1], l)
    /\ exists out, getLossArray l 4 = Some out /\ Z.of_nat (length out) <= 4.
Proof.
  destruct (run_ops_models (create 0 8) (mkLossSet ∅ None) [OpInsert 5 9; OpRemove 7]) as (l & E & Hm).
  { apply create_models. lia. }
  { unfold ops_ok, op_ok, nearby, fits, spec_op, spec_insert, cutoff, CSeqNo.m_iSeqNoTH. simpl.
    repeat split; try (intros; set_solver); try lia; try (intros ? [= <-]; lia).
    intros x [?%not_elem_of_empty|?%elem_of_range_set]%elem_of_union; [done|lia]. }
  exists l. split; [exact E|].
  destruct (rcv_loss_array_exact l _ 4 Hm ltac:(lia)) as (nodes & k & out & _ & E' & _ & Hle & _).
  eauto.
Defined.
