(* ===== verification/SndLossList.v ===== *)
(** * The sender's loss list (srtcore/list.h, list.cpp: [CSndLossList])

    A singly linked list of loss ranges in a circular array, kept by the sender
    from the receiver's loss reports: the node of a range that begins [k] packets
    from the first lost one is the array element [k] places from the head, before
    it for negative [k]. The correctness proof is in SndLossListSpec.v.

    Every operation returns [None] exactly when the source would access [m_caSeq]
    out of bounds (or a loop would run forever). The lock is not modelled: each
    operation holds it from start to end. *)

From S2P Require Import Prelude SeqNo.

Module CSndLossList.

Record Seq := mkSeq { seqstart : Z; seqend : Z; inext : Z }.

Definition set_seqstart (v : Z) (s : Seq) := mkSeq v (seqend s) (inext s).
Definition set_seqend (v : Z) (s : Seq) := mkSeq (seqstart s) v (inext s).
Definition set_inext (v : Z) (s : Seq) := mkSeq (seqstart s) (seqend s) v.

Record t := mk {
  m_caSeq : list Seq;
  m_iHead : Z;
  m_iLength : Z;
  m_iSize : Z;
  m_iLastInsertPos : Z
}.

Definition set_arr (a : list Seq) (l : t) : t := mk a (m_iHead l) (m_iLength l) (m_iSize l) (m_iLastInsertPos l).
Definition set_len (v : Z) (l : t) : t := mk (m_caSeq l) (m_iHead l) (i32 v) (m_iSize l) (m_iLastInsertPos l).
Definition set_last (v : Z) (l : t) : t := mk (m_caSeq l) (m_iHead l) (m_iLength l) (m_iSize l) v.

(** [new Seq[size]] leaves the link fields indeterminate: [junk]. *)
Definition create (junk size : Z) : t :=
  mk (replicate (Z.to_nat size) (mkSeq SRT_SEQNO_NONE SRT_SEQNO_NONE junk)) (-1) 0 size (-1).

Definition getLossLength (l : t) : Z := m_iLength l.

(** Filling node [pos]: common to both insertions. *)
Definition fill_node (a : list Seq) (pos seqno1 seqno2 : Z) : option (list Seq) :=
  a ← aupd a pos (set_seqstart seqno1);
  if negb (seqno2 =? seqno1) then aupd a pos (set_seqend seqno2) else Some a.

Definition insertHead (l : t) (pos seqno1 seqno2 : Z) : option t :=
  a ← fill_node (m_caSeq l) pos seqno1 seqno2;
  a ← aupd a pos (set_inext (m_iHead l));
  Some (mk a pos (i32 (m_iLength l + CSeqNo.seqlen seqno1 seqno2)) (m_iSize l) pos).

Definition insertAfter (l : t) (pos pos_after seqno1 seqno2 : Z) : option t :=
  a ← fill_node (m_caSeq l) pos seqno1 seqno2;
  after ← aget a pos_after;
  a ← aupd a pos (set_inext (inext after));
  a ← aupd a pos_after (set_inext pos);
  Some (mk a (m_iHead l) (i32 (m_iLength l + CSeqNo.seqlen seqno1 seqno2)) (m_iSize l) pos).

(** One round of [coalesce]: the range of node [ci] is added to that of node
    [cl] at [loc], the length corrected by what both held. *)
Definition absorb (l : t) (loc : Z) (cl ci : Seq) : option t :=
  if negb (seqend ci =? SRT_SEQNO_NONE) then
    if CSeqNo.seqcmp (seqend ci) (seqend cl) >? 0 then
      let l := if CSeqNo.seqcmp (seqend cl) (seqstart ci) >=? 0
               then set_len (m_iLength l - CSeqNo.seqlen (seqstart ci) (seqend cl)) l else l in
      a ← aupd (m_caSeq l) loc (set_seqend (seqend ci));
      Some (set_arr a l)
    else Some (set_len (m_iLength l - CSeqNo.seqlen (seqstart ci) (seqend ci)) l)
  else if seqstart ci =? CSeqNo.incseq (seqend cl) then
    a ← aupd (m_caSeq l) loc (set_seqend (seqstart ci));
    Some (set_arr a l)
  else Some (set_len (m_iLength l - 1) l).

(** Then node [i] is emptied and unlinked. *)
Definition merge_next (l : t) (loc i : Z) : option t :=
  cl ← aget (m_caSeq l) loc;
  ci ← aget (m_caSeq l) i;
  r ← absorb l loc cl ci;
  a ← aupd (m_caSeq r) i (set_seqstart SRT_SEQNO_NONE);
  a ← aupd a i (set_seqend SRT_SEQNO_NONE);
  ci ← aget a i;
  a ← aupd a loc (set_inext (inext ci));
  Some (set_arr a r).

(** The loop of [coalesce]; each round removes a node, so [m_iSize] rounds are
    enough. *)
Fixpoint coalesce (fuel : nat) (l : t) (loc : Z) : option t :=
  cl ← aget (m_caSeq l) loc;
  if negb (inext cl =? -1) && negb (seqend cl =? SRT_SEQNO_NONE) then
    let i := inext cl in
    ci ← aget (m_caSeq l) i;
    if CSeqNo.seqcmp (seqstart ci) (CSeqNo.incseq (seqend cl)) >? 0 then Some l
    else
      match fuel with
      | O => None
      | S f => l ← merge_next l loc i; coalesce f l loc
      end
  else Some l.

(** Whether the element grew. *)
Definition updateElement (l : t) (pos seqno1 seqno2 : Z) : option (bool * t) :=
  let l := set_last pos l in
  if (seqno2 =? SRT_SEQNO_NONE) || (seqno2 =? seqno1) then Some (false, l)
  else
    c ← aget (m_caSeq l) pos;
    if seqend c =? SRT_SEQNO_NONE then
      a ← aupd (m_caSeq l) pos (set_seqend seqno2);
      Some (true, set_arr a (set_len (m_iLength l + (CSeqNo.seqlen seqno1 seqno2 - 1)) l))
    else if CSeqNo.seqcmp seqno2 (seqend c) <=? 0 then Some (false, l)
    else
      a ← aupd (m_caSeq l) pos (set_seqend seqno2);
      Some (true, set_arr a (set_len (m_iLength l + (CSeqNo.seqlen (seqend c) seqno2 - 1)) l)).

(** The list where nothing was added ([inl]), or the grown list with the node to
    coalesce. *)
Definition grown (u : bool * t) (loc : Z) : t + t * Z := if fst u then inr (snd u, loc) else inl (snd u).

(** The last node from [i] on whose first number is less than [seqno]. *)
Fixpoint find_prior (fuel : nat) (a : list Seq) (i seqno : Z) : option Z :=
  c ← aget a i;
  if inext c =? -1 then Some i
  else
    n ← aget a (inext c);
    if CSeqNo.seqcmp (seqstart n) seqno <? 0 then
      match fuel with O => None | S f => find_prior f a (inext c) seqno end
    else Some i.

(** Where the search for the prior node starts. *)
Definition search_start (l : t) (seqno1 : Z) : option Z :=
  if negb (m_iLastInsertPos l =? -1) then
    c ← aget (m_caSeq l) (m_iLastInsertPos l);
    Some (if CSeqNo.seqcmp (seqstart c) seqno1 <? 0 then m_iLastInsertPos l else m_iHead l)
  else Some (m_iHead l).

(** The branch of [insert] for a number after the head that starts no node:
    as [grown]. *)
Definition insert_after_prior (l : t) (loc seqno1 seqno2 : Z) : option (t + t * Z) :=
  i ← search_start l seqno1;
  i ← find_prior (Z.to_nat (m_iSize l)) (m_caSeq l) i seqno1;
  c ← aget (m_caSeq l) i;
  let seqend_ := if seqend c =? SRT_SEQNO_NONE then seqstart c else seqend c in
  if (CSeqNo.seqcmp seqend_ seqno1 <? 0) && negb (CSeqNo.incseq seqend_ =? seqno1) then
    l ← insertAfter l loc i seqno1 seqno2; Some (grown (true, l) loc)
  else
    let l := set_last i l in
    if CSeqNo.seqcmp seqend_ seqno2 >=? 0 then Some (grown (false, l) i)
    else
      let l := set_len (m_iLength l + (CSeqNo.seqlen seqend_ seqno2 - 1)) l in
      a ← aupd (m_caSeq l) i (set_seqend seqno2);
      Some (grown (true, set_arr a l) i).

(** The place of [seqno1] (of [seqno2] when that of [seqno1] is negative), or
    [None] for a record that is too old. *)
Definition insert_loc (l : t) (start seqno1 seqno2 : Z) : option Z :=
  let loc := Z.rem (i32 (m_iHead l + CSeqNo.seqoff start seqno1 + m_iSize l)) (m_iSize l) in
  if loc <? 0 then
    let loc2 := Z.rem (i32 (m_iHead l + CSeqNo.seqoff start seqno2 + m_iSize l)) (m_iSize l) in
    if loc2 <? 0 then None else Some loc2
  else Some loc.

(** The three cases of [insert], by the distance from the first recorded number. *)
Definition insert_branch (l : t) (offset loc seqno1 seqno2 : Z) : option (t + t * Z) :=
  if offset <? 0 then l ← insertHead l loc seqno1 seqno2; Some (grown (true, l) loc)
  else if offset >? 0 then
    c ← aget (m_caSeq l) loc;
    if seqno1 =? seqstart c then
      u ← updateElement l loc seqno1 seqno2; Some (grown u loc)
    else insert_after_prior l loc seqno1 seqno2
  else
    u ← updateElement l (m_iHead l) seqno1 seqno2; Some (grown u loc).

Definition insert (l : t) (seqno1 seqno2 : Z) : option (Z * t) :=
  if (seqno1 <? 0) || (seqno2 <? 0) then Some (0, l)
  else
    let inserted_range := CSeqNo.seqlen seqno1 seqno2 in
    if (inserted_range <=? 0) || (inserted_range >=? m_iSize l) then Some (0, l)
    else if m_iLength l =? 0 then
      l ← insertHead l 0 seqno1 seqno2; Some (m_iLength l, l)
    else
      let origlen := m_iLength l in
      h ← aget (m_caSeq l) (m_iHead l);
      let offset := CSeqNo.seqoff (seqstart h) seqno1 in
      if offset >=? m_iSize l then Some (0, l)
      else
        match insert_loc l (seqstart h) seqno1 seqno2 with
        | None => Some (0, l)
        | Some loc =>
          r ← insert_branch l offset loc seqno1 seqno2;
          match r with
          | inl l => Some (0, l)
          | inr (l, loc) =>
            l ← coalesce (Z.to_nat (m_iSize l)) l loc;
            Some (i32 (m_iLength l - origlen), l)
          end
        end.

(** [while (h != m_iHead)]: the nodes before the new head are emptied; the new
    head is already in [l]. *)
Fixpoint drop_until_head (fuel : nat) (l : t) (h : Z) : option t :=
  if h =? m_iHead l then Some l
  else
    match fuel with
    | O => None
    | S f =>
      c ← aget (m_caSeq l) h;
      r ← (if negb (seqend c =? SRT_SEQNO_NONE) then
             let l := set_len (m_iLength l - CSeqNo.seqlen (seqstart c) (seqend c)) l in
             a ← aupd (m_caSeq l) h (set_seqend SRT_SEQNO_NONE);
             Some (set_arr a l)
           else Some (set_len (m_iLength l - 1) l));
      a ← aupd (m_caSeq r) h (set_seqstart SRT_SEQNO_NONE);
      let l := set_arr a r in
      let l := if m_iLastInsertPos l =? h then set_last (-1) l else l in
      c ← aget (m_caSeq l) h;
      drop_until_head f l (inext c)
    end.

(** A node's range from [seqno + 1] on moves to the next element [loc]. *)
Definition start_rest (a : list Seq) (from loc seqno : Z) : option (list Seq) :=
  a ← aupd a loc (set_seqstart (CSeqNo.incseq seqno));
  c ← aget a from;
  n ← aget a loc;
  if CSeqNo.seqcmp (seqend c) (seqstart n) >? 0 then aupd a loc (set_seqend (seqend c)) else Some a.

(** [removeUpTo] of the head's first number. *)
Definition remove_head (l : t) (loc seqno : Z) : option t :=
  let loc := Z.rem (i32 (loc + 1)) (m_iSize l) in
  h ← aget (m_caSeq l) (m_iHead l);
  r ← (if seqend h =? SRT_SEQNO_NONE then Some (m_caSeq l, inext h)
       else
         a ← start_rest (m_caSeq l) (m_iHead l) loc seqno;
         a ← aupd a (m_iHead l) (set_seqend SRT_SEQNO_NONE);
         h ← aget a (m_iHead l);
         a ← aupd a loc (set_inext (inext h));
         Some (a, loc));
  a ← aupd (fst r) (m_iHead l) (set_seqstart SRT_SEQNO_NONE);
  Some (mk a (snd r) (i32 (m_iLength l - 1)) (m_iSize l)
          (if m_iLastInsertPos l =? m_iHead l then -1 else m_iLastInsertPos l)).

(** The new head when [seqno] starts node [temp]. *)
Definition cut_at_start (l : t) (temp seqno : Z) : option (list Seq * Z) :=
  let loc := Z.rem (i32 (temp + 1)) (m_iSize l) in
  c ← aget (m_caSeq l) temp;
  if seqend c =? SRT_SEQNO_NONE then Some (m_caSeq l, inext c)
  else
    a ← start_rest (m_caSeq l) temp loc seqno;
    c ← aget a temp;
    a ← aupd a loc (set_inext (inext c));
    a ← aupd a temp (set_inext loc);
    a ← aupd a temp (set_seqend SRT_SEQNO_NONE);
    Some (a, loc).

(** The new head when [seqno] starts no node: [i] is the node before it. *)
Definition cut_at_prior (l : t) (loc seqno : Z) : option (list Seq * Z) :=
  i ← find_prior (Z.to_nat (m_iSize l)) (m_caSeq l) (m_iHead l) seqno;
  let loc := Z.rem (i32 (loc + 1)) (m_iSize l) in
  c ← aget (m_caSeq l) i;
  if seqend c =? SRT_SEQNO_NONE then Some (m_caSeq l, inext c)
  else if CSeqNo.seqcmp (seqend c) seqno >? 0 then
    a ← start_rest (m_caSeq l) i loc seqno;
    a ← aupd a i (set_seqend seqno);
    c ← aget a i;
    a ← aupd a loc (set_inext (inext c));
    a ← aupd a i (set_inext loc);
    Some (a, loc)
  else Some (m_caSeq l, inext c).

Definition removeUpTo (l : t) (seqno : Z) : option t :=
  if m_iLength l =? 0 then Some l
  else
    h ← aget (m_caSeq l) (m_iHead l);
    let offset := CSeqNo.seqoff (seqstart h) seqno in
    let loc := Z.rem (i32 (m_iHead l + offset + m_iSize l)) (m_iSize l) in
    if offset =? 0 then remove_head l loc seqno
    else if offset >? 0 then
      c ← aget (m_caSeq l) loc;
      r ← (if seqno =? seqstart c then cut_at_start l loc seqno else cut_at_prior l loc seqno);
      drop_until_head (S (Z.to_nat (m_iSize l)))
        (mk (fst r) (snd r) (m_iLength l) (m_iSize l) (m_iLastInsertPos l)) (m_iHead l)
    else Some l.

Definition popLostSeq (l : t) : option (Z * t) :=
  if m_iLength l =? 0 then Some (SRT_SEQNO_NONE, l)
  else
    let last := if m_iLastInsertPos l =? m_iHead l then -1 else m_iLastInsertPos l in
    h ← aget (m_caSeq l) (m_iHead l);
    let seqno := seqstart h in
    r ← (if seqend h =? SRT_SEQNO_NONE then
           a ← aupd (m_caSeq l) (m_iHead l) (set_seqstart SRT_SEQNO_NONE);
           h ← aget a (m_iHead l);
           Some (a, inext h)
         else
           let loc := Z.rem (i32 (m_iHead l + 1)) (m_iSize l) in
           a ← start_rest (m_caSeq l) (m_iHead l) loc seqno;
           a ← aupd a (m_iHead l) (set_seqstart SRT_SEQNO_NONE);
           a ← aupd a (m_iHead l) (set_seqend SRT_SEQNO_NONE);
           h ← aget a (m_iHead l);
           a ← aupd a loc (set_inext (inext h));
           Some (a, loc));
    Some (seqno, mk (fst r) (snd r) (i32 (m_iLength l - 1)) (m_iSize l) last).

End CSndLossList.
