(* ===== verification/SndLossListSpec.v ===== *)
(** * The sender's loss list is a set of lost packets

    The representation relation [srep] ties the array, the links and the counter
    to a list of index ranges in increasing order. While a new range is being
    merged, neighbouring ranges may overlap ([sorted]); between operations they
    are disjoint ([window]). *)

From S2P Require Import Prelude SeqNo Ranges SndLossList.
Import CSndLossList.

(** ** Ranges that may overlap *)

(** Increasing starts; everything inside [lo, hi). *)
Fixpoint sorted (lo : Z) (nodes : list range) (hi : Z) : Prop :=
  match nodes with
  | [] => True
  | (a, b) :: r => lo <= a <= b /\ b < hi /\ sorted (a + 1) r hi
  end.

Lemma sorted_weaken lo nodes hi lo' hi' : sorted lo nodes hi -> lo' <= lo -> hi <= hi' -> sorted lo' nodes hi'.
Proof.
  revert lo lo'. induction nodes as [|[a b] r IH]; intros lo lo'; simpl; [done|].
  intros (? & ? & H) **. repeat split; try lia. eapply IH; [exact H|lia..].
Qed.

Lemma sorted_elem lo nodes hi a b : sorted lo nodes hi -> (a, b) ∈ nodes -> lo <= a <= b /\ b < hi.
Proof.
  revert lo. induction nodes as [|[a' b'] r IH]; intros lo; simpl; [by intros _ ?%not_elem_of_nil|].
  intros (? & ? & H) [[= -> ->]|Hin]%elem_of_cons; [lia|]. specialize (IH _ H Hin). lia.
Qed.

Lemma sorted_app lo l1 l2 hi :
  sorted lo (l1 ++ l2) hi <->
  sorted lo l1 hi /\ sorted lo l2 hi /\ (forall a b c d, (a, b) ∈ l1 -> (c, d) ∈ l2 -> a < c).
Proof.
  revert lo. induction l1 as [|[a b] r IH]; intros lo; cbn [app sorted].
  - split; [intros H; split; [done|split; [done|]]; by intros ???? ?%not_elem_of_nil|tauto].
  - rewrite IH. split.
    + intros (H1 & H2 & H3 & H4 & H5). split; [tauto|]. split; [eapply sorted_weaken; [exact H4|lia|lia]|].
      intros a' b' c' d' [[= -> ->]|Hin]%elem_of_cons Hc; [|eauto].
      pose proof (sorted_elem _ _ _ _ _ H4 Hc). lia.
    + intros [(H1 & H2 & H3) [H4 H5]]. split; [done|]. split; [done|]. split; [done|]. split.
      * destruct l2 as [|[c d] l2]; [done|]. destruct H4 as (? & ? & ?).
        specialize (H5 a b c d ltac:(constructor) ltac:(constructor)). simpl. repeat split; try lia; done.
      * intros a' b' c' d' Hin Hc. apply (H5 a' b' c' d'); [by constructor|done].
Qed.

Lemma ordered_sorted lo nodes hi : ordered lo nodes hi -> sorted lo nodes hi.
Proof.
  revert lo. induction nodes as [|[a b] r IH]; intros lo; simpl; [done|]. intros (? & ? & H).
  repeat split; try lia. eapply sorted_weaken; [by apply IH|lia|lia].
Qed.

(** ** The linked layout *)

Section Layout.

Context (N c : Z).

Notation pos := (pos N c).
Notation first_pos := (first_pos N c).

Fixpoint schain (arr : list Seq) (nodes : list range) (next : Z) : Prop :=
  match nodes with
  | [] => True
  | (a, b) :: r => aget arr (pos a) = Some (mkSeq (seq_of a) (end_of a b) (first_pos r next)) /\ schain arr r next
  end.

Definition sblank (arr : list Seq) (i : Z) : Prop :=
  exists nx, aget arr i = Some (mkSeq SRT_SEQNO_NONE SRT_SEQNO_NONE nx).

(** Element [i] holds a range. *)
Definition occupied (nodes : list range) (i : Z) : Prop := exists a b, (a, b) ∈ nodes /\ pos a = i.

Record cells (arr : list Seq) (nodes : list range) : Prop := {
  cells_len : Z.of_nat (length arr) = N;
  cells_sorted : exists lo, sorted lo nodes (lo + N);
  cells_chain : schain arr nodes (-1);
  cells_blank : forall i, 0 <= i < N -> ~ occupied nodes i -> sblank arr i
}.

Lemma schain_app arr l1 l2 next :
  schain arr (l1 ++ l2) next <-> schain arr l1 (first_pos l2 next) /\ schain arr l2 next.
Proof. induction l1 as [|[a b] r IH]; simpl; [tauto|]. rewrite IH, first_pos_app. tauto. Qed.

Lemma schain_frame arr arr' nodes next :
  (forall i, occupied nodes i -> aget arr' i = aget arr i) -> schain arr nodes next -> schain arr' nodes next.
Proof.
  induction nodes as [|[a b] r IH]; intros Hf; simpl; [done|]. intros [Hc Hr]. split.
  - rewrite Hf; [done|]. exists a, b. split; [constructor|done].
  - apply IH; [|done]. intros i (a' & b' & Hin & Hp). apply Hf. exists a', b'. split; [by constructor|done].
Qed.

Lemma occupied_app l1 l2 i : occupied (l1 ++ l2) i <-> occupied l1 i \/ occupied l2 i.
Proof.
  unfold occupied. split.
  - intros (a & b & [H|H]%elem_of_app & ?); eauto 10.
  - intros [(a & b & H & ?)|(a & b & H & ?)]; exists a, b; rewrite elem_of_app; eauto.
Qed.

Lemma occupied_cons a b r i : occupied ((a, b) :: r) i <-> pos a = i \/ occupied r i.
Proof.
  unfold occupied. split.
  - intros (a' & b' & [[= -> ->]|H]%elem_of_cons & ?); eauto 10.
  - intros [H|(a' & b' & H & ?)]; [exists a, b; split; [constructor|done]|exists a', b'; split; [by constructor|done]].
Qed.

Lemma occupied_nil i : occupied [] i <-> False.
Proof. split; [|done]. by intros (a & b & ?%not_elem_of_nil & _). Qed.

Context (HN : 0 < N <= 2 ^ 29).

(** Ranges before and after each other have distinct places. *)
Lemma occupied_disjoint lo l1 l2 i :
  sorted lo (l1 ++ l2) (lo + N) -> occupied l1 i -> occupied l2 i -> False.
Proof using HN.
  intros (H1 & H2 & H3)%sorted_app (a & b & Ha & <-) (c' & d & Hc & Hp).
  specialize (H3 _ _ _ _ Ha Hc). pose proof (sorted_elem _ _ _ _ _ H1 Ha). pose proof (sorted_elem _ _ _ _ _ H2 Hc).
  apply (pos_inj N c ltac:(lia)) in Hp; lia.
Qed.

(** Replacing [mid] by [mid'] between [pre] and [post]. *)
Lemma cells_replace arr arr' pre mid mid' post lo :
  cells arr (pre ++ mid ++ post) -> sorted lo (pre ++ mid' ++ post) (lo + N) ->
  length arr' = length arr ->
  (pre = [] \/ first_pos (mid' ++ post) (-1) = first_pos (mid ++ post) (-1)) ->
  schain arr' mid' (first_pos post (-1)) ->
  (forall i, ~ occupied mid i -> ~ occupied mid' i -> aget arr' i = aget arr i) ->
  (forall i, occupied mid i -> ~ occupied mid' i -> sblank arr' i) ->
  cells arr' (pre ++ mid' ++ post).
Proof using HN.
  intros [Hl [lo0 Hs0] Hc Hb] Hs Hlen Hfp Hm Hfr Hbl.
  apply schain_app in Hc as [Hc1 Hc2]. apply schain_app in Hc2 as [_ Hc3].
  assert (forall i, occupied pre i \/ occupied post i -> aget arr' i = aget arr i) as Hout.
  { intros i [Hi|Hi]; apply Hfr; intros Hj.
    - eapply (occupied_disjoint lo0 pre (mid ++ post)); [exact Hs0|exact Hi|apply occupied_app; by left].
    - eapply (occupied_disjoint lo pre (mid' ++ post)); [exact Hs|exact Hi|apply occupied_app; by left].
    - apply sorted_app in Hs0 as (_ & Hs0 & _). by eapply (occupied_disjoint lo0 mid post).
    - apply sorted_app in Hs as (_ & Hs & _). by eapply (occupied_disjoint lo mid' post). }
  constructor; [lia|by exists lo| |].
  - apply schain_app. split; [|apply schain_app; split; [done|]].
    + destruct Hfp as [->|Hfp]; [done|]. rewrite Hfp. eapply schain_frame; [|exact Hc1]. auto.
    + eapply schain_frame; [|exact Hc3]. auto.
  - intros i Hi Hn. rewrite !occupied_app in Hn.
    destruct (decide (Exists (fun n => pos (fst n) = i) mid)) as [He|He].
    + apply Hbl; [|tauto]. apply list.Exists_exists in He as ([a b] & Hin & Hp). by exists a, b.
    + assert (~ occupied mid i) as Hnm.
      { intros (a & b & Hin & Hp). apply He, list.Exists_exists. by exists (a, b). }
      destruct (Hb i Hi) as [nx Hnx]; [rewrite !occupied_app; tauto|]. exists nx. rewrite Hfr by tauto. done.
Qed.

End Layout.

(** ** The representation relation *)

Record srep (l : t) (c : Z) (nodes : list range) : Prop := {
  s_size : 0 < m_iSize l <= 2 ^ 29;
  s_cells : cells (m_iSize l) c (m_caSeq l) nodes;
  s_head : m_iHead l = first_pos (m_iSize l) c nodes (-1);
  s_len : m_iLength l = count nodes;
  s_cap : count nodes <= 2 ^ 30;
  s_last : m_iLastInsertPos l = -1 \/ occupied (m_iSize l) c nodes (m_iLastInsertPos l)
}.

Lemma count_sorted lo nodes hi : sorted lo nodes hi -> 0 <= count nodes.
Proof.
  revert lo. induction nodes as [|[a b] r IH]; intros lo; simpl; [lia|]. intros (? & ? & H). specialize (IH _ H). lia.
Qed.

Lemma srep_count l c nodes : srep l c nodes -> 0 <= count nodes <= 2 ^ 30.
Proof. intros R. destruct (cells_sorted _ _ _ _ (s_cells _ _ _ R)) as [lo H]. split; [by eapply count_sorted|apply R]. Qed.

(** Writing a fresh node. *)
Lemma fill_node_spec N arr i x y nx :
  Z.of_nat (length arr) = N -> 0 <= i < N -> x <= y < x + 2 ^ 30 ->
  aget arr i = Some (mkSeq SRT_SEQNO_NONE SRT_SEQNO_NONE nx) ->
  exists arr', fill_node arr i (seq_of x) (seq_of y) = Some arr' /\ length arr' = length arr
    /\ aget arr' i = Some (mkSeq (seq_of x) (end_of x y) nx)
    /\ forall j, j <> i -> aget arr' j = aget arr j.
Proof.
  intros Hl Hi Hxy Hg. unfold fill_node. upd_step. unfold end_of.
  destruct (Z.eqb_spec (seq_of y) (seq_of x)) as [E|E]; cbn [negb].
  - apply seq_of_inj in E; [|lia]. subst y. rewrite Z.eqb_refl. exists arr0.
    repeat split; [done|aget_simp; by rewrite Hg|intros; by aget_simp].
  - destruct (Z.eqb_spec x y); [congruence|]. upd_step. exists arr1.
    repeat split; [lia|aget_simp; by rewrite Hg|intros; by aget_simp].
Qed.

Section Insertion.

Context (l : t) (c : Z).

Notation N := (m_iSize l).
Notation pos := (pos (m_iSize l) c).

Lemma seqlen_range x y : x <= y < x + 2 ^ 30 -> CSeqNo.seqlen (seq_of x) (seq_of y) = y - x + 1.
Proof. intros. apply seqlen_seq_of. unfold CSeqNo.m_iMaxSeqNo. lia. Qed.

Lemma insertHead_rep nodes lo x y :
  srep l c nodes -> sorted lo ((x, y) :: nodes) (lo + N) -> count ((x, y) :: nodes) <= 2 ^ 30 ->
  exists l', insertHead l (pos x) (seq_of x) (seq_of y) = Some l' /\ srep l' c ((x, y) :: nodes)
    /\ m_iSize l' = N.
Proof.
  intros [HN Hc Hh Hl Hcap Hlast] Hs Hcnt. pose proof Hs as (? & ? & Hs').
  pose proof (pos_range N c ltac:(lia) x) as Hp.
  assert (~ occupied N c nodes (pos x)) as Hno.
  { intros Ho. apply (occupied_disjoint N c HN lo [(x, y)] nodes (pos x)); [exact Hs| |done]. apply occupied_cons. by left. }
  destruct (cells_blank _ _ _ _ Hc (pos x) Hp Hno) as [nx Hnx].
  destruct (fill_node_spec N (m_caSeq l) (pos x) x y nx (cells_len _ _ _ _ Hc) Hp ltac:(lia) Hnx)
    as (arr1 & E1 & Hl1 & Hx1 & Hj1).
  pose proof (cells_len _ _ _ _ Hc) as Hlen. unfold insertHead. rewrite E1. cbn [mbind option_bind]. upd_step.
  eexists. split; [reflexivity|]. split; [|done].
  pose proof (count_sorted _ _ _ Hs') as Hc0. simpl in Hcnt.
  constructor; cbn [m_iSize m_caSeq m_iHead m_iLength m_iLastInsertPos].
  - done.
  - apply (cells_replace N c HN (m_caSeq l) arr [] [] [(x, y)] nodes lo Hc Hs).
    + lia.
    + by left.
    + simpl. split; [|done]. aget_simp. rewrite Hx1. by rewrite Hh.
    + intros i _ Hi. rewrite occupied_cons in Hi. assert (pos x <> i) by tauto.
      aget_simp. by apply Hj1.
    + by intros i ?%occupied_nil.
  - done.
  - rewrite Hl, seqlen_range by lia. simpl. rewrite i32_id by (unfold is_i32; lia). lia.
  - done.
  - right. apply occupied_cons. by left.
Qed.

Lemma insertAfter_rep pre a b post lo x y :
  srep l c (pre ++ (a, b) :: post) -> sorted lo (pre ++ (a, b) :: (x, y) :: post) (lo + N) ->
  count (pre ++ (a, b) :: (x, y) :: post) <= 2 ^ 30 ->
  exists l', insertAfter l (pos x) (pos a) (seq_of x) (seq_of y) = Some l'
    /\ srep l' c (pre ++ (a, b) :: (x, y) :: post) /\ m_iSize l' = N.
Proof.
  intros R Hs Hcnt. pose proof R as [HN Hc Hh Hl Hcap Hlast]. pose proof (cells_len _ _ _ _ Hc) as Hlen.
  pose proof (srep_count _ _ _ R) as Hc0.
  pose proof Hs as (Hs1 & Hs2 & Hs3)%sorted_app. destruct Hs2 as (? & ? & Hs2). pose proof Hs2 as (? & ? & Hs4).
  pose proof (pos_range N c ltac:(lia) x) as Hp. pose proof (pos_range N c ltac:(lia) a) as Hpa.
  assert (pos x <> pos a) as Hne by (intros E; apply (pos_inj N c ltac:(lia)) in E; lia).
  assert (~ occupied N c (pre ++ (a, b) :: post) (pos x)) as Hno.
  { rewrite occupied_app, occupied_cons. intros [Ho|[Ho|Ho]]; [|congruence|].
    - apply (occupied_disjoint N c HN lo pre ((a, b) :: (x, y) :: post) (pos x)); [done|done|].
      rewrite !occupied_cons. tauto.
    - apply (occupied_disjoint N c HN lo [(x, y)] post (pos x)); [simpl; split_and!; try lia; done|by apply occupied_cons; left|done]. }
  destruct (cells_blank _ _ _ _ Hc (pos x) Hp Hno) as [nx Hnx].
  destruct (fill_node_spec N (m_caSeq l) (pos x) x y nx (cells_len _ _ _ _ Hc) Hp ltac:(lia) Hnx)
    as (arr1 & E1 & Hl1 & Hx1 & Hj1).
  pose proof (cells_chain _ _ _ _ Hc) as [_ [Ha _]]%schain_app.
  unfold insertAfter. rewrite E1. cbn [mbind option_bind]. rewrite Hj1 by done. rewrite Ha. cbn [mbind option_bind inext].
  do 2 upd_step. eexists. split; [reflexivity|]. split; [|done].
  rewrite count_app in *. simpl in Hcnt, Hc0.
  constructor; cbn [m_iSize m_caSeq m_iHead m_iLength m_iLastInsertPos].
  - done.
  - change (pre ++ (a, b) :: (x, y) :: post) with (pre ++ [(a, b); (x, y)] ++ post) in Hs |- *.
    apply (cells_replace N c HN (m_caSeq l) arr0 pre [(a, b)] [(a, b); (x, y)] post lo Hc Hs).
    + lia.
    + by right.
    + simpl. split; [|split; [|done]]; aget_simp; [rewrite Hj1 by done; by rewrite Ha|by rewrite Hx1].
    + intros i Hi Hi'. rewrite !occupied_cons in *.
      assert (pos x <> i) by tauto. assert (pos a <> i) by tauto. aget_simp. by apply Hj1.
    + intros i Hi Hi'. rewrite !occupied_cons in *. tauto.
  - rewrite Hh. by rewrite !first_pos_app.
  - rewrite Hl, seqlen_range by lia. rewrite !count_app. simpl. rewrite i32_id by (unfold is_i32; lia). lia.
  - rewrite count_app. simpl. lia.
  - right. rewrite occupied_app, !occupied_cons. tauto.
Qed.

End Insertion.

(** ** Merging *)

(** What [coalesce] makes of a range and the ranges that follow it; a single
    packet is not merged forward. *)
Fixpoint merge (a b : Z) (post : list range) : list range :=
  match post with
  | [] => [(a, b)]
  | (x, y) :: r => if (a =? b) || (b + 1 <? x) then (a, b) :: post else merge a (Z.max b y) r
  end.

(** The cells of two neighbours and the bounds that the comparisons need. *)
Lemma srep_pair l c pre a b x y post :
  srep l c (pre ++ (a, b) :: (x, y) :: post) ->
  let N := m_iSize l in
  0 < N <= 2 ^ 29 /\ a < x <= y /\ a <= b /\ y < a + N /\ b < a + N
  /\ aget (m_caSeq l) (pos N c a) = Some (mkSeq (seq_of a) (end_of a b) (pos N c x))
  /\ aget (m_caSeq l) (pos N c x) = Some (mkSeq (seq_of x) (end_of x y) (first_pos N c post (-1)))
  /\ pos N c a <> pos N c x /\ 0 <= pos N c a < N /\ 0 <= pos N c x < N.
Proof.
  intros R N. pose proof R as [HN Hc _ _ _ _]. pose proof (cells_chain _ _ _ _ Hc) as [_ (Ha & Hx & _)]%schain_app.
  destruct (cells_sorted _ _ _ _ Hc) as [lo (_ & Hs & Hpre)%sorted_app]. destruct Hs as (? & ? & ? & ? & _).
  pose proof (pos_range N c ltac:(lia) a). pose proof (pos_range N c ltac:(lia) x).
  fold N in HN, Hc, Ha, Hx |- *.
  assert (lo <= a) by lia. split_and!; try done; try lia.
  intros E. apply (pos_inj N c ltac:(lia)) in E; lia.
Qed.

Lemma sorted_merge_step lo pre a b x y post hi :
  sorted lo (pre ++ (a, b) :: (x, y) :: post) hi -> sorted lo (pre ++ (a, Z.max b y) :: post) hi.
Proof.
  intros (Q1 & (? & ? & ? & ? & Q2) & Q3)%sorted_app. apply sorted_app. split; [done|]. split.
  - simpl. split_and!; try lia. eapply sorted_weaken; [exact Q2|lia|lia].
  - intros a' b' c' d' Hin [[= -> ->]|Hc]%elem_of_cons; [apply (Q3 a' b' a b); [done|constructor]|].
    apply (Q3 a' b' c' d'); [done|]. by do 2 constructor.
Qed.

(** The length and the new end of one round. *)
Lemma absorb_spec l a b x y arr la nx nx' :
  0 <= m_iLength l <= 2 ^ 30 -> b - a + 1 + (y - x + 1) <= m_iLength l ->
  a < b -> a < x <= y -> x <= b + 1 -> y < a + 2 ^ 29 -> b < a + 2 ^ 29 ->
  in_bounds (m_caSeq l) la -> m_caSeq l = arr -> aget arr la = Some (mkSeq (seq_of a) (seq_of b) nx) ->
  exists r, absorb l la (mkSeq (seq_of a) (seq_of b) nx) (mkSeq (seq_of x) (end_of x y) nx') = Some r
    /\ m_iSize r = m_iSize l /\ m_iHead r = m_iHead l /\ m_iLastInsertPos r = m_iLastInsertPos l
    /\ m_iLength r = m_iLength l - (b - a + 1) - (y - x + 1) + (Z.max b y - a + 1)
    /\ length (m_caSeq r) = length arr
    /\ aget (m_caSeq r) la = Some (mkSeq (seq_of a) (seq_of (Z.max b y)) nx)
    /\ forall j, j <> la -> aget (m_caSeq r) j = aget arr j.
Proof.
  intros Hlen Hcov Hab Hx Hxb Hy Hb Hin <- Hg. unfold absorb. cbn [seqend seqstart]. rewrite end_of_none.
  destruct (Z.eqb_spec x y) as [<-|Hne]; cbn [negb].
  - rewrite incseq_seq_of. destruct (Z.eqb_spec (seq_of x) (seq_of (b + 1))) as [E|E].
    + apply seq_of_inj in E; [|lia]. subst x. upd_step. eexists. split; [reflexivity|].
      cbn [set_arr m_caSeq m_iSize m_iHead m_iLength m_iLastInsertPos].
      rewrite Z.max_r by lia. split_and!; try done; try lia; [aget_simp; by rewrite Hg|intros; by aget_simp].
    + assert (x <> b + 1) by congruence. eexists. split; [reflexivity|].
      cbn [set_len m_caSeq m_iSize m_iHead m_iLength m_iLastInsertPos]. rewrite Z.max_l by lia.
      rewrite i32_id by (unfold is_i32; lia). split_and!; try done; lia.
  - rewrite end_of_multi by done. pose proof (seqcmp_seq_of_sgn y b ltac:(unfold CSeqNo.m_iSeqNoTH; lia)) as S1.
    pose proof (seqcmp_seq_of_sgn b x ltac:(unfold CSeqNo.m_iSeqNoTH; lia)) as S2. rewrite Z.gtb_ltb, Z.geb_leb.
    destruct (Z.ltb_spec 0 (CSeqNo.seqcmp (seq_of y) (seq_of b))).
    + assert (b < y) by lia. rewrite Z.max_r by lia.
      set (l1 := if 0 <=? _ then _ else l).
      assert (m_caSeq l1 = m_caSeq l /\ m_iSize l1 = m_iSize l /\ m_iHead l1 = m_iHead l /\ m_iLastInsertPos l1 = m_iLastInsertPos l
        /\ m_iLength l1 = m_iLength l - (b - x + 1)) as (E1 & E2 & E3 & E4 & E5).
      { unfold l1. destruct (Z.leb_spec 0 (CSeqNo.seqcmp (seq_of b) (seq_of x))).
        - rewrite seqlen_range by lia. cbn [set_len m_caSeq m_iSize m_iHead m_iLength m_iLastInsertPos].
          rewrite i32_id by (unfold is_i32; lia). done.
        - assert (x = b + 1) by lia. split_and!; try done. lia. }
      clearbody l1. cbv zeta. rewrite E1. upd_step. eexists. split; [reflexivity|].
      cbn [set_arr m_caSeq m_iSize m_iHead m_iLength m_iLastInsertPos].
      split_and!; try done; try lia; [aget_simp; by rewrite Hg|intros; by aget_simp].
    + assert (y <= b) by lia. rewrite Z.max_l by lia. eexists. split; [reflexivity|].
      cbn [set_len m_caSeq m_iSize m_iHead m_iLength m_iLastInsertPos]. rewrite seqlen_range by lia.
      rewrite i32_id by (unfold is_i32; lia). split_and!; try done; lia.
Qed.

Lemma merge_next_rep l c pre a b x y post :
  srep l c (pre ++ (a, b) :: (x, y) :: post) -> a < b -> x <= b + 1 -> m_iLastInsertPos l = pos (m_iSize l) c a ->
  exists l', merge_next l (pos (m_iSize l) c a) (pos (m_iSize l) c x) = Some l'
    /\ srep l' c (pre ++ (a, Z.max b y) :: post)
    /\ m_iSize l' = m_iSize l /\ m_iLastInsertPos l' = m_iLastInsertPos l.
Proof.
  intros R Hab Hxb Hlast. pose proof (srep_count _ _ _ R) as Hcnt.
  destruct (srep_pair _ _ _ _ _ _ _ _ R) as (HN & Hx & _ & Hy & Hb & Ga & Gx & Hne & Pa & Px).
  pose proof R as [_ Hc Hh Hl Hcap _]. pose proof (cells_len _ _ _ _ Hc) as Hlen.
  destruct (cells_sorted _ _ _ _ Hc) as [lo Hs]. pose proof Hs as (Hs1 & (_ & _ & _ & _ & Hs2) & _)%sorted_app.
  pose proof (count_sorted _ _ _ Hs1). pose proof (count_sorted _ _ _ Hs2).
  rewrite count_app in Hcnt, Hl. cbn [count] in Hcnt, Hl.
  rewrite end_of_multi in Ga by lia. unfold merge_next. rewrite Ga, Gx. cbn [mbind option_bind].
  destruct (absorb_spec l a b x y (m_caSeq l) (pos (m_iSize l) c a) (pos (m_iSize l) c x)
    (first_pos (m_iSize l) c post (-1)))
    as (r & -> & Er1 & Er2 & Er3 & Er4 & Er5 & Er6 & Er7); try done; try lia; [unfold in_bounds; lia|].
  cbn [mbind option_bind]. do 2 upd_step. aget_simp. rewrite Er7 by done. rewrite Gx. cbn [mbind option_bind fmap option_fmap option_map set_seqstart set_seqend inext].
  upd_step. eexists. split; [reflexivity|]. cbn [set_arr m_caSeq m_iSize m_iHead m_iLength m_iLastInsertPos].
  split; [|split; [done|congruence]].
  constructor; cbn [set_arr m_caSeq m_iSize m_iHead m_iLength m_iLastInsertPos]; rewrite ?Er1.
  - done.
  - change (pre ++ (a, Z.max b y) :: post) with (pre ++ [(a, Z.max b y)] ++ post).
    change (pre ++ (a, b) :: (x, y) :: post) with (pre ++ [(a, b); (x, y)] ++ post) in Hc.
    apply (cells_replace (m_iSize l) c HN (m_caSeq l) arr1 pre [(a, b); (x, y)] [(a, Z.max b y)] post lo Hc).
    + eapply sorted_merge_step. exact Hs.
    + lia.
    + by right.
    + simpl. split; [|done]. aget_simp. rewrite Er6. rewrite end_of_multi by lia. done.
    + intros i Hi Hi'. rewrite !occupied_cons in *. assert (pos (m_iSize l) c a <> i) by tauto.
      assert (pos (m_iSize l) c x <> i) by tauto. aget_simp. by apply Er7, not_eq_sym.
    + intros i Hi Hi'. rewrite !occupied_cons in *. assert (i = pos (m_iSize l) c x) as -> by (rewrite occupied_nil in *; intuition congruence).
      eexists. aget_simp. rewrite Er7 by done. rewrite Gx. reflexivity.
  - rewrite Er2, Hh. by rewrite !first_pos_app.
  - rewrite Er4, Hl, count_app. simpl. lia.
  - rewrite count_app. simpl. lia.
  - right. rewrite Er3, Hlast, occupied_app, occupied_cons. tauto.
Qed.

Lemma merge_single a post : merge a a post = (a, a) :: post.
Proof. destruct post as [|[x y] r]; simpl; [done|]. by rewrite Z.eqb_refl. Qed.

Lemma lost_merge a b post hi z :
  a <= b -> sorted (a + 1) post hi -> lost (merge a b post) z <-> a <= z <= b \/ lost post z.
Proof.
  revert b. induction post as [|[x y] r IH]; intros b Hab Hs; cbn [merge]; [by rewrite lost_cons|].
  destruct Hs as (? & ? & Hs). destruct (Z.eqb_spec a b); cbn [orb]; [by rewrite lost_cons|].
  destruct (Z.ltb_spec (b + 1) x); [by rewrite lost_cons|].
  rewrite IH; [|lia|eapply sorted_weaken; [exact Hs|lia|lia]]. rewrite lost_cons.
  assert (a <= z <= Z.max b y <-> a <= z <= b \/ x <= z <= y) by lia. tauto.
Qed.

Lemma ordered_merge lo a b post hi :
  lo <= a <= b -> b < hi -> ordered (a + 1) post hi -> ordered lo (merge a b post) hi.
Proof.
  revert b. induction post as [|[x y] r IH]; intros b Hab Hb Ho; cbn [merge]; [simpl; lia|].
  pose proof Ho as (? & ? & Hr). destruct (Z.eqb_spec a b) as [<-|]; cbn [orb]; [simpl; split_and!; lia || done|].
  destruct (Z.ltb_spec (b + 1) x); [simpl; split_and!; lia || done|].
  apply IH; [lia|lia|]. eapply ordered_weaken; [exact Hr|lia|lia].
Qed.

Lemma coalesce_rep fuel l c pre a b post :
  srep l c (pre ++ (a, b) :: post) -> m_iLastInsertPos l = pos (m_iSize l) c a -> (length post <= fuel)%nat ->
  exists l', coalesce fuel l (pos (m_iSize l) c a) = Some l' /\ srep l' c (pre ++ merge a b post)
    /\ m_iSize l' = m_iSize l.
Proof.
  revert fuel l b. induction post as [|[x y] post IH]; intros fuel l b R Hlast Hf.
  - pose proof (cells_chain _ _ _ _ (s_cells _ _ _ R)) as [_ [Ha _]]%schain_app.
    exists l. split; [|done]. destruct fuel; cbn [coalesce]; rewrite Ha; done.
  - destruct (srep_pair _ _ _ _ _ _ _ _ R) as (HN & Hx & Hab & Hy & Hb & Ga & Gx & Hne & Pa & Px).
    destruct fuel as [|fuel]; cbn [length] in Hf; [lia|]. cbn [coalesce merge]. rewrite Ga.
    cbn [mbind option_bind inext seqend]. rewrite end_of_none.
    destruct (Z.eqb_spec (pos (m_iSize l) c x) (-1)); [lia|]. cbn [negb andb].
    destruct (Z.eqb_spec a b) as [->|Hnab]; cbn [negb orb]; [by exists l|].
    rewrite Gx. cbn [mbind option_bind seqstart]. rewrite end_of_multi, incseq_seq_of by done.
    pose proof (seqcmp_seq_of_sgn x (b + 1) ltac:(unfold CSeqNo.m_iSeqNoTH; lia)) as Hsg. rewrite Z.gtb_ltb.
    destruct (Z.ltb_spec 0 (CSeqNo.seqcmp (seq_of x) (seq_of (b + 1)))), (Z.ltb_spec (b + 1) x); try lia; [by exists l|].
    destruct (merge_next_rep l c pre a b x y post R ltac:(lia) ltac:(lia) Hlast) as (l1 & E1 & R1 & HN1 & Hl1).
    rewrite E1. cbn [mbind option_bind].
    destruct (IH fuel l1 (Z.max b y) R1) as (l' & E & R' & HN'); [congruence|lia|].
    rewrite HN1 in E. exists l'. split; [exact E|]. split; [exact R'|congruence].
Qed.

(** ** Inserting *)

Lemma find_prior_spec N c arr lo pre a b post x fuel :
  0 < N <= 2 ^ 29 -> schain N c arr (pre ++ (a, b) :: post) (-1) ->
  (forall u v, (u, v) ∈ pre ++ (a, b) :: post -> Z.abs (u - x) < CSeqNo.m_iSeqNoTH) ->
  sorted lo (pre ++ (a, b) :: post) (lo + N) -> a < x -> (length post <= fuel)%nat ->
  exists pre' a' b' post', pre ++ (a, b) :: post = pre' ++ (a', b') :: post' /\ a' < x
    /\ (forall u v, (u, v) ∈ post' -> x <= u)
    /\ find_prior fuel arr (pos N c a) (seq_of x) = Some (pos N c a').
Proof.
  intros HN. revert pre a b fuel. induction post as [|[u v] post IH]; intros pre a b fuel Hc Hnear Hs Hax Hf.
  - exists pre, a, b, []. apply schain_app in Hc as [_ [Ha _]]. split_and!; [done|done|by intros ?? ?%not_elem_of_nil|].
    destruct fuel; cbn [find_prior]; by rewrite Ha.
  - pose proof Hc as [_ (Ha & Hu & _)]%schain_app. destruct fuel as [|fuel]; cbn [length] in Hf; [lia|].
    pose proof (pos_range N c ltac:(lia) u) as Hp. cbn [find_prior]. rewrite Ha. cbn [mbind option_bind inext first_pos].
    destruct (Z.eqb_spec (pos N c u) (-1)); [lia|]. rewrite Hu. cbn [mbind option_bind seqstart].
    assert (Z.abs (u - x) < CSeqNo.m_iSeqNoTH) as Hn by (apply (Hnear u v); set_solver).
    pose proof (seqcmp_seq_of_sgn u x Hn).
    destruct (Z.ltb_spec (CSeqNo.seqcmp (seq_of u) (seq_of x)) 0).
    + assert (pre ++ (a, b) :: (u, v) :: post = (pre ++ [(a, b)]) ++ (u, v) :: post) as E by (by rewrite <- app_assoc).
      rewrite E in *. apply IH; try done; lia.
    + exists pre, a, b, ((u, v) :: post). split_and!; try done. intros u' v' Hin.
      apply sorted_app in Hs as (_ & (_ & _ & (? & ? & Hs)) & _).
      apply elem_of_cons in Hin as [[= -> ->]|Hin]; [lia|]. pose proof (sorted_elem _ _ _ _ _ Hs Hin). lia.
Qed.

(** Extending the end of a range, which becomes the last one inserted. *)
Lemma extend_rep l c pre a b post b' :
  srep l c (pre ++ (a, b) :: post) -> b < b' ->
  (exists lo, sorted lo (pre ++ (a, b') :: post) (lo + m_iSize l)) -> count (pre ++ (a, b') :: post) <= 2 ^ 30 ->
  exists arr', aupd (m_caSeq l) (pos (m_iSize l) c a) (set_seqend (seq_of b')) = Some arr'
    /\ srep (mk arr' (m_iHead l) (i32 (m_iLength l + (b' - b))) (m_iSize l) (pos (m_iSize l) c a))
         c (pre ++ (a, b') :: post).
Proof.
  intros R Hb [lo Hs] Hcnt. pose proof (srep_count _ _ _ R) as Hc0. pose proof R as [HN Hc Hh Hl Hcap _].
  pose proof (cells_len _ _ _ _ Hc) as Hlen. pose proof (pos_range (m_iSize l) c ltac:(lia) a) as Hp.
  pose proof (cells_chain _ _ _ _ Hc) as [_ [Ha _]]%schain_app.
  pose proof Hs as (_ & (? & ? & _) & _)%sorted_app.
  destruct (cells_sorted _ _ _ _ Hc) as [lo1 (_ & (? & ? & _) & _)%sorted_app].
  upd_step. eexists. split; [reflexivity|]. rewrite count_app in *. cbn [count] in *.
  constructor; cbn [m_caSeq m_iSize m_iHead m_iLength m_iLastInsertPos].
  - done.
  - change (pre ++ (a, b') :: post) with (pre ++ [(a, b')] ++ post).
    apply (cells_replace (m_iSize l) c HN (m_caSeq l) arr pre [(a, b)] [(a, b')] post lo Hc Hs).
    + lia.
    + by right.
    + simpl. split; [|done]. aget_simp. rewrite Ha. by rewrite (end_of_multi a b') by lia.
    + intros i Hi Hi'. rewrite !occupied_cons in *. assert (pos (m_iSize l) c a <> i) by tauto. by aget_simp.
    + intros i Hi Hi'. rewrite !occupied_cons in *. tauto.
  - rewrite Hh. by rewrite !first_pos_app.
  - rewrite Hl, count_app. simpl. rewrite i32_id by (unfold is_i32; lia). lia.
  - rewrite count_app. simpl. lia.
  - right. rewrite occupied_app, occupied_cons. tauto.
Qed.

(** The last inserted position may point to any node. *)
Lemma set_last_rep l c nodes i :
  srep l c nodes -> occupied (m_iSize l) c nodes i -> srep (set_last i l) c nodes.
Proof. intros [? ? ? ? ? ?] Ho. constructor; simpl; try done. by right. Qed.

(** What the branches of [insert] leave for [coalesce]. *)
Definition grow_ok (l : t) (c : Z) (nodes : list range) (x1 x2 : Z) (r : t + t * Z) : Prop :=
  match r with
  | inl l' => srep l' c nodes /\ m_iSize l' = m_iSize l /\ (forall z, x1 <= z <= x2 -> lost nodes z)
  | inr (l', loc) => exists pre a b post lo,
      srep l' c (pre ++ (a, b) :: post) /\ loc = pos (m_iSize l) c a /\ m_iLastInsertPos l' = loc
      /\ m_iSize l' = m_iSize l /\ ordered lo pre a /\ lo <= a <= b /\ b < lo + m_iSize l
      /\ ordered (a + 1) post (lo + m_iSize l)
      /\ forall z, lost (pre ++ (a, b) :: post) z <-> lost nodes z \/ x1 <= z <= x2
  end.

Lemma count_two lo nodes N x1 x2 :
  ordered lo nodes (lo + N) -> 0 < N <= 2 ^ 29 -> lo <= x1 <= x2 -> x2 < lo + N ->
  0 <= count nodes <= N /\ count nodes + (x2 - x1 + 1) <= 2 ^ 30.
Proof.
  intros Ho HN Hx Hx2. pose proof (count_nonneg _ _ _ Ho). pose proof (count_le lo nodes (lo + N) ltac:(lia) Ho). lia.
Qed.

Lemma updateElement_rep l c pre a b post lo x2 :
  srep l c (pre ++ (a, b) :: post) -> ordered lo (pre ++ (a, b) :: post) (lo + m_iSize l) ->
  a <= x2 -> x2 < lo + m_iSize l ->
  exists u, updateElement l (pos (m_iSize l) c a) (seq_of a) (seq_of x2) = Some u
    /\ grow_ok l c (pre ++ (a, b) :: post) a x2 (grown u (pos (m_iSize l) c a)).
Proof.
  intros R Ho Hx Hhi. pose proof R as [HN Hc Hh Hl Hcap _]. pose proof (srep_count _ _ _ R) as Hc0.
  pose proof (cells_chain _ _ _ _ Hc) as [_ [Ha _]]%schain_app.
  pose proof (ordered_split _ _ _ _ _ _ Ho) as (Hpre & Hab & Hb & Hpost).
  assert (occupied (m_iSize l) c (pre ++ (a, b) :: post) (pos (m_iSize l) c a)) as Hocc
    by (rewrite occupied_app, occupied_cons; tauto).
  unfold updateElement. rewrite seq_of_not_none. cbn [orb set_last m_caSeq].
  assert (x2 <= b -> grow_ok l c (pre ++ (a, b) :: post) a x2 (grown (false, set_last (pos (m_iSize l) c a) l) (pos (m_iSize l) c a))) as Hno.
  { intros Hxb. simpl. split; [by apply set_last_rep|]. split; [done|]. intros z Hz.
    rewrite lost_app, lost_cons. lia. }
  assert (forall y, b < y -> y = x2 -> sorted lo (pre ++ (a, y) :: post) (lo + m_iSize l)) as Hsort.
  { intros y Hy ->. pose proof (ordered_sorted _ _ _ Ho) as (Q1 & (? & ? & Q2) & Q3)%sorted_app.
    apply sorted_app. split; [done|]. split; [simpl; split_and!; try lia; done|].
    intros a' b' c' d' Hin [[= -> ->]|Hin']%elem_of_cons; [apply (Q3 a' b' a b); [done|constructor]|].
    apply (Q3 a' b' c' d'); [done|by constructor]. }
  pose proof (count_two lo (pre ++ (a, b) :: post) (m_iSize l) a x2 Ho HN ltac:(lia) Hhi) as Hcc.
  rewrite count_app in Hcc. cbn [count] in Hcc.
  assert (b < x2 -> exists arr', aupd (m_caSeq l) (pos (m_iSize l) c a) (set_seqend (seq_of x2)) = Some arr'
     /\ grow_ok l c (pre ++ (a, b) :: post) a x2
          (grown (true, set_arr arr' (set_len (m_iLength l + (x2 - b)) (set_last (pos (m_iSize l) c a) l))) (pos (m_iSize l) c a))) as Hyes.
  { intros Hbx. destruct (extend_rep l c pre a b post x2 R Hbx) as (arr' & E & R').
    - exists lo. by apply Hsort.
    - rewrite count_app. simpl. lia.
    - exists arr'. split; [done|]. simpl. exists pre, a, x2, post, lo. split_and!; try done; try lia.
      + eapply ordered_weaken; [exact Hpost|lia|lia].
      + intros z. rewrite !lost_app, !lost_cons. assert (a <= z <= x2 <-> a <= z <= b \/ a <= z <= x2) by lia. tauto. }
  destruct (Z.eqb_spec (seq_of x2) (seq_of a)) as [E|E].
  { apply seq_of_inj in E; [|lia]. eexists. split; [reflexivity|]. apply Hno. lia. }
  rewrite Ha. cbn [mbind option_bind seqend]. rewrite end_of_none. destruct (Z.eqb_spec a b) as [Eab|Nab].
  - assert (b < x2) as Hbx by (assert (x2 <> a) by congruence; lia).
    destruct (Hyes Hbx) as (arr' & -> & Hg). cbn [mbind option_bind set_last m_iLength]. rewrite seqlen_range by lia.
    replace (x2 - a + 1 - 1) with (x2 - b) by lia. eauto.
  - rewrite end_of_multi by done. pose proof (seqcmp_seq_of_sgn x2 b ltac:(unfold CSeqNo.m_iSeqNoTH; lia)).
    destruct (Z.leb_spec (CSeqNo.seqcmp (seq_of x2) (seq_of b)) 0); [eexists; split; [reflexivity|]; apply Hno; lia|].
    destruct (Hyes ltac:(lia)) as (arr' & -> & Hg). cbn [mbind option_bind set_last m_iLength]. rewrite seqlen_range by lia.
    replace (x2 - b + 1 - 1) with (x2 - b) by lia. eauto.
Qed.

Lemma search_start_spec l c a0 b0 r x :
  srep l c ((a0, b0) :: r) -> a0 < x ->
  (forall u v, (u, v) ∈ (a0, b0) :: r -> Z.abs (u - x) < CSeqNo.m_iSeqNoTH) ->
  exists pre a b post, (a0, b0) :: r = pre ++ (a, b) :: post /\ a < x
    /\ search_start l (seq_of x) = Some (pos (m_iSize l) c a).
Proof.
  intros R Hx Hnear. pose proof R as [HN Hc Hh _ _ Hlast].
  assert (exists pre a b post, (a0, b0) :: r = pre ++ (a, b) :: post /\ a < x /\ m_iHead l = pos (m_iSize l) c a) as Hhead
    by (exists [], a0, b0, r; done).
  unfold search_start. destruct Hlast as [->|(a & b & Hin & Hp)]; [cbn [Z.eqb negb]; destruct Hhead as (pre & a & b & post & ? & ? & ->); eauto 10|].
  rewrite <- Hp. pose proof (pos_range (m_iSize l) c ltac:(lia) a).
  destruct (Z.eqb_spec (pos (m_iSize l) c a) (-1)); [lia|]. cbn [negb].
  apply list_elem_of_split in Hin as Hsp. destruct Hsp as (pre & post & E).
  pose proof (cells_chain _ _ _ _ Hc) as HC. rewrite E in HC. apply schain_app in HC as [_ [Ha _]].
  rewrite Ha. cbn [mbind option_bind seqstart].
  pose proof (seqcmp_seq_of_sgn a x (Hnear _ _ Hin)).
  destruct (Z.ltb_spec (CSeqNo.seqcmp (seq_of a) (seq_of x)) 0); [exists pre, a, b, post; split_and!; try done; lia|].
  destruct Hhead as (pre' & a' & b' & post' & ? & ? & ->). eauto 10.
Qed.

(** More fuel than nodes. *)
Lemma srep_fuel l c pre a b post lo :
  srep l c (pre ++ (a, b) :: post) -> ordered lo (pre ++ (a, b) :: post) (lo + m_iSize l) ->
  (length post <= Z.to_nat (m_iSize l))%nat.
Proof.
  intros R Ho. pose proof (s_size _ _ _ R). apply ordered_split in Ho as (_ & ? & ? & Ho).
  assert (forall r lo' hi, ordered lo' r hi -> lo' <= hi -> Z.of_nat (length r) <= hi - lo') as H'.
  { induction r as [|[u v] r IH]; intros lo' hi; cbn [ordered length]; [lia|].
    intros (? & ? & Hr) Hle. specialize (IH _ _ Hr ltac:(lia)). lia. }
  specialize (H' _ _ _ Ho ltac:(lia)). lia.
Qed.

Lemma insert_after_prior_rep l c a0 b0 r lo x1 x2 :
  let nodes := (a0, b0) :: r in
  srep l c nodes -> ordered lo nodes (lo + m_iSize l) -> (forall b, (x1, b) ∉ nodes) ->
  a0 < x1 <= x2 -> x2 < lo + m_iSize l ->
  exists res, insert_after_prior l (pos (m_iSize l) c x1) (seq_of x1) (seq_of x2) = Some res
    /\ grow_ok l c nodes x1 x2 res.
Proof.
  intros nodes R Ho Hns Hx Hhi. pose proof R as [HN Hc Hh Hl Hcap _].
  assert (forall u v, (u, v) ∈ nodes -> lo <= u <= v /\ v < lo + m_iSize l) as Hel by (intros u v; by apply ordered_elem).
  assert (lo <= a0) as Hlo by (apply (Hel a0 b0); constructor).
  assert (forall u v, (u, v) ∈ nodes -> Z.abs (u - x1) < CSeqNo.m_iSeqNoTH) as Hnear
    by (intros u v Hin; specialize (Hel _ _ Hin); unfold CSeqNo.m_iSeqNoTH; lia).
  unfold insert_after_prior.
  destruct (search_start_spec l c a0 b0 r x1 R ltac:(lia) Hnear) as (pre0 & s0 & e0 & post0 & E0 & Hs0 & ->).
  cbn [mbind option_bind]. fold nodes in E0.
  destruct (find_prior_spec (m_iSize l) c (m_caSeq l) lo pre0 s0 e0 post0 x1 (Z.to_nat (m_iSize l)))
    as (pre & a & b & post & E & Ha & Hpost & ->); try done.
  { rewrite <- E0. apply (cells_chain _ _ _ _ Hc). }
  { rewrite <- E0. done. }
  { rewrite <- E0. by apply ordered_sorted. }
  { eapply srep_fuel; [rewrite <- E0; exact R|rewrite <- E0; exact Ho]. }
  cbn [mbind option_bind]. rewrite <- E0 in E. rewrite E in R, Ho, Hc, Hns, Hel |- *. clear E0 E pre0 s0 e0 post0 Hs0 Hnear Hh Hl Hcap nodes.
  pose proof (cells_chain _ _ _ _ Hc) as [_ [Ga _]]%schain_app. rewrite Ga. cbn [mbind option_bind seqend seqstart].
  rewrite end_of_none. set (send := if a =? b then seq_of a else end_of a b).
  assert (send = seq_of b) as -> by (unfold send, end_of; by destruct (Z.eqb_spec a b) as [->|]).
  pose proof (ordered_split _ _ _ _ _ _ Ho) as (Hpre & Hab & Hb & Hpo).
  assert (forall u v, (u, v) ∈ post -> x1 < u) as Hpost'.
  { intros u v Hin. specialize (Hpost u v Hin). assert (u <> x1); [|lia]. intros ->. apply (Hns v).
    apply elem_of_app. right. by constructor. }
  assert (ordered (x1 + 1) post (lo + m_iSize l)) as Hpo1.
  { destruct post as [|[u v] post']; [done|]. specialize (Hpost' u v ltac:(constructor)).
    destruct Hpo as (? & ? & ?). simpl. split_and!; try lia. done. }
  rewrite incseq_seq_of. pose proof (seqcmp_seq_of_sgn b x1 ltac:(unfold CSeqNo.m_iSeqNoTH; lia)) as Hsg.
  pose proof (count_two lo _ (m_iSize l) x1 x2 Ho HN ltac:(lia) Hhi) as Hcc.
  rewrite count_app in Hcc. cbn [count] in Hcc.
  pose proof (ordered_sorted _ _ _ Ho) as (Q1 & (? & ? & Q2) & Q3)%sorted_app.
  destruct ((CSeqNo.seqcmp (seq_of b) (seq_of x1) <? 0) && negb (seq_of (b + 1) =? seq_of x1)) eqn:Eb.
  - apply andb_true_iff in Eb as [Eb1%Z.ltb_lt Eb2%negb_true_iff%Z.eqb_neq].
    assert (b + 1 < x1) as Hb1 by (assert (b + 1 <> x1) by congruence; lia).
    destruct (insertAfter_rep l c pre a b post lo x1 x2 R) as (l' & E' & R' & HN').
    + apply sorted_app. split; [done|]. split; [simpl; split_and!; try lia; by apply ordered_sorted|].
      intros a' b' c' d' Hin [[= -> ->]|[[= -> ->]|Hin']%elem_of_cons]%elem_of_cons.
      * apply (Q3 a' b' a b); [done|constructor].
      * specialize (Q3 a' b' a b Hin ltac:(constructor)). lia.
      * apply (Q3 a' b' c' d'); [done|by constructor].
    + rewrite count_app. simpl. lia.
    + rewrite E'. cbn [mbind option_bind]. eexists. split; [reflexivity|]. simpl.
      exists (pre ++ [(a, b)]), x1, x2, post, lo. rewrite <- app_assoc. cbn [app]. split_and!; try done; try lia.
      * unfold insertAfter in E'. bind_inv. done.
      * apply ordered_join; [done|lia|lia|done].
      * intros z. rewrite !lost_app, !lost_cons. tauto.
  - assert (x1 <= b + 1) as Hb1.
    { apply andb_false_iff in Eb as [Eb%Z.ltb_ge|Eb%negb_false_iff%Z.eqb_eq]; [lia|]. apply seq_of_inj in Eb; lia. }
    assert (occupied (m_iSize l) c (pre ++ (a, b) :: post) (pos (m_iSize l) c a)) as Hocc
      by (rewrite occupied_app, occupied_cons; tauto).
    rewrite Z.geb_leb. pose proof (seqcmp_seq_of_sgn b x2 ltac:(unfold CSeqNo.m_iSeqNoTH; lia)).
    destruct (Z.leb_spec 0 (CSeqNo.seqcmp (seq_of b) (seq_of x2))).
    + eexists. split; [reflexivity|]. simpl. split; [by apply set_last_rep|]. split; [done|]. intros z Hz.
      rewrite lost_app, lost_cons. lia.
    + destruct (extend_rep l c pre a b post x2 R ltac:(lia)) as (arr' & E' & R').
      * exists lo. apply sorted_app. split; [done|]. split; [simpl; split_and!; try lia; done|].
        intros a' b' c' d' Hin [[= -> ->]|Hin']%elem_of_cons; [apply (Q3 a' b' a b); [done|constructor]|].
        apply (Q3 a' b' c' d'); [done|by constructor].
      * rewrite count_app. simpl. lia.
      * cbn [set_last set_len m_caSeq]. rewrite E'. cbn [mbind option_bind]. eexists. split; [reflexivity|].
        simpl. rewrite seqlen_range by lia. replace (x2 - b + 1 - 1) with (x2 - b) by lia.
        exists pre, a, x2, post, lo. split_and!; try done; try lia.
        -- eapply ordered_weaken; [exact Hpo|lia|lia].
        -- intros z. rewrite !lost_app, !lost_cons. assert (a <= z <= x2 <-> a <= z <= b \/ x1 <= z <= x2) by lia. tauto.
Qed.

(** The place [insert] and [removeUpTo] compute for a packet near the head. *)
Lemma head_loc N c a0 x :
  0 < N <= 2 ^ 29 -> - N < x - a0 < CSeqNo.m_iSeqNoTH ->
  Z.rem (i32 (pos N c a0 + (x - a0) + N)) N = pos N c x.
Proof.
  intros HN Hx. pose proof (pos_range N c ltac:(lia) a0). unfold CSeqNo.m_iSeqNoTH in Hx.
  rewrite i32_id by (unfold is_i32; lia). rewrite <- Z.add_assoc, pos_shift by lia.
  replace (a0 + (x - a0 + N)) with (x - (-1) * N) by lia. apply pos_alias. lia.
Qed.

Lemma srep_empty l c c' : srep l c [] -> srep l c' [].
Proof.
  intros [HN [Hl Hs Hc Hb] Hh Hlen Hcap Hlast]. constructor; try done.
  - constructor; try done. intros i Hi _. apply Hb; [done|]. by intros ?%occupied_nil.
  - destruct Hlast as [?|?%occupied_nil]; [by left|done].
Qed.

(** The end of [insert]: the grown list is coalesced. *)
Lemma insert_finish l c nodes x1 x2 res :
  grow_ok l c nodes x1 x2 res -> m_iLength l = count nodes -> 0 <= count nodes <= 2 ^ 30 ->
  (exists lo, ordered lo nodes (lo + m_iSize l)) ->
  exists l' nodes' lo', match res with
      | inl l => Some (0, l)
      | inr (l1, loc) => l1 ← coalesce (Z.to_nat (m_iSize l1)) l1 loc; Some (i32 (m_iLength l1 - m_iLength l), l1)
      end = Some (count nodes' - count nodes, l')
    /\ srep l' c nodes' /\ ordered lo' nodes' (lo' + m_iSize l) /\ m_iSize l' = m_iSize l
    /\ forall z, lost nodes' z <-> lost nodes z \/ x1 <= z <= x2.
Proof.
  intros Hg Hl Hc0 [lo0 Ho0]. destruct res as [l1|[l1 loc]].
  - destruct Hg as (R & HN & Hlost). exists l1, nodes, lo0. rewrite Z.sub_diag. split_and!; try done.
    intros z. split; [tauto|]. intros [Hz|Hz]; auto.
  - destruct Hg as (pre & a & b & post & lo & R & -> & Hlast & HN & Hpre & Hab & Hb & Hpost & Hlost).
    rewrite <- HN in Hlast. destruct (coalesce_rep (Z.to_nat (m_iSize l1)) l1 c pre a b post R Hlast) as (l' & E & R' & HN').
    { pose proof (s_size _ _ _ R). pose proof (ordered_length _ _ _ Hpost).
      pose proof (count_le (a + 1) post (lo + m_iSize l) ltac:(lia) Hpost). lia. }
    rewrite HN in *. rewrite E. cbn [mbind option_bind].
    pose proof (ordered_app lo pre (merge a b post) a (lo + m_iSize l) ltac:(lia) Hpre
      (ordered_merge a a b post (lo + m_iSize l) ltac:(lia) Hb Hpost) ltac:(lia)) as Ho'.
    exists l', (pre ++ merge a b post), lo. pose proof (srep_count _ _ _ R').
    rewrite (s_len _ _ _ R'), Hl, i32_id by (unfold is_i32; lia). split_and!; try done.
    intros z. rewrite <- Hlost, !lost_app, lost_cons.
    rewrite (lost_merge a b post (lo + m_iSize l)) by (lia || by apply ordered_sorted). done.
Qed.

Lemma insert_empty l c x1 x2 :
  srep l c [] -> x1 <= x2 -> x2 - x1 + 1 < m_iSize l ->
  exists l', insert l (seq_of x1) (seq_of x2) = Some (x2 - x1 + 1, l') /\ srep l' (- x1) [(x1, x2)] /\ m_iSize l' = m_iSize l.
Proof.
  intros R Hx Hw. pose proof (s_size _ _ _ R) as HN. apply (srep_empty l c (- x1)) in R.
  assert (pos (m_iSize l) (- x1) x1 = 0) as Hp by (unfold pos; rewrite Z.add_opp_diag_r; apply Z.mod_0_l; lia).
  destruct (insertHead_rep l (- x1) [] x1 x1 x2 R) as (l' & E & R' & HN'); [simpl; lia|simpl; lia|].
  rewrite Hp in E. exists l'. split; [|done]. unfold insert.
  pose proof (seq_of_valid x1) as V1. pose proof (seq_of_valid x2) as V2. unfold valid_seq in V1, V2.
  destruct (Z.ltb_spec (seq_of x1) 0), (Z.ltb_spec (seq_of x2) 0); try lia. cbn [orb].
  rewrite seqlen_range by lia. rewrite Z.geb_leb.
  destruct (Z.leb_spec (x2 - x1 + 1) 0), (Z.leb_spec (m_iSize l) (x2 - x1 + 1)); try lia. cbn [orb].
  rewrite (s_len _ _ _ R). cbn [count Z.eqb]. rewrite E. cbn [mbind option_bind]. rewrite (s_len _ _ _ R'). simpl.
  do 2 f_equal. lia.
Qed.

Lemma cell_start l c nodes lo x :
  srep l c nodes -> ordered lo nodes (lo + m_iSize l) -> lo <= x < lo + m_iSize l -> (forall b, (x, b) ∉ nodes) ->
  exists s, aget (m_caSeq l) (pos (m_iSize l) c x) = Some s /\ (seq_of x =? seqstart s) = false.
Proof.
  intros R Ho Hx Hns. pose proof (s_size _ _ _ R) as HN.
  destruct (cells_blank _ _ _ _ (s_cells _ _ _ R) (pos (m_iSize l) c x)) as [nx E].
  - apply pos_range. lia.
  - intros (a & b & Hin & Hp). pose proof (ordered_elem _ _ _ _ _ Ho Hin).
    apply (pos_inj (m_iSize l) c ltac:(lia)) in Hp; [|lia]. subst a. by apply (Hns b).
  - eexists. split; [exact E|]. simpl. apply seq_of_not_none.
Qed.

Lemma insert_branch_rep l c a0 b0 r lo x1 x2 :
  srep l c ((a0, b0) :: r) -> ordered lo ((a0, b0) :: r) (lo + m_iSize l) ->
  lo <= x1 <= x2 -> x2 < lo + m_iSize l ->
  exists res, insert_branch l (x1 - a0) (pos (m_iSize l) c x1) (seq_of x1) (seq_of x2) = Some res
    /\ grow_ok l c ((a0, b0) :: r) x1 x2 res.
Proof.
  intros R Ho Hx Hhi. pose proof (s_size _ _ _ R) as HN. unfold insert_branch.
  rewrite Z.gtb_ltb. destruct (Z.ltb_spec (x1 - a0) 0) as [Hneg|Hpos]; [|destruct (Z.ltb_spec 0 (x1 - a0)) as [Hgt|Hz]].
  - destruct (insertHead_rep l c ((a0, b0) :: r) lo x1 x2 R) as (l' & E & R' & HN').
    + split; [lia|]. split; [lia|]. apply ordered_sorted in Ho. destruct Ho as (? & ? & ?). simpl. split_and!; try lia. done.
    + pose proof (count_two lo _ (m_iSize l) x1 x2 Ho HN Hx Hhi). simpl in *. lia.
    + rewrite E. eexists. split; [reflexivity|]. simpl. exists [], x1, x2, ((a0, b0) :: r), lo.
      split_and!; try done; try lia.
      * unfold insertHead in E. bind_inv. done.
      * destruct Ho as (? & ? & ?). simpl. split_and!; try lia. done.
      * intros z. cbn [app]. rewrite !lost_cons. tauto.
  - destruct (start_at ((a0, b0) :: r) x1) as [(pre & b & post & E)|Hns].
    + rewrite E in R, Ho |- *. pose proof (cells_chain _ _ _ _ (s_cells _ _ _ R)) as [_ [Gx _]]%schain_app.
      rewrite Gx. cbn [mbind option_bind seqstart]. rewrite Z.eqb_refl.
        destruct (updateElement_rep l c pre x1 b post lo x2 R Ho ltac:(lia) Hhi) as (u & -> & Hg). simpl. eauto.
    + destruct (cell_start l c _ lo x1 R Ho ltac:(lia)) as (s & -> & Es); [intros b Hin; by apply (Hns x1 b)|].
        cbn [mbind option_bind]. rewrite Es. apply (insert_after_prior_rep l c a0 b0 r lo); try done; try lia.
        intros b Hin. by apply (Hns x1 b).
  - assert (x1 = a0) as -> by lia. rewrite (s_head _ _ _ R). cbn [first_pos].
      destruct (updateElement_rep l c [] a0 b0 r lo x2 R Ho ltac:(lia) Hhi) as (u & -> & Hg). simpl. eauto.
Qed.

Lemma insert_rep l c nodes lo x1 x2 :
  srep l c nodes -> ordered lo nodes (lo + m_iSize l) ->
  lo <= x1 <= x2 -> x2 < lo + m_iSize l -> x2 - x1 + 1 < m_iSize l ->
  exists l' c' nodes' lo', insert l (seq_of x1) (seq_of x2) = Some (count nodes' - count nodes, l')
    /\ srep l' c' nodes' /\ ordered lo' nodes' (lo' + m_iSize l) /\ m_iSize l' = m_iSize l
    /\ forall z, lost nodes' z <-> lost nodes z \/ x1 <= z <= x2.
Proof.
  intros R Ho Hx Hhi Hw. pose proof (s_size _ _ _ R) as HN. destruct nodes as [|[a0 b0] r].
  { destruct (insert_empty l c x1 x2 R ltac:(lia) Hw) as (l' & E & R' & HN').
    exists l', (- x1), [(x1, x2)], lo. rewrite E. simpl. split_and!; try done; try lia; [do 2 f_equal; lia|].
    intros z. rewrite lost_cons, lost_nil. tauto. }
  pose proof (srep_count _ _ _ R) as Hc0. pose proof (s_len _ _ _ R) as Hl.
  pose proof Ho as (Ha0 & Hb0 & Hr).
  assert (count ((a0, b0) :: r) <> 0) as Hnz by (pose proof (count_nonneg _ _ _ Hr); simpl; lia).
  destruct (insert_branch_rep l c a0 b0 r lo x1 x2 R Ho Hx Hhi) as (res & Eres & Hg).
  destruct (insert_finish l c _ x1 x2 res Hg Hl Hc0 ltac:(eauto)) as (l' & nodes' & lo' & E & R' & Ho' & HN' & Hlost).
  exists l', c, nodes', lo'. split; [|done]. rewrite <- E, Hl. unfold insert.
  pose proof (seq_of_valid x1) as V1. pose proof (seq_of_valid x2) as V2. unfold valid_seq in V1, V2.
  destruct (Z.ltb_spec (seq_of x1) 0), (Z.ltb_spec (seq_of x2) 0); try lia. cbn [orb].
  rewrite seqlen_range by lia. rewrite !Z.geb_leb.
  destruct (Z.leb_spec (x2 - x1 + 1) 0), (Z.leb_spec (m_iSize l) (x2 - x1 + 1)); try lia. cbn [orb].
  rewrite Hl. destruct (Z.eqb_spec (count ((a0, b0) :: r)) 0); [lia|]. cbv zeta.
  pose proof (cells_chain _ _ _ _ (s_cells _ _ _ R)) as [G0 _].
  pose proof (s_head _ _ _ R) as Hh. cbn [first_pos] in Hh.
  rewrite Hh, G0. cbn [mbind option_bind seqstart]. rewrite seqoff_seq_of by (unfold CSeqNo.m_iSeqNoTH; lia).
  rewrite Z.geb_leb. destruct (Z.leb_spec (m_iSize l) (x1 - a0)); [lia|]. unfold insert_loc.
  rewrite seqoff_seq_of by (unfold CSeqNo.m_iSeqNoTH; lia).
  rewrite Hh, head_loc by (unfold CSeqNo.m_iSeqNoTH; lia). pose proof (pos_range (m_iSize l) c ltac:(lia) x1).
  destruct (Z.ltb_spec (pos (m_iSize l) c x1) 0); [lia|].
  by rewrite Eres.
Qed.

(** ** Removing *)

(** The element after a packet inside a range is free. *)
Lemma inner_blank l c pre a b post lo y :
  srep l c (pre ++ (a, b) :: post) -> ordered lo (pre ++ (a, b) :: post) (lo + m_iSize l) -> a <= y < b ->
  ~ occupied (m_iSize l) c (pre ++ (a, b) :: post) (pos (m_iSize l) c (y + 1)).
Proof.
  intros R Ho Hy (u & v & Hin & Hp). pose proof (s_size _ _ _ R). pose proof (ordered_elem _ _ _ _ _ Ho Hin).
  apply ordered_split in Ho as (Hpre & ? & ? & Hpost).
  apply (pos_inj (m_iSize l) c ltac:(lia)) in Hp; [|lia].
  apply elem_of_app in Hin as [Hin|[[= -> ->]|Hin]%elem_of_cons].
  - pose proof (ordered_elem _ _ _ _ _ Hpre Hin). lia.
  - lia.
  - pose proof (ordered_elem _ _ _ _ _ Hpost Hin). lia.
Qed.

Lemma start_rest_spec arr from loc s b y nx nx' :
  in_bounds arr from -> in_bounds arr loc -> from <> loc -> y < b < y + 2 ^ 29 ->
  aget arr from = Some (mkSeq s (seq_of b) nx) -> aget arr loc = Some (mkSeq SRT_SEQNO_NONE SRT_SEQNO_NONE nx') ->
  exists arr', start_rest arr from loc (seq_of y) = Some arr' /\ length arr' = length arr
    /\ aget arr' loc = Some (mkSeq (seq_of (y + 1)) (end_of (y + 1) b) nx')
    /\ forall j, j <> loc -> aget arr' j = aget arr j.
Proof.
  intros Hf Hl Hne Hy Gf Gl. unfold start_rest. upd_step. aget_simp. rewrite Gf, Gl.
  cbn [mbind option_bind fmap option_fmap option_map set_seqstart seqend seqstart]. rewrite incseq_seq_of, Z.gtb_ltb.
  pose proof (seqcmp_seq_of_sgn b (y + 1) ltac:(unfold CSeqNo.m_iSeqNoTH; lia)). unfold end_of.
  destruct (Z.ltb_spec 0 (CSeqNo.seqcmp (seq_of b) (seq_of (y + 1)))), (Z.eqb_spec (y + 1) b); try lia.
  - upd_step. exists arr1. split_and!; [done|lia|aget_simp; by rewrite Gl, incseq_seq_of|intros; by aget_simp].
  - exists arr0. split_and!; [done|lia|aget_simp; by rewrite Gl, incseq_seq_of|intros; by aget_simp].
Qed.

(** The places next to each other. *)
Lemma next_loc N c a : 0 < N <= 2 ^ 29 -> Z.rem (i32 (pos N c a + 1)) N = pos N c (a + 1).
Proof.
  intros HN. pose proof (pos_range N c ltac:(lia) a). rewrite i32_id by (unfold is_i32; lia). apply pos_shift; lia.
Qed.

(** A range in the array, its cell and the cell its rest goes to. *)
Lemma srep_range l c pre a b post lo y :
  srep l c (pre ++ (a, b) :: post) -> ordered lo (pre ++ (a, b) :: post) (lo + m_iSize l) -> a <= y < b ->
  let N := m_iSize l in
  exists nx arr', start_rest (m_caSeq l) (pos N c a) (pos N c (y + 1)) (seq_of y) = Some arr'
    /\ length arr' = length (m_caSeq l)
    /\ aget arr' (pos N c (y + 1)) = Some (mkSeq (seq_of (y + 1)) (end_of (y + 1) b) nx)
    /\ (forall j, j <> pos N c (y + 1) -> aget arr' j = aget (m_caSeq l) j)
    /\ aget arr' (pos N c a) = Some (mkSeq (seq_of a) (seq_of b) (first_pos N c post (-1)))
    /\ pos N c a <> pos N c (y + 1) /\ 0 <= pos N c a < N /\ 0 <= pos N c (y + 1) < N.
Proof.
  intros R Ho Hy N. pose proof (s_size _ _ _ R) as HN. pose proof (s_cells _ _ _ R) as Hc. fold N in HN, Hc.
  pose proof (cells_len _ _ _ _ Hc) as Hlen.
  pose proof (inner_blank _ _ _ _ _ _ _ y R Ho Hy) as Hno. fold N in Hno.
  pose proof (pos_range N c ltac:(lia) a). pose proof (pos_range N c ltac:(lia) (y + 1)).
  destruct (cells_blank _ _ _ _ Hc (pos N c (y + 1)) ltac:(lia) Hno) as [nx Gl].
  pose proof (cells_chain _ _ _ _ Hc) as [_ [Ga _]]%schain_app. rewrite end_of_multi in Ga by lia.
  assert (pos N c a <> pos N c (y + 1)) as Hne by (intros E; apply Hno; rewrite occupied_app, occupied_cons; tauto).
  apply ordered_split in Ho as (_ & ? & ? & _). fold N in H2.
  destruct (start_rest_spec (m_caSeq l) (pos N c a) (pos N c (y + 1)) (seq_of a) b y (first_pos N c post (-1)) nx)
    as (arr' & E & ? & G & Hj); try done; try (unfold in_bounds; lia); try lia.
  exists nx, arr'. split_and!; try done; try lia. by rewrite Hj.
Qed.

Definition last_after (l : t) (h : Z) : Z := if m_iLastInsertPos l =? h then -1 else m_iLastInsertPos l.

(** Emptying the head's element. *)
Lemma drop_first_rep l c a b post arr' :
  srep l c ((a, b) :: post) -> length arr' = length (m_caSeq l) ->
  aget arr' (pos (m_iSize l) c a) = Some (mkSeq SRT_SEQNO_NONE SRT_SEQNO_NONE (first_pos (m_iSize l) c post (-1))) ->
  (forall j, j <> pos (m_iSize l) c a -> aget arr' j = aget (m_caSeq l) j) ->
  srep (mk arr' (first_pos (m_iSize l) c post (-1)) (i32 (m_iLength l - (b - a + 1))) (m_iSize l)
         (last_after l (pos (m_iSize l) c a))) c post.
Proof.
  intros R Hlen Ga Hj. pose proof (srep_count _ _ _ R) as Hc0. pose proof R as [HN Hc Hh Hl Hcap Hlast].
  destruct (cells_sorted _ _ _ _ Hc) as [lo Hs]. pose proof Hs as (? & ? & Hs1). pose proof (count_sorted _ _ _ Hs1).
  cbn [count] in *. constructor; cbn [m_caSeq m_iSize m_iHead m_iLength m_iLastInsertPos].
  - done.
  - apply (cells_replace (m_iSize l) c HN (m_caSeq l) arr' [] [(a, b)] [] post lo Hc).
    + eapply sorted_weaken; [exact Hs1|lia|lia].
    + done.
    + by left.
    + done.
    + intros i Hi _. apply Hj. intros ->. apply Hi, occupied_cons. by left.
    + intros i Hi _. rewrite occupied_cons, occupied_nil in Hi. destruct Hi as [<-|[]]. by eexists.
  - done.
  - rewrite Hl, i32_id by (unfold is_i32; lia). lia.
  - lia.
  - unfold last_after. destruct (Z.eqb_spec (m_iLastInsertPos l) (pos (m_iSize l) c a)) as [|Hne]; [by left|].
    destruct Hlast as [?|Ho]; [by left|]. right. rewrite occupied_cons in Ho. destruct Ho; [congruence|done].
Qed.

(** The head's first packet moves out of a longer range. *)
Lemma shift_first_rep l c a b post arr' lo :
  srep l c ((a, b) :: post) -> ordered lo ((a, b) :: post) (lo + m_iSize l) -> a < b ->
  length arr' = length (m_caSeq l) -> sblank arr' (pos (m_iSize l) c a) ->
  aget arr' (pos (m_iSize l) c (a + 1)) = Some (mkSeq (seq_of (a + 1)) (end_of (a + 1) b) (first_pos (m_iSize l) c post (-1))) ->
  (forall j, j <> pos (m_iSize l) c a -> j <> pos (m_iSize l) c (a + 1) -> aget arr' j = aget (m_caSeq l) j) ->
  srep (mk arr' (pos (m_iSize l) c (a + 1)) (i32 (m_iLength l - 1)) (m_iSize l)
         (last_after l (pos (m_iSize l) c a))) c ((a + 1, b) :: post).
Proof.
  intros R Ho Hab Hlen Ga Gn Hj. pose proof (srep_count _ _ _ R) as Hc0. pose proof R as [HN Hc Hh Hl Hcap Hlast].
  pose proof Ho as (? & ? & Ho1). cbn [count] in *.
  pose proof (count_nonneg _ _ _ Ho1).
  constructor; cbn [m_caSeq m_iSize m_iHead m_iLength m_iLastInsertPos].
  - done.
  - apply (cells_replace (m_iSize l) c HN (m_caSeq l) arr' [] [(a, b)] [(a + 1, b)] post lo Hc).
    + simpl. split_and!; try lia. eapply sorted_weaken; [by apply ordered_sorted|lia|lia].
    + done.
    + by left.
    + simpl. done.
    + intros i Hi Hi'. apply Hj; intros ->; [apply Hi, occupied_cons; by left|apply Hi', occupied_cons; by left].
    + intros i Hi _. rewrite occupied_cons, occupied_nil in Hi. by destruct Hi as [<-|[]].
  - done.
  - rewrite Hl, i32_id by (unfold is_i32; lia). simpl. lia.
  - simpl. lia.
  - unfold last_after. destruct (Z.eqb_spec (m_iLastInsertPos l) (pos (m_iSize l) c a)) as [|Hne]; [by left|].
    destruct Hlast as [?|Hoc]; [by left|]. right. rewrite occupied_cons in *. destruct Hoc; [congruence|by right].
Qed.

(** The ranges without their first packet. *)
Definition rest_of (nodes : list range) : list range :=
  match nodes with [] => [] | (a, b) :: post => if a =? b then post else (a + 1, b) :: post end.

Lemma lost_rest_of a b post lo hi z :
  ordered lo ((a, b) :: post) hi -> lost (rest_of ((a, b) :: post)) z <-> lost ((a, b) :: post) z /\ z <> a.
Proof.
  intros (? & ? & Ho). cbn [rest_of]. pose proof (lost_bounds _ _ _ z Ho). rewrite lost_cons.
  destruct (Z.eqb_spec a b) as [->|]; [|rewrite lost_cons]; intuition lia.
Qed.

Lemma ordered_rest_of lo nodes hi : ordered lo nodes hi -> ordered lo (rest_of nodes) hi.
Proof.
  destruct nodes as [|[a b] post]; [done|]. intros (? & ? & Ho). cbn [rest_of].
  destruct (Z.eqb_spec a b); [eapply ordered_weaken; [exact Ho|lia|lia]|]. simpl. split_and!; try lia. done.
Qed.

Lemma count_rest_of a b post : count (rest_of ((a, b) :: post)) = count ((a, b) :: post) - 1.
Proof. cbn [rest_of]. destruct (Z.eqb_spec a b); simpl; lia. Qed.

Lemma srep_nonempty l c a b post lo :
  srep l c ((a, b) :: post) -> ordered lo ((a, b) :: post) (lo + m_iSize l) -> (m_iLength l =? 0) = false.
Proof.
  intros R (? & ? & Ho). apply Z.eqb_neq. rewrite (s_len _ _ _ R). pose proof (count_nonneg _ _ _ Ho). simpl. lia.
Qed.

Lemma popLostSeq_rep l c a b post lo :
  srep l c ((a, b) :: post) -> ordered lo ((a, b) :: post) (lo + m_iSize l) ->
  exists l', popLostSeq l = Some (seq_of a, l') /\ srep l' c (rest_of ((a, b) :: post)) /\ m_iSize l' = m_iSize l.
Proof.
  intros R Ho. pose proof R as [HN Hc Hh Hl _ _]. pose proof (cells_len _ _ _ _ Hc) as Hlen.
  pose proof (cells_chain _ _ _ _ Hc) as [Ga _]. cbn [first_pos] in Hh. pose proof (pos_range (m_iSize l) c ltac:(lia) a).
  unfold popLostSeq. rewrite (srep_nonempty _ _ _ _ _ _ R Ho), Hh, Ga. cbn [mbind option_bind seqstart seqend rest_of].
  rewrite end_of_none. destruct (Z.eqb_spec a b) as [<-|Hne].
  - upd_step. aget_simp. rewrite Ga. cbn [mbind option_bind fmap option_fmap option_map set_seqstart inext fst snd].
    eexists. split; [reflexivity|]. split; [|done].
    replace (m_iLength l - 1) with (m_iLength l - (a - a + 1)) by lia.
    apply (drop_first_rep l c a a post arr R); [done| |intros; by aget_simp].
    aget_simp. rewrite Ga. unfold end_of. by rewrite Z.eqb_refl.
  - destruct (srep_range l c [] a b post lo a R Ho) as (nx & arr1 & E1 & Hl1 & G1 & Hj1 & Ga1 & Hna & Pa & Pn); [destruct Ho; lia|].
    rewrite next_loc, E1 by done. cbn [mbind option_bind]. do 2 upd_step. aget_simp. rewrite Ga1.
    cbn [mbind option_bind fmap option_fmap option_map set_seqstart set_seqend inext fst snd]. upd_step.
    eexists. split; [reflexivity|]. split; [|done].
    apply (shift_first_rep l c a b post arr2 lo R Ho); [destruct Ho; lia|lia| | |].
    + eexists. aget_simp. by rewrite Ga1.
    + aget_simp. by rewrite G1.
    + intros j J1 J2. aget_simp. by apply Hj1.
Qed.

Lemma snd_remove_head_rep l c a b post lo :
  srep l c ((a, b) :: post) -> ordered lo ((a, b) :: post) (lo + m_iSize l) ->
  exists l', remove_head l (pos (m_iSize l) c a) (seq_of a) = Some l' /\ srep l' c (rest_of ((a, b) :: post))
    /\ m_iSize l' = m_iSize l.
Proof.
  intros R Ho. pose proof R as [HN Hc Hh Hl _ _]. pose proof (cells_len _ _ _ _ Hc) as Hlen.
  pose proof (cells_chain _ _ _ _ Hc) as [Ga _]. cbn [first_pos] in Hh. pose proof (pos_range (m_iSize l) c ltac:(lia) a).
  unfold remove_head. rewrite Hh, Ga. cbn [mbind option_bind seqstart seqend rest_of].
  rewrite end_of_none. destruct (Z.eqb_spec a b) as [<-|Hne].
  - cbn [mbind option_bind fst snd inext]. upd_step. eexists. split; [reflexivity|]. split; [|done].
    replace (m_iLength l - 1) with (m_iLength l - (a - a + 1)) by lia.
    apply (drop_first_rep l c a a post arr R); [done| |intros; by aget_simp].
    aget_simp. rewrite Ga. unfold end_of. by rewrite Z.eqb_refl.
  - destruct (srep_range l c [] a b post lo a R Ho) as (nx & arr1 & E1 & Hl1 & G1 & Hj1 & Ga1 & Hna & Pa & Pn); [destruct Ho; lia|].
    rewrite next_loc, E1 by done. cbn [mbind option_bind]. upd_step. aget_simp. rewrite Ga1.
    cbn [mbind option_bind fmap option_fmap option_map set_seqstart set_seqend inext fst snd]. do 2 upd_step.
    eexists. split; [reflexivity|]. split; [|done].
    apply (shift_first_rep l c a b post arr2 lo R Ho); [destruct Ho; lia|lia| | |].
    + eexists. aget_simp. by rewrite Ga1.
    + aget_simp. by rewrite G1.
    + intros j J1 J2. aget_simp. by apply Hj1.
Qed.

(** Cutting a range in two after packet [y]. *)
Lemma split_rep l c pre a b post lo y arr' :
  srep l c (pre ++ (a, b) :: post) -> ordered lo (pre ++ (a, b) :: post) (lo + m_iSize l) -> a <= y < b ->
  length arr' = length (m_caSeq l) ->
  aget arr' (pos (m_iSize l) c a) = Some (mkSeq (seq_of a) (end_of a y) (pos (m_iSize l) c (y + 1))) ->
  aget arr' (pos (m_iSize l) c (y + 1)) = Some (mkSeq (seq_of (y + 1)) (end_of (y + 1) b) (first_pos (m_iSize l) c post (-1))) ->
  (forall j, j <> pos (m_iSize l) c a -> j <> pos (m_iSize l) c (y + 1) -> aget arr' j = aget (m_caSeq l) j) ->
  srep (mk arr' (m_iHead l) (m_iLength l) (m_iSize l) (m_iLastInsertPos l)) c (pre ++ (a, y) :: (y + 1, b) :: post)
  /\ ordered lo (pre ++ (a, y) :: (y + 1, b) :: post) (lo + m_iSize l).
Proof.
  intros R Ho Hy Hlen Ga Gn Hj. pose proof R as [HN Hc Hh Hl Hcap Hlast].
  pose proof (ordered_split _ _ _ _ _ _ Ho) as (Hpre & ? & ? & Hpost).
  assert (ordered lo (pre ++ (a, y) :: (y + 1, b) :: post) (lo + m_iSize l)) as Ho'.
  { apply ordered_join; [done|lia|lia|]. simpl. split_and!; try lia. done. }
  split; [|done]. rewrite count_app in *. cbn [count] in *.
  constructor; cbn [m_caSeq m_iSize m_iHead m_iLength m_iLastInsertPos].
  - done.
  - change (pre ++ (a, y) :: (y + 1, b) :: post) with (pre ++ [(a, y); (y + 1, b)] ++ post) in Ho' |- *.
    apply (cells_replace (m_iSize l) c HN (m_caSeq l) arr' pre [(a, b)] [(a, y); (y + 1, b)] post lo Hc).
    + by apply ordered_sorted.
    + done.
    + by right.
    + simpl. done.
    + intros i Hi Hi'. rewrite !occupied_cons in *. apply Hj; intros ->; tauto.
    + intros i Hi Hi'. rewrite !occupied_cons in *. tauto.
  - rewrite Hh. by rewrite !first_pos_app.
  - rewrite Hl, !count_app. simpl. lia.
  - rewrite count_app. simpl. lia.
  - destruct Hlast as [?|Hoc]; [by left|]. right. rewrite occupied_app, !occupied_cons in *. tauto.
Qed.

(** The loop that empties the nodes before the new head. *)
Lemma drop_until_head_rep dead live fuel arr len N last c h :
  srep (mk arr h len N last) c (dead ++ live) -> (length dead <= fuel)%nat ->
  (exists lo, ordered lo (dead ++ live) (lo + N)) ->
  exists l', drop_until_head fuel (mk arr (first_pos N c live (-1)) len N last) (first_pos N c (dead ++ live) (-1)) = Some l'
    /\ srep l' c live /\ m_iSize l' = N.
Proof.
  revert fuel arr len last h. induction dead as [|[a b] dead IH]; intros fuel arr len last h R Hf [lo Ho].
  - exists (mk arr (first_pos N c live (-1)) len N last). cbn [app]. split; [|split; [|done]].
    + destruct fuel; cbn [drop_until_head m_iHead]; by rewrite Z.eqb_refl.
    + destruct R as [? ? ? ? ? ?]. by constructor.
  - destruct fuel as [|fuel]; cbn [length] in Hf; [lia|]. cbn [app] in *. cbn [first_pos].
    pose proof R as [HN Hc Hh Hl Hcap Hlast]. cbn [m_iSize m_caSeq m_iLength] in HN, Hc, Hl.
    pose proof (cells_len _ _ _ _ Hc) as Hlen. pose proof (cells_chain _ _ _ _ Hc) as [Ga _].
    pose proof (pos_range N c ltac:(lia) a) as Hp. pose proof (srep_count _ _ _ R) as Hc0.
    pose proof Ho as (? & ? & Ho1). pose proof (count_nonneg _ _ _ Ho1) as Hcr. cbn [count] in Hc0, Hl.
    cbn [drop_until_head m_iHead].
    destruct (Z.eqb_spec (pos N c a) (first_pos N c live (-1))) as [E|Hne].
    { exfalso. destruct live as [|[u v] live]; cbn [first_pos] in E; [lia|].
      assert ((u, v) ∈ dead ++ (u, v) :: live) as Hin by set_solver.
      pose proof (ordered_elem _ _ _ _ _ Ho1 Hin). apply (pos_inj N c ltac:(lia)) in E; lia. }
    cbn [m_caSeq]. rewrite Ga. cbn [mbind option_bind seqend seqstart]. rewrite end_of_none.
    assert (exists r, (if negb (a =? b) then
             a1 ← aupd arr (pos N c a) (set_seqend SRT_SEQNO_NONE);
             Some (set_arr a1 (set_len (len - CSeqNo.seqlen (seq_of a) (end_of a b)) (mk arr (first_pos N c live (-1)) len N last)))
           else Some (set_len (len - 1) (mk arr (first_pos N c live (-1)) len N last))) = Some r
       /\ r = mk (m_caSeq r) (first_pos N c live (-1)) (i32 (len - (b - a + 1))) N last
       /\ length (m_caSeq r) = length arr
       /\ aget (m_caSeq r) (pos N c a) = Some (mkSeq (seq_of a) SRT_SEQNO_NONE (first_pos N c (dead ++ live) (-1)))
       /\ forall j, j <> pos N c a -> aget (m_caSeq r) j = aget arr j) as (r & Er & Er1 & Er2 & Er3 & Er4).
    { destruct (Z.eqb_spec a b) as [<-|Hab]; cbn [negb].
      - eexists. split; [reflexivity|]. cbn [set_len m_caSeq m_iHead m_iLength m_iSize m_iLastInsertPos].
        split; [replace (a - a + 1) with 1 by lia; done|]. split; [done|]. split; [|done]. rewrite Ga. unfold end_of. by rewrite Z.eqb_refl.
      - upd_step. eexists. split; [reflexivity|]. cbn [set_arr set_len m_caSeq m_iHead m_iLength m_iSize m_iLastInsertPos].
        rewrite end_of_multi, seqlen_range by (done || lia). split; [done|]. split; [lia|].
        split; [aget_simp; by rewrite Ga|intros; by aget_simp]. }
    cbn [m_iLength set_len m_caSeq] in Er |- *. rewrite Er. cbn [mbind option_bind]. upd_step. rewrite Er1.
    cbn [set_arr m_caSeq m_iHead m_iLength m_iSize m_iLastInsertPos].
    set (l2 := if last =? pos N c a then _ else _).
    assert (l2 = mk arr0 (first_pos N c live (-1)) (i32 (len - (b - a + 1))) N (last_after (mk arr h len N last) (pos N c a))) as ->
      by (unfold l2, last_after; simpl; by destruct (last =? pos N c a)).
    cbn [m_caSeq]. aget_simp. rewrite Er3. cbn [mbind option_bind fmap option_fmap option_map set_seqstart inext].
    eapply (IH fuel arr0 _ _ (first_pos N c (dead ++ live) (-1))).
    + apply (drop_first_rep (mk arr h len N last) c a b (dead ++ live) arr0 R); cbn [m_caSeq m_iSize m_iLength].
      * lia.
      * aget_simp. by rewrite Er3.
      * intros j Hj. aget_simp. by apply Er4.
    + lia.
    + exists lo. eapply ordered_weaken; [exact Ho1|lia|lia].
Qed.

(** What both cuts of [removeUpTo] leave: the nodes to drop and those to keep. *)
Definition cut_ok (l : t) (c : Z) (nodes : list range) (y : Z) (r : list Seq * Z) : Prop :=
  exists dead live lo,
    srep (mk (fst r) (m_iHead l) (m_iLength l) (m_iSize l) (m_iLastInsertPos l)) c (dead ++ live)
    /\ ordered lo (dead ++ live) (lo + m_iSize l) /\ snd r = first_pos (m_iSize l) c live (-1)
    /\ forall z, lost live z <-> lost nodes z /\ y < z.

Lemma srep_same l c nodes :
  srep l c nodes -> srep (mk (m_caSeq l) (m_iHead l) (m_iLength l) (m_iSize l) (m_iLastInsertPos l)) c nodes.
Proof. intros [? ? ? ? ? ?]. by constructor. Qed.

(** Cutting after a whole range that ends at [y] or before. *)
Lemma cut_whole l c pre a b post lo y :
  srep l c (pre ++ (a, b) :: post) -> ordered lo (pre ++ (a, b) :: post) (lo + m_iSize l) -> b <= y ->
  (forall u v, (u, v) ∈ post -> y < u) ->
  cut_ok l c (pre ++ (a, b) :: post) y (m_caSeq l, first_pos (m_iSize l) c post (-1)).
Proof.
  intros R Ho Hb Hpost. exists (pre ++ [(a, b)]), post, lo. rewrite <- app_assoc. cbn [app fst snd].
  split; [by apply srep_same|]. split; [done|]. split; [done|]. intros z.
  pose proof (ordered_split _ _ _ _ _ _ Ho) as (Hpre & ? & ? & Hpo). rewrite lost_app, lost_cons.
  pose proof (lost_bounds _ _ _ z Hpre). split; [|intuition lia].
  intros (u & v & Hin & Hz). specialize (Hpost _ _ Hin). split; [|lia]. right. right. by exists u, v.
Qed.

(** Cutting inside a range. *)
Lemma cut_inside l c pre a b post lo y arr' :
  ordered lo (pre ++ (a, b) :: post) (lo + m_iSize l) -> a <= y < b ->
  srep (mk arr' (m_iHead l) (m_iLength l) (m_iSize l) (m_iLastInsertPos l)) c (pre ++ (a, y) :: (y + 1, b) :: post)
  /\ ordered lo (pre ++ (a, y) :: (y + 1, b) :: post) (lo + m_iSize l) ->
  cut_ok l c (pre ++ (a, b) :: post) y (arr', pos (m_iSize l) c (y + 1)).
Proof.
  intros Ho Hy [R Ho']. exists (pre ++ [(a, y)]), ((y + 1, b) :: post), lo. rewrite <- app_assoc. cbn [app fst snd].
  split; [done|]. split; [done|]. split; [done|]. intros z.
  pose proof (ordered_split _ _ _ _ _ _ Ho) as (Hpre & ? & ? & Hpo). rewrite lost_app, !lost_cons.
  pose proof (lost_bounds _ _ _ z Hpre). pose proof (lost_bounds _ _ _ z Hpo). intuition lia.
Qed.

Lemma cut_at_start_rep l c pre y b post lo :
  srep l c (pre ++ (y, b) :: post) -> ordered lo (pre ++ (y, b) :: post) (lo + m_iSize l) ->
  exists r, cut_at_start l (pos (m_iSize l) c y) (seq_of y) = Some r /\ cut_ok l c (pre ++ (y, b) :: post) y r.
Proof.
  intros R Ho. pose proof R as [HN Hc _ _ _ _]. pose proof (cells_len _ _ _ _ Hc) as Hlen.
  pose proof (cells_chain _ _ _ _ Hc) as [_ [Ga _]]%schain_app.
  pose proof (ordered_split _ _ _ _ _ _ Ho) as (Hpre & ? & ? & Hpo).
  unfold cut_at_start. rewrite Ga. cbn [mbind option_bind seqend]. rewrite end_of_none.
  destruct (Z.eqb_spec y b) as [<-|Hne].
  - eexists. split; [reflexivity|]. apply (cut_whole l c pre y y post lo y R Ho); [lia|].
    intros u v Hin. pose proof (ordered_elem _ _ _ _ _ Hpo Hin). lia.
  - destruct (srep_range l c pre y b post lo y R Ho ltac:(lia)) as (nx & arr1 & E1 & Hl1 & G1 & Hj1 & Ga1 & Hna & Pa & Pn).
    rewrite next_loc, E1 by done. cbn [mbind option_bind]. rewrite Ga1. cbn [mbind option_bind inext]. do 3 upd_step.
    eexists. split; [reflexivity|]. apply (cut_inside l c pre y b post lo y arr2 Ho ltac:(lia)).
    apply (split_rep l c pre y b post lo y arr2 R Ho ltac:(lia)); [lia| | |].
    + aget_simp. rewrite Ga1. unfold end_of. by rewrite Z.eqb_refl.
    + aget_simp. by rewrite G1.
    + intros j J1 J2. aget_simp. by apply Hj1.
Qed.

Lemma cut_at_prior_rep l c a0 b0 r0 lo y :
  let nodes := (a0, b0) :: r0 in
  srep l c nodes -> ordered lo nodes (lo + m_iSize l) -> (forall b, (y, b) ∉ nodes) ->
  a0 < y < a0 + CSeqNo.m_iSeqNoTH ->
  exists r, cut_at_prior l (pos (m_iSize l) c y) (seq_of y) = Some r /\ cut_ok l c nodes y r.
Proof.
  intros nodes R Ho Hns Hy. pose proof R as [HN Hc Hh _ _ _]. unfold CSeqNo.m_iSeqNoTH in Hy.
  assert (lo <= a0) as Hlo by (destruct Ho; lia).
  assert (forall u v, (u, v) ∈ nodes -> a0 <= u <= v /\ v < lo + m_iSize l) as Hel.
  { intros u v Hin. pose proof (ordered_elem _ _ _ _ _ Ho Hin). split; [|lia]. split; [|lia].
    apply elem_of_cons in Hin as [[= -> ->]|Hin]; [lia|]. destruct Ho as (? & ? & Ho1).
    pose proof (ordered_elem _ _ _ _ _ Ho1 Hin). lia. }
  unfold cut_at_prior. rewrite Hh. cbn [first_pos nodes].
  destruct (find_prior_spec (m_iSize l) c (m_caSeq l) lo [] a0 b0 r0 y (Z.to_nat (m_iSize l)))
    as (pre & a & b & post & E & Ha & Hpost & ->); try done; try lia.
  { apply (cells_chain _ _ _ _ Hc). }
  { intros u v Hin. specialize (Hel _ _ Hin). unfold CSeqNo.m_iSeqNoTH. lia. }
  { by apply ordered_sorted. }
  { by apply (srep_fuel l c [] a0 b0 r0 lo). }
  cbn [mbind option_bind]. cbn [app] in E. unfold nodes in *. rewrite E in R, Ho, Hc, Hns, Hel |- *. clear Hh.
  pose proof (cells_len _ _ _ _ Hc) as Hlen. pose proof (cells_chain _ _ _ _ Hc) as [_ [Ga _]]%schain_app.
  assert (forall u v, (u, v) ∈ post -> y < u) as Hpost'.
  { intros u v Hin. specialize (Hpost u v Hin). assert (u <> y); [|lia]. intros ->. apply (Hns v).
    apply elem_of_app. right. by constructor. }
  assert (a <= b /\ b < lo + m_iSize l /\ a0 <= a) as (? & ? & ?) by (specialize (Hel a b ltac:(set_solver)); lia).
  rewrite Ga. cbn [mbind option_bind seqend inext]. rewrite end_of_none. destruct (Z.eqb_spec a b) as [<-|Hne].
  - eexists. split; [reflexivity|]. apply (cut_whole l c pre a a post lo y R Ho); [lia|done].
  - rewrite end_of_multi, Z.gtb_ltb by done.
    pose proof (seqcmp_seq_of_sgn b y ltac:(unfold CSeqNo.m_iSeqNoTH; lia)).
    destruct (Z.ltb_spec 0 (CSeqNo.seqcmp (seq_of b) (seq_of y))).
    + destruct (srep_range l c pre a b post lo y R Ho ltac:(lia)) as (nx & arr1 & E1 & Hl1 & G1 & Hj1 & Ga1 & Hna & Pa & Pn).
      rewrite next_loc, E1 by done. cbn [mbind option_bind]. upd_step. aget_simp. rewrite Ga1.
      cbn [mbind option_bind fmap option_fmap option_map set_seqend inext]. do 2 upd_step.
      eexists. split; [reflexivity|]. apply (cut_inside l c pre a b post lo y arr2 Ho ltac:(lia)).
      apply (split_rep l c pre a b post lo y arr2 R Ho ltac:(lia)); [lia| | |].
      * aget_simp. rewrite Ga1. rewrite end_of_multi by lia. done.
      * aget_simp. by rewrite G1.
      * intros j J1 J2. aget_simp. by apply Hj1.
    + eexists. split; [reflexivity|]. apply (cut_whole l c pre a b post lo y R Ho); [lia|done].
Qed.

(** The place of a packet that starts no range does not hold its number. *)
Lemma cell_no_start l c a0 b0 r lo y :
  srep l c ((a0, b0) :: r) -> ordered lo ((a0, b0) :: r) (lo + m_iSize l) ->
  a0 <= y < a0 + 2 ^ 30 -> (forall b, (y, b) ∉ (a0, b0) :: r) ->
  exists s, aget (m_caSeq l) (pos (m_iSize l) c y) = Some s /\ (seq_of y =? seqstart s) = false.
Proof.
  intros R Ho Hy Hns. pose proof (s_size _ _ _ R) as HN. pose proof (s_cells _ _ _ R) as Hc.
  destruct (decide (Exists (fun n => pos (m_iSize l) c (fst n) = pos (m_iSize l) c y) ((a0, b0) :: r))) as [He|He].
  - apply list.Exists_exists in He as ([u v] & Hin & Hp). cbn [fst] in Hp. pose proof (ordered_elem _ _ _ _ _ Ho Hin).
    apply list_elem_of_split in Hin as Hsp. destruct Hsp as (pre & post & E).
    pose proof (cells_chain _ _ _ _ Hc) as HC. rewrite E in HC. apply schain_app in HC as [_ [Gu _]].
    rewrite <- Hp. eexists. split; [exact Gu|]. simpl. apply Z.eqb_neq. intros Eq. destruct Ho as (? & ? & _).
    apply seq_of_inj in Eq; [|lia]. subst u. by apply (Hns v).
  - destruct (cells_blank _ _ _ _ Hc (pos (m_iSize l) c y)) as [nx E]; [apply pos_range; lia| |].
    + intros (u & v & Hin & Hp). apply He, list.Exists_exists. by exists (u, v).
    + eexists. split; [exact E|]. simpl. apply seq_of_not_none.
Qed.

Lemma removeUpTo_rep l c nodes lo y :
  srep l c nodes -> ordered lo nodes (lo + m_iSize l) ->
  (forall a b r, nodes = (a, b) :: r -> Z.abs (y - a) < CSeqNo.m_iSeqNoTH) ->
  exists l' nodes' lo', removeUpTo l (seq_of y) = Some l' /\ srep l' c nodes'
    /\ ordered lo' nodes' (lo' + m_iSize l) /\ m_iSize l' = m_iSize l
    /\ forall z, lost nodes' z <-> lost nodes z /\ y < z.
Proof.
  intros R Ho Hnear. pose proof R as [HN Hc Hh Hl _ _]. unfold removeUpTo. destruct nodes as [|[a0 b0] r].
  { rewrite Hl. cbn [count Z.eqb]. exists l, [], lo. split_and!; try done. intros z. rewrite lost_nil. tauto. }
  specialize (Hnear _ _ _ eq_refl). rewrite (srep_nonempty _ _ _ _ _ _ R Ho), Hh. cbn [first_pos].
  pose proof (cells_chain _ _ _ _ Hc) as [G0 _]. rewrite G0. cbn [mbind option_bind seqstart].
  rewrite seqoff_seq_of by lia. pose proof Ho as (? & ? & Ho1). rewrite Z.gtb_ltb.
  destruct (Z.eqb_spec (y - a0) 0) as [E0|N0].
  - assert (y = a0) as -> by lia. rewrite head_loc by (unfold CSeqNo.m_iSeqNoTH; lia).
    destruct (snd_remove_head_rep l c a0 b0 r lo R Ho) as (l' & E & R' & HN').
    exists l', (rest_of ((a0, b0) :: r)), lo. split_and!; try done; [by apply ordered_rest_of|].
    intros z. rewrite (lost_rest_of a0 b0 r lo (lo + m_iSize l)) by done.
    assert (ordered a0 ((a0, b0) :: r) (lo + m_iSize l)) as Hb by (simpl; split_and!; try lia; done).
    pose proof (lost_bounds _ _ _ z Hb). intuition lia.
  - destruct (Z.ltb_spec 0 (y - a0)) as [Hgt|Hle].
    + unfold CSeqNo.m_iSeqNoTH in Hnear. rewrite head_loc by (unfold CSeqNo.m_iSeqNoTH; lia).
      assert (exists s r0, aget (m_caSeq l) (pos (m_iSize l) c y) = Some s
        /\ (if seq_of y =? seqstart s then cut_at_start l (pos (m_iSize l) c y) (seq_of y)
            else cut_at_prior l (pos (m_iSize l) c y) (seq_of y)) = Some r0
        /\ cut_ok l c ((a0, b0) :: r) y r0) as (s & r0 & -> & Er & Hcut).
      { destruct (start_at ((a0, b0) :: r) y) as [(pre & b & post & E)|Hns].
        - rewrite E in R, Ho, Hc |- *. pose proof (cells_chain _ _ _ _ Hc) as [_ [Gy _]]%schain_app.
          destruct (cut_at_start_rep l c pre y b post lo R Ho) as (r0 & Er & Hcut).
          eexists _, r0. split; [exact Gy|]. cbn [seqstart]. rewrite Z.eqb_refl. done.
        - destruct (cell_no_start l c a0 b0 r lo y R Ho ltac:(lia)) as (s & Gs & Es); [intros b Hin; by apply (Hns y b)|].
          destruct (cut_at_prior_rep l c a0 b0 r lo y R Ho) as (r0 & Er & Hcut).
          + intros b Hin. by apply (Hns y b).
          + unfold CSeqNo.m_iSeqNoTH. lia.
          + exists s, r0. rewrite Es. done. }
      cbn [mbind option_bind]. rewrite Er. cbn [mbind option_bind].
      destruct Hcut as (dead & live & lo' & R' & Ho' & Esnd & Hlost).
      destruct (drop_until_head_rep dead live (S (Z.to_nat (m_iSize l))) (fst r0) (m_iLength l) (m_iSize l) (m_iLastInsertPos l) c (m_iHead l) R')
        as (l' & E & Rl & HN').
      * pose proof (ordered_length _ _ _ Ho') as Hlen. pose proof (count_le lo' _ (lo' + m_iSize l) ltac:(lia) Ho').
        rewrite length_app in Hlen. lia.
      * eauto.
      * rewrite <- Esnd in E. pose proof (s_head _ _ _ R') as Hh'. cbn [m_iHead m_iSize] in Hh'.
        rewrite <- Hh', Hh in E. cbn [first_pos] in E. exists l', live, lo'. split_and!; try done.
        by eapply ordered_suffix.
    + exists l, ((a0, b0) :: r), lo. split_and!; try done. intros z. split; [|tauto]. intros Hz. split; [done|].
      assert (ordered a0 ((a0, b0) :: r) (lo + m_iSize l)) as Hb by (simpl; split_and!; try lia; done).
      pose proof (lost_bounds _ _ _ _ Hb Hz). lia.
Qed.
