(* ===== verification/SndLossListRefine.v ===== *)
(** * Refinement of the sender's loss list

    The abstract state is the set of packet indices to retransmit. Each public
    operation of [CSndLossList] returns the abstract operation's answer and leads
    to a list that models the abstract result, across the wrap-around of the
    31-bit sequence numbers. *)

From S2P Require Import Prelude SeqNo Ranges SndLossList SndLossListSpec.
Import CSndLossList.

(** ** The abstract operations *)

Definition min_elem (A : gset Z) : option Z :=
  match elements A with [] => None | x :: xs => Some (foldr Z.min x xs) end.

Lemma foldr_min x xs : foldr Z.min x xs ∈ x :: xs /\ forall y, y ∈ x :: xs -> foldr Z.min x xs <= y.
Proof.
  induction xs as [|z xs [IH1 IH2]]; simpl; [split; [constructor|intros y ->%list_elem_of_singleton; lia]|]. split.
  - destruct (Z.min_spec z (foldr Z.min x xs)) as [[_ ->]|[_ ->]]; [set_solver|]. set_solver.
  - intros y Hy. assert (y = z \/ y ∈ x :: xs) as [->|Hy'] by set_solver; [lia|]. specialize (IH2 _ Hy'). lia.
Qed.

Lemma min_elem_spec A :
  match min_elem A with
  | None => A = ∅
  | Some x => x ∈ A /\ forall y, y ∈ A -> x <= y
  end.
Proof.
  unfold min_elem. destruct (elements A) as [|x xs] eqn:E; [by apply elements_empty_inv, leibniz_equiv in E|].
  destruct (foldr_min x xs) as [H1 H2]. split.
  - apply elem_of_elements. by rewrite E.
  - intros y Hy. apply H2. rewrite <- E. by apply elem_of_elements.
Qed.

Lemma min_elem_unique A x : x ∈ A -> (forall y, y ∈ A -> x <= y) -> min_elem A = Some x.
Proof.
  intros Hx Hm. pose proof (min_elem_spec A) as H. destruct (min_elem A) as [z|]; [|set_solver].
  destruct H as [Hz Hz']. f_equal. specialize (Hm _ Hz). specialize (Hz' _ Hx). lia.
Qed.

Inductive snd_op := SndInsert (x1 x2 : Z) | SndRemoveUpTo (y : Z) | SndPop.

Definition snd_spec (A : gset Z) (o : snd_op) : Z * gset Z :=
  match o with
  | SndInsert x1 x2 => (Z.of_nat (size (A ∪ range_set x1 x2)) - Z.of_nat (size A), A ∪ range_set x1 x2)
  | SndRemoveUpTo y => (0, filter (fun x => y < x) A)
  | SndPop => match min_elem A with None => (SRT_SEQNO_NONE, A) | Some x => (seq_of x, A ∖ {[x]}) end
  end.

Definition snd_run (l : t) (o : snd_op) : option (Z * t) :=
  match o with
  | SndInsert x1 x2 => insert l (seq_of x1) (seq_of x2)
  | SndRemoveUpTo y => l' ← removeUpTo l (seq_of y); Some (0, l')
  | SndPop => popLostSeq l
  end.

(** ** The abstraction *)

Definition smodels (l : t) (A : gset Z) : Prop :=
  exists c nodes lo, srep l c nodes /\ ordered lo nodes (lo + m_iSize l) /\ forall x, x ∈ A <-> lost nodes x.

(** What a caller has to respect: the recorded packets, the new ones included,
    lie within one turn of the array (of twice the flow window), and a removal
    is within half the sequence space. *)
Definition snd_op_ok (N : Z) (A : gset Z) (o : snd_op) : Prop :=
  match o with
  | SndInsert x1 x2 => x1 <= x2 /\ x2 - x1 + 1 < N /\ forall x, x ∈ A -> x2 < x + N /\ x < x1 + N
  | SndRemoveUpTo y => forall x, x ∈ A -> Z.abs (y - x) < CSeqNo.m_iSeqNoTH
  | SndPop => True
  end.

Lemma ordered_by_lost lo nodes hi lo' hi' :
  ordered lo nodes hi -> (forall x, lost nodes x -> lo' <= x < hi') -> ordered lo' nodes hi'.
Proof.
  revert lo lo'. induction nodes as [|[a b] r IH]; intros lo lo'; simpl; [done|]. intros (? & ? & Ho) Hl.
  assert (forall x, lost ((a, b) :: r) x -> lo' <= x < hi') as Hl' by done.
  pose proof (Hl' a ltac:(apply lost_cons; lia)). pose proof (Hl' b ltac:(apply lost_cons; lia)).
  split_and!; try lia. eapply IH; [exact Ho|]. intros x Hx. pose proof (lost_bounds _ _ _ _ Ho Hx).
  specialize (Hl' x ltac:(apply lost_cons; by right)). lia.
Qed.

Lemma smodels_length l A : smodels l A -> m_iLength l = Z.of_nat (size A).
Proof. intros (c & nodes & lo & R & Ho & HS). rewrite (s_len _ _ _ R). by eapply count_size. Qed.

Lemma snd_create_models junk size : 0 < size <= 2 ^ 29 -> smodels (create junk size) ∅.
Proof.
  intros H. exists 0, [], 0. split; [|split; [done|intros x; rewrite lost_nil; set_solver]].
  constructor; simpl; try done; [|by left]. constructor; simpl; [rewrite length_replicate; lia|by exists 0|done|].
  intros i Hi _. exists junk. unfold aget. destruct (Z.leb_spec 0 i); [|lia]. apply lookup_replicate_2. lia.
Qed.

Lemma snd_insert_models l A x1 x2 :
  smodels l A -> snd_op_ok (m_iSize l) A (SndInsert x1 x2) ->
  exists l', insert l (seq_of x1) (seq_of x2) = Some (fst (snd_spec A (SndInsert x1 x2)), l')
    /\ smodels l' (A ∪ range_set x1 x2) /\ m_iSize l' = m_iSize l.
Proof.
  intros (c & nodes & lo & R & Ho & HS) (Hx & Hw & Hfit).
  set (lo' := match nodes with [] => x1 | (a, _) :: _ => Z.min x1 a end).
  pose proof (s_size _ _ _ R) as HN.
  assert (ordered lo' nodes (lo' + m_iSize l) /\ lo' <= x1 /\ x2 < lo' + m_iSize l) as (Ho' & H1 & H2).
  { unfold lo'. destruct nodes as [|[a b] r]; [simpl; lia|]. pose proof Ho as (? & ? & Hr).
    assert (a ∈ A) as Ha by (apply HS, lost_cons; lia). destruct (Hfit a Ha). split; [|lia].
    eapply ordered_by_lost; [exact Ho|]. intros x Hxl. assert (x ∈ A) as HxA by (by apply HS).
    destruct (Hfit x HxA). pose proof (lost_bounds _ _ _ _ Ho Hxl).
    apply lost_cons in Hxl as [?|Hxr]; [lia|]. pose proof (lost_bounds _ _ _ _ Hr Hxr). lia. }
  destruct (insert_rep l c nodes lo' x1 x2 R Ho' ltac:(lia) H2 Hw) as (l' & c' & nodes' & lo2 & E & R' & Ho2 & HN' & Hlost).
  assert (forall z, z ∈ A ∪ range_set x1 x2 <-> lost nodes' z) as HS'
    by (intros z; rewrite Hlost, elem_of_union, elem_of_range_set, HS; done).
  exists l'. rewrite E. cbn [snd_spec fst]. rewrite (count_size _ _ _ _ Ho' HS), (count_size _ _ _ _ Ho2 HS').
  split; [done|]. split; [|done]. exists c', nodes', lo2. rewrite HN'. done.
Qed.

Lemma snd_remove_models l A y :
  smodels l A -> snd_op_ok (m_iSize l) A (SndRemoveUpTo y) ->
  exists l', removeUpTo l (seq_of y) = Some l' /\ smodels l' (filter (fun x => y < x) A) /\ m_iSize l' = m_iSize l.
Proof.
  intros (c & nodes & lo & R & Ho & HS) Hnear.
  destruct (removeUpTo_rep l c nodes lo y R Ho) as (l' & nodes' & lo' & E & R' & Ho' & HN' & Hlost).
  { intros a b r ->. apply Hnear, HS, lost_cons. destruct Ho; lia. }
  exists l'. split; [done|]. split; [|done]. exists c, nodes', lo'. rewrite HN'. split; [done|]. split; [done|].
  intros x. rewrite elem_of_filter, Hlost, HS. tauto.
Qed.

Lemma snd_pop_models l A :
  smodels l A ->
  exists l', popLostSeq l = Some (fst (snd_spec A SndPop), l') /\ smodels l' (snd (snd_spec A SndPop)) /\ m_iSize l' = m_iSize l.
Proof.
  intros (c & nodes & lo & R & Ho & HS). cbn [snd_spec]. destruct nodes as [|[a b] r].
  - assert (A = ∅) as -> by (apply set_eq; intros x; rewrite HS, lost_nil; set_solver).
    exists l. unfold popLostSeq. rewrite (s_len _ _ _ R). simpl. split; [done|]. split; [|done]. by exists c, [], lo.
  - pose proof Ho as (? & ? & Hr).
    rewrite (min_elem_unique A a).
    + destruct (popLostSeq_rep l c a b r lo R Ho) as (l' & E & R' & HN'). exists l'. rewrite E. split; [done|].
      split; [|done]. exists c, (rest_of ((a, b) :: r)), lo. rewrite HN'. split; [done|].
      split; [by apply ordered_rest_of|]. intros x. cbn [snd].
      rewrite (lost_rest_of a b r lo (lo + m_iSize l)) by done. rewrite <- HS. set_solver.
    + apply HS, lost_cons. lia.
    + intros x [?|Hx]%HS%lost_cons; [lia|]. pose proof (lost_bounds _ _ _ _ Hr Hx). lia.
Qed.

(** ** Sequences of operations *)

Fixpoint snd_runs (l : t) (os : list snd_op) : option (list Z * t) :=
  match os with
  | [] => Some ([], l)
  | o :: os => r ← snd_run l o; rs ← snd_runs (snd r) os; Some (fst r :: fst rs, snd rs)
  end.

Fixpoint snd_specs (A : gset Z) (os : list snd_op) : list Z * gset Z :=
  match os with
  | [] => ([], A)
  | o :: os => let r := snd_spec A o in let rs := snd_specs (snd r) os in (fst r :: fst rs, snd rs)
  end.

Fixpoint snd_ops_ok (N : Z) (A : gset Z) (os : list snd_op) : Prop :=
  match os with [] => True | o :: os => snd_op_ok N A o /\ snd_ops_ok N (snd (snd_spec A o)) os end.

Lemma snd_run_models l A o :
  smodels l A -> snd_op_ok (m_iSize l) A o ->
  exists l', snd_run l o = Some (fst (snd_spec A o), l') /\ smodels l' (snd (snd_spec A o)) /\ m_iSize l' = m_iSize l.
Proof.
  intros Hm Hok. destruct o as [x1 x2|y|]; cbn [snd_run].
  - by apply snd_insert_models.
  - destruct (snd_remove_models l A y Hm Hok) as (l' & -> & Hm' & HN'). simpl. eauto.
  - by apply snd_pop_models.
Qed.

Lemma snd_runs_models l A os :
  smodels l A -> snd_ops_ok (m_iSize l) A os ->
  exists l', snd_runs l os = Some (fst (snd_specs A os), l') /\ smodels l' (snd (snd_specs A os)).
Proof.
  revert l A. induction os as [|o os IH]; intros l A Hm Hok; simpl in *; [eauto|].
  destruct Hok as [Ho Hos]. destruct (snd_run_models l A o Hm Ho) as (l1 & -> & Hm1 & Hs).
  cbn [mbind option_bind snd fst]. rewrite <- Hs in Hos.
  destruct (IH l1 _ Hm1 Hos) as (l2 & -> & Hm2). simpl. eauto.
Qed.

(** C5: the sender's loss list refines a set of packet indices. Every sequence
    of insertions, removals of a prefix and retrievals that respects the list's
    contract stays inside the array, terminates, answers as the set does (the
    number of newly recorded packets; the oldest recorded packet) and ends in a
    list that models the resulting set. *)
Theorem snd_loss_list_refines (l : t) (A : gset Z) (os : list snd_op) :
  smodels l A -> snd_ops_ok (m_iSize l) A os ->
  exists l', snd_runs l os = Some (fst (snd_specs A os), l')
    /\ smodels l' (snd (snd_specs A os))
    /\ getLossLength l' = Z.of_nat (size (snd (snd_specs A os))).
Proof.
  intros Hm Hok. destruct (snd_runs_models l A os Hm Hok) as (l' & E & Hm'). exists l'.
  split; [done|]. split; [done|]. by apply smodels_length.
Qed.

(** Overlapping ranges around the wrap-around of the sequence space. *)
Lemma snd_loss_list_refines_witness :
  exists l', snd_runs (create 0 16) [SndInsert (2 ^ 31 + 3) (2 ^ 31 + 5); SndInsert (2 ^ 31 - 2) (2 ^ 31 - 2);
      SndInsert (2 ^ 31) (2 ^ 31 + 4); SndPop; SndRemoveUpTo (2 ^ 31 + 1)]
    = Some ([3; 1; 3; 2 ^ 31 - 2; 0], l') /\ getLossLength l' = 4.
Proof.
  destruct (snd_loss_list_refines (create 0 16) ∅ [SndInsert (2 ^ 31 + 3) (2 ^ 31 + 5); SndInsert (2 ^ 31 - 2) (2 ^ 31 - 2);
      SndInsert (2 ^ 31) (2 ^ 31 + 4); SndPop; SndRemoveUpTo (2 ^ 31 + 1)]) as (l' & E & _ & Hn).
  - apply snd_create_models. lia.
  - cbn [snd_ops_ok snd_spec snd m_iSize create]. set (A3 := (∅ ∪ _ ∪ _ ∪ _)).
    assert (forall x, x ∈ A3 -> 2 ^ 31 - 2 <= x <= 2 ^ 31 + 5) as HA3.
    { intros x. unfold A3. rewrite !elem_of_union, !elem_of_range_set. set_solver by lia. }
    repeat split; try lia.
    + intros; set_solver.
    + intros; set_solver.
    + revert H. rewrite elem_of_union, elem_of_range_set. set_solver by lia.
    + revert H. rewrite elem_of_union, elem_of_range_set. set_solver by lia.
    + revert H. rewrite !elem_of_union, !elem_of_range_set. set_solver by lia.
    + revert H. rewrite !elem_of_union, !elem_of_range_set. set_solver by lia.
    + intros x Hx. assert (x ∈ A3) as Hx3 by (destruct (min_elem A3); cbn [snd] in Hx; [by apply elem_of_difference in Hx as [? _]|done]).
      specialize (HA3 x Hx3). unfold CSeqNo.m_iSeqNoTH. lia.
  - exists l'. rewrite E, Hn. split; [f_equal; f_equal; vm_compute; reflexivity|vm_compute; reflexivity].
Defined.
