(* ===== verification/SndBuffer.v ===== *)
(** * The sender's buffer (srtcore/buffer_snd.h, buffer_snd.cpp: [CSndBuffer])

    The blocks form one circular list that is only ever extended. Three pointers
    into it delimit the packets not yet acknowledged: [m_pFirstBlock] the oldest,
    [m_pCurrBlock] the first never sent, [m_pLastBlock] the first free block. The
    store is the list [blocks] in order of allocation and a pointer an index of
    it; the circular order is that of the [m_pNext] fields, so aliasing of the
    pointers is what it is in the source.

    An operation returns [None] when it would follow a pointer out of the store,
    copy past a block's memory or loop forever. Times are microseconds; the k-th
    reading of the clock by a call is [clk k]. The rate estimator, the moving
    averages and the logs are left out. The correctness proof is in
    SndBufferSpec.v. *)

From S2P Require Import Prelude SeqNo Packet.

Module CSndBuffer.

Record Block := mkBlock {
  m_pcData : list Z;        (** the memory of the block, [m_iBlockLen] bytes *)
  m_iLength : Z;
  m_iMsgNoBitset : Z;
  m_iSeqNo : Z;
  m_tsOriginTime : Z;
  m_tsRexmitTime : Z;
  m_iTTL : Z;
  m_pNext : nat
}.

Record t := mk {
  blocks : list Block;
  m_pFirstBlock : nat;
  m_pCurrBlock : nat;
  m_pLastBlock : nat;
  m_pBuffer_iSize : Z;      (** [m_pBuffer->m_iSize]: the size of the first allocation *)
  m_iNextMsgNo : Z;
  m_iSize : Z;
  m_iBlockLen : Z;
  m_iAuthTagSize : Z;
  m_iCount : Z;
  m_iBytesCount : Z;
  m_tsLastOriginTime : Z
}.

(** The fields of [SRT_MSGCTRL] the buffer uses. *)
Record MsgCtrl := mkCtrl { msgttl : Z; inorder : bool; srctime : Z; pktseq : Z; msgno : Z }.

Definition READ_NONE : Z := 0.
Definition READ_DROP : Z := -1.

Definition set_next (n : nat) (b : Block) : Block :=
  mkBlock (m_pcData b) (m_iLength b) (m_iMsgNoBitset b) (m_iSeqNo b) (m_tsOriginTime b) (m_tsRexmitTime b) (m_iTTL b) n.

Definition set_bitset (v : Z) (b : Block) : Block :=
  mkBlock (m_pcData b) (m_iLength b) v (m_iSeqNo b) (m_tsOriginTime b) (m_tsRexmitTime b) (m_iTTL b) (m_pNext b).

Definition set_rexmit (v : Z) (b : Block) : Block :=
  mkBlock (m_pcData b) (m_iLength b) (m_iMsgNoBitset b) (m_iSeqNo b) (m_tsOriginTime b) v (m_iTTL b) (m_pNext b).

Definition set_blocks (bs : list Block) (s : t) : t :=
  mk bs (m_pFirstBlock s) (m_pCurrBlock s) (m_pLastBlock s) (m_pBuffer_iSize s) (m_iNextMsgNo s) (m_iSize s)
    (m_iBlockLen s) (m_iAuthTagSize s) (m_iCount s) (m_iBytesCount s) (m_tsLastOriginTime s).

Definition set_curr (p : nat) (s : t) : t :=
  mk (blocks s) (m_pFirstBlock s) p (m_pLastBlock s) (m_pBuffer_iSize s) (m_iNextMsgNo s) (m_iSize s)
    (m_iBlockLen s) (m_iAuthTagSize s) (m_iCount s) (m_iBytesCount s) (m_tsLastOriginTime s).

Definition getMsgSeq (b : Block) : Z := Z.land (m_iMsgNoBitset b) (Bits.mask MSGNO_SEQ).

(** [new Block] leaves the fields indeterminate ([junk]). *)
Definition create (junk : Block) (size maxpld authtag : Z) : t :=
  mk ((fun i => set_next (if (Z.of_nat i <? size - 1) then S i else 0%nat) (set_bitset 0 junk)) <$> seq 0 (Z.to_nat size))
    0 0 0 size 1 size maxpld authtag 0 0 0.

Definition getMaxPacketLen (s : t) : Z := i32 (m_iBlockLen s - m_iAuthTagSize s).

Definition countNumPacketsRequired (iPldLen iPktLen : Z) : Z := Z.quot (i32 (iPldLen + iPktLen - 1)) iPktLen.

(** [unitsize] new blocks go between the last block and its successor. *)
Definition increase (junk : Block) (s : t) : option t :=
  let unitsize := m_pBuffer_iSize s in
  let n := length (blocks s) in
  last ← blocks s !! m_pLastBlock s;
  let nblk := (fun i => set_next (if Z.of_nat i <? unitsize - 1 then S (n + i) else m_pNext last) junk)
                <$> seq 0 (Z.to_nat unitsize) in
  Some (mk (<[m_pLastBlock s := set_next n last]> (blocks s) ++ nblk)
          (m_pFirstBlock s) (m_pCurrBlock s) (m_pLastBlock s) (m_pBuffer_iSize s) (m_iNextMsgNo s)
          (i32 (m_iSize s + unitsize)) (m_iBlockLen s) (m_iAuthTagSize s) (m_iCount s) (m_iBytesCount s)
          (m_tsLastOriginTime s)).

(** [while (iNumBlocks + m_iCount >= m_iSize) increase();] *)
Fixpoint make_room (fuel : nat) (junk : Block) (iNumBlocks : Z) (s : t) : option t :=
  if i32 (iNumBlocks + m_iCount s) >=? m_iSize s then
    match fuel with O => None | S f => s ← increase junk s; make_room f junk iNumBlocks s end
  else Some s.

(** [memcpy] of [src] to the start of a block's memory. *)
Definition memcpy (mem src : list Z) : option (list Z) :=
  if (length src <=? length mem)%nat then Some (src ++ drop (length src) mem) else None.

(** The message bits of fragment [i] of [n]. *)
Definition fragment_bits (base i n : Z) : Z :=
  let b := if i =? 0 then Z.lor base (PacketBoundaryBits PB_FIRST) else base in
  if i =? n - 1 then Z.lor b (PacketBoundaryBits PB_LAST) else b.

(** The length of fragment [i] of a message of [len] bytes. *)
Definition fragment_len (len iPktLen i : Z) : Z :=
  let pktlen := i32 (len - i * iPktLen) in if pktlen >? iPktLen then iPktLen else pktlen.

(** The loop of [addBuffer] from fragment [i] on, [k] fragments left: the store,
    the block after the last one filled and the next sequence number. *)
Fixpoint add_blocks (k : nat) (i : Z) (bs : list Block) (s : nat) (data : list Z) (iPktLen iNumBlocks : Z)
    (base ttl origin w_seqno : Z) : option (list Block * nat * Z) :=
  match k with
  | O => Some (bs, s, w_seqno)
  | S k =>
    b ← bs !! s;
    let pktlen := fragment_len (Z.of_nat (length data)) iPktLen i in
    mem ← memcpy (m_pcData b) (take (Z.to_nat pktlen) (drop (Z.to_nat (i * iPktLen)) data));
    let b' := mkBlock mem pktlen (fragment_bits base i iNumBlocks) w_seqno origin 0 ttl (m_pNext b) in
    add_blocks k (i + 1) (<[s := b']> bs) (m_pNext b) data iPktLen iNumBlocks base ttl origin (CSeqNo.incseq w_seqno)
  end.

(** The buffer and the control data given back to the caller. *)
Definition addBuffer (junk : Block) (data : list Z) (c : MsgCtrl) (now : Z) (s : t) : option (MsgCtrl * t) :=
  let len := Z.of_nat (length data) in
  let iPktLen := getMaxPacketLen s in
  let iNumBlocks := countNumPacketsRequired len iPktLen in
  s ← make_room (S (Z.to_nat (iNumBlocks + m_iCount s))) junk iNumBlocks s;
  let inorder_ := if inorder c then Bits.mask MSGNO_PACKET_INORDER else 0 in
  let origin := if negb (srctime c =? 0) then srctime c else now in
  let no := if msgno c =? SRT_MSGNO_NONE then m_iNextMsgNo s else msgno c in
  r ← add_blocks (Z.to_nat iNumBlocks) 0 (blocks s) (m_pLastBlock s) data iPktLen iNumBlocks
        (Z.lor no inorder_) (msgttl c) origin (pktseq c);
  let '(bs, last, seqno) := r in
  Some (mkCtrl (msgttl c) (inorder c) origin seqno no,
        mk bs (m_pFirstBlock s) (m_pCurrBlock s) last (m_pBuffer_iSize s) (MsgNo_inc no) (m_iSize s)
          (m_iBlockLen s) (m_iAuthTagSize s) (i32 (m_iCount s + iNumBlocks)) (i32 (m_iBytesCount s + len)) origin).

(** The loop of [addBufferFromFile]; [file] are the bytes the stream has left.
    A read that meets the end of the file fails the stream for the rounds after
    it: [failed]. The result: store, block after the last one filled, bytes. *)
Fixpoint add_file_blocks (k : nat) (i : Z) (failed : bool) (bs : list Block) (s : nat) (file : list Z)
    (len iPktLen iNumBlocks base total : Z) : option (list Block * nat * Z) :=
  match k with
  | O => Some (bs, s, total)
  | S k =>
    if failed then Some (bs, s, total)
    else
      let want := fragment_len len iPktLen i in
      let got := take (Z.to_nat want) file in
      let pktlen := Z.of_nat (length got) in
      if pktlen <=? 0 then Some (bs, s, total)
      else
        b ← bs !! s;
        mem ← memcpy (m_pcData b) got;
        let b' := mkBlock mem pktlen (fragment_bits base i iNumBlocks) (m_iSeqNo b) (m_tsOriginTime b)
                    (m_tsRexmitTime b) (-1) (m_pNext b) in
        add_file_blocks k (i + 1) (pktlen <? want) (<[s := b']> bs) (m_pNext b) (drop (Z.to_nat want) file)
          len iPktLen iNumBlocks base (i32 (total + pktlen))
  end.

Definition addBufferFromFile (junk : Block) (file : list Z) (len : Z) (s : t) : option (Z * t) :=
  let iPktLen := getMaxPacketLen s in
  let iNumBlocks := countNumPacketsRequired len iPktLen in
  s ← make_room (S (Z.to_nat (iNumBlocks + m_iCount s))) junk iNumBlocks s;
  r ← add_file_blocks (Z.to_nat iNumBlocks) 0 false (blocks s) (m_pLastBlock s) file len iPktLen iNumBlocks
        (Z.lor (m_iNextMsgNo s) (Bits.mask MSGNO_PACKET_INORDER)) 0;
  let '(bs, last, total) := r in
  let next := i32 (m_iNextMsgNo s + 1) in
  Some (total,
        mk bs (m_pFirstBlock s) (m_pCurrBlock s) last (m_pBuffer_iSize s)
          (if next =? Bits.mask MSGNO_SEQ then 1 else next) (m_iSize s) (m_iBlockLen s) (m_iAuthTagSize s)
          (i32 (m_iCount s + iNumBlocks)) (i32 (m_iBytesCount s + total)) (m_tsLastOriginTime s)).

(** What a read writes into the packet: it reflects the block's memory. *)
Record view := mkView { v_data : list Z; v_seqno : Z; v_msgflags : Z; v_srctime : Z }.

Definition view_of (b : Block) (len seqno : Z) : view :=
  mkView (take (Z.to_nat len) (m_pcData b)) seqno (m_iMsgNoBitset b) (m_tsOriginTime b).

Definition count_milliseconds (d : Z) : Z := Z.quot d 1000.

(** The message of a block outlived its time to live. *)
Definition expired (b : Block) (now : Z) : bool :=
  (m_iTTL b >=? 0) && (count_milliseconds (now - m_tsOriginTime b) >? m_iTTL b).

(** [readData] of the first packet never sent: the length read, the packet as
    the call leaves it (if the call wrote it) and the number of packets skipped. *)
Fixpoint read_unique (fuel : nat) (kflgs : Z) (clk : nat -> Z) (w_seqnoinc : Z) (w : option view) (s : t)
    : option (Z * option view * Z * t) :=
  if bool_decide (m_pCurrBlock s = m_pLastBlock s) then Some (0, w, w_seqnoinc, s)
  else
    match fuel with
    | O => None
    | S f =>
      b ← blocks s !! m_pCurrBlock s;
      let readlen := if kflgs =? -1 then 0 else m_iLength b in
      let b' := if kflgs =? -1 then b else set_bitset (Z.lor (m_iMsgNoBitset b) (EncryptionKeyBits kflgs)) b in
      let w := view_of b' (m_iLength b) (m_iSeqNo b) in
      let s := set_curr (m_pNext b) (set_blocks (<[m_pCurrBlock s := b']> (blocks s)) s) in
      if expired b' (clk 0%nat) then read_unique f kflgs (fun k => clk (S k)) (w_seqnoinc + 1) (Some w) s
      else Some (readlen, Some w, w_seqnoinc, s)
    end.

Definition readData (kflgs : Z) (clk : nat -> Z) (s : t) : option (Z * option view * Z * t) :=
  read_unique (Z.to_nat (m_iSize s)) kflgs clk 0 None s.

Definition peekNextOriginal (s : t) : option Z :=
  if bool_decide (m_pCurrBlock s = m_pLastBlock s) then Some 0
  else b ← blocks s !! m_pCurrBlock s; Some (m_tsOriginTime b).

(** [for (i = 0; i < offset && p != stop; ++i) p = p->m_pNext] *)
Fixpoint walk (k : nat) (bs : list Block) (stop : option nat) (p : nat) : option nat :=
  match k with
  | O => Some p
  | S k => if bool_decide (Some p = stop) then Some p else b ← bs !! p; walk k bs stop (m_pNext b)
  end.

Definition getMsgNoAt (offset : Z) (s : t) : option Z :=
  if offset >=? m_iCount s then Some SRT_MSGNO_CONTROL
  else
    p ← walk (Z.to_nat offset) (blocks s) None (m_pFirstBlock s);
    b ← blocks s !! p;
    Some (getMsgSeq b).

Record DropRange := mkDrop { drop_begin : Z; drop_end : Z; drop_msgno : Z }.

(** The blocks of the expired message after its first: message length, the
    (possibly moved) current block. *)
Fixpoint drop_message (fuel : nat) (bs : list Block) (last : nat) (no : Z) (p : nat) (move : bool) (curr : nat) (msglen : Z)
    : option (Z * nat) :=
  if bool_decide (p = last) then Some (msglen, curr)
  else
    b ← bs !! p;
    if no =? getMsgSeq b then
      match fuel with
      | O => None
      | S f =>
        let move := move || bool_decide (p = curr) in
        drop_message f bs last no (m_pNext b) move (if move then m_pNext b else curr) (msglen + 1)
      end
    else Some (msglen, curr).

Inductive read_result := RdNone | RdDrop (d : DropRange) | RdData (len : Z) (v : view).

(** [readData] of the packet at [offset], for a retransmission. *)
Definition readOld (offset seqno : Z) (clk : nat -> Z) (s : t) : option (read_result * t) :=
  p ← walk (Z.to_nat offset) (blocks s) (Some (m_pLastBlock s)) (m_pFirstBlock s);
  if bool_decide (p = m_pLastBlock s) then Some (RdNone, s)
  else
    b ← blocks s !! p;
    if expired b (clk 0%nat) then
      r ← drop_message (Z.to_nat (m_iSize s)) (blocks s) (m_pLastBlock s) (getMsgSeq b) (m_pNext b) false
            (m_pCurrBlock s) 1;
      Some (RdDrop (mkDrop seqno (CSeqNo.incseq_by seqno (fst r - 1)) (getMsgSeq b)), set_curr (snd r) s)
    else
      Some (RdData (m_iLength b) (view_of b (m_iLength b) seqno),
            set_blocks (<[p := set_rexmit (clk 1%nat) b]> (blocks s)) s).

Definition getPacketRexmitTime (offset : Z) (s : t) : option Z :=
  p ← walk (Z.to_nat offset) (blocks s) None (m_pFirstBlock s);
  b ← blocks s !! p;
  Some (m_tsRexmitTime b).

(** The loops of [ackData] and [dropLateData] over the first blocks: new first
    block, bytes removed, whether the current block was passed, packets and the
    message number of the last one. *)
Fixpoint pop_blocks (k : nat) (limit : option Z) (bs : list Block) (curr : nat) (first : nat) (bytes : Z) (move : bool)
    (pkts no : Z) : option (nat * Z * bool * Z * Z) :=
  match k with
  | O => Some (first, bytes, move, pkts, no)
  | S k =>
    b ← bs !! first;
    if match limit with Some t => m_tsOriginTime b <? t | None => true end then
      pop_blocks k limit bs curr (m_pNext b) (i32 (bytes + m_iLength b)) (move || bool_decide (first = curr))
        (pkts + 1) (getMsgSeq b)
    else Some (first, bytes, move, pkts, no)
  end.

(** The buffer after [pkts] packets of [bytes] bytes left it. *)
Definition popped (first : nat) (bytes : Z) (move : bool) (pkts : Z) (s : t) : t :=
  mk (blocks s) first (if move then first else m_pCurrBlock s) (m_pLastBlock s) (m_pBuffer_iSize s) (m_iNextMsgNo s)
    (m_iSize s) (m_iBlockLen s) (m_iAuthTagSize s) (i32 (m_iCount s - pkts)) (i32 (m_iBytesCount s - bytes))
    (m_tsLastOriginTime s).

Definition ackData (offset : Z) (s : t) : option t :=
  let offset := if offset >? m_iCount s then m_iCount s else offset in
  r ← pop_blocks (Z.to_nat offset) None (blocks s) (m_pCurrBlock s) (m_pFirstBlock s) 0 false 0 0;
  let '(first, bytes, move, _, _) := r in
  Some (popped first bytes move offset s).

(** Packets dropped, their bytes and the first message number that remains. *)
Definition dropLateData (too_late_time : Z) (s : t) : option (Z * Z * Z * t) :=
  r ← pop_blocks (Z.to_nat (m_iCount s)) (Some too_late_time) (blocks s) (m_pCurrBlock s) (m_pFirstBlock s) 0 false 0 0;
  let '(first, bytes, move, dpkts, no) := r in
  Some (dpkts, bytes, MsgNo_inc no, popped first bytes move dpkts s).

Definition getCurrBufSize (s : t) : Z := m_iCount s.

Definition getBufferingDelay (now : Z) (s : t) : option Z :=
  if m_iCount s =? 0 then Some 0
  else b ← blocks s !! m_pFirstBlock s; Some (now - m_tsOriginTime b).

(** Number of packets, bytes and the time they span in milliseconds. *)
Definition getCurrBufSizes (s : t) : option (Z * Z * Z) :=
  if 0 <? m_iCount s then
    b ← blocks s !! m_pFirstBlock s;
    Some (m_iCount s, m_iBytesCount s, i32 (count_milliseconds (m_tsLastOriginTime s - m_tsOriginTime b) + 1))
  else Some (m_iCount s, m_iBytesCount s, 0).

End CSndBuffer.
