(* ===== verification/SndBufferSpec.v ===== *)
(** * Correctness of the sender's buffer

    The abstract buffer is the list of packets not yet acknowledged with the
    number of those already sent. The representation relation [brep] says which
    circular list of blocks stands for it; every operation of [CSndBuffer] is
    shown to stay inside the store, to terminate and to act as the corresponding
    operation on the abstract buffer. *)

From S2P Require Import Prelude SeqNo Packet SndBuffer.
Import CSndBuffer.

(** ** Paths of blocks *)

Section Paths.

Implicit Types (bs : list Block) (ps : list nat) (p e : nat).

Definition fst_or (e : nat) (ps : list nat) : nat := match ps with [] => e | p :: _ => p end.

Definition nxt (bs : list Block) (p : nat) : option nat := m_pNext <$> bs !! p.

(** The blocks [ps] follow each other and lead to [e]. *)
Fixpoint links (bs : list Block) (ps : list nat) (e : nat) : Prop :=
  match ps with [] => True | p :: ps => nxt bs p = Some (fst_or e ps) /\ links bs ps e end.

Lemma fst_or_app e l1 l2 : fst_or e (l1 ++ l2) = fst_or (fst_or e l2) l1.
Proof. by destruct l1. Qed.

Lemma links_app bs l1 l2 e : links bs (l1 ++ l2) e <-> links bs l1 (fst_or e l2) /\ links bs l2 e.
Proof. induction l1 as [|p l1 IH]; simpl; [tauto|]. rewrite fst_or_app, IH. tauto. Qed.

Lemma links_ext bs bs' ps e : (forall p, p ∈ ps -> nxt bs' p = nxt bs p) -> links bs ps e -> links bs' ps e.
Proof.
  induction ps as [|p ps IH]; simpl; [done|]. intros Hn [H1 H2]. split; [rewrite Hn; [done|set_solver]|].
  apply IH; [|done]. intros q Hq. apply Hn. set_solver.
Qed.

Lemma links_drop bs ps e k : links bs ps e -> links bs (drop k ps) e.
Proof. revert k. induction ps as [|p ps IH]; intros [|k]; simpl; try done. intros [_ H]. by apply IH. Qed.

Lemma nxt_Some bs p q : nxt bs p = Some q -> exists b, bs !! p = Some b /\ m_pNext b = q.
Proof. unfold nxt. intros (b & Hb & ->)%fmap_Some. eauto. Qed.

Lemma nxt_insert bs p b b' q : bs !! p = Some b -> m_pNext b' = m_pNext b -> nxt (<[p := b']> bs) q = nxt bs q.
Proof.
  unfold nxt. intros Hp Hn. destruct (decide (q = p)) as [->|Hne].
  - rewrite list_lookup_insert_eq by (by eapply lookup_lt_Some). rewrite Hp. simpl. by rewrite Hn.
  - by rewrite list_lookup_insert_ne.
Qed.

Lemma fst_or_drop_ne ps e k : e ∉ ps -> (k < length ps)%nat -> fst_or e (drop k ps) <> e.
Proof.
  intros He Hk. destruct (lookup_lt_is_Some_2 ps k Hk) as [p Hp]. rewrite (drop_S _ _ _ Hp). simpl.
  intros ->. apply He. by eapply list_elem_of_lookup_2.
Qed.

Lemma fst_or_drop_end ps e k : (length ps <= k)%nat -> fst_or e (drop k ps) = e.
Proof. intros. by rewrite drop_ge. Qed.

End Paths.

(** ** The abstract buffer *)

Record item := mkItem {
  it_data : list Z; it_bits : Z; it_seq : Z; it_origin : Z; it_rexmit : Z; it_ttl : Z
}.

Record queue := mkQueue { items : list item; sent : nat; next_msgno : Z; last_origin : Z }.

Definition item_of (b : Block) : item :=
  mkItem (take (Z.to_nat (m_iLength b)) (m_pcData b)) (m_iMsgNoBitset b) (m_iSeqNo b) (m_tsOriginTime b)
    (m_tsRexmitTime b) (m_iTTL b).

Definition it_msgno (it : item) : Z := Z.land (it_bits it) (Bits.mask MSGNO_SEQ).

Definition it_len (it : item) : Z := Z.of_nat (length (it_data it)).

Definition it_expired (it : item) (now : Z) : bool :=
  (it_ttl it >=? 0) && (count_milliseconds (now - it_origin it) >? it_ttl it).

Fixpoint total_len (its : list item) : Z :=
  match its with [] => 0 | it :: its => it_len it + total_len its end.

Lemma total_len_app l1 l2 : total_len (l1 ++ l2) = total_len l1 + total_len l2.
Proof. induction l1; simpl; lia. Qed.

(** Block [p] holds packet [it]. *)
Definition holds (bs : list Block) (p : nat) (it : item) : Prop :=
  exists b, bs !! p = Some b /\ item_of b = it /\ m_iLength b = it_len it.

Definition mem_ok (bs : list Block) (n : Z) : Prop :=
  forall p b, bs !! p = Some b -> Z.of_nat (length (m_pcData b)) = n.

(** ** The representation *)

Record brep (s : t) (ring : list nat) (q : queue) : Prop := mkBrep {
  b_size : 0 < m_pBuffer_iSize s <= m_iSize s /\ m_iSize s <= 2 ^ 30;
  b_ring : NoDup ring /\ length ring = length (blocks s) /\ Z.of_nat (length ring) = m_iSize s;
  b_links : links (blocks s) ring (fst_or 0 ring);
  b_mem : mem_ok (blocks s) (m_iBlockLen s);
  b_items : Forall2 (holds (blocks s)) (take (length (items q)) ring) (items q);
  b_first : m_pFirstBlock s = fst_or 0 ring;
  b_last : ring !! length (items q) = Some (m_pLastBlock s);
  b_curr : ring !! sent q = Some (m_pCurrBlock s);
  b_sent : (sent q <= length (items q))%nat;
  b_count : m_iCount s = Z.of_nat (length (items q));
  b_bytes : m_iBytesCount s = i32 (total_len (items q));
  b_msgno : m_iNextMsgNo s = next_msgno q;
  b_origin : m_tsLastOriginTime s = last_origin q
}.

(** The ring cut at the last block: packets, the last block, free blocks. *)
Lemma brep_split s ring q :
  brep s ring q ->
  exists used free, ring = used ++ m_pLastBlock s :: free /\ length used = length (items q)
    /\ Forall2 (holds (blocks s)) used (items q)
    /\ m_pFirstBlock s = fst_or (m_pLastBlock s) used
    /\ m_pCurrBlock s = fst_or (m_pLastBlock s) (drop (sent q) used)
    /\ links (blocks s) used (m_pLastBlock s)
    /\ links (blocks s) (m_pLastBlock s :: free) (m_pFirstBlock s)
    /\ m_pLastBlock s ∉ used /\ NoDup used.
Proof.
  intros R. pose proof (b_last _ _ _ R) as HL. pose proof (lookup_lt_Some _ _ _ HL) as Hlt.
  pose proof (take_drop_middle _ _ _ HL) as Hring. set (used := take (length (items q)) ring) in *.
  set (free := drop (S (length (items q))) ring) in *. exists used, free.
  assert (length used = length (items q)) as Hlen by (apply length_take_le; lia).
  destruct (b_ring _ _ _ R) as (Hnd & _ & _). rewrite <- Hring in Hnd.
  apply list.NoDup_app in Hnd as (Hnd & Hdis & _).
  pose proof (b_links _ _ _ R) as Hl. rewrite <- Hring, links_app in Hl. simpl fst_or in Hl. destruct Hl as [Hl1 Hl2].
  assert (m_pFirstBlock s = fst_or (m_pLastBlock s) used) as Hf
    by (rewrite (b_first _ _ _ R), <- Hring, fst_or_app; done).
  split_and!; try done.
  - exact (b_items _ _ _ R).
  - pose proof (b_curr _ _ _ R) as Hc. rewrite <- Hring in Hc. destruct (decide (sent q = length (items q))) as [E|N].
    + rewrite fst_or_drop_end by lia. rewrite E, <- Hlen, list_lookup_middle in Hc by done. congruence.
    + pose proof (b_sent _ _ _ R). rewrite lookup_app_l in Hc by lia. by rewrite (drop_S _ _ _ Hc).
  - rewrite Hf. simpl in Hl2 |- *. rewrite fst_or_app in Hl2. done.
  - intros Hin. apply (Hdis _ Hin). set_solver.
Qed.

(** And put together again. *)
Lemma brep_join s q used free :
  0 < m_pBuffer_iSize s <= m_iSize s /\ m_iSize s <= 2 ^ 30 ->
  NoDup (used ++ m_pLastBlock s :: free) -> length (used ++ m_pLastBlock s :: free) = length (blocks s) ->
  Z.of_nat (length (blocks s)) = m_iSize s ->
  links (blocks s) used (m_pLastBlock s) ->
  links (blocks s) (m_pLastBlock s :: free) (m_pFirstBlock s) ->
  mem_ok (blocks s) (m_iBlockLen s) ->
  Forall2 (holds (blocks s)) used (items q) ->
  m_pFirstBlock s = fst_or (m_pLastBlock s) used ->
  m_pCurrBlock s = fst_or (m_pLastBlock s) (drop (sent q) used) -> (sent q <= length (items q))%nat ->
  m_iCount s = Z.of_nat (length (items q)) -> m_iBytesCount s = i32 (total_len (items q)) ->
  m_iNextMsgNo s = next_msgno q -> m_tsLastOriginTime s = last_origin q ->
  brep s (used ++ m_pLastBlock s :: free) q.
Proof.
  intros Hs Hnd Hlen Hsz Hl1 Hl2 Hm Hit Hf Hc Hsent ? ? ? ?. assert (length used = length (items q)) as Hli by (by eapply Forall2_length).
  assert (fst_or 0 (used ++ m_pLastBlock s :: free) = m_pFirstBlock s) as Hfo by (rewrite fst_or_app; done).
  constructor; try done.
  - split_and!; [done|done|lia].
  - rewrite Hfo. apply links_app. done.
  - by rewrite take_app_length'.
  - rewrite list_lookup_middle; done.
  - destruct (decide (sent q = length (items q))) as [E|N].
    + rewrite fst_or_drop_end in Hc by lia. rewrite list_lookup_middle by lia. congruence.
    + destruct (lookup_lt_is_Some_2 used (sent q)) as [p Hp]; [lia|].
      rewrite lookup_app_l, Hp by lia. rewrite (drop_S _ _ _ Hp) in Hc. simpl in Hc. congruence.
Qed.

(** ** Growing *)

Lemma holds_ext bs bs' p it : bs' !! p = bs !! p -> holds bs p it -> holds bs' p it.
Proof. unfold holds. by intros ->. Qed.

Lemma holds_all_ext bs bs' ps its :
  (forall p, p ∈ ps -> bs' !! p = bs !! p) -> Forall2 (holds bs) ps its -> Forall2 (holds bs') ps its.
Proof.
  intros He H. induction H as [|p it ps its H1 H2 IH]; constructor.
  - eapply holds_ext; [|done]. apply He. set_solver.
  - apply IH. intros r Hr. apply He. set_solver.
Qed.

(** A block whose link field changes holds the same packet. *)
Lemma holds_next bs p b n r it :
  bs !! p = Some b -> holds bs r it -> holds (<[p := set_next n b]> bs) r it.
Proof.
  intros Hp (b' & Hb' & Hi & Hl). destruct (decide (r = p)) as [->|Hne].
  - exists (set_next n b). rewrite list_lookup_insert_eq by (by eapply lookup_lt_Some).
    assert (b' = b) as -> by congruence. done.
  - exists b'. by rewrite list_lookup_insert_ne.
Qed.

Lemma holds_weaken bs bs' p it : holds bs p it -> holds (bs ++ bs') p it.
Proof.
  intros (b & Hb & H). exists b. rewrite lookup_app_l by (by eapply lookup_lt_Some). done.
Qed.

Lemma ring_bounds s ring q p : brep s ring q -> p ∈ ring -> (p < length (blocks s))%nat.
Proof.
  intros R Hp. pose proof (b_links _ _ _ R) as Hl. apply list_elem_of_split in Hp as (l1 & l2 & ->).
  apply links_app in Hl as [_ [(b & Hb & _)%nxt_Some _]]. by eapply lookup_lt_Some.
Qed.

Definition new_links (n u : nat) (e : nat) (i : nat) : nat := if Z.of_nat i <? Z.of_nat u - 1 then S (n + i) else e.

(** The chain of new blocks. *)
Lemma links_new bs junk n u e :
  length bs = n ->
  forall k j, (j + k = u)%nat -> links (bs ++ ((fun i => set_next (new_links n u e i) junk) <$> seq 0 u)) (seq (n + j) k) e.
Proof.
  intros Hn. induction k as [|k IH]; intros j Hj; simpl; [done|]. split.
  - unfold nxt. rewrite lookup_app_r by lia. replace (n + j - length bs)%nat with j by lia.
    rewrite list_lookup_fmap, lookup_seq_lt by lia. simpl. f_equal. unfold new_links.
    destruct k; simpl; [destruct (Z.ltb_spec (Z.of_nat j) (Z.of_nat u - 1)); [lia|done]|].
    destruct (Z.ltb_spec (Z.of_nat j) (Z.of_nat u - 1)); [lia|lia].
  - replace (S (n + j)) with (n + S j)%nat by lia. apply IH. lia.
Qed.

Lemma increase_rep junk s ring q :
  brep s ring q -> m_iSize s + m_pBuffer_iSize s <= 2 ^ 30 -> Z.of_nat (length (m_pcData junk)) = m_iBlockLen s ->
  exists s' ring', increase junk s = Some s' /\ brep s' ring' q
    /\ m_iSize s' = m_iSize s + m_pBuffer_iSize s /\ m_pBuffer_iSize s' = m_pBuffer_iSize s
    /\ m_iCount s' = m_iCount s /\ m_iBlockLen s' = m_iBlockLen s /\ m_iAuthTagSize s' = m_iAuthTagSize s.
Proof.
  intros R Hsz Hj. destruct (brep_split _ _ _ R) as (used & free & Hring & Hlen & Hit & Hf & Hc & Hl1 & Hl2 & HnL & Hnd).
  pose proof (ring_bounds _ _ _ (m_pLastBlock s) R ltac:(rewrite Hring; set_solver)) as HLb.
  destruct (lookup_lt_is_Some_2 _ _ HLb) as [lb Hlb]. destruct (b_size _ _ _ R) as [Hu Hs].
  destruct (b_ring _ _ _ R) as (Hnd0 & HlenR & HszR). rewrite Hring in Hnd0, HlenR, HszR.
  set (n := length (blocks s)) in *. set (u := Z.to_nat (m_pBuffer_iSize s)).
  assert (m_pNext lb = fst_or (m_pFirstBlock s) free) as Hnext.
  { destruct Hl2 as [(b & Hb & Hb')%nxt_Some _]. congruence. }
  set (nblk := (fun i => set_next (new_links n u (m_pNext lb) i) junk) <$> seq 0 u).
  set (bs := <[m_pLastBlock s := set_next n lb]> (blocks s) ++ nblk).
  eexists _, (used ++ m_pLastBlock s :: (seq n u ++ free)).
  assert (increase junk s = Some (mk bs (m_pFirstBlock s) (m_pCurrBlock s) (m_pLastBlock s) (m_pBuffer_iSize s)
            (m_iNextMsgNo s) (m_iSize s + m_pBuffer_iSize s) (m_iBlockLen s) (m_iAuthTagSize s) (m_iCount s)
            (m_iBytesCount s) (m_tsLastOriginTime s))) as ->.
  { unfold increase. rewrite Hlb. cbn [mbind option_bind]. rewrite i32_id by (unfold is_i32; lia).
    unfold bs, nblk, new_links, u. rewrite Z2Nat.id by lia. done. }
  split; [done|]. split; [|done].
  assert (length (<[m_pLastBlock s := set_next n lb]> (blocks s)) = n) as Hn' by apply length_insert.
  assert (forall p, (p < n)%nat -> p <> m_pLastBlock s -> bs !! p = blocks s !! p) as Hold.
  { intros p Hp Hne. unfold bs. rewrite lookup_app_l by (by rewrite Hn'). by rewrite list_lookup_insert_ne. }
  assert (length bs = (n + u)%nat) as Hlbs
    by (unfold bs, nblk; rewrite length_app, Hn', length_fmap, length_seq; done).
  assert (forall p, p ∈ used -> bs !! p = blocks s !! p) as Hused.
  { intros p Hp. apply Hold; [|intros ->; done]. apply (ring_bounds _ _ _ p R). rewrite Hring. set_solver. }
  assert (forall p, p ∈ free -> nxt bs p = nxt (blocks s) p) as Hfree.
  { intros p Hp. unfold nxt. rewrite Hold; [done| |].
    - apply (ring_bounds _ _ _ p R). rewrite Hring. set_solver.
    - intros ->. apply list.NoDup_app in Hnd0 as (_ & _ & Hnd0). apply list.NoDup_cons in Hnd0 as [? _]. done. }
  apply (brep_join (mk bs (m_pFirstBlock s) (m_pCurrBlock s) (m_pLastBlock s) (m_pBuffer_iSize s)
            (m_iNextMsgNo s) (m_iSize s + m_pBuffer_iSize s) (m_iBlockLen s) (m_iAuthTagSize s) (m_iCount s)
            (m_iBytesCount s) (m_tsLastOriginTime s)) q used (seq n u ++ free)); cbn [m_pBuffer_iSize m_iSize blocks
      m_pLastBlock m_pFirstBlock m_iBlockLen m_pCurrBlock m_iCount m_iBytesCount m_iNextMsgNo m_tsLastOriginTime];
    try first [exact Hf | exact Hc | apply R].
  - lia.
  - apply list.NoDup_app in Hnd0 as (H1 & H2 & H3). apply list.NoDup_cons in H3 as [H3 H4].
    assert (forall p, p ∈ seq n u -> p ∉ ring) as Hnew.
    { intros p Hp%list_elem_of_In%in_seq Hin. pose proof (ring_bounds _ _ _ p R Hin). lia. }
    rewrite Hring in Hnew. apply list.NoDup_app. split_and!; [done| |].
    + intros x Hx [->|[Hs'|Hs']%elem_of_app]%elem_of_cons; [done| |]; [apply (Hnew x Hs'); set_solver|].
      apply (H2 x Hx). set_solver.
    + apply list.NoDup_cons. split.
      * intros [Hs'|?]%elem_of_app; [|done]. apply (Hnew _ Hs'). set_solver.
      * apply list.NoDup_app. split_and!; [apply NoDup_seq| |done]. intros x Hx Hf'. apply (Hnew x Hx). set_solver.
  - rewrite Hlbs, <- HlenR, !length_app. simpl. rewrite length_app, length_seq. lia.
  - rewrite Hlbs. unfold u. lia.
  - eapply links_ext; [|exact Hl1]. intros p Hp. unfold nxt. by rewrite Hused.
  - simpl. split.
    + unfold nxt, bs. rewrite lookup_app_l by (by rewrite Hn'). rewrite list_lookup_insert_eq by done. simpl. f_equal.
      destruct u as [|u'] eqn:Eu; [unfold u in Eu; lia|]. done.
    + apply links_app. split; [|eapply links_ext; [exact Hfree|apply Hl2]].
      rewrite <- Hnext. pose proof (links_new _ junk n u (m_pNext lb) Hn' u 0 eq_refl) as HN. by rewrite Nat.add_0_r in HN.
  - intros p b. unfold bs. rewrite lookup_app_Some. intros [Hp|[_ Hp]].
    + destruct (decide (p = m_pLastBlock s)) as [->|Hne].
      * rewrite list_lookup_insert_eq in Hp by done. injection Hp as <-. by apply (b_mem _ _ _ R _ _ Hlb).
      * rewrite list_lookup_insert_ne in Hp by done. by apply (b_mem _ _ _ R _ _ Hp).
    + unfold nblk in Hp. apply list_lookup_fmap_Some in Hp as (i & -> & _). done.
  - eapply holds_all_ext; [exact Hused|done].
Qed.

Lemma make_room_rep fuel junk n s ring q :
  brep s ring q -> 0 <= n -> m_iCount s + n + m_pBuffer_iSize s <= 2 ^ 30 ->
  Z.of_nat (length (m_pcData junk)) = m_iBlockLen s -> m_iCount s + n - m_iSize s < Z.of_nat fuel ->
  exists s' ring', make_room fuel junk n s = Some s' /\ brep s' ring' q /\ m_iCount s + n < m_iSize s'
    /\ m_iBlockLen s' = m_iBlockLen s /\ m_iAuthTagSize s' = m_iAuthTagSize s
    /\ m_pBuffer_iSize s' = m_pBuffer_iSize s.
Proof.
  revert s ring. induction fuel as [|f IH]; intros s ring R Hn Hb Hj Hfuel; cbn [make_room];
    pose proof (b_count _ _ _ R) as Hcnt; destruct (b_size _ _ _ R) as [Hu Hs];
    rewrite i32_id by (unfold is_i32; lia); rewrite Z.geb_leb;
    destruct (Z.leb_spec (m_iSize s) (n + m_iCount s)); try lia.
  - exists s, ring. split_and!; try done; lia.
  - destruct (increase_rep junk s ring q R ltac:(lia) Hj) as (s1 & ring1 & -> & R1 & Hs1 & Hu1 & Hc1 & Hb1 & Ha1).
    cbn [mbind option_bind].
    destruct (IH s1 ring1 R1 Hn) as (s2 & ring2 & E & R2 & H2 & Hb2 & Ha2 & Hu2); [rewrite Hc1, Hu1; lia|congruence|lia|].
    exists s2, ring2. rewrite Hc1 in H2. split_and!; try done; congruence.
  - exists s, ring. split_and!; try done; lia.
Qed.

(** ** Adding a message *)

(** Fragment [i] of a message of [n] packets of at most [cap] bytes. *)
Definition fragment (data : list Z) (cap n base origin ttl x i : Z) : item :=
  mkItem (take (Z.to_nat cap) (drop (Z.to_nat (i * cap)) data)) (fragment_bits base i n)
    (Nat.iter (Z.to_nat i) CSeqNo.incseq x) origin 0 ttl.

Definition fragments (data : list Z) (cap n base origin ttl x : Z) : list item :=
  fragment data cap n base origin ttl x <$> seqZ 0 n.

Lemma num_blocks len cap : 0 < cap < 2 ^ 30 -> 0 <= len < 2 ^ 30 ->
  0 <= countNumPacketsRequired len cap /\ (countNumPacketsRequired len cap - 1) * cap < len
  /\ len <= countNumPacketsRequired len cap * cap.
Proof.
  intros. unfold countNumPacketsRequired. rewrite i32_id by (unfold is_i32; lia). rewrite Z.quot_div_nonneg by lia.
  pose proof (Z.div_mod (len + cap - 1) cap ltac:(lia)). pose proof (Z.mod_pos_bound (len + cap - 1) cap ltac:(lia)).
  pose proof (Z.div_pos (len + cap - 1) cap ltac:(lia) ltac:(lia)). nia.
Qed.

Lemma fragment_slice (data : list Z) cap i :
  0 < cap < 2 ^ 30 -> 0 <= i -> Z.of_nat (length data) < 2 ^ 30 -> i * cap < Z.of_nat (length data) ->
  let pktlen := fragment_len (Z.of_nat (length data)) cap i in
  take (Z.to_nat pktlen) (drop (Z.to_nat (i * cap)) data) = take (Z.to_nat cap) (drop (Z.to_nat (i * cap)) data)
  /\ pktlen = Z.of_nat (length (take (Z.to_nat cap) (drop (Z.to_nat (i * cap)) data)))
  /\ 0 < pktlen <= cap.
Proof.
  intros Hc Hi Hd Hlt. assert (0 <= i * cap) by nia. unfold fragment_len. rewrite i32_id by (unfold is_i32; lia).
  rewrite Z.gtb_ltb, length_take, length_drop.
  destruct (Z.ltb_spec cap (Z.of_nat (length data) - i * cap)); split_and!; try lia; [done|].
  rewrite !take_ge; [done| |]; rewrite length_drop; lia.
Qed.

Section AddBlocks.

Context (data : list Z) (cap n base origin ttl x bl : Z).
Context (Hcap : 0 < cap < 2 ^ 30) (Hlen : Z.of_nat (length data) < 2 ^ 30) (Hbl : cap <= bl).
Context (Hn : (n - 1) * cap < Z.of_nat (length data)).

Lemma add_blocks_rep ps i bs e :
  links bs ps e -> NoDup ps -> mem_ok bs bl -> 0 <= i -> i + Z.of_nat (length ps) <= n ->
  exists bs', add_blocks (length ps) i bs (fst_or e ps) data cap n base ttl origin (Nat.iter (Z.to_nat i) CSeqNo.incseq x)
      = Some (bs', e, Nat.iter (Z.to_nat i + length ps) CSeqNo.incseq x)
    /\ (forall p, p ∉ ps -> bs' !! p = bs !! p) /\ (forall p, nxt bs' p = nxt bs p) /\ length bs' = length bs
    /\ mem_ok bs' bl
    /\ Forall2 (holds bs') ps (fragment data cap n base origin ttl x <$> seqZ i (Z.of_nat (length ps))).
Proof using All.
  revert i bs. induction ps as [|p ps IH]; intros i bs Hl Hnd Hm Hi Hin.
  { exists bs. simpl. rewrite Nat.add_0_r. split_and!; done. }
  destruct Hl as [(b & Hb & Hnb)%nxt_Some Hl]. apply list.NoDup_cons in Hnd as [Hp Hnd].
  cbn [length add_blocks fst_or]. rewrite Hb. cbn [mbind option_bind]. cbn [length] in Hin.
  assert (i * cap <= (n - 1) * cap) as Hic by nia.
  destruct (fragment_slice data cap i Hcap Hi Hlen ltac:(lia)) as (Hs1 & Hs2 & Hs3). rewrite Hs1.
  set (sl := take (Z.to_nat cap) (drop (Z.to_nat (i * cap)) data)) in *.
  set (pl := fragment_len (Z.of_nat (length data)) cap i) in *.
  pose proof (Hm _ _ Hb) as Hmb.
  unfold memcpy. destruct (Nat.leb_spec (length sl) (length (m_pcData b))); [|lia].
  cbn [mbind option_bind]. rewrite Hnb.
  set (b' := mkBlock (sl ++ drop (length sl) (m_pcData b)) pl (fragment_bits base i n)
               (Nat.iter (Z.to_nat i) CSeqNo.incseq x) origin 0 ttl (fst_or e ps)).
  assert (forall r, nxt (<[p := b']> bs) r = nxt bs r) as Hnx by (intros r; by eapply nxt_insert).
  destruct (IH (i + 1) (<[p := b']> bs)) as (bs' & E & Hout & Hnx' & Hlb & Hm' & Hh).
  - eapply links_ext; [|exact Hl]. done.
  - done.
  - intros r br. destruct (decide (r = p)) as [->|Hne].
    + rewrite list_lookup_insert_eq by (by eapply lookup_lt_Some). intros [= <-]. simpl. rewrite length_app, length_drop. lia.
    + rewrite list_lookup_insert_ne by done. apply Hm.
  - lia.
  - lia.
  - exists bs'. replace (CSeqNo.incseq (Nat.iter (Z.to_nat i) CSeqNo.incseq x)) with (Nat.iter (Z.to_nat (i + 1)) CSeqNo.incseq x)
      by (rewrite Z2Nat.inj_add, Nat.add_1_r by lia; done).
    rewrite E. split; [do 2 f_equal; f_equal; lia|]. split_and!.
    + intros r Hr. rewrite Hout by set_solver. apply list_lookup_insert_ne. set_solver.
    + intros r. by rewrite Hnx', Hnx.
    + rewrite Hlb. apply length_insert.
    + done.
    + rewrite seqZ_cons by lia. rewrite fmap_cons. constructor.
      * exists b'. rewrite Hout by done. rewrite list_lookup_insert_eq by (by eapply lookup_lt_Some). split; [done|].
        split; [|done]. unfold item_of, fragment, b'. cbn [m_pcData m_iLength m_iMsgNoBitset m_iSeqNo m_tsOriginTime m_tsRexmitTime m_iTTL].
        f_equal. rewrite Hs2, Nat2Z.id. apply take_app_length.
      * replace (Z.succ i) with (i + 1) by lia. replace (Z.pred (Z.of_nat (S (length ps)))) with (Z.of_nat (length ps)) by lia. done.
Qed.

End AddBlocks.

(** The abstract [addBuffer]. *)
Definition spec_add (cap : Z) (data : list Z) (c : MsgCtrl) (now : Z) (q : queue) : MsgCtrl * queue :=
  let n := countNumPacketsRequired (Z.of_nat (length data)) cap in
  let origin := if srctime c =? 0 then now else srctime c in
  let no := if msgno c =? SRT_MSGNO_NONE then next_msgno q else msgno c in
  let base := Z.lor no (if inorder c then Bits.mask MSGNO_PACKET_INORDER else 0) in
  (mkCtrl (msgttl c) (inorder c) origin (Nat.iter (Z.to_nat n) CSeqNo.incseq (pktseq c)) no,
   mkQueue (items q ++ fragments data cap n base origin (msgttl c) (pktseq c)) (sent q) (MsgNo_inc no) origin).

Lemma length_fragments data cap n base origin ttl x : 0 <= n ->
  length (fragments data cap n base origin ttl x) = Z.to_nat n.
Proof. intros. unfold fragments. by rewrite length_fmap, length_seqZ. Qed.

(** The payloads of the fragments are the message. *)
Lemma fragments_data (data : list Z) cap n base origin ttl x :
  0 < cap -> 0 <= n -> Z.of_nat (length data) <= n * cap ->
  concat (it_data <$> fragments data cap n base origin ttl x) = data.
Proof.
  intros Hc Hn Hl. unfold fragments. rewrite <- list_fmap_compose. unfold compose, fragment. cbn [it_data].
  assert (forall k i, 0 <= i -> Z.of_nat (length data) <= (i + Z.of_nat k) * cap ->
    concat ((fun j => take (Z.to_nat cap) (drop (Z.to_nat (j * cap)) data)) <$> seqZ i (Z.of_nat k))
      = drop (Z.to_nat (i * cap)) data) as H.
  { induction k as [|k IH]; intros i Hi Hb.
    - simpl. symmetry. apply drop_ge. nia.
    - rewrite seqZ_cons by lia. rewrite fmap_cons. cbn [concat].
      replace (Z.pred (Z.of_nat (S k))) with (Z.of_nat k) by lia. rewrite IH by nia.
      replace (Z.to_nat (Z.succ i * cap)) with (Z.to_nat (i * cap) + Z.to_nat cap)%nat by nia.
      rewrite <- drop_drop. apply take_drop. }
  specialize (H (Z.to_nat n) 0). rewrite Z2Nat.id in H by done. rewrite H by lia. done.
Qed.

Lemma total_len_concat its : total_len its = Z.of_nat (length (concat (it_data <$> its))).
Proof.
  induction its as [|it its IH]; [done|]. rewrite fmap_cons. cbn [total_len concat]. rewrite length_app, IH. unfold it_len. lia.
Qed.

Lemma fragments_total data cap n base origin ttl x :
  0 < cap -> 0 <= n -> Z.of_nat (length data) <= n * cap ->
  total_len (fragments data cap n base origin ttl x) = Z.of_nat (length data).
Proof.
  intros Hc Hn Hl. rewrite <- (fragments_data data cap n base origin ttl x Hc Hn Hl) at 2.
  apply total_len_concat.
Qed.

(** What the caller of [addBuffer] respects. *)
Definition add_ok (s : t) (data : list Z) : Prop :=
  0 <= m_iAuthTagSize s < m_iBlockLen s /\ m_iBlockLen s < 2 ^ 30 /\ Z.of_nat (length data) < 2 ^ 30
  /\ m_iCount s + countNumPacketsRequired (Z.of_nat (length data)) (m_iBlockLen s - m_iAuthTagSize s)
     + m_pBuffer_iSize s <= 2 ^ 30.

Lemma addBuffer_rep junk data c now s ring q :
  brep s ring q -> add_ok s data -> Z.of_nat (length (m_pcData junk)) = m_iBlockLen s ->
  exists s' ring', addBuffer junk data c now s = Some (fst (spec_add (m_iBlockLen s - m_iAuthTagSize s) data c now q), s')
    /\ brep s' ring' (snd (spec_add (m_iBlockLen s - m_iAuthTagSize s) data c now q))
    /\ m_iBlockLen s' = m_iBlockLen s /\ m_iAuthTagSize s' = m_iAuthTagSize s
    /\ m_pBuffer_iSize s' = m_pBuffer_iSize s.
Proof.
  intros R (Ha & Hb & Hd & Hc) Hj. unfold addBuffer, getMaxPacketLen. rewrite (i32_id (m_iBlockLen s - _)) by (unfold is_i32; lia).
  set (cap := m_iBlockLen s - m_iAuthTagSize s) in *.
  set (n := countNumPacketsRequired (Z.of_nat (length data)) cap) in *.
  destruct (num_blocks (Z.of_nat (length data)) cap ltac:(lia) ltac:(lia)) as (Hn & Hn1 & Hn2). fold n in Hn, Hn1, Hn2.
  pose proof (b_count _ _ _ R) as Hcnt.
  destruct (make_room_rep (S (Z.to_nat (n + m_iCount s))) junk n s ring q R Hn ltac:(lia) Hj) as (s1 & ring1 & -> & R1 & Hs1 & Hb1 & Ha1 & Hu1).
  { destruct (b_size _ _ _ R). lia. }
  cbn [mbind option_bind]. pose proof (b_count _ _ _ R1) as Hcnt1. rewrite (b_msgno _ _ _ R1), Ha1, Hb1, Hu1.
  destruct (brep_split _ _ _ R1) as (used & free & Hring & Hlu & Hit & Hf & Hcu & Hl1 & Hl2 & HnL & Hnd).
  destruct (b_ring _ _ _ R1) as (Hnd1 & Hlr & Hls). destruct (b_size _ _ _ R1) as [Hz1 Hz2].
  rewrite Hring in Hlr, Hls. rewrite length_app in Hlr, Hls. cbn [length] in Hlr, Hls.
  set (path := m_pLastBlock s1 :: free) in *.
  destruct (lookup_lt_is_Some_2 path (Z.to_nat n)) as [e He]; [unfold path; simpl; lia|].
  pose proof (take_drop_middle _ _ _ He) as Hpath. set (ps := take (Z.to_nat n) path) in *. set (free' := drop (S (Z.to_nat n)) path) in *.
  assert (length ps = Z.to_nat n) as Hlps by (apply length_take_le; unfold path; simpl; lia).
  assert (m_pLastBlock s1 = fst_or e ps) as HL by (transitivity (fst_or 0 path); [done|]; by rewrite <- Hpath, fst_or_app).
  rewrite Hring, <- Hpath in Hnd1. apply list.NoDup_app in Hnd1 as (_ & Hdis & Hnd2).
  pose proof Hl2 as Hl3. rewrite <- Hpath, links_app in Hl3. destruct Hl3 as [Hl3 Hl4].
  pose proof Hnd2 as Hnd3. apply list.NoDup_app in Hnd3 as (Hnd3 & Hdis3 & Hnd4).
  set (base := Z.lor _ _). set (origin := if negb (srctime c =? 0) then srctime c else now).
  assert (origin = if srctime c =? 0 then now else srctime c) as Horg by (unfold origin; by destruct (srctime c =? 0)).
  destruct (add_blocks_rep data cap n base origin (msgttl c) (pktseq c) (m_iBlockLen s1)
              ltac:(lia) Hd ltac:(lia) ltac:(lia) ps 0 (blocks s1) e Hl3 Hnd3 (b_mem _ _ _ R1) ltac:(lia) ltac:(lia))
    as (bs' & E & Hout & Hnx & Hlb & Hm & Hh).
  rewrite Hlps, <- HL in E. change (Nat.iter (Z.to_nat 0) CSeqNo.incseq (pktseq c)) with (pktseq c) in E. rewrite E. cbn [mbind option_bind].
  unfold spec_add. fold n. cbn [fst snd]. rewrite <- Horg.
  set (s' := mk bs' _ _ _ _ _ _ _ _ _ _ _). exists s', ((used ++ ps) ++ m_pLastBlock s' :: free').
  split; [done|]. split; [|done].
  assert (used ++ path = (used ++ ps) ++ e :: free') as Hring' by (rewrite <- Hpath, app_assoc; done).
  assert (forall p, p ∈ used -> bs' !! p = blocks s1 !! p) as Hkeep
    by (intros p Hp; apply Hout; intros Hin; apply (Hdis p Hp), elem_of_app; by left).
  pose proof (length_fragments data cap n base origin (msgttl c) (pktseq c) Hn) as Hlf.
  apply brep_join; unfold s'; cbn [m_pBuffer_iSize m_iSize blocks m_pLastBlock m_pFirstBlock m_iBlockLen m_pCurrBlock m_iCount
    m_iBytesCount m_iNextMsgNo m_tsLastOriginTime items sent next_msgno last_origin]; rewrite ?length_app, ?Hlf; try done.
  - lia.
  - rewrite <- Hring'. rewrite <- Hring. apply R1.
  - rewrite Hlb, <- (proj1 (proj2 (b_ring _ _ _ R1))), Hring, Hring', !length_app. done.
  - rewrite Hlb. destruct (b_ring _ _ _ R1) as (_ & E1 & E2). by rewrite <- E1.
  - apply links_app. split.
    + rewrite <- HL. eapply links_ext; [|exact Hl1]. done.
    + eapply links_ext; [|exact Hl3]. done.
  - eapply links_ext; [|exact Hl4]. done.
  - by rewrite <- Hb1.
  - apply Forall2_app; [by eapply holds_all_ext|]. unfold fragments. rewrite Hlps in Hh. by rewrite Z2Nat.id in Hh by lia.
  - rewrite Hf, fst_or_app. by rewrite <- HL.
  - pose proof (b_sent _ _ _ R1). rewrite Hcu, drop_app_le by lia. rewrite fst_or_app. by rewrite <- HL.
  - pose proof (b_sent _ _ _ R1). lia.
  - rewrite length_fragments by done. rewrite i32_id; unfold is_i32; lia.
  - rewrite (b_bytes _ _ _ R1), i32_add_l, total_len_app, fragments_total by lia. done.
Qed.

(** ** Reading *)

Lemma links_lookup bs ring e i p r : links bs ring e -> ring !! i = Some p -> ring !! S i = Some r -> nxt bs p = Some r.
Proof.
  revert i. induction ring as [|x ring IH]; intros [|i]; simpl; try done.
  - intros [H _] [= <-] Hr. destruct ring; [done|]. by injection Hr as ->.
  - intros [_ H]. by apply IH.
Qed.

(** The block of packet [i] and the link to the next one. *)
Lemma block_at s ring q i it :
  brep s ring q -> items q !! i = Some it ->
  exists p b, ring !! i = Some p /\ blocks s !! p = Some b /\ item_of b = it /\ m_iLength b = it_len it
    /\ ring !! S i = Some (m_pNext b).
Proof.
  intros R Hi. pose proof (lookup_lt_Some _ _ _ Hi) as Hlt.
  destruct (Forall2_lookup_r _ _ _ _ _ (b_items _ _ _ R) Hi) as (p & Hp & b & Hb & Hit & Hl).
  apply lookup_take_Some in Hp as [Hp _]. pose proof (lookup_lt_Some _ _ _ (b_last _ _ _ R)).
  destruct (lookup_lt_is_Some_2 ring (S i)) as [r Hr]; [lia|].
  pose proof (links_lookup _ _ _ _ _ _ (b_links _ _ _ R) Hp Hr) as (b' & Hb' & <-)%nxt_Some.
  exists p, b. assert (b' = b) as -> by congruence. done.
Qed.

Lemma ring_inj s ring q i j p : brep s ring q -> ring !! i = Some p -> ring !! j = Some p -> i = j.
Proof. intros R. apply NoDup_lookup. apply (b_ring _ _ _ R). Qed.

(** The current block is the last one when every packet was sent. *)
Lemma curr_is_last s ring q : brep s ring q -> m_pCurrBlock s = m_pLastBlock s <-> sent q = length (items q).
Proof.
  intros R. pose proof (b_curr _ _ _ R) as Hc. pose proof (b_last _ _ _ R) as Hl. split; intros E.
  - rewrite E in Hc. by eapply ring_inj.
  - rewrite E in Hc. congruence.
Qed.

Definition set_items (its : list item) (q : queue) : queue := mkQueue its (sent q) (next_msgno q) (last_origin q).
Definition set_sent (k : nat) (q : queue) : queue := mkQueue (items q) k (next_msgno q) (last_origin q).

Lemma total_len_insert its i it it' : its !! i = Some it -> it_len it' = it_len it -> total_len (<[i := it']> its) = total_len its.
Proof. revert i. induction its as [|x its IH]; intros [|i]; simpl; try done; [intros [= ->]; lia|]. intros. rewrite (IH i); lia || done. Qed.

(** Rewriting the fields of one block. *)
Lemma update_rep s ring q i it p b b' :
  brep s ring q -> items q !! i = Some it -> ring !! i = Some p -> blocks s !! p = Some b ->
  m_pNext b' = m_pNext b -> m_pcData b' = m_pcData b -> m_iLength b' = m_iLength b ->
  brep (set_blocks (<[p := b']> (blocks s)) s) ring (set_items (<[i := item_of b']> (items q)) q).
Proof.
  intros R Hi Hp Hb Hn Hd Hl. destruct (block_at _ _ _ _ _ R Hi) as (p' & b2 & Hp' & Hb2 & Hit & Hlen & Hnx).
  assert (p' = p) as -> by congruence. assert (b2 = b) as -> by congruence. clear Hp' Hb2.
  assert (it_len (item_of b') = it_len it) as Hle by (rewrite <- Hit; unfold it_len, item_of; simpl; by rewrite Hd, Hl).
  destruct R. unfold set_blocks, set_items.
  constructor; cbn [m_pBuffer_iSize m_iSize blocks m_pLastBlock m_pFirstBlock m_iBlockLen m_pCurrBlock m_iCount
    m_iBytesCount m_iNextMsgNo m_tsLastOriginTime items sent next_msgno last_origin]; rewrite ?length_insert; try done.
  - eapply links_ext; [|done]. intros r _. by eapply nxt_insert.
  - intros r br. destruct (decide (r = p)) as [->|Hne].
    + rewrite list_lookup_insert_eq by (by eapply lookup_lt_Some). intros [= <-]. rewrite Hd. by eapply b_mem0.
    + rewrite list_lookup_insert_ne by done. apply b_mem0.
  - pose proof (lookup_lt_Some _ _ _ Hi). apply Forall2_same_length_lookup. split.
    + rewrite length_take, length_insert. pose proof (lookup_lt_Some _ _ _ b_last0). lia.
    + intros j r x [Hr Hj]%lookup_take_Some Hx. destruct (decide (j = i)) as [->|Hne].
      * rewrite list_lookup_insert_eq in Hx by done. injection Hx as <-. assert (r = p) as -> by congruence.
        exists b'. rewrite list_lookup_insert_eq by (by eapply lookup_lt_Some). split_and!; try done. lia.
      * rewrite list_lookup_insert_ne in Hx by done. eapply holds_ext.
        { apply list_lookup_insert_ne. intros ->. apply Hne. destruct b_ring0 as [Hnd _]. by eapply NoDup_lookup. }
        eapply Forall2_lookup_lr; [exact b_items0| |exact Hx]. apply lookup_take_Some. done.
  - by rewrite (total_len_insert _ _ it).
Qed.

Lemma set_curr_rep s ring q k p :
  brep s ring q -> ring !! k = Some p -> (k <= length (items q))%nat -> brep (set_curr p s) ring (set_sent k q).
Proof. intros R Hp Hk. destruct R. by constructor. Qed.

(** The abstract [readData] of the next packet: the packet's key flags are set,
    expired packets are skipped. *)
Definition it_encrypt (kflgs : Z) (it : item) : item :=
  if kflgs =? -1 then it
  else mkItem (it_data it) (Z.lor (it_bits it) (EncryptionKeyBits kflgs)) (it_seq it) (it_origin it) (it_rexmit it) (it_ttl it).

Definition it_view (it : item) : view := mkView (it_data it) (it_seq it) (it_bits it) (it_origin it).

Fixpoint spec_read (n : nat) (kflgs : Z) (clk : nat -> Z) (inc : Z) (w : option view) (q : queue) : Z * option view * Z * queue :=
  match n, items q !! sent q with
  | S n, Some it =>
    let it' := it_encrypt kflgs it in
    let q' := set_sent (S (sent q)) (set_items (<[sent q := it']> (items q)) q) in
    if it_expired it' (clk 0%nat) then spec_read n kflgs (fun k => clk (S k)) (inc + 1) (Some (it_view it')) q'
    else (if kflgs =? -1 then 0 else it_len it, Some (it_view it'), inc, q')
  | _, _ => (0, w, inc, q)
  end.

Lemma read_unique_rep fuel kflgs clk inc w s ring q :
  brep s ring q -> (length (items q) <= sent q + fuel)%nat ->
  exists s', read_unique fuel kflgs clk inc w s
      = Some (fst (spec_read fuel kflgs clk inc w q), s')
    /\ brep s' ring (snd (spec_read fuel kflgs clk inc w q)).
Proof.
  revert clk inc w s q. induction fuel as [|f IH]; intros clk inc w s q R Hf; pose proof (b_sent _ _ _ R) as Hs; cbn [read_unique].
  - rewrite bool_decide_true by (apply (curr_is_last _ _ _ R); lia). exists s. done.
  - cbn [spec_read]. destruct (items q !! sent q) as [it|] eqn:Hi.
    2: { apply lookup_ge_None in Hi. rewrite bool_decide_true by (apply (curr_is_last _ _ _ R); lia). exists s. done. }
    pose proof (lookup_lt_Some _ _ _ Hi). rewrite bool_decide_false by (rewrite (curr_is_last _ _ _ R); lia).
    destruct (block_at _ _ _ _ _ R Hi) as (p & b & Hp & Hb & Hit & Hlen & Hnx).
    assert (m_pCurrBlock s = p) as -> by (pose proof (b_curr _ _ _ R); congruence).
    rewrite Hb. cbn [mbind option_bind].
    set (b' := if kflgs =? -1 then b else set_bitset _ b).
    assert (item_of b' = it_encrypt kflgs it) as Hb' by (rewrite <- Hit; unfold b', it_encrypt; by destruct (kflgs =? -1)).
    assert (brep (set_curr (m_pNext b) (set_blocks (<[p := b']> (blocks s)) s)) ring
              (set_sent (S (sent q)) (set_items (<[sent q := it_encrypt kflgs it]> (items q)) q))) as R'.
    { apply set_curr_rep; [rewrite <- Hb'|done|simpl; rewrite length_insert; lia].
      eapply update_rep; try done; unfold b'; by destruct (kflgs =? -1). }
    assert (expired b' (clk 0%nat) = it_expired (it_encrypt kflgs it) (clk 0%nat)) as -> by (rewrite <- Hb'; done).
    assert (view_of b' (m_iLength b) (m_iSeqNo b) = it_view (it_encrypt kflgs it)) as ->.
    { rewrite <- Hb'. unfold view_of, it_view, item_of, b'. by destruct (kflgs =? -1). }
    destruct (it_expired _ _).
    + apply IH; [exact R'|]. simpl. rewrite length_insert. lia.
    + eexists. split; [|exact R']. by rewrite Hlen.
Qed.

Lemma walk_rep s ring q k i p :
  brep s ring q -> ring !! i = Some p -> (i + k < length ring)%nat ->
  exists p', walk k (blocks s) None p = Some p' /\ ring !! (i + k)%nat = Some p'.
Proof.
  intros R. revert i p. induction k as [|k IH]; intros i p Hp Hk; simpl; [exists p; by rewrite Nat.add_0_r|].
  destruct (lookup_lt_is_Some_2 ring (S i)) as [r Hr]; [lia|].
  pose proof (links_lookup _ _ _ _ _ _ (b_links _ _ _ R) Hp Hr) as (b & -> & Hb)%nxt_Some. cbn [mbind option_bind]. rewrite Hb.
  destruct (IH (S i) r Hr ltac:(lia)) as (p' & ? & ?). exists p'. by rewrite Nat.add_succ_r.
Qed.

(** A walk that stops at the last block. *)
Lemma walk_stop_rep s ring q k i p :
  brep s ring q -> ring !! i = Some p -> (i <= length (items q))%nat ->
  exists p', walk k (blocks s) (Some (m_pLastBlock s)) p = Some p' /\ ring !! (Nat.min (i + k) (length (items q))) = Some p'.
Proof.
  intros R. revert i p. pose proof (b_last _ _ _ R) as HL. pose proof (lookup_lt_Some _ _ _ HL).
  induction k as [|k IH]; intros i p Hp Hk; simpl; [exists p; split; [done|]; by replace (Nat.min _ _) with i by lia|].
  destruct (decide (i = length (items q))) as [->|Hne].
  - rewrite bool_decide_true by congruence. exists p. split; [done|]. by replace (Nat.min _ _) with (length (items q)) by lia.
  - rewrite bool_decide_false by (intros [= ->]; apply Hne; by eapply ring_inj).
    destruct (lookup_lt_is_Some_2 ring (S i)) as [r Hr]; [lia|].
    pose proof (links_lookup _ _ _ _ _ _ (b_links _ _ _ R) Hp Hr) as (b & -> & Hb)%nxt_Some. cbn [mbind option_bind]. rewrite Hb.
    destruct (IH (S i) r Hr ltac:(lia)) as (p' & ? & ?). exists p'. by rewrite Nat.add_succ_r.
Qed.

Lemma first_rep s ring q : brep s ring q -> ring !! 0%nat = Some (m_pFirstBlock s).
Proof.
  intros R. rewrite (b_first _ _ _ R). pose proof (lookup_lt_Some _ _ _ (b_last _ _ _ R)). destruct ring; simpl in *; [lia|done].
Qed.

(** The length of the longest prefix that satisfies [P]. *)
Fixpoint prefix_len {A} (P : A -> bool) (l : list A) : nat :=
  match l with [] => 0 | x :: l => if P x then S (prefix_len P l) else 0 end.

Lemma prefix_len_le {A} (P : A -> bool) l : (prefix_len P l <= length l)%nat.
Proof. induction l as [|x l IH]; simpl; [lia|]. destruct (P x); lia. Qed.

Lemma prefix_len_true {A} (P : A -> bool) l : (forall x, x ∈ l -> P x = true) -> prefix_len P l = length l.
Proof. induction l as [|x l IH]; intros H; simpl; [done|]. rewrite H by set_solver. rewrite IH; [done|]. intros. apply H. set_solver. Qed.

(** Where the current packet moves when the [m] packets from [j] on are dropped. *)
Definition skip_to (j m c : nat) : nat := if bool_decide (j <= c < j + m)%nat then (j + m)%nat else c.

Lemma drop_message_rep s ring q fuel no j p c cp (move : bool) len :
  brep s ring q -> ring !! j = Some p -> ring !! c = Some cp -> (j <= length (items q))%nat ->
  (c <= length (items q))%nat -> (length (items q) <= j + fuel)%nat -> (move = true -> c = j) ->
  let m := prefix_len (fun it => no =? it_msgno it) (drop j (items q)) in
  let c' := if move then (j + m)%nat else skip_to j m c in
  exists cp', drop_message fuel (blocks s) (m_pLastBlock s) no p move cp len = Some (len + Z.of_nat m, cp')
    /\ ring !! c' = Some cp' /\ (c' <= length (items q))%nat.
Proof.
  intros R. revert j p c cp move len. pose proof (b_last _ _ _ R) as HL.
  induction fuel as [|f IH]; intros j p c cp move len Hp Hcp Hj Hc Hf Hm m c'.
  { assert (j = length (items q)) as Ej by lia. subst m c'. rewrite drop_ge by lia. cbn [prefix_len drop_message].
    rewrite bool_decide_true by (rewrite Ej in Hp; congruence). exists cp. rewrite Z.add_0_r, Nat.add_0_r. split; [done|].
    unfold skip_to. rewrite bool_decide_false by lia. destruct move; [rewrite <- Hm by done|]; done. }
  cbn [drop_message]. destruct (decide (j = length (items q))) as [Ej|Hne].
  { subst m c'. rewrite drop_ge by lia. cbn [prefix_len].
    rewrite bool_decide_true by (rewrite Ej in Hp; congruence). exists cp. rewrite Z.add_0_r, Nat.add_0_r. split; [done|].
    unfold skip_to. rewrite bool_decide_false by lia. destruct move; [rewrite <- Hm by done|]; done. }
  rewrite bool_decide_false by (intros ->; apply Hne; by eapply ring_inj).
  destruct (lookup_lt_is_Some_2 (items q) j) as [it Hi]; [lia|].
  destruct (block_at _ _ _ _ _ R Hi) as (p' & b & Hp' & Hb & Hit & _ & Hnx). assert (p' = p) as -> by congruence.
  rewrite Hb. cbn [mbind option_bind]. assert (getMsgSeq b = it_msgno it) as -> by (rewrite <- Hit; done).
  subst m c'. rewrite (drop_S _ _ _ Hi). cbn [prefix_len]. destruct (Z.eqb_spec no (it_msgno it)) as [E|E].
  2: { exists cp. rewrite Z.add_0_r, Nat.add_0_r. split; [done|]. unfold skip_to. rewrite bool_decide_false by lia.
    destruct move; [rewrite <- Hm by done|]; done. }
  set (move' := move || bool_decide (p = cp)).
  assert (move' = true <-> move = true \/ c = j) as Hm'.
  { unfold move'. rewrite orb_true_iff, bool_decide_eq_true. split; [|intros [?| ->]; [by left|right; congruence]].
    intros [?| ->]; [by left|right; by eapply ring_inj]. }
  destruct (IH (S j) (m_pNext b) (if move' then S j else c) (if move' then m_pNext b else cp) move' (len + 1))
    as (cp' & E1 & E2 & E3); try done.
  - by destruct move'.
  - lia.
  - destruct move'; lia.
  - lia.
  - by intros ->.
  - exists cp'. rewrite E1. split; [do 2 f_equal; lia|].
    set (m := prefix_len _ _) in *.
    assert ((if move then (j + S m)%nat else skip_to j (S m) c) =
            (if move' then (S j + m)%nat else skip_to (S j) m (if move' then S j else c))) as ->; [|done].
    unfold skip_to. destruct move.
    { destruct move'; [lia|]. exfalso. destruct Hm' as [_ Hm']. discriminate Hm'. by left. }
    destruct move'.
    { rewrite bool_decide_true; [lia|]. destruct Hm' as [Hm' _]. destruct (Hm' eq_refl); [done|lia]. }
    assert (c <> j) by (intros ->; destruct Hm' as [_ Hm']; discriminate Hm'; by right).
    repeat case_bool_decide; lia.
Qed.

(** The abstract [readData] of packet [offset]. *)
Definition it_rexmitted (now : Z) (it : item) : item :=
  mkItem (it_data it) (it_bits it) (it_seq it) (it_origin it) now (it_ttl it).

Definition message_len (its : list item) (off : nat) (it : item) : nat :=
  S (prefix_len (fun x => it_msgno it =? it_msgno x) (drop (S off) its)).

Definition spec_old (offset seqno : Z) (clk : nat -> Z) (q : queue) : read_result * queue :=
  let off := Z.to_nat offset in
  match items q !! off with
  | None => (RdNone, q)
  | Some it =>
    if it_expired it (clk 0%nat) then
      let m := message_len (items q) off it in
      (RdDrop (mkDrop seqno (CSeqNo.incseq_by seqno (Z.of_nat m - 1)) (it_msgno it)),
       set_sent (skip_to (S off) (m - 1) (sent q)) q)
    else
      (RdData (it_len it) (mkView (it_data it) seqno (it_bits it) (it_origin it)),
       set_items (<[off := it_rexmitted (clk 1%nat) it]> (items q)) q)
  end.

Lemma readOld_rep offset seqno clk s ring q :
  brep s ring q ->
  exists s', readOld offset seqno clk s = Some (fst (spec_old offset seqno clk q), s')
    /\ brep s' ring (snd (spec_old offset seqno clk q)).
Proof.
  intros R. unfold readOld, spec_old.
  destruct (walk_stop_rep s ring q (Z.to_nat offset) 0 _ R (first_rep _ _ _ R) ltac:(lia)) as (p & -> & Hp). cbn [mbind option_bind].
  rewrite Nat.add_0_l in Hp. destruct (items q !! Z.to_nat offset) as [it|] eqn:Hi.
  2: { apply lookup_ge_None in Hi. rewrite Nat.min_r in Hp by lia. rewrite bool_decide_true by (pose proof (b_last _ _ _ R); congruence).
    exists s. done. }
  pose proof (lookup_lt_Some _ _ _ Hi) as Hlt. rewrite Nat.min_l in Hp by lia.
  rewrite bool_decide_false by (intros ->; pose proof (ring_inj _ _ _ _ _ _ R Hp (b_last _ _ _ R)); lia).
  destruct (block_at _ _ _ _ _ R Hi) as (p' & b & Hp' & Hb & Hit & Hlen & Hnx). assert (p' = p) as -> by congruence.
  rewrite Hb. cbn [mbind option_bind]. assert (expired b (clk 0%nat) = it_expired it (clk 0%nat)) as -> by (rewrite <- Hit; done).
  assert (getMsgSeq b = it_msgno it) as -> by (rewrite <- Hit; done).
  destruct (it_expired it (clk 0%nat)).
  - destruct (drop_message_rep s ring q (Z.to_nat (m_iSize s)) (it_msgno it) (S (Z.to_nat offset)) (m_pNext b) (sent q)
                (m_pCurrBlock s) false 1 R Hnx (b_curr _ _ _ R) ltac:(lia) (b_sent _ _ _ R)) as (cp & -> & Hcp & Hc).
    { destruct (b_ring _ _ _ R) as (_ & _ & Hsz). pose proof (lookup_lt_Some _ _ _ (b_last _ _ _ R)). lia. }
    { done. }
    cbn [mbind option_bind fst snd]. exists (set_curr cp s). unfold message_len. set (m := prefix_len _ _) in *.
    replace (1 + Z.of_nat m - 1) with (Z.of_nat (S m) - 1) by lia. split; [done|].
    replace (S m - 1)%nat with m by lia. by apply set_curr_rep.
  - eexists. split.
    + unfold view_of. rewrite <- Hit. cbn [fst]. rewrite Hit, <- Hlen, <- Hit. done.
    + cbn [snd]. replace (it_rexmitted (clk 1%nat) it) with (item_of (set_rexmit (clk 1%nat) b)) by (rewrite <- Hit; done).
      by eapply update_rep.
Qed.

(** ** Removing packets *)

Definition pops (limit : option Z) (it : item) : bool := match limit with Some t => it_origin it <? t | None => true end.

Definition last_msgno (no : Z) (its : list item) : Z := foldl (fun _ it => it_msgno it) no its.

Lemma pop_blocks_rep s ring q limit k i p bytes (move : bool) pkts no :
  brep s ring q -> ring !! i = Some p -> (i + k <= length (items q))%nat -> bytes = i32 bytes ->
  let m := prefix_len (pops limit) (take k (drop i (items q))) in
  let gone := take m (drop i (items q)) in
  exists p', pop_blocks k limit (blocks s) (m_pCurrBlock s) p bytes move pkts no
      = Some (p', i32 (bytes + total_len gone), move || bool_decide (i <= sent q < i + m)%nat, pkts + Z.of_nat m,
              last_msgno no gone)
    /\ ring !! (i + m)%nat = Some p'.
Proof.
  intros R. revert i p bytes move pkts no. induction k as [|k IH]; intros i p bytes move pkts no Hp Hk Hby m gone.
  { exists p. subst gone m. cbn [take prefix_len pop_blocks total_len last_msgno foldl]. rewrite !Z.add_0_r, <- Hby, !Nat.add_0_r.
    rewrite bool_decide_false, orb_false_r by lia. done. }
  destruct (lookup_lt_is_Some_2 (items q) i) as [it Hi]; [lia|].
  destruct (block_at _ _ _ _ _ R Hi) as (p' & b & Hp' & Hb & Hit & Hlen & Hnx). assert (p' = p) as -> by congruence.
  subst gone m. rewrite (drop_S _ _ _ Hi). cbn [take prefix_len pop_blocks]. rewrite Hb. cbn [mbind option_bind].
  assert (match limit with Some t => m_tsOriginTime b <? t | None => true end = pops limit it) as -> by (rewrite <- Hit; by destruct limit).
  destruct (pops limit it).
  2: { exists p. cbn [take total_len last_msgno foldl]. rewrite !Z.add_0_r, <- Hby, !Nat.add_0_r.
    rewrite bool_decide_false, orb_false_r by lia. done. }
  cbn [take total_len]. rewrite Hlen. assert (getMsgSeq b = it_msgno it) as -> by (rewrite <- Hit; done).
  destruct (IH (S i) (m_pNext b) (i32 (bytes + it_len it)) (move || bool_decide (p = m_pCurrBlock s)) (pkts + 1) (it_msgno it))
    as (p'' & E & Hp''); [done|lia|by rewrite i32_i32|].
  exists p''. rewrite E. split; [|by rewrite Nat.add_succ_r]. rewrite i32_add_l, Z.add_assoc.
  set (m := prefix_len _ _) in *. replace (pkts + 1 + Z.of_nat m) with (pkts + Z.of_nat (S m)) by lia.
  assert (p = m_pCurrBlock s <-> sent q = i) as Hpc.
  { pose proof (b_curr _ _ _ R) as Hc. split; [intros ->; by eapply ring_inj|]. intros E'. rewrite E' in Hc. congruence. }
  assert (bool_decide (p = m_pCurrBlock s) || bool_decide (S i <= sent q < S i + m)%nat
          = bool_decide (i <= sent q < i + S m)%nat) as <-; [|by rewrite <- orb_assoc].
  repeat case_bool_decide; try done; exfalso; try tauto; lia.
Qed.

Definition spec_pop (m : nat) (q : queue) : queue :=
  mkQueue (drop m (items q)) (sent q - m) (next_msgno q) (last_origin q).

(** Removing [m] packets turns the ring. *)
Lemma popped_rep s ring q m p bytes :
  brep s ring q -> (m <= length (items q))%nat -> ring !! m = Some p -> bytes = i32 (total_len (take m (items q))) ->
  exists ring', brep (popped p bytes (bool_decide (sent q < m)%nat) (Z.of_nat m) s) ring' (spec_pop m q).
Proof.
  intros R Hm Hp Hby. destruct (brep_split _ _ _ R) as (used & free & Hring & Hlu & Hit & Hf & Hcu & Hl1 & Hl2 & HnL & Hnd).
  destruct (b_ring _ _ _ R) as (Hndr & Hlr & Hls). destruct (b_size _ _ _ R) as [Hz1 Hz2].
  set (s' := popped _ _ _ _ _). exists (drop m used ++ m_pLastBlock s' :: (free ++ take m used)).
  pose proof (b_count _ _ _ R) as Hc. pose proof (b_sent _ _ _ R) as Hs.
  assert (p = fst_or (m_pLastBlock s) (drop m used)) as Hp'.
  { rewrite Hring in Hp. destruct (decide (m = length used)) as [->|Hne].
    - rewrite list_lookup_middle in Hp by done. rewrite fst_or_drop_end by lia. congruence.
    - rewrite lookup_app_l in Hp by lia. by rewrite (drop_S _ _ _ Hp). }
  assert ((drop m used ++ m_pLastBlock s :: free ++ take m used) ≡ₚ ring) as Hperm.
  { rewrite Hring. rewrite <- (take_drop m used) at 3. rewrite app_comm_cons, app_assoc, (Permutation_app_comm _ (take m used)), app_assoc. done. }
  pose proof Hl1 as Hl. rewrite <- (take_drop m used), links_app in Hl. destruct Hl as [Hl3 Hl4].
  apply brep_join; unfold s', popped; cbn [m_pBuffer_iSize m_iSize blocks m_pLastBlock m_pFirstBlock m_iBlockLen m_pCurrBlock m_iCount
    m_iBytesCount m_iNextMsgNo m_tsLastOriginTime items sent next_msgno last_origin spec_pop]; try done; try apply R.
  - by rewrite Hperm.
  - by rewrite Hperm.
  - lia.
  - apply (links_app _ (m_pLastBlock s :: free)). rewrite Hp'. split.
    + replace (fst_or _ (take m used)) with (m_pFirstBlock s); [done|]. rewrite Hf, <- (take_drop m used) at 1. by rewrite fst_or_app.
    + done.
  - by apply Forall2_drop.
  - rewrite drop_drop. case_bool_decide.
    + rewrite Hp'. f_equal. f_equal. lia.
    + rewrite Hcu. do 2 f_equal. lia.
  - rewrite length_drop. lia.
  - rewrite length_drop, i32_id; [lia|]. unfold is_i32. pose proof (lookup_lt_Some _ _ _ (b_last _ _ _ R)). lia.
  - rewrite Hby, (b_bytes _ _ _ R), i32_sub_r, i32_sub_l. f_equal.
    rewrite <- (take_drop m (items q)) at 1. rewrite total_len_app. lia.
Qed.

Definition spec_ack (offset : Z) (q : queue) : queue := spec_pop (Nat.min (Z.to_nat offset) (length (items q))) q.

Lemma ackData_rep offset s ring q :
  brep s ring q -> 0 <= offset -> exists s' ring', ackData offset s = Some s' /\ brep s' ring' (spec_ack offset q)
    /\ m_iBlockLen s' = m_iBlockLen s /\ m_iAuthTagSize s' = m_iAuthTagSize s /\ m_pBuffer_iSize s' = m_pBuffer_iSize s.
Proof.
  intros R Ho. unfold ackData, spec_ack. pose proof (b_count _ _ _ R) as Hc.
  set (m := Nat.min (Z.to_nat offset) (length (items q))).
  assert ((if offset >? m_iCount s then m_iCount s else offset) = Z.of_nat m) as ->
    by (rewrite Z.gtb_ltb; destruct (Z.ltb_spec (m_iCount s) offset); lia).
  rewrite Nat2Z.id.
  destruct (pop_blocks_rep s ring q None m 0 _ 0 false 0 0 R (first_rep _ _ _ R) ltac:(lia) eq_refl) as (p & -> & Hp).
  cbn [mbind option_bind orb]. rewrite prefix_len_true in Hp |- * by done.
  rewrite drop_0, length_take, Nat.min_l in Hp |- * by lia. rewrite Nat.add_0_l in Hp |- *.
  destruct (popped_rep s ring q m p _ R ltac:(lia) Hp eq_refl) as [ring' R'].
  rewrite Z.add_0_l. replace (bool_decide (0 <= sent q < m)%nat) with (bool_decide (sent q < m)%nat) by (apply bool_decide_ext; lia).
  eexists _, ring'. split; [done|]. split; [exact R'|done].
Qed.

Definition spec_drop_late (too_late : Z) (q : queue) : Z * Z * Z * queue :=
  let m := prefix_len (fun it => it_origin it <? too_late) (items q) in
  let gone := take m (items q) in
  (Z.of_nat m, i32 (total_len gone), MsgNo_inc (last_msgno 0 gone), spec_pop m q).

Lemma dropLateData_rep too_late s ring q :
  brep s ring q ->
  exists s' ring', dropLateData too_late s = Some (fst (spec_drop_late too_late q), s')
    /\ brep s' ring' (snd (spec_drop_late too_late q))
    /\ m_iBlockLen s' = m_iBlockLen s /\ m_iAuthTagSize s' = m_iAuthTagSize s /\ m_pBuffer_iSize s' = m_pBuffer_iSize s.
Proof.
  intros R. unfold dropLateData, spec_drop_late. pose proof (b_count _ _ _ R) as Hc.
  destruct (pop_blocks_rep s ring q (Some too_late) (length (items q)) 0 _ 0 false 0 0 R (first_rep _ _ _ R) ltac:(lia) eq_refl) as (p & Hpop & Hp).
  rewrite Hc, Nat2Z.id, Hpop. clear Hpop. cbn [mbind option_bind orb]. rewrite drop_0, take_ge, Nat.add_0_l in Hp |- * by lia.
  change (pops (Some too_late)) with (fun it => it_origin it <? too_late) in *.
  pose proof (prefix_len_le (fun it => it_origin it <? too_late) (items q)).
  set (m := prefix_len _ _) in *.
  destruct (popped_rep s ring q m p _ R ltac:(lia) Hp eq_refl) as [ring' R'].
  rewrite !Z.add_0_l. replace (bool_decide (0 <= sent q < m)%nat) with (bool_decide (sent q < m)%nat) by (apply bool_decide_ext; lia).
  eexists _, ring'. split; [done|]. split; [exact R'|done].
Qed.

(** ** Queries *)

Lemma getPacketRexmitTime_rep s ring q offset it :
  brep s ring q -> items q !! Z.to_nat offset = Some it -> getPacketRexmitTime offset s = Some (it_rexmit it).
Proof.
  intros R Hi. pose proof (lookup_lt_Some _ _ _ Hi). pose proof (lookup_lt_Some _ _ _ (b_last _ _ _ R)).
  destruct (walk_rep s ring q (Z.to_nat offset) 0 _ R (first_rep _ _ _ R)) as (p & E & Hp); [lia|].
  destruct (block_at _ _ _ _ _ R Hi) as (p' & b & Hp' & Hb & Hit & _). unfold getPacketRexmitTime. rewrite E. cbn [mbind option_bind].
  assert (p' = p) as -> by (rewrite Nat.add_0_l in Hp; congruence). rewrite Hb. cbn [mbind option_bind]. by rewrite <- Hit.
Qed.

Lemma getBufferingDelay_rep s ring q now :
  brep s ring q -> getBufferingDelay now s = Some (match items q with [] => 0 | it :: _ => now - it_origin it end).
Proof.
  intros R. unfold getBufferingDelay. rewrite (b_count _ _ _ R). destruct (items q) as [|it its] eqn:E; [done|].
  destruct (Z.eqb_spec (Z.of_nat (length (it :: its))) 0) as [E0|]; [cbn [length] in E0; lia|].
  destruct (block_at s ring q 0 it R) as (p & b & Hp & Hb & Hit & _); [by rewrite E|].
  rewrite (first_rep _ _ _ R) in Hp. injection Hp as ->. rewrite Hb. cbn [mbind option_bind]. by rewrite <- Hit.
Qed.
