(* ===== verification/SndBufferRefine.v ===== *)
(** * Refinement of the sender's buffer

    The operations of [CSndBuffer], in any order, act as operations on the list
    of the packets not yet acknowledged; a message put into the buffer comes out
    as fragments that make it up again. *)

From S2P Require Import Prelude SeqNo Packet SndBuffer SndBufferSpec.
Import CSndBuffer.

(** ** Sequences of operations *)

Inductive buf_op :=
  | BufAdd (data : list Z) (c : MsgCtrl) (now : Z)
  | BufRead (kflgs : Z) (clk : nat -> Z)
  | BufReadOld (offset seqno : Z) (clk : nat -> Z)
  | BufAck (offset : Z)
  | BufDropLate (too_late : Z).

Inductive buf_ans :=
  | AnsCtrl (c : MsgCtrl)
  | AnsRead (len : Z) (w : option view) (seqnoinc : Z)
  | AnsOld (r : read_result)
  | AnsAck
  | AnsDrop (pkts bytes msgno : Z).

Definition buf_run (junk : Block) (s : t) (o : buf_op) : option (buf_ans * t) :=
  match o with
  | BufAdd data c now => r ← addBuffer junk data c now s; Some (AnsCtrl (fst r), snd r)
  | BufRead kflgs clk => r ← readData kflgs clk s; let '(len, w, inc, s) := r in Some (AnsRead len w inc, s)
  | BufReadOld offset seqno clk => r ← readOld offset seqno clk s; Some (AnsOld (fst r), snd r)
  | BufAck offset => s ← ackData offset s; Some (AnsAck, s)
  | BufDropLate t => r ← dropLateData t s; let '(pkts, bytes, no, s) := r in Some (AnsDrop pkts bytes no, s)
  end.

Definition buf_spec (cap : Z) (q : queue) (o : buf_op) : buf_ans * queue :=
  match o with
  | BufAdd data c now => let r := spec_add cap data c now q in (AnsCtrl (fst r), snd r)
  | BufRead kflgs clk =>
    let '(len, w, inc, q) := spec_read (length (items q) - sent q) kflgs clk 0 None q in (AnsRead len w inc, q)
  | BufReadOld offset seqno clk => let r := spec_old offset seqno clk q in (AnsOld (fst r), snd r)
  | BufAck offset => (AnsAck, spec_ack offset q)
  | BufDropLate t => let '(pkts, bytes, no, q) := spec_drop_late t q in (AnsDrop pkts bytes no, q)
  end.

Fixpoint buf_runs (junk : Block) (s : t) (os : list buf_op) : option (list buf_ans * t) :=
  match os with
  | [] => Some ([], s)
  | o :: os => r ← buf_run junk s o; rs ← buf_runs junk (snd r) os; Some (fst r :: fst rs, snd rs)
  end.

Fixpoint buf_specs (cap : Z) (q : queue) (os : list buf_op) : list buf_ans * queue :=
  match os with
  | [] => ([], q)
  | o :: os => let r := buf_spec cap q o in let rs := buf_specs cap (snd r) os in (fst r :: fst rs, snd rs)
  end.

(** The contract: at most 2^30 bytes a message and 2^30 blocks in all, with the
    [unit] blocks of the next allocation; acknowledgements are not negative. *)
Definition buf_op_ok (cap unit_ : Z) (q : queue) (o : buf_op) : Prop :=
  match o with
  | BufAdd data _ _ =>
    Z.of_nat (length data) < 2 ^ 30
    /\ Z.of_nat (length (items q)) + countNumPacketsRequired (Z.of_nat (length data)) cap + unit_ <= 2 ^ 30
  | BufAck offset => 0 <= offset
  | _ => True
  end.

Fixpoint buf_ops_ok (cap unit_ : Z) (q : queue) (os : list buf_op) : Prop :=
  match os with [] => True | o :: os => buf_op_ok cap unit_ q o /\ buf_ops_ok cap unit_ (snd (buf_spec cap q o)) os end.

(** A buffer models the queue [q]; its constants are kept by every operation. *)
Record bmodels (bl tag unit_ : Z) (s : t) (q : queue) : Prop := mkBmodels {
  bm_rep : exists ring, brep s ring q;
  bm_bl : m_iBlockLen s = bl;
  bm_tag : m_iAuthTagSize s = tag;
  bm_unit : m_pBuffer_iSize s = unit_
}.

Lemma spec_read_fuel n n' kflgs clk inc w q :
  (length (items q) <= sent q + n)%nat -> (length (items q) <= sent q + n')%nat ->
  spec_read n kflgs clk inc w q = spec_read n' kflgs clk inc w q.
Proof.
  revert n' clk inc w q. induction n as [|n IH]; intros [|n'] clk inc w q H1 H2; cbn [spec_read]; try done.
  - destruct (items q !! sent q) eqn:E; [|done]. apply lookup_lt_Some in E. lia.
  - destruct (items q !! sent q) eqn:E; [|done]. apply lookup_lt_Some in E. lia.
  - destruct (items q !! sent q) as [it|]; [|done]. destruct (it_expired _ _); [|done].
    apply IH; simpl; rewrite length_insert; lia.
Qed.

Lemma read_unique_consts fuel kflgs clk inc w s r s' :
  read_unique fuel kflgs clk inc w s = Some (r, s') ->
  m_iBlockLen s' = m_iBlockLen s /\ m_iAuthTagSize s' = m_iAuthTagSize s /\ m_pBuffer_iSize s' = m_pBuffer_iSize s.
Proof.
  revert clk inc w s. induction fuel as [|f IH]; intros clk inc w s; cbn [read_unique];
    destruct (bool_decide _); try (by intros [= <- <-]). intros (b & Hb & H)%bind_Some.
  destruct (expired _ _); [apply IH in H; exact H|]. by injection H as <- <-.
Qed.

Lemma readOld_consts offset seqno clk s r s' :
  readOld offset seqno clk s = Some (r, s') ->
  m_iBlockLen s' = m_iBlockLen s /\ m_iAuthTagSize s' = m_iAuthTagSize s /\ m_pBuffer_iSize s' = m_pBuffer_iSize s.
Proof. unfold readOld. intros H. bind_inv; done. Qed.

Section Refinement.

Context (junk : Block) (bl tag unit_ : Z).
Context (Htag : 0 <= tag < bl) (Hbl : bl < 2 ^ 30) (Hjunk : Z.of_nat (length (m_pcData junk)) = bl).

Lemma buf_run_models s q o :
  bmodels bl tag unit_ s q -> buf_op_ok (bl - tag) unit_ q o ->
  exists s', buf_run junk s o = Some (fst (buf_spec (bl - tag) q o), s')
    /\ bmodels bl tag unit_ s' (snd (buf_spec (bl - tag) q o)).
Proof using All.
  intros [[ring R] Eb Et Eu] Hok. destruct o as [data c now|kflgs clk|offset seqno clk|offset|too_late]; cbn [buf_run buf_spec].
  - destruct Hok as [H1 H2]. pose proof (b_count _ _ _ R) as Hc.
    destruct (addBuffer_rep junk data c now s ring q R) as (s' & ring' & E & R' & Eb' & Et' & Eu'); [split_and!; rewrite ?Eb, ?Et; lia|lia|].
    rewrite E. cbn [mbind option_bind fst snd]. rewrite Eb, Et in *. exists s'. split; [done|]. constructor; [by exists ring'|congruence..].
  - assert (length (items q) <= sent q + Z.to_nat (m_iSize s))%nat as Hfuel.
    { destruct (b_ring _ _ _ R) as (_ & _ & Hz). pose proof (lookup_lt_Some _ _ _ (b_last _ _ _ R)). lia. }
    destruct (read_unique_rep (Z.to_nat (m_iSize s)) kflgs clk 0 None s ring q R Hfuel) as (s' & E & R').
    pose proof (read_unique_consts _ _ _ _ _ _ _ _ E) as (? & ? & ?).
    rewrite (spec_read_fuel _ (length (items q) - sent q) kflgs clk 0 None q Hfuel) in E, R' by lia.
    unfold readData. rewrite E. cbn [mbind option_bind]. destruct (spec_read _ _ _ _ _ _) as [[[len w] inc] q']. cbn [fst snd] in *.
    exists s'. split; [done|]. constructor; [by exists ring|congruence..].
  - destruct (readOld_rep offset seqno clk s ring q R) as (s' & E & R'). pose proof (readOld_consts _ _ _ _ _ _ E) as (? & ? & ?).
    rewrite E. cbn [mbind option_bind fst snd]. exists s'. split; [done|]. constructor; [by exists ring|congruence..].
  - destruct (ackData_rep offset s ring q R Hok) as (s' & ring' & E & R' & ? & ? & ?). rewrite E. cbn [mbind option_bind fst snd].
    exists s'. split; [done|]. constructor; [by exists ring'|congruence..].
  - destruct (dropLateData_rep too_late s ring q R) as (s' & ring' & E & R' & ? & ? & ?). rewrite E.
    destruct (spec_drop_late too_late q) as [[[pkts bytes] no] q']. cbn [mbind option_bind fst snd] in *.
    exists s'. split; [done|]. constructor; [by exists ring'|congruence..].
Qed.

Lemma buf_runs_models s q os :
  bmodels bl tag unit_ s q -> buf_ops_ok (bl - tag) unit_ q os ->
  exists s', buf_runs junk s os = Some (fst (buf_specs (bl - tag) q os), s')
    /\ bmodels bl tag unit_ s' (snd (buf_specs (bl - tag) q os)).
Proof using All.
  revert s q. induction os as [|o os IH]; intros s q Hm Hok; cbn [buf_runs buf_specs buf_ops_ok fst snd] in *; [eauto|].
  destruct Hok as [Ho Hos]. destruct (buf_run_models s q o Hm Ho) as (s1 & -> & Hm1). cbn [mbind option_bind fst snd].
  destruct (IH s1 _ Hm1 Hos) as (s2 & -> & Hm2). cbn [mbind option_bind fst snd]. eauto.
Qed.

End Refinement.

(** The empty buffer. *)
Lemma buf_create_models junk size bl tag :
  0 < size <= 2 ^ 30 -> Z.of_nat (length (m_pcData junk)) = bl ->
  bmodels bl tag size (create junk size bl tag) (mkQueue [] 0 1 0).
Proof.
  intros Hs Hj. constructor; try done. exists (seq 0 (Z.to_nat size)).
  assert (forall i, (i < Z.to_nat size)%nat -> nxt (blocks (create junk size bl tag)) i
    = Some (if Z.of_nat i <? size - 1 then S i else 0%nat)) as Hn.
  { intros i Hi. unfold nxt, create. cbn [blocks]. rewrite list_lookup_fmap, lookup_seq_lt by done. done. }
  assert (forall k i, (i + k = Z.to_nat size)%nat -> links (blocks (create junk size bl tag)) (seq i k) 0) as Hl.
  { induction k as [|k IH]; intros i Hi; cbn [seq links]; [done|]. split; [|apply IH; lia]. rewrite Hn by lia. f_equal.
    destruct k; cbn [seq fst_or]; destruct (Z.ltb_spec (Z.of_nat i) (size - 1)); lia. }
  destruct (Z.to_nat size) as [|n] eqn:En; [lia|].
  constructor; cbn [create items sent next_msgno last_origin length m_pBuffer_iSize m_iSize blocks m_pFirstBlock m_pLastBlock
    m_pCurrBlock m_iCount m_iBytesCount m_iNextMsgNo m_tsLastOriginTime m_iBlockLen total_len]; try done.
  - lia.
  - rewrite length_fmap, !length_seq. split_and!; [apply NoDup_seq|lia|lia].
  - apply (Hl (S n) 0%nat). lia.
  - intros p b Hb. apply list_lookup_fmap_Some in Hb as (i & -> & _). done.
Qed.

(** C7: the circular list of blocks refines a queue of packets. Any sequence of
    messages added, packets read for the first time or again, acknowledgements
    and drops of late data that respects the size limits terminates inside the
    store and gives the answers of the queue: packets leave it once for their
    first transmission, in order and skipping the expired ones, stay available by
    their offset for retransmission, and are removed from the front by
    acknowledgement or lateness. *)
Theorem snd_buffer_refines junk bl tag unit_ (s : t) (q : queue) (os : list buf_op) :
  0 <= tag < bl -> bl < 2 ^ 30 -> Z.of_nat (length (m_pcData junk)) = bl ->
  bmodels bl tag unit_ s q -> buf_ops_ok (bl - tag) unit_ q os ->
  exists s', buf_runs junk s os = Some (fst (buf_specs (bl - tag) q os), s')
    /\ bmodels bl tag unit_ s' (snd (buf_specs (bl - tag) q os)).
Proof. intros. by apply buf_runs_models. Qed.

Definition junk_block : Block := mkBlock [0; 0; 0; 0] 7 7 7 7 7 7 0.

(** A five-byte message through a buffer of two blocks of four bytes, that grows:
    two packets are sent, the first is read again, then both acknowledged. *)
Lemma snd_buffer_refines_witness :
  exists s', buf_runs junk_block (create junk_block 2 4 0)
    [BufAdd [1; 2; 3; 4; 5] (mkCtrl (-1) true 50 (2 ^ 31 - 1) (-1)) 60; BufRead 0 (fun _ => 70); BufRead 0 (fun _ => 70);
     BufReadOld 0 (2 ^ 31 - 1) (fun _ => 80); BufAck 5]
  = Some ([AnsCtrl (mkCtrl (-1) true 50 1 1);
           AnsRead 4 (Some (mkView [1; 2; 3; 4] (2 ^ 31 - 1) 0xA0000001 50)) 0;
           AnsRead 1 (Some (mkView [5] 0 0x60000001 50)) 0;
           AnsOld (RdData 4 (mkView [1; 2; 3; 4] (2 ^ 31 - 1) 0xA0000001 50)); AnsAck], s')
  /\ getCurrBufSize s' = 0.
Proof.
  destruct (snd_buffer_refines junk_block 4 0 2 (create junk_block 2 4 0) (mkQueue [] 0 1 0)
    [BufAdd [1; 2; 3; 4; 5] (mkCtrl (-1) true 50 (2 ^ 31 - 1) (-1)) 60; BufRead 0 (fun _ => 70); BufRead 0 (fun _ => 70);
     BufReadOld 0 (2 ^ 31 - 1) (fun _ => 80); BufAck 5]) as (s' & E & [[ring R] _ _ _]).
  - lia.
  - lia.
  - reflexivity.
  - apply buf_create_models; [lia|reflexivity].
  - cbn [buf_ops_ok buf_op_ok]. split_and!; try exact I; try lia; vm_compute; congruence.
  - exists s'. split; [rewrite E; vm_compute; reflexivity|]. unfold getCurrBufSize. rewrite (b_count _ _ _ R). vm_compute. reflexivity.
Defined.

(** ** Messages and their fragments *)

(** The packet a fragment is sent as. *)
Definition packet_of (it : item) : CPacket.t := CPacket.mk (it_seq it) (it_bits it) 0 0 (it_data it).

(** The position of fragment [i] of [n] in its message. *)
Definition boundary_at (i n : Z) : PacketBoundary :=
  if i =? 0 then if n =? 1 then PB_SOLO else PB_FIRST else if i =? n - 1 then PB_LAST else PB_SUBSEQUENT.

Lemma fragment_bits_sum base i n : 0 <= base < 2 ^ 30 -> 0 <= i < n ->
  fragment_bits base i n = base + PacketBoundary_to (boundary_at i n) * 2 ^ 30.
Proof.
  intros Hb Hi. unfold fragment_bits, boundary_at.
  change (PacketBoundaryBits PB_FIRST) with (Z.shiftl 2 30). change (PacketBoundaryBits PB_LAST) with (Z.shiftl 1 30).
  destruct (Z.eqb_spec i 0), (Z.eqb_spec i (n - 1)); destruct (Z.eqb_spec n 1); try lia;
    rewrite <- ?Z.lor_assoc; try change (Z.lor (Z.shiftl 2 30) (Z.shiftl 1 30)) with (Z.shiftl 3 30);
    rewrite ?lor_shift_add by lia; simpl; lia.
Qed.

Lemma boundary_bits b base : 0 <= base < 2 ^ 30 ->
  PacketBoundary_of (Bits.unwrap MSGNO_PACKET_BOUNDARY (base + PacketBoundary_to b * 2 ^ 30)) = b.
Proof.
  intros Hb. unfold Bits.unwrap. change (Bits.mask MSGNO_PACKET_BOUNDARY) with (Z.shiftl (Z.ones 2) 30).
  change (Bits.offset MSGNO_PACKET_BOUNDARY) with 30. rewrite Z.shiftr_land, Z.shiftr_shiftl_l by lia.
  change (Z.shiftl (Z.ones 2) (30 - 30)) with (Z.ones 2). rewrite Z.land_ones, Z.shiftr_div_pow2 by lia.
  rewrite Z.div_add by lia. rewrite Z.div_small by lia. by destruct b.
Qed.

Lemma message_base no (flag : bool) : 0 <= no < 2 ^ 26 ->
  Z.lor no (if flag then Bits.mask MSGNO_PACKET_INORDER else 0) = no + (if flag then 2 ^ 29 else 0).
Proof.
  intros. change (Bits.mask MSGNO_PACKET_INORDER) with (Z.shiftl 1 29).
  destruct flag; [rewrite lor_shift_add by lia; lia|rewrite Z.lor_0_r; lia].
Qed.

Lemma message_bits no (flag : bool) b : 0 <= no < 2 ^ 26 ->
  Z.land (no + (if flag then 2 ^ 29 else 0) + PacketBoundary_to b * 2 ^ 30) (Bits.mask MSGNO_SEQ) = no.
Proof.
  intros. change (Bits.mask MSGNO_SEQ) with (Z.ones 26). rewrite Z.land_ones by lia.
  destruct flag; [replace (_ + _) with (no + (8 + PacketBoundary_to b * 16) * 2 ^ 26) by lia|
    replace (_ + _) with (no + (PacketBoundary_to b * 16) * 2 ^ 26) by lia]; rewrite Z.mod_add, Z.mod_small by lia; done.
Qed.

Lemma iter_incseq k x : Nat.iter k CSeqNo.incseq (seq_of x) = seq_of (x + Z.of_nat k).
Proof.
  induction k as [|k IH]; simpl; [f_equal; lia|]. rewrite IH. rewrite incseq_seq_of. f_equal. lia.
Qed.


