(* ===== verification/SndCtl.v ===== *)
(** * The sender's control of a socket (srtcore/core.cpp, class [CUDT])

    The functions that keep the sender's buffer, the sender's loss list and the
    sequence numbers [m_iSndLastAck], [m_iSndLastDataAck] and [m_iSndCurrSeqNo]
    together: loss reports and acknowledgements from the peer, late data dropped
    by the sender, the retransmission timer, the choice of the next packet to
    retransmit and the packing of a packet never sent.

    The functions are written in a state monad [M] that also collects what they
    ask of the rest of the socket ([event]); [None] is a memory access out of
    bounds (or a loop of the two containers that does not end). Every function
    holds [m_RecvAckLock] while it touches the state, so it runs as one step.
    The build is the default one, without socket groups ([ENABLE_BONDING] off). *)

From S2P Require Import Prelude SeqNo Packet RcvLossList SndLossList SndBuffer.

Module CUDTSnd.

Definition COMM_SYN_INTERVAL_US : Z := 10 * 1000.
Definition SRT_TLPKTDROP_MINTHRESHOLD_MS : Z := 1000.
Definition INITIAL_RTT : Z := 10 * COMM_SYN_INTERVAL_US.
Definition INITIAL_RTTVAR : Z := Z.quot INITIAL_RTT 2.
Definition SEND_LITE_ACK : Z := 4.

Definition ACKD_RCVLASTACK : nat := 0.
Definition ACKD_RTT : nat := 1.
Definition ACKD_RTTVAR : nat := 2.
Definition ACKD_BUFFERLEFT : nat := 3.
Definition ACKD_RCVSPEED : nat := 4.
Definition ACKD_BANDWIDTH : nat := 5.
Definition ACKD_RCVRATE : nat := 6.
Definition ACKD_TOTAL_SIZE_SMALL : Z := 4.
Definition ACKD_TOTAL_SIZE_UDTBASE : Z := 6.
Definition ACKD_FIELD_SIZE : Z := 4.

Inductive RexmitMethod := SRM_LATEREXMIT | SRM_FASTREXMIT.

(** What the functions only read. *)
Record env := mkEnv {
  m_bPeerNakReport : bool;
  iRetransmitAlgo : Z;
  m_bPeerTLPktDrop : bool;
  bMessageAPI : bool;
  m_iPeerTsbPdDelay_ms : Z;
  iSndDropDelay : Z;
  rexmitMethod : RexmitMethod;
  m_iCongestionWindow : Z;
  bPktsReceived : bool;            (** [m_stats.rcvr.recvd.total.count() != 0] *)
  m_iMaxDataPayloadSize : Z;
  m_bTsbPd : bool;
  tsStartTime : Z;                 (** [m_stats.tsStartTime] in microseconds *)
  m_bPeerTsbPd : bool;
  m_bPeerRexmitFlag : bool;
  m_PeerID : Z
}.

Record state := mkState {
  m_pSndLossList : CSndLossList.t;
  m_pSndBuffer : CSndBuffer.t;
  m_iSndLastAck : Z;
  m_iSndLastDataAck : Z;
  m_iSndLastFullAck : Z;
  m_iSndCurrSeqNo : Z;
  m_iSndLastAck2 : Z;
  m_SndLastAck2Time : Z;
  m_iFlowWindowSize : Z;
  m_tsLastRspAckTime : Z;
  m_iReXmitCount : Z;
  m_bBroken : bool;
  m_iSRTT : Z;
  m_iRTTVar : Z;
  m_bIsFirstRTTReceived : bool;
  m_iBandwidth : Z;
  m_iDeliveryRate : Z;
  m_iByteDeliveryRate : Z;
  m_iSndNextSeqNo : Z
}.

Definition set_loss (l : CSndLossList.t) (s : state) : state :=
  mkState l (m_pSndBuffer s) (m_iSndLastAck s) (m_iSndLastDataAck s) (m_iSndLastFullAck s) (m_iSndCurrSeqNo s)
    (m_iSndLastAck2 s) (m_SndLastAck2Time s) (m_iFlowWindowSize s) (m_tsLastRspAckTime s) (m_iReXmitCount s)
    (m_bBroken s) (m_iSRTT s) (m_iRTTVar s) (m_bIsFirstRTTReceived s) (m_iBandwidth s) (m_iDeliveryRate s) (m_iByteDeliveryRate s) (m_iSndNextSeqNo s).

Definition set_buffer (b : CSndBuffer.t) (s : state) : state :=
  mkState (m_pSndLossList s) b (m_iSndLastAck s) (m_iSndLastDataAck s) (m_iSndLastFullAck s) (m_iSndCurrSeqNo s)
    (m_iSndLastAck2 s) (m_SndLastAck2Time s) (m_iFlowWindowSize s) (m_tsLastRspAckTime s) (m_iReXmitCount s)
    (m_bBroken s) (m_iSRTT s) (m_iRTTVar s) (m_bIsFirstRTTReceived s) (m_iBandwidth s) (m_iDeliveryRate s) (m_iByteDeliveryRate s) (m_iSndNextSeqNo s).

Definition set_acks (last data full curr : Z) (s : state) : state :=
  mkState (m_pSndLossList s) (m_pSndBuffer s) last data full curr
    (m_iSndLastAck2 s) (m_SndLastAck2Time s) (m_iFlowWindowSize s) (m_tsLastRspAckTime s) (m_iReXmitCount s)
    (m_bBroken s) (m_iSRTT s) (m_iRTTVar s) (m_bIsFirstRTTReceived s) (m_iBandwidth s) (m_iDeliveryRate s) (m_iByteDeliveryRate s) (m_iSndNextSeqNo s).

Definition set_curr (curr : Z) (s : state) : state :=
  set_acks (m_iSndLastAck s) (m_iSndLastDataAck s) (m_iSndLastFullAck s) curr s.

Definition set_ack2 (no time : Z) (s : state) : state :=
  mkState (m_pSndLossList s) (m_pSndBuffer s) (m_iSndLastAck s) (m_iSndLastDataAck s) (m_iSndLastFullAck s) (m_iSndCurrSeqNo s)
    no time (m_iFlowWindowSize s) (m_tsLastRspAckTime s) (m_iReXmitCount s)
    (m_bBroken s) (m_iSRTT s) (m_iRTTVar s) (m_bIsFirstRTTReceived s) (m_iBandwidth s) (m_iDeliveryRate s) (m_iByteDeliveryRate s) (m_iSndNextSeqNo s).

(** Flow window, time of the last acknowledgement, retransmission count. *)
Definition set_window (win time count : Z) (s : state) : state :=
  mkState (m_pSndLossList s) (m_pSndBuffer s) (m_iSndLastAck s) (m_iSndLastDataAck s) (m_iSndLastFullAck s) (m_iSndCurrSeqNo s)
    (m_iSndLastAck2 s) (m_SndLastAck2Time s) win time count
    (m_bBroken s) (m_iSRTT s) (m_iRTTVar s) (m_bIsFirstRTTReceived s) (m_iBandwidth s) (m_iDeliveryRate s) (m_iByteDeliveryRate s) (m_iSndNextSeqNo s).

Definition set_broken (s : state) : state :=
  mkState (m_pSndLossList s) (m_pSndBuffer s) (m_iSndLastAck s) (m_iSndLastDataAck s) (m_iSndLastFullAck s) (m_iSndCurrSeqNo s)
    (m_iSndLastAck2 s) (m_SndLastAck2Time s) (m_iFlowWindowSize s) (m_tsLastRspAckTime s) (m_iReXmitCount s)
    true (m_iSRTT s) (m_iRTTVar s) (m_bIsFirstRTTReceived s) (m_iBandwidth s) (m_iDeliveryRate s) (m_iByteDeliveryRate s) (m_iSndNextSeqNo s).

Definition set_rtt (rtt var : Z) (first : bool) (s : state) : state :=
  mkState (m_pSndLossList s) (m_pSndBuffer s) (m_iSndLastAck s) (m_iSndLastDataAck s) (m_iSndLastFullAck s) (m_iSndCurrSeqNo s)
    (m_iSndLastAck2 s) (m_SndLastAck2Time s) (m_iFlowWindowSize s) (m_tsLastRspAckTime s) (m_iReXmitCount s)
    (m_bBroken s) rtt var first (m_iBandwidth s) (m_iDeliveryRate s) (m_iByteDeliveryRate s) (m_iSndNextSeqNo s).

Definition set_rates (bw rate brate : Z) (s : state) : state :=
  mkState (m_pSndLossList s) (m_pSndBuffer s) (m_iSndLastAck s) (m_iSndLastDataAck s) (m_iSndLastFullAck s) (m_iSndCurrSeqNo s)
    (m_iSndLastAck2 s) (m_SndLastAck2Time s) (m_iFlowWindowSize s) (m_tsLastRspAckTime s) (m_iReXmitCount s)
    (m_bBroken s) (m_iSRTT s) (m_iRTTVar s) (m_bIsFirstRTTReceived s) bw rate brate (m_iSndNextSeqNo s).

Definition set_next (next : Z) (s : state) : state :=
  mkState (m_pSndLossList s) (m_pSndBuffer s) (m_iSndLastAck s) (m_iSndLastDataAck s) (m_iSndLastFullAck s) (m_iSndCurrSeqNo s)
    (m_iSndLastAck2 s) (m_SndLastAck2Time s) (m_iFlowWindowSize s) (m_tsLastRspAckTime s) (m_iReXmitCount s)
    (m_bBroken s) (m_iSRTT s) (m_iRTTVar s) (m_bIsFirstRTTReceived s) (m_iBandwidth s) (m_iDeliveryRate s) (m_iByteDeliveryRate s) next.

(** ** Effects *)

Inductive event :=
  | SendDropReq (msgno lo hi : Z)
  | SendAckAck (ackno : Z)
  | StatLost (pkts : Z)
  | StatDropped (bytes pkts : Z)
  | CCLossReport
  | CCAck (seqno : Z)
  | CCCheckTimer (fast : bool)
  | NotifyWritable          (** [SRT_EPOLL_OUT] and the sender's wake-up *)
  | Schedule                (** [m_pSndUList->update] *)
  | BreakConnection.        (** [m_iBrokenCounter = 0], [updateBrokenConnection] and its dependencies *)

Definition M (A : Type) : Type := state -> option (A * list event * state).

#[export] Instance M_ret : MRet M := fun A a s => Some (a, [], s).
#[export] Instance M_bind : MBind M := fun A B f m s =>
  match m s with
  | None => None
  | Some (a, e1, s1) => match f a s1 with None => None | Some (b, e2, s2) => Some (b, e1 ++ e2, s2) end
  end.

Definition get : M state := fun s => Some (s, [], s).
Definition modify (f : state -> state) : M unit := fun s => Some (tt, [], f s).
Definition emit (e : event) : M unit := fun s => Some (tt, [e], s).
Definition lift {A} (x : option A) : M A := fun s => a ← x; Some (a, [], s).

(** Calls on the two containers. *)
Definition loss_insert (lo hi : Z) : M Z :=
  s ← get; r ← lift (CSndLossList.insert (m_pSndLossList s) lo hi); modify (set_loss (snd r));; mret (fst r).

Definition loss_removeUpTo (seqno : Z) : M unit :=
  s ← get; l ← lift (CSndLossList.removeUpTo (m_pSndLossList s) seqno); modify (set_loss l).

Definition loss_pop : M Z :=
  s ← get; r ← lift (CSndLossList.popLostSeq (m_pSndLossList s)); modify (set_loss (snd r));; mret (fst r).

Definition buffer_ack (offset : Z) : M unit :=
  s ← get; b ← lift (CSndBuffer.ackData offset (m_pSndBuffer s)); modify (set_buffer b).

Definition break_connection : M unit := modify set_broken;; emit BreakConnection.

(** ** Loss reports from the peer *)

(** A valid range: the part from [m_iSndLastAck] on is recorded, a DROPREQ
    answers the part before it. *)
Definition loss_range (lo hi : Z) : M unit :=
  s ← get;
  if CSeqNo.seqcmp lo (m_iSndLastAck s) >=? 0 then
    num ← loss_insert lo hi; emit (StatLost num)
  else if CSeqNo.seqcmp hi (m_iSndLastAck s) >=? 0 then
    num ← loss_insert (m_iSndLastAck s) hi;
    emit (SendDropReq 0 lo (CSeqNo.decseq (m_iSndLastAck s)));; emit (StatLost num)
  else
    emit (SendDropReq 0 lo hi);; emit (StatLost 0).

(** A single number; whether it is acceptable. *)
Definition loss_single (seq : Z) : M bool :=
  s ← get;
  if CSeqNo.seqcmp seq (m_iSndLastAck s) >=? 0 then
    if CSeqNo.seqcmp seq (m_iSndCurrSeqNo s) >? 0 then mret false
    else num ← loss_insert seq seq; emit (StatLost num);; mret true
  else emit (SendDropReq 0 seq seq);; mret true.

(** The loop over the words of the report; whether the report is [secure]. *)
Fixpoint decode_loss (losslist : list Z) : M bool :=
  match losslist with
  | [] => mret true
  | w :: rest =>
    if IsSet w CRcvLossList.LOSSDATA_SEQNO_RANGE_FIRST then
      match rest with
      | [] => mret false
      | hi :: rest =>
        let lo := Bits.unwrap SEQNO_VALUE w in
        s ← get;
        if (CSeqNo.seqcmp lo hi >? 0) || (CSeqNo.seqcmp hi (m_iSndCurrSeqNo s) >? 0) then mret false
        else loss_range lo hi;; decode_loss rest
      end
    else
      ok ← loss_single w; if ok : bool then decode_loss rest else mret false
  end.

Definition processCtrlLossReport (losslist : list Z) : M bool :=
  secure ← decode_loss losslist;
  emit CCLossReport;;
  if negb secure then break_connection;; mret false
  else emit Schedule;; mret true.

(** ** Acknowledgements from the peer *)

Definition updateSndLossListOnACK (ackdata_seqno : Z) : M unit :=
  s ← get;
  let offset := CSeqNo.seqoff (m_iSndLastDataAck s) ackdata_seqno in
  if offset <=? 0 then mret tt
  else
    modify (fun s => set_acks (m_iSndLastAck s) ackdata_seqno (m_iSndLastFullAck s) (m_iSndCurrSeqNo s) s);;
    loss_removeUpTo (CSeqNo.decseq ackdata_seqno);;
    buffer_ack offset;;
    emit NotifyWritable;; emit Schedule.

Definition getFlightSpan (lastack curseq : Z) : Z := i32 (CSeqNo.seqlen lastack (CSeqNo.incseq curseq) - 1).

(** [avg_iir<N>]: the weights are [size_t], so the average is taken on 64 bits. *)
Definition u64 (z : Z) : Z := z mod 2 ^ 64.
Definition avg_iir (n old_value new_value : Z) : Z :=
  i32 (u64 (u64 (u64 old_value * (n - 1)) + u64 new_value) / n).

Definition ack_lite (ackdata_seqno currtime : Z) : M unit :=
  s ← get;
  if CSeqNo.seqcmp ackdata_seqno (m_iSndLastAck s) >=? 0 then
    modify (fun s => set_window (i32 (m_iFlowWindowSize s - CSeqNo.seqoff (m_iSndLastAck s) ackdata_seqno)) currtime 1 s);;
    modify (fun s => set_acks ackdata_seqno (m_iSndLastDataAck s) (m_iSndLastFullAck s) (m_iSndCurrSeqNo s) s)
  else mret tt.

Definition ack_ackack (ack_seqno currtime : Z) : M unit :=
  s ← get;
  if (currtime - m_SndLastAck2Time s >? COMM_SYN_INTERVAL_US) || (ack_seqno =? m_iSndLastAck2 s) then
    emit (SendAckAck ack_seqno);; modify (set_ack2 ack_seqno currtime)
  else mret tt.

(** The flow window and [m_iSndLastAck] move together; a window that opens
    schedules the socket. *)
Definition ack_window (e : env) (ackdata_seqno buffer_left currtime : Z) : M unit :=
  s ← get;
  if CSeqNo.seqcmp ackdata_seqno (m_iSndLastAck s) >=? 0 then
    let bWasStuck := Z.min (m_iFlowWindowSize s) (m_iCongestionWindow e) <=? getFlightSpan (m_iSndLastAck s) (m_iSndCurrSeqNo s) in
    modify (set_window buffer_left currtime 1);;
    modify (fun s => set_acks ackdata_seqno (m_iSndLastDataAck s) (m_iSndLastFullAck s) (m_iSndCurrSeqNo s) s);;
    s ← get;
    if bWasStuck && (Z.min (m_iFlowWindowSize s) (m_iCongestionWindow e) >? getFlightSpan (m_iSndLastAck s) (m_iSndCurrSeqNo s))
    then emit Schedule else mret tt
  else mret tt.

Definition ack_rtt (e : env) (rtt rttvar : Z) (s : state) : state :=
  if m_bIsFirstRTTReceived s then
    if bPktsReceived e then
      if negb (rtt =? INITIAL_RTT) || negb (rttvar =? INITIAL_RTTVAR) then
        set_rtt (avg_iir 8 (m_iSRTT s) rtt) (avg_iir 4 (m_iRTTVar s) (c_abs (i32 (rtt - m_iSRTT s)))) true s
      else s
    else set_rtt rtt rttvar true s
  else if negb (rtt =? INITIAL_RTT) && negb (rttvar =? INITIAL_RTTVAR) then set_rtt rtt rttvar true s
  else s.

Definition ack_rates (e : env) (acksize : Z) (ackdata : list Z) : M unit :=
  if acksize >? ACKD_TOTAL_SIZE_SMALL then
    pktps ← lift (ackdata !! ACKD_RCVSPEED);
    bandwidth ← lift (ackdata !! ACKD_BANDWIDTH);
    bytesps ← (if acksize >? ACKD_TOTAL_SIZE_UDTBASE then lift (ackdata !! ACKD_RCVRATE)
               else mret (i32 (pktps * m_iMaxDataPayloadSize e)));
    modify (fun s => set_rates (avg_iir 8 (m_iBandwidth s) bandwidth) (avg_iir 8 (m_iDeliveryRate s) pktps)
                       (avg_iir 8 (m_iByteDeliveryRate s) bytesps) s)
  else mret tt.

(** [ackdata] are the [pktlen / 4] whole words of the payload: reading past them
    is [None]. [ack_seqno] is the header's acknowledgement number. *)
Definition processCtrlAck (e : env) (pktlen ack_seqno : Z) (ackdata : list Z) (currtime : Z) : M bool :=
  let isLiteAck := pktlen =? SEND_LITE_ACK in
  if negb isLiteAck && (pktlen <? ACKD_TOTAL_SIZE_SMALL * ACKD_FIELD_SIZE) then mret false
  else
    ackdata_seqno ← lift (ackdata !! ACKD_RCVLASTACK);
    if ackdata_seqno <? 0 then mret false
    else
      updateSndLossListOnACK ackdata_seqno;;
      if isLiteAck then ack_lite ackdata_seqno currtime;; mret true
      else
        let acksize := pktlen / ACKD_FIELD_SIZE in
        ack_ackack ack_seqno currtime;;
        s ← get;
        if CSeqNo.seqcmp ackdata_seqno (CSeqNo.incseq (m_iSndCurrSeqNo s)) >? 0 then
          break_connection;; mret false
        else
          buffer_left ← lift (ackdata !! ACKD_BUFFERLEFT);
          ack_window e ackdata_seqno buffer_left currtime;;
          s ← get;
          if CSeqNo.seqoff (m_iSndLastFullAck s) ackdata_seqno <=? 0 then mret true
          else
            modify (fun s => set_acks (m_iSndLastAck s) (m_iSndLastDataAck s) ackdata_seqno (m_iSndCurrSeqNo s) s);;
            rtt ← lift (ackdata !! ACKD_RTT);
            rttvar ← lift (ackdata !! ACKD_RTTVAR);
            modify (ack_rtt e rtt rttvar);;
            ack_rates e acksize ackdata;;
            emit (CCAck ackdata_seqno);;
            mret true.

(** ** Late data and the retransmission timer *)

Inductive drop_result := DropCount (pkts : Z) | DropThrow.

Definition drop_threshold_ms (e : env) : Z :=
  if iSndDropDelay e >=? 0
  then Z.max (m_iPeerTsbPdDelay_ms e + iSndDropDelay e) SRT_TLPKTDROP_MINTHRESHOLD_MS + Z.quot (2 * COMM_SYN_INTERVAL_US) 1000
  else 0.

Definition sndDropTooLate (e : env) (tnow : Z) : M drop_result :=
  if negb (m_bPeerTLPktDrop e) then mret (DropCount 0)
  else if negb (bMessageAPI e) then mret DropThrow
  else
    s ← get;
    delay ← lift (CSndBuffer.getBufferingDelay tnow (m_pSndBuffer s));
    let buffdelay_ms := i32 (CSndBuffer.count_milliseconds delay) in
    let threshold_ms := drop_threshold_ms e in
    if (threshold_ms =? 0) || (buffdelay_ms <=? threshold_ms) then mret (DropCount 0)
    else
      r ← lift (CSndBuffer.dropLateData (tnow - threshold_ms * 1000) (m_pSndBuffer s));
      let '(dpkts, dbytes, first_msgno, b) := r in
      modify (set_buffer b);;
      if dpkts <=? 0 then mret (DropCount 0)
      else
        modify (fun s => set_window (i32 (m_iFlowWindowSize s + dpkts)) (m_tsLastRspAckTime s) (m_iReXmitCount s) s);;
        emit (StatDropped dbytes dpkts);;
        let fakeack := CSeqNo.incseq_by (m_iSndLastDataAck s) dpkts in
        modify (fun s => set_acks fakeack fakeack (m_iSndLastFullAck s) (m_iSndCurrSeqNo s) s);;
        let minlastack := CSeqNo.decseq fakeack in
        loss_removeUpTo minlastack;;
        modify (fun s => if CSeqNo.seqcmp (m_iSndCurrSeqNo s) minlastack <? 0 then set_curr minlastack s else s);;
        mret (DropCount dpkts).

Definition checkRexmitTimer (e : env) (currtime : Z) : M unit :=
  s ← get;
  let rtt_syn := u64 (i32 (m_iSRTT s + 4 * m_iRTTVar s + 2 * COMM_SYN_INTERVAL_US)) in
  let exp_int_us := u64 (m_iReXmitCount s * rtt_syn + COMM_SYN_INTERVAL_US) in
  if currtime <=? m_tsLastRspAckTime s + i64 exp_int_us then mret tt
  else if CSndBuffer.getCurrBufSize (m_pSndBuffer s) <=? 0 then mret tt
  else
    let is_laterexmit := match rexmitMethod e with SRM_LATEREXMIT => true | SRM_FASTREXMIT => false end in
    if negb is_laterexmit && m_bPeerNakReport e then mret tt
    else
      (if (getFlightSpan (m_iSndLastAck s) (m_iSndCurrSeqNo s) >? 0)
          && (negb is_laterexmit || (CSndLossList.getLossLength (m_pSndLossList s) =? 0)) then
         num ← loss_insert (m_iSndLastAck s) (m_iSndCurrSeqNo s);
         if num >? 0 then emit (StatLost num) else mret tt
       else mret tt);;
      modify (fun s => set_window (m_iFlowWindowSize s) (m_tsLastRspAckTime s) (i32 (m_iReXmitCount s + 1)) s);;
      emit (CCCheckTimer (negb is_laterexmit));;
      emit Schedule.

(** ** Packet headers *)

Definition makeTS (from_time tsStart : Z) : Z := i32 (from_time - tsStart).

(** The timestamp of a data packet: that of its origin time, or of the present
    when the peer has no TSBPD or the origin time precedes the connection. *)
Definition setDataPacketTS (e : env) (ts now : Z) : Z :=
  if negb (m_bPeerTsbPd e) then makeTS now (tsStartTime e)
  else if ts <? tsStartTime e then makeTS now (tsStartTime e)
  else makeTS ts (tsStartTime e).

(** The packet sent for what was read from the buffer; [packData] sets the
    destination. *)
Definition data_packet (e : env) (now : Z) (v : CSndBuffer.view) : CPacket.t :=
  CPacket.mk (CSndBuffer.v_seqno v) (CSndBuffer.v_msgflags v) (u32 (setDataPacketTS e (CSndBuffer.v_srctime v) now)) (m_PeerID e)
    (CSndBuffer.v_data v).

(** ** Retransmission *)

Definition checkRexmitRightTime (e : env) (offset current_time : Z) : M bool :=
  if negb (m_bPeerNakReport e) || (iRetransmitAlgo e =? 0) then mret true
  else
    s ← get;
    let time_nak := current_time - i32 (m_iSRTT s - 4 * m_iRTTVar s) in
    tsLastRexmit ← lift (CSndBuffer.getPacketRexmitTime offset (m_pSndBuffer s));
    mret (negb (tsLastRexmit >=? time_nak)).

(** The inner loop: the first number not outdated, with its offset, or
    [SRT_SEQNO_NONE] with -1. *)
Fixpoint pop_outdated (fuel : nat) : M (Z * Z) :=
  match fuel with
  | O => lift None
  | S f =>
    seq ← loss_pop;
    if seq =? SRT_SEQNO_NONE then mret (SRT_SEQNO_NONE, -1)
    else
      s ← get;
      let offset := CSeqNo.seqoff (m_iSndLastDataAck s) seq in
      if offset >=? 0 then mret (seq, offset) else pop_outdated f
  end.

(** One pick of the outer loop: a number with its offset, an outdated head
    skipped with a DROPREQ. *)
Definition pick_rexmit (fuel : nat) : M (Z * Z) :=
  seq ← loss_pop;
  if seq =? SRT_SEQNO_NONE then mret (SRT_SEQNO_NONE, -1)
  else
    s ← get;
    let offset := CSeqNo.seqoff (m_iSndLastDataAck s) seq in
    if offset <? 0 then
      r ← pop_outdated fuel;
      emit (SendDropReq SRT_MSGNO_CONTROL seq (CSeqNo.decseq (m_iSndLastDataAck s)));;
      mret r
    else mret (seq, offset).

(** The k-th reading of the clock is [clk k]. Every round takes a number off the
    loss list, so [fuel] above its length is enough. *)
Fixpoint getCleanRexmitOffset (fuel : nat) (e : env) (clk : nat -> Z) : M (Z * Z) :=
  match fuel with
  | O => lift None
  | S f =>
    r ← pick_rexmit f;
    if fst r =? SRT_SEQNO_NONE then mret (SRT_SEQNO_NONE, -1)
    else
      ok ← checkRexmitRightTime e (snd r) (clk 0%nat);
      if negb ok then getCleanRexmitOffset f e (fun k => clk (S k))
      else mret r
  end.

Inductive extract_result :=
  | ExtractDone (payload : Z) (v : option CSndBuffer.view)
  | ExtractGoesOn.          (** the loop is not finished after the given rounds *)

(** The loop of [extractCleanRexmitPacket], at most [rounds] rounds; round [k]
    reads the clock at [clk k] and, for the packet itself, at [clk k] again. *)
Fixpoint extractCleanRexmitPacket (rounds : nat) (seqno offset : Z) (clk : nat -> Z) : M extract_result :=
  match rounds with
  | O => mret ExtractGoesOn
  | S n =>
    s ← get;
    r ← lift (CSndBuffer.readOld offset seqno (fun _ => clk 0%nat) (m_pSndBuffer s));
    modify (set_buffer (snd r));;
    match fst r with
    | CSndBuffer.RdDrop d =>
      emit (SendDropReq (CSndBuffer.drop_msgno d) (CSndBuffer.drop_begin d) (CSndBuffer.drop_end d));;
      loss_removeUpTo (CSndBuffer.drop_end d);;
      modify (fun s => set_curr (CSeqNo.maxseq (m_iSndCurrSeqNo s) (CSndBuffer.drop_end d)) s);;
      extractCleanRexmitPacket n seqno offset (fun k => clk (S k))
    | CSndBuffer.RdNone => mret (ExtractDone 0 None)
    | CSndBuffer.RdData len v => mret (ExtractDone len (Some v))
    end
  end.

Definition PACKET_SND_REXMIT : Z := Bits.mask MSGNO_REXMIT.

Inductive pack_result := PackNone | PackGoesOn | Packed (p : CPacket.t).

(** [packLostData], for ciphers without an authentication tag: the packet chosen,
    marked as a retransmission if the peer understands the mark. The loss list
    bounds the search; [rounds] is as for [extractCleanRexmitPacket]. *)
Definition packLostData (rounds : nat) (e : env) (clk clk' : nat -> Z) (now : Z) : M pack_result :=
  s ← get;
  r ← getCleanRexmitOffset (S (Z.to_nat (CSndLossList.getLossLength (m_pSndLossList s)))) e clk;
  if fst r =? SRT_SEQNO_NONE then mret PackNone
  else
    x ← extractCleanRexmitPacket rounds (fst r) (snd r) clk';
    match x with
    | ExtractGoesOn => mret PackGoesOn
    | ExtractDone payload w =>
      if payload <=? 0 then mret PackNone
      else
        v ← lift w;
        let p := data_packet e now v in
        mret (Packed (if m_bPeerRexmitFlag e then CPacket.set_msgno (Z.lor (CPacket.ph_msgno p) PACKET_SND_REXMIT) p else p))
    end.

(** ** First transmission *)

(** [setInitialSndSeq]. *)
Definition setInitialSndSeq (isn : Z) (s : state) : state :=
  set_next isn (set_ack2 isn (m_SndLastAck2Time s) (set_acks isn isn isn (CSeqNo.decseq isn) s)).

Inductive send_result := Scheduled (c : CSndBuffer.MsgCtrl) | SendThrow.

(** The part of [sendmsg2] under the lock: the message is put into the buffer
    under the next sequence numbers. [data] are the bytes admitted. *)
Definition schedule_message (junk : CSndBuffer.Block) (e : env) (data : list Z) (c : CSndBuffer.MsgCtrl) (now : Z) : M send_result :=
  s ← get;
  let seqno := m_iSndNextSeqNo s in
  let t := CSndBuffer.srctime c in
  if negb (t =? 0) && (t <? tsStartTime e) then mret SendThrow
  else
    let t := if negb (t =? 0) && (negb (bMessageAPI e) || negb (m_bTsbPd e)) then 0 else t in
    r ← lift (CSndBuffer.addBuffer junk data
                (CSndBuffer.mkCtrl (CSndBuffer.msgttl c) (CSndBuffer.inorder c) t seqno (CSndBuffer.msgno c)) now (m_pSndBuffer s));
    modify (set_buffer (snd r));;
    modify (set_next (CSndBuffer.pktseq (fst r)));;
    emit Schedule;;
    mret (Scheduled (CSndBuffer.mkCtrl (CSndBuffer.msgttl (fst r)) (CSndBuffer.inorder (fst r)) (CSndBuffer.srctime (fst r)) seqno
                       (CSndBuffer.msgno (fst r)))).

(** The part of [packUniqueData] before encryption: the packet taken from the
    buffer gets the next sequence number. [kflg] are the key flags, -1 when
    encryption is required and not possible. *)
Definition packUniqueData (e : env) (kflg : Z) (clk : nat -> Z) (now : Z) : M (option CPacket.t) :=
  s ← get;
  let cwnd := Z.min (m_iFlowWindowSize s) (m_iCongestionWindow e) in
  let flightspan := getFlightSpan (m_iSndLastAck s) (m_iSndCurrSeqNo s) in
  if cwnd <=? flightspan then mret None
  else
    r ← lift (CSndBuffer.readData kflg clk (m_pSndBuffer s));
    let '(pld_size, w, pktskipseqno, b) := r in
    modify (set_buffer b);;
    modify (fun s => if negb (pktskipseqno =? 0) then set_curr (CSeqNo.incseq_by (m_iSndCurrSeqNo s) pktskipseqno) s else s);;
    if pld_size =? 0 then mret None
    else
      modify (fun s => set_curr (CSeqNo.incseq (m_iSndCurrSeqNo s)) s);;
      s ← get;
      v ← lift w;
      mret (Some (CPacket.set_seqno (m_iSndCurrSeqNo s) (data_packet e now v))).

End CUDTSnd.
