(* ===== verification/SndCtlInv.v ===== *)
(** * The sender's invariant

    The sequence numbers of the sender, its buffer and its loss list describe one
    stream of packets: [a] is the index of the oldest packet not acknowledged,
    [c] that of the last one sent; the buffer holds the packets from [a] on, of
    which those up to [c] were sent, and the loss list only packets between the
    two. The operations of SndCtl.v keep this, and do what the protocol asks. *)

From S2P Require Import Prelude SeqNo Packet Ranges RcvLossList RcvLossListSpec RcvLossListRefine.
From S2P Require Import SndLossList SndLossListSpec SndLossListRefine SndBuffer SndBufferSpec SndBufferRefine SndCtl.
Import CUDTSnd.

Notation LM := CSndLossList.m_iSize.

Record sinv (s : state) (a c : Z) (A : gset Z) (q : queue) : Prop := mkSinv {
  si_loss : smodels (m_pSndLossList s) A;
  si_buf : exists ring, brep (m_pSndBuffer s) ring q;
  si_last : m_iSndLastAck s = seq_of a;
  si_data : m_iSndLastDataAck s = seq_of a;
  si_curr : m_iSndCurrSeqNo s = seq_of c;
  si_next : m_iSndNextSeqNo s = seq_of (a + Z.of_nat (length (items q)));
  si_sent : Z.of_nat (sent q) = c + 1 - a;
  si_span : Z.of_nat (length (items q)) < LM (m_pSndLossList s);
  si_in : forall x, x ∈ A -> a <= x <= c;
  si_seq : forall (i : nat) it, items q !! i = Some it -> it_seq it = seq_of (a + Z.of_nat i) /\ 0 < it_len it
}.

(** Executes the next calls of the monad. *)
Ltac mrun := cbv beta iota delta [mbind M_bind mret M_ret get modify emit lift option_bind fst snd]; cbn [app].

Lemma smodels_size l A : smodels l A -> 0 < LM l <= 2 ^ 29.
Proof. intros (c & nodes & lo & R & _). exact (s_size _ _ _ R). Qed.

Lemma sinv_size s a c A q : sinv s a c A q -> 0 < LM (m_pSndLossList s) <= 2 ^ 29.
Proof. intros I. by eapply smodels_size, si_loss. Qed.

Lemma sinv_bounds s a c A q : sinv s a c A q -> a <= c + 1 /\ c + 1 - a < 2 ^ 29 /\ c + 1 - a <= Z.of_nat (length (items q)).
Proof.
  intros I. pose proof (sinv_size _ _ _ _ _ I). pose proof (si_sent _ _ _ _ _ I). pose proof (si_span _ _ _ _ _ I).
  destruct (si_buf _ _ _ _ _ I) as [ring R]. pose proof (b_sent _ _ _ R). lia.
Qed.

(** Only the loss list changes. *)
Lemma sinv_set_loss s a c A q l' A' :
  sinv s a c A q -> smodels l' A' -> LM l' = LM (m_pSndLossList s) -> (forall x, x ∈ A' -> a <= x <= c) ->
  sinv (set_loss l' s) a c A' q.
Proof. intros [] Hm HN Hin. constructor; try done. cbn. lia. Qed.

(** ** Loss reports *)

Lemma loss_insert_run s a c A q x1 x2 :
  sinv s a c A q -> a <= x1 <= x2 -> x2 <= c ->
  exists l', loss_insert (seq_of x1) (seq_of x2) s
      = Some (Z.of_nat (size (A ∪ range_set x1 x2)) - Z.of_nat (size A), [], set_loss l' s)
    /\ sinv (set_loss l' s) a c (A ∪ range_set x1 x2) q.
Proof.
  intros I Hx Hc. destruct (snd_insert_models _ _ x1 x2 (si_loss _ _ _ _ _ I)) as (l' & E & Hm & HN).
  { pose proof (si_span _ _ _ _ _ I). pose proof (sinv_bounds _ _ _ _ _ I). cbn [snd_op_ok]. split_and!; try lia. intros x Hxa%(si_in _ _ _ _ _ I). lia. }
  exists l'. unfold loss_insert. mrun. rewrite E. mrun. split; [done|].
  eapply sinv_set_loss; try done. intros x [Hxa|Hxr%elem_of_range_set]%elem_of_union; [by apply (si_in _ _ _ _ _ I)|lia].
Qed.

Definition drop_request (e : event) : option (Z * Z * Z) :=
  match e with SendDropReq m lo hi => Some (m, lo, hi) | _ => None end.

Definition drop_requests (es : list event) : list (Z * Z * Z) := omap drop_request es.

(** The part of a reported range that precedes [a]. *)
Definition late_part (a : Z) (r : range) : list (Z * Z * Z) :=
  if fst r <? a then [(0, seq_of (fst r), seq_of (Z.min (snd r) (a - 1)))] else [].

(** The packets recorded for a reported range. *)
Definition recorded (a : Z) (r : range) : gset Z := range_set (Z.max (fst r) a) (snd r).

Lemma recorded_bounds a c (r : range) x : snd r <= c -> x ∈ recorded a r -> a <= x <= c.
Proof. unfold recorded. rewrite elem_of_range_set. lia. Qed.

(** A range the sender can take for one of its own: not beyond the last packet
    sent, and recent enough for the circular comparison. *)
Definition plausible (a c : Z) (r : range) : Prop :=
  fst r <= snd r /\ snd r <= c /\ c - fst r < CSeqNo.m_iSeqNoTH /\ a - fst r < CSeqNo.m_iSeqNoTH.

Lemma range_word x : IsSet (Z.lor (seq_of x) CRcvLossList.LOSSDATA_SEQNO_RANGE_FIRST) CRcvLossList.LOSSDATA_SEQNO_RANGE_FIRST = true
  /\ Bits.unwrap SEQNO_VALUE (Z.lor (seq_of x) CRcvLossList.LOSSDATA_SEQNO_RANGE_FIRST) = seq_of x.
Proof.
  pose proof (seq_of_valid x) as Hx. unfold valid_seq, CSeqNo.m_iMaxSeqNo in Hx.
  change CRcvLossList.LOSSDATA_SEQNO_RANGE_FIRST with (Z.shiftl (-1) 31). rewrite lor_shift_add by lia. split.
  - unfold IsSet. apply Z.eqb_eq. rewrite <- (lor_shift_add _ (-1) 31) by lia. apply Z.bits_inj'. intros n Hn.
    rewrite Z.land_spec, Z.lor_spec. by destruct (Z.testbit (Z.shiftl (-1) 31) n), (Z.testbit (seq_of x) n).
  - unfold Bits.unwrap. change (Bits.mask SEQNO_VALUE) with (Z.ones 31). change (Bits.offset SEQNO_VALUE) with 0.
    rewrite Z.shiftr_0_r, Z.land_ones, Z.mod_add, Z.mod_small by lia. done.
Qed.

Lemma single_word x : IsSet (seq_of x) CRcvLossList.LOSSDATA_SEQNO_RANGE_FIRST = false.
Proof.
  pose proof (seq_of_valid x) as Hx. unfold valid_seq, CSeqNo.m_iMaxSeqNo in Hx.
  unfold IsSet. apply Z.eqb_neq. change CRcvLossList.LOSSDATA_SEQNO_RANGE_FIRST with (Z.shiftl (-1) 31).
  assert (0 <= Z.land (seq_of x) (Z.shiftl (-1) 31)) by (apply Z.land_nonneg; lia). change (Z.shiftl (-1) 31) with (- 2 ^ 31) in *. lia.
Qed.

Section Report.

Context (s : state) (a c : Z) (A : gset Z) (q : queue) (I : sinv s a c A q).

Lemma loss_range_run r :
  plausible a c r ->
  exists ev l', loss_range (seq_of (fst r)) (seq_of (snd r)) s = Some (tt, ev, set_loss l' s)
    /\ drop_requests ev = late_part a r /\ sinv (set_loss l' s) a c (A ∪ recorded a r) q /\ Schedule ∉ ev.
Proof using I.
  destruct r as [lo hi]. intros (H1 & H2 & H3 & H4). cbn [fst snd] in *. pose proof (sinv_bounds _ _ _ _ _ I) as (Ha & Hs & _).
  unfold CSeqNo.m_iSeqNoTH in *. unfold loss_range, late_part, recorded. cbn [fst snd]. mrun.
  rewrite (si_last _ _ _ _ _ I), !seqcmp_geb by (unfold CSeqNo.m_iSeqNoTH; lia).
  rewrite !Z.geb_leb. destruct (Z.leb_spec a lo); [|destruct (Z.leb_spec a hi)].
  - destruct (loss_insert_run s a c A q lo hi I ltac:(lia) ltac:(lia)) as (l' & -> & I').
    destruct (Z.ltb_spec lo a); [lia|]. rewrite Z.max_l by lia. eexists _, l'. split; [reflexivity|]. split_and!; [done|done|set_solver].
  - destruct (loss_insert_run s a c A q a hi I ltac:(lia) ltac:(lia)) as (l' & -> & I').
    destruct (Z.ltb_spec lo a); [|lia]. rewrite Z.max_r, Z.min_r by lia. eexists _, l'. split; [reflexivity|].
    split_and!; [cbn; by rewrite decseq_seq_of|done|set_solver].
  - destruct (Z.ltb_spec lo a); [|lia]. rewrite Z.min_l by lia. exists [SendDropReq 0 (seq_of lo) (seq_of hi); StatLost 0], (m_pSndLossList s).
    replace (set_loss (m_pSndLossList s) s) with s by (by destruct s). split; [done|]. split; [done|]. split; [|set_solver].
    assert (A ∪ range_set (Z.max lo a) hi = A) as ->; [|done]. apply set_eq. intros x. rewrite elem_of_union, elem_of_range_set. intuition lia.
Qed.

Lemma loss_single_run x :
  plausible a c (x, x) ->
  exists ev l', loss_single (seq_of x) s = Some (true, ev, set_loss l' s)
    /\ drop_requests ev = late_part a (x, x) /\ sinv (set_loss l' s) a c (A ∪ recorded a (x, x)) q /\ Schedule ∉ ev.
Proof using I.
  intros (H1 & H2 & H3 & H4). cbn [fst snd] in *. pose proof (sinv_bounds _ _ _ _ _ I) as (Ha & Hs & _).
  unfold CSeqNo.m_iSeqNoTH in *. unfold loss_single, late_part, recorded. cbn [fst snd]. mrun.
  rewrite (si_last _ _ _ _ _ I), (si_curr _ _ _ _ _ I), seqcmp_geb, seqcmp_gtb by (unfold CSeqNo.m_iSeqNoTH; lia).
  rewrite Z.geb_leb, Z.gtb_ltb. destruct (Z.leb_spec a x).
  - destruct (Z.ltb_spec c x); [lia|]. destruct (loss_insert_run s a c A q x x I ltac:(lia) ltac:(lia)) as (l' & -> & I').
    destruct (Z.ltb_spec x a); [lia|]. rewrite Z.max_l by lia. eexists _, l'. split; [reflexivity|]. split_and!; [done|done|set_solver].
  - destruct (Z.ltb_spec x a); [|lia]. rewrite Z.min_l by lia. exists [SendDropReq 0 (seq_of x) (seq_of x)], (m_pSndLossList s).
    replace (set_loss (m_pSndLossList s) s) with s by (by destruct s). split; [done|]. split; [done|]. split; [|set_solver].
    assert (A ∪ range_set (Z.max x a) x = A) as ->; [|done]. apply set_eq. intros y. rewrite elem_of_union, elem_of_range_set. intuition lia.
Qed.

(** One entry of a report. *)
Lemma decode_entry_run r rest :
  plausible a c r ->
  exists ev l', decode_loss (report_words r ++ rest) s
      = match decode_loss rest (set_loss l' s) with None => None | Some (b, e2, s2) => Some (b, ev ++ e2, s2) end
    /\ drop_requests ev = late_part a r /\ sinv (set_loss l' s) a c (A ∪ recorded a r) q /\ Schedule ∉ ev.
Proof using I.
  intros Hp. destruct r as [lo hi]. pose proof Hp as (H1 & H2 & H3 & H4). cbn [fst snd] in *.
  pose proof (sinv_bounds _ _ _ _ _ I) as (Ha & Hs & _). unfold CSeqNo.m_iSeqNoTH in *.
  unfold report_words. cbn [fst snd]. destruct (Z.eqb_spec lo hi) as [->|Hne].
  - destruct (loss_single_run hi Hp) as (ev & l' & E & He & I'). exists ev, l'. split; [|done].
    cbn [decode_loss app]. rewrite single_word. unfold mbind at 1, M_bind at 1. rewrite E. done.
  - destruct (loss_range_run (lo, hi) Hp) as (ev & l' & E & He & I'). exists ev, l'. split; [|done].
    cbn [decode_loss app]. destruct (range_word lo) as [-> ->]. mrun. rewrite (si_curr _ _ _ _ _ I), !seqcmp_gtb by (unfold CSeqNo.m_iSeqNoTH; lia).
    rewrite !Z.gtb_ltb. destruct (Z.ltb_spec hi lo); [lia|]. destruct (Z.ltb_spec c hi); [lia|]. cbn [orb].
    cbn [fst snd] in E. rewrite E. by destruct (decode_loss rest (set_loss l' s)) as [[[] ?]|].
Qed.

End Report.

(** The packets recorded for a whole report. *)
Definition recorded_all (a : Z) (rs : list range) (A : gset Z) : gset Z := foldl (fun A r => A ∪ recorded a r) A rs.

Lemma decode_report_run s a c A q rs rest :
  sinv s a c A q -> Forall (plausible a c) rs ->
  exists ev l', decode_loss (concat (report_words <$> rs) ++ rest) s
      = match decode_loss rest (set_loss l' s) with None => None | Some (b, e2, s2) => Some (b, ev ++ e2, s2) end
    /\ drop_requests ev = concat (late_part a <$> rs) /\ sinv (set_loss l' s) a c (recorded_all a rs A) q /\ Schedule ∉ ev.
Proof.
  revert s A. induction rs as [|r rs IH]; intros s A I Hrs.
  - exists [], (m_pSndLossList s). replace (set_loss (m_pSndLossList s) s) with s by (by destruct s). split; [|split_and!; [done|done|set_solver]].
    simpl. by destruct (decode_loss rest s) as [[[] ?]|].
  - apply list.Forall_cons in Hrs as [Hr Hrs]. rewrite !fmap_cons. cbn [concat]. rewrite <- app_assoc.
    destruct (decode_entry_run s a c A q I r (concat (report_words <$> rs) ++ rest) Hr) as (ev & l' & -> & He & I' & Hn).
    destruct (IH _ _ I' Hrs) as (ev2 & l2 & -> & He2 & I2 & Hn2). exists (ev ++ ev2), l2.
    replace (set_loss l2 (set_loss l' s)) with (set_loss l2 s) in * by done. split.
    + destruct (decode_loss rest (set_loss l2 s)) as [[[] ?]|]; [|done]. by rewrite app_assoc.
    + split; [|split; [exact I2|set_solver]]. unfold drop_requests in *. rewrite omap_app. by rewrite He, He2.
Qed.

(** ** Acknowledgements *)

(** The part of the state the invariant speaks about. *)
Definition core (s : state) :=
  (m_pSndLossList s, m_pSndBuffer s, m_iSndLastAck s, m_iSndLastDataAck s, m_iSndCurrSeqNo s, m_iSndNextSeqNo s).

Lemma sinv_core s s' a c A q : core s' = core s -> sinv s a c A q -> sinv s' a c A q.
Proof. intros [= E1 E2 E3 E4 E5 E6] []. constructor; rewrite ?E1, ?E2, ?E3, ?E4, ?E5, ?E6; done. Qed.

(** What is left of the loss list after the packets before [k] are acknowledged. *)
Definition unacked (k : Z) (A : gset Z) : gset Z := filter (fun x => k <= x) A.

Lemma elem_of_unacked k A x : x ∈ unacked k A <-> k <= x /\ x ∈ A.
Proof. unfold unacked. by rewrite elem_of_filter. Qed.

Lemma loss_removeUpTo_run s A k :
  smodels (m_pSndLossList s) A -> (forall x, x ∈ A -> Z.abs (k - 1 - x) < CSeqNo.m_iSeqNoTH) ->
  exists l', loss_removeUpTo (CSeqNo.decseq (seq_of k)) s = Some (tt, [], set_loss l' s)
    /\ smodels l' (unacked k A) /\ LM l' = LM (m_pSndLossList s).
Proof.
  intros Hm Hn. rewrite decseq_seq_of. destruct (snd_remove_models _ _ (k - 1) Hm Hn) as (l' & E & Hm' & HN).
  exists l'. unfold loss_removeUpTo. mrun. rewrite E. mrun. split; [done|]. split; [|done].
  assert (unacked k A = filter (fun x => k - 1 < x) A) as ->; [|done].
  apply set_eq. intros x. rewrite elem_of_unacked, elem_of_filter. intuition lia.
Qed.

(** The state an acknowledgement of the packets before [k] leads to, with a loss
    list and a buffer that hold what is left. *)
Lemma sinv_acked s s' a c A q k :
  sinv s a c A q -> a <= k <= c + 1 ->
  smodels (m_pSndLossList s') (unacked k A) -> LM (m_pSndLossList s') = LM (m_pSndLossList s) ->
  (exists ring, brep (m_pSndBuffer s') ring (spec_ack (k - a) q)) ->
  m_iSndLastAck s' = seq_of k -> m_iSndLastDataAck s' = seq_of k -> m_iSndCurrSeqNo s' = seq_of c ->
  m_iSndNextSeqNo s' = m_iSndNextSeqNo s -> sinv s' k c (unacked k A) (spec_ack (k - a) q).
Proof.
  intros I Hk Hm HN Hb H1 H2 H3 H4. pose proof (sinv_bounds _ _ _ _ _ I) as (Ha & Hs & Hl). destruct I.
  unfold spec_ack in *. rewrite Nat.min_l in * by lia.
  constructor; try done; cbn [spec_pop items sent].
  - rewrite H4, si_next0, length_drop. f_equal. lia.
  - lia.
  - rewrite length_drop. lia.
  - intros x [Hx1 Hx2]%elem_of_unacked. pose proof (si_in0 x Hx2). lia.
  - intros i it. rewrite lookup_drop. intros Hi. destruct (si_seq0 _ _ Hi) as [-> ?]. split; [f_equal; lia|done].
Qed.

Lemma update_ack_run s a c A q k :
  sinv s a c A q -> a < k -> k - a < CSeqNo.m_iSeqNoTH ->
  exists l' b', updateSndLossListOnACK (seq_of k) s
      = Some (tt, [NotifyWritable; Schedule],
              set_buffer b' (set_loss l' (set_acks (m_iSndLastAck s) (seq_of k) (m_iSndLastFullAck s) (m_iSndCurrSeqNo s) s)))
    /\ smodels l' (unacked k A) /\ LM l' = LM (m_pSndLossList s)
    /\ exists ring, brep b' ring (spec_ack (k - a) q).
Proof.
  intros I Hk Hth. pose proof (sinv_bounds _ _ _ _ _ I) as (Ha & Hs & Hl). unfold CSeqNo.m_iSeqNoTH in *.
  unfold updateSndLossListOnACK. mrun. rewrite (si_data _ _ _ _ _ I), seqoff_seq_of by (unfold CSeqNo.m_iSeqNoTH; lia).
  destruct (Z.leb_spec (k - a) 0); [lia|].
  destruct (loss_removeUpTo_run (set_acks (m_iSndLastAck s) (seq_of k) (m_iSndLastFullAck s) (m_iSndCurrSeqNo s) s) A k)
    as (l' & -> & Hm & HN).
  { apply (si_loss _ _ _ _ _ I). }
  { intros x Hx%(si_in _ _ _ _ _ I). unfold CSeqNo.m_iSeqNoTH. lia. }
  destruct (si_buf _ _ _ _ _ I) as [ring R]. destruct (ackData_rep (k - a) _ ring q R ltac:(lia)) as (b' & ring' & E & R' & _).
  unfold buffer_ack. mrun. cbn [m_pSndBuffer set_loss set_acks]. rewrite E. mrun. exists l', b'. eauto.
Qed.

Lemma update_ack_old s a c A q k :
  sinv s a c A q -> k <= a -> a - k < CSeqNo.m_iSeqNoTH -> updateSndLossListOnACK (seq_of k) s = Some (tt, [], s).
Proof.
  intros I Hk Hth. unfold updateSndLossListOnACK. mrun. rewrite (si_data _ _ _ _ _ I), seqoff_seq_of by lia.
  destruct (Z.leb_spec (k - a) 0); [done|lia].
Qed.

Lemma ack_ackack_run no t s : exists ev s', ack_ackack no t s = Some (tt, ev, s') /\ core s' = core s
  /\ m_bBroken s' = m_bBroken s.
Proof. unfold ack_ackack. mrun. destruct ((_ >? _) || _); mrun; eauto. Qed.

Lemma ack_window_run e w t s a k :
  m_iSndLastAck s = seq_of a -> Z.abs (k - a) < CSeqNo.m_iSeqNoTH ->
  exists ev s', ack_window e (seq_of k) w t s = Some (tt, ev, s') /\ m_bBroken s' = m_bBroken s
    /\ core s' = core (set_acks (seq_of (Z.max a k)) (m_iSndLastDataAck s) (m_iSndLastFullAck s) (m_iSndCurrSeqNo s) s)
    /\ m_iFlowWindowSize s' = if a <=? k then w else m_iFlowWindowSize s.
Proof.
  intros Ha Hth. unfold ack_window. mrun. rewrite Ha, seqcmp_geb, Z.geb_leb by done.
  destruct (Z.leb_spec a k).
  - rewrite Z.max_r by lia. destruct (_ && _); eexists _, _; split; reflexivity || done.
  - rewrite Z.max_l by lia. eexists _, s. split; [done|]. split; [done|]. split; [|done]. rewrite <- Ha. by destruct s.
Qed.

Lemma ack_lite_run t s a k :
  m_iSndLastAck s = seq_of a -> Z.abs (k - a) < CSeqNo.m_iSeqNoTH ->
  exists s', ack_lite (seq_of k) t s = Some (tt, [], s') /\ m_bBroken s' = m_bBroken s
    /\ core s' = core (set_acks (seq_of (Z.max a k)) (m_iSndLastDataAck s) (m_iSndLastFullAck s) (m_iSndCurrSeqNo s) s).
Proof.
  intros Ha Hth. unfold ack_lite. mrun. rewrite Ha, seqcmp_geb, Z.geb_leb by done. destruct (Z.leb_spec a k).
  - rewrite Z.max_r by lia. eexists. split; reflexivity || done.
  - rewrite Z.max_l by lia. exists s. split; [done|]. split; [done|]. rewrite <- Ha. by destruct s.
Qed.

Lemma ack_rates_run e n ws s : Z.of_nat (length ws) = n -> n <> 5 ->
  exists s', ack_rates e n ws s = Some (tt, [], s') /\ core s' = core s /\ m_bBroken s' = m_bBroken s
    /\ m_iFlowWindowSize s' = m_iFlowWindowSize s.
Proof.
  intros Hl Hn. unfold ack_rates, ACKD_TOTAL_SIZE_SMALL, ACKD_TOTAL_SIZE_UDTBASE. rewrite !Z.gtb_ltb.
  destruct (Z.ltb_spec 4 n); [|mrun; eauto]. mrun. unfold ACKD_RCVSPEED, ACKD_BANDWIDTH, ACKD_RCVRATE.
  destruct (lookup_lt_is_Some_2 ws 4) as [w4 ->]; [lia|]. destruct (lookup_lt_is_Some_2 ws 5) as [w5 ->]; [lia|].
  destruct (Z.ltb_spec 6 n); [destruct (lookup_lt_is_Some_2 ws 6) as [w6 ->]; [lia|]|]; eauto.
Qed.

Lemma ack_rtt_core e r v s : core (ack_rtt e r v s) = core s /\ m_bBroken (ack_rtt e r v s) = m_bBroken s
  /\ m_iFlowWindowSize (ack_rtt e r v s) = m_iFlowWindowSize s.
Proof. unfold ack_rtt. repeat match goal with |- context [if ?b then _ else _] => destruct b end; done. Qed.

Lemma spec_ack_0 q : spec_ack 0 q = q.
Proof. unfold spec_ack, spec_pop. simpl. rewrite Nat.sub_0_r. by destruct q. Qed.

(** [updateSndLossListOnACK] for any acknowledgement within the window. *)
Lemma update_ack_step s a c A q k :
  sinv s a c A q -> Z.abs (k - a) < CSeqNo.m_iSeqNoTH ->
  exists ev s1, updateSndLossListOnACK (seq_of k) s = Some (tt, ev, s1)
    /\ smodels (m_pSndLossList s1) (unacked (Z.max a k) A) /\ LM (m_pSndLossList s1) = LM (m_pSndLossList s)
    /\ (exists ring, brep (m_pSndBuffer s1) ring (spec_ack (Z.max a k - a) q))
    /\ m_iSndLastAck s1 = seq_of a /\ m_iSndLastDataAck s1 = seq_of (Z.max a k) /\ m_iSndCurrSeqNo s1 = seq_of c
    /\ m_iSndNextSeqNo s1 = m_iSndNextSeqNo s /\ m_bBroken s1 = m_bBroken s /\ m_iFlowWindowSize s1 = m_iFlowWindowSize s.
Proof.
  intros I Hth. destruct (decide (k <= a)) as [Hle|Hgt].
  - eexists [], s. rewrite (update_ack_old s a c A q k) by (lia || done). rewrite Z.max_l, Z.sub_diag, spec_ack_0 by lia. destruct I.
    split_and!; try done. assert (unacked a A = A) as ->; [|done].
    apply set_eq. intros x. rewrite elem_of_unacked. split; [tauto|]. intros Hx. split; [apply si_in0|]; done.
  - destruct (update_ack_run s a c A q k I) as (l' & b' & -> & Hm & HN & Hb); [lia|lia|]. rewrite Z.max_r by lia.
    eexists _, _. split; [reflexivity|]. destruct I. by split_and!.
Qed.

Lemma seq_word_valid k : (seq_of k <? 0) = false.
Proof. pose proof (seq_of_valid k) as [? ?]. lia. Qed.

Section Ack.

Context (e : env) (no : Z) (ws : list Z) (t : Z) (s : state) (a c : Z) (A : gset Z) (q : queue) (k : Z).
Context (I : sinv s a c A q) (Hw : ws !! 0%nat = Some (seq_of k)) (Hth : Z.abs (k - a) < CSeqNo.m_iSeqNoTH).

Let a' := Z.max a k.

Lemma ack_lite_process :
  k <= c + 1 ->
  exists ev s', processCtrlAck e SEND_LITE_ACK no ws t s = Some (true, ev, s') /\ m_bBroken s' = m_bBroken s
    /\ sinv s' a' c (unacked a' A) (spec_ack (a' - a) q).
Proof using All.
  intros Hk. pose proof (sinv_bounds _ _ _ _ _ I) as (Ha & Hs & Hl).
  destruct (update_ack_step s a c A q k I Hth) as (ev & s1 & E1 & Hm & HN & Hb & H1 & H2 & H3 & H4 & H5 & H6).
  destruct (ack_lite_run t s1 a k H1 Hth) as (s2 & E2 & Hbr & Hc).
  unfold processCtrlAck. rewrite Z.eqb_refl. cbn [negb andb]. unfold ACKD_RCVLASTACK. mrun. rewrite Hw, seq_word_valid, E1, E2.
  eexists _, _. split; [reflexivity|]. split; [congruence|].
  eapply sinv_core; [exact Hc|]. eapply sinv_acked; try done; unfold a'; lia.
Qed.

Context (pktlen : Z) (Hlen : 16 <= pktlen) (Hws : Z.of_nat (length ws) = pktlen / ACKD_FIELD_SIZE).

Lemma ack_full_process w :
  k <= c + 1 -> c + 1 - k < CSeqNo.m_iSeqNoTH -> pktlen / ACKD_FIELD_SIZE <> 5 -> ws !! ACKD_BUFFERLEFT = Some w ->
  exists ev s', processCtrlAck e pktlen no ws t s = Some (true, ev, s') /\ m_bBroken s' = m_bBroken s
    /\ sinv s' a' c (unacked a' A) (spec_ack (a' - a) q)
    /\ m_iFlowWindowSize s' = if a <=? k then w else m_iFlowWindowSize s.
Proof using All.
  intros Hk Hkc H5 Hw3. pose proof (sinv_bounds _ _ _ _ _ I) as (Ha & Hs & Hl). unfold CSeqNo.m_iSeqNoTH in *.
  destruct (update_ack_step s a c A q k I Hth) as (ev & s1 & E1 & Hm & HN & Hb & B1 & B2 & B3 & B4 & B5 & B6).
  destruct (ack_ackack_run no t s1) as (ev2 & s2 & E2 & Hc2 & Hb2).
  assert (m_iSndLastAck s2 = seq_of a /\ m_iSndCurrSeqNo s2 = seq_of c) as [D1 D2] by (injection Hc2; intros; split; congruence).
  destruct (ack_window_run e w t s2 a k D1 Hth) as (ev3 & s3 & E3 & Hb3 & Hc3 & Hf3).
  assert (m_iFlowWindowSize s2 = m_iFlowWindowSize s1) as Hf2.
  { revert E2. unfold ack_ackack. mrun. destruct (_ || _); mrun; by intros [= _ <-]. }
  unfold processCtrlAck, SEND_LITE_ACK, ACKD_TOTAL_SIZE_SMALL, ACKD_FIELD_SIZE in *.
  destruct (Z.eqb_spec pktlen 4); [lia|]. destruct (Z.ltb_spec pktlen (4 * 4)); [lia|]. cbn [negb andb].
  unfold ACKD_RCVLASTACK, ACKD_RTT, ACKD_RTTVAR. mrun. rewrite Hw, seq_word_valid, E1, E2, D2, incseq_seq_of, seqcmp_gtb, Z.gtb_ltb
    by (unfold CSeqNo.m_iSeqNoTH; lia).
  destruct (Z.ltb_spec (c + 1) k); [lia|]. rewrite Hw3, E3.
  assert (sinv s3 a' c (unacked a' A) (spec_ack (a' - a) q)) as I3.
  { eapply sinv_core; [exact Hc3|]. injection Hc2. intros X1 X2 X3 X4 X5 X6.
    eapply sinv_acked; try done; cbn [set_acks m_pSndLossList m_pSndBuffer m_iSndLastAck m_iSndLastDataAck m_iSndCurrSeqNo m_iSndNextSeqNo];
      rewrite ?X1, ?X2, ?X3, ?X4, ?X5, ?X6; try done; unfold a'; lia. }
  assert (m_bBroken s3 = m_bBroken s) as Hbr by congruence.
  assert (m_iFlowWindowSize s3 = if a <=? k then w else m_iFlowWindowSize s) as Hfl by (by rewrite Hf3, Hf2, B6).
  destruct (_ <=? 0); [eexists _, _; split; [reflexivity|]; done|].
  destruct (lookup_lt_is_Some_2 ws 1) as [w1 ->]; [pose proof (lookup_lt_Some _ _ _ Hw3); unfold ACKD_BUFFERLEFT in *; lia|].
  destruct (lookup_lt_is_Some_2 ws 2) as [w2 ->]; [pose proof (lookup_lt_Some _ _ _ Hw3); unfold ACKD_BUFFERLEFT in *; lia|].
  set (s4 := ack_rtt e w1 w2 _). destruct (ack_rtt_core e w1 w2 (set_acks (m_iSndLastAck s3) (m_iSndLastDataAck s3) (seq_of k) (m_iSndCurrSeqNo s3) s3)) as (Hc4 & Hb4 & Hf4).
  fold s4 in Hc4, Hb4, Hf4. destruct (ack_rates_run e (pktlen / 4) ws s4 Hws H5) as (s5 & -> & Hc5 & Hb5 & Hf5).
  eexists _, _. split; [reflexivity|]. split; [cbn in Hb4; congruence|]. split; [|cbn in Hf4; congruence].
  eapply sinv_core; [|exact I3]. rewrite Hc5, Hc4. done.
Qed.

(** An acknowledgement beyond the last packet sent. *)
Lemma ack_full_reject :
  c + 1 < k -> k - c < CSeqNo.m_iSeqNoTH ->
  exists ev s', processCtrlAck e pktlen no ws t s = Some (false, ev, s') /\ m_bBroken s' = true /\ BreakConnection ∈ ev
    /\ exists ring, brep (m_pSndBuffer s') ring (spec_ack (k - a) q).
Proof using All.
  intros Hk Hkc. pose proof (sinv_bounds _ _ _ _ _ I) as (Ha & Hs & Hl). unfold CSeqNo.m_iSeqNoTH in *.
  destruct (update_ack_step s a c A q k I Hth) as (ev & s1 & E1 & Hm & HN & Hb & B1 & B2 & B3 & B4 & B5 & B6).
  destruct (ack_ackack_run no t s1) as (ev2 & s2 & E2 & Hc2 & Hb2).
  assert (m_pSndBuffer s2 = m_pSndBuffer s1 /\ m_iSndCurrSeqNo s2 = seq_of c) as [D1 D2] by (injection Hc2; intros; split; congruence).
  unfold processCtrlAck, SEND_LITE_ACK, ACKD_TOTAL_SIZE_SMALL, ACKD_FIELD_SIZE in *.
  destruct (Z.eqb_spec pktlen 4); [lia|]. destruct (Z.ltb_spec pktlen (4 * 4)); [lia|]. cbn [negb andb].
  unfold ACKD_RCVLASTACK, break_connection. mrun. rewrite Hw, seq_word_valid, E1, E2, D2, incseq_seq_of, seqcmp_gtb, Z.gtb_ltb
    by (unfold CSeqNo.m_iSeqNoTH; lia).
  destruct (Z.ltb_spec (c + 1) k); [|lia]. rewrite Z.max_r in Hb by lia.
  eexists _, _. split; [reflexivity|]. split; [done|]. split; [set_solver|]. cbn [m_pSndBuffer set_broken]. by rewrite D1.
Qed.

End Ack.

(** ** Retransmission *)

(** The packet's last retransmission is long enough ago. *)
Definition right_time (e : env) (s : state) (it : item) (now : Z) : bool :=
  negb (m_bPeerNakReport e) || (iRetransmitAlgo e =? 0) || (it_rexmit it <? now - i32 (m_iSRTT s - 4 * m_iRTTVar s)).

Lemma right_time_run e s a c A q x it now :
  sinv s a c A q -> a <= x <= c -> items q !! Z.to_nat (x - a) = Some it ->
  checkRexmitRightTime e (x - a) now s = Some (right_time e s it now, [], s).
Proof.
  intros I Hx Hi. unfold checkRexmitRightTime, right_time.
  destruct (negb (m_bPeerNakReport e) || (iRetransmitAlgo e =? 0)); [done|]. mrun.
  destruct (si_buf _ _ _ _ _ I) as [ring R]. rewrite (getPacketRexmitTime_rep _ _ _ _ _ R Hi). cbn [orb]. rewrite Z.geb_leb, Z.ltb_antisym. done.
Qed.

Lemma loss_pop_run s a c A q :
  sinv s a c A q ->
  exists l', loss_pop s = Some (match min_elem A with None => SRT_SEQNO_NONE | Some x => seq_of x end, [], set_loss l' s)
    /\ sinv (set_loss l' s) a c (match min_elem A with None => A | Some x => A ∖ {[x]} end) q.
Proof.
  intros I. destruct (snd_pop_models _ _ (si_loss _ _ _ _ _ I)) as (l' & E & Hm & HN). exists l'.
  unfold loss_pop. mrun. rewrite E. mrun. cbn [snd_spec] in *. destruct (min_elem A) as [x|]; (split; [done|]);
    eapply sinv_set_loss; try done; [|apply I]. intros y [Hy _]%elem_of_difference. by apply (si_in _ _ _ _ _ I).
Qed.

Lemma sent_item s a c A q x : sinv s a c A q -> a <= x <= c -> exists it, items q !! Z.to_nat (x - a) = Some it.
Proof. intros I Hx. pose proof (sinv_bounds _ _ _ _ _ I). apply lookup_lt_is_Some_2. lia. Qed.

Lemma pick_rexmit_run f s a c A q x :
  sinv s a c A q -> min_elem A = Some x ->
  exists l', pick_rexmit f s = Some ((seq_of x, x - a), [], set_loss l' s) /\ sinv (set_loss l' s) a c (A ∖ {[x]}) q.
Proof.
  intros I Hx. pose proof (min_elem_spec A) as Hmin. rewrite Hx in Hmin. pose proof (si_in _ _ _ _ _ I x (proj1 Hmin)) as Hxr.
  pose proof (sinv_bounds _ _ _ _ _ I) as (Ha & Hs & _). destruct (loss_pop_run _ _ _ _ _ I) as (l' & E & I'). rewrite Hx in E, I'.
  exists l'. unfold pick_rexmit. mrun. rewrite E, seq_of_not_none. cbn [m_iSndLastDataAck set_loss].
  rewrite (si_data _ _ _ _ _ I), seqoff_seq_of by (unfold CSeqNo.m_iSeqNoTH; lia). destruct (Z.ltb_spec (x - a) 0); [lia|]. done.
Qed.

(** What [getCleanRexmitOffset] returns: nothing, or the oldest recorded packet
    that is due; those before it were looked at and not due. *)
Definition rexmit_choice (e : env) (clk : nat -> Z) (s : state) (a : Z) (A A' : gset Z) (q : queue) (r : Z * Z) : Prop :=
  (r = (SRT_SEQNO_NONE, -1) /\ A' = ∅
   /\ forall y it, y ∈ A -> items q !! Z.to_nat (y - a) = Some it -> exists k, right_time e s it (clk k) = false)
  \/ exists x it, r = (seq_of x, x - a) /\ x ∈ A /\ items q !! Z.to_nat (x - a) = Some it
     /\ (exists k, right_time e s it (clk k) = true) /\ A' = filter (fun y => x < y) A
     /\ forall y it, y ∈ A -> y < x -> items q !! Z.to_nat (y - a) = Some it -> exists k, right_time e s it (clk k) = false.

Lemma rexmit_choice_step e clk s a A A' q r x it :
  x ∈ A -> (forall y, y ∈ A -> x <= y) -> items q !! Z.to_nat (x - a) = Some it -> right_time e s it (clk 0%nat) = false ->
  rexmit_choice e (fun k => clk (S k)) s a (A ∖ {[x]}) A' q r -> rexmit_choice e clk s a A A' q r.
Proof.
  intros HxA Hmin Hit Hr0 [(-> & -> & Hall)|(x' & it' & -> & Hx' & Hi' & [k Hk] & -> & Hall)]; [left|right].
  - split_and!; try done. intros y ity Hy Hi. destruct (decide (y = x)) as [->|Hne]; [exists 0%nat; congruence|].
    destruct (Hall y ity ltac:(set_solver) Hi) as [k Hk]. by exists (S k).
  - apply elem_of_difference in Hx' as [Hx'A Hne']. pose proof (Hmin x' Hx'A). assert (x <> x') by set_solver.
    exists x', it'. split_and!; try done.
    + by exists (S k).
    + apply set_eq. intros y. rewrite !elem_of_filter. set_unfold. split; [tauto|]. intros [? ?]. split_and!; try done. intros ->. lia.
    + intros y ity Hy Hlt Hi. destruct (decide (y = x)) as [->|Hne]; [exists 0%nat; congruence|].
      destruct (Hall y ity ltac:(set_solver) Hlt Hi) as [j Hj]. by exists (S j).
Qed.

Lemma get_clean_run fuel e clk s a c A q :
  sinv s a c A q -> (size A < fuel)%nat ->
  exists r l' A', getCleanRexmitOffset fuel e clk s = Some (r, [], set_loss l' s)
    /\ sinv (set_loss l' s) a c A' q /\ rexmit_choice e clk s a A A' q r.
Proof.
  revert clk s A. induction fuel as [|f IH]; intros clk s A I Hf; [lia|]. cbn [getCleanRexmitOffset].
  unfold mbind at 1, M_bind at 1. pose proof (min_elem_spec A) as Hmin. destruct (min_elem A) as [x|] eqn:Ex.
  2: { subst A. destruct (loss_pop_run _ _ _ _ _ I) as (l' & E & I'). rewrite Ex in E, I'.
    exists (SRT_SEQNO_NONE, -1), l', ∅. unfold pick_rexmit. mrun. rewrite E. cbn [Z.eqb]. split; [done|]. split; [done|].
    left. split_and!; try done. }
  destruct Hmin as [HxA Hmin]. pose proof (si_in _ _ _ _ _ I x HxA) as Hx.
  destruct (pick_rexmit_run f s a c A q x I Ex) as (l1 & -> & I1). cbn [fst snd]. rewrite seq_of_not_none.
  destruct (sent_item _ _ _ _ _ x I Hx) as [it Hit]. unfold mbind at 1, M_bind at 1.
  rewrite (right_time_run e _ a c _ q x it (clk 0%nat) I1 Hx Hit).
  replace (right_time e (set_loss l1 s) it (clk 0%nat)) with (right_time e s it (clk 0%nat)) by done.
  destruct (right_time e s it (clk 0%nat)) eqn:Hr; cbn [negb].
  - exists (seq_of x, x - a), l1, (A ∖ {[x]}). split; [done|]. split; [done|]. right. exists x, it. split_and!; try done; [by exists 0%nat| |].
    + apply set_eq. intros y. rewrite elem_of_filter, elem_of_difference, elem_of_singleton. split.
      * intros [Hy Hne]. pose proof (Hmin y Hy). split; [lia|done].
      * intros [Hlt Hy]. split; [done|lia].
    + intros y it' Hy Hlt. pose proof (Hmin y Hy). lia.
  - destruct (IH (fun k => clk (S k)) (set_loss l1 s) (A ∖ {[x]}) I1) as (r & l' & A' & -> & I' & Hc).
    { rewrite size_difference by set_solver. rewrite size_singleton. pose proof (size_non_empty_iff A). 
      assert (size A <> 0%nat) by (intros E0; apply size_empty_inv in E0; set_solver). lia. }
    exists r, l', A'. split; [done|]. split; [exact I'|]. by eapply rexmit_choice_step.
Qed.

(** [readData] for a retransmission when the packet did not expire. *)
Lemma extract_run n s a c A q x it clk :
  sinv s a c A q -> a <= x <= c -> items q !! Z.to_nat (x - a) = Some it -> it_expired it (clk 0%nat) = false ->
  exists s', extractCleanRexmitPacket (S n) (seq_of x) (x - a) clk s
      = Some (ExtractDone (it_len it) (Some (it_view it)), [], s')
    /\ sinv s' a c A (set_items (<[Z.to_nat (x - a) := it_rexmitted (clk 0%nat) it]> (items q)) q).
Proof.
  intros I Hx Hi He. destruct (si_buf _ _ _ _ _ I) as [ring R]. destruct (si_seq _ _ _ _ _ I _ _ Hi) as [Hseq Hlen].
  destruct (readOld_rep (x - a) (seq_of x) (fun _ => clk 0%nat) _ ring q R) as (b' & E & R').
  unfold spec_old in E, R'. rewrite Hi, He in E, R'. cbn [fst snd] in E, R'.
  assert (it_seq it = seq_of x) as Hsx by (rewrite Hseq; f_equal; lia).
  cbn [extractCleanRexmitPacket]. mrun. rewrite E. mrun. exists (set_buffer b' s). split; [unfold it_view; by rewrite Hsx|].
  destruct I. constructor; cbn [set_buffer m_pSndLossList m_pSndBuffer m_iSndLastAck m_iSndLastDataAck m_iSndCurrSeqNo m_iSndNextSeqNo
    set_items items sent]; rewrite ?length_insert; try done.
  - by exists ring.
  - intros i y. destruct (decide (i = Z.to_nat (x - a))) as [->|Hne].
    + rewrite list_lookup_insert_eq by (by eapply lookup_lt_Some). intros [= <-]. cbn. split; [exact Hseq|exact Hlen].
    + rewrite list_lookup_insert_ne by done. apply si_seq0.
Qed.

Lemma message_len_le its off it : its !! off = Some it -> (off + message_len its off it <= length its)%nat.
Proof.
  intros Hi%lookup_lt_Some. unfold message_len.
  pose proof (prefix_len_le (fun y => it_msgno it =? it_msgno y) (drop (S off) its)) as H. rewrite length_drop in H. lia.
Qed.

(** One round on an expired packet: its message is dropped from the loss list,
    the buffer keeps it. *)
Lemma extract_expired_round n s a c A q x it clk :
  sinv s a c A q -> a <= x <= c -> items q !! Z.to_nat (x - a) = Some it -> it_expired it (clk 0%nat) = true ->
  let m := message_len (items q) (Z.to_nat (x - a)) it in
  let hi := x + Z.of_nat m - 1 in
  exists s1 q1 ev, drop_requests ev = [(it_msgno it, seq_of x, seq_of hi)]
    /\ sinv s1 a (Z.max c hi) (unacked (hi + 1) A) q1 /\ items q1 = items q
    /\ extractCleanRexmitPacket (S n) (seq_of x) (x - a) clk s
       = match extractCleanRexmitPacket n (seq_of x) (x - a) (fun k => clk (S k)) s1 with
         | None => None | Some (r, e2, s2) => Some (r, ev ++ e2, s2) end.
Proof.
  intros I Hx Hi He m hi. pose proof (message_len_le _ _ _ Hi) as Hm. fold m in Hm. pose proof (sinv_bounds _ _ _ _ _ I) as (Ha & Hs & Hl).
  destruct (si_buf _ _ _ _ _ I) as [ring R]. pose proof (si_span _ _ _ _ _ I). pose proof (sinv_size _ _ _ _ _ I).
  destruct (readOld_rep (x - a) (seq_of x) (fun _ => clk 0%nat) _ ring q R) as (b' & E & R').
  unfold spec_old in E, R'. rewrite Hi, He in E, R'. fold m in E, R'. cbn [fst snd] in E, R'.
  assert (0 < Z.of_nat m) as Hm0 by (unfold m, message_len; lia).
  rewrite incseq_by_seq_of in E by (unfold CSeqNo.m_iMaxSeqNo; lia). replace (x + (Z.of_nat m - 1)) with hi in E by lia.
  destruct (loss_removeUpTo_run (set_buffer b' s) A (hi + 1)) as (l' & El & Hml & HN).
  { apply (si_loss _ _ _ _ _ I). }
  { intros y Hy%(si_in _ _ _ _ _ I). unfold CSeqNo.m_iSeqNoTH. lia. }
  rewrite decseq_seq_of in El. replace (hi + 1 - 1) with hi in El by lia.
  set (s1 := CUDTSnd.set_curr (CSeqNo.maxseq (m_iSndCurrSeqNo s) (seq_of hi)) (set_loss l' (set_buffer b' s))).
  exists s1, (set_sent (skip_to (S (Z.to_nat (x - a))) (m - 1) (sent q)) q), [SendDropReq (it_msgno it) (seq_of x) (seq_of hi)].
  split; [done|]. split; [|split; [done|]].
  - pose proof (si_sent _ _ _ _ _ I). destruct I. unfold s1.
    constructor; cbn [set_curr set_acks set_loss set_buffer m_pSndLossList m_pSndBuffer m_iSndLastAck m_iSndLastDataAck m_iSndCurrSeqNo
      m_iSndNextSeqNo set_sent items sent]; try done.
    + by exists ring.
    + rewrite si_curr0. apply maxseq_seq_of. unfold CSeqNo.m_iSeqNoTH. lia.
    + unfold skip_to. case_bool_decide; lia.
    + by rewrite HN.
    + intros y [Hy1 Hy2]%elem_of_unacked. pose proof (si_in0 y Hy2). lia.
  - cbn [extractCleanRexmitPacket]. mrun. rewrite E. cbn [fst snd CSndBuffer.drop_msgno CSndBuffer.drop_begin CSndBuffer.drop_end].
    rewrite El. change (set_curr _ _) with s1. by destruct (extractCleanRexmitPacket n (seq_of x) (x - a) (fun k => clk (S k)) s1) as [[[] ?]|].
Qed.

Lemma count_milliseconds_mono d d' : d <= d' -> CSndBuffer.count_milliseconds d <= CSndBuffer.count_milliseconds d'.
Proof. intros. unfold CSndBuffer.count_milliseconds. apply Z.quot_le_mono; lia. Qed.

Lemma it_expired_mono it t t' : t <= t' -> it_expired it t = true -> it_expired it t' = true.
Proof.
  unfold it_expired. rewrite !andb_true_iff, !Z.gtb_lt. intros Ht [H1 H2]. split; [done|].
  pose proof (count_milliseconds_mono (t - it_origin it) (t' - it_origin it)). lia.
Qed.

Lemma extract_expired_loop n s a c A q x it clk :
  sinv s a c A q -> a <= x <= c -> items q !! Z.to_nat (x - a) = Some it -> it_expired it (clk 0%nat) = true ->
  (forall k, clk k <= clk (S k)) ->
  exists ev s', extractCleanRexmitPacket n (seq_of x) (x - a) clk s = Some (ExtractGoesOn, ev, s')
    /\ length (drop_requests ev) = n.
Proof.
  revert s c A q clk. induction n as [|n IH]; intros s c A q clk I Hx Hi He Hclk; [eexists [], s; done|].
  destruct (extract_expired_round n s a c A q x it clk I Hx Hi He) as (s1 & q1 & ev & Hev & I1 & Hq1 & ->).
  destruct (IH s1 _ _ q1 (fun k => clk (S k)) I1) as (ev2 & s2 & -> & Hl); [lia|by rewrite Hq1| |done|].
  - eapply it_expired_mono; [apply (Hclk 0%nat)|exact He].
  - eexists _, s2. split; [reflexivity|]. unfold drop_requests in *. rewrite omap_app, length_app, Hev, Hl. done.
Qed.

(** ** First transmission *)

Lemma it_encrypt_facts kflgs it : it_seq (it_encrypt kflgs it) = it_seq it /\ it_len (it_encrypt kflgs it) = it_len it.
Proof. unfold it_encrypt. by destruct (kflgs =? -1). Qed.

(** Reading for the first transmission: [k] expired packets are skipped and the
    next one, if any, is taken. *)
Definition read_facts (q q' : queue) (k : nat) (len : Z) (w : option CSndBuffer.view) : Prop :=
  length (items q') = length (items q)
  /\ (forall i it', items q' !! i = Some it' -> exists it, items q !! i = Some it /\ it_seq it' = it_seq it /\ it_len it' = it_len it)
  /\ ((len = 0 /\ sent q' = (sent q + k)%nat)
      \/ (sent q' = S (sent q + k) /\ exists it, items q' !! (sent q + k)%nat = Some it /\ len = it_len it /\ w = Some (it_view it))).

Lemma spec_read_facts n kflgs clk inc w q :
  kflgs <> -1 ->
  let '(len, w', inc', q') := spec_read n kflgs clk inc w q in exists k : nat, inc' = inc + Z.of_nat k /\ read_facts q q' k len w'.
Proof.
  intros Hk. revert clk inc w q. induction n as [|n IH]; intros clk inc w q.
  { exists 0%nat. split; [simpl; lia|]. split_and!; [done|by eauto|]. left. split; [done|]. lia. }
  cbn [spec_read]. destruct (items q !! sent q) as [it|] eqn:Hi.
  2: { exists 0%nat. split; [lia|]. split_and!; [done|by eauto|]. left. split; [done|]. lia. }
  pose proof (it_encrypt_facts kflgs it) as [Hs Hl]. pose proof (lookup_lt_Some _ _ _ Hi) as Hlt.
  set (q1 := set_sent (S (sent q)) (set_items (<[sent q := it_encrypt kflgs it]> (items q)) q)).
  assert (forall i it', items q1 !! i = Some it' -> exists it0, items q !! i = Some it0 /\ it_seq it' = it_seq it0 /\ it_len it' = it_len it0) as Hq1.
  { intros i it'. cbn. destruct (decide (i = sent q)) as [->|Hne].
    - rewrite list_lookup_insert_eq by done. intros [= <-]. eauto.
    - rewrite list_lookup_insert_ne by done. eauto. }
  destruct (it_expired (it_encrypt kflgs it) (clk 0%nat)).
  - specialize (IH (fun k => clk (S k)) (inc + 1) (Some (it_view (it_encrypt kflgs it))) q1).
    destruct (spec_read _ _ _ _ _ _) as [[[len w'] inc'] q']. destruct IH as (k & -> & H1 & H2 & H3). exists (S k). split; [lia|].
    assert (sent q1 = S (sent q)) as Hsq by done. split_and!.
    + rewrite H1. apply length_insert.
    + intros i it' (it0 & Hi0 & -> & ->)%H2. by apply Hq1.
    + rewrite Hsq in H3. replace (sent q + S k)%nat with (S (sent q) + k)%nat by lia. done.
  - exists 0%nat. split; [lia|]. split_and!; [apply length_insert|exact Hq1|]. right. rewrite Nat.add_0_r. split; [done|].
    exists (it_encrypt kflgs it). destruct (Z.eqb_spec kflgs (-1)); [done|]. cbn. rewrite list_lookup_insert_eq by done. split_and!; [done|lia|done].
Qed.

Lemma packUnique_run e kflg clk now s a c A q :
  sinv s a c A q -> kflg <> -1 ->
  exists p s' c' q', packUniqueData e kflg clk now s = Some (p, [], s') /\ sinv s' a c' A q' /\ c <= c' < a + 2 ^ 29
    /\ (p = None \/ exists it, items q' !! Z.to_nat (c' - a) = Some it /\ it_seq it = seq_of c' /\ p = Some (data_packet e now (it_view it))).
Proof.
  intros I Hk. pose proof (sinv_bounds _ _ _ _ _ I) as (Ha & Hs & Hl). pose proof (si_span _ _ _ _ _ I). pose proof (sinv_size _ _ _ _ _ I).
  unfold packUniqueData. mrun. destruct (_ <=? _); [exists None, s, c, q; split_and!; try done; try lia; by left|].
  destruct (si_buf _ _ _ _ _ I) as [ring R].
  destruct (read_unique_rep (Z.to_nat (CSndBuffer.m_iSize (m_pSndBuffer s))) kflg clk 0 None _ ring q R) as (b' & E & R').
  { destruct (b_ring _ _ _ R) as (_ & _ & Hz). pose proof (lookup_lt_Some _ _ _ (b_last _ _ _ R)). lia. }
  unfold CSndBuffer.readData. rewrite E.
  pose proof (spec_read_facts (Z.to_nat (CSndBuffer.m_iSize (m_pSndBuffer s))) kflg clk 0 None q Hk) as HF.
  destruct (spec_read _ _ _ _ _ _) as [[[len w] inc] q']. destruct HF as (k & -> & H1 & H2 & H3). cbn [fst snd] in R'. mrun.
  pose proof (b_sent _ _ _ R') as Hs'. pose proof (si_sent _ _ _ _ _ I) as Hse.
  set (c1 := c + Z.of_nat k).
  assert (Z.of_nat k <= Z.of_nat (length (items q))) as Hkb by lia.
  assert (CSeqNo.incseq_by (seq_of c) (0 + Z.of_nat k) = seq_of c1) as Hc1
    by (unfold c1; rewrite Z.add_0_l; apply incseq_by_seq_of; unfold CSeqNo.m_iMaxSeqNo; lia).
  set (s1 := if negb (0 + Z.of_nat k =? 0) then _ else _).
  assert (core s1 = core (CUDTSnd.set_curr (seq_of c1) (set_buffer b' s))) as Hs1.
  { unfold s1. destruct (Z.eqb_spec (0 + Z.of_nat k) 0) as [E0|]; cbn [negb].
    - unfold core, CUDTSnd.set_curr. cbn. rewrite (si_curr _ _ _ _ _ I). unfold c1. by replace (c + Z.of_nat k) with c by lia.
    - unfold core, CUDTSnd.set_curr. cbn. by rewrite (si_curr _ _ _ _ _ I), Hc1. }
  assert (forall i it, items q' !! i = Some it -> it_seq it = seq_of (a + Z.of_nat i) /\ 0 < it_len it) as Hseq.
  { intros i it (it0 & Hi0 & -> & ->)%H2. by apply (si_seq _ _ _ _ _ I). }
  assert (forall c' s', Z.of_nat (sent q') = c' + 1 - a -> core s' = core (CUDTSnd.set_curr (seq_of c') (set_buffer b' s)) -> c <= c' ->
    sinv s' a c' A q') as Hinv.
  { intros c' s' Hsent Hcore Hcc. eapply sinv_core; [exact Hcore|]. destruct I. constructor; cbn; rewrite ?H1; try done; [by exists ring|].
    intros y Hy. pose proof (si_in0 y Hy). lia. }
  destruct H3 as [(-> & Hsent)|(Hsent & it & Hit & -> & ->)].
  - cbn [Z.eqb]. exists None, s1, c1, q'. split; [done|]. split; [apply Hinv; [lia|done|lia]|]. split; [lia|by left].
  - pose proof (Hseq _ _ Hit) as [Hsq Hln]. destruct (Z.eqb_spec (it_len it) 0); [lia|].
    eexists _, _, (c1 + 1), q'. split; [reflexivity|]. injection Hs1 as X1 X2 X3 X4 X5 X6.
    split; [apply Hinv; [lia| |lia]|].
    + unfold core, CUDTSnd.set_curr. cbn. rewrite X1, X2, X3, X4, X5, X6. cbn. by rewrite incseq_seq_of.
    + split; [lia|]. right. exists it. replace (Z.to_nat (c1 + 1 - a)) with (sent q + k)%nat by lia. split; [done|].
      replace (a + Z.of_nat (sent q + k)) with (c1 + 1) in Hsq by lia. split; [done|]. cbn [CUDTSnd.set_curr set_acks m_iSndCurrSeqNo].
      rewrite X5. cbn [CUDTSnd.set_curr set_acks m_iSndCurrSeqNo]. rewrite incseq_seq_of, <- Hsq. done.
Qed.

Lemma fragments_facts data cap base origin ttl x (i : nat) f :
  0 < cap < 2 ^ 30 -> Z.of_nat (length data) < 2 ^ 30 ->
  fragments data cap (CSndBuffer.countNumPacketsRequired (Z.of_nat (length data)) cap) base origin ttl (seq_of x) !! i = Some f ->
  it_seq f = seq_of (x + Z.of_nat i) /\ 0 < it_len f.
Proof.
  intros Hc Hd Hf. destruct (num_blocks (Z.of_nat (length data)) cap ltac:(lia) ltac:(lia)) as (Hn & Hn1 & Hn2).
  unfold fragments in Hf. apply list_lookup_fmap_Some in Hf as (j & -> & [-> Hi]%lookup_seqZ). rewrite Z.add_0_l.
  destruct (fragment_slice data cap (Z.of_nat i) Hc ltac:(lia) Hd ltac:(nia)) as (_ & Hs & Hs'). rewrite Hs in Hs'. split.
  - unfold fragment. cbn [it_seq]. rewrite iter_incseq. do 2 f_equal. lia.
  - unfold it_len, fragment. cbn [it_data]. lia.
Qed.

(** What the application's admission check ([sndBuffersLeft]) and the options
    guarantee when a message is scheduled. *)
Definition message_ok (junk : CSndBuffer.Block) (data : list Z) (s : state) : Prop :=
  add_ok (m_pSndBuffer s) data
  /\ Z.of_nat (length (CSndBuffer.m_pcData junk)) = CSndBuffer.m_iBlockLen (m_pSndBuffer s)
  /\ CSndBuffer.m_iCount (m_pSndBuffer s)
     + CSndBuffer.countNumPacketsRequired (Z.of_nat (length data))
         (CSndBuffer.m_iBlockLen (m_pSndBuffer s) - CSndBuffer.m_iAuthTagSize (m_pSndBuffer s)) < LM (m_pSndLossList s).

Lemma schedule_run junk e data c0 now s a c A q :
  sinv s a c A q -> message_ok junk data s ->
  exists r ev s' q', schedule_message junk e data c0 now s = Some (r, ev, s') /\ sinv s' a c A q'.
Proof.
  intros I (Hok & Hj & Hsp). unfold schedule_message. mrun. destruct (_ && _); [eauto 6|].
  set (t := if _ && _ then 0 else _). set (mc := CSndBuffer.mkCtrl _ _ t _ _).
  destruct (si_buf _ _ _ _ _ I) as [ring R]. destruct (addBuffer_rep junk data mc now _ ring q R Hok Hj) as (b' & ring' & E & R' & _).
  rewrite E. pose proof (b_count _ _ _ R) as Hcnt. destruct Hok as (Ha & Hb & Hd & Hc). set (cap := _ - _) in *.
  destruct (num_blocks (Z.of_nat (length data)) cap ltac:(lia) ltac:(lia)) as (Hn & _).
  eexists _, _, _, (snd (spec_add cap data mc now q)). split; [reflexivity|]. pose proof (b_sent _ _ _ R). destruct I.
  unfold spec_add in *. cbn [fst snd CSndBuffer.pktseq mc CSndBuffer.msgttl CSndBuffer.inorder CSndBuffer.srctime CSndBuffer.msgno] in *.
  rewrite si_next0 in *. constructor; cbn [set_buffer set_next m_pSndLossList m_pSndBuffer m_iSndLastAck m_iSndLastDataAck
    m_iSndCurrSeqNo m_iSndNextSeqNo items sent fst snd CSndBuffer.pktseq] in *; try done.
  - by exists ring'.
  - rewrite iter_incseq, length_app, length_fragments by lia. f_equal. lia.
  - rewrite length_app, length_fragments by lia. lia.
  - intros i it. rewrite lookup_app_Some. intros [Hi|[Hge Hi]]; [by apply si_seq0|].
    apply fragments_facts in Hi as [-> Hl]; [|lia|done]. split; [f_equal; lia|done].
Qed.

Lemma drop_late_run e t s a c A q :
  sinv s a c A q ->
  exists r ev s' d q', sndDropTooLate e t s = Some (r, ev, s') /\ 0 <= d
    /\ sinv s' (a + d) (Z.max c (a + d - 1)) (unacked (a + d) A) q' /\ d <= Z.of_nat (length (items q))
    /\ (r = DropThrow \/ r = DropCount d).
Proof.
  intros I. pose proof (sinv_bounds _ _ _ _ _ I) as (Ha & Hs & Hl). pose proof (si_span _ _ _ _ _ I). pose proof (sinv_size _ _ _ _ _ I).
  assert (unacked a A = A) as HA.
  { apply set_eq. intros x. rewrite elem_of_unacked. split; [tauto|]. intros Hx. split; [|done]. by apply (si_in _ _ _ _ _ I). }
  assert (forall r, r = DropThrow \/ r = DropCount 0 -> exists r' ev s' d q', Some (r, [] : list event, s) = Some (r', ev, s') /\ 0 <= d
    /\ sinv s' (a + d) (Z.max c (a + d - 1)) (unacked (a + d) A) q' /\ d <= Z.of_nat (length (items q))
    /\ (r' = DropThrow \/ r' = DropCount d)) as Hno.
  { intros r Hr. exists r, [], s, 0, q. rewrite Z.add_0_r, Z.max_l, HA by lia. split_and!; try done; lia. }
  unfold sndDropTooLate. destruct (negb (m_bPeerTLPktDrop e)); [apply Hno; by right|]. destruct (negb (bMessageAPI e)); [apply Hno; by left|].
  mrun. destruct (si_buf _ _ _ _ _ I) as [ring R]. rewrite (getBufferingDelay_rep _ _ _ _ R). destruct (_ || _); [apply Hno; by right|].
  destruct (dropLateData_rep (t - drop_threshold_ms e * 1000) _ ring q R) as (b' & ring' & E & R' & _). rewrite E.
  unfold spec_drop_late in *. set (m := prefix_len _ _) in *. cbn [fst snd] in *. pose proof (prefix_len_le (fun it => it_origin it <? t - drop_threshold_ms e * 1000) (items q)) as Hm.
  fold m in Hm. destruct (Z.leb_spec (Z.of_nat m) 0) as [Hm0|Hm0].
  { eexists _, _, _, 0, q. split; [reflexivity|]. rewrite Z.add_0_r, Z.max_l, HA by lia. split_and!; try lia; [|by right].
    assert (m = 0%nat) as Em by lia. rewrite Em in R'. unfold spec_pop in R'. rewrite drop_0, Nat.sub_0_r in R'. destruct I. constructor; try done.
    exists ring'. by destruct q. }
  rewrite (si_data _ _ _ _ _ I), incseq_by_seq_of by (unfold CSeqNo.m_iMaxSeqNo; lia).
  set (s1 := set_acks (seq_of (a + Z.of_nat m)) (seq_of (a + Z.of_nat m)) _ _ _).
  destruct (loss_removeUpTo_run s1 A (a + Z.of_nat m)) as (l' & -> & Hml & HN).
  { apply (si_loss _ _ _ _ _ I). }
  { intros x Hx%(si_in _ _ _ _ _ I). unfold CSeqNo.m_iSeqNoTH. lia. }
  eexists _, _, _, (Z.of_nat m), (spec_pop m q). split; [reflexivity|]. split; [lia|]. split; [|split; [lia|by right]].
  change (m_iSndCurrSeqNo (set_loss l' s1)) with (m_iSndCurrSeqNo s). rewrite (si_curr _ _ _ _ _ I), decseq_seq_of, seqcmp_ltb by (unfold CSeqNo.m_iSeqNoTH; lia).
  set (c' := Z.max c (a + Z.of_nat m - 1)). pose proof (si_sent _ _ _ _ _ I) as Hse.
  assert (forall s', core s' = core (CUDTSnd.set_curr (seq_of c') (set_loss l' s1)) -> sinv s' (a + Z.of_nat m) c' (unacked (a + Z.of_nat m) A) (spec_pop m q)) as Hinv.
  { intros s' Hcore. eapply sinv_core; [exact Hcore|]. destruct I. constructor; cbn [CUDTSnd.set_curr s1 set_acks set_loss set_buffer set_window m_pSndLossList
      m_pSndBuffer m_iSndLastAck m_iSndLastDataAck m_iSndCurrSeqNo m_iSndNextSeqNo spec_pop items sent]; try done.
    - by exists ring'.
    - rewrite si_next0, length_drop. f_equal. lia.
    - lia.
    - rewrite length_drop, HN. cbn. lia.
    - intros x [Hx1 Hx2]%elem_of_unacked. pose proof (si_in0 x Hx2). lia.
    - intros i it. rewrite lookup_drop. intros Hi. destruct (si_seq0 _ _ Hi) as [-> ?]. split; [f_equal; lia|done]. }
  destruct (Z.ltb_spec c (a + Z.of_nat m - 1)); apply Hinv; [unfold c'; rewrite Z.max_r by lia; done|].
  unfold c'. rewrite Z.max_l by lia. unfold core. cbn. by rewrite (si_curr _ _ _ _ _ I).
Qed.

Lemma flight_span a c : a <= c + 1 -> c - a < 2 ^ 29 -> getFlightSpan (seq_of a) (seq_of c) = c + 1 - a.
Proof.
  intros. unfold getFlightSpan. rewrite incseq_seq_of, seqlen_seq_of by (unfold CSeqNo.m_iMaxSeqNo; lia).
  rewrite i32_id; [lia|]. unfold is_i32. lia.
Qed.

Lemma rexmit_timer_run e t s a c A q :
  sinv s a c A q ->
  exists ev s' A', checkRexmitTimer e t s = Some (tt, ev, s') /\ sinv s' a c A' q /\ A ⊆ A' /\ A' ⊆ A ∪ range_set a c.
Proof.
  intros I. pose proof (sinv_bounds _ _ _ _ _ I) as (Ha & Hs & Hl).
  assert (exists ev s' A', Some (tt, [] : list event, s) = Some (tt, ev, s') /\ sinv s' a c A' q /\ A ⊆ A' /\ A' ⊆ A ∪ range_set a c) as Hno
    by (exists [], s, A; split_and!; try done; set_solver).
  unfold checkRexmitTimer. mrun. destruct (_ <=? _); [exact Hno|]. destruct (_ <=? 0); [exact Hno|].
  set (late := match rexmitMethod e with SRM_LATEREXMIT => true | SRM_FASTREXMIT => false end). destruct (negb late && _); [exact Hno|].
  rewrite (si_last _ _ _ _ _ I), (si_curr _ _ _ _ _ I), flight_span, Z.gtb_ltb by lia.
  destruct (Z.ltb_spec 0 (c + 1 - a)); cbn [andb].
  - destruct (negb late || _).
    + destruct (loss_insert_run s a c A q a c I ltac:(lia) ltac:(lia)) as (l' & -> & I'). destruct (_ >? 0).
      all: eexists _, _, _; split; [reflexivity|]; split; [eapply sinv_core; [|exact I']; done|]; split; set_solver.
    + eexists _, _, A. split; [reflexivity|]. split; [eapply sinv_core; [|exact I]; done|]. split; set_solver.
  - eexists _, _, A. split; [reflexivity|]. split; [eapply sinv_core; [|exact I]; done|]. split; set_solver.
Qed.
