(* ===== verification/SndCtlProps.v ===== *)
(** * Properties of the sender

    The sender's invariant over every run with a peer that follows the protocol,
    the path of a loss report from the receiver's list to the sender's, the effect
    of acknowledgements, retransmission, and what happens with input no such peer
    sends. *)

From stdpp Require Import relations.
From S2P Require Import Prelude SeqNo Packet Ranges RcvLossList RcvLossListSpec RcvLossListRefine.
From S2P Require Import SndLossList SndLossListSpec SndLossListRefine SndBuffer SndBufferSpec SndBufferRefine SndCtl SndCtlInv.
Import CUDTSnd.

(** ** The state after the handshake *)

(** [isn] is the initial sequence number; the loss list has [lsize] elements, the
    buffer [bsize] blocks of [blen] bytes; the flow window is [win]. *)
Definition init_state (junk : CSndBuffer.Block) (isn lsize bsize blen tag win : Z) : state :=
  setInitialSndSeq isn
    (mkState (CSndLossList.create 0 lsize) (CSndBuffer.create junk bsize blen tag) 0 0 0 0 0 0 win 0 1 false
       INITIAL_RTT INITIAL_RTTVAR false 0 0 0 0).

Definition init_ok (junk : CSndBuffer.Block) (lsize bsize blen : Z) : Prop :=
  0 < lsize <= 2 ^ 29 /\ 0 < bsize <= 2 ^ 30 /\ Z.of_nat (length (CSndBuffer.m_pcData junk)) = blen.

Lemma init_sinv junk a lsize bsize blen tag win :
  init_ok junk lsize bsize blen -> sinv (init_state junk (seq_of a) lsize bsize blen tag win) a (a - 1) ∅ (mkQueue [] 0 1 0).
Proof.
  intros (Hl & Hb & Hj). destruct (buf_create_models junk bsize blen tag Hb Hj) as [[ring R] _ _ _].
  constructor; cbn; try done.
  - by apply snd_create_models.
  - by exists ring.
  - apply decseq_seq_of.
  - f_equal. lia.
  - lia.
  - lia.
Qed.

(** ** Runs with a peer that follows the protocol *)

(** An acknowledgement such a peer sends: of a packet not beyond the last one
    sent, in one of the packet sizes of the protocol. *)
Definition honest_ack (a c k pktlen : Z) (ws : list Z) : Prop :=
  ws !! ACKD_RCVLASTACK = Some (seq_of k) /\ k <= c + 1
  /\ Z.abs (k - a) < CSeqNo.m_iSeqNoTH /\ c + 1 - k < CSeqNo.m_iSeqNoTH
  /\ (pktlen = SEND_LITE_ACK
      \/ 16 <= pktlen /\ Z.of_nat (length ws) = pktlen / ACKD_FIELD_SIZE /\ pktlen / ACKD_FIELD_SIZE <> 5).

(** The steps of the sender. A configuration is the state with the indices of the
    oldest packet not acknowledged and of the last one sent. *)
Inductive sstep (e : env) (junk : CSndBuffer.Block) : state * Z * Z -> state * Z * Z -> Prop :=
  | StepSchedule s a c data mc now r ev s' :
      message_ok junk data s -> schedule_message junk e data mc now s = Some (r, ev, s') ->
      sstep e junk (s, a, c) (s', a, c)
  | StepPack s a c c' kflg clk now p ev s' :
      kflg <> -1 -> packUniqueData e kflg clk now s = Some (p, ev, s') ->
      m_iSndCurrSeqNo s' = seq_of c' -> c <= c' < a + 2 ^ 29 -> sstep e junk (s, a, c) (s', a, c')
  | StepReport s a c rs ok ev s' :
      Forall (plausible a c) rs -> processCtrlLossReport (concat (report_words <$> rs)) s = Some (ok, ev, s') ->
      sstep e junk (s, a, c) (s', a, c)
  | StepAck s a c k pktlen no ws t ok ev s' :
      honest_ack a c k pktlen ws -> processCtrlAck e pktlen no ws t s = Some (ok, ev, s') ->
      sstep e junk (s, a, c) (s', Z.max a k, c)
  | StepDropLate s a c d t r ev s' :
      sndDropTooLate e t s = Some (r, ev, s') -> 0 <= d < 2 ^ 29 -> m_iSndLastDataAck s' = seq_of (a + d) ->
      sstep e junk (s, a, c) (s', a + d, Z.max c (a + d - 1))
  | StepTimer s a c t ev s' :
      checkRexmitTimer e t s = Some (tt, ev, s') -> sstep e junk (s, a, c) (s', a, c)
  | StepRexmit s a c n clk r ev s' :
      getCleanRexmitOffset (S (Z.to_nat (CSndLossList.getLossLength (m_pSndLossList s)) + n)) e clk s = Some (r, ev, s') ->
      sstep e junk (s, a, c) (s', a, c).

(** The configuration describes one stream of packets. *)
Definition good (x : state * Z * Z) : Prop := let '(s, a, c) := x in exists A q, sinv s a c A q.

Lemma report_run s a c A q rs :
  sinv s a c A q -> Forall (plausible a c) rs ->
  exists ev s', processCtrlLossReport (concat (report_words <$> rs)) s = Some (true, ev, s')
    /\ drop_requests ev = concat (late_part a <$> rs) /\ sinv s' a c (recorded_all a rs A) q /\ m_bBroken s' = m_bBroken s.
Proof.
  intros I Hrs. destruct (decode_report_run s a c A q rs [] I Hrs) as (ev & l' & E & Hd & I' & _). rewrite app_nil_r in E.
  unfold processCtrlLossReport. mrun. rewrite E. mrun. eexists _, _. split; [reflexivity|]. split; [|done].
  unfold drop_requests in *. rewrite ?app_nil_r, omap_app, Hd. apply app_nil_r.
Qed.

Lemma ack_run e s a c A q k pktlen no ws t :
  sinv s a c A q -> honest_ack a c k pktlen ws ->
  exists ev s', processCtrlAck e pktlen no ws t s = Some (true, ev, s') /\ m_bBroken s' = m_bBroken s
    /\ sinv s' (Z.max a k) c (unacked (Z.max a k) A) (spec_ack (Z.max a k - a) q)
    /\ (16 <= pktlen -> exists w, ws !! ACKD_BUFFERLEFT = Some w
          /\ m_iFlowWindowSize s' = if a <=? k then w else m_iFlowWindowSize s).
Proof.
  intros I (Hw & Hk & Hth & Hkc & Hsize). destruct Hsize as [->|(H16 & Hl & H5)].
  - destruct (ack_lite_process e no ws t s a c A q k I Hw Hth Hk) as (ev & s' & E & Hb & I'). exists ev, s'. split_and!; try done.
  - assert (4 <= pktlen / ACKD_FIELD_SIZE) by (unfold ACKD_FIELD_SIZE; apply Z.div_le_lower_bound; lia).
    destruct (lookup_lt_is_Some_2 ws ACKD_BUFFERLEFT) as [w Hw3]; [unfold ACKD_BUFFERLEFT; lia|].
    destruct (ack_full_process e no ws t s a c A q k I Hw Hth pktlen H16 Hl w Hk Hkc H5 Hw3) as (ev & s' & E & Hb & I' & Hf).
    exists ev, s'. split_and!; eauto.
Qed.

Lemma rexmit_run n e clk s a c A q :
  sinv s a c A q ->
  exists r l' A', getCleanRexmitOffset (S (Z.to_nat (CSndLossList.getLossLength (m_pSndLossList s)) + n)) e clk s = Some (r, [], set_loss l' s)
    /\ sinv (set_loss l' s) a c A' q /\ rexmit_choice e clk s a A A' q r.
Proof.
  intros I. apply get_clean_run; [done|]. unfold CSndLossList.getLossLength.
  rewrite (smodels_length _ _ (si_loss _ _ _ _ _ I)). lia.
Qed.

Lemma sstep_good e junk x y : sstep e junk x y -> good x -> good y.
Proof.
  intros [s a c data mc now r ev s' Hok E|s a c c' kflg clk now p ev s' Hk E Hc Hcc|s a c rs ok ev s' Hrs E
    |s a c k pktlen no ws t ok ev s' Ha E|s a c d t r ev s' E Hd Ha|s a c t ev s' E|s a c n clk r ev s' E] (A & q & I).
  - destruct (schedule_run junk e data mc now s a c A q I Hok) as (r2 & ev2 & s2 & q2 & E2 & I2). exists A, q2. congruence.
  - destruct (packUnique_run e kflg clk now s a c A q I Hk) as (p2 & s2 & c2 & q2 & E2 & I2 & Hc2 & _). exists A, q2.
    assert (s2 = s') as -> by congruence. assert (c' = c2) as ->; [|done].
    pose proof (sinv_bounds _ _ _ _ _ I). apply seq_of_inj; [lia|]. by rewrite <- Hc, (si_curr _ _ _ _ _ I2).
  - destruct (report_run s a c A q rs I Hrs) as (ev2 & s2 & E2 & _ & I2 & _). exists (recorded_all a rs A), q. congruence.
  - destruct (ack_run e s a c A q k pktlen no ws t I Ha) as (ev2 & s2 & E2 & _ & I2 & _). eexists _, _.
    assert (s2 = s') as -> by congruence. exact I2.
  - destruct (drop_late_run e t s a c A q I) as (r2 & ev2 & s2 & d2 & q2 & E2 & Hd2 & I2 & Hl2 & _). exists (unacked (a + d) A), q2.
    assert (s2 = s') as -> by congruence. assert (d = d2) as ->; [|done].
    pose proof (si_span _ _ _ _ _ I). pose proof (sinv_size _ _ _ _ _ I).
    assert (a + d = a + d2); [|lia]. apply seq_of_inj; [lia|]. by rewrite <- Ha, (si_data _ _ _ _ _ I2).
  - destruct (rexmit_timer_run e t s a c A q I) as (ev2 & s2 & A2 & E2 & I2 & _). exists A2, q. congruence.
  - destruct (rexmit_run n e clk s a c A q I) as (r2 & l2 & A2 & E2 & I2 & _). exists A2, q. congruence.
Qed.


(** The environment of a live-mode sender. *)
Definition live_env : env := mkEnv true 0 true true 120 0 SRM_FASTREXMIT 1000 false 1456 true 0 true true 77.

Definition state0 : state := init_state junk_block (seq_of (2 ^ 31 - 1)) 64 4 4 0 50.

(** The result state of a call. *)
Definition after {A} (m : M A) (s : state) : state := match m s with Some (_, _, s') => s' | None => s end.


(** ** Loss reports, from the receiver's list to the sender's *)

Lemma elem_of_recorded_all a rs A x :
  x ∈ recorded_all a rs A <-> x ∈ A \/ a <= x /\ lost rs x.
Proof.
  unfold recorded_all. revert A. induction rs as [|[lo hi] rs IH]; intros A; cbn [foldl]; [rewrite lost_nil; tauto|].
  rewrite IH, elem_of_union, lost_cons. unfold recorded. rewrite elem_of_range_set. cbn [fst snd]. intuition lia.
Qed.

(** The receiver's report of its loss list, as ranges. *)
Lemma loss_array_ranges l S cap :
  models l S -> 0 <= cap ->
  exists rs, CRcvLossList.getLossArray l cap = Some (concat (report_words <$> rs))
    /\ (forall x, lost rs x -> x ∈ lostset S) /\ Forall (fun r => fst r <= snd r) rs
    /\ (Z.of_nat (length (concat (report_words <$> rs))) < cap - 1 -> forall x, x ∈ lostset S -> lost rs x).
Proof.
  intros (c & nodes & R & HS) Hcap. unfold CRcvLossList.getLossArray. rewrite (rep_head _ _ _ _ R). pose proof (rep_size _ _ _ _ R).
  destruct (loss_array_loop_exact (CRcvLossList.m_iSize l) c (CRcvLossList.m_caSeq l) (-1) nodes (Z.to_nat (CRcvLossList.m_iSize l)) cap [])
    as (k & Hk & E & Hfull & Hle); [lia|apply R|by eapply models_nodes_fuel|].
  exists (take k nodes). split; [exact E|]. split; [|split].
  - intros x (u & v & Hin & Hx). apply HS. exists u, v. split; [|done]. by apply subseteq_take in Hin.
  - destruct (rep_elem_ordered _ _ _ _ R) as [lo Ho]. apply list.Forall_forall. intros [u v] Hin.
    apply subseteq_take in Hin. pose proof (ordered_elem _ _ _ _ _ Ho Hin). cbn. lia.
  - intros Hlt x Hx%HS. destruct (decide (k < length nodes)%nat) as [Hk'|]; [specialize (Hfull Hk'); cbn in *; lia|].
    by rewrite take_ge by lia.
Qed.

(** C20: a loss report reaches the sender. The report the receiver makes of its
    loss list is accepted, and the sender's loss list afterwards holds what it
    held and every reported packet not yet acknowledged; each reported range that
    begins before the oldest unacknowledged packet is answered by one drop request
    for that part. When the report was not cut short by the packet size, every
    lost packet is reported. *)
Theorem loss_report_delivery l S cap s a c A q :
  models l S -> 0 <= cap -> sinv s a c A q ->
  (forall x, x ∈ lostset S -> x <= c /\ c - x < CSeqNo.m_iSeqNoTH /\ a - x < CSeqNo.m_iSeqNoTH) ->
  exists report rs ev s' A', CRcvLossList.getLossArray l cap = Some report
    /\ processCtrlLossReport report s = Some (true, ev, s') /\ sinv s' a c A' q
    /\ (forall x, lost rs x -> x ∈ lostset S)
    /\ (forall x, x ∈ A' <-> x ∈ A \/ a <= x /\ lost rs x)
    /\ drop_requests ev = concat (late_part a <$> rs)
    /\ (Z.of_nat (length report) < cap - 1 -> forall x, x ∈ lostset S -> lost rs x).
Proof.
  intros Hm Hcap I Hnear. destruct (loss_array_ranges l S cap Hm Hcap) as (rs & E & Hsub & Hwf & Hfull).
  destruct (report_run s a c A q rs I) as (ev & s' & E2 & Hd & I' & _).
  { apply list.Forall_forall. intros [u v] Hin. rewrite list.Forall_forall in Hwf. specialize (Hwf _ Hin). cbn [fst snd] in Hwf.
    destruct (Hnear u) as (? & ? & ?); [apply Hsub; exists u, v; split; [done|lia]|].
    destruct (Hnear v) as (? & ? & ?); [apply Hsub; exists u, v; split; [done|lia]|]. split_and!; cbn [fst snd]; lia. }
  exists (concat (report_words <$> rs)), rs, ev, s', (recorded_all a rs A). split_and!; try done. apply elem_of_recorded_all.
Qed.

(** The sender with a message of two packets scheduled, the first one sent, both
    sent. *)
Definition sent_first (ttl : Z) : state :=
  after (packUniqueData live_env 0 (fun _ => 20) 20)
    (after (schedule_message junk_block live_env [1; 2; 3; 4; 5] (CSndBuffer.mkCtrl ttl true 0 0 (-1)) 10) state0).
Definition sent_both (ttl : Z) : state := after (packUniqueData live_env 0 (fun _ => 30) 30) (sent_first ttl).
Definition sent_one : state := sent_first (-1).
Definition sent_two : state := sent_both (-1).

Definition part1 (ttl : Z) : item := mkItem [1; 2; 3; 4] 0xA0000001 (2 ^ 31 - 1) 10 0 ttl.
Definition part2 (ttl : Z) : item := mkItem [5] 0x60000001 0 10 0 ttl.
Definition item1 : item := part1 (-1).
Definition item2 : item := part2 (-1).

(** The invariant of a concrete state whose buffer is the result of [reads] on
    the message with the time to live [ttl]. *)
Ltac concrete_sinv ttl reads :=
  let b := fresh "b" in let E := fresh "E" in let ring := fresh "ring" in let R := fresh "R" in
  destruct (buf_runs_models junk_block 4 0 4 ltac:(lia) ltac:(lia) eq_refl (CSndBuffer.create junk_block 4 4 0) (mkQueue [] 0 1 0)
    (BufAdd [1; 2; 3; 4; 5] (CSndBuffer.mkCtrl ttl true 0 (2 ^ 31 - 1) (-1)) 10 :: reads)) as (b & E & [[ring R] _ _ _]);
  [apply buf_create_models; [lia|reflexivity]|cbn [buf_ops_ok buf_op_ok]; split_and!; try exact I; vm_compute; congruence|];
  constructor;
  [match goal with |- smodels ?l _ => replace l with (CSndLossList.create 0 64) by (vm_compute; reflexivity) end; apply snd_create_models; lia
  |exists ring; match goal with |- brep ?x _ _ => replace x with b; [exact R|] end; revert E; vm_compute; by intros [= <-]
  |vm_compute; reflexivity..
  |let x := fresh in let Hx := fresh in intros x Hx; by apply not_elem_of_empty in Hx
  |intros [|[|i]] it; cbn; intros [= <-]; split; vm_compute; reflexivity].

Lemma sent_one_inv : sinv sent_one (2 ^ 31 - 1) (2 ^ 31 - 1) ∅ (mkQueue [item1; item2] 1 2 10).
Proof. concrete_sinv (-1) [BufRead 0 (fun _ => 20)]. Qed.

Lemma sent_two_inv : sinv sent_two (2 ^ 31 - 1) (2 ^ 31) ∅ (mkQueue [item1; item2] 2 2 10).
Proof. concrete_sinv (-1) [BufRead 0 (fun _ => 20); BufRead 0 (fun _ => 30)]. Qed.

Lemma loss_report_delivery_witness :
  exists l ev s' (A' : gset Z), CRcvLossList.insert (CRcvLossList.create 0 8) 0 0 = Some (1, l)
    /\ CRcvLossList.getLossArray l 10 = Some [0]
    /\ processCtrlLossReport [0] sent_two = Some (true, ev, s') /\ (2 ^ 31) ∈ A' /\ drop_requests ev = [].
Proof.
  destruct (insert_models (CRcvLossList.create 0 8) (mkLossSet ∅ None) (2 ^ 31) (2 ^ 31)) as (l & E & Hm).
  - apply create_models. lia.
  - split; [done|]. intros x Hx. by apply not_elem_of_empty in Hx.
  - split; [done|]. intros x Hx. by apply not_elem_of_empty in Hx.
  - lia.
  - split; [cbn; lia|]. intros x Hx. by apply not_elem_of_empty in Hx.
  - assert (CRcvLossList.insert (CRcvLossList.create 0 8) 0 0 = Some (1, l)) as E1 by exact E.
    assert (CRcvLossList.getLossArray l 10 = Some [0]) as E2.
    { assert (exists l0, CRcvLossList.insert (CRcvLossList.create 0 8) 0 0 = Some (1, l0) /\ CRcvLossList.getLossArray l0 10 = Some [0])
        as (l0 & F1 & F2) by (eexists; split; [vm_compute; reflexivity|vm_compute; reflexivity]). rewrite F1 in E1. injection E1 as <-. exact F2. }
    destruct (loss_report_delivery l _ 10 sent_two (2 ^ 31 - 1) (2 ^ 31) ∅ _ Hm ltac:(lia) sent_two_inv)
      as (report & rs & ev & s' & A' & Er & Ep & _ & Hsub & HA & Hd & Hfull).
    { intros x. change (lostset (snd (spec_insert _ _ _))) with (∅ ∪ range_set (2 ^ 31) (2 ^ 31)). rewrite elem_of_union, elem_of_range_set. unfold CSeqNo.m_iSeqNoTH.
      intros [Hx|Hx]; [by apply not_elem_of_empty in Hx|lia]. }
    rewrite E2 in Er. injection Er as <-. exists l, ev, s', A'. split; [exact E1|]. split; [exact E2|]. split; [exact Ep|]. split.
    + apply HA. right. split; [lia|]. apply Hfull; [cbn; lia|]. change (lostset (snd (spec_insert _ _ _))) with (∅ ∪ range_set (2 ^ 31) (2 ^ 31)).
      rewrite elem_of_union, elem_of_range_set. right. lia.
    + assert (exists ev0 s0, processCtrlLossReport [0] sent_two = Some (true, ev0, s0) /\ drop_requests ev0 = [])
        as (ev0 & s0 & F1 & F2) by (eexists _, _; split; [vm_compute; reflexivity|vm_compute; reflexivity]). rewrite F1 in Ep. injection Ep as <- _. exact F2.
Defined.

(** The words of a report no peer that follows the protocol sends: a range
    without its end, a range that ends before it begins, a range or a single
    packet beyond the last packet sent. *)
Inductive bad_entry (a c : Z) : list Z -> Prop :=
  | BadTrailing lo : bad_entry a c [Z.lor (seq_of lo) CRcvLossList.LOSSDATA_SEQNO_RANGE_FIRST]
  | BadOrder lo hi rest : 0 < lo - hi < CSeqNo.m_iSeqNoTH ->
      bad_entry a c (Z.lor (seq_of lo) CRcvLossList.LOSSDATA_SEQNO_RANGE_FIRST :: seq_of hi :: rest)
  | BadRange lo hi rest : 0 < hi - c < CSeqNo.m_iSeqNoTH ->
      bad_entry a c (Z.lor (seq_of lo) CRcvLossList.LOSSDATA_SEQNO_RANGE_FIRST :: seq_of hi :: rest)
  | BadSingle x rest : c < x -> x - c < CSeqNo.m_iSeqNoTH -> x - a < CSeqNo.m_iSeqNoTH -> bad_entry a c (seq_of x :: rest).

Lemma bad_entry_run s a c A q ws : sinv s a c A q -> bad_entry a c ws -> decode_loss ws s = Some (false, [], s).
Proof.
  intros I Hb. pose proof (sinv_bounds _ _ _ _ _ I) as (Ha & Hs & _). destruct Hb as [lo|lo hi rest H|lo hi rest H|x rest H1 H2 H3]; cbn [decode_loss].
  - by destruct (range_word lo) as [-> _].
  - destruct (range_word lo) as [-> ->]. mrun. rewrite (seqcmp_gtb lo hi), Z.gtb_ltb by lia. destruct (Z.ltb_spec hi lo); [done|lia].
  - destruct (range_word lo) as [-> ->]. mrun. rewrite (si_curr _ _ _ _ _ I), (seqcmp_gtb hi c) by lia.
    rewrite (proj2 (Z.gtb_lt hi c)), orb_true_r by lia. done.
  - rewrite single_word. unfold loss_single. mrun. rewrite (si_last _ _ _ _ _ I), (si_curr _ _ _ _ _ I).
    unfold CSeqNo.m_iSeqNoTH in *. rewrite seqcmp_geb, seqcmp_gtb, Z.geb_leb, Z.gtb_ltb by (unfold CSeqNo.m_iSeqNoTH; lia).
    destruct (Z.leb_spec a x); [|lia]. destruct (Z.ltb_spec c x); [done|lia].
Qed.

(** C24: a loss report with an entry that cannot be true breaks the connection.
    The entries before it are recorded, the rest of the report is ignored, and the
    sender's data stay consistent. *)
Theorem loss_report_rejected s a c A q rs ws :
  sinv s a c A q -> Forall (plausible a c) rs -> bad_entry a c ws ->
  exists ev s', processCtrlLossReport (concat (report_words <$> rs) ++ ws) s = Some (false, ev, s')
    /\ m_bBroken s' = true /\ BreakConnection ∈ ev /\ Schedule ∉ ev /\ sinv s' a c (recorded_all a rs A) q.
Proof.
  intros I Hrs Hb. destruct (decode_report_run s a c A q rs ws I Hrs) as (ev & l' & E & Hd & I' & Hq).
  rewrite (bad_entry_run _ _ _ _ _ _ I' Hb) in E. unfold processCtrlLossReport, break_connection. mrun. rewrite E. cbn [negb]. mrun.
  eexists _, _. split; [reflexivity|]. split; [done|]. rewrite app_nil_r. split; [set_solver|]. split; [set_solver|].
  eapply sinv_core; [|exact I']. done.
Qed.

(** The second packet is reported, then one six beyond the last one sent. *)
Lemma loss_report_rejected_witness :
  exists ev s', processCtrlLossReport [0; 6] sent_two = Some (false, ev, s')
    /\ m_bBroken s' = true /\ BreakConnection ∈ ev /\ Schedule ∉ ev
    /\ sinv s' (2 ^ 31 - 1) (2 ^ 31) (recorded_all (2 ^ 31 - 1) [(2 ^ 31, 2 ^ 31)] ∅) (mkQueue [item1; item2] 2 2 10).
Proof.
  apply (loss_report_rejected sent_two (2 ^ 31 - 1) (2 ^ 31) ∅ _ [(2 ^ 31, 2 ^ 31)] [6]).
  - exact sent_two_inv.
  - repeat constructor; cbn; unfold CSeqNo.m_iSeqNoTH; lia.
  - apply (BadSingle _ _ (2 ^ 31 + 6)); unfold CSeqNo.m_iSeqNoTH; lia.
Defined.

(** ** Acknowledgements *)

(** C21: an acknowledgement of a peer that follows the protocol, lite or full,
    frees exactly the packets before its number: the buffer and the loss list lose
    those and keep the others, an acknowledgement older than the last one frees
    nothing, the connection stays up, and a full acknowledgement that is not older
    sets the flow window to the space the peer reports. *)
Theorem ack_frees_prefix e s a c A q k pktlen no ws t :
  sinv s a c A q -> honest_ack a c k pktlen ws ->
  exists ev s', processCtrlAck e pktlen no ws t s = Some (true, ev, s') /\ m_bBroken s' = m_bBroken s
    /\ sinv s' (Z.max a k) c (unacked (Z.max a k) A) (spec_ack (Z.max a k - a) q)
    /\ (16 <= pktlen -> exists w, ws !! ACKD_BUFFERLEFT = Some w
          /\ m_iFlowWindowSize s' = if a <=? k then w else m_iFlowWindowSize s).
Proof. apply ack_run. Qed.

(** The first of the two packets is acknowledged by a full acknowledgement with a
    window of 40 packets. *)
Lemma ack_frees_prefix_witness :
  exists ev s', processCtrlAck live_env 28 1 [0; 100000; 50000; 40; 0; 0; 0] 50 sent_two = Some (true, ev, s')
    /\ sinv s' (2 ^ 31) (2 ^ 31) (unacked (2 ^ 31) ∅) (spec_ack 1 (mkQueue [item1; item2] 2 2 10)) /\ m_iFlowWindowSize s' = 40.
Proof.
  destruct (ack_frees_prefix live_env sent_two (2 ^ 31 - 1) (2 ^ 31) ∅ _ (2 ^ 31) 28 1 [0; 100000; 50000; 40; 0; 0; 0] 50 sent_two_inv)
    as (ev & s' & E & _ & I & Hw).
  - split_and!; [reflexivity|lia|unfold CSeqNo.m_iSeqNoTH; lia|unfold CSeqNo.m_iSeqNoTH; lia|]. right. split_and!; [lia|reflexivity|done].
  - exists ev, s'. split; [exact E|]. split; [exact I|]. destruct (Hw ltac:(lia)) as (w & [= <-] & ->). reflexivity.
Defined.

(** a full acknowledgement beyond the last packet sent is refused and breaks
    the connection, but only after it was applied to the buffer: the packets up to
    it are gone, those never sent among them. *)
Theorem ack_beyond_sent_applied e s a c A q k pktlen no ws t :
  sinv s a c A q -> ws !! ACKD_RCVLASTACK = Some (seq_of k) -> 16 <= pktlen -> Z.of_nat (length ws) = pktlen / ACKD_FIELD_SIZE ->
  c + 1 < k -> k - a < CSeqNo.m_iSeqNoTH -> k - c < CSeqNo.m_iSeqNoTH ->
  exists ev s', processCtrlAck e pktlen no ws t s = Some (false, ev, s') /\ m_bBroken s' = true /\ BreakConnection ∈ ev
    /\ exists ring, brep (m_pSndBuffer s') ring (spec_ack (k - a) q).
Proof.
  intros I Hw H16 Hl Hk Hka Hkc. pose proof (sinv_bounds _ _ _ _ _ I) as (Ha & _).
  eapply ack_full_reject; try done. lia.
Qed.

(** With only the first of the two packets sent, both are acknowledged. *)
Lemma ack_beyond_sent_applied_witness :
  exists ev s', processCtrlAck live_env 16 1 [1; 100000; 50000; 40] 50 sent_one = Some (false, ev, s') /\ m_bBroken s' = true
    /\ exists ring, brep (m_pSndBuffer s') ring (mkQueue [] 0 2 10).
Proof.
  destruct (ack_beyond_sent_applied live_env sent_one (2 ^ 31 - 1) (2 ^ 31 - 1) ∅ _ (2 ^ 31 + 1) 16 1 [1; 100000; 50000; 40] 50 sent_one_inv)
    as (ev & s' & E & Hb & _ & R); [reflexivity|lia|reflexivity|lia|unfold CSeqNo.m_iSeqNoTH; lia..|].
  exists ev, s'. split_and!; [exact E|exact Hb|exact R].
Defined.

(** ** Retransmission *)

(** [p] is the packet [packUniqueData] makes of [it] at time [now], with the mark
    of a retransmission: number, message flags and payload, and the timestamp
    whenever it is that of the data. *)
Definition same_data (e : env) (it : item) (now : Z) (p : CPacket.t) : Prop :=
  let p0 := data_packet e now (it_view it) in
  CPacket.ph_seqno p = CPacket.ph_seqno p0 /\ CPacket.m_pcData p = CPacket.m_pcData p0
  /\ CPacket.ph_msgno p = (if m_bPeerRexmitFlag e then Z.lor (CPacket.ph_msgno p0) PACKET_SND_REXMIT else CPacket.ph_msgno p0)
  /\ (m_bPeerTsbPd e = true -> tsStartTime e <= it_origin it -> CPacket.ph_timestamp p = CPacket.ph_timestamp p0).


Lemma sent_two_lost : exists s A q, after (processCtrlLossReport [0]) sent_two = s
  /\ sinv s (2 ^ 31 - 1) (2 ^ 31) A q /\ A = {[2 ^ 31]} /\ q = mkQueue [item1; item2] 2 2 10.
Proof.
  destruct (report_run sent_two (2 ^ 31 - 1) (2 ^ 31) ∅ _ [(2 ^ 31, 2 ^ 31)] sent_two_inv) as (ev & s' & E & _ & I & _).
  { repeat constructor; cbn; unfold CSeqNo.m_iSeqNoTH; lia. }
  change (concat (report_words <$> [(2 ^ 31, 2 ^ 31)])) with [0] in E. unfold after. rewrite E. eexists _, _, _. split_and!; [done|exact I| |done].
  apply set_eq. intros x. rewrite elem_of_recorded_all, lost_cons, lost_nil, elem_of_singleton.
  split; [|intros ->; right; lia]. intros [[]%not_elem_of_empty|[_ [Hx|[]]]]. lia.
Qed.


(** C26: retransmission of a packet past its time to live does not end. When the
    oldest lost packet has expired, the loop of [extractCleanRexmitPacket] asks
    the buffer for the same packet again and again: after any number of rounds it
    goes on, with one more drop request sent in each. *)
Theorem rexmit_expired_never_ends rounds e clk clk' now s a c A q x it :
  sinv s a c A q -> x ∈ A -> (forall y, y ∈ A -> x <= y) -> items q !! Z.to_nat (x - a) = Some it ->
  (forall k, right_time e s it (clk k) = true) -> it_expired it (clk' 0%nat) = true -> (forall k, clk' k <= clk' (S k)) ->
  exists ev s', packLostData rounds e clk clk' now s = Some (PackGoesOn, ev, s') /\ length (drop_requests ev) = rounds.
Proof.
  intros I Hx Hmin Hit Hdue Hexp Hmono. destruct (rexmit_run 0 e clk s a c A q I) as (r & l' & A' & E & I' & Hch). rewrite Nat.add_0_r in E.
  unfold packLostData. mrun. rewrite E. cbn [fst snd].
  destruct Hch as [(-> & -> & Hno)|(x' & it' & -> & Hx' & Hit' & _ & -> & Hno)]; cbn [fst snd].
  { destruct (Hno x it Hx Hit) as [k Hk]. by rewrite Hdue in Hk. }
  assert (x' = x) as ->. { destruct (decide (x < x')) as [Hlt|]; [|specialize (Hmin _ Hx'); lia]. destruct (Hno x it Hx Hlt Hit) as [k Hk]. by rewrite Hdue in Hk. }
  rewrite seq_of_not_none. pose proof (si_in _ _ _ _ _ I x Hx) as Hxr.
  destruct (extract_expired_loop rounds _ a c _ q x it clk' I' Hxr Hit Hexp Hmono) as (ev & s' & E2 & Hd).
  rewrite E2. mrun. eexists _, _. split; [reflexivity|]. by rewrite ?app_nil_r.
Qed.

(** The message with a time to live of five milliseconds, retransmitted after one
    second. *)
Lemma sent_ttl_inv : sinv (sent_both 5) (2 ^ 31 - 1) (2 ^ 31) ∅ (mkQueue [part1 5; part2 5] 2 2 10).
Proof. concrete_sinv 5 [BufRead 0 (fun _ => 20); BufRead 0 (fun _ => 30)]. Qed.

Lemma rexmit_expired_never_ends_witness :
  exists ev s', packLostData 1000 live_env (fun _ => 1000000) (fun k => 1000000 + Z.of_nat k) 1000000
      (after (processCtrlLossReport [0]) (sent_both 5)) = Some (PackGoesOn, ev, s')
    /\ length (drop_requests ev) = 1000%nat.
Proof.
  destruct (report_run (sent_both 5) (2 ^ 31 - 1) (2 ^ 31) ∅ _ [(2 ^ 31, 2 ^ 31)] sent_ttl_inv) as (ev & s' & E & _ & I & _).
  { repeat constructor; cbn; unfold CSeqNo.m_iSeqNoTH; lia. }
  change (concat (report_words <$> [(2 ^ 31, 2 ^ 31)])) with [0] in E. unfold after at 1. rewrite E.
  apply (rexmit_expired_never_ends 1000 live_env (fun _ => 1000000) (fun k => 1000000 + Z.of_nat k) 1000000 s' _ _ _ _ (2 ^ 31) (part2 5) I).
  - apply elem_of_recorded_all. right. split; [lia|]. apply lost_cons. left. lia.
  - intros y. rewrite elem_of_recorded_all, lost_cons, lost_nil. intros [[]%not_elem_of_empty|[_ [Hy|[]]]]. lia.
  - reflexivity.
  - reflexivity.
  - reflexivity.
  - intros k. lia.
Defined.
