(* ===== verification/Tsbpd.v ===== *)
(** * Timestamp-based delivery (srtcore/tsbpd_time.h, tsbpd_time.cpp: [CTsbpdTime];
      srtcore/utilities.h: [DriftTracer])

    A packet carries the low 32 bits of the microseconds since the connection
    began. [CTsbpdTime] finds the local time of the packet from them: it follows
    the wrap-around of the timestamps and the drift of the sender's clock against
    the local one. The specification is a clock on unbounded times.

    A [time_point] or a [duration] is a [Z] in microseconds; the lock is held from
    start to end of each function. *)

From S2P Require Import Prelude Packet.

Module DriftTracer.

Record t := mk { m_qDrift : Z; m_qOverdrift : Z; m_qDriftSum : Z; m_uDriftSpan : Z }.

Definition init : t := mk 0 0 0 0.

(** The instance with [CLEAR_ON_UPDATE]; whether a new drift value was taken. *)
Definition update (MAX_SPAN MAX_DRIFT : Z) (driftval : Z) (d : t) : bool * t :=
  let sum := i64 (m_qDriftSum d + driftval) in
  let span := u32 (m_uDriftSpan d + 1) in
  if span <? MAX_SPAN then (false, mk (m_qDrift d) 0 sum span)
  else
    let drift := Z.quot sum span in
    if Z.abs drift >? MAX_DRIFT then
      let over := if drift <? 0 then - MAX_DRIFT else MAX_DRIFT in
      (true, mk (drift - over) over 0 0)
    else (true, mk drift 0 0 0).

Definition forceDrift (driftval : Z) (d : t) : t := mk driftval (m_qOverdrift d) (m_qDriftSum d) (m_uDriftSpan d).

End DriftTracer.

Module CTsbpdTime.

Definition TSBPD_WRAP_PERIOD : Z := 30 * 1000000.
Definition TSBPD_DRIFT_MAX_VALUE : Z := 5000.
Definition TSBPD_DRIFT_MAX_SAMPLES : Z := 1000.

Record t := mk {
  m_iFirstRTT : Z;
  m_bTsbPdMode : bool;
  m_tdTsbPdDelay : Z;
  m_tsTsbPdTimeBase : Z;
  m_bTsbPdWrapCheck : bool;
  m_DriftTracer : DriftTracer.t
}.

Definition init : t := mk (-1) false 0 0 false DriftTracer.init.

Definition isEnabled (s : t) : bool := m_bTsbPdMode s.

Definition setTsbPdMode (timebase : Z) (wrap : bool) (delay : Z) (s : t) : t :=
  mk (m_iFirstRTT s) true delay timebase wrap (m_DriftTracer s).

Definition applyGroupTime (timebase : Z) (wrp : bool) (delay udrift : Z) (s : t) : t :=
  mk (m_iFirstRTT s) true delay timebase wrp (DriftTracer.forceDrift udrift (m_DriftTracer s)).

Definition applyGroupDrift (timebase : Z) (wrp : bool) (udrift : Z) (s : t) : t :=
  mk (m_iFirstRTT s) (m_bTsbPdMode s) (m_tdTsbPdDelay s) timebase wrp (DriftTracer.forceDrift udrift (m_DriftTracer s)).

Definition getBaseTime (timestamp_us : Z) (s : t) : Z :=
  let carryover_us :=
    if m_bTsbPdWrapCheck s && (timestamp_us <=? 2 * TSBPD_WRAP_PERIOD) then CPacket.MAX_TIMESTAMP + 1 else 0 in
  m_tsTsbPdTimeBase s + carryover_us.

Definition getPktBaseTime (usPktTimestamp : Z) (s : t) : Z := getBaseTime usPktTimestamp s + usPktTimestamp.

Definition drift (s : t) : Z := DriftTracer.m_qDrift (m_DriftTracer s).

Definition getPktTime (usPktTimestamp : Z) (s : t) : Z := getPktBaseTime usPktTimestamp s + m_tdTsbPdDelay s + drift s.

Definition updateBaseTime (usPktTimestamp : Z) (s : t) : t :=
  if m_bTsbPdWrapCheck s then
    if (usPktTimestamp >=? TSBPD_WRAP_PERIOD) && (usPktTimestamp <=? TSBPD_WRAP_PERIOD * 2) then
      mk (m_iFirstRTT s) (m_bTsbPdMode s) (m_tdTsbPdDelay s) (m_tsTsbPdTimeBase s + (CPacket.MAX_TIMESTAMP + 1)) false (m_DriftTracer s)
    else s
  else if usPktTimestamp >? CPacket.MAX_TIMESTAMP - TSBPD_WRAP_PERIOD then
    mk (m_iFirstRTT s) (m_bTsbPdMode s) (m_tdTsbPdDelay s) (m_tsTsbPdTimeBase s) true (m_DriftTracer s)
  else s.

Definition addDriftSample (usPktTimestamp tsPktArrival usRTTSample : Z) (s : t) : bool * t :=
  if negb (m_bTsbPdMode s) then (false, s)
  else
    let first := if m_iFirstRTT s =? -1 then usRTTSample else m_iFirstRTT s in
    let tdRTTDelta := if usRTTSample >=? 0 then Z.quot (i32 (usRTTSample - first)) 2 else 0 in
    let tdDrift := tsPktArrival - getPktBaseTime usPktTimestamp s - tdRTTDelta in
    let '(updated, d) := DriftTracer.update TSBPD_DRIFT_MAX_SAMPLES TSBPD_DRIFT_MAX_VALUE tdDrift (m_DriftTracer s) in
    (updated, mk first (m_bTsbPdMode s) (m_tdTsbPdDelay s)
                (if updated then m_tsTsbPdTimeBase s + DriftTracer.m_qOverdrift d else m_tsTsbPdTimeBase s)
                (m_bTsbPdWrapCheck s) d).

(** Base time, wrap check and drift, for the other members of a group. *)
Definition getInternalTimeBase (s : t) : Z * bool * Z := (m_tsTsbPdTimeBase s, m_bTsbPdWrapCheck s, drift s).

End CTsbpdTime.

(** ** The specification: a clock on unbounded times *)

Import CTsbpdTime.

(** A clock that sees the whole time since the start of the connection: it needs
    no wrap check. *)
Record clock := mkClock { c_base : Z; c_delay : Z; c_first : Z; c_tracer : DriftTracer.t }.

Definition pkt_time (T : Z) (c : clock) : Z := c_base c + T + c_delay c + DriftTracer.m_qDrift (c_tracer c).

Definition drift_sample (T arrival rtt : Z) (c : clock) : bool * clock :=
  let first := if c_first c =? -1 then rtt else c_first c in
  let delta := if rtt >=? 0 then Z.quot (i32 (rtt - first)) 2 else 0 in
  let '(updated, d) := DriftTracer.update TSBPD_DRIFT_MAX_SAMPLES TSBPD_DRIFT_MAX_VALUE (arrival - (c_base c + T) - delta) (c_tracer c) in
  (updated, mkClock (if updated then c_base c + DriftTracer.m_qOverdrift d else c_base c) (c_delay c) first d).

(** [s] stands for [c] while the newest packet is that of time [H]. Timestamps
    wrapped [k] times; the wrap check is on from one period before the next wrap to
    one period after it. *)
Definition follows (s : t) (c : clock) (H : Z) : Prop :=
  m_bTsbPdMode s = true /\ m_tdTsbPdDelay s = c_delay c /\ m_iFirstRTT s = c_first c /\ m_DriftTracer s = c_tracer c /\ 0 <= H
  /\ exists k, 0 <= k /\ m_tsTsbPdTimeBase s = c_base c + k * 2 ^ 32
     /\ if m_bTsbPdWrapCheck s
        then (k + 1) * 2 ^ 32 - TSBPD_WRAP_PERIOD <= H < (k + 1) * 2 ^ 32 + TSBPD_WRAP_PERIOD
        else (k = 0 \/ k * 2 ^ 32 + TSBPD_WRAP_PERIOD <= H) /\ H < (k + 1) * 2 ^ 32 - TSBPD_WRAP_PERIOD.

(** The reach of the 32-bit timestamps around the newest packet. *)
Definition near (H T : Z) : Prop := 0 <= T /\ Z.abs (T - H) <= TSBPD_WRAP_PERIOD.

Lemma u32_era k z : k * 2 ^ 32 <= z < (k + 1) * 2 ^ 32 -> u32 z = z - k * 2 ^ 32.
Proof. intros Hz. unfold u32. symmetry. apply (Z.mod_unique z (2 ^ 32) k); lia. Qed.

(** The numbers of a wrap, in the order used below. *)
Ltac era := unfold near, TSBPD_WRAP_PERIOD, CPacket.MAX_TIMESTAMP in *; lia.

Lemma base_time_exact s c H T : follows s c H -> near H T -> getPktBaseTime (u32 T) s = c_base c + T.
Proof.
  intros (_ & _ & _ & _ & HH & k & Hk & Hb & Hw) Hn. unfold getPktBaseTime, getBaseTime. rewrite Hb. destruct (m_bTsbPdWrapCheck s); cbn [andb].
  - destruct (Z.lt_ge_cases T ((k + 1) * 2 ^ 32)).
    + rewrite (u32_era k) by era. destruct (Z.leb_spec (T - k * 2 ^ 32) (2 * TSBPD_WRAP_PERIOD)); era.
    + rewrite (u32_era (k + 1)) by era. destruct (Z.leb_spec (T - (k + 1) * 2 ^ 32) (2 * TSBPD_WRAP_PERIOD)); era.
  - rewrite (u32_era k) by era. era.
Qed.

Lemma follows_update s c H T : follows s c H -> near H T -> follows (updateBaseTime (u32 T) s) c (Z.max H T).
Proof.
  intros (Hm & Hd & Hf & Ht & HH & k & Hk & Hb & Hw) Hn. unfold updateBaseTime, follows. destruct (m_bTsbPdWrapCheck s) eqn:Ew.
  - destruct (Z.lt_ge_cases T ((k + 1) * 2 ^ 32)).
    + rewrite (u32_era k) by era. destruct (Z.geb_spec (T - k * 2 ^ 32) TSBPD_WRAP_PERIOD), (Z.leb_spec (T - k * 2 ^ 32) (TSBPD_WRAP_PERIOD * 2));
        cbn [andb]; try era. all: split_and!; try done; try era. all: exists k; rewrite Ew; split_and!; try done; era.
    + rewrite (u32_era (k + 1)) by era. destruct (Z.geb_spec (T - (k + 1) * 2 ^ 32) TSBPD_WRAP_PERIOD), (Z.leb_spec (T - (k + 1) * 2 ^ 32) (TSBPD_WRAP_PERIOD * 2));
        cbn [andb]; try era; cbn.
      * split_and!; try done; try era. exists (k + 1). rewrite Hb. split_and!; era.
      * split_and!; try done; try era. exists k. rewrite Ew. split_and!; try done; era.
  - rewrite (u32_era k) by era. rewrite Z.gtb_ltb. destruct (Z.ltb_spec (CPacket.MAX_TIMESTAMP - TSBPD_WRAP_PERIOD) (T - k * 2 ^ 32)); cbn.
    + split_and!; try done; try era. exists k. rewrite Hb. split_and!; era.
    + split_and!; try done; try era. exists k. rewrite Ew. split_and!; try done; era.
Qed.

Lemma follows_sample s c H T arrival rtt :
  follows s c H -> near H T ->
  fst (addDriftSample (u32 T) arrival rtt s) = fst (drift_sample T arrival rtt c)
  /\ follows (snd (addDriftSample (u32 T) arrival rtt s)) (snd (drift_sample T arrival rtt c)) H.
Proof.
  intros F Hn. pose proof (base_time_exact s c H T F Hn) as E. destruct F as (Hm & Hd & Hf & Ht & HH & k & Hk & Hb & Hw).
  unfold addDriftSample, drift_sample. rewrite Hm, E, Hf, Ht. cbn [negb]. destruct (DriftTracer.update _ _ _ _) as [up d]. cbn [fst snd].
  split; [done|]. split_and!; try done. exists k. split_and!; try done. cbn. destruct up; lia.
Qed.

(** ** Streams of packets *)

(** [OpTime]: the delivery time of a packet is asked; [OpData]: a packet moves the
    base time; [OpSample]: a drift sample. [T] is the sender's time. *)
Inductive tsbpd_op := OpTime (T : Z) | OpData (T : Z) | OpSample (T arrival rtt : Z).

(** The delivery times answered, and the final state. *)
Fixpoint tsbpd_run (ops : list tsbpd_op) (s : t) : list Z * t :=
  match ops with
  | [] => ([], s)
  | OpTime T :: ops => let '(r, s') := tsbpd_run ops s in (getPktTime (u32 T) s :: r, s')
  | OpData T :: ops => tsbpd_run ops (updateBaseTime (u32 T) s)
  | OpSample T arrival rtt :: ops => tsbpd_run ops (snd (addDriftSample (u32 T) arrival rtt s))
  end.

Fixpoint clock_run (ops : list tsbpd_op) (c : clock) : list Z * clock :=
  match ops with
  | [] => ([], c)
  | OpTime T :: ops => let '(r, c') := clock_run ops c in (pkt_time T c :: r, c')
  | OpData T :: ops => clock_run ops c
  | OpSample T arrival rtt :: ops => clock_run ops (snd (drift_sample T arrival rtt c))
  end.

(** Every packet is within the wrap period of the newest one before it. *)
Fixpoint ops_near (H : Z) (ops : list tsbpd_op) : Prop :=
  match ops with
  | [] => True
  | OpTime T :: ops => near H T /\ ops_near H ops
  | OpData T :: ops => near H T /\ ops_near (Z.max H T) ops
  | OpSample T _ _ :: ops => near H T /\ ops_near H ops
  end.

(** The state [setTsbPdMode] leaves at the start of a connection. *)
Lemma follows_start base delay : follows (setTsbPdMode base false delay init) (mkClock base delay (-1) DriftTracer.init) 0.
Proof. split_and!; try done. exists 0. cbn. split_and!; try lia. era. Qed.

(** C33: the 32-bit timestamps are enough. As long as no packet is more than the
    wrap period of 30 seconds away from the newest one before it, the delivery
    times of [CTsbpdTime] are those of a clock that sees the whole sending times,
    over any number of wrap-arounds of the timestamps, with the drift samples
    taken in between. *)
Theorem tsbpd_refines s c H ops :
  follows s c H -> ops_near H ops ->
  fst (tsbpd_run ops s) = fst (clock_run ops c) /\ exists H', follows (snd (tsbpd_run ops s)) (snd (clock_run ops c)) H'.
Proof.
  revert s c H. induction ops as [|[T|T|T arrival rtt] ops IH]; intros s c H F Hn; cbn in *; [eauto|..]; destruct Hn as [Hn Hops].
  - destruct (IH s c H F Hops) as [E1 E2]. destruct (tsbpd_run ops s) as [r s'], (clock_run ops c) as [r' c']. cbn in *. split; [|done].
    f_equal; [|done]. unfold getPktTime, pkt_time, drift. rewrite (base_time_exact s c H T F Hn). by destruct F as (_ & -> & _ & -> & _).
  - eapply IH; [|exact Hops]. by apply follows_update.
  - eapply IH; [|exact Hops]. by apply (follows_sample s c H T arrival rtt).
Qed.

(** Packets across a wrap-around, ten seconds apart, with a reordered one. *)
Lemma tsbpd_refines_witness :
  let s := mk 100 true 120000 5000 false DriftTracer.init in
  let ops := (fun x => OpData (2 ^ 32 + x * 10000000)) <$> [-3; -2; -1; 0; 1; 2; 3; 4; 5] in
  fst (tsbpd_run (ops ++ [OpTime (2 ^ 32 + 35000000); OpTime (2 ^ 32 + 51000000)]) s) = [2 ^ 32 + 35125000; 2 ^ 32 + 51125000]
  /\ exists H', follows (snd (tsbpd_run (ops ++ [OpTime (2 ^ 32 + 35000000); OpTime (2 ^ 32 + 51000000)]) s))
                  (mkClock 5000 120000 100 DriftTracer.init) H'.
Proof.
  intros s ops.
  destruct (tsbpd_refines s (mkClock 5000 120000 100 DriftTracer.init) (2 ^ 32 - 40000000)
    (ops ++ [OpTime (2 ^ 32 + 35000000); OpTime (2 ^ 32 + 51000000)])) as [E F].
  - split_and!; try done. exists 0. cbn. split_and!; [lia|lia|lia|era].
  - cbn. split_and!; try done; era.
  - split; [rewrite E; reflexivity|]. exact F.
Defined.

(** ** The drift tracer *)

Fixpoint feed (MAX_SPAN MAX_DRIFT : Z) (vals : list Z) (d : DriftTracer.t) : list bool * DriftTracer.t :=
  match vals with
  | [] => ([], d)
  | v :: vals =>
    let '(b, d) := DriftTracer.update MAX_SPAN MAX_DRIFT v d in
    let '(bs, d') := feed MAX_SPAN MAX_DRIFT vals d in (b :: bs, d')
  end.

Definition total (vals : list Z) : Z := foldr Z.add 0 vals.

Section Tracer.

Context (S D B : Z) (HS : 0 < S < 2 ^ 32) (HB : 0 <= B) (HSB : S * B < 2 ^ 63).

Lemma feed_collect vals d :
  Forall (fun v => Z.abs v <= B) vals -> 0 <= DriftTracer.m_uDriftSpan d ->
  Z.abs (DriftTracer.m_qDriftSum d) <= B * DriftTracer.m_uDriftSpan d ->
  DriftTracer.m_uDriftSpan d + Z.of_nat (length vals) < S ->
  let d' := snd (feed S D vals d) in
  fst (feed S D vals d) = replicate (length vals) false
  /\ DriftTracer.m_uDriftSpan d' = DriftTracer.m_uDriftSpan d + Z.of_nat (length vals)
  /\ DriftTracer.m_qDriftSum d' = DriftTracer.m_qDriftSum d + total vals
  /\ Z.abs (DriftTracer.m_qDriftSum d') <= B * DriftTracer.m_uDriftSpan d'.
Proof using HS HB HSB.
  revert d. induction vals as [|v vals IH]; intros d Hf Hs Hsum Hlt; cbn [feed total foldr length replicate fst snd].
  { split_and!; [done|lia|lia|done]. }
  apply list.Forall_cons in Hf as [Hv Hf]. cbn [length] in Hlt.
  assert (Z.abs (DriftTracer.m_qDriftSum d + v) <= B * (DriftTracer.m_uDriftSpan d + 1)) as Hsum' by lia.
  assert (B * (DriftTracer.m_uDriftSpan d + 1) < 2 ^ 63) by nia.
  unfold DriftTracer.update. rewrite i64_id, u32_id by (unfold is_u32; lia).
  destruct (Z.ltb_spec (DriftTracer.m_uDriftSpan d + 1) S); [|lia].
  specialize (IH (DriftTracer.mk (DriftTracer.m_qDrift d) 0 (DriftTracer.m_qDriftSum d + v) (DriftTracer.m_uDriftSpan d + 1)) Hf).
  cbn [DriftTracer.m_uDriftSpan DriftTracer.m_qDriftSum] in IH. destruct IH as (E1 & E2 & E3 & E4); [lia|done|lia|].
  destruct (feed S D vals _) as [bs d']. cbn [fst snd] in *. fold (total vals). rewrite E2, E3 in E4. rewrite E1, E2, E3.
  split_and!; [done|lia|lia|exact E4].
Qed.

End Tracer.

(** The drift tracer. [MAX_SPAN] samples after the last value it reports a new
    one, not before: the mean of these samples. What exceeds [MAX_DRIFT] in either
    direction is split off as overdrift, of which [addDriftSample] moves the base
    time, so that base time and drift together move by the mean. *)
Theorem drift_tracer_mean S D B vals v d :
  0 < S < 2 ^ 32 -> 0 <= D -> 0 <= B -> S * B < 2 ^ 63 ->
  Forall (fun v => Z.abs v <= B) (vals ++ [v]) -> Z.of_nat (length vals) + 1 = S ->
  DriftTracer.m_uDriftSpan d = 0 -> DriftTracer.m_qDriftSum d = 0 ->
  let mean := Z.quot (total vals + v) S in
  let d' := snd (DriftTracer.update S D v (snd (feed S D vals d))) in
  fst (feed S D vals d) = replicate (length vals) false
  /\ fst (DriftTracer.update S D v (snd (feed S D vals d))) = true
  /\ DriftTracer.m_qDrift d' + DriftTracer.m_qOverdrift d' = mean
  /\ DriftTracer.m_qOverdrift d' = (if Z.abs mean <=? D then 0 else Z.sgn mean * D)
  /\ DriftTracer.m_uDriftSpan d' = 0 /\ DriftTracer.m_qDriftSum d' = 0.
Proof.
  intros HS HD HB HSB Hf Hl Hs0 Hq0. apply list.Forall_app in Hf as [Hf Hv]. apply list.Forall_cons in Hv as [Hv _].
  destruct (feed_collect S D B HS HB HSB vals d Hf) as (E1 & E2 & E3 & E4); [lia|rewrite Hs0, Hq0; lia|lia|].
  destruct (feed S D vals d) as [bs d1]. cbn [fst snd] in *. rewrite Hs0 in E2. rewrite Hq0 in E3.
  rewrite E2, E3 in E4. unfold DriftTracer.update. rewrite E2, E3.
  assert (B * (0 + Z.of_nat (length vals)) + B < 2 ^ 63) by nia.
  rewrite i64_id, u32_id by (unfold is_u32; lia). destruct (Z.ltb_spec (0 + Z.of_nat (length vals) + 1) S); [lia|].
  replace (0 + Z.of_nat (length vals) + 1) with S by lia. rewrite Z.add_0_l. set (mean := Z.quot (total vals + v) S).
  rewrite Z.gtb_ltb. destruct (Z.ltb_spec D (Z.abs mean)), (Z.leb_spec (Z.abs mean) D); try lia; cbn.
  - split_and!; try done; [lia|]. destruct (Z.ltb_spec mean 0); lia.
  - split_and!; try done; lia.
Qed.

Lemma drift_tracer_mean_witness :
  DriftTracer.m_qOverdrift (snd (DriftTracer.update 3 5000 9001 (snd (feed 3 5000 [6000; 9000] DriftTracer.init)))) = 5000.
Proof.
  destruct (drift_tracer_mean 3 5000 10000 [6000; 9000] 9001 DriftTracer.init) as (_ & _ & _ & E & _); try lia; try done.
  repeat constructor; lia.
Defined.
