(* ===== verification/Float64.v ===== *)
(** * IEEE double precision, as the SRTLA link estimators use it

    [double] is the binary64 format of the standard library's executable
    specification of floating point ([SpecFloat]); no primitive floats and no
    axioms are involved. *)

From Stdlib Require Import SpecFloat.
From S2P Require Import Prelude.

Module F64.

Definition t : Type := spec_float.

Definition prec : Z := 53.
Definition emax : Z := 1024.

Definition add : t -> t -> t := SFadd prec emax.
Definition sub : t -> t -> t := SFsub prec emax.
Definition mul : t -> t -> t := SFmul prec emax.
Definition div : t -> t -> t := SFdiv prec emax.
Definition ltb (x y : t) : bool := SFltb x y.
Definition leb (x y : t) : bool := SFleb x y.

(** Conversion from an integer: correctly rounded. *)
Definition of_Z (z : Z) : t := binary_normalize prec emax z 0 false.

Definition zero : t := of_Z 0.
Definition one : t := of_Z 1.

(** Truncation towards zero of a finite value, [None] for NaN and infinities
    (whose conversion to an integer type is undefined in the language). *)
Definition trunc (x : t) : option Z :=
  match x with
  | S754_zero _ => Some 0
  | S754_finite s m e =>
    let a := if 0 <=? e then Z.shiftl (Zpos m) e else Z.shiftr (Zpos m) (- e) in
    Some (if s then - a else a)
  | _ => None
  end.

(** [std::min_element], [std::max_element] on a nonempty sequence. *)
Definition min_element (x : t) (l : list t) : t := foldl (fun m y => if ltb y m then y else m) x l.
Definition max_element (x : t) (l : list t) : t := foldl (fun m y => if ltb m y then y else m) x l.

End F64.

(** The order of [SpecFloat] on finite values. *)
Definition F64_finite (x : F64.t) : Prop := match x with S754_zero _ | S754_finite _ _ _ => True | _ => False end.
