(* ===== verification/Windows.v ===== *)
(** * ACK and packet-time windows (srtcore/window.h, window.cpp; the pass filter of
      srtcore/utilities.h)

    [CACKWindow] remembers the acknowledgements sent, so that the peer's answer
    gives a round-trip time. [CPktTimeWindow] keeps the intervals of arriving
    packets and of probing pairs and estimates from them the receiving speed and
    the bandwidth.

    Array accesses out of bounds, and conversions of a floating-point number that
    does not fit an [int], are [None]. Times are microseconds. *)

From Stdlib Require Import SpecFloat.
From stdpp Require Import sorting.
From S2P Require Import Prelude SeqNo Packet Float64.

Module CACKWindow.

Record Seq := mkSeq { iACKSeqNo : Z; iACK : Z; tsTimeStamp : Z }.
Record t := mk { m_aSeq : list Seq; m_iHead : Z; m_iTail : Z }.

(** [m_aSeq()] value-initializes the array. *)
Definition create (size : Z) : t :=
  mk (<[0%nat := mkSeq SRT_SEQNO_NONE 0 0]> (replicate (Z.to_nat size) (mkSeq 0 0 0))) 0 0.

Definition store (size now seq ack : Z) (w : t) : option t :=
  a ← aset (m_aSeq w) (m_iHead w) (mkSeq seq ack now);
  let head := (m_iHead w + 1) mod size in
  Some (mk a head (if head =? m_iTail w then (m_iTail w + 1) mod size else m_iTail w)).

(** The search loops: [k] steps from [j], the record of step [j] is [idx j]; the
    first [j] whose record has the number. *)
Fixpoint search (k : nat) (idx : Z -> Z) (a : list Seq) (seq j : Z) : option (option Z) :=
  match k with
  | O => Some None
  | S k =>
    r ← aget a (idx j);
    if seq =? iACKSeqNo r then Some (Some j) else search k idx a seq (j + 1)
  end.

Definition clear_first (a : list Seq) : option (list Seq) := aupd a 0 (fun r => mkSeq SRT_SEQNO_NONE (iACK r) (tsTimeStamp r)).

(** The round-trip time or -1, the data number the record carried, if found. *)
Definition acknowledge (size seq currtime : Z) (w : t) : option (Z * option Z * t) :=
  let a := m_aSeq w in
  if m_iHead w >=? m_iTail w then
    found ← search (Z.to_nat (m_iHead w - m_iTail w)) (fun i => i) a seq (m_iTail w);
    match found with
    | None => Some (-1, None, w)
    | Some i =>
      r ← aget a i;
      let rtt := i32 (currtime - tsTimeStamp r) in
      if i + 1 =? m_iHead w then
        a ← clear_first a; Some (rtt, Some (iACK r), mk a 0 0)
      else Some (rtt, Some (iACK r), mk a (m_iHead w) ((i + 1) mod size))
    end
  else
    found ← search (Z.to_nat (m_iHead w + size - m_iTail w)) (fun j => j mod size) a seq (m_iTail w);
    match found with
    | None => Some (-1, None, w)
    | Some j =>
      let j := j mod size in
      r ← aget a j;
      let rtt := i32 (currtime - tsTimeStamp r) in
      if j =? m_iHead w then
        a ← clear_first a; Some (rtt, Some (iACK r), mk a 0 0)
      else Some (rtt, Some (iACK r), mk a (m_iHead w) ((j + 1) mod size))
    end.

End CACKWindow.

Module CPktTimeWindow.

Record PassFilter := mkFilter { lower : Z; median : Z; upper : Z }.

Definition encloses (f : PassFilter) (value : Z) : bool := (value >? lower f) && (value <? upper f).

(** [nth_element] puts at [size / 2] what sorting would put there. *)
Definition GetPeakRange (window : list Z) : option PassFilter :=
  m ← merge_sort Z.le window !! (length window / 2)%nat;
  Some (mkFilter (Z.shiftr m 3) m (i32 (Z.shiftl m 3))).

(** Sum and number of the values that pass. *)
Definition AccumulatePassFilter (window : list Z) (f : PassFilter) : Z * Z :=
  foldl (fun '(sum, count) v => if encloses f v then (i32 (sum + v), i32 (count + 1)) else (sum, count)) (0, 0) window.

(** The same with the sum of the values at the same places of [para]
    ([unsigned long], 64 bits). *)
Definition AccumulatePassFilterParallel (window : list Z) (f : PassFilter) (para : list Z) : Z * Z * Z :=
  foldl (fun '(sum, count, psum) '(v, p) =>
           if encloses f v then (i32 (sum + v), u32 (count + 1), (psum + p) mod 2 ^ 64) else (sum, count, psum))
    (0, 0, 0) (zip window para).

(** [int(::ceil(x))]. *)
Definition ceil_int (x : F64.t) : option Z :=
  c ← (match x with
       | S754_zero _ => Some 0
       | S754_finite s m e =>
         let v := if s then Zneg m else Zpos m in
         Some (if 0 <=? e then Z.shiftl v e else - Z.shiftr (- v) (- e))
       | _ => None
       end);
  if (- 2 ^ 31 <=? c) && (c <? 2 ^ 31) then Some c else None.

Definition ceilPerMega (value count : Z) : option Z :=
  ceil_int (F64.div (F64.of_Z 1000000) (F64.div (F64.of_Z value) (F64.of_Z count))).

(** Packets and bytes per second. *)
Definition getPktRcvSpeed_in (window abytes : list Z) (hdr_size : Z) : option (Z * Z) :=
  f ← GetPeakRange window;
  let '(sum, count, bytes) := AccumulatePassFilterParallel window f abytes in
  if count <=? Z.of_nat (length window) / 2 then Some (0, 0)
  else
    let bytes := (bytes + hdr_size * count) mod 2 ^ 64 in
    bytesps ← ceilPerMega sum bytes;
    pktps ← ceilPerMega sum count;
    Some (pktps, bytesps).

Definition getBandwidth_in (window : list Z) : option Z :=
  f ← GetPeakRange window;
  let '(sum, count) := AccumulatePassFilter window f in
  ceilPerMega (i32 (sum + median f)) (i32 (count + 1)).

Definition PUMASK_SEQNO_PROBE : Z := 0xF.

Record t := mk {
  m_aPktWindow : list Z;
  m_aBytesWindow : list Z;
  m_iPktWindowPtr : Z;
  m_aProbeWindow : list Z;
  m_iProbeWindowPtr : Z;
  m_iLastSentTime : Z;
  m_iMinPktSndInt : Z;
  m_tsLastArrTime : Z;
  m_tsCurrArrTime : Z;
  m_tsProbeTime : Z;
  m_Probe1Sequence : Z;
  m_zPayloadSize : Z;
  m_zHeaderSize : Z
}.

Definition create (asize psize now : Z) : t :=
  mk (replicate (Z.to_nat asize) 0) (replicate (Z.to_nat asize) 0) 0 (replicate (Z.to_nat psize) 0) 0 0 1000000 now 0 0 SRT_SEQNO_NONE 0 0.

Definition initialize (h s : Z) (w : t) : t :=
  mk (const 1000000 <$> m_aPktWindow w) (const (i32 s) <$> m_aBytesWindow w) (m_iPktWindowPtr w)
    (const 1000 <$> m_aProbeWindow w) (m_iProbeWindowPtr w) (m_iLastSentTime w) (m_iMinPktSndInt w)
    (m_tsLastArrTime w) (m_tsCurrArrTime w) (m_tsProbeTime w) (m_Probe1Sequence w) s h.

Definition getMinPktSndInt (w : t) : Z := m_iMinPktSndInt w.
Definition getPktRcvSpeed (w : t) : option (Z * Z) := getPktRcvSpeed_in (m_aPktWindow w) (m_aBytesWindow w) (m_zHeaderSize w).
Definition getBandwidth (w : t) : option Z := getBandwidth_in (m_aProbeWindow w).

Definition onPktSent (currtime : Z) (w : t) : t :=
  let interval := i32 (currtime - m_iLastSentTime w) in
  mk (m_aPktWindow w) (m_aBytesWindow w) (m_iPktWindowPtr w) (m_aProbeWindow w) (m_iProbeWindowPtr w) currtime
    (if (interval <? m_iMinPktSndInt w) && (interval >? 0) then interval else m_iMinPktSndInt w)
    (m_tsLastArrTime w) (m_tsCurrArrTime w) (m_tsProbeTime w) (m_Probe1Sequence w) (m_zPayloadSize w) (m_zHeaderSize w).

(** The next place of a circular window. *)
Definition advance (size ptr : Z) : Z := if ptr + 1 =? size then 0 else ptr + 1.

Definition onPktArrival (pktsz now : Z) (w : t) : option t :=
  pkts ← aset (m_aPktWindow w) (m_iPktWindowPtr w) (i32 (now - m_tsLastArrTime w));
  bytes ← aset (m_aBytesWindow w) (m_iPktWindowPtr w) pktsz;
  Some (mk pkts bytes (advance (Z.of_nat (length (m_aPktWindow w))) (m_iPktWindowPtr w)) (m_aProbeWindow w) (m_iProbeWindowPtr w)
          (m_iLastSentTime w) (m_iMinPktSndInt w) now now (m_tsProbeTime w) (m_Probe1Sequence w) (m_zPayloadSize w) (m_zHeaderSize w)).

Definition set_probe1 (time seq : Z) (w : t) : t :=
  mk (m_aPktWindow w) (m_aBytesWindow w) (m_iPktWindowPtr w) (m_aProbeWindow w) (m_iProbeWindowPtr w) (m_iLastSentTime w)
    (m_iMinPktSndInt w) (m_tsLastArrTime w) (m_tsCurrArrTime w) time seq (m_zPayloadSize w) (m_zHeaderSize w).

Definition probe1Arrival (pkt : CPacket.t) (unordered : bool) (now : Z) (w : t) : t :=
  if unordered && (CPacket.ph_seqno pkt =? m_Probe1Sequence w) then set_probe1 (m_tsProbeTime w) SRT_SEQNO_NONE w
  else set_probe1 now (CPacket.ph_seqno pkt) w.

(** [timediff * m_zPayloadSize] mixes [int64_t] and [size_t]: it is unsigned, and
    so is the division; the result is cut to an [int]. *)
Definition probe_interval (timediff payload pktsz : Z) : Z :=
  if pktsz =? 0 then i32 timediff else i32 (i64 (timediff * payload) mod 2 ^ 64 / pktsz).

Definition probe2Arrival (pkt : CPacket.t) (now : Z) (w : t) : option t :=
  if (m_Probe1Sequence w =? SRT_SEQNO_NONE) || negb (CSeqNo.incseq (m_Probe1Sequence w) =? CPacket.ph_seqno pkt) then Some w
  else
    probes ← aset (m_aProbeWindow w) (m_iProbeWindowPtr w)
               (probe_interval (now - m_tsProbeTime w) (m_zPayloadSize w) (CPacket.getLength pkt));
    Some (mk (m_aPktWindow w) (m_aBytesWindow w) (m_iPktWindowPtr w) probes
            (advance (Z.of_nat (length (m_aProbeWindow w))) (m_iProbeWindowPtr w)) (m_iLastSentTime w) (m_iMinPktSndInt w)
            (m_tsLastArrTime w) now (m_tsProbeTime w) SRT_SEQNO_NONE (m_zPayloadSize w) (m_zHeaderSize w)).

(** [now1], [now2] are the clock readings of the two probes. *)
Definition probeArrival (pkt : CPacket.t) (unordered : bool) (now1 now2 : Z) (w : t) : option t :=
  let inorder16 := Z.land (CPacket.ph_seqno pkt) PUMASK_SEQNO_PROBE in
  let w := if inorder16 =? 0 then probe1Arrival pkt unordered now1 w else w in
  if unordered then Some w
  else if inorder16 =? 1 then probe2Arrival pkt now2 w
  else Some w.

End CPktTimeWindow.
