(* ===== verification/WindowsSpec.v ===== *)
(** * Correctness of the ACK window and of the probing window

    The ACK window is a queue of the acknowledgements sent and not answered, of
    which at most [size - 1] are kept; answering one removes it and the older
    ones. *)

From Stdlib Require Import SpecFloat.
From stdpp Require Import sorting.
From S2P Require Import Prelude SeqNo Packet Float64 Windows.
Import CACKWindow.

(** ** The ACK window *)

Section Rep.

Context (size : Z) (Hsize : 1 < size < 2 ^ 31).

(** The array holds the records [rs], oldest first, from [m_iTail] on. *)
Record arep (w : t) (rs : list Seq) : Prop := mkArep {
  a_length : Z.of_nat (length (m_aSeq w)) = size;
  a_tail : 0 <= m_iTail w < size;
  a_count : Z.of_nat (length rs) < size;
  a_head : m_iHead w = (m_iTail w + Z.of_nat (length rs)) mod size;
  a_recs : forall (i : nat) r, rs !! i = Some r -> aget (m_aSeq w) ((m_iTail w + Z.of_nat i) mod size) = Some r
}.

Lemma slot_bound x : 0 <= x mod size < size.
Proof using Hsize. apply Z.mod_pos_bound. lia. Qed.

Lemma ack_slot_inj t i j : 0 <= i < size -> 0 <= j < size -> (t + i) mod size = (t + j) mod size -> i = j.
Proof using Hsize.
  intros Hi Hj E. assert ((t + i - (t + j)) mod size = 0) as Hm.
  { rewrite Zminus_mod, E, Z.sub_diag. apply Zmod_0_l. }
  apply Z.mod_divide in Hm as [k Hk]; [|lia]. assert (k = 0) by nia. lia.
Qed.

Lemma slot_add t i : (t mod size + i) mod size = (t + i) mod size.
Proof using Hsize. apply Zplus_mod_idemp_l. Qed.

(** Where the head is, without the remainder. *)
Lemma head_cases w rs : arep w rs ->
  (m_iTail w <= m_iHead w /\ m_iHead w = m_iTail w + Z.of_nat (length rs))
  \/ (m_iHead w < m_iTail w /\ m_iHead w + size = m_iTail w + Z.of_nat (length rs)).
Proof using Hsize.
  intros [Hl Ht Hc Hh _]. destruct (Z.lt_ge_cases (m_iTail w + Z.of_nat (length rs)) size).
  - left. rewrite Z.mod_small in Hh by lia. lia.
  - right. rewrite <- (Z.mod_unique (m_iTail w + Z.of_nat (length rs)) size 1 (m_iTail w + Z.of_nat (length rs) - size)) in Hh by lia. lia.
Qed.

Definition spec_store (r : Seq) (rs : list Seq) : list Seq :=
  if Z.of_nat (length rs) + 1 =? size then drop 1 (rs ++ [r]) else rs ++ [r].

(** The record of [seq] with its place. *)
Definition spec_find (seq : Z) (rs : list Seq) : option (nat * Seq) := list_find (fun r => iACKSeqNo r = seq) rs.

Definition spec_acknowledge (seq currtime : Z) (rs : list Seq) : Z * option Z * list Seq :=
  match spec_find seq rs with
  | None => (-1, None, rs)
  | Some (i, r) => (i32 (currtime - tsTimeStamp r), Some (iACK r), drop (S i) rs)
  end.

(** The oldest records leave the window. *)
Lemma arep_drop w rs n : arep w rs -> (n <= length rs)%nat ->
  arep (mk (m_aSeq w) (m_iHead w) ((m_iTail w + Z.of_nat n) mod size)) (drop n rs).
Proof using Hsize.
  intros [Hl Ht Hc Hh Hr] Hn. constructor; cbn; rewrite ?length_drop.
  - done.
  - apply slot_bound.
  - lia.
  - rewrite slot_add, Hh. f_equal. lia.
  - intros i r Hi. rewrite lookup_drop in Hi. rewrite slot_add. replace (m_iTail w + Z.of_nat n + Z.of_nat i) with (m_iTail w + Z.of_nat (n + i)) by lia. by apply Hr.
Qed.

Lemma store_rep w rs now seq ack :
  arep w rs -> exists w', store size now seq ack w = Some w' /\ arep w' (spec_store (mkSeq seq ack now) rs).
Proof using Hsize.
  intros R. pose proof R as [Hl Ht Hc Hh Hr]. pose proof (slot_bound (m_iTail w + Z.of_nat (length rs))) as Hb. unfold store.
  rewrite aset_Some by (unfold in_bounds; rewrite Hh; lia). cbn [mbind option_bind]. eexists. split; [reflexivity|].
  set (arr := <[Z.to_nat (m_iHead w) := mkSeq seq ack now]> (m_aSeq w)).
  assert (forall (i : nat) r, (rs ++ [mkSeq seq ack now]) !! i = Some r -> aget arr ((m_iTail w + Z.of_nat i) mod size) = Some r) as Hrec.
  { intros i r Hi. apply lookup_app_Some in Hi as [Hi|[Hge Hi]].
    - pose proof (lookup_lt_Some _ _ _ Hi). unfold arr. rewrite aget_insert_ne; [by apply Hr|lia|]. rewrite Hh. intros E%ack_slot_inj; lia.
    - apply list_lookup_singleton_Some in Hi as [Hi <-]. replace (Z.of_nat i) with (Z.of_nat (length rs)) by lia. rewrite <- Hh.
      apply aget_insert_eq. unfold in_bounds. rewrite Hh. lia. }
  rewrite Hh, slot_add. unfold spec_store. destruct (Z.eqb_spec (Z.of_nat (length rs) + 1) size) as [E|E].
  - assert (Z.of_nat (length (drop 1 (rs ++ [mkSeq seq ack now]))) = size - 1) as Hlen by (rewrite length_drop, length_app; simpl; lia).
    replace (m_iTail w + Z.of_nat (length rs) + 1) with (m_iTail w + 1 * size) by lia. rewrite Z.mod_add, Z.mod_small by lia. rewrite Z.eqb_refl.
    constructor; cbn [m_aSeq m_iHead m_iTail]; rewrite ?Hlen.
    + unfold arr. by rewrite length_insert.
    + apply slot_bound.
    + lia.
    + rewrite slot_add. replace (m_iTail w + 1 + (size - 1)) with (m_iTail w + 1 * size) by lia. by rewrite Z.mod_add, Z.mod_small by lia.
    + intros i r Hi. rewrite lookup_drop in Hi. rewrite slot_add. replace (m_iTail w + 1 + Z.of_nat i) with (m_iTail w + Z.of_nat (1 + i)) by lia. by apply Hrec.
  - assert (Z.of_nat (length (rs ++ [mkSeq seq ack now])) = Z.of_nat (length rs) + 1) as Hlen by (rewrite length_app; simpl; lia).
    destruct (Z.eqb_spec ((m_iTail w + Z.of_nat (length rs) + 1) mod size) (m_iTail w)) as [E2|E2].
    { replace (m_iTail w) with ((m_iTail w + 0) mod size) in E2 at 2 by (rewrite Z.add_0_r, Z.mod_small; lia).
      rewrite <- Z.add_assoc in E2. apply ack_slot_inj in E2; lia. }
    constructor; cbn [m_aSeq m_iHead m_iTail]; rewrite ?Hlen.
    + unfold arr. by rewrite length_insert.
    + done.
    + lia.
    + f_equal. lia.
    + exact Hrec.
Qed.

(** The search loop finds the oldest record with the number. *)
Lemma search_spec (idx : Z -> Z) a seq rs j :
  (forall (i : nat) r, rs !! i = Some r -> aget a (idx (j + Z.of_nat i)) = Some r) ->
  search (length rs) idx a seq j = Some ((fun p => j + Z.of_nat (fst p)) <$> spec_find seq rs).
Proof using Type.
  revert j. induction rs as [|r rs IH]; intros j Hr; [done|]. unfold spec_find. cbn [search length list_find].
  specialize (Hr 0%nat r eq_refl) as H0. rewrite Z.add_0_r in H0. rewrite H0. cbn [mbind option_bind].
  destruct (decide (iACKSeqNo r = seq)) as [E|E].
  - rewrite E, Z.eqb_refl. cbn. by rewrite Z.add_0_r.
  - destruct (Z.eqb_spec seq (iACKSeqNo r)); [congruence|]. rewrite (IH (j + 1)).
    + unfold spec_find. rewrite <- option_fmap_compose. f_equal. apply option_fmap_ext. intros [i x]. cbn. lia.
    + intros i x Hi. replace (j + 1 + Z.of_nat i) with (j + Z.of_nat (S i)) by lia. by apply Hr.
Qed.

Lemma spec_find_Some seq rs i r : spec_find seq rs = Some (i, r) -> rs !! i = Some r /\ (i < length rs)%nat.
Proof using Type. intros (Hi & _)%list_find_Some. split; [done|]. by eapply lookup_lt_Some. Qed.

Lemma arep_cleared a r : Z.of_nat (length a) = size -> clear_first a = Some r -> arep (mk r 0 0) [].
Proof using Hsize.
  intros Hl E. unfold clear_first, aupd in E. bind_inv. apply aset_inv in E as [_ ->]. constructor; cbn; rewrite ?length_insert; try done; lia.
Qed.

Lemma clear_first_ok a : Z.of_nat (length a) = size -> exists r, clear_first a = Some r.
Proof using Hsize. intros Hl. destruct (aupd_spec a 0 (fun r => mkSeq SRT_SEQNO_NONE (iACK r) (tsTimeStamp r))) as (a' & E & _); [unfold in_bounds; lia|]. by exists a'. Qed.

Lemma acknowledge_rep w rs seq currtime :
  arep w rs ->
  exists w', acknowledge size seq currtime w = Some (fst (spec_acknowledge seq currtime rs), w')
    /\ arep w' (snd (spec_acknowledge seq currtime rs)) /\ (spec_find seq rs = None -> w' = w).
Proof using Hsize.
  intros R. pose proof R as [Hl Ht Hc Hh Hr]. unfold acknowledge, spec_acknowledge. rewrite Z.geb_leb.
  destruct (head_cases w rs R) as [[Hle E]|[Hlt E]].
  - destruct (Z.leb_spec (m_iTail w) (m_iHead w)); [|lia]. replace (Z.to_nat (m_iHead w - m_iTail w)) with (length rs) by lia.
    rewrite (search_spec (fun i => i) (m_aSeq w) seq rs).
    2: { intros i r Hi. pose proof (lookup_lt_Some _ _ _ Hi). rewrite <- (Z.mod_small (m_iTail w + Z.of_nat i) size); [by apply Hr|].
         pose proof (slot_bound (m_iTail w + Z.of_nat (length rs))). lia. }
    cbn [mbind option_bind]. destruct (spec_find seq rs) as [[i r]|] eqn:Ef; cbn -[clear_first]; [|by exists w].
    apply spec_find_Some in Ef as [Hi Hlt]. pose proof (slot_bound (m_iTail w + Z.of_nat (length rs))).
    assert (aget (m_aSeq w) (m_iTail w + Z.of_nat i) = Some r) as -> by (rewrite <- (Z.mod_small (m_iTail w + Z.of_nat i) size); [by apply Hr|lia]). cbn -[clear_first].
    destruct (Z.eqb_spec (m_iTail w + Z.of_nat i + 1) (m_iHead w)) as [E2|E2].
    + destruct (clear_first_ok _ Hl) as [a' Ea]. rewrite Ea. cbn. eexists. split; [reflexivity|]. split; [|done].
      rewrite drop_ge by lia. by eapply arep_cleared.
    + eexists. split; [reflexivity|]. split; [|done]. replace (m_iTail w + Z.of_nat i + 1) with (m_iTail w + Z.of_nat (S i)) by lia. apply arep_drop; [done|lia].
  - destruct (Z.leb_spec (m_iTail w) (m_iHead w)); [lia|]. replace (Z.to_nat (m_iHead w + size - m_iTail w)) with (length rs) by lia.
    rewrite (search_spec (fun j => j mod size) (m_aSeq w) seq rs) by done.
    cbn [mbind option_bind]. destruct (spec_find seq rs) as [[i r]|] eqn:Ef; cbn -[clear_first]; [|by exists w].
    apply spec_find_Some in Ef as [Hi Hil]. rewrite (Hr _ _ Hi). cbn -[clear_first].
    destruct (Z.eqb_spec ((m_iTail w + Z.of_nat i) mod size) (m_iHead w)) as [E2|E2]; [rewrite Hh in E2; apply ack_slot_inj in E2; lia|].
    eexists. split; [reflexivity|]. split; [|done]. rewrite slot_add. replace (m_iTail w + Z.of_nat i + 1) with (m_iTail w + Z.of_nat (S i)) by lia.
    apply arep_drop; [done|lia].
Qed.

Lemma create_rep : arep (create size) [].
Proof using Hsize. constructor; cbn; rewrite ?length_insert, ?length_replicate; try done; lia. Qed.

End Rep.

Inductive ack_op := AStore (now seq ack : Z) | AAnswer (seq currtime : Z).

(** The answers of a sequence of operations and the final window. *)
Fixpoint ack_run (size : Z) (ops : list ack_op) (w : t) : option (list (Z * option Z) * t) :=
  match ops with
  | [] => Some ([], w)
  | AStore now seq ack :: ops => w ← store size now seq ack w; ack_run size ops w
  | AAnswer seq currtime :: ops =>
    r ← acknowledge size seq currtime w;
    q ← ack_run size ops (snd r);
    Some (fst r :: fst q, snd q)
  end.

Fixpoint ack_spec (size : Z) (ops : list ack_op) (rs : list Seq) : list (Z * option Z) * list Seq :=
  match ops with
  | [] => ([], rs)
  | AStore now seq ack :: ops => ack_spec size ops (spec_store size (mkSeq seq ack now) rs)
  | AAnswer seq currtime :: ops =>
    let r := spec_acknowledge seq currtime rs in
    let q := ack_spec size ops (snd r) in (fst r :: fst q, snd q)
  end.

Lemma ack_run_rep size ops w rs :
  1 < size < 2 ^ 31 -> arep size w rs ->
  exists w', ack_run size ops w = Some (fst (ack_spec size ops rs), w') /\ arep size w' (snd (ack_spec size ops rs)).
Proof.
  intros Hs. revert w rs. induction ops as [|[now seq ack|seq currtime] ops IH]; intros w rs R; cbn; [eauto|..].
  - destruct (store_rep size Hs w rs now seq ack R) as (w1 & -> & R1). cbn. by apply IH.
  - destruct (acknowledge_rep size Hs w rs seq currtime R) as (w1 & -> & R1 & _). cbn. destruct (IH _ _ R1) as (w2 & -> & R2). cbn. eauto.
Qed.

(** the ACK window is a bounded queue. Storing acknowledgements and answering
    them, in any order, the circular array is never left, and the answers are
    those of a queue that keeps the [size - 1] newest acknowledgements sent: an
    answered number gives the time since it was stored and the data number stored
    with it and takes it and the older ones off the queue, an unknown number gives
    -1 and changes nothing. *)
Theorem ack_window_refines size ops :
  1 < size < 2 ^ 31 ->
  exists w', ack_run size ops (create size) = Some (fst (ack_spec size ops []), w') /\ arep size w' (snd (ack_spec size ops [])).
Proof. intros Hs. apply ack_run_rep; [done|]. by apply create_rep. Qed.

(** In a window of three, three acknowledgements are sent and the first one is
    gone; the third one's answer comes, then that of the second. *)
Lemma ack_window_refines_witness :
  exists w', ack_run 3 [AStore 10 1 100; AStore 20 2 200; AStore 30 3 300; AAnswer 1 35; AAnswer 3 44; AAnswer 2 50] (create 3)
    = Some ([(-1, None); (14, Some 300); (-1, None)], w').
Proof.
  destruct (ack_window_refines 3 [AStore 10 1 100; AStore 20 2 200; AStore 30 3 300; AAnswer 1 35; AAnswer 3 44; AAnswer 2 50])
    as (w' & E & _); [lia|]. exists w'. exact E.
Defined.

(** ** The bandwidth estimate *)

Lemma accumulate_nothing window : CPktTimeWindow.AccumulatePassFilter window (CPktTimeWindow.mkFilter 0 0 0) = (0, 0).
Proof.
  unfold CPktTimeWindow.AccumulatePassFilter. induction window as [|v window IH]; [done|]. cbn [foldl].
  assert (CPktTimeWindow.encloses (CPktTimeWindow.mkFilter 0 0 0) v = false) as ->; [|done].
  unfold CPktTimeWindow.encloses. cbn. destruct (Z.gtb_spec v 0), (Z.ltb_spec v 0); lia || done.
Qed.

(** When the median of the probing intervals is zero, the estimate divides by zero
    and converts an infinite number to [int], which is undefined. *)
Lemma bandwidth_zero_median window :
  merge_sort Z.le window !! (length window / 2)%nat = Some 0 -> CPktTimeWindow.getBandwidth_in window = None.
Proof.
  intros E. unfold CPktTimeWindow.getBandwidth_in, CPktTimeWindow.GetPeakRange. rewrite E. cbn [mbind option_bind].
  change (Z.shiftr 0 3) with 0. change (i32 (Z.shiftl 0 3)) with 0. rewrite accumulate_nothing. reflexivity.
Qed.

(** Sixteen probing pairs, nine of which arrived in the same microsecond. *)
Lemma bandwidth_zero_median_example :
  CPktTimeWindow.getBandwidth_in [0; 0; 0; 0; 0; 0; 0; 0; 0; 5; 6; 7; 8; 9; 10; 11] = None
  /\ CPktTimeWindow.getBandwidth_in [10; 10; 11; 10; 12; 10; 10; 9; 10; 500; 10; 10; 0; 10; 10; 10] = Some 98685.
Proof. split; [apply bandwidth_zero_median|]; vm_compute; reflexivity. Qed.
