(* ===== verification/RttCtl.v ===== *)
(** * Round-trip times and clock drift of the receiver (srtcore/core.cpp, class [CUDT])

    The answer to an acknowledgement (ACKACK) is looked up in the ACK window; it
    gives the round-trip time, a drift sample for the delivery clock and the number
    up to which the sender knows the acknowledgements. Keepalive packets feed the
    delivery clock as well. *)

From S2P Require Import Prelude SeqNo Packet Tsbpd Float64 Windows WindowsSpec SndBuffer SndCtl.

Module CUDTRtt.

Definition ACK_WND_SIZE : Z := 1024.

Record state := mkState {
  m_ACKWindow : CACKWindow.t;
  m_iSRTT : Z;
  m_iRTTVar : Z;
  m_bIsFirstRTTReceived : bool;
  m_iRcvLastAckAck : Z;
  m_tsbpd : CTsbpdTime.t          (** of [m_pRcvBuffer] *)
}.

Definition update_rtt (rtt : Z) (s : state) : state :=
  if m_bIsFirstRTTReceived s then
    mkState (m_ACKWindow s) (CUDTSnd.avg_iir 8 (m_iSRTT s) rtt) (CUDTSnd.avg_iir 4 (m_iRTTVar s) (c_abs (i32 (rtt - m_iSRTT s)))) true
      (m_iRcvLastAckAck s) (m_tsbpd s)
  else mkState (m_ACKWindow s) rtt (Z.quot rtt 2) true (m_iRcvLastAckAck s) (m_tsbpd s).

Definition set_tsbpd (c : CTsbpdTime.t) (s : state) : state :=
  mkState (m_ACKWindow s) (m_iSRTT s) (m_iRTTVar s) (m_bIsFirstRTTReceived s) (m_iRcvLastAckAck s) c.

(** [ackseq], [ts]: the ACK number and the timestamp of the packet. *)
Definition processCtrlAckAck (bDriftTracer : bool) (ackseq ts tsArrival : Z) (s : state) : option (bool * state) :=
  r ← CACKWindow.acknowledge ACK_WND_SIZE ackseq tsArrival (m_ACKWindow s);
  let '(rtt, found, w) := r in
  let ack := default 0 found in
  let s := mkState w (m_iSRTT s) (m_iRTTVar s) (m_bIsFirstRTTReceived s) (m_iRcvLastAckAck s) (m_tsbpd s) in
  if rtt =? -1 then Some (false, s)
  else if rtt <=? 0 then Some (false, s)
  else
    let s := update_rtt rtt s in
    let s := if bDriftTracer then set_tsbpd (snd (CTsbpdTime.addDriftSample ts tsArrival rtt (m_tsbpd s))) s else s in
    Some (true, if CSeqNo.seqcmp ack (m_iRcvLastAckAck s) >? 0
                then mkState (m_ACKWindow s) (m_iSRTT s) (m_iRTTVar s) (m_bIsFirstRTTReceived s) ack (m_tsbpd s) else s).

Definition processKeepalive (bDriftTracer : bool) (ts tsArrival : Z) (s : state) : state :=
  let s := set_tsbpd (CTsbpdTime.updateBaseTime ts (m_tsbpd s)) s in
  if bDriftTracer then set_tsbpd (snd (CTsbpdTime.addDriftSample ts tsArrival (-1) (m_tsbpd s))) s else s.

End CUDTRtt.

Import CUDTRtt.

(** The smoothed average lies between the old value and the new one. *)
Lemma avg_iir_bounds n x y :
  1 <= n <= 8 -> 0 <= x < 2 ^ 31 -> 0 <= y < 2 ^ 31 ->
  CUDTSnd.avg_iir n x y = (x * (n - 1) + y) / n /\ Z.min x y <= CUDTSnd.avg_iir n x y <= Z.max x y.
Proof.
  intros Hn Hx Hy. unfold CUDTSnd.avg_iir, CUDTSnd.u64. rewrite (Z.mod_small x), (Z.mod_small (x * (n - 1))), (Z.mod_small y), Z.mod_small by nia.
  assert (Z.min x y <= (x * (n - 1) + y) / n <= Z.max x y) as Hb.
  { split; [apply Z.div_le_lower_bound; nia|]. apply Z.div_le_upper_bound; nia. }
  rewrite i32_id by (unfold is_i32; lia). done.
Qed.

(** the answer to an acknowledgement. When the acknowledgement is in the
    window and was sent a positive time ago, this time is the round-trip sample:
    the first one becomes the estimate, a later one moves the smoothed estimate
    towards it, by the weights 7/8 and 1/8, never past it; the number acknowledged
    is remembered if it is new, the drift sample goes to the delivery clock, and
    the record and the older ones leave the window. An answer to an unknown
    acknowledgement changes nothing and is refused. *)
Theorem ackack_measures_rtt drift ackseq ts tsArrival s rs a k :
  arep ACK_WND_SIZE (m_ACKWindow s) rs -> 0 <= m_iSRTT s < 2 ^ 31 ->
  m_iRcvLastAckAck s = seq_of a -> Z.abs (k - a) < CSeqNo.m_iSeqNoTH ->
  match spec_find ackseq rs with
  | None => processCtrlAckAck drift ackseq ts tsArrival s = Some (false, s)
  | Some (i, r) =>
    CACKWindow.iACK r = seq_of k -> 0 < tsArrival - CACKWindow.tsTimeStamp r < 2 ^ 31 ->
    let rtt := tsArrival - CACKWindow.tsTimeStamp r in
    exists s', processCtrlAckAck drift ackseq ts tsArrival s = Some (true, s')
      /\ arep ACK_WND_SIZE (m_ACKWindow s') (drop (S i) rs)
      /\ m_iSRTT s' = (if m_bIsFirstRTTReceived s then (m_iSRTT s * 7 + rtt) / 8 else rtt)
      /\ (m_bIsFirstRTTReceived s = true -> Z.min (m_iSRTT s) rtt <= m_iSRTT s' <= Z.max (m_iSRTT s) rtt)
      /\ m_iRcvLastAckAck s' = seq_of (Z.max a k)
      /\ m_tsbpd s' = (if drift then snd (CTsbpdTime.addDriftSample ts tsArrival rtt (m_tsbpd s)) else m_tsbpd s)
  end.
Proof.
  intros R Hs Ha Hth. destruct (acknowledge_rep ACK_WND_SIZE ltac:(unfold ACK_WND_SIZE; lia) _ rs ackseq tsArrival R) as (w' & E & R' & Hnone).
  unfold processCtrlAckAck. unfold spec_acknowledge in *. destruct (spec_find ackseq rs) as [[i r]|] eqn:Ef; cbn [fst snd] in *.
  - intros Hk Hrtt. rewrite E. cbn [mbind option_bind default]. rewrite i32_id by (unfold is_i32; lia).
    set (rtt := tsArrival - CACKWindow.tsTimeStamp r) in *. destruct (Z.eqb_spec rtt (-1)); [lia|]. destruct (Z.leb_spec rtt 0); [lia|].
    destruct (avg_iir_bounds 8 (m_iSRTT s) rtt ltac:(lia) Hs ltac:(lia)) as [Ev Eb].
    eexists. split; [reflexivity|]. unfold update_rtt. cbn [m_bIsFirstRTTReceived]. unfold id. rewrite Hk.
    destruct (m_bIsFirstRTTReceived s), drift; cbn [m_iRcvLastAckAck set_tsbpd m_tsbpd m_ACKWindow m_iSRTT]; rewrite Ha, seqcmp_gtb, Z.gtb_ltb by done;
      destruct (Z.ltb_spec a k); cbn; (split_and!; [exact R'|first [exact Ev|reflexivity]|first [done|intros _; exact Eb]| |reflexivity]).
    all: rewrite ?Ha; f_equal; lia.
  - rewrite E. cbn. rewrite (Hnone eq_refl). by destruct s.
Qed.

(** Acknowledgement 1 of the packets before 100 was sent at time 10 and is answered
    at time 1610, with an estimate of 1000 before. *)
Lemma ackack_measures_rtt_witness :
  exists w s', CACKWindow.store ACK_WND_SIZE 10 1 100 (CACKWindow.create ACK_WND_SIZE) = Some w
    /\ processCtrlAckAck true 1 500 1610 (mkState w 1000 300 true 90 CTsbpdTime.init) = Some (true, s')
    /\ m_iSRTT s' = 1075 /\ m_iRcvLastAckAck s' = 100.
Proof.
  destruct (store_rep ACK_WND_SIZE ltac:(unfold ACK_WND_SIZE; lia) _ _ 10 1 100 (create_rep ACK_WND_SIZE ltac:(unfold ACK_WND_SIZE; lia))) as (w & E & R).
  pose proof (ackack_measures_rtt true 1 500 1610 (mkState w 1000 300 true 90 CTsbpdTime.init) _ 90 100 R ltac:(cbn; lia) eq_refl ltac:(unfold CSeqNo.m_iSeqNoTH; lia)) as H.
  destruct (H eq_refl ltac:(cbn; lia)) as (s' & Ep & _ & Es & _ & Ea & _). exists w, s'. split; [exact E|]. split; [exact Ep|]. split; [exact Es|exact Ea].
Defined.
