(* ===== verification/RcvBuffer.v ===== *)
(** * The receiver's buffer (srtcore/buffer_rcv.h, buffer_rcv.cpp: [CRcvBuffer])

    A circular array of entries, one per packet: the packet of sequence number
    [m_iStartSeqNo] has its place at [m_iStartPos], the next ones follow. Packets
    are inserted at their place, read from the start (or, in message mode without
    delivery times, out of order when the sender allows it) and dropped.

    A unit is the packet it holds: taking units from the unit queue and giving them
    back is not modelled. Accesses out of bounds, through a null unit and loops
    that would not end are [None]. The moving averages and logs are left out. The
    correctness proof is in RcvBufferSpec.v. *)

From S2P Require Import Prelude SeqNo Packet Tsbpd SndBuffer.

Module CRcvBuffer.

Inductive EntryStatus := EntryState_Empty | EntryState_Avail | EntryState_Read | EntryState_Drop.

#[export] Instance EntryStatus_eq_dec : EqDecision EntryStatus.
Proof. solve_decision. Defined.

Record Entry := mkEntry { pUnit : option CPacket.t; status : EntryStatus }.

Definition empty_entry : Entry := mkEntry None EntryState_Empty.

Definition is_avail (e : Entry) : bool := match status e with EntryState_Avail => true | _ => false end.
Definition is_filler (e : Entry) : bool := match status e with EntryState_Read | EntryState_Drop => true | _ => false end.
Definition has_unit (e : Entry) : bool := match pUnit e with Some _ => true | None => false end.
Definition set_status (v : EntryStatus) (e : Entry) : Entry := mkEntry (pUnit e) v.

Record t := mk {
  m_entries : list Entry;
  m_iStartSeqNo : Z;
  m_iStartPos : Z;
  m_iFirstNonreadPos : Z;
  m_iMaxPosOff : Z;
  m_iNotch : Z;
  m_numOutOfOrderPackets : Z;
  m_iFirstReadableOutOfOrder : Z;
  m_bPeerRexmitFlag : bool;
  m_bMessageAPI : bool;
  m_tsbpd : CTsbpdTime.t;
  m_iBytesCount : Z;
  m_iPktsCount : Z;
  m_uAvgPayloadSz : Z
}.

Definition create (initSeqNo size : Z) (bMessageAPI : bool) : t :=
  mk (replicate (Z.to_nat size) empty_entry) initSeqNo 0 0 0 0 0 (-1) true bMessageAPI CTsbpdTime.init 0 0 0.

Definition m_szSize (s : t) : Z := Z.of_nat (length (m_entries s)).

Definition set_entries (a : list Entry) (s : t) : t :=
  mk a (m_iStartSeqNo s) (m_iStartPos s) (m_iFirstNonreadPos s) (m_iMaxPosOff s) (m_iNotch s) (m_numOutOfOrderPackets s)
    (m_iFirstReadableOutOfOrder s) (m_bPeerRexmitFlag s) (m_bMessageAPI s) (m_tsbpd s) (m_iBytesCount s) (m_iPktsCount s) (m_uAvgPayloadSz s).
Definition set_start (seqno pos maxoff : Z) (s : t) : t :=
  mk (m_entries s) seqno pos (m_iFirstNonreadPos s) maxoff (m_iNotch s) (m_numOutOfOrderPackets s)
    (m_iFirstReadableOutOfOrder s) (m_bPeerRexmitFlag s) (m_bMessageAPI s) (m_tsbpd s) (m_iBytesCount s) (m_iPktsCount s) (m_uAvgPayloadSz s).
Definition set_maxoff (maxoff : Z) (s : t) : t := set_start (m_iStartSeqNo s) (m_iStartPos s) maxoff s.
Definition set_nonread (pos : Z) (s : t) : t :=
  mk (m_entries s) (m_iStartSeqNo s) (m_iStartPos s) pos (m_iMaxPosOff s) (m_iNotch s) (m_numOutOfOrderPackets s)
    (m_iFirstReadableOutOfOrder s) (m_bPeerRexmitFlag s) (m_bMessageAPI s) (m_tsbpd s) (m_iBytesCount s) (m_iPktsCount s) (m_uAvgPayloadSz s).
Definition set_notch (notch : Z) (s : t) : t :=
  mk (m_entries s) (m_iStartSeqNo s) (m_iStartPos s) (m_iFirstNonreadPos s) (m_iMaxPosOff s) notch (m_numOutOfOrderPackets s)
    (m_iFirstReadableOutOfOrder s) (m_bPeerRexmitFlag s) (m_bMessageAPI s) (m_tsbpd s) (m_iBytesCount s) (m_iPktsCount s) (m_uAvgPayloadSz s).
Definition set_ooo (num first : Z) (s : t) : t :=
  mk (m_entries s) (m_iStartSeqNo s) (m_iStartPos s) (m_iFirstNonreadPos s) (m_iMaxPosOff s) (m_iNotch s) num
    first (m_bPeerRexmitFlag s) (m_bMessageAPI s) (m_tsbpd s) (m_iBytesCount s) (m_iPktsCount s) (m_uAvgPayloadSz s).
Definition set_tsbpd (c : CTsbpdTime.t) (s : t) : t :=
  mk (m_entries s) (m_iStartSeqNo s) (m_iStartPos s) (m_iFirstNonreadPos s) (m_iMaxPosOff s) (m_iNotch s) (m_numOutOfOrderPackets s)
    (m_iFirstReadableOutOfOrder s) (m_bPeerRexmitFlag s) (m_bMessageAPI s) c (m_iBytesCount s) (m_iPktsCount s) (m_uAvgPayloadSz s).
Definition set_counts (bytes pkts avg : Z) (s : t) : t :=
  mk (m_entries s) (m_iStartSeqNo s) (m_iStartPos s) (m_iFirstNonreadPos s) (m_iMaxPosOff s) (m_iNotch s) (m_numOutOfOrderPackets s)
    (m_iFirstReadableOutOfOrder s) (m_bPeerRexmitFlag s) (m_bMessageAPI s) (m_tsbpd s) bytes pkts avg.

(** ** Positions *)

Definition capacity (s : t) : Z := m_szSize s - 1.
Definition empty (s : t) : bool := m_iMaxPosOff s =? 0.
Definition full (s : t) : bool := m_iMaxPosOff s =? capacity s.

Definition incPos (s : t) (pos inc : Z) : Z := (pos + inc) mod m_szSize s.
Definition decPos (s : t) (pos : Z) : Z := if pos - 1 >=? 0 then pos - 1 else m_szSize s - 1.
Definition offPos (s : t) (pos1 pos2 : Z) : Z := if pos2 >=? pos1 then pos2 - pos1 else m_szSize s + pos2 - pos1.

Definition isInRange (iStartPos iMaxPosOff iSize iFirstNonreadPos : Z) : bool :=
  if iFirstNonreadPos =? iStartPos then true
  else
    let iLastPos := (iStartPos + iMaxPosOff) mod iSize in
    if iLastPos <? iStartPos then (iFirstNonreadPos >? iStartPos) || (iFirstNonreadPos <=? iLastPos)
    else (iFirstNonreadPos >? iStartPos) && (iFirstNonreadPos <=? iLastPos).

Definition nonread_in_range (s : t) : bool := isInRange (m_iStartPos s) (m_iMaxPosOff s) (m_szSize s) (m_iFirstNonreadPos s).

Definition entryAt (s : t) (pos : Z) : option Entry := aget (m_entries s) pos.
Definition packetAt (s : t) (pos : Z) : option CPacket.t := e ← entryAt s pos; pUnit e.

Definition has_first (p : CPacket.t) : bool := match CPacket.getMsgBoundary p with PB_FIRST | PB_SOLO => true | _ => false end.
Definition has_last (p : CPacket.t) : bool := match CPacket.getMsgBoundary p with PB_LAST | PB_SOLO => true | _ => false end.
Definition is_first (p : CPacket.t) : bool := match CPacket.getMsgBoundary p with PB_FIRST => true | _ => false end.
Definition is_solo (p : CPacket.t) : bool := match CPacket.getMsgBoundary p with PB_SOLO => true | _ => false end.

Definition tsbpd_on (s : t) : bool := CTsbpdTime.isEnabled (m_tsbpd s).
Definition getPktTsbPdTime (usPktTimestamp : Z) (s : t) : Z := CTsbpdTime.getPktTime usPktTimestamp (m_tsbpd s).
Definition updateTsbPdTimeBase (usPktTimestamp : Z) (s : t) : t := set_tsbpd (CTsbpdTime.updateBaseTime usPktTimestamp (m_tsbpd s)) s.

Definition setTsbPdMode (timebase : Z) (wrap : bool) (delay : Z) (s : t) : t := set_tsbpd (CTsbpdTime.setTsbPdMode timebase wrap delay (m_tsbpd s)) s.
Definition applyGroupTime (timebase : Z) (wrp : bool) (delay udrift : Z) (s : t) : t :=
  set_tsbpd (CTsbpdTime.applyGroupTime timebase wrp delay udrift (m_tsbpd s)) s.
Definition applyGroupDrift (timebase : Z) (wrp : bool) (udrift : Z) (s : t) : t :=
  set_tsbpd (CTsbpdTime.applyGroupDrift timebase wrp udrift (m_tsbpd s)) s.
Definition addRcvTsbPdDriftSample (usTimestamp tsPktArrival usRTTSample : Z) (s : t) : bool * t :=
  let r := CTsbpdTime.addDriftSample usTimestamp tsPktArrival usRTTSample (m_tsbpd s) in (fst r, set_tsbpd (snd r) s).

(** ** Helpers of the operations *)

(** The average is kept in an [unsigned]. *)
Definition countBytes (pkts bytes : Z) (s : t) : t :=
  set_counts (i32 (m_iBytesCount s + bytes)) (i32 (m_iPktsCount s + pkts))
    (if bytes >? 0
     then if m_uAvgPayloadSz s =? 0 then bytes else u32 ((m_uAvgPayloadSz s * 99 + bytes) mod 2 ^ 64 / 100)
     else m_uAvgPayloadSz s) s.

Definition releaseUnitInPos (pos : Z) (s : t) : option t :=
  a ← aset (m_entries s) pos empty_entry; Some (set_entries a s).

Definition dropUnitInPos (pos : Z) (s : t) : option (bool * t) :=
  e ← entryAt s pos;
  match pUnit e with
  | None => Some (false, s)
  | Some p =>
    let s :=
      if tsbpd_on s then updateTsbPdTimeBase (CPacket.getMsgTimeStamp p) s
      else if m_bMessageAPI s && negb (CPacket.getMsgOrderFlag p) then
        set_ooo ((m_numOutOfOrderPackets s - 1) mod 2 ^ 64)
          (if pos =? m_iFirstReadableOutOfOrder s then -1 else m_iFirstReadableOutOfOrder s) s
      else s in
    s ← releaseUnitInPos pos s; Some (true, s)
  end.

(** The status of the entry at [pos] is set. *)
Definition mark (v : EntryStatus) (pos : Z) (s : t) : option t :=
  a ← aupd (m_entries s) pos (set_status v); Some (set_entries a s).

(** Every round empties an entry: [m_szSize] rounds and a last look are enough. *)
Fixpoint releaseNextFillerEntries (fuel : nat) (s : t) : option t :=
  match fuel with
  | O => None
  | S f =>
    e ← entryAt s (m_iStartPos s);
    if is_filler e then
      s ← releaseUnitInPos (m_iStartPos s) s;
      releaseNextFillerEntries f
        (set_start (CSeqNo.incseq (m_iStartSeqNo s)) (incPos s (m_iStartPos s) 1) (Z.max 0 (i32 (m_iMaxPosOff s - 1))) s)
    else Some s
  end.

(** The inner loop of [updateNonreadPos] from [i] on: the position after a whole
    message, if there is one. *)
Fixpoint message_end (fuel : nat) (s : t) (pos end_pos i : Z) : option (option Z) :=
  if i =? end_pos then Some None
  else
    match fuel with
    | O => None
    | S f =>
      e ← entryAt s i;
      ep ← entryAt s pos;
      match pUnit e with
      | None => Some None
      | Some p =>
        if negb (is_avail ep) then Some None
        else if negb (m_bMessageAPI s) || has_last p then Some (Some (incPos s i 1))
        else message_end f s pos end_pos (incPos s i 1)
      end
    end.

(** The outer loop: the new [m_iFirstNonreadPos]. *)
Fixpoint nonread_loop (fuel : nat) (s : t) (end_pos pos nonread : Z) : option Z :=
  match fuel with
  | O => None
  | S f =>
    e ← entryAt s pos;
    match pUnit e with
    | None => Some nonread
    | Some p =>
      if negb (is_avail e) then Some nonread
      else if m_bMessageAPI s && negb (has_first p) then Some nonread
      else
        r ← message_end (length (m_entries s)) s pos end_pos pos;
        let nonread := default nonread r in
        if pos =? nonread then Some nonread
        else
          en ← entryAt s nonread;
          if negb (has_unit en) then Some nonread else nonread_loop f s end_pos nonread nonread
    end
  end.

Definition updateNonreadPos (s : t) : option t :=
  if m_iMaxPosOff s =? 0 then Some s
  else
    pos ← nonread_loop (S (length (m_entries s))) s (incPos s (m_iStartPos s) (m_iMaxPosOff s)) (m_iFirstNonreadPos s) (m_iFirstNonreadPos s);
    Some (set_nonread pos s).

(** ** Reading out of order *)

Definition hasReadableInorderPkts (s : t) : bool := negb (m_iFirstNonreadPos s =? m_iStartPos s).

Definition lastPos (s : t) : Z := (m_iStartPos s + m_iMaxPosOff s - 1) mod m_szSize s.

(** The [do] loops: [pos] was the last position looked at. *)
Fixpoint scan_right (fuel : nat) (s : t) (last msgNo pos : Z) : option Z :=
  match fuel with
  | O => None
  | S f =>
    let pos := incPos s pos 1 in
    e ← entryAt s pos;
    match pUnit e with
    | None => Some (-1)
    | Some p =>
      if negb (CPacket.getMsgSeq (m_bPeerRexmitFlag s) p =? msgNo) then Some (-1)
      else if has_last p then Some pos
      else if pos =? last then Some (-1)
      else scan_right f s last msgNo pos
    end
  end.

Definition scanNotInOrderMessageRight (startPos msgNo : Z) (s : t) : option Z :=
  if startPos =? lastPos s then Some (-1) else scan_right (length (m_entries s)) s (lastPos s) msgNo startPos.

Fixpoint scan_left (fuel : nat) (s : t) (msgNo pos : Z) : option Z :=
  match fuel with
  | O => None
  | S f =>
    let pos := decPos s pos in
    e ← entryAt s pos;
    match pUnit e with
    | None => Some (-1)
    | Some p =>
      if negb (CPacket.getMsgSeq (m_bPeerRexmitFlag s) p =? msgNo) then Some (-1)
      else if has_first p then Some pos
      else if pos =? m_iStartPos s then Some (-1)
      else scan_left f s msgNo pos
    end
  end.

Definition scanNotInOrderMessageLeft (startPos msgNo : Z) (s : t) : option Z :=
  if startPos =? m_iStartPos s then Some (-1) else scan_left (length (m_entries s)) s msgNo startPos.

Definition onInsertNotInOrderPacket (insertPos : Z) (s : t) : option t :=
  if m_numOutOfOrderPackets s =? 0 then Some s
  else if m_iFirstReadableOutOfOrder s >=? 0 then Some s
  else
    pkt ← packetAt s insertPos;
    let msgNo := CPacket.getMsgSeq (m_bPeerRexmitFlag s) pkt in
    hasLast ← (if has_last pkt then Some true else r ← scanNotInOrderMessageRight insertPos msgNo s; Some (-1 <? r));
    if negb hasLast then Some s
    else
      firstPktPos ← (if has_first pkt then Some insertPos else scanNotInOrderMessageLeft insertPos msgNo s);
      if firstPktPos <? 0 then Some s else Some (set_ooo (m_numOutOfOrderPackets s) firstPktPos s).

Fixpoint check_ooo (fuel : nat) (s : t) (endPos pos msgno : Z) : option bool :=
  if pos =? endPos then Some false
  else
    match fuel with
    | O => None
    | S f =>
      e ← entryAt s pos;
      match pUnit e with
      | None => Some false
      | Some p =>
        if CPacket.getMsgOrderFlag p then Some false
        else
          let no := CPacket.getMsgSeq (m_bPeerRexmitFlag s) p in
          if negb (msgno =? -1) && negb (msgno =? no) then Some false
          else if has_last p then Some true
          else check_ooo f s endPos (incPos s pos 1) (if msgno =? -1 then no else msgno)
      end
    end.

Definition checkFirstReadableOutOfOrder (s : t) : option bool :=
  if (m_numOutOfOrderPackets s <=? 0) || (m_iFirstReadableOutOfOrder s <? 0) || (m_iMaxPosOff s =? 0) then Some false
  else check_ooo (length (m_entries s)) s (incPos s (m_iStartPos s) (m_iMaxPosOff s)) (m_iFirstReadableOutOfOrder s) (-1).

(** [remain] packets allowed out of order are still to be met; the result is the
    position of a whole message, -1 if there is none. The loop leaves the buffer's
    range only if the count is too high. *)
Fixpoint find_ooo (fuel : nat) (s : t) (pos remain posFirst msgNo : Z) : option Z :=
  if remain =? 0 then Some (-1)
  else
    match fuel with
    | O => None
    | S f =>
      e ← entryAt s pos;
      let next := incPos s pos 1 in
      match pUnit e with
      | None => find_ooo f s next remain (-1) (-1)
      | Some p =>
        if CPacket.getMsgOrderFlag p then find_ooo f s next remain (-1) (-1)
        else
          let remain := remain - 1 in
          let no := CPacket.getMsgSeq (m_bPeerRexmitFlag s) p in
          let posFirst := if has_first p then pos else posFirst in
          let msgNo := if has_first p then no else msgNo in
          if negb (no =? msgNo) then find_ooo f s next remain (-1) (-1)
          else if has_last p then Some posFirst
          else if pos =? lastPos s then Some (-1)
          else find_ooo f s next remain posFirst msgNo
      end
    end.

Definition updateFirstReadableOutOfOrder (s : t) : option t :=
  if hasReadableInorderPkts s || (m_numOutOfOrderPackets s <=? 0) || (m_iFirstReadableOutOfOrder s >=? 0) then Some s
  else if m_iMaxPosOff s =? 0 then Some s
  else
    r ← find_ooo (length (m_entries s)) s (m_iStartPos s) (i32 (m_numOutOfOrderPackets s)) (-1) (-1);
    Some (if r =? -1 then s else set_ooo (m_numOutOfOrderPackets s) r s).

(** ** Insertion *)

Definition insert (unit : CPacket.t) (s : t) : option (Z * t) :=
  let offset := CSeqNo.seqoff (m_iStartSeqNo s) (CPacket.getSeqNo unit) in
  if offset <? 0 then Some (-2, s)
  else if offset >=? capacity s then Some (-3, s)
  else
    let pos := (m_iStartPos s + offset) mod m_szSize s in
    let s := if offset >=? m_iMaxPosOff s then set_maxoff (offset + 1) s else s in
    e ← entryAt s pos;
    if negb (bool_decide (status e = EntryState_Empty)) then Some (-1, s)
    else
      a ← aset (m_entries s) pos (mkEntry (Some unit) EntryState_Avail);
      let s := countBytes 1 (i32 (CPacket.getLength unit)) (set_entries a s) in
      s ← (if negb (tsbpd_on s) && m_bMessageAPI s && negb (CPacket.getMsgOrderFlag unit)
           then onInsertNotInOrderPacket pos (set_ooo ((m_numOutOfOrderPackets s + 1) mod 2 ^ 64) (m_iFirstReadableOutOfOrder s) s)
           else Some s);
      s ← updateNonreadPos s;
      Some (0, s).

(** ** Dropping *)

(** [len] entries from the start on; dropped (missing) and discarded (available). *)
Fixpoint drop_entries (len : nat) (dropped discarded : Z) (s : t) : option (Z * Z * t) :=
  match len with
  | O => Some (dropped, discarded, s)
  | S n =>
    e ← entryAt s (m_iStartPos s);
    let discarded := if is_avail e then discarded + 1 else discarded in
    let dropped := if bool_decide (status e = EntryState_Empty) then dropped + 1 else dropped in
    r ← dropUnitInPos (m_iStartPos s) s;
    s ← mark EntryState_Empty (m_iStartPos s) (snd r);
    drop_entries n dropped discarded (set_start (m_iStartSeqNo s) (incPos s (m_iStartPos s) 1) (m_iMaxPosOff s) s)
  end.

Definition dropUpTo (seqno : Z) (s : t) : option (Z * Z * t) :=
  let len := CSeqNo.seqoff (m_iStartSeqNo s) seqno in
  if len <=? 0 then Some (0, 0, s)
  else
    let s := set_maxoff (Z.max 0 (i32 (m_iMaxPosOff s - len))) s in
    r ← drop_entries (Z.to_nat len) 0 0 s;
    let '(dropped, discarded, s) := r in
    s ← releaseNextFillerEntries (S (length (m_entries s))) (set_start seqno (m_iStartPos s) (m_iMaxPosOff s) s);
    s ← (if nonread_in_range s then Some s else updateNonreadPos (set_nonread (m_iStartPos s) s));
    s ← (if negb (tsbpd_on s) && m_bMessageAPI s then updateFirstReadableOutOfOrder s else Some s);
    Some (dropped, discarded, s).

Definition dropAll (s : t) : option (Z * t) :=
  if empty s then Some (0, s)
  else
    r ← dropUpTo (CSeqNo.incseq_by (m_iStartSeqNo s) (m_iMaxPosOff s)) s;
    let '(dropped, discarded, s) := r in Some (i32 (dropped + discarded), s).

Definition getRcvDataSize (s : t) : Z :=
  if m_iFirstNonreadPos s >=? m_iStartPos s then m_iFirstNonreadPos s - m_iStartPos s
  else m_szSize s + m_iFirstNonreadPos s - m_iStartPos s.

(** The loops of [dropMessage]; the accumulator is the search by message number
    still wanted, the number of entries dropped and the smallest offset dropped. *)
Fixpoint drop_range (fuel : nat) (keep : bool) (end_pos i : Z) (bymsg : bool) (cnt minoff : Z) (s : t) : option (bool * Z * Z * t) :=
  if i =? end_pos then Some (bymsg, cnt, minoff, s)
  else
    match fuel with
    | O => None
    | S f =>
      e ← entryAt s i;
      let next := incPos s i 1 in
      if bool_decide (status e = EntryState_Drop) then drop_range f keep end_pos next bymsg cnt minoff s
      else if keep && match pUnit e with Some p => is_solo p | None => false end then drop_range f keep end_pos next false cnt minoff s
      else
        let bymsg := bymsg && negb (match pUnit e with Some p => is_first p | None => false end) in
        r ← dropUnitInPos i s;
        s ← mark EntryState_Drop i (snd r);
        drop_range f keep end_pos next bymsg (cnt + 1) (if minoff =? -1 then offPos s (m_iStartPos s) i else minoff) s
    end.

Fixpoint drop_message_left (fuel : nat) (keep : bool) (stop_pos msgno i : Z) (cnt minoff : Z) (s : t) : option (Z * Z * t) :=
  if i =? stop_pos then Some (cnt, minoff, s)
  else
    match fuel with
    | O => None
    | S f =>
      e ← entryAt s i;
      match pUnit e with
      | None => drop_message_left f keep stop_pos msgno (decPos s i) cnt minoff s
      | Some p =>
        if negb (CPacket.getMsgSeq (m_bPeerRexmitFlag s) p =? msgno) then Some (cnt, minoff, s)
        else if keep && is_solo p then Some (cnt, minoff, s)
        else
          r ← dropUnitInPos i s;
          s ← mark EntryState_Drop i (snd r);
          let minoff := offPos s (m_iStartPos s) i in
          if is_first p then Some (cnt + 1, minoff, s)
          else drop_message_left f keep stop_pos msgno (decPos s i) (cnt + 1) minoff s
      end
    end.

Definition dropMessage (seqnolo seqnohi msgno : Z) (bKeepExisting : bool) (s : t) : option (Z * t) :=
  let offset_a := CSeqNo.seqoff (m_iStartSeqNo s) seqnolo in
  let offset_b := CSeqNo.seqoff (m_iStartSeqNo s) seqnohi in
  if (offset_b <? 0) || (offset_a >=? m_szSize s) then Some (0, s)
  else
    let start_pos := incPos s (m_iStartPos s) (Z.max 0 offset_a) in
    let end_pos := incPos s (m_iStartPos s) (Z.min (m_szSize s - 1) (offset_b + 1)) in
    r ← drop_range (length (m_entries s)) bKeepExisting end_pos start_pos (msgno >? SRT_MSGNO_CONTROL) 0 (-1) s;
    let '(bymsg, cnt, minoff, s) := r in
    r ← (if bymsg : bool then drop_message_left (length (m_entries s)) bKeepExisting (decPos s (m_iStartPos s)) msgno start_pos cnt minoff s
         else Some (cnt, minoff, s));
    let '(cnt, minoff, s) := r in
    let needUpdateNonreadPos := negb (minoff =? -1) && (minoff <=? getRcvDataSize s) in
    s ← releaseNextFillerEntries (S (length (m_entries s))) s;
    s ← (if needUpdateNonreadPos then updateNonreadPos (set_nonread (m_iStartPos s) s) else Some s);
    s ← (if negb (tsbpd_on s) && m_bMessageAPI s then
           ok ← checkFirstReadableOutOfOrder s;
           updateFirstReadableOutOfOrder (if ok : bool then s else set_ooo (m_numOutOfOrderPackets s) (-1) s)
         else Some s);
    Some (cnt, s).

(** ** Reading *)

(** What [readMessage] writes: the bytes copied, and the fields of [SRT_MSGCTRL]. *)
Record message := mkMessage { msg_data : list Z; msg_msgno : option Z; msg_srctime : option Z; msg_pktseq : option Z }.

(** The loop: packets and bytes read so far, the message, [remain] bytes of room. *)
Fixpoint read_packets (fuel : nat) (updateStartPos : bool) (readPos i remain pkts bytes : Z) (m : message) (s : t)
    : option (Z * Z * message * t) :=
  match fuel with
  | O => None
  | S f =>
    e ← entryAt s i;
    match pUnit e with
    | None => Some (pkts, bytes, m, s)
    | Some p =>
      let unitsize := Z.min remain (CPacket.getLength p) in
      let s := if tsbpd_on s then updateTsbPdTimeBase (CPacket.getMsgTimeStamp p) s else s in
      let s := if negb (m_numOutOfOrderPackets s =? 0) && negb (CPacket.getMsgOrderFlag p)
               then set_ooo (m_numOutOfOrderPackets s - 1) (m_iFirstReadableOutOfOrder s) s else s in
      let m := mkMessage (msg_data m ++ take (Z.to_nat unitsize) (CPacket.m_pcData p))
                 (if has_first p then Some (CPacket.getMsgSeq (m_bPeerRexmitFlag s) p) else msg_msgno m)
                 (if has_last p then Some (getPktTsbPdTime (CPacket.getMsgTimeStamp p) s) else msg_srctime m)
                 (Some (CPacket.getSeqNo p)) in
      s ← releaseUnitInPos i s;
      s ← (if updateStartPos
           then Some (set_start (CSeqNo.incseq (CPacket.getSeqNo p)) (incPos s i 1) (i32 (m_iMaxPosOff s - 1)) s)
           else mark EntryState_Read i s);
      let pkts := pkts + 1 in
      let bytes := i32 (bytes + CPacket.getLength p) in
      if has_last p then
        Some (pkts, bytes, m, if readPos =? m_iFirstReadableOutOfOrder s then set_ooo (m_numOutOfOrderPackets s) (-1) s else s)
      else read_packets f updateStartPos readPos (incPos s i 1) (remain - unitsize) pkts bytes m s
    end
  end.

Definition readMessage (len : Z) (s : t) : option (Z * message * t) :=
  let no_message := mkMessage [] None None None in
  let canReadInOrder := hasReadableInorderPkts s in
  if negb canReadInOrder && (m_iFirstReadableOutOfOrder s <? 0) then Some (0, no_message, s)
  else
    let readPos := if canReadInOrder then m_iStartPos s else m_iFirstReadableOutOfOrder s in
    r ← read_packets (S (length (m_entries s))) (readPos =? m_iStartPos s) readPos readPos len 0 0 no_message s;
    let '(pkts, bytes, m, s) := r in
    s ← releaseNextFillerEntries (S (length (m_entries s))) (countBytes (- pkts) (- bytes) s);
    let s := if nonread_in_range s then s else set_nonread (m_iStartPos s) s in
    s ← (if tsbpd_on s then Some s else updateFirstReadableOutOfOrder s);
    Some (Z.of_nat (length (msg_data m)), m, s).

(** The loop of [readBufferTo]; [ok k] says whether the k-th copy succeeds (always
    for a memory buffer, as the stream does for a file). The results: -1 as [true]
    in the first place, the room left, the bytes copied. *)
Fixpoint read_bytes (fuel : nat) (ok : nat -> bool) (now end_pos p rs : Z) (out : list Z) (s : t) : option (bool * Z * list Z * t) :=
  if (p =? end_pos) || (rs <=? 0) then Some (false, rs, out, s)
  else
    match fuel with
    | O => None
    | S f =>
      e ← entryAt s p;
      match pUnit e with
      | None => Some (true, rs, out, s)
      | Some pkt =>
        if tsbpd_on s && (getPktTsbPdTime (CPacket.getMsgTimeStamp pkt) s >? now) then Some (false, rs, out, s)
        else
          let remain_pktlen := i32 (CPacket.getLength pkt - m_iNotch s) in
          let unitsize := Z.min remain_pktlen rs in
          if negb (ok 0%nat) then Some (false, rs, out, s)
          else
            let out := out ++ take (Z.to_nat unitsize) (drop (Z.to_nat (m_iNotch s)) (CPacket.m_pcData pkt)) in
            if rs >=? remain_pktlen then
              s ← releaseUnitInPos p s;
              let p := incPos s p 1 in
              read_bytes f (fun k => ok (S k)) now end_pos p (rs - unitsize) out
                (set_notch 0 (set_start (CSeqNo.incseq (m_iStartSeqNo s)) p (i32 (m_iMaxPosOff s - 1)) s))
            else read_bytes f (fun k => ok (S k)) now end_pos p (rs - unitsize) out (set_notch (m_iNotch s + rs) s)
      end
    end.

(** The number returned, and the bytes copied. *)
Definition readBufferTo (ok : nat -> bool) (now len : Z) (s : t) : option (Z * list Z * t) :=
  r ← read_bytes (S (length (m_entries s))) ok now (m_iFirstNonreadPos s) (m_iStartPos s) len [] s;
  let '(failed, rs, out, s) := r in
  if failed : bool then Some (-1, out, s)
  else
    let iBytesRead := i32 (len - rs) in
    let s := countBytes (-1) (- iBytesRead) s in
    let s := if nonread_in_range s then s else set_nonread (m_iStartPos s) s in
    Some (iBytesRead, out, s).

Definition readBuffer (now len : Z) (s : t) : option (Z * list Z * t) := readBufferTo (fun _ => true) now len s.

(** ** Queries *)

Definition getAvailSize (iFirstUnackSeqNo : Z) (s : t) : Z :=
  if CSeqNo.seqcmp (m_iStartSeqNo s) iFirstUnackSeqNo >=? 0 then capacity s
  else (capacity s - CSeqNo.seqlen (m_iStartSeqNo s) iFirstUnackSeqNo + 1) mod 2 ^ 64.

Definition hasAvailablePackets (s : t) : bool :=
  hasReadableInorderPkts s || ((m_numOutOfOrderPackets s >? 0) && negb (m_iFirstReadableOutOfOrder s =? -1)).

Definition countReadable (s : t) : Z := getRcvDataSize s.
Definition getAvailablePacketsRange (s : t) : Z * Z := (m_iStartSeqNo s, CSeqNo.incseq_by (m_iStartSeqNo s) (countReadable s)).
Definition getFirstNonreadSeqNo (s : t) : Z := CSeqNo.incseq_by (m_iStartSeqNo s) (offPos s (m_iStartPos s) (m_iFirstNonreadPos s)).

Record PacketInfo := mkInfo { info_seqno : Z; seq_gap : bool; tsbpd_time : Z }.

Fixpoint first_valid (fuel : nat) (s : t) (end_pos i : Z) : option PacketInfo :=
  if i =? end_pos then Some (mkInfo (-1) false 0)
  else
    match fuel with
    | O => None
    | S f =>
      e ← entryAt s i;
      match pUnit e with
      | None => first_valid f s end_pos (incPos s i 1)
      | Some p => Some (mkInfo (CPacket.getSeqNo p) (negb (i =? m_iStartPos s)) (getPktTsbPdTime (CPacket.getMsgTimeStamp p) s))
      end
    end.

Definition getFirstValidPacketInfo (s : t) : option PacketInfo :=
  first_valid (length (m_entries s)) s (incPos s (m_iStartPos s) (m_iMaxPosOff s)) (m_iStartPos s).

Definition isRcvDataReady (time_now : Z) (s : t) : option bool :=
  if negb (tsbpd_on s) then
    Some (hasReadableInorderPkts s || ((m_numOutOfOrderPackets s >? 0) && negb (m_iFirstReadableOutOfOrder s =? -1)))
  else if negb (hasReadableInorderPkts s) then Some false
  else info ← getFirstValidPacketInfo s; Some (tsbpd_time info <=? time_now).

Definition getFirstReadablePacketInfo (time_now : Z) (s : t) : option PacketInfo :=
  let unreadableInfo := mkInfo SRT_SEQNO_NONE false 0 in
  if negb (tsbpd_on s) then
    if hasReadableInorderPkts s then p ← packetAt s (m_iStartPos s); Some (mkInfo (CPacket.getSeqNo p) false 0)
    else if m_iFirstReadableOutOfOrder s >=? 0 then
      p ← packetAt s (m_iFirstReadableOutOfOrder s); Some (mkInfo (CPacket.getSeqNo p) true 0)
    else Some unreadableInfo
  else if negb (hasReadableInorderPkts s) then Some unreadableInfo
  else info ← getFirstValidPacketInfo s; Some (if tsbpd_time info <=? time_now then info else unreadableInfo).

(** The loops that look for the last and for the first packet. *)
Fixpoint seek_unit (fuel : nat) (s : t) (step : Z -> Z) (stop pos : Z) : option Z :=
  e ← entryAt s pos;
  if has_unit e || (pos =? stop) then Some pos
  else match fuel with O => None | S f => seek_unit f s step stop (step pos) end.

Definition getTimespan_ms (s : t) : option Z :=
  if negb (tsbpd_on s) || (m_iMaxPosOff s =? 0) then Some 0
  else
    lastpos ← seek_unit (length (m_entries s)) s (decPos s) (m_iStartPos s) (incPos s (m_iStartPos s) (m_iMaxPosOff s - 1));
    el ← entryAt s lastpos;
    match pUnit el with
    | None => Some 0
    | Some pl =>
      startpos ← seek_unit (length (m_entries s)) s (fun p => incPos s p 1) lastpos (m_iStartPos s);
      es ← entryAt s startpos;
      match pUnit es with
      | None => Some 0
      | Some ps =>
        let startstamp := getPktTsbPdTime (CPacket.getMsgTimeStamp ps) s in
        let endstamp := getPktTsbPdTime (CPacket.getMsgTimeStamp pl) s in
        if endstamp <? startstamp then Some 0
        else Some (i32 (CSndBuffer.count_milliseconds (endstamp - startstamp) + 1))
      end
    end.

End CRcvBuffer.
