(* ===== verification/RcvBufferSpec.v ===== *)
(** * Correctness of the receiver's buffer

    The abstract buffer is a line of cells, one per packet index, without an end;
    [ab_first] is the next packet to read, [ab_ready] the first one not ready and
    [ab_max] the one after the furthest packet received. The circular array shows
    the [m_szSize] cells from [ab_first] on; every other cell is empty. Each
    operation of [CRcvBuffer] stays inside the array and does what the operation of
    the same name does on the line of cells.

    This is the buffer of in-order delivery: with delivery times or in stream mode,
    where no packet is read out of order. *)

From S2P Require Import Prelude SeqNo Packet Tsbpd SndBuffer RcvBuffer.
Import CRcvBuffer.

(** ** The abstract buffer *)

Record abuf := mkAbuf {
  ab_first : Z; ab_cell : Z -> Entry; ab_max : Z; ab_ready : Z;
  ab_clock : CTsbpdTime.t; ab_notch : Z; ab_api : bool; ab_rexmit : bool
}.

Definition with_cells (first : Z) (c : Z -> Entry) (max : Z) (b : abuf) : abuf :=
  mkAbuf first c max (ab_ready b) (ab_clock b) (ab_notch b) (ab_api b) (ab_rexmit b).
Definition with_ready (r : Z) (b : abuf) : abuf :=
  mkAbuf (ab_first b) (ab_cell b) (ab_max b) r (ab_clock b) (ab_notch b) (ab_api b) (ab_rexmit b).
Definition with_clock (k : CTsbpdTime.t) (b : abuf) : abuf :=
  mkAbuf (ab_first b) (ab_cell b) (ab_max b) (ab_ready b) k (ab_notch b) (ab_api b) (ab_rexmit b).
Definition with_notch (n : Z) (b : abuf) : abuf :=
  mkAbuf (ab_first b) (ab_cell b) (ab_max b) (ab_ready b) (ab_clock b) n (ab_api b) (ab_rexmit b).

Definition set_cell (i : Z) (e : Entry) (c : Z -> Entry) : Z -> Entry := fun j => if j =? i then e else c j.
Definition clear_below (k : Z) (c : Z -> Entry) : Z -> Entry := fun j => if j <? k then empty_entry else c j.

Definition avail (p : CPacket.t) : Entry := mkEntry (Some p) EntryState_Avail.

(** ** Cells of a circular array *)

Section Ring.

Context (N : Z) (HN : 1 < N < 2 ^ 30).

(** The cells from [x] on, laid out in the array from position [st] on. *)
Definition ring (a : list Entry) (st x : Z) (c : Z -> Entry) : Prop :=
  Z.of_nat (length a) = N /\ forall off, 0 <= off < N -> aget a ((st + off) mod N) = Some (c (x + off)).

Lemma pos_bound p : 0 <= p mod N < N.
Proof using HN. apply Z.mod_pos_bound. lia. Qed.

Lemma ring_pos_inj t i j : 0 <= i < N -> 0 <= j < N -> (t + i) mod N = (t + j) mod N -> i = j.
Proof using HN.
  intros Hi Hj E. assert ((t + i - (t + j)) mod N = 0) as Hm.
  { rewrite Zminus_mod, E, Z.sub_diag. apply Zmod_0_l. }
  apply Z.mod_divide in Hm as [k Hk]; [|lia]. assert (k = 0) by nia. lia.
Qed.

Lemma ring_get a st x c i : ring a st x c -> x <= i < x + N -> aget a ((st + (i - x)) mod N) = Some (c i).
Proof using Type. intros [_ Hr] Hi. rewrite Hr by lia. do 2 f_equal. lia. Qed.

Lemma ring_set a st x c i e :
  ring a st x c -> x <= i < x + N ->
  exists a', aset a ((st + (i - x)) mod N) e = Some a' /\ ring a' st x (set_cell i e c).
Proof using HN.
  intros [Hl Hr] Hi. pose proof (pos_bound (st + (i - x))) as Hb. eexists. split; [apply aset_Some; unfold in_bounds; lia|].
  split; [by rewrite length_insert|]. intros off Ho. unfold set_cell. destruct (Z.eqb_spec (x + off) i) as [E|E].
  - replace (i - x) with off by lia. apply aget_insert_eq. unfold in_bounds. pose proof (pos_bound (st + off)). lia.
  - rewrite aget_insert_ne; [by apply Hr|lia|]. intros E2%ring_pos_inj; lia.
Qed.

Lemma ring_upd a st x c i f :
  ring a st x c -> x <= i < x + N ->
  exists a', aupd a ((st + (i - x)) mod N) f = Some a' /\ ring a' st x (set_cell i (f (c i)) c).
Proof using HN. intros R Hi. unfold aupd. rewrite (ring_get _ _ _ _ _ R Hi). cbn. by apply ring_set. Qed.

(** The window moves by one: the cell left behind becomes the last one. *)
Lemma ring_shift a st x c : ring a st x c -> c x = empty_entry -> c (x + N) = empty_entry -> ring a ((st + 1) mod N) (x + 1) c.
Proof using HN.
  intros [Hl Hr] H0 HN'. split; [done|]. intros off Ho. rewrite Zplus_mod_idemp_l. destruct (Z.eq_dec off (N - 1)) as [->|].
  - replace (st + 1 + (N - 1)) with (st + 0 + 1 * N) by lia. rewrite Z.mod_add, Hr by lia. rewrite Z.add_0_r, H0.
    replace (x + 1 + (N - 1)) with (x + N) by lia. by rewrite HN'.
  - replace (st + 1 + off) with (st + (1 + off)) by lia. rewrite Hr by lia. do 2 f_equal. lia.
Qed.

Lemma ring_ext a st x c c' : (forall i, x <= i < x + N -> c' i = c i) -> ring a st x c -> ring a st x c'.
Proof using Type. intros E [Hl Hr]. split; [done|]. intros off Ho. rewrite Hr by done. by rewrite E by lia. Qed.

End Ring.

(** ** The representation *)

(** The entries, and what is constant: [mkCore] says nothing of the sequence
    number at the start, of the furthest packet and of those ready. *)
Record rcore (s : t) (b : abuf) : Prop := mkCore {
  rc_size : 1 < m_szSize s < 2 ^ 29;
  rc_ring : ring (m_szSize s) (m_entries s) (m_iStartPos s) (ab_first b) (ab_cell b);
  rc_pos : 0 <= m_iStartPos s < m_szSize s;
  rc_out : forall i, i < ab_first b \/ ab_first b + m_szSize s <= i -> ab_cell b i = empty_entry;
  rc_unit : forall i p, pUnit (ab_cell b i) = Some p -> status (ab_cell b i) = EntryState_Avail /\ CPacket.getSeqNo p = seq_of i;
  rc_none : forall i, pUnit (ab_cell b i) = None -> status (ab_cell b i) <> EntryState_Avail;
  rc_clock : m_tsbpd s = ab_clock b;
  rc_mode : tsbpd_on s = true \/ m_bMessageAPI s = false;
  rc_ooo : m_numOutOfOrderPackets s = 0 /\ m_iFirstReadableOutOfOrder s = -1;
  rc_const : m_bMessageAPI s = ab_api b /\ m_bPeerRexmitFlag s = ab_rexmit b /\ m_iNotch s = ab_notch b
}.

Record rspan (s : t) (b : abuf) : Prop := mkSpan {
  rs_seq : m_iStartSeqNo s = seq_of (ab_first b);
  rs_maxoff : m_iMaxPosOff s = ab_max b - ab_first b;
  rs_max : ab_first b <= ab_max b < ab_first b + m_szSize s;
  rs_unit : forall i, has_unit (ab_cell b i) = true -> i < ab_max b
}.

Record rready (s : t) (b : abuf) : Prop := mkReady {
  rd_nonread : m_iFirstNonreadPos s = (m_iStartPos s + (ab_ready b - ab_first b)) mod m_szSize s;
  rd_ready : ab_first b <= ab_ready b <= ab_max b;
  rd_unit : forall i, ab_first b <= i < ab_ready b -> has_unit (ab_cell b i) = true;
  rd_last : ab_api b = true -> ab_first b < ab_ready b -> exists p, pUnit (ab_cell b (ab_ready b - 1)) = Some p /\ has_last p = true
}.

(** Between operations no filler is at the start. *)
Definition settled (b : abuf) : Prop := is_filler (ab_cell b (ab_first b)) = false.

Definition rrep (s : t) (b : abuf) : Prop := rcore s b /\ rspan s b /\ rready s b /\ settled b.

(** The position of packet [i]. *)
Definition at_ (s : t) (b : abuf) (i : Z) : Z := (m_iStartPos s + (i - ab_first b)) mod m_szSize s.

Section Core.

Context (s : t) (b : abuf) (C : rcore s b).

Lemma rep_bounds : 1 < m_szSize s < 2 ^ 30.
Proof using C. pose proof (rc_size _ _ C). lia. Qed.

Lemma at_bound i : 0 <= at_ s b i < m_szSize s.
Proof using C. apply pos_bound, rep_bounds. Qed.

Lemma at_first : at_ s b (ab_first b) = m_iStartPos s.
Proof using C. unfold at_. rewrite Z.sub_diag, Z.add_0_r, Z.mod_small; [done|apply (rc_pos _ _ C)]. Qed.

Lemma at_next i : incPos s (at_ s b i) 1 = at_ s b (i + 1).
Proof using C. unfold incPos, at_. rewrite Zplus_mod_idemp_l. f_equal. lia. Qed.

Lemma at_off off : incPos s (m_iStartPos s) off = at_ s b (ab_first b + off).
Proof using C. unfold incPos, at_. intros. f_equal. lia. Qed.

Lemma at_inj i j : ab_first b <= i < ab_first b + m_szSize s -> ab_first b <= j < ab_first b + m_szSize s -> at_ s b i = at_ s b j -> i = j.
Proof using C. intros Hi Hj E. unfold at_ in E. apply (ring_pos_inj _ rep_bounds) in E; lia. Qed.

Lemma entry_at i : ab_first b <= i < ab_first b + m_szSize s -> entryAt s (at_ s b i) = Some (ab_cell b i).
Proof using C. intros Hi. unfold entryAt, at_. by eapply ring_get; [apply (rc_ring _ _ C)|]. Qed.

Lemma avail_unit i : has_unit (ab_cell b i) = is_avail (ab_cell b i).
Proof using C.
  unfold has_unit, is_avail. destruct (pUnit (ab_cell b i)) as [p|] eqn:E.
  - by destruct (rc_unit _ _ C _ _ E) as [-> _].
  - pose proof (rc_none _ _ C _ E). by destruct (status (ab_cell b i)).
Qed.

(** A position of the window, from its offset. *)
Lemma offPos_at i : ab_first b <= i < ab_first b + m_szSize s -> offPos s (m_iStartPos s) (at_ s b i) = i - ab_first b.
Proof using C.
  intros Hi. pose proof (rc_pos _ _ C) as Hp. pose proof (at_bound i) as Hb. unfold offPos. rewrite Z.geb_leb. unfold at_ in *.
  destruct (Z.lt_ge_cases (m_iStartPos s + (i - ab_first b)) (m_szSize s)) as [Hlt|Hge].
  - rewrite Z.mod_small in * by lia. destruct (Z.leb_spec (m_iStartPos s) (m_iStartPos s + (i - ab_first b))); lia.
  - rewrite <- (Z.mod_unique (m_iStartPos s + (i - ab_first b)) (m_szSize s) 1 (m_iStartPos s + (i - ab_first b) - m_szSize s)) in * by lia.
    destruct (Z.leb_spec (m_iStartPos s) (m_iStartPos s + (i - ab_first b) - m_szSize s)); lia.
Qed.

(** [isInRange] tells whether a position is that of a packet up to [ab_max]. *)
Lemma in_range_at i : rspan s b -> ab_first b <= i < ab_first b + m_szSize s ->
  isInRange (m_iStartPos s) (m_iMaxPosOff s) (m_szSize s) (at_ s b i) = (i <=? ab_max b).
Proof using C.
  intros P Hi. pose proof (rc_pos _ _ C) as Hp. pose proof (rs_max _ _ P) as Hm. pose proof (offPos_at i Hi) as Ho.
  pose proof (offPos_at (ab_max b) ltac:(lia)) as Hom. pose proof (at_bound i) as Hb. pose proof (at_bound (ab_max b)) as Hbm.
  unfold isInRange. replace ((m_iStartPos s + m_iMaxPosOff s) mod m_szSize s) with (at_ s b (ab_max b)) by (unfold at_; rewrite (rs_maxoff _ _ P); done).
  set (p := at_ s b i) in *. set (q := at_ s b (ab_max b)) in *. unfold offPos in *. rewrite !Z.geb_leb in *. rewrite !Z.gtb_ltb.
  destruct (Z.leb_spec (m_iStartPos s) p), (Z.leb_spec (m_iStartPos s) q), (Z.eqb_spec p (m_iStartPos s)), (Z.ltb_spec q (m_iStartPos s)),
    (Z.ltb_spec (m_iStartPos s) p), (Z.leb_spec p q), (Z.leb_spec i (ab_max b)); cbn; done || lia.
Qed.

(** One entry is replaced. *)
Lemma core_set i e a :
  ab_first b <= i < ab_first b + m_szSize s -> aset (m_entries s) (at_ s b i) e = Some a ->
  match pUnit e with Some p => status e = EntryState_Avail /\ CPacket.getSeqNo p = seq_of i | None => status e <> EntryState_Avail end ->
  rcore (set_entries a s) (with_cells (ab_first b) (set_cell i e (ab_cell b)) (ab_max b) b).
Proof using C.
  intros Hi E He. destruct (ring_set _ rep_bounds _ _ _ _ i e (rc_ring _ _ C) Hi) as (a' & E' & Rg). unfold at_ in E. rewrite E in E'. injection E' as <-.
  assert (Z.of_nat (length a) = m_szSize s) as Hl by (unfold m_szSize; by rewrite (aset_length _ _ _ _ E)).
  destruct C. constructor; cbn; unfold m_szSize; cbn; rewrite ?Hl; try done.
  - intros j Hj. unfold set_cell. destruct (Z.eqb_spec j i); [lia|]. auto.
  - intros j p. unfold set_cell. destruct (Z.eqb_spec j i) as [->|]; [|auto]. intros Hp. by rewrite Hp in He.
  - intros j. unfold set_cell. destruct (Z.eqb_spec j i) as [->|]; [|auto]. intros Hp. by rewrite Hp in He.
Qed.

End Core.

(** ** Single entries *)

(** The numbers an operation on one entry leaves alone. *)
Definition frame (s s' : t) : Prop :=
  m_iStartSeqNo s' = m_iStartSeqNo s /\ m_iStartPos s' = m_iStartPos s /\ m_iFirstNonreadPos s' = m_iFirstNonreadPos s
  /\ m_iMaxPosOff s' = m_iMaxPosOff s /\ m_szSize s' = m_szSize s.

(** What an entry's packet does to the clock when it leaves the buffer. *)
Definition tick (e : Entry) (k : CTsbpdTime.t) : CTsbpdTime.t :=
  match pUnit e with
  | Some p => if CTsbpdTime.isEnabled k then CTsbpdTime.updateBaseTime (CPacket.getMsgTimeStamp p) k else k
  | None => k
  end.

(** Packet [i], if it is there, leaves the buffer; its cell gets status [v]. *)
Definition kill (v : EntryStatus) (i : Z) (b : abuf) : abuf :=
  with_clock (tick (ab_cell b i) (ab_clock b)) (with_cells (ab_first b) (set_cell i (mkEntry None v) (ab_cell b)) (ab_max b) b).

Lemma core_ext s b b' :
  rcore s b -> (forall i, ab_cell b' i = ab_cell b i) -> ab_first b' = ab_first b -> ab_clock b' = ab_clock b -> ab_notch b' = ab_notch b ->
  ab_api b' = ab_api b -> ab_rexmit b' = ab_rexmit b -> rcore s b'.
Proof.
  intros [] Ec Ef Ek En Ea Er. constructor; rewrite ?Ef, ?Ek, ?En, ?Ea, ?Er; try done.
  - by eapply ring_ext; [|exact rc_ring0].
  - intros i Hi. rewrite Ec. auto.
  - intros i p. rewrite Ec. auto.
  - intros i. rewrite Ec. auto.
Qed.

(** Only fields the core does not mention, and the clock, differ. *)
Lemma core_fields s s' b k :
  rcore s b -> m_entries s' = m_entries s -> m_iStartPos s' = m_iStartPos s -> m_tsbpd s' = k ->
  CTsbpdTime.isEnabled k = CTsbpdTime.isEnabled (m_tsbpd s) ->
  m_numOutOfOrderPackets s' = m_numOutOfOrderPackets s -> m_iFirstReadableOutOfOrder s' = m_iFirstReadableOutOfOrder s ->
  m_bMessageAPI s' = m_bMessageAPI s -> m_bPeerRexmitFlag s' = m_bPeerRexmitFlag s -> m_iNotch s' = m_iNotch s ->
  rcore s' (with_clock k b).
Proof.
  intros [] E1 E2 E3 E4 E5 E6 E7 E8 E9. unfold m_szSize, tsbpd_on in *. constructor; cbn; unfold m_szSize, tsbpd_on; rewrite ?E1, ?E2, ?E3, ?E4, ?E5, ?E6, ?E7, ?E8, ?E9; done.
Qed.

Lemma tick_enabled e k : CTsbpdTime.isEnabled (tick e k) = CTsbpdTime.isEnabled k.
Proof.
  unfold tick. destruct (pUnit e); [|done]. destruct (CTsbpdTime.isEnabled k) eqn:E; [|done].
  unfold CTsbpdTime.updateBaseTime, CTsbpdTime.isEnabled in *. repeat match goal with |- context [if ?x then _ else _] => destruct x end; done.
Qed.

Section Entries.

Context (s : t) (b : abuf) (C : rcore s b) (i : Z) (Hi : ab_first b <= i < ab_first b + m_szSize s).

Lemma release_run :
  exists s', releaseUnitInPos (at_ s b i) s = Some s' /\ frame s s' /\ m_tsbpd s' = m_tsbpd s
    /\ rcore s' (with_cells (ab_first b) (set_cell i empty_entry (ab_cell b)) (ab_max b) b).
Proof using C Hi.
  unfold releaseUnitInPos. destruct (ring_set _ (rep_bounds _ _ C) _ _ _ _ i empty_entry (rc_ring _ _ C) Hi) as (a & E & _).
  unfold at_. rewrite E. cbn [mbind option_bind]. eexists. split; [reflexivity|]. split; [|split; [done|]].
  - unfold frame, m_szSize. cbn. by rewrite (aset_length _ _ _ _ E).
  - by eapply core_set.
Qed.

Lemma drop_unit_run :
  exists s1 e, dropUnitInPos (at_ s b i) s = Some (has_unit (ab_cell b i), s1) /\ frame s s1 /\ pUnit e = None
    /\ rcore s1 (with_clock (tick (ab_cell b i) (ab_clock b)) (with_cells (ab_first b) (set_cell i e (ab_cell b)) (ab_max b) b)).
Proof using C Hi.
  unfold dropUnitInPos. rewrite (entry_at _ _ C i Hi). cbn [mbind option_bind]. set (pos := at_ s b i).
  unfold tick, has_unit. destruct (pUnit (ab_cell b i)) as [p|] eqn:Ep.
  - set (s0 := if tsbpd_on s then _ else _).
    assert (rcore s0 (with_clock (if CTsbpdTime.isEnabled (ab_clock b) then CTsbpdTime.updateBaseTime (CPacket.getMsgTimeStamp p) (ab_clock b) else ab_clock b) b)
            /\ frame s s0 /\ at_ s0 b i = pos) as (C0 & F0 & E0).
    { pose proof (tick_enabled (ab_cell b i) (ab_clock b)) as Ht. unfold tick in Ht. rewrite Ep in Ht. unfold s0, tsbpd_on. rewrite (rc_clock _ _ C) in *.
      destruct (CTsbpdTime.isEnabled (ab_clock b)) eqn:Ee.
      - split_and!; [|done|done]. eapply core_fields; try done; cbn; by rewrite (rc_clock _ _ C), ?Ee.
      - destruct (rc_mode _ _ C) as [Hm|Hm]; [unfold tsbpd_on in Hm; rewrite (rc_clock _ _ C) in Hm; congruence|]. rewrite Hm. cbn [andb].
        split_and!; [|done|done]. eapply core_fields; try done; cbn; by rewrite (rc_clock _ _ C), ?Ee. }
    rewrite <- E0. assert (ab_first b <= i < ab_first b + m_szSize s0) as Hi0 by (destruct F0 as (_ & _ & _ & _ & ->); lia).
    unfold releaseUnitInPos. destruct (ring_set _ (rep_bounds _ _ C0) _ _ _ _ i empty_entry (rc_ring _ _ C0) Hi0) as (a & E & _). cbn [ab_first with_clock] in E.
    unfold at_ at 1. rewrite E. cbn [mbind option_bind]. eexists _, empty_entry. split; [reflexivity|]. split; [|split; [done|]].
    + destruct F0 as (? & ? & ? & ? & ?). unfold frame, m_szSize in *. cbn. rewrite (aset_length _ _ _ _ E). done.
    + by apply (core_set _ _ C0 i empty_entry a Hi0 E).
  - exists s, (ab_cell b i). split_and!; try done. eapply core_ext; [exact C|..]; try done.
    intros j. cbn. unfold set_cell. destruct (Z.eqb_spec j i) as [->|]; done.
Qed.

Lemma kill_run v :
  v <> EntryState_Avail ->
  exists s', (r ← dropUnitInPos (at_ s b i) s; mark v (at_ s b i) (snd r)) = Some s' /\ frame s s' /\ rcore s' (kill v i b).
Proof using C Hi.
  intros Hv. destruct drop_unit_run as (s1 & e & E1 & F1 & He & C1). set (pos := at_ s b i) in *.
  rewrite E1. cbn [mbind option_bind snd]. unfold mark.
  assert (ab_first b <= i < ab_first b + m_szSize s1) as Hi1 by (destruct F1 as (_ & _ & _ & _ & ->); lia).
  assert (pos = at_ s1 b i) as -> by (unfold pos, at_; by destruct F1 as (_ & -> & _ & _ & ->)).
  destruct (ring_upd _ (rep_bounds _ _ C1) _ _ _ _ i (set_status v) (rc_ring _ _ C1) Hi1) as (a & E & _). cbn [ab_first with_clock with_cells] in E.
  unfold at_ at 1. rewrite E. cbn [mbind option_bind]. eexists. split; [reflexivity|].
  unfold aupd in E. pose proof (entry_at _ _ C1 i Hi1) as Eg. unfold entryAt, at_ in Eg. cbn [ab_first with_clock with_cells] in Eg. rewrite Eg in E. cbn [mbind option_bind] in E.
  split.
  - destruct F1 as (? & ? & ? & ? & ?). unfold frame, m_szSize in *. cbn. rewrite (aset_length _ _ _ _ E). done.
  - assert (set_status v (ab_cell (with_clock (tick (ab_cell b i) (ab_clock b)) (with_cells (ab_first b) (set_cell i e (ab_cell b)) (ab_max b) b)) i) = mkEntry None v) as Ev.
    { cbn. unfold set_cell. rewrite Z.eqb_refl. unfold set_status. by rewrite He. }
    rewrite Ev in E. eapply core_ext; [apply (core_set _ _ C1 i (mkEntry None v) a Hi1 E); exact Hv|..]; try done.
    intros j. cbn. unfold set_cell. by destruct (j =? i).
Qed.

End Entries.

(** The window moves past an empty first cell. *)
Lemma core_shift s b seqno maxoff :
  rcore s b -> ab_cell b (ab_first b) = empty_entry ->
  rcore (set_start seqno (incPos s (m_iStartPos s) 1) maxoff s) (with_cells (ab_first b + 1) (ab_cell b) (ab_max b) b).
Proof.
  intros C H0. pose proof (rep_bounds _ _ C) as HN. destruct C. constructor; cbn; try done.
  - apply ring_shift; [lia|done|done|]. apply rc_out0. lia.
  - apply pos_bound. done.
  - intros i Hi. destruct (Z.eq_dec i (ab_first b)) as [->|]; [done|]. apply rc_out0. unfold m_szSize in *. cbn in *. lia.
Qed.

(** ** Fillers at the start *)

(** The buffer moves on past cells already read or dropped. *)
Fixpoint settle (fuel : nat) (b : abuf) : abuf :=
  match fuel with
  | O => b
  | S f =>
    if is_filler (ab_cell b (ab_first b))
    then settle f (with_cells (ab_first b + 1) (set_cell (ab_first b) empty_entry (ab_cell b)) (Z.max (ab_max b) (ab_first b + 1)) b)
    else b
  end.

Record settle_of (b b' : abuf) : Prop := mkSettle {
  st_first : ab_first b <= ab_first b';
  st_past : forall i, ab_first b <= i < ab_first b' -> is_filler (ab_cell b i) = true /\ ab_cell b' i = empty_entry;
  st_cell : forall i, i < ab_first b \/ ab_first b' <= i -> ab_cell b' i = ab_cell b i;
  st_max : ab_max b' = Z.max (ab_max b) (ab_first b');
  st_ready : ab_ready b' = ab_ready b;
  st_rest : (ab_clock b', ab_notch b', ab_api b', ab_rexmit b') = (ab_clock b, ab_notch b, ab_api b, ab_rexmit b)
}.

Lemma settle_spec fuel b : ab_first b <= ab_max b -> settle_of b (settle fuel b).
Proof.
  revert b. induction fuel as [|f IH]; intros b Hm; cbn [settle].
  { constructor; try done; try lia. }
  destruct (is_filler (ab_cell b (ab_first b))) eqn:Ef; [|constructor; done || lia].
  match goal with |- settle_of _ (settle f ?x) => set (b1 := x) end.
  destruct (IH b1) as [H1 H2 H3 H4 H5 H6]; [cbn; lia|]. cbn [ab_first ab_max b1 with_cells] in *. constructor; try done.
  - lia.
  - intros i Hi. destruct (Z.eq_dec i (ab_first b)) as [->|Hne].
    + split; [done|]. rewrite H3 by lia. cbn. unfold set_cell. by rewrite Z.eqb_refl.
    + destruct (H2 i ltac:(lia)) as [F E]. split; [|done]. cbn in F. unfold set_cell in F. destruct (Z.eqb_spec i (ab_first b)); [lia|done].
  - intros i Hi. destruct (Z.eq_dec i (ab_first b)) as [->|Hne]; [lia|]. rewrite H3 by lia. cbn. unfold set_cell. destruct (Z.eqb_spec i (ab_first b)); [lia|done].
  - lia.
Qed.

Lemma release_loop fuel s b M :
  rcore s b -> rspan s b -> (forall i, M <= i -> is_filler (ab_cell b i) = false) -> ab_first b <= M -> M - ab_first b < Z.of_nat fuel ->
  exists s', releaseNextFillerEntries fuel s = Some s' /\ rcore s' (settle fuel b) /\ rspan s' (settle fuel b) /\ settled (settle fuel b)
    /\ m_iFirstNonreadPos s' = m_iFirstNonreadPos s /\ m_szSize s' = m_szSize s
    /\ (m_iStartPos s' = (m_iStartPos s + (ab_first (settle fuel b) - ab_first b)) mod m_szSize s).
Proof.
  revert s b. induction fuel as [|f IH]; intros s b C P HM HfM Hf; [lia|].
  cbn [releaseNextFillerEntries settle]. pose proof (rc_size _ _ C) as HN. rewrite <- (at_first _ _ C), (entry_at _ _ C) by lia. cbn [mbind option_bind].
  destruct (is_filler (ab_cell b (ab_first b))) eqn:Ef.
  2: { exists s. split_and!; try done. rewrite at_first, Z.sub_diag, Z.add_0_r, Z.mod_small by (done || apply (rc_pos _ _ C)). done. }
  destruct (release_run s b C (ab_first b)) as (s1 & E1 & F1 & _ & C1); [lia|]. rewrite E1. cbn [mbind option_bind].
  destruct F1 as (F1 & F2 & F3 & F4 & F5). rewrite at_first in * by done.
  match goal with |- context [settle f ?x] => set (b1 := x) end.
  match goal with |- context [releaseNextFillerEntries f ?x] => set (s2 := x) end.
  assert (rcore s2 b1) as C2.
  { eapply core_ext; [apply (core_shift _ _ _ _ C1)|..]; try done. cbn. unfold set_cell. by rewrite Z.eqb_refl. }
  assert (rspan s2 b1) as P2.
  { pose proof (rs_max _ _ P) as Hm. pose proof (rs_maxoff _ _ P) as Ho. constructor; cbn.
    - rewrite F1, (rs_seq _ _ P). apply incseq_seq_of.
    - rewrite F4, Ho, i32_id by (unfold is_i32; lia). lia.
    - unfold m_szSize in *. cbn in *. lia.
    - intros i. unfold set_cell. destruct (Z.eqb_spec i (ab_first b)) as [->|]; [done|]. intros Hu%(rs_unit _ _ P). lia. }
  assert (ab_first b < M) as HM1 by (destruct (Z.eq_dec (ab_first b) M) as [EM|]; [rewrite HM in Ef by lia; done|lia]).
  destruct (IH s2 b1 C2 P2) as (s' & E & C' & P' & S' & N' & Z' & St); [|cbn in *; lia|cbn in *; lia|].
  - intros i Hi. cbn. unfold set_cell. destruct (Z.eqb_spec i (ab_first b)); [done|auto].
  - exists s'. split_and!; try done.
    + rewrite N'. done.
    + rewrite Z'. unfold s2, m_szSize in *. cbn. lia.
    + rewrite St. assert (m_szSize s2 = m_szSize s) as -> by (unfold s2, m_szSize in *; cbn; lia). unfold s2, incPos. cbn [m_iStartPos set_start].
      rewrite F2, F5, Zplus_mod_idemp_l. f_equal. cbn. lia.
Qed.
