(* ===== verification/RcvBufferRefine.v ===== *)
(** * The receiver's buffer implements the line of cells

    The operations of the abstract buffer of RcvBufferSpec.v, each followed by the
    proof that the operation of [CRcvBuffer] it stands for, on a state that
    represents the abstract buffer, ends, stays inside the array, returns the same
    result and represents the new abstract buffer. *)

From S2P Require Import Prelude SeqNo Packet Tsbpd SndBuffer RcvBuffer RcvBufferSpec.
Import CRcvBuffer.

(** ** Whole messages *)

Definition pkt_at (b : abuf) (i : Z) : option CPacket.t := pUnit (ab_cell b i).

(** The index after the message packet [i] belongs to, if the packets from [i] to
    its last one are all there. In stream mode every packet is a message. *)
Fixpoint whole_end (fuel : nat) (b : abuf) (i : Z) : option Z :=
  if i =? ab_max b then None
  else
    match fuel with
    | O => None
    | S f =>
      match pkt_at b i with
      | None => None
      | Some p => if negb (ab_api b) || has_last p then Some (i + 1) else whole_end f b (i + 1)
      end
    end.

(** The first packet that is not ready, from [r] on. *)
Fixpoint advance (fuel : nat) (N : nat) (b : abuf) (r : Z) : Z :=
  match fuel with
  | O => r
  | S f =>
    match pkt_at b r with
    | None => r
    | Some p =>
      if ab_api b && negb (has_first p) then r
      else match whole_end N b r with None => r | Some e => advance f N b e end
    end
  end.

Definition refresh (N : Z) (b : abuf) : abuf := with_ready (advance (S (Z.to_nat N)) (Z.to_nat N) b (ab_ready b)) b.

(** The packets [i], ..., [e - 1] are there and [e - 1] is the first of them that
    ends a message. *)
Record whole (b : abuf) (i e : Z) : Prop := mkWhole {
  wh_lt : i < e;
  wh_unit : forall j, i <= j < e -> has_unit (ab_cell b j) = true;
  wh_stream : ab_api b = false -> e = i + 1;
  wh_last : ab_api b = true -> forall j p, i <= j < e -> pkt_at b j = Some p -> has_last p = (j =? e - 1)
}.

Definition starts (b : abuf) (i : Z) : Prop := exists p, pkt_at b i = Some p /\ (ab_api b = true -> has_first p = true).

(** Whole messages one after the other. *)
Inductive run (b : abuf) : Z -> Z -> Prop :=
  | run_nil r : run b r r
  | run_msg r m e : starts b r -> whole b r m -> run b m e -> run b r e.

Lemma has_unit_pkt b i : has_unit (ab_cell b i) = true <-> exists p, pkt_at b i = Some p.
Proof. unfold has_unit, pkt_at. destruct (pUnit (ab_cell b i)); split; [eauto|done|done|by intros [? [=]]]. Qed.

Lemma whole_step b i e p :
  ab_api b = true -> pkt_at b i = Some p -> has_last p = false -> (whole b i e <-> i + 1 < e /\ whole b (i + 1) e).
Proof.
  intros Ha Hp Hl. split.
  - intros [H1 H2 H3 H4]. assert (i + 1 < e) as Hlt.
    { pose proof (H4 Ha i p ltac:(lia) Hp) as H. rewrite Hl in H. destruct (Z.eqb_spec i (e - 1)); [done|lia]. }
    split; [done|]. constructor; try done.
    + intros j Hj. apply H2. lia.
    + intros H. congruence.
    + intros _ j q Hj. apply H4; [done|lia].
  - intros [Hlt [H1 H2 H3 H4]]. constructor; [lia|..].
    + intros j Hj. destruct (Z.eq_dec j i) as [->|]; [apply has_unit_pkt; eauto|apply H2; lia].
    + congruence.
    + intros _ j q Hj Hq. destruct (Z.eq_dec j i) as [->|]; [|apply H4; [done|lia|done]].
      rewrite Hp in Hq. injection Hq as <-. rewrite Hl. destruct (Z.eqb_spec i (e - 1)); [lia|done].
Qed.

Lemma whole_one b i p : pkt_at b i = Some p -> negb (ab_api b) || has_last p = true -> forall e, whole b i e <-> e = i + 1.
Proof.
  intros Hp Hl e. split.
  - intros [H1 H2 H3 H4]. destruct (ab_api b) eqn:Ha; [|by apply H3]. cbn in Hl.
    pose proof (H4 eq_refl i p ltac:(lia) Hp) as H. rewrite Hl in H. destruct (Z.eqb_spec i (e - 1)); [lia|done].
  - intros ->. constructor; [lia|..|done|].
    + intros j Hj. replace j with i by lia. apply has_unit_pkt; eauto.
    + intros Ha j q Hj Hq. replace j with i in * by lia. rewrite Hp in Hq. injection Hq as <-. rewrite Ha in Hl. cbn in Hl. rewrite Hl.
      symmetry. apply Z.eqb_eq. lia.
Qed.

(** [whole_end] finds the message, if it is there. *)
Lemma whole_end_spec fuel b i e :
  (forall j, has_unit (ab_cell b j) = true -> j < ab_max b) -> ab_max b - i <= Z.of_nat fuel -> i <= ab_max b ->
  (whole_end fuel b i = Some e <-> whole b i e).
Proof.
  intros Hu. revert i. induction fuel as [|f IH]; intros i Hf Hi; cbn [whole_end];
    (destruct (Z.eqb_spec i (ab_max b)) as [->|Hne];
      [split; [done|]; intros [H1 H2 _ _]; specialize (H2 (ab_max b) ltac:(lia)); specialize (Hu _ H2); lia|]); [lia|].
  destruct (pkt_at b i) as [p|] eqn:Ep.
  2: { split; [done|]. intros [H1 H2 _ _]. specialize (H2 i ltac:(lia)). apply has_unit_pkt in H2 as [q Hq]. congruence. }
  destruct (negb (ab_api b) || has_last p) eqn:El.
  - rewrite (whole_one b i p Ep El). split; [by intros [= <-]|by intros ->].
  - apply orb_false_iff in El as [Ha Hl]. apply negb_false_iff in Ha. rewrite IH by lia. rewrite (whole_step b i e p Ha Ep Hl).
    split; [|tauto]. intros H. split; [|done]. destruct H. lia.
Qed.

Lemma whole_le b i e : (forall j, has_unit (ab_cell b j) = true -> j < ab_max b) -> whole b i e -> e <= ab_max b.
Proof. intros Hu [H1 H2 _ _]. specialize (H2 (e - 1) ltac:(lia)). specialize (Hu _ H2). lia. Qed.

(** What [advance] finds, and that it goes as far as possible. *)
Lemma advance_spec fuel N b r :
  (forall j, has_unit (ab_cell b j) = true -> j < ab_max b) -> r <= ab_max b -> ab_max b - r < Z.of_nat fuel -> ab_max b - r <= Z.of_nat N ->
  run b r (advance fuel N b r) /\ forall e, starts b (advance fuel N b r) -> ~ whole b (advance fuel N b r) e.
Proof.
  intros Hu. revert r. induction fuel as [|f IH]; intros r Hr Hf HN; [lia|]. cbn [advance].
  destruct (pkt_at b r) as [p|] eqn:Ep.
  2: { split; [constructor|]. intros e [q [Hq _]]. congruence. }
  destruct (ab_api b && negb (has_first p)) eqn:Ea.
  { split; [constructor|]. intros e [q [Hq Hs]] _. apply andb_true_iff in Ea as [Ha Hf1]. rewrite Ep in Hq. injection Hq as <-. rewrite Hs in Hf1 by done. done. }
  assert (starts b r) as Hst.
  { exists p. split; [done|]. intros Ha. rewrite Ha in Ea. cbn in Ea. by apply negb_false_iff in Ea. }
  destruct (whole_end N b r) as [e|] eqn:Ee.
  - apply whole_end_spec in Ee; [|done|lia|done]. pose proof (wh_lt _ _ _ Ee). pose proof (whole_le _ _ _ Hu Ee).
    destruct (IH e) as [R M]; [lia..|]. split; [by eapply run_msg|done].
  - split; [constructor|]. intros e _ Hw. apply (whole_end_spec N) in Hw; [congruence|done|lia|done].
Qed.

(** The same of [refresh]; its cells are those it was given. *)
Lemma refresh_spec N b :
  (forall j, has_unit (ab_cell b j) = true -> j < ab_max b) -> ab_ready b <= ab_max b -> ab_max b - ab_ready b <= N ->
  run (refresh N b) (ab_ready b) (ab_ready (refresh N b))
  /\ forall e, starts (refresh N b) (ab_ready (refresh N b)) -> ~ whole (refresh N b) (ab_ready (refresh N b)) e.
Proof.
  intros Hu Hr HN. destruct (advance_spec (S (Z.to_nat N)) (Z.to_nat N) b (ab_ready b) Hu Hr ltac:(lia) ltac:(lia)) as [R M]. unfold refresh. cbn [ab_ready with_ready].
  set (r := advance _ _ _ _) in *. clearbody r. split.
  - clear M. revert R. generalize (ab_ready b). intros a R. induction R as [|a m e Hs [W1 W2 W3 W4] R IH]; [constructor|]. eapply run_msg; [exact Hs|by constructor|exact IH].
  - intros e Hs [W1 W2 W3 W4]. apply (M e Hs). by constructor.
Qed.

Lemma run_facts b r e :
  (forall j, has_unit (ab_cell b j) = true -> j < ab_max b) -> r <= ab_max b -> run b r e ->
  r <= e <= ab_max b /\ (forall j, r <= j < e -> has_unit (ab_cell b j) = true)
  /\ (ab_api b = true -> r < e -> exists p, pkt_at b (e - 1) = Some p /\ has_last p = true).
Proof.
  intros Hu Hr R. induction R as [r|r m e Hs Hw R IH]; [split_and!; lia|].
  pose proof (wh_lt _ _ _ Hw). pose proof (whole_le _ _ _ Hu Hw). destruct IH as (I1 & I2 & I3); [lia|]. split_and!; [lia..| |].
  - intros j Hj. destruct (Z.lt_ge_cases j m); [apply (wh_unit _ _ _ Hw)|apply I2]; lia.
  - intros Ha _. destruct (Z.eq_dec m e) as [->|]; [|apply I3; [done|lia]].
    pose proof (wh_unit _ _ _ Hw (e - 1) ltac:(lia)) as [p Hp]%has_unit_pkt. exists p. split; [done|].
    rewrite (wh_last _ _ _ Hw Ha (e - 1) p ltac:(lia) Hp). apply Z.eqb_refl.
Qed.

(** ** The first packet not ready *)

Section Nonread.

Context (s : t) (b : abuf) (C : rcore s b) (P : rspan s b).

Notation N := (length (m_entries s)).

Lemma message_end_run fuel pos i :
  ab_first b <= pos < ab_first b + m_szSize s -> has_unit (ab_cell b pos) = true -> ab_first b <= i <= ab_max b -> ab_max b - i <= Z.of_nat fuel ->
  message_end fuel s (at_ s b pos) (at_ s b (ab_max b)) (at_ s b i) = Some (option_map (at_ s b) (whole_end fuel b i)).
Proof using C P.
  intros Hpos Hu. revert i. pose proof (rs_max _ _ P) as Hm. induction fuel as [|f IH]; intros i Hi Hf; cbn [message_end whole_end];
    (destruct (Z.eqb_spec i (ab_max b)) as [->|Hne]; [by rewrite Z.eqb_refl|]); [lia|].
  destruct (Z.eqb_spec (at_ s b i) (at_ s b (ab_max b))) as [E%(at_inj _ _ C)|_]; [lia..|].
  rewrite (entry_at _ _ C i), (entry_at _ _ C pos) by lia. cbn [mbind option_bind]. unfold pkt_at. destruct (pUnit (ab_cell b i)) as [p|]; [|done].
  rewrite (avail_unit _ _ C) in Hu. rewrite Hu. cbn [negb]. rewrite (proj1 (rc_const _ _ C)), (at_next _ _ C).
  destruct (negb (ab_api b) || has_last p); [done|]. apply IH; lia.
Qed.

Lemma nonread_loop_run fuel r :
  ab_first b <= r <= ab_max b -> ab_max b - r < Z.of_nat fuel ->
  nonread_loop fuel s (at_ s b (ab_max b)) (at_ s b r) (at_ s b r) = Some (at_ s b (advance fuel N b r)).
Proof using C P.
  pose proof (rs_max _ _ P) as Hm. assert (ab_max b - ab_first b <= Z.of_nat N) as HN by (unfold m_szSize in *; lia).
  revert r. induction fuel as [|f IH]; intros r Hr Hf; [lia|]. cbn [nonread_loop advance].
  rewrite (entry_at _ _ C r) by lia. cbn [mbind option_bind]. unfold pkt_at. destruct (pUnit (ab_cell b r)) as [p|] eqn:Ep; [|done].
  assert (has_unit (ab_cell b r) = true) as Hu by (unfold has_unit; by rewrite Ep).
  pose proof (avail_unit _ _ C r) as Ha. rewrite Hu in Ha. rewrite <- Ha. cbn [negb]. rewrite (proj1 (rc_const _ _ C)).
  destruct (ab_api b && negb (has_first p)); [done|].
  rewrite message_end_run by (done || lia). cbn [mbind option_bind]. destruct (whole_end N b r) as [e|] eqn:Ee; cbn [option_map default from_option]; unfold id.
  2: { by rewrite Z.eqb_refl. }
  apply whole_end_spec in Ee; [|apply (rs_unit _ _ P)|lia..]. pose proof (wh_lt _ _ _ Ee). pose proof (whole_le _ _ _ (rs_unit _ _ P) Ee).
  destruct (Z.eqb_spec (at_ s b r) (at_ s b e)) as [E%(at_inj _ _ C)|_]; [lia..|].
  rewrite (entry_at _ _ C e) by lia. cbn [mbind option_bind id]. destruct (has_unit (ab_cell b e)) eqn:Hue; cbn [negb].
  - apply IH; lia.
  - destruct f; [done|]. cbn [advance]. unfold pkt_at, has_unit in *. by destruct (pUnit (ab_cell b e)).
Qed.

Lemma core_ready pos r : rcore (set_nonread pos s) (with_ready r b).
Proof using C. eapply core_ext; [eapply (core_fields s _ b (m_tsbpd s) C)|..]; try done. cbn. by rewrite (rc_clock _ _ C). Qed.

Lemma span_ready pos r : rspan (set_nonread pos s) (with_ready r b).
Proof using P. destruct P. by constructor. Qed.

Lemma updateNonreadPos_run :
  rready s b ->
  exists pos, updateNonreadPos s = Some (set_nonread pos s)
    /\ rcore (set_nonread pos s) (refresh (m_szSize s) b) /\ rspan (set_nonread pos s) (refresh (m_szSize s) b) /\ rready (set_nonread pos s) (refresh (m_szSize s) b).
Proof using C P.
  intros R. pose proof (rs_max _ _ P) as Hm. pose proof (rd_ready _ _ R) as Hr. pose proof (rd_nonread _ _ R) as Hp.
  assert (Z.of_nat N = m_szSize s) as HN by done. assert (Z.to_nat (m_szSize s) = N) as HN' by (unfold m_szSize; lia).
  destruct (advance_spec (S N) N b (ab_ready b)) as [Rn _]; [apply (rs_unit _ _ P)|lia..|].
  pose proof (run_facts b (ab_ready b) _ (rs_unit _ _ P) ltac:(lia) Rn) as (F1 & F2 & F3).
  assert (updateNonreadPos s = Some (set_nonread (at_ s b (advance (S N) N b (ab_ready b))) s)) as E.
  { unfold updateNonreadPos. destruct (Z.eqb_spec (m_iMaxPosOff s) 0) as [E0|_].
    - rewrite (rs_maxoff _ _ P) in E0. replace (advance (S N) N b (ab_ready b)) with (ab_ready b) by lia. unfold at_. rewrite <- Hp. by destruct s.
    - rewrite (at_off _ _ C). replace (ab_first b + m_iMaxPosOff s) with (ab_max b) by (rewrite (rs_maxoff _ _ P); lia).
      rewrite Hp. change ((m_iStartPos s + (ab_ready b - ab_first b)) mod m_szSize s) with (at_ s b (ab_ready b)).
      rewrite nonread_loop_run by lia. done. }
  eexists. split; [exact E|]. unfold refresh. rewrite HN'. split_and!; [apply core_ready|apply span_ready|].
  constructor; cbn [ab_first ab_ready ab_max ab_cell ab_api with_ready].
  - done.
  - lia.
  - intros i Hi. destruct (Z.lt_ge_cases i (ab_ready b)); [apply (rd_unit _ _ R)|apply F2]; lia.
  - intros Ha Hlt. destruct (Z.eq_dec (advance (S N) N b (ab_ready b)) (ab_ready b)) as [Eq|]; [|apply F3; [done|lia]].
    rewrite Eq in *. by apply (rd_last _ _ R).
Qed.

End Nonread.

Lemma refresh_first N b : ab_first (refresh N b) = ab_first b. Proof. done. Qed.

(** The packets ready stay so if their cells stay. *)
Lemma ready_keep s s' b b' :
  rready s b -> m_iFirstNonreadPos s' = m_iFirstNonreadPos s -> m_iStartPos s' = m_iStartPos s -> m_szSize s' = m_szSize s ->
  ab_first b' = ab_first b -> ab_ready b' = ab_ready b -> ab_api b' = ab_api b -> ab_max b <= ab_max b' ->
  (forall j, ab_first b <= j < ab_ready b -> ab_cell b' j = ab_cell b j) -> rready s' b'.
Proof.
  intros [H1 H2 H3 H4] E1 E2 E3 E4 E5 E6 E7 Ec. constructor; rewrite ?E1, ?E2, ?E3, ?E4, ?E5, ?E6; [done|lia|..].
  - intros i Hi. rewrite Ec by done. by apply H3.
  - intros Ha Hlt. rewrite Ec by lia. by apply H4.
Qed.

(** ** Insertion *)

(** The packet a sequence number stands for: the one near the start of the buffer. *)
Definition index_of (b : abuf) (seqno : Z) : Z := ab_first b + CSeqNo.seqoff (seq_of (ab_first b)) seqno.

Lemma seqoff_index x s : valid_seq s -> seq_of (x + CSeqNo.seqoff (seq_of x) s) = s /\ Z.abs (CSeqNo.seqoff (seq_of x) s) <= 2 ^ 30 + 1.
Proof.
  intros Hs. pose proof (seq_of_valid x) as Hx. unfold valid_seq, CSeqNo.m_iMaxSeqNo in *.
  assert (exists k, CSeqNo.seqoff (seq_of x) s = s - seq_of x + k * 2 ^ 31 /\ Z.abs (CSeqNo.seqoff (seq_of x) s) <= 2 ^ 30 + 1) as (k & Hk & Hb).
  { unfold CSeqNo.seqoff, CSeqNo.m_iSeqNoTH, CSeqNo.m_iMaxSeqNo, c_abs. unwrap_ints. split_ifs; unwrap_ints; [exists 0|exists (-1)|exists 1]; lia. }
  split; [|done]. rewrite Hk. replace (x + (s - seq_of x + k * 2 ^ 31)) with (s + (x - seq_of x) + k * 2 ^ 31) by lia. rewrite seq_of_shift.
  unfold seq_of at 2. replace (x - x mod 2 ^ 31) with (x / 2 ^ 31 * 2 ^ 31) by (pose proof (Z.div_mod x (2 ^ 31) ltac:(lia)); lia).
  rewrite seq_of_shift. by apply seq_of_id.
Qed.

Lemma index_of_seq b s : valid_seq s -> seq_of (index_of b s) = s.
Proof. intros H. by apply seqoff_index. Qed.

Definition a_insert (N : Z) (p : CPacket.t) (b : abuf) : Z * abuf :=
  let i := index_of b (CPacket.getSeqNo p) in
  if i <? ab_first b then (-2, b)
  else if i >=? ab_first b + (N - 1) then (-3, b)
  else
    let b := with_cells (ab_first b) (ab_cell b) (Z.max (ab_max b) (i + 1)) b in
    if bool_decide (status (ab_cell b i) = EntryState_Empty)
    then (0, refresh N (with_cells (ab_first b) (set_cell i (avail p) (ab_cell b)) (ab_max b) b))
    else (-1, b).

Lemma mode_off s b : rcore s b -> negb (tsbpd_on s) && m_bMessageAPI s = false.
Proof. intros C. destruct (rc_mode _ _ C) as [->| ->]; [done|]. apply andb_false_r. Qed.

Lemma core_counts s b bytes pkts avg : rcore s b -> rcore (set_counts bytes pkts avg s) b.
Proof. intros C. eapply core_ext; [eapply (core_fields s _ b (m_tsbpd s) C)|..]; try done. cbn. by rewrite (rc_clock _ _ C). Qed.

Lemma core_maxoff s b off max : rcore s b -> rcore (set_maxoff off s) (with_cells (ab_first b) (ab_cell b) max b).
Proof. intros C. eapply core_ext; [eapply (core_fields s _ b (m_tsbpd s) C)|..]; try done. cbn. by rewrite (rc_clock _ _ C). Qed.

Lemma insert_run s b p :
  rrep s b -> valid_seq (CPacket.getSeqNo p) ->
  exists s', insert p s = Some (fst (a_insert (m_szSize s) p b), s') /\ rrep s' (snd (a_insert (m_szSize s) p b)) /\ m_szSize s' = m_szSize s.
Proof.
  intros (C & P & R & S) Hp. destruct (seqoff_index (ab_first b) _ Hp) as [Hi Ho]. unfold insert, a_insert, capacity. rewrite (rs_seq _ _ P).
  fold (index_of b (CPacket.getSeqNo p)) in Hi. remember (index_of b (CPacket.getSeqNo p)) as i eqn:Ei. unfold index_of in Ei.
  replace (CSeqNo.seqoff (seq_of (ab_first b)) (CPacket.getSeqNo p)) with (i - ab_first b) in * by lia. rewrite !Z.geb_leb.
  destruct (Z.ltb_spec (i - ab_first b) 0), (Z.ltb_spec i (ab_first b)); try lia; [by exists s|].
  destruct (Z.leb_spec (m_szSize s - 1) (i - ab_first b)), (Z.leb_spec (ab_first b + (m_szSize s - 1)) i); try lia; [by exists s|].
  pose proof (rs_max _ _ P) as Hm. pose proof (rs_maxoff _ _ P) as Hmo.
  set (s0 := if m_iMaxPosOff s <=? i - ab_first b then _ else s). set (b0 := with_cells (ab_first b) (ab_cell b) (Z.max (ab_max b) (i + 1)) b).
  assert (s0 = set_maxoff (Z.max (m_iMaxPosOff s) (i - ab_first b + 1)) s) as E0.
  { unfold s0. destruct (Z.leb_spec (m_iMaxPosOff s) (i - ab_first b)); [by rewrite Z.max_r by lia|rewrite Z.max_l by lia; by destruct s]. }
  assert (rcore s0 b0) as C0 by (rewrite E0; by apply core_maxoff).
  assert (rspan s0 b0) as P0.
  { rewrite E0. constructor; cbn; [apply (rs_seq _ _ P)|lia|unfold m_szSize in *; cbn; lia|]. intros j Hj%(rs_unit _ _ P). lia. }
  assert (rready s0 b0) as R0 by (rewrite E0; eapply ready_keep; [exact R|..]; try done; cbn; lia).
  assert (m_szSize s0 = m_szSize s) as Z0 by (by rewrite E0). assert (m_iStartPos s0 = m_iStartPos s) as St0 by (by rewrite E0).
  assert ((m_iStartPos s + (i - ab_first b)) mod m_szSize s = at_ s0 b0 i) as -> by (unfold at_; by rewrite Z0, St0).
  rewrite (entry_at _ _ C0 i) by (cbn; lia). cbn [mbind option_bind ab_cell b0 with_cells]. fold b0.
  change (ab_cell b0 i) with (ab_cell b i). destruct (decide (status (ab_cell b i) = EntryState_Empty)) as [He|He].
  2: { rewrite !bool_decide_eq_false_2 by done. cbn [negb fst snd]. exists s0. split_and!; done. }
  rewrite !bool_decide_eq_true_2 by done. cbn [negb].
  destruct (ring_set _ (rep_bounds _ _ C0) _ _ _ _ i (avail p) (rc_ring _ _ C0)) as (a & E & _); [cbn; lia|]. fold (at_ s0 b0 i) in E. unfold avail in E. rewrite E. cbn [mbind option_bind].
  set (b1 := with_cells (ab_first b) (set_cell i (avail p) (ab_cell b)) (Z.max (ab_max b) (i + 1)) b).
  assert (rcore (set_entries a s0) b1) as C1.
  { eapply core_ext; [apply (core_set s0 b0 C0 i _ a ltac:(cbn; lia) E); by rewrite Hi|..]; done. }
  set (s1 := countBytes 1 _ (set_entries a s0)). assert (rcore s1 b1) as C1' by (by apply core_counts).
  assert (m_szSize s1 = m_szSize s0) as Z1 by (unfold m_szSize, s1, countBytes; cbn; by rewrite (aset_length _ _ _ _ E)).
  assert (has_unit (ab_cell b i) = false) as Hn.
  { rewrite (avail_unit _ _ C). unfold is_avail. by rewrite He. }
  assert (rspan s1 b1) as P1.
  { destruct P0 as [Q1 Q2 Q3 Q4]. constructor; try done; [rewrite Z1; done|]. intros j. cbn. unfold set_cell. destruct (Z.eqb_spec j i) as [->|]; [lia|]. apply Q4. }
  assert (rready s1 b1) as R1.
  { eapply ready_keep; [exact R0|..]; try done. intros j Hj. cbn. unfold set_cell. destruct (Z.eqb_spec j i) as [->|]; [|done].
    pose proof (rd_unit _ _ R0 _ Hj) as Hu. cbn in Hu. congruence. }
  pose proof (mode_off _ _ C1') as Hoff. rewrite Hoff. cbn [andb mbind option_bind].
  destruct (updateNonreadPos_run s1 b1 C1' P1 R1) as (pos & -> & C2 & P2 & R2). cbn [mbind option_bind fst snd].
  eexists. split; [reflexivity|]. rewrite Z1, Z0 in *. split_and!; [|done]. split_and!; [done..|].
  unfold settled in *. rewrite refresh_first. cbn. unfold set_cell. destruct (Z.eqb_spec (ab_first b) i); done.
Qed.

(** ** Dropping up to a packet *)

(** The clock after [n] cells from [i] on have left the buffer. *)
Fixpoint ticks (n : nat) (i : Z) (c : Z -> Entry) (k : CTsbpdTime.t) : CTsbpdTime.t :=
  match n with O => k | S m => ticks m (i + 1) c (tick (c i) k) end.

(** How many of the [n] cells from [i] on satisfy [f]. *)
Fixpoint count_cells (f : Entry -> bool) (n : nat) (i : Z) (c : Z -> Entry) : Z :=
  match n with O => 0 | S m => (if f (c i) then 1 else 0) + count_cells f m (i + 1) c end.

Definition is_missing (e : Entry) : bool := bool_decide (status e = EntryState_Empty).

Lemma ticks_ext n i c c' k : (forall j, i <= j -> c' j = c j) -> ticks n i c' k = ticks n i c k.
Proof. revert i k. induction n as [|m IH]; intros i k E; cbn; [done|]. rewrite E by lia. apply IH. intros j Hj. apply E. lia. Qed.

Lemma count_cells_ext f n i c c' : (forall j, i <= j -> c' j = c j) -> count_cells f n i c' = count_cells f n i c.
Proof. revert i. induction n as [|m IH]; intros i E; cbn; [done|]. rewrite E by lia. f_equal. apply IH. intros j Hj. apply E. lia. Qed.

Lemma ticks_enabled n i c k : CTsbpdTime.isEnabled (ticks n i c k) = CTsbpdTime.isEnabled k.
Proof. revert i k. induction n as [|m IH]; intros i k; cbn; [done|]. by rewrite IH, tick_enabled. Qed.

Definition a_dropUpTo (N seqno : Z) (b : abuf) : Z * Z * abuf :=
  let k := index_of b seqno in
  if k <=? ab_first b then (0, 0, b)
  else
    let n := Z.to_nat (k - ab_first b) in
    let b1 := with_clock (ticks n (ab_first b) (ab_cell b) (ab_clock b)) (with_cells k (clear_below k (ab_cell b)) (Z.max (ab_max b) k) b) in
    let b2 := settle (S (Z.to_nat N)) b1 in
    (count_cells is_missing n (ab_first b) (ab_cell b), count_cells is_avail n (ab_first b) (ab_cell b),
      if ab_ready b2 <? ab_first b2 then refresh N (with_ready (ab_first b2) b2) else b2).

Lemma kill_parts s b i v :
  rcore s b -> ab_first b <= i < ab_first b + m_szSize s -> v <> EntryState_Avail ->
  exists r s', dropUnitInPos (at_ s b i) s = Some r /\ mark v (at_ s b i) (snd r) = Some s' /\ frame s s' /\ rcore s' (kill v i b).
Proof.
  intros C Hi Hv. destruct (kill_run s b C i Hi v Hv) as (s' & E & F & K). destruct (dropUnitInPos (at_ s b i) s) as [r|]; [|done]. by exists r, s'.
Qed.

Lemma drop_entries_run n s b dropped discarded :
  rcore s b ->
  exists s', drop_entries n dropped discarded s
      = Some (dropped + count_cells is_missing n (ab_first b) (ab_cell b), discarded + count_cells is_avail n (ab_first b) (ab_cell b), s')
    /\ rcore s' (with_clock (ticks n (ab_first b) (ab_cell b) (ab_clock b))
         (with_cells (ab_first b + Z.of_nat n) (clear_below (ab_first b + Z.of_nat n) (ab_cell b)) (ab_max b) b))
    /\ m_iStartPos s' = (m_iStartPos s + Z.of_nat n) mod m_szSize s
    /\ m_iStartSeqNo s' = m_iStartSeqNo s /\ m_iFirstNonreadPos s' = m_iFirstNonreadPos s /\ m_iMaxPosOff s' = m_iMaxPosOff s /\ m_szSize s' = m_szSize s.
Proof.
  revert s b dropped discarded. induction n as [|n IH]; intros s b dropped discarded C.
  { exists s. cbn. rewrite !Z.add_0_r. split_and!; try done.
    - eapply core_ext; [exact C|..]; try done. intros i. cbn. unfold clear_below. destruct (Z.ltb_spec i (ab_first b)); [|done].
      symmetry. apply (rc_out _ _ C). lia.
    - symmetry. apply Z.mod_small, (rc_pos _ _ C). }
  cbn [drop_entries]. pose proof (rc_size _ _ C) as HN. rewrite <- (at_first _ _ C), (entry_at _ _ C) by lia. cbn [mbind option_bind].
  destruct (kill_parts s b (ab_first b) EntryState_Empty C) as (r & s1 & E1 & E2 & F & C1); [lia|done|]. rewrite E1. cbn [mbind option_bind]. rewrite E2. cbn [mbind option_bind].
  rewrite (at_first _ _ C). destruct F as (F1 & F2 & F3 & F4 & F5).
  set (b1 := with_cells (ab_first b + 1) (ab_cell (kill EntryState_Empty (ab_first b) b)) (ab_max b) (kill EntryState_Empty (ab_first b) b)).
  match goal with |- context [drop_entries n ?x ?y ?z] => destruct (IH z b1 x y) as (s' & E & C' & G1 & G2 & G3 & G4 & G5) end.
  { eapply core_ext; [apply (core_shift _ _ _ _ C1)|..]; try done. cbn. unfold set_cell. by rewrite Z.eqb_refl. }
  assert (forall j, ab_first b + 1 <= j -> ab_cell b1 j = ab_cell b j) as Hc.
  { intros j Hj. cbn. unfold set_cell. destruct (Z.eqb_spec j (ab_first b)); [lia|done]. }
  exists s'. split_and!.
  - rewrite E. change (ab_first b1) with (ab_first b + 1). cbn [count_cells]. rewrite !(count_cells_ext _ _ _ _ _ Hc). unfold is_missing at 2.
    do 3 f_equal; destruct (bool_decide _), (is_avail _); lia.
  - eapply core_ext; [exact C'|..]; try done.
    + intros j. cbn. unfold clear_below, set_cell.
      destruct (Z.ltb_spec j (ab_first b + Z.of_nat (S n))), (Z.ltb_spec j (ab_first b + 1 + Z.of_nat n)); try lia; [done|]. destruct (Z.eqb_spec j (ab_first b)); [lia|done].
    + cbn. lia.
    + cbn. symmetry. apply ticks_ext. intros j Hj. by apply Hc.
  - rewrite G1. unfold m_szSize. cbn [m_entries set_start m_iStartPos]. fold (m_szSize s1). unfold incPos. rewrite F2, F5, Zplus_mod_idemp_l. f_equal. lia.
  - rewrite G2. done.
  - rewrite G3. done.
  - rewrite G4. done.
  - rewrite G5. done.
Qed.

(** After the start of the buffer has moved: the old first packet not ready may be
    behind it. [held b]: the packets ready, as far as they are still there. *)
Record held (s : t) (b : abuf) : Prop := mkHeld {
  hd_nonread : m_iFirstNonreadPos s = (m_iStartPos s + (ab_ready b - ab_first b)) mod m_szSize s;
  hd_max : ab_ready b <= ab_max b;
  hd_near : ab_max b < ab_ready b + m_szSize s \/ ab_max b = ab_first b;
  hd_unit : forall i, ab_first b <= i < ab_ready b -> has_unit (ab_cell b i) = true;
  hd_last : ab_api b = true -> ab_first b < ab_ready b -> exists p, pkt_at b (ab_ready b - 1) = Some p /\ has_last p = true
}.

Lemma core_with_ready s b r : rcore s b -> rcore s (with_ready r b).
Proof. intros C. by eapply core_ext; [exact C|..]. Qed.
Lemma span_with_ready s b r : rspan s b -> rspan s (with_ready r b).
Proof. intros []. by constructor. Qed.

(** [isInRange] keeps the position unless the start has gone past it. *)
Lemma in_range_keeps s b :
  rcore s b -> rspan s b -> held s b -> nonread_in_range s = true ->
  rready s (with_ready (Z.max (ab_ready b) (ab_first b)) b) /\ (ab_ready b < ab_first b -> ab_max b = ab_first b).
Proof.
  intros C P [H1 H2 H3 H4 H5] Hin. pose proof (rc_size _ _ C) as HN. pose proof (rs_max _ _ P) as Hm. unfold nonread_in_range in Hin.
  destruct (Z.le_gt_cases (ab_first b) (ab_ready b)) as [Hge|Hlt].
  { split; [|lia]. rewrite Z.max_l by lia. by constructor. }
  set (j := ab_first b + (ab_ready b - ab_first b) mod m_szSize s).
  pose proof (Z.mod_pos_bound (ab_ready b - ab_first b) (m_szSize s) ltac:(lia)) as Hj.
  assert (m_iFirstNonreadPos s = at_ s b j) as Ej.
  { rewrite H1. unfold at_, j. replace (ab_first b + (ab_ready b - ab_first b) mod m_szSize s - ab_first b) with ((ab_ready b - ab_first b) mod m_szSize s) by lia.
    by rewrite Zplus_mod_idemp_r. }
  rewrite Ej, (in_range_at _ _ C) in Hin by (done || lia). apply Z.leb_le in Hin.
  assert (ab_ready b + m_szSize s <= j) as Hjr.
  { unfold j. rewrite (Z.mod_eq (ab_ready b - ab_first b)) by lia. pose proof (Z.div_lt_upper_bound (ab_ready b - ab_first b) (m_szSize s) 0 ltac:(lia) ltac:(lia)). nia. }
  assert (ab_max b = ab_first b) as Em by lia. assert (j = ab_first b) as Ejf by lia. split; [|done].
  rewrite Z.max_r by lia. constructor; cbn; [|lia..].
  rewrite Ej, Ejf, (at_first _ _ C), Z.sub_diag, Z.add_0_r, Z.mod_small; [done|apply (rc_pos _ _ C)].
Qed.

Lemma in_range_drops s b : rcore s b -> rspan s b -> held s b -> nonread_in_range s = false -> ab_ready b < ab_first b.
Proof.
  intros C P [H1 H2 H3 H4 H5] Hin. destruct (Z.lt_ge_cases (ab_ready b) (ab_first b)) as [|Hge]; [done|]. pose proof (rs_max _ _ P) as Hm.
  unfold nonread_in_range in Hin. rewrite H1 in Hin. fold (at_ s b (ab_ready b)) in Hin. rewrite (in_range_at _ _ C) in Hin by (done || lia).
  apply Z.leb_gt in Hin. lia.
Qed.

(** The position is set to the start. *)
Lemma reset_ready s b : rcore s b -> rspan s b -> rready (set_nonread (m_iStartPos s) s) (with_ready (ab_first b) b).
Proof.
  intros C P. pose proof (rs_max _ _ P). constructor; cbn; [|lia..]. rewrite Z.sub_diag, Z.add_0_r. symmetry. apply Z.mod_small, (rc_pos _ _ C).
Qed.

(** An empty buffer has nothing to look at. *)
Lemma refresh_empty N b : (forall j, has_unit (ab_cell b j) = true -> j < ab_max b) -> ab_max b <= ab_ready b -> refresh N b = b.
Proof.
  intros Hu Hr. unfold refresh. cbn [advance]. destruct (pkt_at b (ab_ready b)) eqn:E; [|by destruct b].
  assert (has_unit (ab_cell b (ab_ready b)) = true) as H%Hu by (apply has_unit_pkt; eauto). lia.
Qed.

Lemma with_ready_same b r : ab_ready b = r -> with_ready r b = b.
Proof. intros <-. by destruct b. Qed.

Lemma settle_run s b :
  rcore s b -> rspan s b ->
  let b' := settle (S (Z.to_nat (m_szSize s))) b in
  exists s', releaseNextFillerEntries (S (length (m_entries s))) s = Some s' /\ rcore s' b' /\ rspan s' b' /\ settled b' /\ settle_of b b'
    /\ m_iFirstNonreadPos s' = m_iFirstNonreadPos s /\ m_szSize s' = m_szSize s
    /\ (m_iStartPos s' = (m_iStartPos s + (ab_first b' - ab_first b)) mod m_szSize s).
Proof.
  intros C P. pose proof (rs_max _ _ P) as Hm. pose proof (rc_size _ _ C) as HN.
  assert (Z.to_nat (m_szSize s) = length (m_entries s)) as EN by (unfold m_szSize; lia). rewrite EN. cbn zeta.
  destruct (release_loop (S (length (m_entries s))) s b (ab_first b + m_szSize s)) as (s' & E & C' & P' & S' & N' & Z' & St); [done|done| |unfold m_szSize in *; lia..|].
  - intros i Hi. rewrite (rc_out _ _ C) by lia. done.
  - exists s'. split_and!; try done. apply settle_spec. lia.
Qed.

(** What the packets ready become when the fillers at the start are passed. *)
Lemma settle_held s b s' b' :
  held s b -> settle_of b b' -> rspan s b ->
  m_iFirstNonreadPos s' = m_iFirstNonreadPos s -> m_szSize s' = m_szSize s ->
  m_iStartPos s' = (m_iStartPos s + (ab_first b' - ab_first b)) mod m_szSize s -> held s' b'.
Proof.
  intros [H1 H2 H3 H4 H5] [S1 S2 S3 S4 S5 S6] P E1 E2 E3. pose proof (rs_max _ _ P) as Hm. injection S6 as _ _ Ea _. constructor; rewrite ?E1, ?E2, ?E3, ?S5.
  - rewrite H1, Zplus_mod_idemp_l. f_equal. lia.
  - lia.
  - lia.
  - intros i Hi. rewrite S3 by lia. apply H4. lia.
  - intros Ha Hlt. unfold pkt_at. rewrite S3 by lia. apply H5; [congruence|lia].
Qed.

Lemma dropUpTo_run s b seqno :
  rrep s b -> valid_seq seqno ->
  let '(dropped, discarded, b') := a_dropUpTo (m_szSize s) seqno b in
  exists s', dropUpTo seqno s = Some (dropped, discarded, s') /\ rrep s' b' /\ m_szSize s' = m_szSize s.
Proof.
  intros (C & P & R & S) Hs. pose proof (index_of_seq b _ Hs) as Hk. pose proof (seqoff_index (ab_first b) _ Hs) as [_ Ho].
  unfold a_dropUpTo, dropUpTo. rewrite (rs_seq _ _ P). remember (index_of b seqno) as k eqn:Ek. unfold index_of in Ek.
  replace (CSeqNo.seqoff (seq_of (ab_first b)) seqno) with (k - ab_first b) in * by lia.
  destruct (Z.leb_spec (k - ab_first b) 0), (Z.leb_spec k (ab_first b)); try lia; [by exists s|].
  pose proof (rs_max _ _ P) as Hm. pose proof (rs_maxoff _ _ P) as Hmo. pose proof (rc_size _ _ C) as HN. pose proof (rd_ready _ _ R) as Hr.
  rewrite i32_id by (unfold is_i32; lia). set (n := Z.to_nat (k - ab_first b)).
  destruct (drop_entries_run n _ _ 0 0 (core_maxoff s b (Z.max 0 (m_iMaxPosOff s - (k - ab_first b))) (ab_max b) C)) as (s1 & E1 & C1 & G1 & G2 & G3 & G4 & G5).
  rewrite E1. cbn [mbind option_bind ab_first ab_cell ab_clock with_cells] in *. rewrite !Z.add_0_l.
  replace (ab_first b + Z.of_nat n) with k in C1 by lia. cbn in G1, G2, G3, G4, G5.
  set (b1 := with_clock _ _). set (s2 := set_start seqno (m_iStartPos s1) (m_iMaxPosOff s1) s1).
  assert (rcore s2 b1) as C2.
  { eapply core_ext; [eapply (core_fields s1 s2 _ (m_tsbpd s1) C1)|..]; try done. cbn. by rewrite (rc_clock _ _ C1). }
  assert (m_szSize s2 = m_szSize s) as Z2 by (by unfold s2). assert (m_iStartPos s2 = (m_iStartPos s + (k - ab_first b)) mod m_szSize s) as St2.
  { cbn. rewrite G1. unfold m_szSize. cbn. do 2 f_equal. lia. }
  assert (rspan s2 b1) as P2.
  { constructor; cbn [s2 b1 set_start ab_first ab_max ab_cell m_iStartSeqNo m_iMaxPosOff with_clock with_cells]; [done|lia|rewrite Z2; lia|].
    intros i. unfold clear_below. destruct (Z.ltb_spec i k); [done|]. intros Hu%(rs_unit _ _ P). lia. }
  assert (held s2 b1) as H2.
  { constructor; cbn [b1 ab_first ab_ready ab_max ab_cell ab_api with_clock with_cells].
    - rewrite Z2, St2, Zplus_mod_idemp_l. cbn. rewrite G3, (rd_nonread _ _ R). f_equal. lia.
    - lia.
    - lia.
    - intros i Hi. unfold clear_below. destruct (Z.ltb_spec i k); [lia|]. apply (rd_unit _ _ R). lia.
    - intros Ha Hlt. unfold pkt_at. cbn. unfold clear_below. destruct (Z.ltb_spec (ab_ready b - 1) k); [lia|]. apply (rd_last _ _ R); [done|lia]. }
  destruct (settle_run s2 b1 C2 P2) as (s3 & E3 & C3 & P3 & S3 & St3 & N3 & Z3 & T3). rewrite Z2 in *. set (b2 := settle _ b1) in *.
  change (m_entries s2) with (m_entries s1) in E3. rewrite E3. cbn [mbind option_bind]. pose proof (settle_held _ _ _ _ H2 St3 P2 N3 ltac:(congruence) ltac:(congruence)) as H3.
  destruct (nonread_in_range s3) eqn:Hin.
  - cbn [mbind option_bind]. rewrite (mode_off _ _ C3). cbn [mbind option_bind]. exists s3. split; [done|]. split; [|congruence].
    destruct (in_range_keeps _ _ C3 P3 H3 Hin) as [R3 Hemp]. destruct (Z.ltb_spec (ab_ready b2) (ab_first b2)) as [Hlt|Hge].
    + rewrite refresh_empty; [|apply (rs_unit _ _ P3)|change (ab_max b2 <= ab_first b2); rewrite Hemp; lia]. rewrite Z.max_r in R3 by lia.
      split_and!; [by apply core_with_ready|by apply span_with_ready|done|done].
    + rewrite Z.max_l, with_ready_same in R3 by (done || lia). done.
  - pose proof (in_range_drops _ _ C3 P3 H3 Hin) as Hlt. destruct (Z.ltb_spec (ab_ready b2) (ab_first b2)) as [_|]; [|lia].
    destruct (updateNonreadPos_run _ _ (core_ready _ _ C3 (m_iStartPos s3) (ab_first b2)) (span_ready _ _ P3 _ _) (reset_ready _ _ C3 P3)) as (pos & E & C4 & P4 & R4).
    rewrite E. cbn [mbind option_bind]. rewrite (mode_off _ _ C4). cbn [mbind option_bind].
    eexists. split; [reflexivity|]. assert (m_szSize (set_nonread (m_iStartPos s3) s3) = m_szSize s) as Z4 by (by rewrite <- Z3).
    rewrite Z4 in *. split; [|done]. split_and!; done.
Qed.

(** ** Reading a message *)

(** The first packet leaves the buffer. *)
Definition pop (b : abuf) : abuf :=
  with_clock (tick (ab_cell b (ab_first b)) (ab_clock b)) (with_cells (ab_first b + 1) (set_cell (ab_first b) empty_entry (ab_cell b)) (ab_max b) b).

(** A packet is added to the message being read; [k] is the clock it leaves behind. *)
Definition add_packet (rexmit : bool) (k : CTsbpdTime.t) (room : Z) (p : CPacket.t) (m : message) : message :=
  mkMessage (msg_data m ++ take (Z.to_nat (Z.min room (CPacket.getLength p))) (CPacket.m_pcData p))
    (if has_first p then Some (CPacket.getMsgSeq rexmit p) else msg_msgno m)
    (if has_last p then Some (CTsbpdTime.getPktTime (CPacket.getMsgTimeStamp p) k) else msg_srctime m)
    (Some (CPacket.getSeqNo p)).

Fixpoint a_read (fuel : nat) (room : Z) (m : message) (b : abuf) : message * abuf :=
  match fuel with
  | O => (m, b)
  | S f =>
    match pkt_at b (ab_first b) with
    | None => (m, b)
    | Some p =>
      let b := pop b in
      let m := add_packet (ab_rexmit b) (ab_clock b) room p m in
      if has_last p then (m, b) else a_read f (room - Z.min room (CPacket.getLength p)) m b
    end
  end.

Definition no_message : message := mkMessage [] None None None.

Definition a_readMessage (N len : Z) (b : abuf) : Z * message * abuf :=
  if ab_first b <? ab_ready b then
    let '(m, b1) := a_read (S (Z.to_nat N)) len no_message b in
    let b2 := settle (S (Z.to_nat N)) b1 in
    (Z.of_nat (length (msg_data m)), m, with_ready (Z.max (ab_ready b2) (ab_first b2)) b2)
  else (0, no_message, b).

Lemma a_read_rest fuel room m b :
  let b' := snd (a_read fuel room m b) in
  (ab_max b', ab_ready b', ab_notch b', ab_api b', ab_rexmit b') = (ab_max b, ab_ready b, ab_notch b, ab_api b, ab_rexmit b).
Proof.
  revert room m b. induction fuel as [|f IH]; intros room m b; cbn [a_read]; [done|]. destruct (pkt_at b (ab_first b)) as [p|]; [|done].
  destruct (has_last p); [done|]. cbn zeta. rewrite IH. done.
Qed.

Lemma pop_rep s s' b pos :
  rcore s b -> rspan s b -> held s b -> ab_first b < ab_ready b ->
  (exists e, s' = set_start (seq_of (ab_first b + 1)) pos (m_iMaxPosOff s - 1) e /\ frame s e /\ pos = incPos e (m_iStartPos e) 1
     /\ rcore e (with_clock (tick (ab_cell b (ab_first b)) (ab_clock b)) (with_cells (ab_first b) (set_cell (ab_first b) empty_entry (ab_cell b)) (ab_max b) b))) ->
  rcore s' (pop b) /\ rspan s' (pop b) /\ held s' (pop b) /\ m_szSize s' = m_szSize s.
Proof.
  intros C P H Hlt (e & -> & F & -> & Ce). destruct F as (F1 & F2 & F3 & F4 & F5). pose proof (rs_max _ _ P) as Hm. pose proof (hd_max _ _ H) as Hr.
  assert (m_szSize (set_start (seq_of (ab_first b + 1)) (incPos e (m_iStartPos e) 1) (m_iMaxPosOff s - 1) e) = m_szSize s) as Z' by (by rewrite <- F5).
  split_and!; [..|done].
  - eapply core_ext; [apply (core_shift _ _ _ _ Ce)|..]; try done. cbn. unfold set_cell. by rewrite Z.eqb_refl.
  - constructor; cbn; [done|rewrite (rs_maxoff _ _ P); lia|rewrite Z'; lia|]. intros i. unfold set_cell. destruct (Z.eqb_spec i (ab_first b)); [done|]. apply (rs_unit _ _ P).
  - destruct H as [H1 H2 H3 H4 H5]. constructor; rewrite ?Z'; cbn; unfold pkt_at; cbn.
    + rewrite F3, H1. unfold incPos. rewrite F2, F5, Zplus_mod_idemp_l. f_equal. lia.
    + lia.
    + lia.
    + intros i Hi. unfold set_cell. destruct (Z.eqb_spec i (ab_first b)); [lia|]. apply H4. lia.
    + intros Ha Hl. unfold set_cell. destruct (Z.eqb_spec (ab_ready b - 1) (ab_first b)); [lia|]. apply H5; [done|lia].
Qed.

Lemma api_tsbpd s b : rcore s b -> ab_api b = true -> tsbpd_on s = true.
Proof. intros C Ha. destruct (rc_mode _ _ C) as [|Hm]; [done|]. rewrite (proj1 (rc_const _ _ C)) in Hm. congruence. Qed.

Lemma read_packets_run fuel s b readPos room pkts bytes m :
  rcore s b -> rspan s b -> held s b -> ab_first b < ab_ready b -> ab_api b = true -> 0 <= readPos -> ab_ready b - ab_first b < Z.of_nat fuel ->
  exists pkts' bytes' s', read_packets fuel true readPos (m_iStartPos s) room pkts bytes m s = Some (pkts', bytes', fst (a_read fuel room m b), s')
    /\ rcore s' (snd (a_read fuel room m b)) /\ rspan s' (snd (a_read fuel room m b)) /\ held s' (snd (a_read fuel room m b)) /\ m_szSize s' = m_szSize s.
Proof.
  revert s b room pkts bytes m. induction fuel as [|f IH]; intros s b room pkts bytes m C P H Hlt Ha Hrp Hf; [lia|].
  pose proof (rc_size _ _ C) as HN. pose proof (rs_max _ _ P) as Hm. pose proof (hd_max _ _ H) as Hr. cbn [read_packets a_read].
  pose proof (entry_at _ _ C (ab_first b) ltac:(lia)) as Ee. rewrite (at_first _ _ C) in Ee. rewrite Ee. cbn [mbind option_bind].
  destruct (proj1 (has_unit_pkt b (ab_first b)) (hd_unit _ _ H (ab_first b) ltac:(lia))) as [p Hp]. rewrite Hp. unfold pkt_at in Hp. rewrite Hp.
  pose proof (rc_unit _ _ C _ _ Hp) as [_ Hseq]. pose proof (api_tsbpd _ _ C Ha) as Ht. rewrite Ht.
  set (k := CTsbpdTime.updateBaseTime (CPacket.getMsgTimeStamp p) (ab_clock b)).
  assert (tick (ab_cell b (ab_first b)) (ab_clock b) = k) as Ek.
  { unfold tick. rewrite Hp. unfold tsbpd_on in Ht. rewrite (rc_clock _ _ C) in Ht. by rewrite Ht. }
  set (s0 := updateTsbPdTimeBase (CPacket.getMsgTimeStamp p) s).
  assert (rcore s0 (with_clock k b)) as C0.
  { eapply core_fields; [exact C|..]; try done; cbn; rewrite (rc_clock _ _ C); [done|]. by rewrite <- Ek, tick_enabled. }
  change (m_numOutOfOrderPackets s0) with (m_numOutOfOrderPackets s). rewrite (proj1 (rc_ooo _ _ C)). cbn [Z.eqb negb andb].
  destruct (release_run s0 _ C0 (ab_first b)) as (s1 & E1 & F1 & T1 & C1); [change (m_szSize s0) with (m_szSize s); cbn; lia|].
  assert (at_ s0 (with_clock k b) (ab_first b) = m_iStartPos s) as Eat by apply (at_first _ _ C0). rewrite Eat in E1. rewrite E1. cbn [mbind option_bind].
  pose proof F1 as (G1 & G2 & G3 & G4 & G5). pose proof (rs_maxoff _ _ P) as Hmo.
  rewrite Hseq, incseq_seq_of, G4. change (m_iMaxPosOff s0) with (m_iMaxPosOff s). rewrite (i32_id (m_iMaxPosOff s - 1)) by (unfold is_i32; lia).
  set (s2 := set_start _ _ _ s1).
  destruct (pop_rep s s2 b (incPos s1 (m_iStartPos s) 1) C P H Hlt) as (C2 & P2 & H2 & Z2).
  { exists s1. split_and!; try done; [by rewrite G2|]. by rewrite Ek. }
  assert (m_bPeerRexmitFlag s0 = ab_rexmit (pop b)) as -> by apply (rc_const _ _ C).
  assert (getPktTsbPdTime (CPacket.getMsgTimeStamp p) s0 = CTsbpdTime.getPktTime (CPacket.getMsgTimeStamp p) (ab_clock (pop b))) as ->.
  { unfold getPktTsbPdTime. f_equal. cbn. by rewrite (rc_clock _ _ C), Ek. }
  rewrite <- Hseq. change (mkMessage _ _ _ _) with (add_packet (ab_rexmit (pop b)) (ab_clock (pop b)) room p m).
  destruct (has_last p) eqn:El.
  - rewrite (proj2 (rc_ooo _ _ C2)). destruct (Z.eqb_spec readPos (-1)); [lia|]. cbn [fst snd]. eexists _, _, s2. split_and!; done.
  - assert (ab_first (pop b) < ab_ready (pop b)) as Hlt2.
    { cbn. destruct (Z.eq_dec (ab_first b + 1) (ab_ready b)) as [E|]; [|lia]. destruct (hd_last _ _ H Ha Hlt) as (q & Hq & Hql).
      replace (ab_ready b - 1) with (ab_first b) in Hq by lia. unfold pkt_at in Hq. congruence. }
    destruct (IH s2 (pop b) (room - Z.min room (CPacket.getLength p)) (pkts + 1) (i32 (bytes + CPacket.getLength p))
      (add_packet (ab_rexmit (pop b)) (ab_clock (pop b)) room p m) C2 P2 H2 Hlt2 Ha Hrp) as (pkts' & bytes' & s' & E & R); [cbn; lia|].
    exists pkts', bytes', s'. rewrite Z2 in R. split; [|exact R]. rewrite <- E. f_equal.
Qed.

Lemma inorder_ready s b : rcore s b -> rspan s b -> rready s b -> hasReadableInorderPkts s = (ab_first b <? ab_ready b).
Proof.
  intros C P R. pose proof (rs_max _ _ P) as Hm. pose proof (rd_ready _ _ R) as Hr. pose proof (rd_nonread _ _ R) as E. fold (at_ s b (ab_ready b)) in E.
  pose proof (at_first _ _ C) as E0. unfold hasReadableInorderPkts. destruct (Z.eqb_spec (m_iFirstNonreadPos s) (m_iStartPos s)) as [Eq|Hne].
  - rewrite E, <- E0 in Eq. apply (at_inj _ _ C) in Eq; [|lia..]. destruct (Z.ltb_spec (ab_first b) (ab_ready b)); [lia|done].
  - destruct (Z.ltb_spec (ab_first b) (ab_ready b)); [done|]. exfalso. apply Hne. rewrite E, <- E0. f_equal. lia.
Qed.

Lemma ready_held s b : rspan s b -> rready s b -> held s b.
Proof. intros P []. pose proof (rs_max _ _ P). constructor; try done; lia. Qed.

Lemma readMessage_run s b len :
  rrep s b -> ab_api b = true ->
  let '(n, m, b') := a_readMessage (m_szSize s) len b in
  exists s', readMessage len s = Some (n, m, s') /\ rrep s' b' /\ m_szSize s' = m_szSize s.
Proof.
  intros (C & P & R & S) Ha. unfold a_readMessage, readMessage. rewrite (inorder_ready _ _ C P R), (proj2 (rc_ooo _ _ C)).
  destruct (Z.ltb_spec (ab_first b) (ab_ready b)) as [Hlt|]; [|by exists s]. cbn [negb andb]. rewrite Z.eqb_refl.
  pose proof (rs_max _ _ P) as Hm. pose proof (rd_ready _ _ R) as Hr. pose proof (rc_pos _ _ C) as Hpos.
  destruct (read_packets_run (Datatypes.S (length (m_entries s))) s b (m_iStartPos s) len 0 0 no_message C P (ready_held _ _ P R)) as (pkts & bytes & s1 & E1 & C1 & P1 & H1 & Z1);
    [done|done|lia|unfold m_szSize in *; lia|]. fold no_message. rewrite E1. cbn [mbind option_bind].
  assert (Z.to_nat (m_szSize s) = length (m_entries s)) as -> by (unfold m_szSize; lia).
  pose proof (a_read_rest (Datatypes.S (length (m_entries s))) len no_message b) as Er. destruct (a_read _ len no_message b) as [m b1]. injection Er as _ _ _ Ea _. cbn [fst snd] in *.
  set (s2 := countBytes (- pkts) (- bytes) s1). assert (rcore s2 b1) as C2 by (by apply core_counts).
  assert (rspan s2 b1) as P2 by (destruct P1; by constructor). assert (held s2 b1) as H2 by (destruct H1; by constructor).
  destruct (settle_run s2 b1 C2 P2) as (s3 & E3 & C3 & P3 & S3 & St3 & N3 & Z3 & T3). change (m_szSize s2) with (m_szSize s1) in *.
  change (m_entries s2) with (m_entries s1) in *. rewrite E3. cbn [mbind option_bind].
  assert (Z.to_nat (m_szSize s1) = length (m_entries s)) as EN by (rewrite Z1; unfold m_szSize; lia). rewrite EN in *. set (b2 := settle _ b1) in *.
  pose proof (settle_held _ _ _ _ H2 St3 P2 N3 Z3 T3) as H3.
  assert (tsbpd_on s3 = true) as Ht by (apply (api_tsbpd _ _ C3); pose proof (st_rest _ _ St3) as Q; injection Q as _ _ -> _; congruence).
  rewrite Z1 in Z3. exists (if nonread_in_range s3 then s3 else set_nonread (m_iStartPos s3) s3). split; [|split].
  - destruct (nonread_in_range s3); unfold tsbpd_on in *; cbn [m_tsbpd set_nonread]; rewrite Ht; reflexivity.
  - destruct (nonread_in_range s3) eqn:Hin.
    + destruct (in_range_keeps _ _ C3 P3 H3 Hin) as [R3 _]. split_and!; [by apply core_with_ready|by apply span_with_ready|done|done].
    + pose proof (in_range_drops _ _ C3 P3 H3 Hin). rewrite Z.max_r by lia. split_and!; [by apply core_ready|by apply span_ready|by apply reset_ready|done].
  - by destruct (nonread_in_range s3).
Qed.

(** ** Dropping a message *)

Definition holds (f : CPacket.t -> bool) (e : Entry) : bool := match pUnit e with Some p => f p | None => false end.

(** [n] cells from [i] on; the results as those of [drop_range]. *)
Fixpoint a_drop_range (n : nat) (keep : bool) (i : Z) (bymsg : bool) (cnt minoff : Z) (b : abuf) : bool * Z * Z * abuf :=
  match n with
  | O => (bymsg, cnt, minoff, b)
  | S m =>
    let e := ab_cell b i in
    if bool_decide (status e = EntryState_Drop) then a_drop_range m keep (i + 1) bymsg cnt minoff b
    else if keep && holds is_solo e then a_drop_range m keep (i + 1) false cnt minoff b
    else
      a_drop_range m keep (i + 1) (bymsg && negb (holds is_first e)) (cnt + 1) (if minoff =? -1 then i - ab_first b else minoff)
        (kill EntryState_Drop i b)
  end.

(** [n] cells from [i] downwards. *)
Fixpoint a_drop_left (n : nat) (keep : bool) (msgno i cnt minoff : Z) (b : abuf) : Z * Z * abuf :=
  match n with
  | O => (cnt, minoff, b)
  | S m =>
    match pkt_at b i with
    | None => a_drop_left m keep msgno (i - 1) cnt minoff b
    | Some p =>
      if negb (CPacket.getMsgSeq (ab_rexmit b) p =? msgno) then (cnt, minoff, b)
      else if keep && is_solo p then (cnt, minoff, b)
      else
        let b' := kill EntryState_Drop i b in
        if is_first p then (cnt + 1, i - ab_first b, b') else a_drop_left m keep msgno (i - 1) (cnt + 1) (i - ab_first b) b'
    end
  end.

Definition a_dropMessage (N lo hi msgno : Z) (keep : bool) (b : abuf) : Z * abuf :=
  let x := index_of b lo in
  let y := index_of b hi in
  if (y <? ab_first b) || (ab_first b + N <=? x) then (0, b)
  else
    let from := Z.max (ab_first b) x in
    let to := Z.min (ab_first b + (N - 1)) (y + 1) in
    let '(bymsg, cnt, minoff, b1) := a_drop_range (Z.to_nat (to - from)) keep from (msgno >? SRT_MSGNO_CONTROL) 0 (-1) b in
    let '(cnt, minoff, b2) :=
      if bymsg then a_drop_left (Z.to_nat (if from =? ab_first b + (N - 1) then 0 else from - ab_first b + 1)) keep msgno from cnt minoff b1
      else (cnt, minoff, b1) in
    let b3 := settle (S (Z.to_nat N)) b2 in
    (cnt, if negb (minoff =? -1) && (minoff <=? ab_ready b - ab_first b) then refresh N (with_ready (ab_first b3) b3) else b3).

(** Cells have been dropped, and nothing else. *)
Record killed (b b' : abuf) : Prop := mkKilled {
  kd_rest : (ab_first b', ab_max b', ab_ready b', ab_notch b', ab_api b', ab_rexmit b') = (ab_first b, ab_max b, ab_ready b, ab_notch b, ab_api b, ab_rexmit b);
  kd_cell : forall j, ab_cell b' j = ab_cell b j \/ ab_cell b' j = mkEntry None EntryState_Drop
}.

#[export] Instance killed_preorder : PreOrder killed.
Proof.
  split.
  - intros b. constructor; auto.
  - intros b1 b2 b3 [R1 C1] [R2 C2]. constructor; [congruence|]. intros j. destruct (C2 j) as [->|]; auto.
Qed.

Lemma kill_killed i b : killed b (kill EntryState_Drop i b).
Proof. constructor; [done|]. intros j. cbn. unfold set_cell. destruct (j =? i); auto. Qed.

(** The least offset dropped: nothing before it has changed. *)
Definition untouched (b b' : abuf) (minoff : Z) : Prop :=
  killed b b' /\ (minoff = -1 -> forall j, ab_cell b' j = ab_cell b j)
  /\ (minoff <> -1 -> 0 <= minoff /\ forall j, j < ab_first b + minoff -> ab_cell b' j = ab_cell b j).

Lemma untouched_refl b : untouched b b (-1).
Proof. split; [reflexivity|done]. Qed.

Lemma a_drop_range_untouched n keep b0 i bymsg cnt minoff b :
  untouched b0 b minoff -> ab_first b0 <= i -> (minoff <> -1 -> minoff <= i - ab_first b0) ->
  let '(_, _, minoff', b') := a_drop_range n keep i bymsg cnt minoff b in untouched b0 b' minoff'.
Proof.
  revert i bymsg cnt minoff b. induction n as [|m IH]; intros i bymsg cnt minoff b U Hi Hm; [done|]. cbn [a_drop_range].
  destruct (bool_decide _); [apply IH; [done|lia|lia]|]. destruct (keep && holds is_solo (ab_cell b i)); [apply IH; [done|lia|lia]|].
  destruct U as (K & U1 & U2). pose proof (kd_rest _ _ K) as R. injection R as Ef _ _ _ _ _. rewrite Ef.
  apply IH; [|lia|destruct (Z.eqb_spec minoff (-1)); lia].
  assert (forall j, j <> i -> ab_cell (kill EntryState_Drop i b) j = ab_cell b j) as Hk.
  { intros j Hj. cbn. unfold set_cell. destruct (Z.eqb_spec j i); [lia|done]. }
  split; [etransitivity; [exact K|apply kill_killed]|]. destruct (Z.eqb_spec minoff (-1)) as [->|Hne].
  - split; [lia|]. intros _. split; [lia|]. intros j Hj. rewrite Hk by lia. by apply U1.
  - split; [lia|]. intros _. destruct (U2 Hne) as [U3 U4]. split; [done|]. intros j Hj. specialize (Hm Hne). rewrite Hk by lia. by apply U4.
Qed.

Lemma a_drop_range_min n keep x i bymsg cnt minoff b :
  (minoff <> -1 -> x <= minoff) -> x <= i - ab_first b ->
  let '(_, _, minoff', _) := a_drop_range n keep i bymsg cnt minoff b in minoff' <> -1 -> x <= minoff'.
Proof.
  revert i bymsg cnt minoff b. induction n as [|m IH]; intros i bymsg cnt minoff b Hm Hi; [done|]. cbn [a_drop_range].
  destruct (bool_decide _); [apply IH; [done|lia]|]. destruct (keep && _); [apply IH; [done|lia]|].
  apply IH; [destruct (Z.eqb_spec minoff (-1)); lia|cbn; lia].
Qed.

Lemma a_drop_left_untouched n keep msgno b0 i cnt minoff b :
  untouched b0 b minoff -> Z.of_nat n <= i - ab_first b0 + 1 -> (minoff <> -1 -> i - ab_first b0 <= minoff) ->
  let '(_, minoff', b') := a_drop_left n keep msgno i cnt minoff b in untouched b0 b' minoff'.
Proof.
  revert i cnt minoff b. induction n as [|m IH]; intros i cnt minoff b U Hi Hm; [done|]. cbn [a_drop_left].
  destruct (pkt_at b i) as [p|]; [|apply IH; [done|lia|lia]]. destruct (negb _); [done|]. destruct (keep && is_solo p); [done|].
  destruct U as (K & U1 & U2). pose proof (kd_rest _ _ K) as R. injection R as Ef _ _ _ _ _. rewrite Ef.
  assert (untouched b0 (kill EntryState_Drop i b) (i - ab_first b0)) as U'.
  { split; [etransitivity; [exact K|apply kill_killed]|]. split; [lia|]. intros _. split; [lia|]. intros j Hj. cbn. unfold set_cell.
    destruct (Z.eqb_spec j i); [lia|]. destruct (Z.eq_dec minoff (-1)) as [->|Hne]; [by apply U1|]. apply U2; [done|]. specialize (Hm Hne). lia. }
  destruct (is_first p); [done|]. apply IH; [done|lia|lia].
Qed.

Lemma frame_trans s1 s2 s3 : frame s1 s2 -> frame s2 s3 -> frame s1 s3.
Proof. unfold frame. intros (-> & -> & -> & -> & ->) H. exact H. Qed.

Lemma frame_refl s : frame s s. Proof. done. Qed.

Lemma drop_range_run n fuel s b keep i bymsg cnt minoff :
  rcore s b -> ab_first b <= i -> i + Z.of_nat n < ab_first b + m_szSize s -> (n <= fuel)%nat ->
  let '(bymsg', cnt', minoff', b') := a_drop_range n keep i bymsg cnt minoff b in
  exists s', drop_range fuel keep (at_ s b (i + Z.of_nat n)) (at_ s b i) bymsg cnt minoff s = Some (bymsg', cnt', minoff', s')
    /\ rcore s' b' /\ frame s s'.
Proof.
  revert fuel s b i bymsg cnt minoff. induction n as [|m IH]; intros fuel s b i bymsg cnt minoff C Hi Hn Hf.
  { cbn [a_drop_range]. exists s. rewrite Z.add_0_r. split; [|done]. destruct fuel; cbn [drop_range]; by rewrite Z.eqb_refl. }
  destruct fuel as [|f]; [lia|]. cbn [a_drop_range drop_range].
  destruct (Z.eqb_spec (at_ s b i) (at_ s b (i + Z.of_nat (S m)))) as [E%(at_inj _ _ C)|_]; [lia..|].
  rewrite (entry_at _ _ C i) by lia. cbn [mbind option_bind]. rewrite (at_next _ _ C). replace (i + Z.of_nat (S m)) with (i + 1 + Z.of_nat m) by lia.
  destruct (bool_decide _); [apply IH; [done|lia..]|]. fold (holds is_solo (ab_cell b i)). destruct (keep && holds is_solo (ab_cell b i)); [apply IH; [done|lia..]|].
  fold (holds is_first (ab_cell b i)). destruct (kill_parts s b i EntryState_Drop C) as (r & s1 & E1 & E2 & F & C1); [lia|done|].
  rewrite E1. cbn [mbind option_bind]. rewrite E2. cbn [mbind option_bind]. pose proof F as (F1 & F2 & F3 & F4 & F5).
  assert (forall j, at_ s b j = at_ s1 (kill EntryState_Drop i b) j) as Eat by (intros j; unfold at_; by rewrite F2, F5).
  rewrite !Eat. rewrite (offPos_at _ _ C1) by (cbn; lia). change (ab_first (kill EntryState_Drop i b)) with (ab_first b).
  specialize (IH f s1 (kill EntryState_Drop i b) (i + 1) (bymsg && negb (holds is_first (ab_cell b i))) (cnt + 1) (if minoff =? -1 then i - ab_first b else minoff) C1).
  destruct (a_drop_range m _ _ _ _ _ _) as [[[bymsg' cnt'] minoff'] b']. destruct IH as (s' & E & C' & F'); [cbn; lia..|].
  exists s'. split_and!; [exact E|done|by eapply frame_trans].
Qed.

Lemma at_prev s b i : rcore s b -> decPos s (at_ s b i) = at_ s b (i - 1).
Proof.
  intros C. pose proof (rc_size _ _ C). pose proof (at_bound _ _ C i) as Hb. unfold decPos, at_ in *. rewrite Z.geb_leb.
  set (x := m_iStartPos s + (i - ab_first b)) in *. replace (m_iStartPos s + (i - 1 - ab_first b)) with (x - 1) by lia.
  pose proof (Z.div_mod x (m_szSize s) ltac:(lia)) as Hx. destruct (Z.leb_spec 0 (x mod m_szSize s - 1)).
  - apply (Z.mod_unique_pos (x - 1) (m_szSize s) (x / m_szSize s)); lia.
  - apply (Z.mod_unique_pos (x - 1) (m_szSize s) (x / m_szSize s - 1)); lia.
Qed.

Lemma at_wrap s b : rcore s b -> at_ s b (ab_first b - 1) = at_ s b (ab_first b + (m_szSize s - 1)).
Proof.
  intros C. pose proof (rc_size _ _ C). unfold at_.
  replace (m_iStartPos s + (ab_first b + (m_szSize s - 1) - ab_first b)) with (m_iStartPos s + (ab_first b - 1 - ab_first b) + 1 * m_szSize s) by lia.
  by rewrite Z.mod_add by lia.
Qed.

Lemma drop_left_run n fuel s b keep msgno i cnt minoff :
  rcore s b -> i < ab_first b + (m_szSize s - 1) -> Z.of_nat n = i - ab_first b + 1 -> (n <= fuel)%nat ->
  let '(cnt', minoff', b') := a_drop_left n keep msgno i cnt minoff b in
  exists s', drop_message_left fuel keep (at_ s b (ab_first b - 1)) msgno (at_ s b i) cnt minoff s = Some (cnt', minoff', s')
    /\ rcore s' b' /\ frame s s'.
Proof.
  revert fuel s b i cnt minoff. induction n as [|m IH]; intros fuel s b i cnt minoff C Hi Hn Hf.
  { cbn [a_drop_left]. exists s. replace i with (ab_first b - 1) by lia. split; [|done]. destruct fuel; cbn [drop_message_left]; by rewrite Z.eqb_refl. }
  destruct fuel as [|f]; [lia|]. cbn [a_drop_left drop_message_left]. pose proof (rc_size _ _ C).
  destruct (Z.eqb_spec (at_ s b i) (at_ s b (ab_first b - 1))) as [E|_].
  { rewrite (at_wrap _ _ C) in E. apply (at_inj _ _ C) in E; lia. }
  rewrite (entry_at _ _ C i) by lia. cbn [mbind option_bind]. unfold pkt_at. rewrite (at_prev _ _ _ C), (proj1 (proj2 (rc_const _ _ C))).
  destruct (pUnit (ab_cell b i)) as [p|]; [|apply IH; [done|lia..]]. destruct (negb _); [by exists s|]. destruct (keep && is_solo p); [by exists s|].
  destruct (kill_parts s b i EntryState_Drop C) as (r & s1 & E1 & E2 & F & C1); [lia|done|].
  rewrite E1. cbn [mbind option_bind]. rewrite E2. cbn [mbind option_bind]. pose proof F as (F1 & F2 & F3 & F4 & F5).
  assert (forall j, at_ s b j = at_ s1 (kill EntryState_Drop i b) j) as Eat by (intros j; unfold at_; by rewrite F2, F5).
  rewrite !Eat. rewrite (offPos_at _ _ C1) by (cbn; lia). rewrite (at_prev _ _ _ C1). change (ab_first (kill EntryState_Drop i b)) with (ab_first b).
  destruct (is_first p); [by exists s1|].
  specialize (IH f s1 (kill EntryState_Drop i b) (i - 1) (cnt + 1) (i - ab_first b) C1).
  destruct (a_drop_left m _ _ _ _ _ _) as [[cnt' minoff'] b']. destruct IH as (s' & E & C' & F'); [cbn; lia..|].
  exists s'. split_and!; [exact E|done|by eapply frame_trans].
Qed.

Lemma killed_span s s' b b' : rspan s b -> frame s s' -> killed b b' -> rspan s' b'.
Proof.
  intros [P1 P2 P3 P4] (F1 & F2 & F3 & F4 & F5) [R K]. injection R as E1 E2 _ _ _ _. constructor; rewrite ?F1, ?F4, ?F5, ?E1, ?E2; try done.
  intros i. destruct (K i) as [->| ->]; [apply P4|done].
Qed.

Lemma settle_id f b : settled b -> settle f b = b.
Proof. unfold settled. intros E. destruct f; cbn [settle]; [done|]. by rewrite E. Qed.

(** Both loops of [dropMessage]. *)
Lemma drop_loops_run s b keep msgno from to :
  rcore s b -> ab_first b <= from <= to -> to <= ab_first b + (m_szSize s - 1) ->
  let '(bymsg, cnt, minoff, b1) := a_drop_range (Z.to_nat (to - from)) keep from (msgno >? SRT_MSGNO_CONTROL) 0 (-1) b in
  let '(cnt', minoff', b2) :=
    if bymsg then a_drop_left (Z.to_nat (if from =? ab_first b + (m_szSize s - 1) then 0 else from - ab_first b + 1)) keep msgno from cnt minoff b1
    else (cnt, minoff, b1) in
  exists s1 s2, drop_range (length (m_entries s)) keep (at_ s b to) (at_ s b from) (msgno >? SRT_MSGNO_CONTROL) 0 (-1) s = Some (bymsg, cnt, minoff, s1)
    /\ (if bymsg : bool then drop_message_left (length (m_entries s1)) keep (decPos s1 (m_iStartPos s1)) msgno (at_ s b from) cnt minoff s1
        else Some (cnt, minoff, s1)) = Some (cnt', minoff', s2)
    /\ rcore s2 b2 /\ frame s s2 /\ untouched b b2 minoff'.
Proof.
  intros C Hf Ht. pose proof (rc_size _ _ C) as HN. set (n := Z.to_nat (to - from)).
  pose proof (a_drop_range_untouched n keep b from (msgno >? SRT_MSGNO_CONTROL) 0 (-1) b (untouched_refl b) ltac:(lia) ltac:(lia)) as U.
  pose proof (drop_range_run n (length (m_entries s)) s b keep from (msgno >? SRT_MSGNO_CONTROL) 0 (-1) C ltac:(lia) ltac:(lia) ltac:(unfold m_szSize in *; lia)) as D.
  pose proof (a_drop_range_min n keep (from - ab_first b) from (msgno >? SRT_MSGNO_CONTROL) 0 (-1) b ltac:(lia) ltac:(lia)) as Hmin.
  destruct (a_drop_range n _ _ _ _ _ _) as [[[bymsg cnt] minoff] b1]. destruct D as (s1 & E1 & C1 & F1). replace (from + Z.of_nat n) with to in E1 by lia.
  destruct bymsg.
  2: { exists s1, s1. split_and!; done. }
  pose proof F1 as (G1 & G2 & G3 & G4 & G5). pose proof U as (K & _ & _). pose proof (kd_rest _ _ K) as R. injection R as Ef _ _ _ _ _.
  assert (forall j, at_ s b j = at_ s1 b1 j) as Eat by (intros j; unfold at_; by rewrite G2, G5, Ef).
  assert (decPos s1 (m_iStartPos s1) = at_ s1 b1 (ab_first b1 - 1)) as Ed by (by rewrite <- (at_prev _ _ _ C1), (at_first _ _ C1)).
  destruct (Z.eqb_spec from (ab_first b + (m_szSize s - 1))) as [Ee|Hne].
  { cbn. exists s1, s1. split_and!; try done. rewrite Ed, (at_wrap _ _ C1), Ef, G5, <- Ee, Eat. by destruct (length (m_entries s1)); cbn [drop_message_left]; rewrite Z.eqb_refl. }
  set (m := Z.to_nat (from - ab_first b + 1)).
  pose proof (a_drop_left_untouched m keep msgno b from cnt minoff b1 U ltac:(lia) Hmin) as U2.
  pose proof (drop_left_run m (length (m_entries s1)) s1 b1 keep msgno from cnt minoff C1 ltac:(lia) ltac:(lia) ltac:(unfold m_szSize in *; lia)) as D2.
  destruct (a_drop_left m _ _ _ _ _ _) as [[cnt' minoff'] b2]. destruct D2 as (s2 & E2 & C2 & F2).
  exists s1, s2. split_and!; [done| |done|by eapply frame_trans|done]. rewrite Ed, Eat. exact E2.
Qed.

Lemma dropMessage_run s b lo hi msgno keep :
  rrep s b -> valid_seq lo -> valid_seq hi -> index_of b lo <= index_of b hi ->
  let '(cnt, b') := a_dropMessage (m_szSize s) lo hi msgno keep b in
  exists s', dropMessage lo hi msgno keep s = Some (cnt, s') /\ rrep s' b' /\ m_szSize s' = m_szSize s.
Proof.
  intros (C & P & R & S) Hlo Hhi Hle. unfold a_dropMessage, dropMessage. rewrite (rs_seq _ _ P).
  remember (index_of b lo) as x eqn:Ex. remember (index_of b hi) as y eqn:Ey. unfold index_of in Ex, Ey.
  replace (CSeqNo.seqoff (seq_of (ab_first b)) lo) with (x - ab_first b) by lia. replace (CSeqNo.seqoff (seq_of (ab_first b)) hi) with (y - ab_first b) by lia.
  pose proof (rc_size _ _ C) as HN. pose proof (rs_max _ _ P) as Hm. pose proof (rd_ready _ _ R) as Hr. rewrite Z.geb_leb.
  destruct (Z.ltb_spec (y - ab_first b) 0), (Z.ltb_spec y (ab_first b)); try lia; [by exists s|]. cbn [orb].
  destruct (Z.leb_spec (m_szSize s) (x - ab_first b)), (Z.leb_spec (ab_first b + m_szSize s) x); try lia; [by exists s|].
  rewrite !(at_off _ _ C). set (from := Z.max (ab_first b) x). set (to := Z.min (ab_first b + (m_szSize s - 1)) (y + 1)).
  replace (ab_first b + Z.max 0 (x - ab_first b)) with from by lia. replace (ab_first b + Z.min (m_szSize s - 1) (y - ab_first b + 1)) with to by lia.
  pose proof (drop_loops_run s b keep msgno from to C ltac:(lia) ltac:(lia)) as D.
  destruct (a_drop_range _ _ _ _ _ _ _) as [[[bymsg cnt] minoff] b1].
  destruct (if bymsg then _ else _) as [[cnt' minoff'] b2]. destruct D as (s1 & s2 & E1 & E2 & C2 & F & U). rewrite E1. cbn [mbind option_bind]. rewrite E2. cbn [mbind option_bind].
  pose proof F as (F1 & F2 & F3 & F4 & F5). pose proof U as (K & U1 & U2). pose proof (kd_rest _ _ K) as Q. injection Q as Q1 Q2 Q3 Q4 Q5 Q6.
  assert (rspan s2 b2) as P2 by (by eapply killed_span).
  assert (getRcvDataSize s2 = ab_ready b - ab_first b) as ->.
  { pose proof (offPos_at _ _ C (ab_ready b) ltac:(lia)) as Ho. unfold offPos, at_ in Ho. rewrite <- (rd_nonread _ _ R) in Ho.
    unfold getRcvDataSize. by rewrite F2, F3, F5. }
  destruct (settle_run s2 b2 C2 P2) as (s3 & E3 & C3 & P3 & S3 & St3 & N3 & Z3 & T3). rewrite F5 in *. set (b3 := settle _ b2) in *. rewrite E3. cbn [mbind option_bind].
  destruct (negb (minoff' =? -1) && (minoff' <=? ab_ready b - ab_first b)) eqn:En.
  - destruct (updateNonreadPos_run _ _ (core_ready _ _ C3 (m_iStartPos s3) (ab_first b3)) (span_ready _ _ P3 _ _) (reset_ready _ _ C3 P3)) as (pos & E & C4 & P4 & R4).
    rewrite E. cbn [mbind option_bind]. rewrite (mode_off _ _ C4). cbn [mbind option_bind]. eexists. split; [reflexivity|].
    assert (m_szSize (set_nonread (m_iStartPos s3) s3) = m_szSize s) as Z4 by (by rewrite <- Z3). rewrite Z4 in *. split; [|done]. split_and!; done.
  - cbn [mbind option_bind]. rewrite (mode_off _ _ C3). cbn [mbind option_bind]. exists s3. split; [done|]. split; [|done].
    assert (forall j, j <= ab_ready b -> ab_cell b2 j = ab_cell b j) as Hc.
    { intros j Hj. destruct (Z.eqb_spec minoff' (-1)) as [->|Hne]; [by apply U1|]. cbn in En. apply Z.leb_gt in En. apply U2; [done|lia]. }
    assert (b3 = b2) as Eb. { apply settle_id. unfold settled. rewrite Q1, Hc by lia. exact S. }
    rewrite Eb in *. split_and!; [done|done| |done]. eapply ready_keep; [exact R|..]; try congruence; try lia.
    + rewrite T3, Z.sub_diag, Z.add_0_r, Z.mod_small; [done|]. rewrite F2. apply (rc_pos _ _ C).
    + intros j Hj. apply Hc. lia.
Qed.

(** ** Reading bytes *)

(** The first packet has been read to its end. *)
Definition pass (b : abuf) : abuf := with_notch 0 (with_cells (ab_first b + 1) (set_cell (ab_first b) empty_entry (ab_cell b)) (ab_max b) b).

Fixpoint a_read_bytes (fuel : nat) (ok : nat -> bool) (now rs : Z) (out : list Z) (b : abuf) : Z * list Z * abuf :=
  if (ab_first b =? ab_ready b) || (rs <=? 0) then (rs, out, b)
  else
    match fuel, pkt_at b (ab_first b) with
    | S f, Some p =>
      if CTsbpdTime.isEnabled (ab_clock b) && (CTsbpdTime.getPktTime (CPacket.getMsgTimeStamp p) (ab_clock b) >? now) then (rs, out, b)
      else if negb (ok 0%nat) then (rs, out, b)
      else
        let remain := i32 (CPacket.getLength p - ab_notch b) in
        let out := out ++ take (Z.to_nat (Z.min remain rs)) (drop (Z.to_nat (ab_notch b)) (CPacket.m_pcData p)) in
        a_read_bytes f (fun k => ok (S k)) now (rs - Z.min remain rs) out (if rs >=? remain then pass b else with_notch (ab_notch b + rs) b)
    | _, _ => (rs, out, b)
    end.

Definition a_readBuffer (N : Z) (ok : nat -> bool) (now len : Z) (b : abuf) : Z * list Z * abuf :=
  let '(rs, out, b') := a_read_bytes (S (Z.to_nat N)) ok now len [] b in (i32 (len - rs), out, b').

Lemma core_with_notch s b n : rcore s b -> rcore (set_notch n s) (with_notch n b).
Proof. intros [H1 H2 H3 H4 H5 H6 H7 H8 H9 (H10 & H11 & _)]. constructor; done. Qed.

Lemma pass_rep s b :
  rcore s b -> rspan s b -> held s b -> ab_first b < ab_ready b ->
  exists s1, releaseUnitInPos (m_iStartPos s) s = Some s1 /\ frame s s1
    /\ let s' := set_notch 0 (set_start (CSeqNo.incseq (m_iStartSeqNo s1)) (incPos s1 (m_iStartPos s) 1) (i32 (m_iMaxPosOff s1 - 1)) s1) in
       rcore s' (pass b) /\ rspan s' (pass b) /\ held s' (pass b) /\ m_szSize s' = m_szSize s.
Proof.
  intros C P H Hlt. pose proof (rc_size _ _ C) as HN. pose proof (rs_max _ _ P) as Hm. pose proof (hd_max _ _ H) as Hr. pose proof (rs_maxoff _ _ P) as Hmo.
  destruct (release_run s b C (ab_first b)) as (s1 & E1 & F & _ & C1); [lia|]. rewrite (at_first _ _ C) in E1. exists s1. split_and!; [done..|].
  pose proof F as (F1 & F2 & F3 & F4 & F5). rewrite F1, (rs_seq _ _ P), incseq_seq_of, F4. rewrite i32_id by (unfold is_i32; lia). rewrite <- F2. cbn zeta.
  set (s' := set_notch 0 _). assert (m_szSize s' = m_szSize s) as Z' by (by rewrite <- F5). split_and!; [..|done].
  - eapply core_ext; [apply core_with_notch, (core_shift _ _ (seq_of (ab_first b + 1)) (m_iMaxPosOff s - 1) C1)|..]; try done.
    cbn. unfold set_cell. by rewrite Z.eqb_refl.
  - constructor; cbn [s' set_notch set_start pass with_notch with_cells ab_first ab_max ab_cell m_iStartSeqNo m_iMaxPosOff]; [done|lia|rewrite Z'; lia|].
    intros i. unfold set_cell. destruct (Z.eqb_spec i (ab_first b)); [done|]. apply (rs_unit _ _ P).
  - destruct H as [H1 H2 H3 H4 H5]. constructor; rewrite ?Z'; cbn; unfold pkt_at; cbn.
    + rewrite F3, H1. unfold incPos. rewrite F2, F5, Zplus_mod_idemp_l. f_equal. lia.
    + lia.
    + lia.
    + intros i Hi. unfold set_cell. destruct (Z.eqb_spec i (ab_first b)); [lia|]. apply H4. lia.
    + intros Ha Hl. unfold set_cell. destruct (Z.eqb_spec (ab_ready b - 1) (ab_first b)); [lia|]. apply H5; [done|lia].
Qed.

Lemma read_bytes_run fuel ok now s b rs out :
  rcore s b -> rspan s b -> held s b -> ab_first b <= ab_ready b -> ab_ready b - ab_first b + (if rs <=? 0 then 0 else 1) <= Z.of_nat fuel ->
  let '(rs', out', b') := a_read_bytes fuel ok now rs out b in
  exists s', read_bytes fuel ok now (at_ s b (ab_ready b)) (m_iStartPos s) rs out s = Some (false, rs', out', s')
    /\ rcore s' b' /\ rspan s' b' /\ held s' b' /\ ab_first b' <= ab_ready b' /\ m_szSize s' = m_szSize s.
Proof.
  revert ok s b rs out. induction fuel as [|f IH]; intros ok s b rs out C P H Hle Hf.
  all: pose proof (rs_max _ _ P) as Hm; pose proof (hd_max _ _ H) as Hr; cbn [a_read_bytes read_bytes].
  all: assert ((m_iStartPos s =? at_ s b (ab_ready b)) = (ab_first b =? ab_ready b)) as ->
    by (rewrite <- (at_first _ _ C) at 1; destruct (Z.eqb_spec (ab_first b) (ab_ready b)) as [->|]; [apply Z.eqb_refl|apply Z.eqb_neq; intros E%(at_inj _ _ C); lia]).
  all: destruct (Z.eqb_spec (ab_first b) (ab_ready b)) as [|Hne]; [by exists s|]; destruct (Z.leb_spec rs 0); [by exists s|]; cbn [orb].
  { lia. }
  pose proof (entry_at _ _ C (ab_first b) ltac:(lia)) as Ee. rewrite (at_first _ _ C) in Ee. rewrite Ee. cbn [mbind option_bind].
  destruct (proj1 (has_unit_pkt b (ab_first b)) (hd_unit _ _ H (ab_first b) ltac:(lia))) as [p Hp]. rewrite Hp. unfold pkt_at in Hp. rewrite Hp.
  unfold tsbpd_on, getPktTsbPdTime. rewrite (rc_clock _ _ C). destruct (CTsbpdTime.isEnabled _ && _); [by exists s|].
  destruct (negb (ok 0%nat)); [by exists s|]. rewrite (proj2 (proj2 (rc_const _ _ C))). set (remain := i32 (CPacket.getLength p - ab_notch b)).
  set (out' := out ++ _). rewrite Z.geb_leb. destruct (Z.leb_spec remain rs) as [Hrem|Hrem].
  - destruct (pass_rep s b C P H ltac:(lia)) as (s1 & E1 & F & C2 & P2 & H2 & Z2). rewrite E1. cbn [mbind option_bind].
    set (s2 := set_notch 0 _) in *. pose proof (IH (fun k => ok (S k)) s2 (pass b) (rs - Z.min remain rs) out' C2 P2 H2) as IH'.
    destruct (a_read_bytes f _ _ _ _ _) as [[rs' out''] b']. destruct IH' as (s' & E & R); [cbn; lia|cbn; destruct (_ <=? 0); lia|].
    exists s'. rewrite Z2 in R. split; [|exact R]. rewrite <- E. f_equal. change (ab_ready (pass b)) with (ab_ready b). unfold at_. rewrite Z2. cbn. unfold incPos.
    destruct F as (_ & F2 & _ & _ & F5). rewrite F5, Zplus_mod_idemp_l. f_equal. lia.
  - pose proof (IH (fun k => ok (S k)) (set_notch (ab_notch b + rs) s) (with_notch (ab_notch b + rs) b) (rs - Z.min remain rs) out') as IH'.
    destruct (a_read_bytes f _ _ _ _ _) as [[rs' out''] b']. apply IH'.
    + by apply core_with_notch.
    + destruct P. by constructor.
    + destruct H. by constructor.
    + done.
    + cbn. destruct (Z.leb_spec (rs - Z.min remain rs) 0); lia.
Qed.

Lemma readBuffer_run s b ok now len :
  rrep s b ->
  let '(n, out, b') := a_readBuffer (m_szSize s) ok now len b in
  exists s', readBufferTo ok now len s = Some (n, out, s') /\ rcore s' b' /\ rspan s' b' /\ rready s' b' /\ m_szSize s' = m_szSize s.
Proof.
  intros (C & P & R & S). pose proof (rs_max _ _ P) as Hm. pose proof (rd_ready _ _ R) as Hr. unfold a_readBuffer, readBufferTo.
  assert (Z.to_nat (m_szSize s) = length (m_entries s)) as -> by (unfold m_szSize; lia).
  pose proof (read_bytes_run (Datatypes.S (length (m_entries s))) ok now s b len [] C P (ready_held _ _ P R) ltac:(lia)) as D.
  destruct (a_read_bytes _ _ _ _ _ _) as [[rs out] b']. destruct D as (s1 & E1 & C1 & P1 & H1 & Hle & Z1).
  { assert (m_szSize s = Z.of_nat (length (m_entries s))) by done. destruct (_ <=? 0); lia. }
  rewrite (rd_nonread _ _ R). fold (at_ s b (ab_ready b)). rewrite E1. cbn [mbind option_bind].
  set (s2 := countBytes (-1) (- i32 (len - rs)) s1).
  assert (rcore s2 b') as C2 by (by apply core_counts). assert (rspan s2 b') as P2 by (destruct P1; by constructor). assert (held s2 b') as H2 by (destruct H1; by constructor).
  destruct (nonread_in_range s2) eqn:Hin.
  - destruct (in_range_keeps _ _ C2 P2 H2 Hin) as [R2 _]. rewrite Z.max_l, with_ready_same in R2 by (done || lia). exists s2. split_and!; done.
  - pose proof (in_range_drops _ _ C2 P2 H2 Hin). lia.
Qed.
