(* ===== verification/RcvBufferProps.v ===== *)
(** * What the receiver's buffer promises

    The live mode (messages with delivery times): a sequence of operations, run by
    [CRcvBuffer] and on the abstract buffer, gives the same results; what is read is
    what was inserted, in order and once. The stream mode: the bytes read are the
    bytes of the stream. *)

From stdpp Require Import sorting.
From S2P Require Import Prelude SeqNo Packet Tsbpd SndBuffer RcvBuffer RcvBufferSpec RcvBufferRefine.
Import CRcvBuffer.

(** ** The live mode *)

Inductive op :=
  | OpInsert (p : CPacket.t)
  | OpDropUpTo (seqno : Z)
  | OpDropMessage (lo hi msgno : Z) (keep : bool)
  | OpRead (len : Z)
  | OpDrift (ts arrival rtt : Z).

Inductive res :=
  | RInsert (code : Z)
  | RDropped (dropped discarded : Z)
  | RCount (n : Z)
  | RMessage (n : Z) (m : message)
  | RDrift (updated : bool).

Definition do_op (o : op) (s : t) : option (res * t) :=
  match o with
  | OpInsert p => r ← insert p s; Some (RInsert (fst r), snd r)
  | OpDropUpTo seqno => r ← dropUpTo seqno s; let '(d, g, s') := r in Some (RDropped d g, s')
  | OpDropMessage lo hi msgno keep => r ← dropMessage lo hi msgno keep s; Some (RCount (fst r), snd r)
  | OpRead len => r ← readMessage len s; let '(n, m, s') := r in Some (RMessage n m, s')
  | OpDrift ts arrival rtt => let r := addRcvTsbPdDriftSample ts arrival rtt s in Some (RDrift (fst r), snd r)
  end.

Definition a_op (N : Z) (o : op) (b : abuf) : res * abuf :=
  match o with
  | OpInsert p => let r := a_insert N p b in (RInsert (fst r), snd r)
  | OpDropUpTo seqno => let '(d, g, b') := a_dropUpTo N seqno b in (RDropped d g, b')
  | OpDropMessage lo hi msgno keep => let r := a_dropMessage N lo hi msgno keep b in (RCount (fst r), snd r)
  | OpRead len => let '(n, m, b') := a_readMessage N len b in (RMessage n m, b')
  | OpDrift ts arrival rtt => let r := CTsbpdTime.addDriftSample ts arrival rtt (ab_clock b) in (RDrift (fst r), with_clock (snd r) b)
  end.

Fixpoint do_ops (ops : list op) (s : t) : option (list res * t) :=
  match ops with
  | [] => Some ([], s)
  | o :: rest => r ← do_op o s; q ← do_ops rest (snd r); Some (fst r :: fst q, snd q)
  end.

Fixpoint a_ops (N : Z) (ops : list op) (b : abuf) : list res * abuf :=
  match ops with
  | [] => ([], b)
  | o :: rest => let r := a_op N o b in let q := a_ops N rest (snd r) in (fst r :: fst q, snd q)
  end.

(** Sequence numbers have 31 bits, and a range to drop is not reversed: its ends
    are near the buffer's start, in order. *)
Definition op_ok (o : op) (b : abuf) : Prop :=
  match o with
  | OpInsert p => valid_seq (CPacket.getSeqNo p)
  | OpDropUpTo seqno => valid_seq seqno
  | OpDropMessage lo hi _ _ => valid_seq lo /\ valid_seq hi /\ index_of b lo <= index_of b hi
  | OpRead _ | OpDrift _ _ _ => True
  end.

Fixpoint ops_ok (N : Z) (ops : list op) (b : abuf) : Prop :=
  match ops with
  | [] => True
  | o :: rest => op_ok o b /\ ops_ok N rest (snd (a_op N o b))
  end.

(** The buffer of a connection in live mode, before the first packet. *)
Definition fresh (isn : Z) (k : CTsbpdTime.t) (api : bool) : abuf := mkAbuf isn (fun _ => empty_entry) isn isn k 0 api true.

Lemma fresh_rep isn size k api :
  valid_seq isn -> 1 < size < 2 ^ 29 -> CTsbpdTime.isEnabled k = true \/ api = false ->
  rrep (set_tsbpd k (create isn size api)) (fresh isn k api) /\ m_szSize (set_tsbpd k (create isn size api)) = size.
Proof.
  intros Hi Hs Hm. assert (m_szSize (set_tsbpd k (create isn size api)) = size) as Hz by (unfold m_szSize; cbn; rewrite length_replicate; lia).
  split; [|done]. split_and!; [| | |done].
  - constructor; rewrite ?Hz; try done.
    + split; [cbn; rewrite length_replicate; lia|]. intros off Ho. cbn [set_tsbpd create m_entries m_iStartPos ab_first ab_cell fresh]. rewrite Z.add_0_l, Z.mod_small by lia. unfold aget.
      destruct (Z.leb_spec 0 off); [|lia]. apply lookup_replicate_2. lia.
    + cbn. lia.
  - constructor; rewrite ?Hz; cbn; try done; try lia. by rewrite seq_of_id.
  - constructor; rewrite ?Hz; cbn; try lia. rewrite Z.sub_diag. by rewrite Z.mod_small by lia.
Qed.

(** The mode of the buffer does not change. *)
Definition modes (b : abuf) : bool * bool * bool := (ab_api b, ab_rexmit b, CTsbpdTime.isEnabled (ab_clock b)).

Lemma settle_modes f b : modes (settle f b) = modes b.
Proof. revert b. induction f as [|f IH]; intros b; cbn [settle]; [done|]. destruct (is_filler _); [|done]. by rewrite IH. Qed.

Lemma kill_modes v i b : modes (kill v i b) = modes b.
Proof. unfold modes. cbn. by rewrite tick_enabled. Qed.

Lemma a_drop_range_modes n keep i bymsg cnt minoff b : modes (snd (a_drop_range n keep i bymsg cnt minoff b)) = modes b.
Proof.
  revert i bymsg cnt minoff b. induction n as [|n IH]; intros; cbn [a_drop_range]; [done|]. destruct (bool_decide _); [apply IH|].
  destruct (keep && _); [apply IH|]. rewrite IH. apply kill_modes.
Qed.

Lemma a_drop_left_modes n keep msgno i cnt minoff b : modes (snd (a_drop_left n keep msgno i cnt minoff b)) = modes b.
Proof.
  revert i cnt minoff b. induction n as [|n IH]; intros; cbn [a_drop_left]; [done|]. destruct (pkt_at b i) as [p|]; [|apply IH].
  destruct (negb _); [done|]. destruct (keep && _); [done|]. destruct (is_first p); [apply kill_modes|]. rewrite IH. apply kill_modes.
Qed.

Lemma a_read_modes fuel room m b : modes (snd (a_read fuel room m b)) = modes b.
Proof.
  revert room m b. induction fuel as [|f IH]; intros; cbn [a_read]; [done|]. destruct (pkt_at b (ab_first b)) as [p|]; [|done].
  assert (modes (pop b) = modes b) as E by (unfold modes; cbn; by rewrite tick_enabled). destruct (has_last p); [done|]. cbn [fst snd]. rewrite IH. exact E.
Qed.

Lemma drift_enabled ts arrival rtt k : CTsbpdTime.isEnabled (snd (CTsbpdTime.addDriftSample ts arrival rtt k)) = CTsbpdTime.isEnabled k.
Proof.
  unfold CTsbpdTime.addDriftSample, CTsbpdTime.isEnabled. destruct (CTsbpdTime.m_bTsbPdMode k) eqn:E; [|done]. cbn [negb].
  destruct (DriftTracer.update _ _ _ _) as [u d]. cbn. done.
Qed.

Lemma a_op_modes N o b : modes (snd (a_op N o b)) = modes b.
Proof.
  destruct o as [p|seqno|lo hi msgno keep|len|ts arrival rtt]; cbn [a_op].
  - unfold a_insert. repeat match goal with |- context [if ?c then _ else _] => destruct c end; done.
  - unfold a_dropUpTo. destruct (_ <=? _); [done|]. cbn [snd]. set (b1 := with_clock _ _). assert (modes b1 = modes b) as E1 by (unfold modes; cbn; by rewrite ticks_enabled).
    rewrite <- E1, <- (settle_modes (S (Z.to_nat N)) b1). destruct (_ <? _); done.
  - unfold a_dropMessage. destruct (_ || _); [done|]. pose proof (a_drop_range_modes (Z.to_nat (Z.min (ab_first b + (N - 1)) (index_of b hi + 1) - Z.max (ab_first b) (index_of b lo)))
      keep (Z.max (ab_first b) (index_of b lo)) (msgno >? SRT_MSGNO_CONTROL) 0 (-1) b) as E1. destruct (a_drop_range _ _ _ _ _ _ _) as [[[bymsg cnt] minoff] b1].
    assert (forall n c m, modes (snd (if bymsg then a_drop_left n keep msgno (Z.max (ab_first b) (index_of b lo)) c m b1 else (c, m, b1))) = modes b) as E2.
    { intros n c m. destruct bymsg; [rewrite a_drop_left_modes|]; exact E1. }
    match goal with |- context [a_drop_left ?n _ _ _ ?c ?m _] => specialize (E2 n c m) end. destruct (if bymsg then _ else _) as [[cnt' minoff'] b2]. cbn [snd] in *.
    rewrite <- E2, <- (settle_modes (S (Z.to_nat N)) b2). destruct (_ && _); done.
  - unfold a_readMessage. destruct (_ <? _); [|done]. pose proof (a_read_modes (S (Z.to_nat N)) len no_message b) as E1.
    destruct (a_read _ _ _ _) as [m b1]. cbn [snd] in *. rewrite <- E1. apply (settle_modes (S (Z.to_nat N)) b1).
  - unfold modes. cbn. by rewrite drift_enabled.
Qed.

Lemma op_run s b o :
  rrep s b -> ab_api b = true -> op_ok o b ->
  exists s', do_op o s = Some (fst (a_op (m_szSize s) o b), s') /\ rrep s' (snd (a_op (m_szSize s) o b)) /\ m_szSize s' = m_szSize s.
Proof.
  intros R Ha Ho. destruct o as [p|seqno|lo hi msgno keep|len|ts arrival rtt]; cbn [do_op a_op op_ok] in *.
  - destruct (insert_run s b p R Ho) as (s' & -> & R' & Z'). by exists s'.
  - pose proof (dropUpTo_run s b seqno R Ho) as D. destruct (a_dropUpTo _ _ _) as [[d g] b']. destruct D as (s' & -> & R' & Z'). by exists s'.
  - destruct Ho as (H1 & H2 & H3). pose proof (dropMessage_run s b lo hi msgno keep R H1 H2 H3) as D. destruct (a_dropMessage _ _ _ _ _ _) as [cnt b'].
    destruct D as (s' & -> & R' & Z'). by exists s'.
  - pose proof (readMessage_run s b len R Ha) as D. destruct (a_readMessage _ _ _) as [[n m] b']. destruct D as (s' & -> & R' & Z'). by exists s'.
  - destruct R as (C & P & Rd & S). unfold addRcvTsbPdDriftSample. rewrite (rc_clock _ _ C). eexists. split; [reflexivity|]. split; [|done].
    split_and!; [|by destruct P|by destruct Rd|done]. eapply core_fields; [exact C|..]; try done. by rewrite drift_enabled, (rc_clock _ _ C).
Qed.

Lemma ops_run ops s b :
  rrep s b -> ab_api b = true -> ops_ok (m_szSize s) ops b ->
  exists s', do_ops ops s = Some (fst (a_ops (m_szSize s) ops b), s') /\ rrep s' (snd (a_ops (m_szSize s) ops b)) /\ m_szSize s' = m_szSize s.
Proof.
  revert s b. induction ops as [|o rest IH]; intros s b R Ha Ho; cbn [do_ops a_ops]; [by exists s|]. destruct Ho as [H1 H2].
  destruct (op_run s b o R Ha H1) as (s1 & -> & R1 & Z1). cbn [mbind option_bind fst snd]. rewrite <- Z1 in *.
  destruct (IH s1 _ R1) as (s' & -> & R' & Z').
  - pose proof (a_op_modes (m_szSize s1) o b) as M. unfold modes in M. injection M as -> _ _. done.
  - done.
  - exists s'. split_and!; [done|done|congruence].
Qed.

(** ** What is delivered *)

(** The packets a read takes, with their indices. *)
Fixpoint taken (fuel : nat) (b : abuf) : list (Z * CPacket.t) :=
  match fuel with
  | O => []
  | S f =>
    match pkt_at b (ab_first b) with
    | None => []
    | Some p => (ab_first b, p) :: if has_last p then [] else taken f (pop b)
    end
  end.

Definition payload (l : list (Z * CPacket.t)) : list Z := concat (map (fun x => CPacket.m_pcData (snd x)) l).

(** One entry per read. *)
Fixpoint deliveries (N : Z) (ops : list op) (b : abuf) : list (list (Z * CPacket.t)) :=
  match ops with
  | [] => []
  | o :: rest =>
    let later := deliveries N rest (snd (a_op N o b)) in
    match o with
    | OpRead _ => (if ab_first b <? ab_ready b then taken (S (Z.to_nat N)) b else []) :: later
    | _ => later
    end
  end.

(** What the application asked for and got, one entry per read. *)
Fixpoint reads (ops : list op) (rs : list res) : list (Z * message) :=
  match ops, rs with
  | OpRead len :: ops, RMessage _ m :: rs => (len, m) :: reads ops rs
  | _ :: ops, _ :: rs => reads ops rs
  | _, _ => []
  end.

Lemma a_read_data fuel room m b : msg_data (fst (a_read fuel room m b)) = msg_data m ++ take (Z.to_nat room) (payload (taken fuel b)).
Proof.
  revert room m b. induction fuel as [|f IH]; intros room m b; cbn [a_read taken]; [cbn; by rewrite take_nil, app_nil_r|].
  destruct (pkt_at b (ab_first b)) as [p|]; [|cbn; by rewrite take_nil, app_nil_r].
  assert (forall l, take (Z.to_nat room) (CPacket.m_pcData p ++ l)
     = take (Z.to_nat (Z.min room (CPacket.getLength p))) (CPacket.m_pcData p) ++ take (Z.to_nat (room - Z.min room (CPacket.getLength p))) l) as Hl.
  { intros l. unfold CPacket.getLength. rewrite take_app. f_equal.
    - destruct (Z.le_ge_cases room (Z.of_nat (length (CPacket.m_pcData p)))); [by rewrite Z.min_l by lia|]. rewrite Z.min_r by lia.
      rewrite !take_ge by lia. done.
    - f_equal. lia. }
  unfold payload. destruct (has_last p).
  - cbn [fst msg_data add_packet map concat snd]. by rewrite Hl, take_nil, app_nil_r.
  - rewrite IH. cbn [msg_data add_packet map concat snd]. by rewrite Hl, app_assoc.
Qed.

(** A read takes consecutive packets, from the first one on. *)
Lemma taken_spec fuel room m b :
  let b' := snd (a_read fuel room m b) in
  map fst (taken fuel b) = seqZ (ab_first b) (ab_first b' - ab_first b) /\ ab_first b <= ab_first b'
  /\ (forall i p, (i, p) ∈ taken fuel b -> pkt_at b i = Some p) /\ (forall i, ab_first b' <= i -> ab_cell b' i = ab_cell b i)
  /\ (forall i p, pkt_at b' i = Some p -> pkt_at b i = Some p).
Proof.
  revert room m b. induction fuel as [|f IH]; intros room m b; cbn [a_read taken]; cbn zeta.
  { rewrite Z.sub_diag. split_and!; try done. intros i p []%not_elem_of_nil. }
  destruct (pkt_at b (ab_first b)) as [p|] eqn:Ep.
  2: { rewrite Z.sub_diag. split_and!; try done. intros i p []%not_elem_of_nil. }
  assert (forall i, i <> ab_first b -> ab_cell (pop b) i = ab_cell b i) as Hc.
  { intros i Hi. cbn. unfold set_cell. destruct (Z.eqb_spec i (ab_first b)); done. }
  assert (forall i q, pkt_at (pop b) i = Some q -> pkt_at b i = Some q) as Hk.
  { intros i q. unfold pkt_at. cbn. unfold set_cell. by destruct (Z.eqb_spec i (ab_first b)). }
  destruct (has_last p).
  - cbn [snd]. change (ab_first (pop b)) with (ab_first b + 1). replace (ab_first b + 1 - ab_first b) with 1 by lia. split_and!; [done|lia| | |done].
    + intros i q H%list_elem_of_singleton. by injection H as -> ->.
    + intros i Hi. apply Hc. lia.
  - specialize (IH (room - Z.min room (CPacket.getLength p)) (add_packet (ab_rexmit (pop b)) (ab_clock (pop b)) room p m) (pop b)).
    cbn zeta in IH. destruct IH as (I1 & I2 & I3 & I4 & I5). change (ab_first (pop b)) with (ab_first b + 1) in *. split_and!.
    + cbn [map fst]. rewrite I1, (seqZ_cons (ab_first b)) by lia. do 2 f_equal; lia.
    + lia.
    + intros i q [[= -> ->]|H]%elem_of_cons; [done|]. by apply Hk, I3.
    + intros i Hi. rewrite I4 by done. apply Hc. lia.
    + intros i q Hq. by apply Hk, I5.
Qed.

(** From [b] to [b'] the start does not move back and no packet appears. *)
Definition shrinks (b b' : abuf) : Prop := ab_first b <= ab_first b' /\ forall i p, pkt_at b' i = Some p -> pkt_at b i = Some p.

#[export] Instance shrinks_preorder : PreOrder shrinks.
Proof. split; [intros b; split; [lia|auto]|]. intros b1 b2 b3 [H1 H2] [H3 H4]. split; [lia|auto]. Qed.

Lemma settle_shrinks f b : shrinks b (settle f b).
Proof.
  revert b. induction f as [|f IH]; intros b; cbn [settle]; [reflexivity|]. destruct (is_filler _); [|reflexivity].
  etransitivity; [|apply IH]. split; cbn; [lia|]. intros i p. unfold pkt_at. cbn. unfold set_cell. by destruct (i =? ab_first b).
Qed.

Lemma killed_shrinks b b' : killed b b' -> shrinks b b'.
Proof. intros [R K]. injection R as E _ _ _ _ _. split; [lia|]. intros i p. unfold pkt_at. by destruct (K i) as [->| ->]. Qed.

Lemma a_drop_range_killed n keep i bymsg cnt minoff b : killed b (snd (a_drop_range n keep i bymsg cnt minoff b)).
Proof.
  revert i bymsg cnt minoff b. induction n as [|n IH]; intros; cbn [a_drop_range]; [reflexivity|]. destruct (bool_decide _); [apply IH|].
  destruct (keep && _); [apply IH|]. etransitivity; [apply kill_killed|apply IH].
Qed.

Lemma a_drop_left_killed n keep msgno i cnt minoff b : killed b (snd (a_drop_left n keep msgno i cnt minoff b)).
Proof.
  revert i cnt minoff b. induction n as [|n IH]; intros; cbn [a_drop_left]; [reflexivity|]. destruct (pkt_at b i) as [p|]; [|apply IH].
  destruct (negb _); [reflexivity|]. destruct (keep && _); [reflexivity|]. destruct (is_first p); [apply kill_killed|]. etransitivity; [apply kill_killed|apply IH].
Qed.

Lemma a_dropUpTo_shrinks N seqno b : shrinks b (snd (a_dropUpTo N seqno b)).
Proof.
  unfold a_dropUpTo. destruct (Z.leb_spec (index_of b seqno) (ab_first b)); [reflexivity|]. cbn [snd]. set (b1 := with_clock _ _). set (b2 := settle _ b1).
  assert (shrinks b b2) as H2.
  { etransitivity; [|apply settle_shrinks]. split; cbn; [lia|]. intros i p. unfold pkt_at. cbn. unfold clear_below. by destruct (i <? _). }
  by destruct (ab_ready b2 <? ab_first b2).
Qed.

Lemma a_dropMessage_shrinks N lo hi msgno keep b : shrinks b (snd (a_dropMessage N lo hi msgno keep b)).
Proof.
  unfold a_dropMessage. destruct (_ || _); [reflexivity|].
  match goal with |- context [a_drop_range ?n ?k ?i ?m ?c ?o b] => pose proof (a_drop_range_killed n k i m c o b) as K1; destruct (a_drop_range n k i m c o b) as [[[bymsg cnt] minoff] b1] end.
  match goal with |- context [a_drop_left ?n ?k ?m ?i ?c ?o b1] => pose proof (a_drop_left_killed n k m i c o b1) as K2; destruct (a_drop_left n k m i c o b1) as [[cnt2 minoff2] b2'] end.
  cbn [snd] in K1, K2. assert (exists cnt' minoff' b2, (if bymsg then (cnt2, minoff2, b2') else (cnt, minoff, b1)) = (cnt', minoff', b2) /\ killed b b2) as (cnt' & minoff' & b2 & -> & K).
  { destruct bymsg; eexists _, _, _; (split; [reflexivity|]); [by etransitivity|done]. }
  cbn [snd]. assert (shrinks b (settle (S (Z.to_nat N)) b2)) as H by (etransitivity; [by apply killed_shrinks|apply settle_shrinks]). by destruct (_ && _).
Qed.

(** A read leaves the packets it did not take, and starts again after those it took. *)
Lemma a_readMessage_shrinks N len b :
  shrinks b (snd (a_readMessage N len b))
  /\ (ab_first b < ab_ready b -> forall i p, (i, p) ∈ taken (S (Z.to_nat N)) b -> ab_first b <= i < ab_first (snd (a_readMessage N len b))).
Proof.
  unfold a_readMessage. destruct (Z.ltb_spec (ab_first b) (ab_ready b)); [|split; [reflexivity|lia]].
  pose proof (taken_spec (S (Z.to_nat N)) len no_message b) as T. cbn zeta in T. destruct (a_read _ _ _ _) as [m b1]. cbn [snd] in *.
  destruct T as (T1 & T2 & T3 & T4 & T5). pose proof (settle_shrinks (S (Z.to_nat N)) b1) as [S1 S2]. split.
  - split; cbn [with_ready ab_first]; [lia|]. intros i p Hp. by apply T5, S2.
  - intros _ i p Hp. apply (list_elem_of_fmap_2 fst) in Hp. change (fst <$> ?l) with (map fst l) in Hp. rewrite T1 in Hp. apply elem_of_seqZ in Hp. cbn [fst with_ready ab_first] in *. lia.
Qed.

Lemma a_op_origin N o b :
  ab_first b <= ab_first (snd (a_op N o b))
  /\ forall i p, pkt_at (snd (a_op N o b)) i = Some p -> pkt_at b i = Some p \/ o = OpInsert p /\ i = index_of b (CPacket.getSeqNo p).
Proof.
  assert (forall b', shrinks b b' -> ab_first b <= ab_first b' /\ forall i p, pkt_at b' i = Some p -> pkt_at b i = Some p \/ o = OpInsert p /\ i = index_of b (CPacket.getSeqNo p)) as Hs.
  { intros b' [H1 H2]. auto. }
  destruct o as [p|seqno|lo hi msgno keep|len|ts arrival rtt]; cbn [a_op].
  - unfold a_insert. destruct (_ <? _); [by apply Hs|]. destruct (_ >=? _); [by apply Hs|]. destruct (bool_decide _); [|by apply Hs].
    cbn [snd fst]. split; [cbn; lia|]. intros i q. unfold pkt_at. cbn. unfold set_cell. destruct (Z.eqb_spec i (index_of b (CPacket.getSeqNo p))) as [->|]; [|auto].
    intros [= ->]. auto.
  - pose proof (a_dropUpTo_shrinks N seqno b) as H. destruct (a_dropUpTo _ _ _) as [[d g] b']. by apply Hs.
  - apply Hs, a_dropMessage_shrinks.
  - destruct (a_readMessage_shrinks N len b) as [H _]. destruct (a_readMessage _ _ _) as [[n m] b']. by apply Hs.
  - by apply Hs.
Qed.

Lemma seqZ_sorted m n : StronglySorted Z.lt (seqZ m n).
Proof.
  destruct (Z.lt_ge_cases n 0) as [Hn|Hn]; [rewrite seqZ_nil by lia; constructor|]. revert m. pattern n. apply natlike_ind; [|clear n Hn; intros n Hn IH m|done].
  - intros m. rewrite seqZ_nil by lia. constructor.
  - rewrite seqZ_cons by lia. constructor; [replace (Z.pred (Z.succ n)) with n by lia; apply IH|]. apply list.Forall_forall. intros x Hx%elem_of_seqZ. lia.
Qed.

(** Every packet delivered was in the buffer or has been inserted since; the
    indices go up. *)
Lemma deliveries_spec N ops b :
  (forall i p, (i, p) ∈ concat (deliveries N ops b) -> ab_first b <= i /\ (pkt_at b i = Some p \/ OpInsert p ∈ ops))
  /\ StronglySorted Z.lt (map fst (concat (deliveries N ops b))).
Proof.
  revert b. induction ops as [|o rest IH]; intros b; cbn [deliveries]; [split; [intros ? ? []%not_elem_of_nil|constructor]|].
  destruct (a_op_origin N o b) as [Hf Ho]. destruct (IH (snd (a_op N o b))) as [I1 I2]. set (later := deliveries N rest _) in *.
  assert (forall i p, (i, p) ∈ concat later -> ab_first b <= i /\ (pkt_at b i = Some p \/ OpInsert p ∈ o :: rest)) as Hl.
  { intros i p Hp. destruct (I1 i p Hp) as [Hi [Hq|Hq]]; (split; [lia|]); [|right; by right]. destruct (Ho i p Hq) as [|[-> _]]; [by left|right; by left]. }
  destruct o as [p|seqno|lo hi msgno keep|len|ts arrival rtt]; try (split; [exact Hl|exact I2]).
  destruct (a_readMessage_shrinks N len b) as [_ Ht]. cbn [a_op] in I1. destruct (Z.ltb_spec (ab_first b) (ab_ready b)) as [Hlt|]; [|split; [exact Hl|exact I2]].
  pose proof (taken_spec (S (Z.to_nat N)) len no_message b) as (T1 & _ & T3 & _). specialize (Ht Hlt). cbn [concat].
  destruct (a_readMessage N len b) as [[n m] b'] eqn:Er. cbn [snd] in *. split.
  - intros i p [Hp|Hp]%elem_of_app; [|by apply Hl]. split; [by apply (Ht i p)|]. left. by apply T3.
  - rewrite map_app. apply StronglySorted_app_2; [|rewrite T1; apply seqZ_sorted|done].
    intros x y Hx Hy. apply list_elem_of_fmap in Hx as ([x' px] & -> & Hx). apply list_elem_of_fmap in Hy as ([y' py] & -> & Hy).
    cbn [fst]. destruct (I1 _ _ Hy). specialize (Ht _ _ Hx). lia.
Qed.

(** The messages read are the payloads of the packets taken. *)
Lemma reads_spec N ops b :
  Forall2 (fun x l => msg_data (snd x) = take (Z.to_nat (fst x)) (payload l)) (reads ops (fst (a_ops N ops b))) (deliveries N ops b).
Proof.
  revert b. induction ops as [|o rest IH]; intros b; cbn [a_ops deliveries]; [constructor|]. specialize (IH (snd (a_op N o b))). cbn [fst].
  destruct o as [p|seqno|lo hi msgno keep|len|ts arrival rtt]; try exact IH.
  - cbn [a_op] in *. destruct (a_readMessage N len b) as [[n m] b'] eqn:Er. cbn [fst snd reads] in *. constructor; [|exact IH].
    unfold a_readMessage in Er. cbn [fst snd]. destruct (ab_first b <? ab_ready b).
    + pose proof (a_read_data (S (Z.to_nat N)) len no_message b) as Hd. destruct (a_read _ _ _ _) as [m1 b1]. injection Er as <- <- <-. exact Hd.
    + injection Er as <- <- <-. cbn. by rewrite take_nil.
Qed.

(** C2: In live mode every sequence of operations (insertion, dropping, reading,
    drift samples) from a new buffer ends, never leaves the array, and returns what
    the same operations on the line of cells return; the array goes on representing
    that line. *)
Theorem rcv_buffer_refines isn size k ops :
  valid_seq isn -> 1 < size < 2 ^ 29 -> CTsbpdTime.isEnabled k = true -> ops_ok size ops (fresh isn k true) ->
  exists s', do_ops ops (set_tsbpd k (create isn size true)) = Some (fst (a_ops size ops (fresh isn k true)), s')
    /\ rrep s' (snd (a_ops size ops (fresh isn k true))).
Proof.
  intros Hi Hs Hk Ho. destruct (fresh_rep isn size k true Hi Hs) as [R Hz]; [by left|].
  destruct (ops_run ops _ _ R) as (s' & E & R' & _); [done|by rewrite Hz|]. rewrite Hz in *. by exists s'.
Qed.

(** Three packets: a message of two, the second one first, and a message of one. *)
Definition pkt (seqno boundary msgno : Z) (data : list Z) : CPacket.t := CPacket.mk seqno (boundary * 2 ^ 30 + msgno) 1000 7 data.
Definition live_clock : CTsbpdTime.t := CTsbpdTime.setTsbPdMode 0 false 120000 CTsbpdTime.init.
Definition live_ops : list op :=
  [OpInsert (pkt 0 1 1 [30; 40]); OpRead 100; OpInsert (pkt 0x7FFFFFFF 2 1 [10; 20]); OpInsert (pkt 1 3 2 [50]); OpInsert (pkt 1 3 2 [50]);
   OpDropMessage 2 3 3 true; OpInsert (pkt 3 3 3 [60]); OpInsert (pkt 4 3 4 [70]); OpRead 3; OpRead 100; OpDropUpTo 3; OpDrift 1000 121000 0].

Lemma live_ops_ok : ops_ok 8 live_ops (fresh 0x7FFFFFFF live_clock true).
Proof. vm_compute. repeat split; congruence. Qed.

Lemma rcv_buffer_refines_witness :
  exists s', do_ops live_ops (set_tsbpd live_clock (create 0x7FFFFFFF 8 true)) = Some (fst (a_ops 8 live_ops (fresh 0x7FFFFFFF live_clock true)), s')
    /\ rrep s' (snd (a_ops 8 live_ops (fresh 0x7FFFFFFF live_clock true))).
Proof. apply (rcv_buffer_refines 0x7FFFFFFF 8 live_clock live_ops); [unfold valid_seq, CSeqNo.m_iMaxSeqNo; lia|lia|reflexivity|exact live_ops_ok]. Defined.



(** The results of the example. *)
Lemma live_ops_results :
  option_map (fun r => (map (fun x => msg_data (snd x)) (reads live_ops (fst r)), fst r)) (do_ops live_ops (set_tsbpd live_clock (create 0x7FFFFFFF 8 true)))
  = Some ([[]; [10; 20; 30]; [50]],
      [RInsert 0; RMessage 0 no_message; RInsert 0; RInsert 0; RInsert (-1); RCount 2; RInsert (-1); RInsert 0;
       RMessage 3 (mkMessage [10; 20; 30] (Some 1) (Some 121000) (Some 0)); RMessage 1 (mkMessage [50] (Some 2) (Some 121000) (Some 1));
       RDropped 0 0; RDrift false]).
Proof. vm_compute. reflexivity. Qed.

(** ** Insertion, and what is ready after it *)

Lemma nonread_seq s b : rcore s b -> rspan s b -> rready s b -> getFirstNonreadSeqNo s = seq_of (ab_ready b).
Proof.
  intros C P R. pose proof (rc_size _ _ C). pose proof (rs_max _ _ P). pose proof (rd_ready _ _ R). unfold getFirstNonreadSeqNo.
  rewrite (rd_nonread _ _ R). fold (at_ s b (ab_ready b)). rewrite (offPos_at _ _ C) by lia. rewrite (rs_seq _ _ P), incseq_by_seq_of by (unfold CSeqNo.m_iMaxSeqNo; lia).
  f_equal. lia.
Qed.

(** [insert] refuses a packet before the buffer's start (-2), one beyond its
    capacity (-3) and one whose place is not empty (-1); any other packet is put in
    its place and no other place changes. Then the first packet not ready is found
    by whole messages from the old one on, and no whole message starts there. *)
Theorem rcv_insert_outcome s b p :
  rrep s b -> valid_seq (CPacket.getSeqNo p) ->
  let i := index_of b (CPacket.getSeqNo p) in
  if i <? ab_first b then insert p s = Some (-2, s)
  else if ab_first b + capacity s <=? i then insert p s = Some (-3, s)
  else exists s' b', rrep s' b' /\ ab_first b' = ab_first b /\
    if is_missing (ab_cell b i) then
      insert p s = Some (0, s') /\ pkt_at b' i = Some p /\ (forall j, j <> i -> ab_cell b' j = ab_cell b j)
      /\ getFirstNonreadSeqNo s' = seq_of (ab_ready b') /\ run b' (ab_ready b) (ab_ready b')
      /\ forall e, starts b' (ab_ready b') -> ~ whole b' (ab_ready b') e
    else insert p s = Some (-1, s') /\ ab_ready b' = ab_ready b /\ forall j, ab_cell b' j = ab_cell b j.
Proof.
  intros R Hp i. destruct (insert_run s b p R Hp) as (s' & E & R' & _). pose proof R as (C & P & Rd & _). pose proof R' as (C' & P' & Rd' & _).
  assert (CSeqNo.seqoff (m_iStartSeqNo s) (CPacket.getSeqNo p) = i - ab_first b) as Eo by (rewrite (rs_seq _ _ P); unfold i, index_of; lia).
  destruct (Z.ltb_spec i (ab_first b)) as [Hlt|Hge].
  { unfold insert. rewrite Eo. destruct (Z.ltb_spec (i - ab_first b) 0); [done|lia]. }
  destruct (Z.leb_spec (ab_first b + capacity s) i) as [Hcap|Hcap].
  { unfold insert. rewrite Eo, Z.geb_leb. destruct (Z.ltb_spec (i - ab_first b) 0); [lia|]. destruct (Z.leb_spec (capacity s) (i - ab_first b)); [done|lia]. }
  unfold a_insert in *. fold i in E, R', C', P', Rd'. unfold capacity in Hcap. rewrite Z.geb_leb in *.
  destruct (Z.ltb_spec i (ab_first b)); [lia|]. destruct (Z.leb_spec (ab_first b + (m_szSize s - 1)) i); [lia|]. exists s'. eexists. split; [exact R'|].
  unfold is_missing. cbn [with_cells ab_cell] in *. destruct (bool_decide (status (ab_cell b i) = EntryState_Empty)); [|done].
  cbn [fst snd] in *. split; [done|]. split; [done|]. set (b1 := with_cells _ _ _ _) in *.
  assert (forall j, has_unit (ab_cell b1 j) = true -> j < ab_max b1) as Hu by apply (rs_unit _ _ P').
  pose proof (rs_max _ _ P). pose proof (rd_ready _ _ Rd).
  destruct (refresh_spec (m_szSize s) b1 Hu) as [Hr1 Hr2]; [cbn; lia..|]. split_and!.
  - unfold pkt_at. cbn. unfold set_cell. by rewrite Z.eqb_refl.
  - intros j Hj. cbn. unfold set_cell. by destruct (Z.eqb_spec j i).
  - by apply nonread_seq.
  - exact Hr1.
  - exact Hr2.
Qed.

(** The branch of a hypothesis that evaluation shows is taken. *)
Ltac take_branch H v :=
  match type of H with (if ?c then _ else _) => let E := fresh in assert (c = v) as E by (vm_compute; reflexivity); rewrite E in H; clear E end.

(** The packet 5 completes the message 4, 5 and makes 4 to 6 ready. *)
Lemma rcv_insert_outcome_witness :
  let s := set_tsbpd live_clock (create 4 8 true) in
  let ops := [OpInsert (pkt 4 2 1 [1]); OpInsert (pkt 6 3 2 [3])] in
  exists s1 s', do_ops ops s = Some ([RInsert 0; RInsert 0], s1) /\ insert (pkt 5 1 1 [2]) s1 = Some (0, s') /\ getFirstNonreadSeqNo s' = 7.
Proof.
  cbn zeta. destruct (fresh_rep 4 8 live_clock true) as [R _]; [unfold valid_seq, CSeqNo.m_iMaxSeqNo; lia|lia|by left|].
  set (ops := [OpInsert (pkt 4 2 1 [1]); OpInsert (pkt 6 3 2 [3])]).
  destruct (ops_run ops _ _ R eq_refl) as (s1 & E & R1 & _); [vm_compute; repeat split; congruence|].
  assert (do_ops ops (set_tsbpd live_clock (create 4 8 true)) = Some ([RInsert 0; RInsert 0], s1)) as E1 by (rewrite E; vm_compute; reflexivity).
  pose proof (rcv_insert_outcome s1 _ (pkt 5 1 1 [2]) R1 ltac:(vm_compute; repeat split; congruence)) as H. exists s1. cbn zeta in H.
  vm_compute in E1. injection E1 as <-. take_branch H false. take_branch H false. destruct H as (s' & b' & _ & _ & H). take_branch H true. destruct H as (Hi & _).
  exists s'. split; [vm_compute; reflexivity|]. split; [exact Hi|]. vm_compute in Hi. injection Hi as <-. vm_compute. reflexivity.
Defined.

(** A packet can be at the start of the buffer, whole, and yet not be ready:
    packets 0, 1 and 2 are there, 1 is dropped, 0 is read. The start moves past 1 to
    2, [getFirstValidPacketInfo] reports 2 there, but at no time is there anything to
    read, and reading returns nothing. A later packet, 3, makes both ready. *)
Theorem rcv_packet_stalls :
  exists s, do_ops [OpInsert (pkt 0 3 1 [1]); OpInsert (pkt 1 3 2 [2]); OpInsert (pkt 2 3 3 [3]); OpDropMessage 1 1 (-1) false; OpRead 100]
      (set_tsbpd live_clock (create 0 8 true)) = Some ([RInsert 0; RInsert 0; RInsert 0; RCount 1; RMessage 1 (mkMessage [1] (Some 1) (Some 121000) (Some 0))], s)
    /\ m_iStartSeqNo s = 2 /\ getFirstValidPacketInfo s = Some (mkInfo 2 false 121000)
    /\ (forall now, isRcvDataReady now s = Some false) /\ readMessage 100 s = Some (0, no_message, s)
    /\ exists s', insert (pkt 3 3 4 [4]) s = Some (0, s') /\ getAvailablePacketsRange s' = (2, 4).
Proof.
  eexists. split; [vm_compute; reflexivity|]. split; [reflexivity|]. split; [vm_compute; reflexivity|]. split; [intros now; vm_compute; reflexivity|].
  split; [vm_compute; reflexivity|]. eexists. split; [vm_compute; reflexivity|]. vm_compute. reflexivity.
Qed.

(** ** The stream mode *)

(** The payload of packet [i], as far as it is there. *)
Definition data_at (b : abuf) (i : Z) : list Z := match pkt_at b i with Some p => CPacket.m_pcData p | None => [] end.

(** [n] packets from [i] on. *)
Fixpoint bytes (f : Z -> list Z) (n : nat) (i : Z) : list Z := match n with O => [] | S m => f i ++ bytes f m (i + 1) end.

(** The bytes that can be read. *)
Definition readable (b : abuf) : list Z := drop (Z.to_nat (ab_notch b)) (bytes (data_at b) (Z.to_nat (ab_ready b - ab_first b)) (ab_first b)).

(** The bytes read of the first packet are fewer than it has; payloads have a length an [int] can hold. *)
Definition stream_ok (b : abuf) : Prop :=
  ab_api b = false /\ CTsbpdTime.isEnabled (ab_clock b) = false /\ 0 <= ab_notch b
  /\ (ab_notch b = 0 \/ ab_first b < ab_ready b /\ ab_notch b < Z.of_nat (length (data_at b (ab_first b))))
  /\ (forall i p, pkt_at b i = Some p -> CPacket.getLength p < 2 ^ 31)
  /\ forall i, is_filler (ab_cell b i) = false.

Lemma bytes_ext f g n i : (forall j, i <= j < i + Z.of_nat n -> f j = g j) -> bytes f n i = bytes g n i.
Proof. revert i. induction n as [|n IH]; intros i E; cbn; [done|]. rewrite E by lia. f_equal. apply IH. intros j Hj. apply E. lia. Qed.

Lemma bytes_app f n m i : bytes f (n + m) i = bytes f n i ++ bytes f m (i + Z.of_nat n).
Proof.
  revert i. induction n as [|n IH]; intros i; cbn [bytes Nat.add]; [by rewrite Z.add_0_r|]. rewrite IH, <- app_assoc. do 2 f_equal. f_equal. lia.
Qed.

(** The bytes of the packets from [a] on, before [e]. *)
Lemma bytes_split f a m e : a <= m <= e -> bytes f (Z.to_nat (e - a)) a = bytes f (Z.to_nat (m - a)) a ++ bytes f (Z.to_nat (e - m)) m.
Proof. intros H. replace (Z.to_nat (e - a)) with (Z.to_nat (m - a) + Z.to_nat (e - m))%nat by lia. rewrite bytes_app. do 2 f_equal. lia. Qed.

Lemma pass_data b i : i <> ab_first b -> data_at (pass b) i = data_at b i.
Proof. intros Hi. unfold data_at, pkt_at. cbn. unfold set_cell. by destruct (Z.eqb_spec i (ab_first b)). Qed.

(** Reading is taking bytes off the front of those readable. *)
Lemma a_read_bytes_spec fuel now rs out b :
  stream_ok b -> (forall i, ab_first b <= i < ab_ready b -> has_unit (ab_cell b i) = true) -> ab_first b <= ab_ready b -> 0 <= rs < 2 ^ 31 ->
  ab_ready b - ab_first b + (if rs <=? 0 then 0 else 1) <= Z.of_nat fuel ->
  let '(rs', out', b') := a_read_bytes fuel (fun _ => true) now rs out b in
  out' = out ++ take (Z.to_nat rs) (readable b) /\ rs' = rs - Z.of_nat (length (take (Z.to_nat rs) (readable b)))
  /\ readable b' = drop (Z.to_nat rs) (readable b) /\ stream_ok b' /\ ab_ready b' = ab_ready b.
Proof.
  revert rs out b. induction fuel as [|f IH]; intros rs out b Ok Hu Hle Hrs Hf; pose proof Ok as (Ha & Ht & Hn & Hnb & Hl & Hfl); cbn [a_read_bytes].
  all: destruct (Z.eqb_spec (ab_first b) (ab_ready b)) as [Heq|Hne];
    [cbn [orb]; assert (readable b = []) as -> by (unfold readable; rewrite Heq, Z.sub_diag; apply drop_nil); rewrite take_nil, drop_nil, app_nil_r; split; [done|]; split; [cbn; lia|]; split; [done|]; by split|].
  all: destruct (Z.leb_spec rs 0) as [H0|H0]; [replace rs with 0 by lia; cbn; rewrite app_nil_r; split; [done|]; split; [done|]; split; [done|]; by split|]; cbn [orb].
  { lia. }
  destruct (proj1 (has_unit_pkt b (ab_first b)) (Hu (ab_first b) ltac:(lia))) as [p Hp]. rewrite Hp, Ht. cbn [andb negb].
  set (d := data_at b (ab_first b)) in *. assert (CPacket.m_pcData p = d) as -> by (unfold d, data_at; by rewrite Hp). specialize (Hl _ _ Hp).
  assert (CPacket.getLength p = Z.of_nat (length d)) as El by (unfold d, data_at; by rewrite Hp). rewrite El in *. rewrite i32_id by (unfold is_i32; lia).
  set (rest := bytes (data_at b) (Z.to_nat (ab_ready b - (ab_first b + 1))) (ab_first b + 1)).
  assert (readable b = drop (Z.to_nat (ab_notch b)) d ++ rest) as Er.
  { unfold readable. rewrite (bytes_split _ _ (ab_first b + 1)) by lia. replace (ab_first b + 1 - ab_first b) with 1 by lia. change (Z.to_nat 1) with 1%nat. cbn [bytes].
    rewrite app_nil_r. fold d rest. apply drop_app_le. lia. }
  rewrite Z.geb_leb. set (remain := Z.of_nat (length d) - ab_notch b). assert (length (drop (Z.to_nat (ab_notch b)) d) = Z.to_nat remain) as Hlen by (rewrite length_drop; lia).
  destruct (Z.leb_spec remain rs) as [Hrem|Hrem].
  - rewrite Z.min_l by lia. rewrite (take_ge (drop _ d)) by lia.
    assert (readable (pass b) = rest) as Er'.
    { unfold readable. cbn [pass ab_notch ab_first ab_ready with_notch with_cells]. rewrite drop_0. apply bytes_ext. intros j Hj. apply pass_data. lia. }
    assert (stream_ok (pass b)) as Ok'.
    { split_and!; [done|done|cbn; lia|by left| |].
      - intros i q. unfold pkt_at. cbn. unfold set_cell. destruct (_ =? _); [done|]. apply Ok.
      - intros i. cbn. unfold set_cell. destruct (_ =? _); [done|]. apply Hfl. }
    specialize (IH (rs - remain) (out ++ drop (Z.to_nat (ab_notch b)) d) (pass b) Ok').
    destruct (a_read_bytes f _ _ _ _ _) as [[rs' out'] b']. destruct IH as (I1 & I2 & I3 & I4 & I5).
    { intros i Hi. cbn in *. unfold set_cell. destruct (Z.eqb_spec i (ab_first b)); [lia|]. apply Hu. lia. }
    { cbn. lia. }
    { lia. }
    { cbn. destruct (_ <=? 0); lia. }
    rewrite Er' in *. rewrite Er, take_app, drop_app, Hlen. rewrite (take_ge (drop _ d)), (drop_ge (drop _ d)) by lia.
    replace (Z.to_nat rs - Z.to_nat remain)%nat with (Z.to_nat (rs - remain)) by lia. cbn [app]. rewrite app_assoc, length_app, Hlen. split; [done|]. split; [lia|]. split; [done|]. by split.
  - rewrite Z.min_r by lia. specialize (IH (rs - rs) (out ++ take (Z.to_nat rs) (drop (Z.to_nat (ab_notch b)) d)) (with_notch (ab_notch b + rs) b)).
    rewrite Z.sub_diag in *. destruct (a_read_bytes f _ _ _ _ _) as [[rs' out'] b']. destruct IH as (I1 & I2 & I3 & I4 & I5).
    { split; [done|]. split; [done|]. split; [cbn; lia|]. split; [|exact (proj2 (proj2 (proj2 (proj2 Ok))))]. right. split; [cbn; lia|]. change (data_at (with_notch _ b) _) with d. cbn. lia. }
    { done. }
    { done. }
    { lia. }
    { cbn. lia. }
    change (Z.to_nat 0) with 0%nat in *. rewrite take_0 in *. rewrite app_nil_r in I1. cbn [length] in I2.
    assert (take (Z.to_nat rs) (readable b) = take (Z.to_nat rs) (drop (Z.to_nat (ab_notch b)) d)) as Et by (rewrite Er; apply take_app_le; lia).
    rewrite Et. split; [done|]. split; [rewrite length_take; lia|]. split; [|by split]. rewrite I3, drop_0. unfold readable. cbn [with_notch ab_notch ab_first ab_ready].
    change (data_at (with_notch _ b)) with (data_at b). rewrite drop_drop. f_equal. lia.
Qed.

(** The payload of packet [i] of the stream. *)
Section Stream.

Context (isn : Z) (src : Z -> list Z).

Inductive stream_op :=
  | SInsert (p : CPacket.t)
  | SRead (now len : Z).

(** What has been read so far is kept with the state. *)
Definition do_stream_op (o : stream_op) (x : list Z * t) : option (list Z * t) :=
  match o with
  | SInsert p => r ← insert p (snd x); Some (fst x, snd r)
  | SRead now len => r ← readBuffer now len (snd x); let '(n, out, s) := r in Some (fst x ++ take (Z.to_nat n) out, s)
  end.

Fixpoint do_stream (ops : list stream_op) (x : list Z * t) : option (list Z * t) :=
  match ops with [] => Some x | o :: rest => y ← do_stream_op o x; do_stream rest y end.

(** The packets are those of the stream: the packet inserted is, at its index, the
    sender's. *)
Definition stream_op_ok (start : Z) (o : stream_op) : Prop :=
  match o with
  | SInsert p =>
    valid_seq (CPacket.getSeqNo p) /\ CPacket.getLength p < 2 ^ 31
    /\ CPacket.m_pcData p = src (start + CSeqNo.seqoff (seq_of start) (CPacket.getSeqNo p))
  | SRead now len => 0 <= len < 2 ^ 31
  end.

(** [consumed] has been read; the rest of the ready bytes comes next. *)
Record stream_inv (consumed : list Z) (s : t) (b : abuf) : Prop := mkStream {
  si_rep : rrep s b;
  si_ok : stream_ok b;
  si_src : forall i p, pkt_at b i = Some p -> CPacket.m_pcData p = src i;
  si_start : isn <= ab_first b;
  si_bytes : consumed ++ readable b = bytes src (Z.to_nat (ab_ready b - isn)) isn;
  si_none : pkt_at b (ab_ready b) = None
}.

Lemma stream_insert consumed s b p :
  stream_inv consumed s b -> stream_op_ok (ab_first b) (SInsert p) ->
  exists s', insert p s = Some (fst (a_insert (m_szSize s) p b), s') /\ m_szSize s' = m_szSize s
    /\ stream_inv consumed s' (snd (a_insert (m_szSize s) p b)) /\ ab_first (snd (a_insert (m_szSize s) p b)) = ab_first b.
Proof using Type.
  intros [R Ok Hs Hst Hb Hn] (Hv & Hl & Hd). destruct (insert_run s b p R Hv) as (s' & E & R' & Z'). exists s'. split; [done|]. split; [done|].
  pose proof R as (C & P & Rd & S). pose proof R' as (C' & P' & Rd' & _). pose proof Ok as (Ha & Ht & Hnn & Hnb & Hlen & Hfl). unfold a_insert in *.
  fold (index_of b (CPacket.getSeqNo p)) in Hd. set (i := index_of b (CPacket.getSeqNo p)) in *. rewrite Z.geb_leb in *.
  destruct (Z.ltb_spec i (ab_first b)); [by split; [constructor|]|]. destruct (Z.leb_spec (ab_first b + (m_szSize s - 1)) i); [by split; [constructor|]|].
  cbn [with_cells ab_cell ab_first ab_max] in *. destruct (decide (status (ab_cell b i) = EntryState_Empty)) as [He|He].
  2: { rewrite bool_decide_eq_false_2 in * by done. cbn [snd] in *. by split; [constructor|]. }
  rewrite bool_decide_eq_true_2 in * by done. cbn [snd] in *. set (b1 := with_cells _ _ _ _) in *. split; [|done].
  assert (pkt_at b i = None) as Hi.
  { pose proof (avail_unit _ _ C i) as A. unfold is_avail in A. rewrite He in A. unfold has_unit in A. unfold pkt_at. by destruct (pUnit (ab_cell b i)). }
  assert (forall j, ab_cell (refresh (m_szSize s) b1) j = if j =? i then avail p else ab_cell b j) as Hc by done.
  pose proof (rs_max _ _ P) as Hm. pose proof (rd_ready _ _ Rd) as Hr.
  destruct (refresh_spec (m_szSize s) b1) as [Rn Mx]; [apply (rs_unit _ _ P')|cbn; lia..|].
  apply run_facts in Rn as (F1 & F2 & _); [|apply (rs_unit _ _ P')|cbn; lia]. set (b' := refresh (m_szSize s) b1) in *.
  change (ab_ready b1) with (ab_ready b) in *. change (ab_max b1) with (Z.max (ab_max b) (i + 1)) in *.
  assert (forall j q, pkt_at b' j = Some q -> CPacket.m_pcData q = src j) as Hs'.
  { intros j q. unfold pkt_at. rewrite Hc. destruct (Z.eqb_spec j i) as [->|]; [|apply Hs]. intros [= <-]. exact Hd. }
  assert (forall j, j <> i -> data_at b' j = data_at b j) as Hdat.
  { intros j Hj. unfold data_at, pkt_at. rewrite Hc. by destruct (Z.eqb_spec j i). }
  assert (forall j, ab_first b <= j < ab_ready b -> j <> i) as Hne.
  { intros j Hj ->. pose proof (rd_unit _ _ Rd i Hj) as U. apply has_unit_pkt in U as [q Hq]. congruence. }
  constructor; [done| |done|done| |].
  - split_and!; try done.
    + destruct Hnb as [|[H1 H2]]; [by left|right]. change (ab_first b') with (ab_first b). split; [lia|]. rewrite Hdat; [done|]. apply Hne. lia.
    + intros j q. unfold pkt_at. rewrite Hc. destruct (Z.eqb_spec j i); [by intros [= <-]|apply Hlen].
    + intros j. rewrite Hc. destruct (Z.eqb_spec j i); [done|apply Hfl].
  - assert (readable b' = readable b ++ bytes src (Z.to_nat (ab_ready b' - ab_ready b)) (ab_ready b)) as ->.
    { unfold readable. change (ab_first b') with (ab_first b). change (ab_notch b') with (ab_notch b).
      rewrite (bytes_split (data_at b') (ab_first b) (ab_ready b)) by lia.
      rewrite (bytes_ext (data_at b') (data_at b)) by (intros j Hj; apply Hdat, Hne; lia).
      rewrite (bytes_ext (data_at b') src (Z.to_nat (ab_ready b' - ab_ready b))).
      - apply drop_app_le. destruct Hnb as [->|[H1 H2]]; [lia|]. rewrite (bytes_split _ _ (ab_first b + 1)) by lia.
        replace (ab_first b + 1 - ab_first b) with 1 by lia. change (Z.to_nat 1) with 1%nat. cbn [bytes]. rewrite !length_app. lia.
      - intros j Hj. specialize (F2 j ltac:(lia)). apply has_unit_pkt in F2 as [q Hq]. unfold data_at. rewrite Hq. by apply Hs'. }
    rewrite app_assoc, Hb. rewrite (bytes_split src isn (ab_ready b) (ab_ready b')) by lia. done.
  - destruct (pkt_at b' (ab_ready b')) as [q|] eqn:Eq; [|done]. exfalso. apply (Mx (ab_ready b' + 1)).
    + exists q. split; [done|]. intros Ha'. change (ab_api b') with (ab_api b) in Ha'. congruence.
    + apply (whole_one b' _ q Eq); [|done]. change (ab_api b') with (ab_api b). by rewrite Ha.
Qed.

Lemma a_read_bytes_frame fuel ok now rs out b :
  let b' := snd (a_read_bytes fuel ok now rs out b) in ab_first b <= ab_first b' /\ forall i p, pkt_at b' i = Some p -> pkt_at b i = Some p.
Proof using Type.
  revert ok rs out b. induction fuel as [|f IH]; intros ok rs out b; cbn [a_read_bytes]; cbn zeta; (destruct (_ || _); [split; [cbn; lia|done]|]); [split; [cbn; lia|done]|].
  destruct (pkt_at b (ab_first b)) as [p|]; [|split; [cbn; lia|done]]. destruct (_ && _); [split; [cbn; lia|done]|]. destruct (negb _); [split; [cbn; lia|done]|].
  match goal with |- context [a_read_bytes f ?o ?n ?r ?u ?x] => destruct (IH o r u x) as [I1 I2]; set (y := a_read_bytes f o n r u x) in * end. destruct (_ >=? _); cbn [pass with_notch with_cells ab_first] in *.
  - split; [lia|]. intros i q Hq. apply I2 in Hq. revert Hq. unfold pkt_at. cbn. unfold set_cell. by destruct (_ =? _).
  - split; [lia|]. intros i q Hq. by apply I2 in Hq.
Qed.

Lemma stream_read consumed s b now len :
  stream_inv consumed s b -> 0 <= len < 2 ^ 31 ->
  let '(n, out, b') := a_readBuffer (m_szSize s) (fun _ => true) now len b in
  exists s', readBuffer now len s = Some (n, out, s') /\ m_szSize s' = m_szSize s /\ n = Z.of_nat (length out)
    /\ out = take (Z.to_nat len) (readable b) /\ stream_inv (consumed ++ out) s' b'.
Proof using Type.
  intros [R Ok Hs Hst Hb Hn] Hlen. pose proof (readBuffer_run s b (fun _ => true) now len R) as D. unfold a_readBuffer in *. pose proof R as (C & P & Rd & S).
  pose proof (rs_max _ _ P) as Hm. pose proof (rd_ready _ _ Rd) as Hr. unfold readBuffer.
  pose proof (a_read_bytes_spec (Datatypes.S (Z.to_nat (m_szSize s))) now len [] b Ok (rd_unit _ _ Rd) ltac:(lia) Hlen ltac:(destruct (_ <=? 0); lia)) as Sp.
  pose proof (a_read_bytes_frame (Datatypes.S (Z.to_nat (m_szSize s))) (fun _ => true) now len [] b) as Fr.
  destruct (a_read_bytes _ _ _ _ _ _) as [[rs out] b']. cbn [snd] in Fr. destruct D as (s' & E & C' & P' & R' & Z'). destruct Sp as (E1 & E2 & E3 & Ok' & E5). destruct Fr as [F1 F2].
  cbn [app] in E1. pose proof (length_take (readable b) (Z.to_nat len)) as Hlt. rewrite <- E1 in *. exists s'. split; [done|]. split; [done|].
  split; [rewrite i32_id by (unfold is_i32; lia); lia|]. split; [done|]. constructor.
  - split_and!; [done..|]. unfold settled. apply Ok'.
  - done.
  - intros i p Hp. by apply Hs, F2.
  - lia.
  - rewrite <- app_assoc, E3, E5, E1, take_drop. done.
  - destruct (pkt_at b' (ab_ready b')) as [q|] eqn:Eq; [|done]. apply F2 in Eq. rewrite E5 in Eq. congruence.
Qed.

Definition a_stream_op (N : Z) (o : stream_op) (b : abuf) : abuf :=
  match o with SInsert p => snd (a_insert N p b) | SRead now len => snd (a_readBuffer N (fun _ => true) now len b) end.

Fixpoint stream_ops_ok (N : Z) (ops : list stream_op) (b : abuf) : Prop :=
  match ops with [] => True | o :: rest => stream_op_ok (ab_first b) o /\ stream_ops_ok N rest (a_stream_op N o b) end.

Lemma stream_run ops consumed s b :
  stream_inv consumed s b -> stream_ops_ok (m_szSize s) ops b ->
  exists consumed' s' b', do_stream ops (consumed, s) = Some (consumed', s') /\ stream_inv consumed' s' b'.
Proof using Type.
  revert consumed s b. induction ops as [|o rest IH]; intros consumed s b I Ho; cbn [do_stream]; [by exists consumed, s, b|]. destruct Ho as [H1 H2].
  destruct o as [p|now len]; cbn [do_stream_op a_stream_op fst snd] in *.
  - destruct (stream_insert _ _ _ _ I H1) as (s1 & -> & Z1 & I1 & _). cbn [mbind option_bind snd]. rewrite <- Z1 in *. by eapply IH.
  - pose proof (stream_read _ _ _ now len I H1) as D. destruct (a_readBuffer _ _ _ _ _) as [[n out] b1]. destruct D as (s1 & -> & Z1 & -> & _ & I1).
    cbn [mbind option_bind snd] in *. rewrite Nat2Z.id, take_ge by lia. rewrite <- Z1 in *. by eapply IH.
Qed.

Lemma stream_fresh size : valid_seq isn -> 1 < size < 2 ^ 29 -> stream_inv [] (create isn size false) (fresh isn CTsbpdTime.init false) /\ m_szSize (create isn size false) = size.
Proof using Type.
  intros Hi Hs. destruct (fresh_rep isn size CTsbpdTime.init false Hi Hs) as [R Hz]; [by right|]. split; [|exact Hz]. constructor; try done.
  - split_and!; try done. by left.
  - unfold readable. cbn. by rewrite Z.sub_diag.
Qed.

End Stream.

(** C15: In stream mode, whatever the order the packets of a stream arrive in and
    however often, the bytes read are the bytes of the stream from its first one
    on. A read returns as many bytes as are wanted of those ready, and ready are
    all those before the first packet that has not arrived. *)
Theorem rcv_stream_roundtrip isn size src ops :
  valid_seq isn -> 1 < size < 2 ^ 29 -> stream_ops_ok src size ops (fresh isn CTsbpdTime.init false) ->
  exists consumed s b, do_stream ops ([], create isn size false) = Some (consumed, s) /\ rrep s b
    /\ consumed ++ readable b = bytes src (Z.to_nat (ab_ready b - isn)) isn /\ pkt_at b (ab_ready b) = None
    /\ forall now len, 0 <= len < 2 ^ 31 ->
         exists s', readBuffer now len s = Some (Z.of_nat (length (take (Z.to_nat len) (readable b))), take (Z.to_nat len) (readable b), s').
Proof.
  intros Hi Hs Ho. destruct (stream_fresh isn src size Hi Hs) as [I Hz]. rewrite <- Hz in Ho. destruct (stream_run isn src ops _ _ _ I Ho) as (consumed & s & b & E & I').
  exists consumed, s, b. split; [done|]. split; [apply I'|]. split; [apply I'|]. split; [apply I'|]. intros now len Hl.
  pose proof (stream_read isn src _ _ _ now len I' Hl) as D. destruct (a_readBuffer _ _ _ _ _) as [[n out] b1]. destruct D as (s1 & -> & _ & -> & -> & _). by exists s1.
Qed.

(** Packets 1, 0, 0 again and 3 of a stream with two bytes each. *)
Definition stream_ops : list stream_op :=
  [SInsert (pkt 1 3 1 [2; 3]); SRead 0 10; SInsert (pkt 0 3 1 [0; 1]); SRead 0 3; SInsert (pkt 0 3 1 [0; 1]); SInsert (pkt 3 3 1 [6; 7])].

Lemma rcv_stream_roundtrip_witness :
  exists consumed s b, do_stream stream_ops ([], create 0 8 false) = Some (consumed, s) /\ consumed = [0; 1; 2] /\ rrep s b
    /\ consumed ++ readable b = bytes (fun i => [2 * i; 2 * i + 1]) (Z.to_nat (ab_ready b - 0)) 0.
Proof.
  destruct (rcv_stream_roundtrip 0 8 (fun i => [2 * i; 2 * i + 1]) stream_ops) as (consumed & s & b & E & R & H & _).
  - unfold valid_seq, CSeqNo.m_iMaxSeqNo. lia.
  - lia.
  - vm_compute. repeat split; congruence.
  - exists consumed, s, b. split; [exact E|]. split; [|split; [exact R|exact H]]. vm_compute in E. injection E as <- <-. reflexivity.
Defined.
