(* ===== verification/FreshLoss.v ===== *)
(** * Fresh-loss records and SRTLA loss reports
      (srtcore/list.h, list.cpp: [CRcvFreshLoss], [srtlaPlanNak];
       srtcore/core.cpp: the users of [m_FreshLoss])

    A [steady_clock] time point is a [Z], one tick per microsecond; the zero
    time point means "never". A [std::deque] is a list. *)

From stdpp Require Import sorting.
From S2P Require Import Prelude SeqNo RcvLossList.

Module CRcvFreshLoss.

Record t := mk { seq0 : Z; seq1 : Z; ttl : Z; timestamp : Z; report_time : Z }.

Inductive Emod := NONE | STRIPPED | SPLIT | DELETE.

#[export] Instance Emod_eq_dec : EqDecision Emod.
Proof. solve_decision. Defined.

Definition set_seq (lo hi : Z) (r : t) : t := mk lo hi (ttl r) (timestamp r) (report_time r).
Definition set_ttl (v : Z) (r : t) : t := mk (seq0 r) (seq1 r) v (timestamp r) (report_time r).
Definition set_report_time (v : Z) (r : t) : t := mk (seq0 r) (seq1 r) (ttl r) (timestamp r) v.

(** The constructor: the time of the call is [now]. *)
Definition create (seqlo seqhi initial_age now : Z) : t := mk seqlo seqhi initial_age now 0.

Definition revoke (r : t) (sequence : Z) : Emod * t :=
  let diffbegin := CSeqNo.seqcmp sequence (seq0 r) in
  let diffend := CSeqNo.seqcmp sequence (seq1 r) in
  if (diffbegin <? 0) || (diffend >? 0) then (NONE, r)
  else if diffbegin =? 0 then
    if diffend =? 0 then (DELETE, r)
    else (STRIPPED, set_seq (CSeqNo.incseq (seq0 r)) (seq1 r) r)
  else if diffend =? 0 then (STRIPPED, set_seq (seq0 r) (CSeqNo.decseq (seq1 r)) r)
  else (SPLIT, r).

Definition revoke_range (r : t) (lo hi : Z) : Emod * t :=
  if negb (lo =? SRT_SEQNO_NONE) && (CSeqNo.seqcmp lo (seq1 r) >? 0) then (DELETE, r)
  else if CSeqNo.seqcmp hi (seq0 r) <? 0 then (NONE, r)
  else if CSeqNo.seqcmp hi (seq1 r) <? 0 then
    (STRIPPED, set_seq (CSeqNo.incseq hi) (seq1 r) r)
  else (DELETE, r).

(** Result of [removeOne]: found, [*pw_had_ttl], [*pw_detect_time] (written
    only when found) and the container. *)
Record removal := mkRemoval {
  found : bool; had_ttl : Z; detect_time : option Z; container : list t
}.

Fixpoint removeOne (w_container : list t) (sequence : Z) : removal :=
  match w_container with
  | [] => mkRemoval false 0 None []
  | r :: rest =>
    let '(wh, r') := revoke r sequence in
    match wh with
    | NONE =>
      let res := removeOne rest sequence in
      mkRemoval (found res) (had_ttl res) (detect_time res) (r' :: container res)
    | DELETE => mkRemoval true (ttl r) (Some (timestamp r')) rest
    | STRIPPED => mkRemoval true (ttl r) (Some (timestamp r')) (r' :: rest)
    | SPLIT =>
      let lower := set_seq (seq0 r') (CSeqNo.decseq sequence) r' in
      let upper := mk (CSeqNo.incseq sequence) (seq1 r') (ttl r') (timestamp r') (report_time r') in
      mkRemoval true (ttl r) (Some (timestamp r')) (lower :: upper :: rest)
    end
  end.

(** The loop of [CUDT::dropFromLossLists] over the fresh-loss records: the
    records before the first one that is not deleted go, that one may be
    stripped. *)
Fixpoint drop_range (fresh : list t) (from to : Z) : list t :=
  match fresh with
  | [] => []
  | r :: rest =>
    let '(wh, r') := revoke_range r from to in
    match wh with
    | DELETE => drop_range rest from to
    | _ => r' :: rest
    end
  end.

End CRcvFreshLoss.

Import CRcvFreshLoss (seq0, seq1, ttl, timestamp, report_time).

Record SrtlaNakParams := mkNakParams {
  hold_us : Z; spacing_us : Z; budget_us : Z; rtt_us : Z; margin_us : Z; cap : nat
}.

Record SrtlaNakPlan := mkNakPlan { report : list nat; confirmed : Z; retire : nat }.

Definition is_zero (tp : Z) : bool := tp =? 0.

Definition remaining_us (p : SrtlaNakParams) (age_us : Z) : Z :=
  if budget_us p >? 0 then budget_us p - age_us - rtt_us p - margin_us p else 1.

(** The distance required between two reports of one record. *)
Definition repeat_spacing_us (p : SrtlaNakParams) (remaining : Z) : Z :=
  if (remaining >? 0) && (Z.quot remaining 2 <? spacing_us p)
  then Z.max (Z.quot remaining 2) 50000 else spacing_us p.

Definition srtlaNakEligible (rec : CRcvFreshLoss.t) (now : Z) (p : SrtlaNakParams) (want_first : bool) : bool :=
  let first_report := is_zero (report_time rec) in
  let age_us := now - timestamp rec in
  if negb (Bool.eqb first_report want_first) then false
  else if ttl rec >? 0 then false
  else if age_us <? hold_us p then false
  else if remaining_us p age_us <? 0 then false
  else if negb first_report && (now - report_time rec <? repeat_spacing_us p (remaining_us p age_us)) then false
  else true.

Definition cost (rec : CRcvFreshLoss.t) : nat := if seq0 rec =? seq1 rec then 1 else 2.

(** [while (retire < fresh.size() && now - fresh[retire].timestamp > budget) ++retire;] *)
Fixpoint retire_count (fresh : list CRcvFreshLoss.t) (now budget : Z) : nat :=
  match fresh with
  | [] => 0
  | r :: rest => if now - timestamp r >? budget then S (retire_count rest now budget) else 0
  end.

(** One pass over the records from index [i] on; the result is the words used,
    the selected indices and the packets counted as confirmed. *)
Fixpoint plan_pass (want_first : bool) (now : Z) (p : SrtlaNakParams)
    (fresh : list CRcvFreshLoss.t) (i used : nat) (confirmed : Z) : nat * list nat * Z :=
  match fresh with
  | [] => (used, [], confirmed)
  | rec :: rest =>
    if srtlaNakEligible rec now p want_first then
      if (cap p <? used + cost rec)%nat then (used, [], confirmed)
      else
        let confirmed' := if want_first
          then i32 (confirmed + (i32 (CSeqNo.seqoff (seq0 rec) (seq1 rec) + 1))) else confirmed in
        let '(used', sel, conf) := plan_pass want_first now p rest (S i) (used + cost rec) confirmed' in
        (used', i :: sel, conf)
    else plan_pass want_first now p rest (S i) used confirmed
  end.

Definition srtlaPlanNak (fresh : list CRcvFreshLoss.t) (now : Z) (p : SrtlaNakParams) : SrtlaNakPlan :=
  let retire := if budget_us p >? 0 then retire_count fresh now (budget_us p) else O in
  let live := drop retire fresh in
  let '(used1, sel1, conf1) := plan_pass true now p live retire 0 0 in
  let '(_, sel2, conf2) := plan_pass false now p live retire used1 conf1 in
  mkNakPlan (merge_sort le (sel1 ++ sel2)) conf2 retire.
