(* ===== verification/FreshLossSpec.v ===== *)
(** * Correctness of the fresh-loss records and of the SRTLA report plan

    The records are read as the ranges of packet indices they stand for. A
    record's removal, the drop of a range and the planning of a report are
    specified on these ranges. *)

From stdpp Require Import sorting.
From S2P Require Import Prelude SeqNo Ranges RcvLossList RcvLossListSpec FreshLoss.
Import CRcvFreshLoss.

(** The records stand for the ranges of indices [rs], oldest first. *)
Definition stands (r : t) (n : range) : Prop := seq0 r = seq_of (fst n) /\ seq1 r = seq_of (snd n).

Definition stands_all (recs : list t) (rs : list range) : Prop := Forall2 stands recs rs.

(** All indices involved are within half of the sequence space. *)
Definition close (rs : list range) (y : Z) : Prop :=
  forall a b, (a, b) ∈ rs -> Z.abs (y - a) < CSeqNo.m_iSeqNoTH /\ Z.abs (y - b) < CSeqNo.m_iSeqNoTH.

Lemma close_cons a b rs y : close ((a, b) :: rs) y ->
  (Z.abs (y - a) < CSeqNo.m_iSeqNoTH /\ Z.abs (y - b) < CSeqNo.m_iSeqNoTH) /\ close rs y.
Proof. intros H. split; [apply H; constructor|]. intros a' b' Hin. apply H. by constructor. Qed.

(** What [revoke] does to the range of a record. *)
Lemma revoke_exact r a b y :
  stands r (a, b) -> a <= b -> Z.abs (y - a) < CSeqNo.m_iSeqNoTH -> Z.abs (y - b) < CSeqNo.m_iSeqNoTH ->
  revoke r (seq_of y) =
    if (y <? a) || (b <? y) then (NONE, r)
    else if y =? a then
      if y =? b then (DELETE, r) else (STRIPPED, set_seq (seq_of (a + 1)) (seq_of b) r)
    else if y =? b then (STRIPPED, set_seq (seq_of a) (seq_of (b - 1)) r)
    else (SPLIT, r).
Proof.
  intros [Ha Hb] Hab H1 H2. simpl in *. unfold revoke. rewrite Ha, Hb, incseq_seq_of, decseq_seq_of.
  pose proof (seqcmp_seq_of_sgn y a H1). pose proof (seqcmp_seq_of_sgn y b H2). rewrite Z.gtb_ltb.
  repeat match goal with
    | |- context [?x <? ?z] => destruct (Z.ltb_spec x z)
    | |- context [?x =? ?z] => destruct (Z.eqb_spec x z)
    end; simpl; first [reflexivity | exfalso; lia].
Qed.

(** One removal: the packet's presence is reported and only that packet goes;
    a removed packet's time history is the one of its record. *)
Lemma removeOne_exact recs rs lo hi y :
  stands_all recs rs -> ordered lo rs hi -> close rs y ->
  exists rs', stands_all (container (removeOne recs (seq_of y))) rs'
    /\ ordered lo rs' hi
    /\ (found (removeOne recs (seq_of y)) = true <-> lost rs y)
    /\ (forall z, lost rs' z <-> lost rs z /\ z <> y)
    /\ (forall r', r' ∈ container (removeOne recs (seq_of y)) -> exists r, r ∈ recs
          /\ ttl r' = ttl r /\ timestamp r' = timestamp r /\ report_time r' = report_time r).
Proof.
  intros HS. revert lo. induction HS as [|r [a b] recs rs Hr HS IH]; intros lo Ho Hc.
  - exists []. simpl. split; [constructor|]. split; [done|]. split; [split; [done|by intros ?%lost_nil]|].
    split; [|by intros ? ?%not_elem_of_nil]. intros z. split; [by intros ?%lost_nil | by intros [?%lost_nil _]].
  - destruct Ho as (? & ? & Ho). apply close_cons in Hc as [[Hc1 Hc2] Hc].
    cbn [removeOne]. rewrite (revoke_exact r a b y Hr) by (done || lia). destruct Hr as [Ha Hb]. simpl in Ha, Hb.
    assert (Hself : forall r' r0, ttl r' = ttl r0 -> timestamp r' = timestamp r0 -> report_time r' = report_time r0 ->
      r0 ∈ r :: recs -> exists r1, r1 ∈ r :: recs /\ ttl r' = ttl r1 /\ timestamp r' = timestamp r1
        /\ report_time r' = report_time r1) by eauto 10.
    assert (Hrest : forall z, lost rs z -> b < z) by (intros z Hz; pose proof (lost_bounds _ _ _ _ Ho Hz); lia).
    destruct (Z.ltb_spec y a), (Z.ltb_spec b y); simpl orb; cbv iota.
    1-3: destruct (IH _ Ho Hc) as (rs' & HS' & Ho' & Hf & Hl & Ht); exists ((a, b) :: rs'); simpl;
      split; [by constructor|]; split; [done|]; split;
      [rewrite Hf, lost_cons; intuition lia|]; split;
      [intros z; rewrite !lost_cons, Hl; intuition lia|];
      intros r' [->|Hin]%elem_of_cons; [eapply Hself; [done..|constructor]|];
      destruct (Ht _ Hin) as (r1 & ? & ? & ? & ?); eapply (Hself _ r1); try done; by constructor.
    assert (lost ((a, b) :: rs) y) as Hy by (apply lost_cons; lia).
    destruct (Z.eqb_spec y a) as [->|Hya]; [destruct (Z.eqb_spec a b) as [->|Hab]|destruct (Z.eqb_spec y b) as [->|Hyb]]; simpl.
    + exists rs. split; [done|]. split; [eapply ordered_weaken; [exact Ho|lia..]|]. split; [done|].
      split; [intros z; rewrite lost_cons; specialize (Hrest z); intuition lia|].
      intros r' Hin. eapply (Hself r' r'); try done. by constructor.
    + exists ((a + 1, b) :: rs). split; [by repeat constructor|]. split; [simpl; repeat split; lia || done|]. split; [done|].
      split; [intros z; rewrite !lost_cons; specialize (Hrest z); intuition lia|].
      intros r' [->|Hin]%elem_of_cons; [by eapply (Hself _ r); [..|constructor] | eapply (Hself r' r'); try done; by constructor].
    + exists ((a, b - 1) :: rs). split; [by repeat constructor|].
      split; [simpl; repeat split; try lia; eapply ordered_weaken; [exact Ho|lia..]|]. split; [done|].
      split; [intros z; rewrite !lost_cons; specialize (Hrest z); intuition lia|].
      intros r' [->|Hin]%elem_of_cons; [by eapply (Hself _ r); [..|constructor] | eapply (Hself r' r'); try done; by constructor].
    + exists ((a, y - 1) :: (y + 1, b) :: rs). rewrite decseq_seq_of, incseq_seq_of.
      split; [by repeat constructor|]. split; [simpl; repeat split; lia || done|]. split; [done|].
      split; [intros z; rewrite !lost_cons; specialize (Hrest z); intuition lia|].
      intros r' [->|[->|Hin]%elem_of_cons]%elem_of_cons;
        [by eapply (Hself _ r); [..|constructor] | by eapply (Hself _ r); [..|constructor]
        | eapply (Hself r' r'); try done; by constructor].
Qed.

(** Records are kept in detection order. *)
Definition older (r r' : t) : Prop := timestamp r <= timestamp r'.

Lemma removeOne_times recs s r' :
  r' ∈ container (removeOne recs s) -> exists r, r ∈ recs /\ timestamp r' = timestamp r.
Proof.
  induction recs as [|r recs IH]; simpl; [by intros ?%not_elem_of_nil|].
  assert (timestamp (snd (revoke r s)) = timestamp r) as Ht
    by (unfold revoke; repeat case_match; done).
  destruct (revoke r s) as [[] r1]; simpl in *;
    repeat (intros [->|H]%elem_of_cons; [exists r; split; [constructor|done]|revert H]).
  - intros (r2 & ? & ?)%IH. exists r2. split; [by constructor|done].
  - intros Hin. exists r'. split; [by constructor|done].
  - intros Hin. exists r'. split; [by constructor|done].
  - intros Hin. exists r'. split; [by constructor|done].
Qed.

Lemma removeOne_sorted recs s :
  StronglySorted older recs -> StronglySorted older (container (removeOne recs s)).
Proof.
  induction 1 as [|r recs Hs IH Hall]; simpl; [constructor|].
  assert (timestamp (snd (revoke r s)) = timestamp r) as Ht
    by (unfold revoke; repeat case_match; done).
  assert (Forall (older r) recs -> Forall (fun x => timestamp r <= timestamp x) recs) as Hall' by done.
  destruct (revoke r s) as [[] r1]; simpl in *; repeat constructor; simpl; try done;
    unfold older in *; simpl; rewrite ?Ht; try done; try lia.
  apply list.Forall_forall. intros x (r2 & Hin & Ex)%removeOne_times. rewrite Ex.
  rewrite list.Forall_forall in Hall. by apply Hall.
Qed.

(** ** Dropping a range *)

Lemma drop_range_exact recs rs lo hi from x0 y :
  stands_all recs rs -> ordered lo rs hi -> close rs y ->
  (from = SRT_SEQNO_NONE \/ (from = seq_of x0 /\ x0 <= y /\ close rs x0)) ->
  exists rs', stands_all (drop_range recs from (seq_of y)) rs' /\ ordered lo rs' hi
    /\ forall z, lost rs' z <-> lost rs z /\ y < z.
Proof.
  intros HS. revert lo. induction HS as [|r [a b] recs rs [Ha Hb] HS IH]; intros lo Ho Hc Hf.
  - exists []. split; [constructor|]. split; [done|]. intros z.
    split; [by intros ?%lost_nil | by intros [?%lost_nil _]].
  - destruct Ho as (? & ? & Ho). apply close_cons in Hc as [[Hc1 Hc2] Hc]. simpl in Ha, Hb.
    assert (Hrest : forall z, lost rs z -> b < z) by (intros z Hz; pose proof (lost_bounds _ _ _ _ Ho Hz); lia).
    assert (from = SRT_SEQNO_NONE \/ (from = seq_of x0 /\ x0 <= y /\ close rs x0)) as Hf'.
    { destruct Hf as [?|(? & ? & Hf)]; [by left|right]. apply close_cons in Hf. tauto. }
    assert ((negb (from =? SRT_SEQNO_NONE) && (CSeqNo.seqcmp from (seq1 r) >? 0)) = true -> b < y) as Hd.
    { destruct Hf as [->|(-> & ? & Hf)]; [done|]. apply close_cons in Hf as [[_ Hf] _].
      rewrite seq_of_not_none, Z.gtb_ltb, Hb. simpl. intros Hlt%Z.ltb_lt.
      pose proof (seqcmp_seq_of_sgn x0 b Hf). lia. }
    cbn [drop_range]. unfold revoke_range.
    pose proof (seqcmp_seq_of_sgn y a Hc1). pose proof (seqcmp_seq_of_sgn y b Hc2). rewrite Ha, Hb in *.
    destruct (negb (from =? SRT_SEQNO_NONE) && _).
    { specialize (Hd eq_refl). destruct (IH _ Ho Hc Hf') as (rs' & ? & Ho' & Hl). exists rs'. split; [done|].
      split; [eapply ordered_weaken; [exact Ho'|lia..]|].
      intros z. rewrite Hl, lost_cons. specialize (Hrest z). intuition lia. }
    destruct (Z.ltb_spec (CSeqNo.seqcmp (seq_of y) (seq_of a)) 0).
    { exists ((a, b) :: rs). split; [by repeat constructor|]. split; [done|]. intros z. rewrite lost_cons.
      specialize (Hrest z). intuition lia. }
    destruct (Z.ltb_spec (CSeqNo.seqcmp (seq_of y) (seq_of b)) 0).
    { exists ((y + 1, b) :: rs). rewrite incseq_seq_of. split; [by repeat constructor|].
      split; [simpl; repeat split; lia || done|]. intros z. rewrite !lost_cons. specialize (Hrest z). intuition lia. }
    destruct (IH _ Ho Hc Hf') as (rs' & ? & Ho' & Hl). exists rs'. split; [done|].
    split; [eapply ordered_weaken; [exact Ho'|lia..]|].
    intros z. rewrite Hl, lost_cons. specialize (Hrest z). intuition lia.
Qed.

(** ** The plan of a report *)

(** The records with their indices that qualify for a pass. *)
Fixpoint eligible (want_first : bool) (now : Z) (p : SrtlaNakParams) (fresh : list t) (i : nat) : list (nat * t) :=
  match fresh with
  | [] => []
  | r :: rest =>
    if srtlaNakEligible r now p want_first then (i, r) :: eligible want_first now p rest (S i)
    else eligible want_first now p rest (S i)
  end.

Definition words (l : list (nat * t)) : nat := sum_list_with (cost ∘ snd) l.

Arguments words : simpl never.

Lemma words_cons x l : words (x :: l) = (cost (snd x) + words l)%nat.
Proof. done. Qed.

Lemma words_app l1 l2 : words (l1 ++ l2) = (words l1 + words l2)%nat.
Proof. apply sum_list_with_app. Qed.

Definition pkts (r : t) : Z := CSeqNo.seqoff (seq0 r) (seq1 r) + 1.

Arguments pkts : simpl never.

Fixpoint total_pkts (l : list t) : Z :=
  match l with [] => 0 | r :: l => pkts r + total_pkts l end.

(** The packets a pass adds to [confirmed], with the wrap-around of [int]. *)
Definition confirm (wf : bool) (conf : Z) (l : list (nat * t)) : Z :=
  if wf then foldl (fun c x => i32 (c + i32 (pkts (snd x)))) conf l else conf.

(** A pass takes the longest prefix of the qualifying records that fits. *)
Lemma plan_pass_exact wf now p fresh i used conf :
  let E := eligible wf now p fresh i in
  exists k, (k <= length E)%nat
    /\ fst (plan_pass wf now p fresh i used conf) = (used + words (take k E), fst <$> take k E)%nat
    /\ (used <= cap p -> used + words (take k E) <= cap p)%nat
    /\ (forall x, E !! k = Some x -> cap p < used + words (take k E) + cost (snd x))%nat
    /\ snd (plan_pass wf now p fresh i used conf) = confirm wf conf (take k E).
Proof.
  revert i used conf. induction fresh as [|r rest IH]; intros i used conf E.
  - exists 0%nat. simpl. rewrite Nat.add_0_r. split; [lia|]. split; [done|]. split; [done|].
    split; [by intros x | by destruct wf].
  - subst E. simpl. destruct (srtlaNakEligible r now p wf); [|apply IH].
    destruct (Nat.ltb_spec (cap p) (used + cost r)) as [Hc|Hc].
    + exists 0%nat. simpl. rewrite Nat.add_0_r. split; [lia|]. split; [done|]. split; [done|].
      split; [intros x [= <-]; simpl; lia | by destruct wf].
    + destruct (IH (S i) (used + cost r)%nat
        (if wf then i32 (conf + i32 (CSeqNo.seqoff (seq0 r) (seq1 r) + 1)) else conf)) as (k & Hk & Ek & Hle & Hfull & Hconf).
      exists (S k). simpl. destruct (plan_pass _ _ _ _ _ _ _) as [[u s] c]. simpl in Ek, Hconf. injection Ek as -> ->.
      rewrite words_cons. simpl. split; [lia|]. split; [f_equal; lia|]. split; [lia|].
      split; [intros x Hx; specialize (Hfull _ Hx); lia|]. rewrite Hconf. by destruct wf.
Qed.

Lemma eligible_lookup wf now p fresh i j r :
  (j, r) ∈ eligible wf now p fresh i <->
  exists d, (j = i + d)%nat /\ fresh !! d = Some r /\ srtlaNakEligible r now p wf = true.
Proof.
  revert i. induction fresh as [|r0 rest IH]; intros i; simpl.
  - split; [by intros ?%not_elem_of_nil | by intros (? & _ & ? & _)].
  - assert ((exists d, j = (i + d)%nat /\ (r0 :: rest) !! d = Some r /\ srtlaNakEligible r now p wf = true)
      <-> (j = i /\ r = r0 /\ srtlaNakEligible r0 now p wf = true) \/ (j, r) ∈ eligible wf now p rest (S i)) as ->.
    { rewrite IH. split.
      - intros ([|d] & -> & E & ?); simpl in E; [left; simplify_eq; split; [lia|done]|].
        right. exists d. split; [lia|done].
      - intros [(-> & -> & ?)|(d & -> & ? & ?)]; [exists 0%nat; split; [lia|done]|exists (S d); split; [lia|done]]. }
    destruct (srtlaNakEligible r0 now p wf) eqn:Er.
    + rewrite elem_of_cons. split; [intros [[= -> ->]|?]; auto | intros [(-> & -> & _)|?]; auto].
    + split; [auto | intros [(_ & _ & ?)|?]; done].
Qed.

Lemma eligible_sorted wf now p fresh i :
  StronglySorted lt (fst <$> eligible wf now p fresh i) /\ Forall (fun j => i <= j)%nat (fst <$> eligible wf now p fresh i).
Proof.
  revert i. induction fresh as [|r rest IH]; intros i; simpl; [split; constructor|].
  destruct (IH (S i)) as [IH1 IH2].
  assert (Forall (fun j => S i <= j)%nat (fst <$> eligible wf now p rest (S i)) ->
    Forall (fun j => i <= j)%nat (fst <$> eligible wf now p rest (S i))) as Hw
    by (intros HF; eapply list.Forall_impl; [exact HF|simpl; lia]).
  destruct (srtlaNakEligible r now p wf); simpl; [|auto].
  split; constructor; auto; try lia.
Qed.

Lemma eligible_disjoint r now p :
  srtlaNakEligible r now p true = true -> srtlaNakEligible r now p false = true -> False.
Proof. unfold srtlaNakEligible. destruct (is_zero (report_time r)); simpl; done. Qed.

(** The two passes of the plan and what they select. *)
Definition first_time (now : Z) (p : SrtlaNakParams) (fresh : list t) : list (nat * t) :=
  let d := retire (srtlaPlanNak fresh now p) in eligible true now p (drop d fresh) d.

Definition repeats (now : Z) (p : SrtlaNakParams) (fresh : list t) : list (nat * t) :=
  let d := retire (srtlaPlanNak fresh now p) in eligible false now p (drop d fresh) d.

Lemma plan_exact fresh now p :
  exists k1 k2,
    let S1 := take k1 (first_time now p fresh) in
    let S2 := take k2 (repeats now p fresh) in
    report (srtlaPlanNak fresh now p) = merge_sort le ((fst <$> S1) ++ (fst <$> S2))
    /\ (words S1 + words S2 <= cap p)%nat
    /\ (forall x, first_time now p fresh !! k1 = Some x -> cap p < words S1 + cost (snd x))%nat
    /\ (forall x, repeats now p fresh !! k2 = Some x -> cap p < words S1 + words S2 + cost (snd x))%nat
    /\ confirmed (srtlaPlanNak fresh now p) = confirm true 0 S1.
Proof.
  unfold first_time, repeats.
  assert (exists d, d = retire (srtlaPlanNak fresh now p)) as [d Hd] by eauto. rewrite <- Hd.
  unfold srtlaPlanNak in *. cbv zeta in *. set (dd := if _ >? _ then _ else _) in *.
  assert (d = dd) as -> by (rewrite Hd; repeat case_match; done). clear Hd. clearbody dd.
  destruct (plan_pass_exact true now p (drop dd fresh) dd 0 0) as (k1 & Hk1 & E1 & Hle1 & Hf1 & Hc1). cbv zeta in *.
  destruct (plan_pass true now p (drop dd fresh) dd 0 0) as [[u1 s1] c1] eqn:Ep1. simpl in E1, Hc1.
  injection E1 as -> ->.
  destruct (plan_pass_exact false now p (drop dd fresh) dd (words (take k1 (eligible true now p (drop dd fresh) dd))) c1)
    as (k2 & Hk2 & E2 & Hle2 & Hf2 & Hc2). cbv zeta in *.
  destruct (plan_pass false _ _ _ _ _ _) as [[u2 s2] c2]. simpl in E2, Hc2. injection E2 as -> ->. subst c2.
  exists k1, k2. simpl. repeat split; auto; lia.
Qed.

Definition cost_at (fresh : list t) (j : nat) : nat := from_option cost 0%nat (fresh !! j).

Lemma live_lookup now p fresh wf j r :
  (j, r) ∈ eligible wf now p (drop (retire (srtlaPlanNak fresh now p)) fresh) (retire (srtlaPlanNak fresh now p)) <->
  (retire (srtlaPlanNak fresh now p) <= j)%nat /\ fresh !! j = Some r /\ srtlaNakEligible r now p wf = true.
Proof.
  rewrite eligible_lookup. split.
  - intros (d & -> & Hl & ?). rewrite lookup_drop in Hl. split; [lia|done].
  - intros (? & Hl & ?). exists (j - retire (srtlaPlanNak fresh now p))%nat.
    split; [lia|]. split; [|done]. rewrite lookup_drop. rewrite <- Hl. f_equal. lia.
Qed.

Lemma words_cost_at fresh (l : list (nat * t)) :
  (forall j r, (j, r) ∈ l -> fresh !! j = Some r) -> sum_list_with (cost_at fresh) (fst <$> l) = words l.
Proof.
  induction l as [|[j r] l IH]; intros H; [done|]. rewrite words_cons.
  change (cost_at fresh j + sum_list_with (cost_at fresh) (fst <$> l) = cost r + words l)%nat.
  rewrite IH by (intros j' r' Hin; apply H; by constructor). unfold cost_at.
  by rewrite (H j r) by constructor.
Qed.

Lemma sorted_lt_NoDup (l : list nat) : StronglySorted lt l -> NoDup l.
Proof.
  induction 1 as [|x l Hs IH Hall]; constructor; [|done]. intros Hin.
  rewrite list.Forall_forall in Hall. specialize (Hall _ Hin). lia.
Qed.

Lemma sorted_le_lt (l : list nat) : StronglySorted le l -> NoDup l -> StronglySorted lt l.
Proof.
  induction 1 as [|x l Hs IH Hall]; intros Hnd; constructor.
  - apply IH. by apply NoDup_cons_1_2 in Hnd.
  - rewrite list.Forall_forall in *. intros y Hy. specialize (Hall _ Hy).
    apply NoDup_cons_1_1 in Hnd. assert (x <> y) by (by intros ->). lia.
Qed.

Lemma NoDup_take_fst wf now p fresh i k : NoDup (fst <$> take k (eligible wf now p fresh i)).
Proof.
  rewrite fmap_take. destruct (eligible_sorted wf now p fresh i) as [Hs _].
  eapply sublist_NoDup; [apply sorted_lt_NoDup; exact Hs|]. apply sublist_take.
Qed.

(** Indices and words of a plan. *)
Lemma srtla_plan_bounds fresh now p :
  Forall (fun j => j < length fresh)%nat (report (srtlaPlanNak fresh now p))
  /\ (sum_list_with (cost_at fresh) (report (srtlaPlanNak fresh now p)) <= cap p)%nat.
Proof.
  destruct (plan_exact fresh now p) as (k1 & k2 & -> & Hw & _). cbv zeta in *.
  assert (H1 : forall j r, (j, r) ∈ take k1 (first_time now p fresh) -> fresh !! j = Some r)
    by (by intros j r (_ & ? & _)%subseteq_take%live_lookup).
  assert (H2 : forall j r, (j, r) ∈ take k2 (repeats now p fresh) -> fresh !! j = Some r)
    by (by intros j r (_ & ? & _)%subseteq_take%live_lookup).
  split.
  - apply list.Forall_forall. intros j. rewrite merge_sort_Permutation, elem_of_app.
    intros [([j' r] & -> & Hin%H1)%list_elem_of_fmap|([j' r] & -> & Hin%H2)%list_elem_of_fmap];
      by eapply lookup_lt_Some.
  - rewrite merge_sort_Permutation, sum_list_with_app, !words_cost_at by done. done.
Qed.

(** C28: the plan of an SRTLA loss report. The planned indices are strictly
    increasing and address live records (not retired) that are due: witnessed by
    enough packets, past the reordering hold, with a round trip left, and never
    reported or due for a repeat; the words of the report fit the
    payload. *)
Theorem srtla_plan_sound (fresh : list t) (now : Z) (p : SrtlaNakParams) :
  StronglySorted lt (report (srtlaPlanNak fresh now p))
  /\ (sum_list_with (cost_at fresh) (report (srtlaPlanNak fresh now p)) <= cap p)%nat
  /\ forall j, j ∈ report (srtlaPlanNak fresh now p) ->
       exists r, fresh !! j = Some r /\ (retire (srtlaPlanNak fresh now p) <= j)%nat
         /\ ttl r <= 0 /\ hold_us p <= now - timestamp r /\ 0 <= remaining_us p (now - timestamp r)
         /\ (report_time r = 0
             \/ repeat_spacing_us p (remaining_us p (now - timestamp r)) <= now - report_time r).
Proof.
  destruct (plan_exact fresh now p) as (k1 & k2 & E & Hw & _). cbv zeta in *. rewrite E.
  set (S1 := take k1 _) in *. set (S2 := take k2 _) in *.
  assert (H1 : forall j r, (j, r) ∈ S1 -> (j, r) ∈ first_time now p fresh) by (intros j r; apply subseteq_take).
  assert (H2 : forall j r, (j, r) ∈ S2 -> (j, r) ∈ repeats now p fresh) by (intros j r; apply subseteq_take).
  split; [|split].
  - apply sorted_le_lt; [apply StronglySorted_merge_sort; typeclasses eauto|].
    rewrite merge_sort_Permutation. apply list.NoDup_app. split; [apply NoDup_take_fst|]. split; [|apply NoDup_take_fst].
    intros j ([j1 r1] & -> & Hin1%H1%live_lookup)%list_elem_of_fmap ([j2 r2] & Ej & Hin2%H2%live_lookup)%list_elem_of_fmap.
    simpl in Ej. subst j2. destruct Hin1 as (_ & E1 & ?), Hin2 as (_ & E2 & ?). rewrite E1 in E2.
    injection E2 as <-. by eapply eligible_disjoint.
  - rewrite <- E. apply srtla_plan_bounds.
  - intros j. rewrite merge_sort_Permutation, elem_of_app.
    assert (forall wf r, srtlaNakEligible r now p wf = true -> ttl r <= 0 /\ hold_us p <= now - timestamp r
      /\ 0 <= remaining_us p (now - timestamp r) /\ (report_time r = 0
             \/ repeat_spacing_us p (remaining_us p (now - timestamp r)) <= now - report_time r)) as Hel.
    { intros wf r. unfold srtlaNakEligible, is_zero. rewrite Z.gtb_ltb.
      destruct (Z.eqb_spec (report_time r) 0), wf; simpl; try done; split_ifs; simpl; intros; try done; auto 10 with lia. }
    intros [([j' r] & -> & Hin%H1%live_lookup)%list_elem_of_fmap|([j' r] & -> & Hin%H2%live_lookup)%list_elem_of_fmap];
      destruct Hin as (? & ? & ?%Hel); eauto.
Qed.

(** What the first pass selects is what the report has of the never-reported
    records. *)
Lemma first_pass_in_report fresh now p k1 k2 j r :
  report (srtlaPlanNak fresh now p)
    = merge_sort le ((fst <$> take k1 (first_time now p fresh)) ++ (fst <$> take k2 (repeats now p fresh))) ->
  (j, r) ∈ take k1 (first_time now p fresh) <->
  (j, r) ∈ first_time now p fresh /\ j ∈ report (srtlaPlanNak fresh now p).
Proof.
  intros ->. rewrite (merge_sort_Permutation le _), elem_of_app. split.
  - intros Hin. split; [by eapply subseteq_take|]. left. apply list_elem_of_fmap. by exists (j, r).
  - intros [Hin [([j' r'] & -> & Hin')%list_elem_of_fmap|([j' r'] & -> & Hin')%list_elem_of_fmap]].
    + pose proof (subseteq_take _ _ _ Hin') as Hs. apply live_lookup in Hin as (_ & E1 & _), Hs as (_ & E2 & _).
      simpl in *. rewrite E1 in E2. by injection E2 as <-.
    + apply subseteq_take, live_lookup in Hin' as (_ & E2 & ?). apply live_lookup in Hin as (_ & E1 & ?).
      simpl in E1. rewrite E1 in E2. injection E2 as <-. exfalso. by eapply eligible_disjoint.
Qed.

(** fairness of the plan. The never-reported records of the report are a
    prefix of all that are due, as long as the payload allows: repeats of older
    losses never take their place. When everything that is due fits, everything
    due is reported. *)
Theorem srtla_plan_fair (fresh : list t) (now : Z) (p : SrtlaNakParams) :
  exists k,
    (forall j r, (j, r) ∈ take k (first_time now p fresh) <->
       (j, r) ∈ first_time now p fresh /\ j ∈ report (srtlaPlanNak fresh now p))
    /\ ((k < length (first_time now p fresh))%nat -> (cap p < words (take (S k) (first_time now p fresh)))%nat)
    /\ ((words (first_time now p fresh) + words (repeats now p fresh) <= cap p)%nat ->
        forall j r, (j, r) ∈ first_time now p fresh ++ repeats now p fresh ->
          j ∈ report (srtlaPlanNak fresh now p)).
Proof.
  destruct (plan_exact fresh now p) as (k1 & k2 & E & Hw & Hf1 & Hf2 & _). cbv zeta in *.
  exists k1. split; [intros j r; by eapply first_pass_in_report|]. rewrite E.
  assert (forall (l : list (nat * t)) j r, (j, r) ∈ l -> j ∈ fst <$> l) as Hfst
    by (intros l j r Hin; apply list_elem_of_fmap; by exists (j, r)).
  assert (Hword : forall (l : list (nat * t)) k, (words (take k l) <= words l)%nat)
    by (intros l k; rewrite <- (take_drop k l) at 2; rewrite words_app; lia).
  assert (Hall : forall (l : list (nat * t)) k x, l !! k = Some x -> (words (take k l) + cost (snd x) <= words l)%nat).
  { intros l k x Hx. rewrite <- (take_drop_middle l k x Hx) at 2. rewrite words_app, words_cons. lia. }
  split.
  - intros [x Hx]%lookup_lt_is_Some. rewrite (take_S_r _ _ _ Hx), words_app. specialize (Hf1 _ Hx).
    unfold words at 2. simpl. lia.
  - intros Hfit j r. rewrite (merge_sort_Permutation le _), !elem_of_app. intros [Hin|Hin]; [left|right].
    + rewrite take_ge; [exact (Hfst _ _ _ Hin)|]. apply lookup_ge_None.
      destruct (first_time now p fresh !! k1) as [x|] eqn:Hx; [|done].
      specialize (Hf1 _ eq_refl). specialize (Hall _ _ _ Hx). lia.
    + rewrite take_ge; [exact (Hfst _ _ _ Hin)|]. apply lookup_ge_None.
      destruct (repeats now p fresh !! k2) as [x|] eqn:Hx; [|done].
      specialize (Hf2 _ eq_refl). specialize (Hall _ _ _ Hx). specialize (Hword (first_time now p fresh) k1). lia.
Qed.

Lemma retire_count_exact fresh now budget j r :
  StronglySorted older fresh -> fresh !! j = Some r ->
  ((j < retire_count fresh now budget)%nat <-> budget < now - timestamp r).
Proof.
  intros Hs. revert j. induction Hs as [|r0 fresh Hs IH Hall]; intros j Hj; [by rewrite lookup_nil in Hj|].
  simpl. rewrite Z.gtb_ltb. destruct (Z.ltb_spec budget (now - timestamp r0)) as [Hlt|Hge].
  - destruct j as [|j]; simpl in Hj; [simplify_eq; lia|]. rewrite <- (IH _ Hj). lia.
  - split; [lia|]. destruct j as [|j]; simpl in Hj; [simplify_eq; lia|].
    rewrite list.Forall_forall in Hall. specialize (Hall r (list_elem_of_lookup_2 _ _ _ Hj)). unfold older in Hall. lia.
Qed.

Lemma total_pkts_nonneg l : Forall (fun r => 0 <= pkts r) l -> 0 <= total_pkts l.
Proof. induction 1; simpl; lia. Qed.

Lemma total_pkts_take l k : Forall (fun r => 0 <= pkts r) l -> total_pkts (take k l) <= total_pkts l.
Proof.
  intros H. revert k. induction H as [|r l Hr H IH]; intros [|k]; simpl; try lia.
  - pose proof (total_pkts_nonneg _ H). lia.
  - specialize (IH k). lia.
Qed.

Lemma total_pkts_eligible wf now p fresh d i :
  Forall (fun r => 0 <= pkts r) fresh ->
  total_pkts (snd <$> eligible wf now p (drop d fresh) i) <= total_pkts fresh.
Proof.
  intros H. revert d i. induction H as [|r l Hr H IH]; intros d i; [by rewrite drop_nil|].
  destruct d as [|d]; simpl; [|etrans; [apply IH|lia]].
  specialize (IH 0%nat (S i)). rewrite drop_0 in IH.
  case_match; simpl; [apply Z.add_le_mono_l, IH | etrans; [exact IH|lia]].
Qed.

Lemma confirm_exact conf (l : list (nat * t)) :
  0 <= conf -> Forall (fun r => 0 <= pkts r) (snd <$> l) -> conf + total_pkts (snd <$> l) < 2 ^ 31 ->
  confirm true conf l = conf + total_pkts (snd <$> l).
Proof.
  revert conf. induction l as [|[j r] l IH]; intros conf Hc Hp Hb; [simpl in *; lia|].
  rewrite fmap_cons in Hp, Hb |- *. cbn [total_pkts snd] in *.
  apply list.Forall_cons in Hp as [Hr Hp]. unfold confirm. cbn [foldl snd].
  pose proof (total_pkts_nonneg _ Hp).
  rewrite (i32_id (pkts r)), (i32_id (conf + pkts r)) by (unfold is_i32; lia).
  etrans; [apply (IH (conf + pkts r)); [lia|done|lia]|lia].
Qed.

(** The part of the plan a caller accounts for. With the records in
    detection order (as they are kept), the retired prefix is exactly the set of records older than
    the play budget, and none when deadline handling is off; the confirmed packets
    are those of the never-reported records of the report. *)
Theorem srtla_plan_accounting (fresh : list t) (now : Z) (p : SrtlaNakParams) :
  StronglySorted older fresh -> Forall (fun r => 0 <= pkts r) fresh -> total_pkts fresh < 2 ^ 31 ->
  (forall j r, fresh !! j = Some r ->
     ((j < retire (srtlaPlanNak fresh now p))%nat <-> 0 < budget_us p /\ budget_us p < now - timestamp r))
  /\ exists k, (forall j r, (j, r) ∈ take k (first_time now p fresh) <->
                  (j, r) ∈ first_time now p fresh /\ j ∈ report (srtlaPlanNak fresh now p))
       /\ confirmed (srtlaPlanNak fresh now p) = total_pkts (snd <$> take k (first_time now p fresh)).
Proof.
  intros Hs Hp Ht. split.
  - intros j r Hj. unfold srtlaPlanNak. cbv zeta. rewrite Z.gtb_ltb.
    set (d := if _ <? _ then _ else _).
    assert ((j < d)%nat <-> 0 < budget_us p /\ budget_us p < now - timestamp r) as Hd.
    { unfold d. destruct (Z.ltb_spec 0 (budget_us p)); [rewrite (retire_count_exact _ _ _ _ _ Hs Hj)|]; lia. }
    clearbody d. repeat case_match; exact Hd.
  - destruct (plan_exact fresh now p) as (k1 & k2 & E & _ & _ & _ & Hc). cbv zeta in *. exists k1.
    split; [intros j r; by eapply first_pass_in_report|]. rewrite Hc.
    apply confirm_exact; [lia|..].
    + apply list.Forall_forall. intros r ([j r'] & -> & Hin%subseteq_take%live_lookup)%list_elem_of_fmap.
      rewrite list.Forall_forall in Hp. apply Hp. destruct Hin as (_ & Hin & _). by eapply list_elem_of_lookup_2.
    + simpl. eapply Z.le_lt_trans; [|exact Ht]. rewrite fmap_take.
      etrans; [apply total_pkts_take|]; [|apply total_pkts_eligible; done].
      apply list.Forall_forall. intros r ([j r'] & -> & Hin%live_lookup)%list_elem_of_fmap.
      rewrite list.Forall_forall in Hp. apply Hp. destruct Hin as (_ & Hin & _). by eapply list_elem_of_lookup_2.
Qed.

Definition sample : list t := [mk 10 12 0 5 0; mk 20 20 0 7 9].

Lemma sample_stands : stands_all sample [(10, 12); (20, 20)].
Proof. by repeat constructor. Qed.

Lemma srtla_plan_accounting_witness :
  StronglySorted older sample
  /\ exists k, confirmed (srtlaPlanNak sample 100 (mkNakParams 10 0 0 0 0 8))
       = total_pkts (snd <$> take k (first_time 100 (mkNakParams 10 0 0 0 0 8) sample)).
Proof.
  assert (StronglySorted older sample) as Hs by (repeat constructor; vm_compute; congruence).
  split; [exact Hs|].
  destruct (srtla_plan_accounting sample 100 (mkNakParams 10 0 0 0 0 8)) as [_ (k & _ & E)].
  - exact Hs.
  - repeat constructor; vm_compute; congruence.
  - vm_compute. reflexivity.
  - exists k. exact E.
Defined.

(** [CRcvFreshLoss::removeOne] finds a packet exactly when a record
    covers it and removes just that packet, deleting, stripping or splitting the record; the
    other packets stay recorded, every resulting record keeps the TTL and time
    history of the one it comes from, and the container stays in detection
    order. *)
Theorem fresh_remove_one_exact (recs : list t) (rs : list range) (lo hi y : Z) :
  stands_all recs rs -> ordered lo rs hi -> close rs y -> StronglySorted older recs ->
  let res := removeOne recs (seq_of y) in
  StronglySorted older (container res)
  /\ (found res = true <-> lost rs y)
  /\ (forall r', r' ∈ container res -> exists r, r ∈ recs
        /\ ttl r' = ttl r /\ timestamp r' = timestamp r /\ report_time r' = report_time r)
  /\ exists rs', stands_all (container res) rs' /\ ordered lo rs' hi
       /\ forall z, lost rs' z <-> lost rs z /\ z <> y.
Proof.
  intros HS Ho Hc Hs res. destruct (removeOne_exact recs rs lo hi y HS Ho Hc) as (rs' & ? & ? & ? & ? & ?).
  split; [by apply removeOne_sorted|]. eauto 10.
Qed.

Lemma fresh_remove_one_exact_witness :
  exists rs', stands_all (container (removeOne sample (seq_of 11))) rs'
    /\ forall z, lost rs' z <-> lost [(10, 12); (20, 20)] z /\ z <> 11.
Proof.
  destruct (fresh_remove_one_exact sample [(10, 12); (20, 20)] 0 100 11) as (_ & _ & _ & rs' & H1 & _ & H2).
  - exact sample_stands.
  - simpl. lia.
  - intros a b Hin. unfold CSeqNo.m_iSeqNoTH.
    apply elem_of_cons in Hin as [[= -> ->]|[[= -> ->]|Hin]%elem_of_cons]; [lia|lia|].
    by apply not_elem_of_nil in Hin.
  - repeat constructor; vm_compute; congruence.
  - exists rs'. split; [exact H1 | exact H2].
Defined.
