(* ===== verification/RcvLossCtl.v ===== *)
(** * The receiver's loss control (srtcore/core.cpp, class [CUDT])

    The part of the socket that keeps [m_pRcvLossList] and [m_FreshLoss]
    together: recording detected losses, removing belated and retransmitted
    packets ([unlose]), dropping ranges ([dropFromLossLists]), the TTL countdown
    of plain SRT and the time-gated SRTLA report of [checkNAKTimer], with the
    reordering hold that paces it. *)

From stdpp Require Import sorting.
From S2P Require Import Prelude SeqNo Ranges RcvLossList RcvLossListSpec RcvLossListRefine FreshLoss FreshLossSpec.

Module CUDT.

Definition SRTLA_WITNESS_TTL : Z := 2.
Definition SRTLA_HOLD_FLOOR_US : Z := 100000.
Definition SRTLA_HOLD_CAP_US : Z := 500000.
Definition SRTLA_HOLD_FALLBACK_US : Z := 250000.
Definition SRTLA_HOLD_EVIDENCE_MARGIN_US : Z := 30000.
Definition SRTLA_HOLD_DECAY_TAU_US : Z := 20000000.
Definition SRTLA_NAK_PERIOD_US : Z := 20000.
Definition SRTLA_DEADLINE_MARGIN_US : Z := 30000.

(** What the functions below only read: options, negotiated values and values
    kept by other parts of the socket. *)
Record env := mkEnv {
  bSRTLA : bool;
  bRcvNakReport : bool;
  arqAlways : bool;               (** [m_PktFilterRexmitLevel == SRT_ARQ_ALWAYS] *)
  iMaxReorderTolerance : Z;
  m_bPeerRexmitFlag : bool;
  m_iTsbPdDelay_ms : Z;
  m_bTsbPd : bool;
  m_iSRTT : Z;
  m_tdNAKInterval : Z;
  m_iMaxDataPayloadSize : Z;
  m_iRcvCurrSeqNo : Z
}.

Record state := mkState {
  m_pRcvLossList : CRcvLossList.t;
  m_FreshLoss : list CRcvFreshLoss.t;
  m_iReorderTolerance : Z;
  m_iConsecOrderedDelivery : Z;
  m_iConsecEarlyDelivery : Z;
  traceReorderDistance : Z;
  m_uiSrtlaHoldSteadyUs : Z;
  m_uiSrtlaHoldFastUs : Z;
  m_tsSrtlaHoldFastSet : Z;
  m_tsSrtlaHoldPollTime : Z;
  m_tsNextNAKTime : Z
}.

Definition set_lists (ll : CRcvLossList.t) (fl : list CRcvFreshLoss.t) (s : state) : state :=
  mkState ll fl (m_iReorderTolerance s) (m_iConsecOrderedDelivery s) (m_iConsecEarlyDelivery s)
    (traceReorderDistance s) (m_uiSrtlaHoldSteadyUs s) (m_uiSrtlaHoldFastUs s) (m_tsSrtlaHoldFastSet s)
    (m_tsSrtlaHoldPollTime s) (m_tsNextNAKTime s).

Definition set_reorder (tol ordered early dist : Z) (s : state) : state :=
  mkState (m_pRcvLossList s) (m_FreshLoss s) tol ordered early dist
    (m_uiSrtlaHoldSteadyUs s) (m_uiSrtlaHoldFastUs s) (m_tsSrtlaHoldFastSet s)
    (m_tsSrtlaHoldPollTime s) (m_tsNextNAKTime s).

Definition set_hold (steady fast fast_set poll : Z) (s : state) : state :=
  mkState (m_pRcvLossList s) (m_FreshLoss s) (m_iReorderTolerance s) (m_iConsecOrderedDelivery s)
    (m_iConsecEarlyDelivery s) (traceReorderDistance s) steady fast fast_set poll (m_tsNextNAKTime s).

Definition set_next_nak (v : Z) (s : state) : state :=
  mkState (m_pRcvLossList s) (m_FreshLoss s) (m_iReorderTolerance s) (m_iConsecOrderedDelivery s)
    (m_iConsecEarlyDelivery s) (traceReorderDistance s) (m_uiSrtlaHoldSteadyUs s) (m_uiSrtlaHoldFastUs s)
    (m_tsSrtlaHoldFastSet s) (m_tsSrtlaHoldPollTime s) v.

(** ** The reordering hold *)

Definition srtlaDecayedFastHold (stored_us age_us : Z) : Z :=
  if (stored_us =? 0) || (age_us >=? SRTLA_HOLD_DECAY_TAU_US) then 0
  else if age_us <=? 0 then stored_us
  else u32 (Z.quot (stored_us * (SRTLA_HOLD_DECAY_TAU_US - age_us)) SRTLA_HOLD_DECAY_TAU_US).

Definition srtlaReorderHoldUs (e : env) (s : state) (now : Z) : Z * state :=
  let steady_us := if m_uiSrtlaHoldSteadyUs s =? 0 then SRTLA_HOLD_FALLBACK_US else m_uiSrtlaHoldSteadyUs s in
  let fast_us := srtlaDecayedFastHold (m_uiSrtlaHoldFastUs s) (now - m_tsSrtlaHoldFastSet s) in
  let s := if fast_us =? 0
           then set_hold (m_uiSrtlaHoldSteadyUs s) 0 (m_tsSrtlaHoldFastSet s) (m_tsSrtlaHoldPollTime s) s else s in
  let hold := Z.max steady_us fast_us in
  let hold := if hold <? SRTLA_HOLD_FLOOR_US then SRTLA_HOLD_FLOOR_US else hold in
  let lat_half_us := u32 (u32 (m_iTsbPdDelay_ms e) * 500) in
  let cap := if (lat_half_us >? 0) && (lat_half_us <? SRTLA_HOLD_CAP_US) then lat_half_us else SRTLA_HOLD_CAP_US in
  (if hold >? cap then cap else hold, s).

(** ** Recording losses ([processData]) *)

Definition initial_loss_ttl (e : env) (s : state) : Z :=
  if bSRTLA e && m_bPeerRexmitFlag e then SRTLA_WITNESS_TTL
  else if negb (bSRTLA e) && m_bPeerRexmitFlag e then m_iReorderTolerance s
  else 0.

(** One iteration of the loop over [srt_loss_seqs]; [ttl] is the
    [initial_loss_ttl] taken on entry, [now] the clock reading of the record's
    constructor. *)
Definition record_loss (s : state) (ttl lo hi now : Z) : option state :=
  r ← CRcvLossList.insert (m_pRcvLossList s) lo hi;
  Some (set_lists (snd r)
          (if negb (ttl =? 0) then m_FreshLoss s ++ [CRcvFreshLoss.create lo hi ttl now] else m_FreshLoss s) s).

(** The belated-report block of [processData]: the SRTLA countdown, or the
    report of plain SRT with the words of the report and the packets confirmed
    as lost. *)
Definition addLossRecord (lr : list Z) (lo hi : Z) : list Z :=
  if lo =? hi then lr ++ [lo] else lr ++ [Z.lor lo CRcvLossList.LOSSDATA_SEQNO_RANGE_FIRST; hi].

Fixpoint take_expired (fresh : list CRcvFreshLoss.t) (lossdata : list Z) (confirmed : Z)
    : list CRcvFreshLoss.t * list Z * Z :=
  match fresh with
  | r :: rest =>
    if CRcvFreshLoss.ttl r <=? 0 then
      take_expired rest (addLossRecord lossdata (CRcvFreshLoss.seq0 r) (CRcvFreshLoss.seq1 r))
        (i32 (confirmed + (CSeqNo.seqoff (CRcvFreshLoss.seq0 r) (CRcvFreshLoss.seq1 r) + 1)))
    else (fresh, lossdata, confirmed)
  | [] => ([], lossdata, confirmed)
  end.

Definition countdown (r : CRcvFreshLoss.t) : CRcvFreshLoss.t :=
  CRcvFreshLoss.set_ttl (CRcvFreshLoss.ttl r - 1) r.

Definition fresh_loss_tick (e : env) (s : state) (ttl : Z) : list Z * Z * state :=
  if negb (ttl =? 0) then
    if bSRTLA e then
      ([], 0, set_lists (m_pRcvLossList s)
                (map (fun r => if CRcvFreshLoss.ttl r >? 0 then countdown r else r) (m_FreshLoss s)) s)
    else
      let '(rest, lossdata, confirmed) := take_expired (m_FreshLoss s) [] 0 in
      (lossdata, confirmed, set_lists (m_pRcvLossList s) (map countdown rest) s)
  else ([], 0, s).

(** The end of [processData]: 50 packets in order lower the tolerance. *)
Definition ordered_delivery (e : env) (s : state) (was_sent_in_order : bool) : state :=
  if m_bPeerRexmitFlag e && was_sent_in_order then
    let n := i32 (m_iConsecOrderedDelivery s + 1) in
    if negb (bSRTLA e) && (n >=? 50) then
      if m_iReorderTolerance s >? 0
      then set_reorder (m_iReorderTolerance s - 1) 0 (m_iConsecEarlyDelivery s) (i32 (traceReorderDistance s - 1)) s
      else set_reorder (m_iReorderTolerance s) 0 (m_iConsecEarlyDelivery s) (traceReorderDistance s) s
    else set_reorder (m_iReorderTolerance s) n (m_iConsecEarlyDelivery s) (traceReorderDistance s) s
  else s.

(** ** Packets behind the received sequence *)

(** The first half of [unlose]: the dynamic reorder tolerance. *)
Definition unlose_tolerance (e : env) (s : state) (sequence : Z) (rexmit : bool) : bool * bool * state :=
  if m_bPeerRexmitFlag e && negb rexmit then
    let seqdiff := c_abs (CSeqNo.seqcmp (m_iRcvCurrSeqNo e) sequence) in
    let dist := Z.max seqdiff (traceReorderDistance s) in
    if seqdiff >? m_iReorderTolerance s then
      (true, true, set_reorder (Z.min seqdiff (iMaxReorderTolerance e)) (m_iConsecOrderedDelivery s)
                     (m_iConsecEarlyDelivery s) dist s)
    else (true, false, set_reorder (m_iReorderTolerance s) (m_iConsecOrderedDelivery s)
                         (m_iConsecEarlyDelivery s) dist s)
  else (false, false, s).

(** SRTLA: a belated original raises the fast hold. [now1], [now2], [now3] are
    the three clock readings, in order. *)
Definition unlose_evidence (e : env) (s : state) (was_reordered : bool) (detect_time : option Z)
    (now1 now2 now3 : Z) : state :=
  match detect_time with
  | None => s
  | Some dt =>
    if bSRTLA e && was_reordered && negb (is_zero dt) then
      let late_us := now1 - dt in
      if late_us >? 0 then
        let want_us := u32 (Z.min (late_us + SRTLA_HOLD_EVIDENCE_MARGIN_US) SRTLA_HOLD_CAP_US) in
        if want_us >? srtlaDecayedFastHold (m_uiSrtlaHoldFastUs s) (now2 - m_tsSrtlaHoldFastSet s)
        then set_hold (m_uiSrtlaHoldSteadyUs s) want_us now3 (m_tsSrtlaHoldPollTime s) s
        else s
      else s
    else s
  end.

(** The end of [unlose]: the counters of early deliveries. *)
Definition unlose_counters (e : env) (s : state) (increased : bool) (had_ttl : Z) : state :=
  if increased then set_reorder (m_iReorderTolerance s) 0 0 (traceReorderDistance s) s
  else if had_ttl >? 2 then
    let early := i32 (m_iConsecEarlyDelivery s + 1) in
    if negb (bSRTLA e) && (early >=? 10) then
      if m_iReorderTolerance s >? 0
      then set_reorder (m_iReorderTolerance s - 1) 0 0 (i32 (traceReorderDistance s - 1)) s
      else set_reorder (m_iReorderTolerance s) 0 0 (traceReorderDistance s) s
    else set_reorder (m_iReorderTolerance s) 0 early (traceReorderDistance s) s
  else set_reorder (m_iReorderTolerance s) 0 (m_iConsecEarlyDelivery s) (traceReorderDistance s) s.

(** "Don't do anything if the belated loss report feature is not used." *)
Definition no_belated_report (e : env) (s : state) : bool :=
  negb (m_bPeerRexmitFlag e) || (negb (bSRTLA e) && (m_iReorderTolerance s =? 0)).

Definition unlose (e : env) (s : state) (sequence : Z) (rexmit : bool) (now1 now2 now3 : Z) : option state :=
  r ← CRcvLossList.remove (m_pRcvLossList s) sequence;
  let s := set_lists (snd r) (m_FreshLoss s) s in
  let '(was_reordered, increased, s) := unlose_tolerance e s sequence rexmit in
  if no_belated_report e s then Some s
  else
    let res := CRcvFreshLoss.removeOne (m_FreshLoss s) sequence in
    let s := set_lists (m_pRcvLossList s) (CRcvFreshLoss.container res) s in
    let s := if CRcvFreshLoss.found res
             then unlose_evidence e s was_reordered (CRcvFreshLoss.detect_time res) now1 now2 now3 else s in
    Some (if was_reordered then unlose_counters e s increased (CRcvFreshLoss.had_ttl res) else s).

Definition dropFromLossLists (fuel : nat) (e : env) (s : state) (from to : Z) : option state :=
  ll ← (if from =? SRT_SEQNO_NONE then r ← CRcvLossList.removeUpTo fuel (m_pRcvLossList s) to; Some (snd r)
        else r ← CRcvLossList.remove_range fuel (m_pRcvLossList s) from to; Some (snd r));
  let s := set_lists ll (m_FreshLoss s) s in
  if no_belated_report e s then Some s
  else Some (set_lists ll (CRcvFreshLoss.drop_range (m_FreshLoss s) from to) s).

(** ** The NAK timer *)

(** What is sent: nothing, the whole loss list, or the given words together with
    the packets counted as confirmed. *)
Inductive nak_sent := NakNone | NakLossList | NakWords (lossdata : list Z) (confirmed : Z).

Definition nak_params (e : env) (s : state) (hold : Z) : SrtlaNakParams :=
  mkNakParams hold
    (Z.max (m_iSRTT e + Z.max (m_uiSrtlaHoldSteadyUs s) 20000) (m_tdNAKInterval e))
    (if m_bTsbPd e then m_iTsbPdDelay_ms e * 1000 else 0)
    (m_iSRTT e) SRTLA_DEADLINE_MARGIN_US (Z.to_nat (Z.quot (m_iMaxDataPayloadSize e) 4)).

(** The loop over [plan.report]: the words of the report and the stamped
    records. *)
Fixpoint report_records (idx : list nat) (now : Z) (fresh : list CRcvFreshLoss.t) (lossdata : list Z)
    : list CRcvFreshLoss.t * list Z :=
  match idx with
  | [] => (fresh, lossdata)
  | k :: idx =>
    match fresh !! k with
    | Some rec =>
      report_records idx now (<[k := CRcvFreshLoss.set_report_time now rec]> fresh)
        (addLossRecord lossdata (CRcvFreshLoss.seq0 rec) (CRcvFreshLoss.seq1 rec))
    | None => (fresh, lossdata)
    end
  end.

(** The SRTLA branch; [steady] is [m_pSrtlaRec->holdSteadyUs(m_SocketID)], when
    there is such a receiver. *)
Definition srtla_report (e : env) (s : state) (now : Z) (steady : option Z) : nak_sent * state :=
  let s := if now - m_tsSrtlaHoldPollTime s >=? 1000000
           then set_hold (from_option id (m_uiSrtlaHoldSteadyUs s) steady) (m_uiSrtlaHoldFastUs s)
                  (m_tsSrtlaHoldFastSet s) now s
           else s in
  let '(hold, s) := srtlaReorderHoldUs e s now in
  let plan := srtlaPlanNak (m_FreshLoss s) now (nak_params e s hold) in
  let '(fresh, lossdata) := report_records (report plan) now (m_FreshLoss s) [] in
  let s := set_lists (m_pRcvLossList s) (drop (retire plan) fresh) s in
  match lossdata with
  | [] => (NakNone, s)
  | _ => (NakWords lossdata (confirmed plan), s)
  end.

Definition srtla_emitter (e : env) : bool := bSRTLA e && m_bPeerRexmitFlag e.

Definition checkNAKTimer (e : env) (s : state) (now : Z) (steady : option Z) : nak_sent * state :=
  if (negb (bRcvNakReport e) && negb (srtla_emitter e)) || negb (arqAlways e) then (NakNone, s)
  else
    let next := if srtla_emitter e && (m_tdNAKInterval e >? SRTLA_NAK_PERIOD_US)
                then SRTLA_NAK_PERIOD_US else m_tdNAKInterval e in
    if CRcvLossList.getLossLength (m_pRcvLossList s) >? 0 then
      if now <=? m_tsNextNAKTime s then (NakNone, s)
      else
        let '(sent, s) := if srtla_emitter e then srtla_report e s now steady else (NakLossList, s) in
        (sent, set_next_nak (now + next) s)
    else (NakNone, set_next_nak (now + next) s).

(** ** Sequences of events *)

Inductive event :=
| EvLoss (ttl lo hi now : Z)
| EvTick (ttl : Z)
| EvOrdered (in_order : bool)
| EvUnlose (sequence : Z) (rexmit : bool) (now1 now2 now3 : Z)
| EvDrop (fuel : nat) (from to : Z)
| EvNak (now : Z) (steady : option Z).

Definition step (e : env) (s : state) (ev : event) : option state :=
  match ev with
  | EvLoss ttl lo hi now => record_loss s ttl lo hi now
  | EvTick ttl => Some (snd (fresh_loss_tick e s ttl))
  | EvOrdered b => Some (ordered_delivery e s b)
  | EvUnlose sequence rexmit now1 now2 now3 => unlose e s sequence rexmit now1 now2 now3
  | EvDrop fuel from to => dropFromLossLists fuel e s from to
  | EvNak now steady => Some (snd (checkNAKTimer e s now steady))
  end.

Fixpoint run (e : env) (s : state) (evs : list event) : option state :=
  match evs with [] => Some s | ev :: evs => s' ← step e s ev; run e s' evs end.

Definition initial (junk size tolerance : Z) : state :=
  mkState (CRcvLossList.create junk size) [] tolerance 0 0 0 0 0 0 0 0.

End CUDT.

Import CUDT.

(** ** The hold *)

Lemma decayed_bounds stored age :
  0 <= stored < 2 ^ 32 -> 0 <= srtlaDecayedFastHold stored age <= stored.
Proof.
  intros H. unfold srtlaDecayedFastHold, SRTLA_HOLD_DECAY_TAU_US. rewrite Z.geb_leb.
  destruct (Z.eqb_spec stored 0), (Z.leb_spec 20000000 age), (Z.leb_spec age 0); simpl; try lia.
  rewrite Z.quot_div_nonneg by nia.
  assert (0 <= stored * (20000000 - age) / 20000000 <= stored).
  { split; [apply Z.div_pos; nia|]. apply Z.div_le_upper_bound; nia. }
  rewrite u32_id by (unfold is_u32; lia). lia.
Qed.

(** The reordering hold that delays loss reports is bounded: never above
    half a second nor half of the latency, and never below a tenth of a second
    when the latency is at least 200 ms; belated-packet evidence only decays:
    the fast part never exceeds its stored value. *)
Theorem srtla_hold_bounds (e : env) (s : state) (now : Z) :
  0 <= m_uiSrtlaHoldFastUs s < 2 ^ 32 -> 0 <= m_iTsbPdDelay_ms e < 2 ^ 31 ->
  let hold := fst (srtlaReorderHoldUs e s now) in
  0 <= srtlaDecayedFastHold (m_uiSrtlaHoldFastUs s) (now - m_tsSrtlaHoldFastSet s) <= m_uiSrtlaHoldFastUs s
  /\ 0 <= hold <= SRTLA_HOLD_CAP_US
  /\ (0 < m_iTsbPdDelay_ms e <= 8589934 -> hold <= m_iTsbPdDelay_ms e * 500)
  /\ (m_iTsbPdDelay_ms e = 0 \/ 200 <= m_iTsbPdDelay_ms e <= 8589934 -> SRTLA_HOLD_FLOOR_US <= hold).
Proof.
  intros Hf Hd. split; [by apply decayed_bounds|].
  pose proof (decayed_bounds (m_uiSrtlaHoldFastUs s) (now - m_tsSrtlaHoldFastSet s) Hf) as Hb.
  unfold srtlaReorderHoldUs. cbv zeta. simpl.
  set (f := srtlaDecayedFastHold _ _) in *. clearbody f.
  set (st := if m_uiSrtlaHoldSteadyUs s =? 0 then _ else _). clearbody st.
  unfold SRTLA_HOLD_FLOOR_US, SRTLA_HOLD_CAP_US.
  rewrite (u32_id (m_iTsbPdDelay_ms e)) by (unfold is_u32; lia).
  pose proof (u32_range (m_iTsbPdDelay_ms e * 500)) as Hr. unfold is_u32 in Hr.
  assert (m_iTsbPdDelay_ms e <= 8589934 -> u32 (m_iTsbPdDelay_ms e * 500) = m_iTsbPdDelay_ms e * 500) as Hu
    by (intros; apply u32_id; unfold is_u32; lia).
  rewrite !Z.gtb_ltb.
  destruct (Z.ltb_spec 0 (u32 (m_iTsbPdDelay_ms e * 500))), (Z.ltb_spec (u32 (m_iTsbPdDelay_ms e * 500)) 500000);
    simpl; split_ifs; repeat split; intros; try lia.
Qed.

Lemma srtla_hold_bounds_witness :
  fst (srtlaReorderHoldUs (mkEnv true true true 0 true 2000 true 50000 20000 1456 0) (initial 0 8 0) 1000000) = 250000
  /\ 250000 <= SRTLA_HOLD_CAP_US.
Proof.
  split; [vm_compute; reflexivity|].
  apply (srtla_hold_bounds (mkEnv true true true 0 true 2000 true 50000 20000 1456 0) (initial 0 8 0) 1000000);
    simpl; lia.
Defined.
