(* ===== verification/RcvLossInv.v ===== *)
(** * Consistency of the receiver's two loss records under SRTLA

    A lost packet is kept in [m_pRcvLossList] (until recovered or dropped) and,
    under SRTLA, in a record of [m_FreshLoss] (until recovered, dropped or past
    its play deadline). The states reachable by the socket's events keep the
    two consistent: every packet of a fresh record is in the loss list. *)

From stdpp Require Import sorting.
From S2P Require Import Prelude SeqNo Ranges RcvLossList RcvLossListSpec RcvLossListRefine FreshLoss FreshLossSpec RcvLossCtl.
Import CRcvFreshLoss CUDT.

(** ** Events on packet indices *)

Inductive loss_event :=
| LLoss (ttl x1 x2 now : Z)
| LTick (ttl : Z)
| LOrdered (in_order : bool)
| LUnlose (y : Z) (rexmit : bool) (now1 now2 now3 : Z)
| LDrop (fuel : nat) (from : option Z) (y : Z)
| LNak (now : Z) (steady : option Z).

Definition wire (ev : loss_event) : event :=
  match ev with
  | LLoss ttl x1 x2 now => EvLoss ttl (seq_of x1) (seq_of x2) now
  | LTick ttl => EvTick ttl
  | LOrdered b => EvOrdered b
  | LUnlose y rexmit n1 n2 n3 => EvUnlose (seq_of y) rexmit n1 n2 n3
  | LDrop fuel from y => EvDrop fuel (from_option seq_of SRT_SEQNO_NONE from) (seq_of y)
  | LNak now steady => EvNak now steady
  end.

Definition first_lost (A : loss_set) : option Z :=
  match elements (lostset A) with [] => None | x :: l => Some (foldr Z.min x l) end.

Definition spec_drop (A : loss_set) (from : option Z) (y : Z) : loss_set :=
  match from with
  | Some x0 => spec_remove_n A x0 (Z.to_nat (y - x0 + 1))
  | None =>
    match first_lost A with
    | Some x => if y <? x then A else spec_remove_n A x (Z.to_nat (y - x + 1))
    | None => A
    end
  end.

(** The effect of an event on the set of lost packets. *)
Definition spec_event (A : loss_set) (ev : loss_event) : loss_set :=
  match ev with
  | LLoss _ x1 x2 _ => snd (spec_insert A x1 x2)
  | LUnlose y _ _ _ _ => snd (spec_remove A y)
  | LDrop _ from y => spec_drop A from y
  | _ => A
  end.

(** The contract of an event: a detected loss is newer than anything seen and
    fits the list; all numbers are within half of the sequence space; the clock
    does not run backwards; the drop loop has an iteration per packet. *)
Definition event_ok (s : state) (A : loss_set) (ev : loss_event) : Prop :=
  match ev with
  | LLoss ttl x1 x2 now =>
    nearby A x1 /\ nearby A x2 /\ x1 <= x2 /\ (forall m, seen A = Some m -> m < x1)
    /\ fits (CRcvLossList.m_iSize (m_pRcvLossList s)) A x1 x2
    /\ Forall (fun r => timestamp r <= now) (m_FreshLoss s)
  | LUnlose y _ _ _ _ => nearby A y
  | LDrop fuel from y =>
    nearby A y
    /\ match from with
       | Some x0 => x0 <= y /\ nearby A x0 /\ y - x0 + 1 < CSeqNo.m_iSeqNoTH /\ y - x0 < Z.of_nat fuel
       | None => forall x, x ∈ lostset A ->
           nearby A x /\ y - x + 1 < CSeqNo.m_iSeqNoTH /\ y - x < Z.of_nat fuel
       end
  | _ => True
  end.

(** ** The invariant *)

Record inv (s : state) (A : loss_set) (rs : list range) : Prop := {
  inv_models : models (m_pRcvLossList s) A;
  inv_stands : stands_all (m_FreshLoss s) rs;
  inv_ordered : exists lo hi, ordered lo rs hi;
  inv_sub : forall z, lost rs z -> z ∈ lostset A;
  inv_sorted : StronglySorted older (m_FreshLoss s)
}.

Lemma inv_close s A rs y : inv s A rs -> nearby A y -> close rs y.
Proof.
  intros I [_ H] a b Hin. destruct (inv_ordered _ _ _ I) as (lo & hi & Ho).
  pose proof (ordered_elem _ _ _ _ _ Ho Hin).
  split; apply H, (inv_sub _ _ _ I); exists a, b; split; done || lia.
Qed.

Lemma first_lost_spec A :
  match first_lost A with
  | None => lostset A = ∅
  | Some x => x ∈ lostset A /\ forall y, y ∈ lostset A -> x <= y
  end.
Proof.
  unfold first_lost. destruct (elements (lostset A)) as [|x l] eqn:E.
  - apply elements_empty_inv in E. by apply leibniz_equiv.
  - assert (forall y, y ∈ lostset A <-> y ∈ x :: l) as HA by (intros y; rewrite <- E; set_solver).
    assert (forall l', foldr Z.min x l' ∈ x :: l' /\ forall y, y ∈ x :: l' -> foldr Z.min x l' <= y) as Hm.
    { induction l' as [|z l' [IH1 IH2]]; simpl; [set_solver by lia|]. split.
      - destruct (Z.min_spec z (foldr Z.min x l')) as [[_ ->]|[_ ->]]; [set_solver|].
        apply elem_of_cons in IH1 as [->|?]; set_solver.
      - intros y Hy. assert (y = z \/ y ∈ x :: l') as [->|Hy'] by set_solver; [lia|]. specialize (IH2 _ Hy'). lia. }
    destruct (Hm l) as [H1 H2]. rewrite HA. split; [done|]. intros y Hy%HA. auto.
Qed.

(** Range and time of a record, all that the invariant looks at. *)
Definition same_core (r r' : t) : Prop :=
  seq0 r' = seq0 r /\ seq1 r' = seq1 r /\ timestamp r' = timestamp r.

Lemma same_core_inv s A rs fresh' s' :
  inv s A rs -> Forall2 same_core (m_FreshLoss s) fresh' ->
  m_pRcvLossList s' = m_pRcvLossList s -> m_FreshLoss s' = fresh' -> inv s' A rs.
Proof.
  intros [Hm Hs Ho Hsub Hso] HF Hl Hf. constructor; rewrite ?Hl, ?Hf; try done.
  - clear - Hs HF. revert rs Hs. induction HF as [|r r' l l' (E0 & E1 & _) HF IH]; intros rs Hs;
      inversion Hs as [|? n ? rs' [H0 H1] ?]; subst; constructor; [|by apply IH].
    split; congruence.
  - clear - Hso HF. induction HF as [|r r' l l' (_ & _ & Et) HF IH]; [constructor|].
    inversion Hso as [|? ? Hso' Hall]; subst. constructor; [by apply IH|].
    clear IH Hso Hso'. induction HF as [|x x' l l' (_ & _ & Ex) HF IH]; [constructor|].
    inversion Hall; subst. constructor; [unfold older in *; congruence|by apply IH].
Qed.

Lemma same_core_refl l : Forall2 same_core l l.
Proof. induction l; constructor; [done|done]. Qed.

Lemma same_core_map (f : t -> t) l : (forall r, same_core r (f r)) -> Forall2 same_core l (map f l).
Proof. intros H. induction l; constructor; [apply H|done]. Qed.

Lemma report_records_core idx now l0 fresh lossdata :
  Forall2 same_core l0 fresh -> Forall2 same_core l0 (fst (report_records idx now fresh lossdata)).
Proof.
  revert fresh lossdata. induction idx as [|k idx IH]; intros fresh lossdata HF; simpl; [done|].
  destruct (fresh !! k) as [r|] eqn:E; [|done]. apply IH.
  destruct (Forall2_lookup_r _ _ _ _ _ HF E) as (r0 & E0 & Hc).
  rewrite <- (list_insert_id l0 k r0) by done. by apply Forall2_insert.
Qed.

(** Retiring a prefix of the records. *)
Lemma inv_drop s A rs n s' :
  inv s A rs -> m_pRcvLossList s' = m_pRcvLossList s -> m_FreshLoss s' = drop n (m_FreshLoss s) ->
  inv s' A (drop n rs).
Proof.
  intros [Hm Hs (lo & hi & Ho) Hsub Hso] Hl Hf. constructor; rewrite ?Hl, ?Hf; try done.
  - by apply Forall2_drop.
  - clear - Ho. revert n lo Ho. induction rs as [|[a b] rs IH]; intros [|n] lo Ho; simpl; eauto.
    destruct Ho as (_ & _ & Ho). by eapply IH.
  - intros z (a & b & Hin & ?). apply Hsub. exists a, b. split; [|done].
    rewrite <- (take_drop n rs). apply elem_of_app. by right.
  - clear - Hso. revert n. induction Hso as [|r l Hs IH Hall]; intros [|n]; simpl; try constructor; auto.
Qed.

Lemma ordered_bound lo rs hi hi' :
  ordered lo rs hi -> (forall a b, (a, b) ∈ rs -> b < hi') -> ordered lo rs hi'.
Proof.
  revert lo. induction rs as [|[a b] rs IH]; intros lo; simpl; [done|].
  intros (? & _ & Ho) Hb. split; [done|]. split; [apply (Hb a b); constructor|].
  apply IH; [done|]. intros a' b' Hin. apply (Hb a' b'). by constructor.
Qed.

Lemma StronglySorted_snoc l r :
  StronglySorted older l -> Forall (fun x => timestamp x <= timestamp r) l -> StronglySorted older (l ++ [r]).
Proof.
  induction 1 as [|x l Hs IH Hall]; intros HF; simpl; [by repeat constructor|].
  apply list.Forall_cons in HF as [Hx HF]. constructor; [by apply IH|].
  apply Forall_app. split; [done|]. by repeat constructor.
Qed.

Lemma loss_inv s A rs ttl x1 x2 now :
  inv s A rs -> event_ok s A (LLoss ttl x1 x2 now) ->
  exists s' rs', record_loss s ttl (seq_of x1) (seq_of x2) now = Some s'
    /\ inv s' (snd (spec_insert A x1 x2)) rs'.
Proof.
  intros I (N1 & N2 & Hx & Hnew & Hfit & Ht). pose proof I as [Hm Hs (lo & hi & Ho) Hsub Hso].
  assert (cutoff (seen A) x1 = x1) as Hcut
    by (unfold cutoff; destruct (seen A) as [m|]; [specialize (Hnew m eq_refl); lia | done]).
  destruct (insert_models _ A x1 x2 Hm N1 N2 Hx) as (l' & E & Hm'); [by rewrite Hcut|].
  unfold record_loss. rewrite E. simpl.
  assert (lostset (snd (spec_insert A x1 x2)) = lostset A ∪ range_set x1 x2) as Hset.
  { unfold spec_insert. rewrite Hcut. destruct (Z.ltb_spec x2 x1); [lia|done]. }
  destruct (Z.eqb_spec ttl 0) as [->|Httl]; simpl negb; cbv iota.
  - eexists _, rs. split; [done|]. constructor; simpl; eauto. intros z Hz. rewrite Hset.
    apply elem_of_union. left. by apply Hsub.
  - assert (forall a b, (a, b) ∈ rs -> b < x1) as Hold.
    { intros a b Hin. pose proof (ordered_elem _ _ _ _ _ Ho Hin).
      assert (b ∈ lostset A) as Hb by (apply Hsub; exists a, b; split; [done|lia]).
      destruct Hm as (c & nodes & R & HS). apply HS in Hb as (a' & b' & Hin' & ?).
      pose proof (rep_largest _ _ _ _ R) as HL. destruct (seen A) as [m|].
      - destruct HL as [_ HL]. specialize (HL _ _ Hin'). specialize (Hnew m eq_refl). lia.
      - destruct HL as [_ ->]. by apply not_elem_of_nil in Hin'. }
    eexists _, (rs ++ [(x1, x2)]). split; [done|]. constructor; simpl.
    + done.
    + apply Forall2_app; [done|]. by repeat constructor.
    + exists (Z.min lo x1), (x2 + 1). apply ordered_join; [|lia|lia|done].
      eapply ordered_weaken; [eapply ordered_bound; [exact Ho|exact Hold]|lia|lia].
    + intros z. rewrite lost_app, lost_cons, lost_nil, Hset, elem_of_union, elem_of_range_set.
      intros [?%Hsub|[?|[]]]; auto.
    + by apply StronglySorted_snoc.
Qed.

(** Under SRTLA [unlose] takes the packet out of both records. *)
Lemma unlose_lists e s seq rexmit n1 n2 n3 b l' :
  srtla_emitter e = true -> CRcvLossList.remove (m_pRcvLossList s) seq = Some (b, l') ->
  exists s', unlose e s seq rexmit n1 n2 n3 = Some s'
    /\ m_pRcvLossList s' = l' /\ m_FreshLoss s' = container (removeOne (m_FreshLoss s) seq).
Proof.
  unfold srtla_emitter. intros [Hs Hp]%andb_true_iff Hr. unfold unlose. rewrite Hr. cbn [mbind option_bind snd].
  set (s1 := set_lists l' (m_FreshLoss s) s).
  assert (m_pRcvLossList (snd (unlose_tolerance e s1 seq rexmit)) = l'
    /\ m_FreshLoss (snd (unlose_tolerance e s1 seq rexmit)) = m_FreshLoss s) as [H1 H2]
    by (unfold unlose_tolerance; repeat case_match; done).
  destruct (unlose_tolerance e s1 seq rexmit) as [[wr inc] s2]. simpl in H1, H2. clearbody s1.
  unfold no_belated_report. rewrite Hs, Hp, H2. simpl. eexists. split; [reflexivity|].
  unfold unlose_counters, unlose_evidence. repeat case_match; done.
Qed.

Lemma unlose_inv e s A rs y rexmit n1 n2 n3 :
  srtla_emitter e = true -> inv s A rs -> nearby A y ->
  exists s' rs', unlose e s (seq_of y) rexmit n1 n2 n3 = Some s'
    /\ inv s' (snd (spec_remove A y)) rs' /\ (forall z, lost rs' z <-> lost rs z /\ z <> y).
Proof.
  intros He I Hy. pose proof (inv_close _ _ _ _ I Hy) as Hc. destruct I as [Hm Hs (lo & hi & Ho) Hsub Hso].
  destruct (remove_models _ _ _ Hm Hy) as (l' & E & Hm').
  destruct (unlose_lists e s (seq_of y) rexmit n1 n2 n3 _ _ He E) as (s' & E' & Hl & Hf).
  destruct (removeOne_exact _ _ _ _ _ Hs Ho Hc) as (rs' & Hs' & Ho' & _ & Hl' & _).
  exists s', rs'. split; [done|]. split; [|done]. constructor; rewrite ?Hl, ?Hf; eauto.
  - intros z [Hz Hne]%Hl'. rewrite spec_remove_lost. apply elem_of_difference. split; [auto|set_solver].
  - by apply removeOne_sorted.
Qed.

(** The list part of a drop. *)
Lemma drop_list_models s A fuel from y :
  models (m_pRcvLossList s) A -> event_ok s A (LDrop fuel from y) ->
  exists l', (if from_option seq_of SRT_SEQNO_NONE from =? SRT_SEQNO_NONE
      then r ← CRcvLossList.removeUpTo fuel (m_pRcvLossList s) (seq_of y); Some (snd r)
      else r ← CRcvLossList.remove_range fuel (m_pRcvLossList s) (from_option seq_of SRT_SEQNO_NONE from) (seq_of y);
           Some (snd r)) = Some l'
    /\ models l' (spec_drop A from y).
Proof.
  intros Hm [Hy Hok]. destruct from as [x0|]; simpl in *.
  - rewrite seq_of_not_none. destruct Hok as (Hxy & Hx0 & Hth & Hfuel). unfold CRcvLossList.remove_range.
    pose proof (seqcmp_seq_of_sgn x0 y ltac:(lia)). rewrite Z.gtb_ltb.
    destruct (Z.ltb_spec 0 (CSeqNo.seqcmp (seq_of x0) (seq_of y))); [lia|].
    destruct (remove_loop_models fuel (m_pRcvLossList s) A x0 (Z.to_nat (y - x0 + 1))) as (l' & E & Hm'); try done; try lia.
    + intros z Hz. apply (nearby_between A x0 y); [done|done|lia].
    + rewrite Z2Nat.id in E by lia. replace (x0 + (y - x0 + 1) - 1) with y in E by lia. rewrite E. simpl. eauto.
  - pose proof (first_lost_spec A) as Hfl. unfold CRcvLossList.removeUpTo.
    destruct (models_first _ _ Hm) as [[He ->]|(x & Hx & Hmin & ->)]; simpl.
    + destruct (first_lost A) as [x|]; [destruct Hfl as [Hfl _]; rewrite He in Hfl; set_solver|]. eauto.
    + destruct (first_lost A) as [x'|]; [|rewrite Hfl in Hx; set_solver]. destruct Hfl as [Hx' Hmin'].
      assert (x' = x) as -> by (specialize (Hmin _ Hx'); specialize (Hmin' _ Hx); lia).
      destruct (Hok x Hx) as (Hnx & Hth & Hfuel). rewrite seq_of_not_none.
      pose proof (seqcmp_seq_of_sgn y x (proj2 Hy x Hx)).
      destruct (Z.ltb_spec (CSeqNo.seqcmp (seq_of y) (seq_of x)) 0), (Z.ltb_spec y x); try lia; simpl; eauto.
      destruct (remove_loop_models fuel (m_pRcvLossList s) A x (Z.to_nat (y - x + 1))) as (l' & E & Hm'); try done; try lia.
      * intros z Hz. apply (nearby_between A x y); [done|done|lia].
      * rewrite Z2Nat.id in E by lia. replace (x + (y - x + 1) - 1) with y in E by lia. rewrite E. simpl. eauto.
Qed.

Lemma spec_drop_lost A from y z :
  z ∈ lostset A -> y < z \/ (exists x0, from = Some x0 /\ z < x0) -> z ∈ lostset (spec_drop A from y).
Proof.
  intros Hz Hor. unfold spec_drop. destruct from as [x0|].
  - rewrite spec_remove_n_lost. apply elem_of_difference. split; [done|]. rewrite elem_of_range_set.
    destruct Hor as [?|(? & [= <-] & ?)]; lia.
  - destruct Hor as [Hor|(? & ? & _)]; [|done]. destruct (first_lost A) as [x|]; [|done].
    destruct (Z.ltb_spec y x); [done|]. rewrite spec_remove_n_lost. apply elem_of_difference.
    split; [done|]. rewrite elem_of_range_set. lia.
Qed.

Lemma drop_inv e s A rs fuel from y :
  srtla_emitter e = true -> inv s A rs -> event_ok s A (LDrop fuel from y) ->
  exists s' rs', dropFromLossLists fuel e s (from_option seq_of SRT_SEQNO_NONE from) (seq_of y) = Some s'
    /\ inv s' (spec_drop A from y) rs' /\ (forall z, lost rs' z <-> lost rs z /\ y < z).
Proof.
  intros He I Hok. pose proof Hok as [Hy Hok'].
  pose proof (inv_close _ _ _ _ I Hy) as Hc.
  assert (Hfrom : from_option seq_of SRT_SEQNO_NONE from = SRT_SEQNO_NONE
    \/ (from_option seq_of SRT_SEQNO_NONE from = seq_of (from_option id 0 from)
        /\ from_option id 0 from <= y /\ close rs (from_option id 0 from))).
  { destruct from as [x0|]; [right|by left]. destruct Hok' as (? & Hx0 & _). simpl.
    split; [done|]. split; [done|]. by eapply inv_close. }
  destruct I as [Hm Hs (lo & hi & Ho) Hsub Hso].
  destruct (drop_list_models _ _ _ _ _ Hm Hok) as (l' & E & Hm').
  destruct (drop_range_exact _ _ _ _ _ _ _ Hs Ho Hc Hfrom) as (rs' & Hs' & Ho' & Hl').
  unfold srtla_emitter in He. apply andb_true_iff in He as [H1 H2].
  unfold dropFromLossLists. rewrite E. cbn [mbind option_bind]. unfold no_belated_report. rewrite H1, H2. simpl.
  eexists _, rs'. split; [reflexivity|]. split; [|done]. constructor; simpl; eauto.
  - intros z [Hz Hgt]%Hl'. apply spec_drop_lost; [auto|by left].
  - clear - Hso. induction Hso as [|r l Hs IH Hall]; simpl; [constructor|].
    unfold revoke_range. repeat case_match; simplify_eq; try done; by constructor.
Qed.

(** ** The loss report *)

Lemma models_width l A x y : models l A -> x ∈ lostset A -> y ∈ lostset A -> Z.abs (x - y) < 2 ^ 29.
Proof.
  intros Hm Hx Hy. destruct (models_first _ _ Hm) as [[He _]|(z & _ & Hmin & _)]; [set_solver|].
  pose proof (Hmin _ Hx). pose proof (Hmin _ Hy). destruct Hm as (c & nodes & R & _).
  pose proof (rep_size _ _ _ _ R). lia.
Qed.

Lemma report_records_words idx now l0 rs fresh lossdata :
  stands_all l0 rs -> Forall2 same_core l0 fresh -> Forall (fun k => k < length l0)%nat idx ->
  (forall a b, (a, b) ∈ rs -> Z.abs (a - b) < 2 ^ 31) ->
  snd (report_records idx now fresh lossdata)
    = lossdata ++ concat (report_words <$> omap (fun k => rs !! k) idx).
Proof.
  intros HS HF HI Hw. revert fresh lossdata HF. induction HI as [|k idx Hk HI IH]; intros fresh lossdata HF; simpl.
  - by rewrite app_nil_r.
  - destruct (lookup_lt_is_Some_2 l0 k Hk) as [r0 E0].
    destruct (Forall2_lookup_l _ _ _ _ _ HF E0) as (r & E & Hc).
    destruct (Forall2_lookup_l _ _ _ _ _ HS E0) as ([a b] & En & Ha & Hb). simpl in Ha, Hb.
    rewrite E, En. rewrite IH.
    + rewrite fmap_cons. cbn [concat]. rewrite app_assoc. f_equal. destruct Hc as (Hc0 & Hc1 & _).
      unfold addLossRecord, report_words. simpl. rewrite Hc0, Hc1, Ha, Hb.
      specialize (Hw a b ltac:(by eapply list_elem_of_lookup_2)).
      destruct (Z.eqb_spec (seq_of a) (seq_of b)) as [Eq|Hne], (Z.eqb_spec a b) as [Eq'|Hne']; subst; try done.
      apply seq_of_inj in Eq; done.
    + rewrite <- (list_insert_id l0 k r0) by done. by apply Forall2_insert.
Qed.

(** The words of a report, counted by the plan. *)
Lemma words_length rs l0 idx :
  stands_all l0 rs -> Forall (fun k => k < length l0)%nat idx ->
  (forall a b, (a, b) ∈ rs -> Z.abs (a - b) < 2 ^ 31) ->
  length (concat (report_words <$> omap (fun k => rs !! k) idx)) = sum_list_with (cost_at l0) idx.
Proof.
  intros HS HI Hw. induction HI as [|k idx Hk HI IH]; [done|].
  destruct (lookup_lt_is_Some_2 l0 k Hk) as [r0 E0].
  destruct (Forall2_lookup_l _ _ _ _ _ HS E0) as ([a b] & En & Ha & Hb). simpl in Ha, Hb.
  assert (omap (fun k => rs !! k) (k :: idx) = (a, b) :: omap (fun k => rs !! k) idx) as ->
    by (simpl; by rewrite En).
  rewrite fmap_cons. cbn [concat sum_list_with]. rewrite length_app, IH. f_equal.
  unfold cost_at, report_words, cost. rewrite E0. simpl. rewrite Ha, Hb.
  specialize (Hw a b ltac:(by eapply list_elem_of_lookup_2)).
  destruct (Z.eqb_spec (seq_of a) (seq_of b)) as [Eq|Hne], (Z.eqb_spec a b) as [Eq'|Hne']; subst; try done.
  apply seq_of_inj in Eq; done.
Qed.

(** What [srtla_report] plans on: its state after the hold was evaluated. *)
Lemma srtla_report_lists e s now steady :
  exists p, (cap p = Z.to_nat (Z.quot (m_iMaxDataPayloadSize e) 4))
    /\ let plan := srtlaPlanNak (m_FreshLoss s) now p in
       let words := snd (report_records (report plan) now (m_FreshLoss s) []) in
       m_pRcvLossList (snd (srtla_report e s now steady)) = m_pRcvLossList s
       /\ m_FreshLoss (snd (srtla_report e s now steady))
          = drop (retire plan) (fst (report_records (report plan) now (m_FreshLoss s) []))
       /\ fst (srtla_report e s now steady) = match words with [] => NakNone | _ => NakWords words (confirmed plan) end.
Proof.
  unfold srtla_report. cbv zeta. set (s1 := if _ >=? _ then _ else s).
  assert (m_FreshLoss s1 = m_FreshLoss s /\ m_pRcvLossList s1 = m_pRcvLossList s) as [H1 H2]
    by (unfold s1; by destruct (_ >=? _)).
  clearbody s1. destruct (srtlaReorderHoldUs e s1 now) as [hold s2] eqn:Eh.
  assert (m_FreshLoss s2 = m_FreshLoss s /\ m_pRcvLossList s2 = m_pRcvLossList s) as [H3 H4].
  { unfold srtlaReorderHoldUs in Eh. injection Eh as _ <-. destruct (_ =? 0); done. }
  exists (nak_params e s2 hold). split; [done|]. rewrite <- H3, <- H4.
  destruct (report_records _ _ _ _) as [fresh w]. simpl. by destruct w.
Qed.

Lemma srtla_report_inv e s A rs now steady :
  inv s A rs -> exists n, inv (snd (srtla_report e s now steady)) A (drop n rs).
Proof.
  intros I. destruct (srtla_report_lists e s now steady) as (p & _ & Hl & Hf & _). cbv zeta in *.
  set (plan := srtlaPlanNak (m_FreshLoss s) now p) in *. exists (retire plan).
  pose proof (report_records_core (report plan) now _ _ [] (same_core_refl (m_FreshLoss s))) as HF.
  set (fresh := fst _) in *.
  assert (inv (set_lists (m_pRcvLossList s) fresh s) A rs) as I'
    by (eapply same_core_inv; [exact I|exact HF|done|done]).
  eapply inv_drop; [exact I'|done|done].
Qed.

Lemma nak_inv e s A rs now steady :
  inv s A rs -> exists n, inv (snd (checkNAKTimer e s now steady)) A (drop n rs).
Proof.
  intros I. assert (forall v s0 rs0, inv s0 A rs0 -> inv (set_next_nak v s0) A rs0) as Hn
    by (intros v s0 rs0 [? ? ? ? ?]; by constructor).
  unfold checkNAKTimer. destruct (_ || _); [by exists 0%nat|]. cbv zeta.
  destruct (_ >? 0); [|exists 0%nat; by apply Hn].
  destruct (_ <=? _); [by exists 0%nat|].
  destruct (srtla_emitter e).
  - destruct (srtla_report_inv e s A rs now steady I) as [n I'].
    destruct (srtla_report e s now steady) as [sent s1]. exists n. by apply Hn.
  - exists 0%nat. by apply Hn.
Qed.

Lemma tick_inv e s A rs ttl :
  srtla_emitter e = true -> inv s A rs -> inv (snd (fresh_loss_tick e s ttl)) A rs.
Proof.
  unfold srtla_emitter. intros [Hs _]%andb_true_iff I. unfold fresh_loss_tick. rewrite Hs.
  destruct (negb (ttl =? 0)); [|done]. simpl.
  eapply same_core_inv; [exact I| |done|reflexivity]. simpl. apply same_core_map.
  intros r. by destruct (_ >? 0).
Qed.

Lemma step_inv e s A rs ev :
  srtla_emitter e = true -> inv s A rs -> event_ok s A ev ->
  exists s' rs', step e s (wire ev) = Some s' /\ inv s' (spec_event A ev) rs'.
Proof.
  intros He I Hok. destruct ev as [ttl x1 x2 now|ttl|b|y rx n1 n2 n3|fuel from y|now steady]; simpl in *.
  - by apply (loss_inv s A rs).
  - eexists _, rs. split; [done|]. by apply tick_inv.
  - eexists _, rs. split; [done|]. eapply same_core_inv; [exact I|apply same_core_refl|..];
      unfold ordered_delivery; repeat case_match; done.
  - destruct (unlose_inv e s A rs y rx n1 n2 n3 He I Hok) as (s' & rs' & E & I' & _). eauto.
  - destruct (drop_inv e s A rs fuel from y He I Hok) as (s' & rs' & E & I' & _). eauto.
  - destruct (nak_inv e s A rs now steady I) as [n I']. eauto.
Qed.

(** ** Reachable states *)

Inductive reach (e : env) : state -> loss_set -> Prop :=
| reach_init junk size tol :
    0 < size <= 2 ^ 29 -> reach e (initial junk size tol) (mkLossSet ∅ None)
| reach_step s A ev s' :
    reach e s A -> event_ok s A ev -> step e s (wire ev) = Some s' -> reach e s' (spec_event A ev).

Lemma reach_inv e s A : srtla_emitter e = true -> reach e s A -> exists rs, inv s A rs.
Proof.
  intros He. induction 1 as [junk size tol Hsz|s A ev s' _ [rs I] Hok Hst].
  - exists []. constructor; simpl; [by apply create_models|constructor|by exists 0, 0|by intros z ?%lost_nil|constructor].
  - destruct (step_inv e s A rs ev He I Hok) as (s1 & rs' & E & I'). rewrite Hst in E.
    injection E as <-. eauto.
Qed.


Definition sample_env : env := mkEnv true true true 0 true 2000 true 50000 20000 1456 0.


(** an SRTLA loss report asks for lost packets only: its words are those
    of ranges of packets that are all in the loss list, and they fit the payload. *)
Theorem srtla_report_only_lost (e : env) (s : state) (A : loss_set) (now : Z) (steady : option Z)
    (lossdata : list Z) (conf : Z) :
  srtla_emitter e = true -> reach e s A -> 0 <= m_iMaxDataPayloadSize e ->
  fst (checkNAKTimer e s now steady) = NakWords lossdata conf ->
  exists sel, lossdata = concat (report_words <$> sel)
    /\ (forall a b, (a, b) ∈ sel -> a <= b /\ forall z, a <= z <= b -> z ∈ lostset A)
    /\ 4 * Z.of_nat (length lossdata) <= m_iMaxDataPayloadSize e.
Proof.
  intros He Hr Hpay. destruct (reach_inv e s A He Hr) as [rs I]. unfold checkNAKTimer.
  destruct (_ || _); [done|]. cbv zeta. destruct (_ >? 0); [|done]. destruct (_ <=? _); [done|]. rewrite He.
  destruct (srtla_report_lists e s now steady) as (p & Hcap & _ & _ & Hsent). cbv zeta in *.
  destruct (srtla_report e s now steady) as [sent s1]. simpl in *. intros ->.
  pose proof I as [Hm Hs (lo & hi & Ho) Hsub Hso].
  destruct (srtla_plan_bounds (m_FreshLoss s) now p) as [Hidx Hwords].
  assert (Hel : forall a b, (a, b) ∈ rs -> a <= b /\ a ∈ lostset A /\ b ∈ lostset A).
  { intros a b Hin. pose proof (ordered_elem _ _ _ _ _ Ho Hin).
    split; [lia|]. split; apply Hsub; exists a, b; split; done || lia. }
  assert (Hww : forall a b, (a, b) ∈ rs -> Z.abs (a - b) < 2 ^ 31).
  { intros a b Hin. destruct (Hel _ _ Hin) as (_ & Ha & Hb). pose proof (models_width _ _ _ _ Hm Ha Hb). lia. }
  pose proof (report_records_words _ now _ _ _ [] Hs (same_core_refl _) Hidx Hww) as Hwd. simpl in Hwd.
  assert (lossdata = snd (report_records (report (srtlaPlanNak (m_FreshLoss s) now p)) now (m_FreshLoss s) [])) as ->
    by (by destruct (snd _); simplify_eq).
  exists (omap (fun k => rs !! k) (report (srtlaPlanNak (m_FreshLoss s) now p))).
  split; [done|]. split.
  - intros a b (k & _ & Hk)%list_elem_of_omap. apply list_elem_of_lookup_2 in Hk.
    split; [by apply Hel|]. intros z Hz. apply Hsub. exists a, b. done.
  - rewrite Hwd. rewrite (words_length rs (m_FreshLoss s)) by done.
    rewrite Hcap in Hwords. pose proof (Z.quot_rem' (m_iMaxDataPayloadSize e) 4).
    pose proof (Z.rem_bound_pos (m_iMaxDataPayloadSize e) 4 ltac:(lia) ltac:(lia)).
    assert (0 <= Z.quot (m_iMaxDataPayloadSize e) 4) by (apply Z.quot_pos; lia). lia.
Qed.

Lemma srtla_report_only_lost_witness :
  exists s A sel, reach sample_env s A
    /\ fst (checkNAKTimer sample_env s 300001 None) = NakWords [Z.lor 5 (i32 (2 ^ 31)); 6] 2
    /\ [Z.lor 5 (i32 (2 ^ 31)); 6] = concat (report_words <$> sel)
    /\ forall a b, (a, b) ∈ sel -> a <= b /\ forall z, a <= z <= b -> z ∈ lostset A.
Proof.
  assert (reach sample_env (initial 0 8 0) (mkLossSet ∅ None)) as H0 by (apply reach_init; lia).
  destruct (step sample_env (initial 0 8 0) (wire (LLoss 2 5 6 1))) as [s1|] eqn:E1; [|discriminate E1].
  assert (reach sample_env s1 (spec_event (mkLossSet ∅ None) (LLoss 2 5 6 1))) as H1.
  { eapply reach_step; [exact H0| |exact E1].
    simpl. unfold nearby, fits. simpl. repeat split; try lia; try (intros; set_solver). }
  destruct (step sample_env s1 (wire (LTick 2))) as [s2|] eqn:E2; [|discriminate E2].
  pose proof (reach_step _ _ _ (LTick 2) _ H1 I E2) as H2.
  destruct (step sample_env s2 (wire (LTick 2))) as [s3|] eqn:E3; [|discriminate E3].
  pose proof (reach_step _ _ _ (LTick 2) _ H2 I E3) as H3.
  vm_compute in E1. injection E1 as <-. vm_compute in E2. injection E2 as <-. vm_compute in E3. injection E3 as <-.
  match goal with H : reach sample_env ?s ?A |- _ =>
    destruct (srtla_report_only_lost sample_env s A 300001 None [Z.lor 5 (i32 (2 ^ 31)); 6] 2 eq_refl H)
      as (sel & Hsel & Hlost & _); [vm_compute; congruence | vm_compute; reflexivity |];
    exists s, A, sel; split; [exact H|]; split; [vm_compute; reflexivity|]; split; [exact Hsel|exact Hlost]
  end.
Defined.

(** in plain SRT the fresh records can outlive the feature that fills
    them. When the reorder tolerance falls to zero on the packet that detects a
    loss, the record stays in [m_FreshLoss] although belated reports are
    off; the packet's retransmission then empties the loss list and leaves the
    record behind (the comment in [unlose] takes the container for empty
    here). *)
Theorem plain_fresh_loss_outlives_tolerance :
  let e := mkEnv false true true 1 true 120 true 50000 20000 1456 6 in
  exists s, run e (initial 0 8 1)
      (repeat (EvOrdered true) 49
       ++ [EvLoss 1 5 5 100; EvTick 1; EvOrdered true; EvUnlose 5 true 200 200 200]) = Some s
    /\ m_iReorderTolerance s = 0
    /\ CRcvLossList.getLossLength (m_pRcvLossList s) = 0
    /\ m_FreshLoss s = [CRcvFreshLoss.mk 5 5 0 100 0].
Proof. eexists. split; [vm_compute; reflexivity|]. repeat split. Qed.
