(* ===== verification/RcvPath.v ===== *)
(** * The receiver's data path (srtcore/core.cpp, class [CUDT])

    What happens to a data packet, to a drop request of the sender and to packets
    that are too late, and which acknowledgement is sent: the functions that keep
    the receiver's buffer, its loss records and its sequence numbers together
    ([handleSocketPacketReception], [processData], [processCtrlDropReq],
    [rcvDropTooLateUpTo], one round of [tsbpd], [getFirstNoncontSequence],
    [sendCtrlAck]).

    Decryption is done by a library that is not part of the sources: it is the
    parameter [decrypt]. Statistics, groups and the packet filter are left out
    (without a filter a packet comes alone), as is the start of the delivery thread;
    of the congestion control only its wish for a quick acknowledgement is read.
    The correctness proof is in RcvPathInv.v and RcvPathProps.v. *)

From S2P Require Import Prelude SeqNo Packet Tsbpd Windows RcvLossList FreshLoss RcvLossCtl RcvBuffer.

Module RcvPath.

(** What the functions below only read. [secured]: there is a crypto control and
    its receiving state is not SRT_KM_S_UNSECURED. *)
Record config := mkConfig {
  env : CUDT.env;
  bTSBPD : bool;
  bMessageAPI : bool;
  m_bTsbPd : bool;
  m_bTLPktDrop : bool;
  secured : bool;
  m_iRTTVar : Z;
  m_tdACKInterval : Z;
  m_uPeerSrtVersion : Z;
  needsQuickACK : CPacket.t -> bool     (** of the congestion control *)
}.

(** What tells that the peer is there, and whether the connection is closing. *)
Record connection := mkConn {
  m_iEXPCount : Z;
  m_tsLastRspTime : Z;
  m_iPktCount : Z;
  m_iRcvCurrPhySeqNo : Z;
  m_tsNextACKTime : Z;
  m_bShutdown : bool;
  m_bClosing : bool;
  m_bBroken : bool;
  m_iBrokenCounter : Z
}.

Record state := mkState {
  m_pRcvBuffer : CRcvBuffer.t;
  losses : CUDT.state;                  (** the loss list and the records with it *)
  m_iRcvCurrSeqNo : Z;
  m_iRcvLastAck : Z;
  m_iRcvLastAckAck : Z;
  m_bBufferWasFull : bool;
  m_iAckSeqNo : Z;
  m_tsLastAckTime : Z;
  m_ACKWindow : CACKWindow.t;
  m_RcvTimeWindow : CPktTimeWindow.t;
  conn : connection
}.

Definition set_buffer (b : CRcvBuffer.t) (s : state) : state :=
  mkState b (losses s) (m_iRcvCurrSeqNo s) (m_iRcvLastAck s) (m_iRcvLastAckAck s) (m_bBufferWasFull s) (m_iAckSeqNo s) (m_tsLastAckTime s) (m_ACKWindow s) (m_RcvTimeWindow s) (conn s).
Definition set_losses (l : CUDT.state) (s : state) : state :=
  mkState (m_pRcvBuffer s) l (m_iRcvCurrSeqNo s) (m_iRcvLastAck s) (m_iRcvLastAckAck s) (m_bBufferWasFull s) (m_iAckSeqNo s) (m_tsLastAckTime s) (m_ACKWindow s) (m_RcvTimeWindow s) (conn s).
Definition set_curr (n : Z) (s : state) : state :=
  mkState (m_pRcvBuffer s) (losses s) n (m_iRcvLastAck s) (m_iRcvLastAckAck s) (m_bBufferWasFull s) (m_iAckSeqNo s) (m_tsLastAckTime s) (m_ACKWindow s) (m_RcvTimeWindow s) (conn s).
Definition set_last_ack (n : Z) (s : state) : state :=
  mkState (m_pRcvBuffer s) (losses s) (m_iRcvCurrSeqNo s) n (m_iRcvLastAckAck s) (m_bBufferWasFull s) (m_iAckSeqNo s) (m_tsLastAckTime s) (m_ACKWindow s) (m_RcvTimeWindow s) (conn s).
Definition set_ack_sent (full : bool) (seqno time : Z) (w : CACKWindow.t) (s : state) : state :=
  mkState (m_pRcvBuffer s) (losses s) (m_iRcvCurrSeqNo s) (m_iRcvLastAck s) (m_iRcvLastAckAck s) full seqno time w (m_RcvTimeWindow s) (conn s).

Definition set_times (w : CPktTimeWindow.t) (k : connection) (s : state) : state :=
  mkState (m_pRcvBuffer s) (losses s) (m_iRcvCurrSeqNo s) (m_iRcvLastAck s) (m_iRcvLastAckAck s) (m_bBufferWasFull s) (m_iAckSeqNo s) (m_tsLastAckTime s) (m_ACKWindow s) w k.
Definition set_conn (k : connection) (s : state) : state := set_times (m_RcvTimeWindow s) k s.

(** The loss control reads [m_iRcvCurrSeqNo]. *)
Definition env_at (c : config) (s : state) : CUDT.env :=
  let e := env c in
  CUDT.mkEnv (CUDT.bSRTLA e) (CUDT.bRcvNakReport e) (CUDT.arqAlways e) (CUDT.iMaxReorderTolerance e) (CUDT.m_bPeerRexmitFlag e)
    (CUDT.m_iTsbPdDelay_ms e) (CUDT.m_bTsbPd e) (CUDT.m_iSRTT e) (CUDT.m_tdNAKInterval e) (CUDT.m_iMaxDataPayloadSize e) (m_iRcvCurrSeqNo s).

(** The loop of [dropFromLossLists] takes the packets of the range one by one,
    from [from] or from the first lost one, and looks once more. *)
Definition drop_fuel (from to : Z) (s : state) : option nat :=
  first ← (if from =? SRT_SEQNO_NONE then CRcvLossList.getFirstLostSeq (CUDT.m_pRcvLossList (losses s)) else Some from);
  Some (if first =? SRT_SEQNO_NONE then 0%nat else Z.to_nat (CSeqNo.seqoff first to + 2)).

Definition dropFromLossLists (c : config) (from to : Z) (s : state) : option state :=
  fuel ← drop_fuel from to s;
  l ← CUDT.dropFromLossLists fuel (env_at c s) (losses s) from to;
  Some (set_losses l s).

(** ** Data packets *)

Section Reception.

Context (decrypt : CPacket.t -> option CPacket.t).

(** The packet of [seqno], which the buffer has just taken, is changed in place. *)
Definition replace_packet (seqno : Z) (p : CPacket.t) (b : CRcvBuffer.t) : option CRcvBuffer.t :=
  let pos := CRcvBuffer.incPos b (CRcvBuffer.m_iStartPos b) (CSeqNo.seqoff (CRcvBuffer.m_iStartSeqNo b) seqno) in
  a ← aupd (CRcvBuffer.m_entries b) pos (fun e => CRcvBuffer.mkEntry (Some p) (CRcvBuffer.status e)); Some (CRcvBuffer.set_entries a b).

(** The results of the loop: whether a packet was inserted, whether all were sent
    in order, the losses detected; or the code it stops with. *)
Record seen_packets := mkSeen { new_inserted : bool; was_sent_in_order : bool; loss_seqs : list (Z * Z) }.

(** The packet goes into the buffer; whether it counts as added, and the buffer. *)
Definition add_packet (c : config) (p : CPacket.t) (b : CRcvBuffer.t) : option (bool * bool * CRcvBuffer.t) :=
  r ← CRcvBuffer.insert p b;
  let seqno := CPacket.getSeqNo p in
  if fst r <? 0 then Some (false, false, snd r)
  else if negb (CPacket.getMsgCryptoFlags p =? EK_NOENC) then
    match decrypt (CPacket.setRexmitFlag false p) with
    | None => d ← CRcvBuffer.dropMessage seqno seqno SRT_MSGNO_NONE false (snd r); Some (true, false, snd d)
    | Some q => b' ← replace_packet seqno (CPacket.setRexmitFlag (CUDT.m_bPeerRexmitFlag (env c) && CPacket.getRexmitFlag p) q) (snd r); Some (true, true, b')
    end
  else if secured c then d ← CRcvBuffer.dropMessage seqno seqno SRT_MSGNO_NONE false (snd r); Some (true, true, snd d)
  else Some (true, true, snd r).

(** One round: [Datatypes.inl] a code to stop with. [now]: the three clock readings of [unlose]. *)
Definition receive_one (c : config) (bufseq : Z) (now : Z * Z * Z) (p : CPacket.t) (a : seen_packets) (s : state)
    : option ((Z * state) + (seen_packets * state)) :=
  let seqno := CPacket.getSeqNo p in
  let bufidx := CSeqNo.seqoff bufseq seqno in
  if (bufidx <? 0) || (CSeqNo.seqcmp seqno (m_iRcvLastAck s) <? 0) then Some (inr (a, s))
  else if bufidx >=? CRcvBuffer.capacity (m_pRcvBuffer s) then
    Some (inl (if m_bTsbPd c && m_bTLPktDrop c && CRcvBuffer.empty (m_pRcvBuffer s) then -2 else -1, s))
  else
    r ← add_packet c p (m_pRcvBuffer s);
    let '(inserted, adding_successful, b) := r in
    let s := set_buffer b s in
    let next := CSeqNo.incseq (m_iRcvCurrSeqNo s) in
    let lost := if adding_successful && (CSeqNo.seqcmp seqno next >? 0) then loss_seqs a ++ [(next, CSeqNo.decseq seqno)] else loss_seqs a in
    if CSeqNo.seqcmp seqno (m_iRcvCurrSeqNo s) >? 0 then
      Some (inr (mkSeen (new_inserted a || inserted) (was_sent_in_order a) lost, set_curr seqno s))
    else
      let '(n1, n2, n3) := now in
      l ← CUDT.unlose (env_at c s) (losses s) seqno (CPacket.getRexmitFlag p) n1 n2 n3;
      Some (inr (mkSeen (new_inserted a || inserted)
                   (was_sent_in_order a && negb (CUDT.m_bPeerRexmitFlag (env c) && negb (CPacket.getRexmitFlag p))) lost, set_losses l s)).

Fixpoint receive_all (c : config) (bufseq : Z) (now : nat -> Z * Z * Z) (incoming : list CPacket.t) (a : seen_packets) (s : state)
    : option ((Z * state) + (seen_packets * state)) :=
  match incoming with
  | [] => Some (inr (a, s))
  | p :: rest =>
    r ← receive_one c bufseq (now 0%nat) p a s;
    match r with inl x => Some (inl x) | inr (a, s) => receive_all c bufseq (fun k => now (S k)) rest a s end
  end.

Definition handleSocketPacketReception (c : config) (now : nat -> Z * Z * Z) (incoming : list CPacket.t) (s : state)
    : option ((Z * state) + (seen_packets * state)) :=
  receive_all c (CRcvBuffer.m_iStartSeqNo (m_pRcvBuffer s)) now incoming (mkSeen false true []) s.

(** The loop over [srt_loss_seqs]. *)
Fixpoint record_losses (ttl now : Z) (l : list (Z * Z)) (s : CUDT.state) : option CUDT.state :=
  match l with [] => Some s | (lo, hi) :: rest => s ← CUDT.record_loss s ttl lo hi now; record_losses ttl now rest s end.

(** Flags set when the connection can not go on; the peer is told. *)
Definition processClose (s : state) : state :=
  let k := conn s in
  set_conn (mkConn (m_iEXPCount k) (m_tsLastRspTime k) (m_iPktCount k) (m_iRcvCurrPhySeqNo k) (m_tsNextACKTime k) true true true 60) s.

(** An acknowledgement at once, where the congestion control wants it. *)
Definition quick_ack (c : config) (wanted : bool) (now : Z) (p : CPacket.t) (s : state) : state :=
  let k := conn s in
  if wanted && needsQuickACK c p then
    set_conn (mkConn (m_iEXPCount k) (m_tsLastRspTime k) (m_iPktCount k) (m_iRcvCurrPhySeqNo k) now (m_bShutdown k) (m_bClosing k) (m_bBroken k) (m_iBrokenCounter k)) s
  else s.

(** The first part of [processData]: the peer is alive, its packet is counted and
    measured. [nows]: the clock readings, of the response, of the arrival and of
    the two probes. *)
Definition arrive (c : config) (nows : Z * Z * Z * Z) (p : CPacket.t) (s : state) : option state :=
  let '(now, nowa, nowp1, nowp2) := nows in
  let k := conn s in
  let seqno := CPacket.getSeqNo p in
  let retransmitted := CUDT.m_bPeerRexmitFlag (env c) && CPacket.getRexmitFlag p in
  w ← CPktTimeWindow.onPktArrival (CPacket.getLength p) nowa (m_RcvTimeWindow s);
  let unordered := CSeqNo.seqcmp seqno (m_iRcvCurrSeqNo s) <=? 0 in
  w ← CPktTimeWindow.probeArrival p (unordered || retransmitted) nowp1 nowp2 w;
  let phy := if negb (CPacket.getMsgSeq (CUDT.m_bPeerRexmitFlag (env c)) p =? SRT_MSGNO_CONTROL) && (CSeqNo.seqoff (m_iRcvCurrPhySeqNo k) seqno >? 0)
             then seqno else m_iRcvCurrPhySeqNo k in
  Some (set_times w (mkConn 1 now (i32 (m_iPktCount k + 1)) phy (m_tsNextACKTime k) (m_bShutdown k) (m_bClosing k) (m_bBroken k) (m_iBrokenCounter k)) s).

(** The second part: the packet goes to the buffer, losses are recorded and
    reported. [nowl], [nowq]: the clock when the losses are recorded and when the
    next acknowledgement is set. *)
Definition take_in (c : config) (now : nat -> Z * Z * Z) (nowl nowq : Z) (p : CPacket.t) (s : state) : option (Z * list (Z * Z) * list Z * state) :=
  let initial_loss_ttl := CUDT.initial_loss_ttl (env c) (losses s) in
  let incoming_belated := CSeqNo.seqcmp (CPacket.getSeqNo p) (CRcvBuffer.m_iStartSeqNo (m_pRcvBuffer s)) <? 0 in
  r ← handleSocketPacketReception c now [p] s;
  match r with
  | inl (res, s) => Some (-1, [], [], if res =? -2 then processClose s else s)
  | inr (a, s) =>
    l ← record_losses initial_loss_ttl nowl (loss_seqs a) (losses s);
    let s := quick_ack c (negb incoming_belated && was_sent_in_order a) nowq p (set_losses l s) in
    if negb (new_inserted a) then Some (-1, [], [], s)
    else
      let reported := if initial_loss_ttl =? 0 then loss_seqs a else [] in
      let '(words, _, l) := CUDT.fresh_loss_tick (env_at c s) (losses s) initial_loss_ttl in
      Some (0, reported, words, set_losses (CUDT.ordered_delivery (env_at c s) l (was_sent_in_order a)) s)
  end.

(** What [processData] returns, the losses reported at once and the words of a
    belated report. *)
Definition processData (c : config) (nows : Z * Z * Z * Z) (now : nat -> Z * Z * Z) (nowl nowq : Z) (p : CPacket.t) (s : state)
    : option (Z * list (Z * Z) * list Z * state) :=
  if m_bClosing (conn s) then Some (-1, [], [], s)
  else s ← arrive c nows p s; take_in c now nowl nowq p s.

End Reception.

(** ** Dropping *)

(** Too late: everything before [seqno], but nothing that is yet to come. The
    number of packets dropped. *)
Definition rcvDropTooLateUpTo (c : config) (seqno : Z) (s : state) : option (Z * state) :=
  let next := CSeqNo.incseq (m_iRcvCurrSeqNo s) in
  let seqno := if CSeqNo.seqcmp seqno next >? 0 then next else seqno in
  s ← dropFromLossLists c SRT_SEQNO_NONE (CSeqNo.decseq seqno) s;
  r ← CRcvBuffer.dropUpTo seqno (m_pRcvBuffer s);
  let '(dropped, discarded, b) := r in
  Some (i32 (dropped + discarded), set_buffer b s).

(** The sender's request to drop [words], two sequence numbers; [msgno] is the
    message number of the packet. Whether it was accepted. *)
Definition processCtrlDropReq (c : config) (words : list Z) (msgno : Z) (s : state) : option (bool * state) :=
  match words with
  | lo :: hi :: _ =>
    let dist_begin := CSeqNo.seqoff lo (CRcvBuffer.m_iStartSeqNo (m_pRcvBuffer s)) in
    let dist_rel := CSeqNo.seqoff lo hi in
    if c_abs dist_begin >? CSeqNo.m_iSeqNoTH / 2 then Some (false, s)
    else if (dist_rel <? 0) || (dist_rel >? CSeqNo.m_iSeqNoTH / 2) then Some (false, s)
    else
      b ← (if negb (m_bTLPktDrop c) || negb (m_bTsbPd c)
           then r ← CRcvBuffer.dropMessage lo hi msgno true (m_pRcvBuffer s); Some (snd r)
           else Some (m_pRcvBuffer s));
      s ← dropFromLossLists c lo hi (set_buffer b s);
      Some (true, if (CSeqNo.seqcmp lo (CSeqNo.incseq (m_iRcvCurrSeqNo s)) <=? 0) && (CSeqNo.seqcmp hi (m_iRcvCurrSeqNo s) >? 0)
                  then set_curr hi s else s)
  | _ => Some (false, s)
  end.

(** One round of the delivery thread: whether the application is told that there
    is something to read, and when to look again (0: wait for a signal). *)
Definition tsbpd_round (c : config) (tnow : Z) (s : state) : option (bool * Z * state) :=
  info ← CRcvBuffer.getFirstValidPacketInfo (m_pRcvBuffer s);
  let time := CRcvBuffer.tsbpd_time info in
  let is_time_to_deliver := negb (is_zero time) && (tnow >=? time) in
  if negb (m_bTLPktDrop c) then
    let rxready := negb (CRcvBuffer.seq_gap info) && is_time_to_deliver in
    Some (rxready, if rxready then 0 else time, s)
  else if is_time_to_deliver then
    if CRcvBuffer.seq_gap info then r ← rcvDropTooLateUpTo c (CRcvBuffer.info_seqno info) s; Some (true, 0, snd r)
    else Some (true, 0, s)
  else Some (false, time, s).

Definition setInitialRcvSeq (isn : Z) (s : state) : option state :=
  b ← (if CRcvBuffer.empty (m_pRcvBuffer s) then Some (m_pRcvBuffer s) else r ← CRcvBuffer.dropAll (m_pRcvBuffer s); Some (snd r));
  Some (mkState (CRcvBuffer.set_start isn (CRcvBuffer.m_iStartPos b) (CRcvBuffer.m_iMaxPosOff b) b) (losses s) (CSeqNo.decseq isn) isn isn
          (m_bBufferWasFull s) (m_iAckSeqNo s) (m_tsLastAckTime s) (m_ACKWindow s) (m_RcvTimeWindow s) (conn s)).

(** ** Acknowledging *)

Definition getFirstNoncontSequence (c : config) (s : state) : option Z :=
  let next := CSeqNo.incseq (m_iRcvCurrSeqNo s) in
  if bTSBPD c || negb (bMessageAPI c) then
    let seq := CRcvBuffer.getFirstNonreadSeqNo (m_pRcvBuffer s) in
    Some (if CSeqNo.seqcmp seq next >? 0 then next else seq)
  else
    seq ← CRcvLossList.getFirstLostSeq (CUDT.m_pRcvLossList (losses s));
    Some (if seq =? SRT_SEQNO_NONE then next else seq).

Inductive ack_sent :=
  | AckNone
  | AckLite (ack : Z)
  | AckFull (ackno : Z) (words : list Z).

Definition ACK_WND_SIZE : Z := 1024.

(** The words of a full acknowledgement; the measurements are sent once per interval. *)
Definition ack_words (c : config) (bufferleft : Z) (measured : bool) (s : state) : option (list Z) :=
  let small := [m_iRcvLastAck s; CUDT.m_iSRTT (env c); m_iRTTVar c; bufferleft] in
  if measured then
    r ← CPktTimeWindow.getPktRcvSpeed (m_RcvTimeWindow s);
    bw ← CPktTimeWindow.getBandwidth (m_RcvTimeWindow s);
    let '(speed, rate) := r in
    Some (small ++ [speed; bw]
          ++ (if m_uPeerSrtVersion c =? SrtVersion 1 0 2 then [rate; i32 (bw * CUDT.m_iMaxDataPayloadSize (env c))]
              else if m_uPeerSrtVersion c >=? SrtVersion 1 0 3 then [rate] else []))
  else Some small.

(** [lite]: a lite acknowledgement is wanted. [now1] to [now4]: the clock readings, in order. *)
Definition sendCtrlAck (c : config) (lite : bool) (now1 now2 now3 now4 : Z) (s : state) : option (ack_sent * state) :=
  let bNeedFullAck := m_bBufferWasFull s && (CRcvBuffer.getAvailSize (m_iRcvLastAck s) (m_pRcvBuffer s) >? 0) in
  ack ← getFirstNoncontSequence c s;
  if (m_iRcvLastAckAck s =? ack) && negb bNeedFullAck then Some (AckNone, s)
  else if lite && negb bNeedFullAck then Some (AckLite ack, s)
  else
    let newer := CSeqNo.seqcmp ack (m_iRcvLastAck s) >? 0 in
    let too_early := (ack =? m_iRcvLastAck s) && (now1 - m_tsLastAckTime s <? i32 (CUDT.m_iSRTT (env c) + 4 * m_iRTTVar c)) in
    if negb newer && negb bNeedFullAck && (too_early || negb (ack =? m_iRcvLastAck s)) then Some (AckNone, s)
    else
      let s := if newer then set_last_ack ack s else s in
      if (CSeqNo.seqcmp (m_iRcvLastAck s) (m_iRcvLastAckAck s) >? 0) || bNeedFullAck then
        let ackno := CAckNo.incack (m_iAckSeqNo s) in
        let bufferleft := i32 (CRcvBuffer.getAvailSize (m_iRcvLastAck s) (m_pRcvBuffer s)) in
        let measured := now2 - m_tsLastAckTime s >? m_tdACKInterval c in
        words ← ack_words c bufferleft measured s;
        w ← CACKWindow.store ACK_WND_SIZE now4 ackno (m_iRcvLastAck s) (m_ACKWindow s);
        Some (AckFull ackno words, set_ack_sent (bufferleft =? 0) ackno (if measured then now3 else m_tsLastAckTime s) w s)
      else Some (AckNone, s).

End RcvPath.
