(* ===== verification/RcvPathInv.v ===== *)
(** * The invariant of the receiver's data path

    In live mode under SRTLA the buffer, the loss list and the sequence numbers of
    the receiver stay consistent: a packet in the loss list is missing from the
    buffer, a packet missing from the buffer is in the loss list unless the sender
    asked to drop it, and nothing is in the buffer past [m_iRcvCurrSeqNo]. The ghost
    state has the abstract buffer of RcvBufferSpec.v, the set of lost packets of
    RcvLossListRefine.v and unbounded packet indices. *)

From stdpp Require Import sorting.
From S2P Require Import Prelude SeqNo Packet Tsbpd Windows Ranges RcvLossList RcvLossListSpec RcvLossListRefine FreshLoss FreshLossSpec RcvLossCtl RcvLossInv WindowsSpec.
From S2P Require Import RcvBuffer RcvBufferSpec RcvBufferRefine RcvBufferProps RcvPath.
Import RcvPath.

(** ** The size of the loss list is constant *)

Lemma remove_loop_size fuel l i last l' : CRcvLossList.remove_loop fuel l i last = Some l' -> CRcvLossList.m_iSize l' = CRcvLossList.m_iSize l.
Proof.
  revert l i. induction fuel as [|f IH]; intros l i; cbn [CRcvLossList.remove_loop]; intros H; bind_inv; try done.
  apply IH in H. rewrite H. match goal with E : CRcvLossList.remove _ _ = Some ?r |- _ => destruct r; exact (remove_size _ _ _ _ E) end.
Qed.

Definition list_size (s : CUDT.state) : Z := CRcvLossList.m_iSize (CUDT.m_pRcvLossList s).

Lemma record_loss_size s ttl lo hi now s' : CUDT.record_loss s ttl lo hi now = Some s' -> list_size s' = list_size s.
Proof. unfold CUDT.record_loss. intros H. bind_inv. unfold list_size. cbn. match goal with E : CRcvLossList.insert _ _ _ = Some ?r |- _ => destruct r; exact (insert_size _ _ _ _ _ E) end. Qed.

Lemma dropFromLossLists_size fuel e s from to s' : CUDT.dropFromLossLists fuel e s from to = Some s' -> list_size s' = list_size s.
Proof.
  unfold CUDT.dropFromLossLists, CRcvLossList.removeUpTo, CRcvLossList.remove_range. intros H. bind_inv; unfold list_size; cbn; try done; by eapply remove_loop_size.
Qed.

Lemma unlose_size e s seq rexmit n1 n2 n3 s' :
  CUDT.srtla_emitter e = true -> CUDT.unlose e s seq rexmit n1 n2 n3 = Some s' -> list_size s' = list_size s.
Proof.
  intros He H. destruct (CRcvLossList.remove (CUDT.m_pRcvLossList s) seq) as [[b l']|] eqn:E.
  - destruct (unlose_lists e s seq rexmit n1 n2 n3 b l' He E) as (s1 & E1 & E2 & _). rewrite H in E1. injection E1 as <-.
    unfold list_size. rewrite E2. by apply (remove_size _ _ _ _ E).
  - unfold CUDT.unlose in H. by rewrite E in H.
Qed.

(** ** The ghost state *)

Record ghost := mkGhost {
  g_buf : abuf;             (** the buffer *)
  g_lost : loss_set;        (** the loss list *)
  g_cur : Z;                (** the packet of [m_iRcvCurrSeqNo] *)
  g_ack : Z;                (** that of [m_iRcvLastAck] *)
  g_gone : Z -> Prop        (** packets the sender asked to drop *)
}.

(** Live mode under SRTLA, without encryption. *)
Record live_config (c : config) : Prop := mkLive {
  lc_srtla : CUDT.srtla_emitter (env c) = true;
  lc_tsbpd : m_bTsbPd c = true /\ m_bTLPktDrop c = true /\ bTSBPD c = true;
  lc_open : secured c = false
}.

Definition solo (p : CPacket.t) : Prop := CRcvBuffer.is_solo p = true.

Notation first g := (ab_first (g_buf g)).
Notation lost_at g := (lostset (g_lost g)).
Notation bufsize s := (CRcvBuffer.m_szSize (m_pRcvBuffer s)).

(** The places of the time windows are inside them. *)
Definition times_ok (w : CPktTimeWindow.t) : Prop :=
  in_bounds (CPktTimeWindow.m_aPktWindow w) (CPktTimeWindow.m_iPktWindowPtr w) /\ length (CPktTimeWindow.m_aBytesWindow w) = length (CPktTimeWindow.m_aPktWindow w)
  /\ in_bounds (CPktTimeWindow.m_aProbeWindow w) (CPktTimeWindow.m_iProbeWindowPtr w).

Record consistent (s : state) (g : ghost) : Prop := mkConsistent {
  cs_buf : rrep (m_pRcvBuffer s) (g_buf g);
  cs_api : ab_api (g_buf g) = true;
  cs_fill : forall i, CRcvBuffer.is_filler (ab_cell (g_buf g) i) = false;
  cs_solo : forall i p, pkt_at (g_buf g) i = Some p -> solo p;
  cs_ready : pkt_at (g_buf g) (ab_ready (g_buf g)) = None;
  cs_loss : exists rs, inv (losses s) (g_lost g) rs;
  cs_size : bufsize s <= list_size (losses s);
  cs_cur : m_iRcvCurrSeqNo s = seq_of (g_cur g);
  cs_max : ab_max (g_buf g) <= g_cur g + 1;
  cs_far : g_cur g < first g + (2 ^ 29 - 1);
  cs_seen : forall m, seen (g_lost g) = Some m -> m <= g_cur g;
  cs_lost : forall z, z ∈ lost_at g -> first g <= z <= g_cur g /\ z < first g + (bufsize s - 1) /\ pkt_at (g_buf g) z = None;
  cs_missing : forall i, first g <= i <= g_cur g -> pkt_at (g_buf g) i = None -> i ∈ lost_at g \/ g_gone g i;
  cs_ack : m_iRcvLastAck s = seq_of (g_ack g) /\ g_ack g <= ab_ready (g_buf g);
  cs_window : exists rs, arep ACK_WND_SIZE (m_ACKWindow s) rs;
  cs_times : times_ok (m_RcvTimeWindow s)
}.

(** The numbers kept from earlier are within reach of 31-bit comparisons: the
    largest number the loss list has seen, and the last acknowledgement. *)
Definition within_reach (g : ghost) : Prop :=
  match seen (g_lost g) with Some m => first g - m < 2 ^ 29 | None => True end /\ first g - g_ack g < 2 ^ 29.

Lemma reach_seen g m : within_reach g -> seen (g_lost g) = Some m -> first g - m < 2 ^ 29.
Proof. intros [W _] E. by rewrite E in W. Qed.

Lemma solo_last p : solo p -> CRcvBuffer.has_last p = true /\ CRcvBuffer.has_first p = true.
Proof. unfold solo, CRcvBuffer.is_solo, CRcvBuffer.has_last, CRcvBuffer.has_first. by destruct (CPacket.getMsgBoundary p). Qed.

(** ** A data packet *)

Definition data_index (p : CPacket.t) (g : ghost) : Z := index_of (g_buf g) (CPacket.getSeqNo p).

(** The packet is taken: it is neither acknowledged nor passed, and there is room. *)
Definition taken_in (N : Z) (p : CPacket.t) (g : ghost) : bool :=
  let i := data_index p g in (first g <=? i) && (g_ack g <=? i) && (i <? first g + (N - 1)).

(** What a data packet changes. *)
Definition g_data (N : Z) (p : CPacket.t) (g : ghost) : ghost :=
  let i := data_index p g in
  if taken_in N p g then
    let b := snd (a_insert N p (g_buf g)) in
    if g_cur g <? i then
      mkGhost b (if g_cur g + 1 <? i then snd (spec_insert (g_lost g) (g_cur g + 1) (i - 1)) else g_lost g) i (g_ack g) (g_gone g)
    else mkGhost b (snd (spec_remove (g_lost g) i)) (g_cur g) (g_ack g) (g_gone g)
  else g.

Section Data.

Context (decrypt : CPacket.t -> option CPacket.t) (c : config) (Hc : live_config c).

(** Without dropped cells a cell is empty or has a packet. *)
Lemma empty_cell s b i : rcore s b -> CRcvBuffer.is_filler (ab_cell b i) = false -> is_missing (ab_cell b i) = bool_decide (pkt_at b i = None).
Proof using Type.
  intros C Hf. unfold is_missing, pkt_at. apply bool_decide_ext. unfold CRcvBuffer.is_filler in Hf. destruct (CRcvBuffer.pUnit (ab_cell b i)) as [p|] eqn:E.
  - destruct (rc_unit _ _ C _ _ E) as [-> _]. done.
  - pose proof (rc_none _ _ C _ E). by destruct (CRcvBuffer.status (ab_cell b i)).
Qed.

(** A packet is ready as soon as it is the first one not ready. *)
Lemma solo_ready b r : (forall p, pkt_at b r = Some p -> solo p) -> (forall e, starts b r -> ~ whole b r e) -> pkt_at b r = None.
Proof using Type.
  intros Hs Hw. destruct (pkt_at b r) as [p|] eqn:E; [|done]. destruct (solo_last p (Hs p eq_refl)) as [Hl Hf]. exfalso. apply (Hw (r + 1)).
  - exists p. by split.
  - apply (whole_one b r p E); [|done]. rewrite Hl. apply orb_true_r.
Qed.

(** An insertion into a buffer without dropped cells. *)
Lemma insert_live s g p :
  consistent s g -> valid_seq (CPacket.getSeqNo p) -> solo p -> let i := data_index p g in first g <= i < first g + (bufsize s - 1) ->
  let b' := snd (a_insert (bufsize s) p (g_buf g)) in
  exists buf, CRcvBuffer.insert p (m_pRcvBuffer s) = Some (if decide (pkt_at (g_buf g) i = None) then 0 else -1, buf) /\ rrep buf b' /\ CRcvBuffer.m_szSize buf = bufsize s
    /\ ab_first b' = first g /\ ab_api b' = true /\ ab_max b' = Z.max (ab_max (g_buf g)) (i + 1) /\ ab_ready (g_buf g) <= ab_ready b'
    /\ (forall j, CRcvBuffer.is_filler (ab_cell b' j) = false) /\ (forall j q, pkt_at b' j = Some q -> solo q) /\ pkt_at b' (ab_ready b') = None
    /\ (forall j, j <> i -> pkt_at b' j = pkt_at (g_buf g) j) /\ pkt_at b' i <> None.
Proof using Type.
  intros I Hv Hp i Hi. destruct (insert_run _ _ p (cs_buf _ _ I) Hv) as (buf & E & R & Z). pose proof (cs_buf _ _ I) as (C & P & Rd & _). pose proof R as (C' & P' & Rd' & _).
  unfold a_insert in *. fold (data_index p g) in E, R, C', P', Rd' |- *. fold i in E, R, C', P', Rd' |- *. rewrite Z.geb_leb in *.
  destruct (Z.ltb_spec i (first g)); [lia|]. destruct (Z.leb_spec (first g + (bufsize s - 1)) i); [lia|]. cbn [with_cells ab_cell ab_first ab_max] in *.
  pose proof (empty_cell _ _ i C (cs_fill _ _ I i)) as Hm. unfold is_missing in Hm. rewrite Hm in *.
  pose proof (rs_max _ _ P) as Hmax. pose proof (rd_ready _ _ Rd) as Hr.
  destruct (decide (pkt_at (g_buf g) i = None)) as [Hn|Hn].
  2: { rewrite bool_decide_eq_false_2 in * by done. cbn [fst snd] in *. exists buf. split_and!; try done; try apply I; try (cbn; lia). }
  rewrite bool_decide_eq_true_2 in * by done. cbn [fst snd] in *. exists buf. set (b1 := with_cells _ _ _ _) in *.
  assert (forall j, j < ab_max b1 \/ CRcvBuffer.has_unit (ab_cell b1 j) = false) as Hu1.
  { intros j. destruct (CRcvBuffer.has_unit (ab_cell b1 j)) eqn:Eu; [|by right]. left. by apply (rs_unit _ _ P'). }
  destruct (refresh_spec (bufsize s) b1) as [Rn Mx]; [apply (rs_unit _ _ P')|cbn; lia..|].
  apply run_facts in Rn as (F1 & _); [|apply (rs_unit _ _ P')|cbn; lia].
  assert (forall j q, pkt_at (refresh (bufsize s) b1) j = Some q -> solo q) as Hsolo.
  { intros j q. unfold pkt_at. cbn. unfold set_cell. destruct (j =? i); [by intros [= <-]|]. apply (cs_solo _ _ I). }
  split_and!; try done; try apply I.
  - exact (proj1 F1).
  - intros j. cbn. unfold set_cell. destruct (j =? i); [done|]. apply (cs_fill _ _ I).
  - apply solo_ready; [intros q; apply Hsolo|exact Mx].
  - intros j Hj. unfold pkt_at. cbn. unfold set_cell. by destruct (Z.eqb_spec j i).
  - unfold pkt_at. cbn. unfold set_cell. by rewrite Z.eqb_refl.
Qed.

Lemma env_srtla s : CUDT.srtla_emitter (env_at c s) = true.
Proof using Hc. apply (lc_srtla _ Hc). Qed.

(** A packet of the buffer's window is near everything the loss list knows. *)
Lemma window_nearby s g y : consistent s g -> within_reach g -> first g <= y < first g + bufsize s -> nearby (g_lost g) y.
Proof using Type.
  intros I W Hy. pose proof (cs_far _ _ I). pose proof (rc_size _ _ (proj1 (cs_buf _ _ I))) as HN. unfold nearby, CSeqNo.m_iSeqNoTH. split.
  - intros m Hm. pose proof (cs_seen _ _ I m Hm). pose proof (reach_seen _ _ W Hm). lia.
  - intros z Hz. destruct (cs_lost _ _ I z Hz) as (? & ? & _). lia.
Qed.

(** The countdown of the fresh records and the count of packets in order. *)
Lemma tick_live l A rs ttl s words confirmed l' order :
  inv l A rs -> CUDT.fresh_loss_tick (env_at c s) l ttl = (words, confirmed, l') ->
  (exists rs', inv (CUDT.ordered_delivery (env_at c s) l' order) A rs') /\ list_size (CUDT.ordered_delivery (env_at c s) l' order) = list_size l.
Proof using Hc.
  intros I E. pose proof (tick_inv (env_at c s) l A rs ttl (env_srtla s) I) as I1. rewrite E in I1. cbn [snd] in I1. split.
  - exists rs. eapply same_core_inv; [exact I1|apply same_core_refl|..]; unfold CUDT.ordered_delivery; repeat case_match; done.
  - assert (list_size l' = list_size l) as <-.
    { unfold CUDT.fresh_loss_tick in E. destruct (negb (ttl =? 0)); [|by injection E as <- <- <-]. destruct (CUDT.bSRTLA (env_at c s)); [by injection E as <- <- <-|].
      destruct (CUDT.take_expired _ _ _) as [[? ?] ?]. by injection E as <- <- <-. }
    unfold CUDT.ordered_delivery. repeat case_match; done.
Qed.

(** The comparisons [receive_one] makes, on indices. *)
Lemma taken_tests s g p :
  consistent s g -> within_reach g -> valid_seq (CPacket.getSeqNo p) ->
  let i := data_index p g in
  CSeqNo.seqoff (CRcvBuffer.m_iStartSeqNo (m_pRcvBuffer s)) (CPacket.getSeqNo p) = i - first g
  /\ (first g <= i < first g + (bufsize s - 1) ->
      (CSeqNo.seqcmp (CPacket.getSeqNo p) (m_iRcvLastAck s) <? 0) = (i <? g_ack g)
      /\ (CSeqNo.seqcmp (CPacket.getSeqNo p) (m_iRcvCurrSeqNo s) >? 0) = (g_cur g <? i)
      /\ (CSeqNo.seqcmp (CPacket.getSeqNo p) (CSeqNo.incseq (m_iRcvCurrSeqNo s)) >? 0) = (g_cur g + 1 <? i)).
Proof using Type.
  intros I [_ W] Hv i. pose proof (cs_buf _ _ I) as (C & P & Rd & _). pose proof (rs_max _ _ P) as Hm. pose proof (rd_ready _ _ Rd) as Hr. pose proof (rc_size _ _ C) as HN.
  destruct (cs_ack _ _ I) as [Ea Hack]. pose proof (cs_far _ _ I) as Hfar. pose proof (cs_max _ _ I) as Hcm. split.
  - rewrite (rs_seq _ _ P). unfold i, data_index, index_of. lia.
  - intros Hi. assert (CPacket.getSeqNo p = seq_of i) as -> by (symmetry; by apply index_of_seq). rewrite Ea, (cs_cur _ _ I), incseq_seq_of.
    rewrite seqcmp_ltb by (unfold CSeqNo.m_iSeqNoTH; lia). rewrite !seqcmp_gtb by (unfold CSeqNo.m_iSeqNoTH; lia). rewrite !Z.gtb_ltb. done.
Qed.

(** What [processData] is given: a packet with a valid number, a message of its own,
    not encrypted; the clock has not gone back. *)
Definition data_ok (p : CPacket.t) (nowl : Z) (s : state) : Prop :=
  valid_seq (CPacket.getSeqNo p) /\ solo p /\ CPacket.getMsgCryptoFlags p = EK_NOENC
  /\ Forall (fun r => CRcvFreshLoss.timestamp r <= nowl) (CUDT.m_FreshLoss (losses s)).

(** A wish for a quick acknowledgement, or a closing connection, is all in [conn]. *)
Lemma conn_live k s g : consistent s g -> consistent (set_conn k s) g.
Proof using Type. clear Hc. intros []. by constructor. Qed.

Lemma quick_live wanted now p s g : consistent s g -> consistent (quick_ack c wanted now p s) g.
Proof using Type. clear Hc. intros I. unfold quick_ack. destruct (_ && _); [by apply conn_live|done]. Qed.

Lemma quick_buf wanted now p s : m_pRcvBuffer (quick_ack c wanted now p s) = m_pRcvBuffer s.
Proof using Type. clear Hc. unfold quick_ack. by destruct (_ && _). Qed.

Lemma quick_tick wanted now p s ttl (reported : list (Z * Z)) order :
  let q := quick_ack c wanted now p in
  (let '(words, _, l) := CUDT.fresh_loss_tick (env_at c (q s)) (losses (q s)) ttl in Some (0, reported, words, set_losses (CUDT.ordered_delivery (env_at c (q s)) l order) (q s)))
  = (let '(words, _, l) := CUDT.fresh_loss_tick (env_at c s) (losses s) ttl in Some (0, reported, words, q (set_losses (CUDT.ordered_delivery (env_at c s) l order) s))).
Proof using Type.
  clear Hc. unfold quick_ack. cbv zeta. destruct (CUDT.fresh_loss_tick _ _ _) as [[? ?] ?] eqn:E. cbn [conn set_losses].
  destruct (wanted && needsQuickACK c p); [|by rewrite E]. change (env_at c (set_conn ?k s)) with (env_at c s) in *. change (losses (set_conn ?k s)) with (losses s) in *. by rewrite E.
Qed.

(** A packet that is not taken changes nothing in the buffer and the lists. *)
Lemma data_ignored s g p now nowl nowq :
  consistent s g -> within_reach g -> data_ok p nowl s -> taken_in (bufsize s) p g = false ->
  exists s', take_in decrypt c now nowl nowq p s = Some (-1, [], [], s') /\ consistent s' g /\ bufsize s' = bufsize s.
Proof using Hc.
  intros I W (Hv & _) Ht. destruct (taken_tests s g p I W Hv) as [Eo Et]. unfold taken_in in Ht. set (i := data_index p g) in *.
  assert (forall r, receive_one decrypt c (CRcvBuffer.m_iStartSeqNo (m_pRcvBuffer s)) (now 0%nat) p (mkSeen false true []) s = Some r ->
    (exists x, r = inl (x, s)) \/ r = inr (mkSeen false true [], s) ->
    exists s', take_in decrypt c now nowl nowq p s = Some (-1, [], [], s') /\ consistent s' g /\ bufsize s' = bufsize s) as Hdone.
  { intros r Er Hr. unfold take_in, handleSocketPacketReception. cbn [receive_all]. rewrite Er. cbn [mbind option_bind]. destruct Hr as [[x ->]| ->].
    - eexists. split; [reflexivity|]. destruct (x =? -2); [|done]. split; [by apply conn_live|done].
    - eexists. split; [reflexivity|]. rewrite quick_buf. split; [apply quick_live; by destruct s|done]. }
  unfold receive_one in Hdone. rewrite Eo in Hdone. destruct (Z.ltb_spec (i - first g) 0); [eapply Hdone; [reflexivity|by right]|]. cbn [orb] in Hdone.
  rewrite Z.geb_leb in Hdone. unfold CRcvBuffer.capacity in Hdone. destruct (Z.leb_spec (bufsize s - 1) (i - first g)).
  - destruct (_ <? 0); (eapply Hdone; [reflexivity|eauto]).
  - destruct (Et ltac:(lia)) as (Ta & _). rewrite Ta in Hdone. destruct (Z.leb_spec (first g) i); [|lia]. destruct (Z.ltb_spec i (first g + (bufsize s - 1))); [|lia].
    rewrite andb_true_r in Ht. cbn [andb] in Ht. destruct (Z.leb_spec (g_ack g) i); [done|]. destruct (Z.ltb_spec i (g_ack g)) as [_|]; [|lia].
    eapply Hdone; [reflexivity|by right].
Qed.

Lemma a_insert_add s g p buf :
  let i := data_index p g in
  CPacket.getMsgCryptoFlags p = EK_NOENC ->
  CRcvBuffer.insert p (m_pRcvBuffer s) = Some (if decide (pkt_at (g_buf g) i = None) then 0 else -1, buf) ->
  add_packet decrypt c p (m_pRcvBuffer s) = Some (bool_decide (pkt_at (g_buf g) i = None), bool_decide (pkt_at (g_buf g) i = None), buf).
Proof using Hc.
  intros i Hn E. unfold add_packet. rewrite E. cbn [mbind option_bind fst snd]. rewrite Hn, (lc_open _ Hc). cbn [negb Z.eqb].
  destruct (decide (pkt_at (g_buf g) i = None)); [by rewrite bool_decide_eq_true_2|by rewrite bool_decide_eq_false_2].
Qed.

(** A packet ahead of all others: the gap before it is lost. *)
Lemma data_newer s g p now nowl nowq :
  consistent s g -> within_reach g -> data_ok p nowl s -> taken_in (bufsize s) p g = true -> g_cur g < data_index p g ->
  exists reported words s', take_in decrypt c now nowl nowq p s = Some (0, reported, words, s') /\ consistent s' (g_data (bufsize s) p g)
    /\ bufsize s' = bufsize s.
Proof using Hc.
  intros I W (Hv & Hs & Hn & Ht) Htk Hnew. destruct (taken_tests s g p I W Hv) as [Eo Et]. unfold g_data. rewrite Htk. unfold taken_in in Htk.
  set (i := data_index p g) in *. apply andb_true_iff in Htk as [[H1%Z.leb_le H2%Z.leb_le]%andb_true_iff H3%Z.ltb_lt].
  destruct (Et ltac:(lia)) as (Ta & Tc & Tn). destruct (insert_live s g p I Hv Hs ltac:(fold i; lia)) as (buf & E & R & Z & B1 & B2 & B3 & B4 & B5 & B6 & B7 & B8 & B9).
  fold i in E, B3, B8, B9. set (b' := snd (a_insert (bufsize s) p (g_buf g))) in *.
  pose proof (cs_buf _ _ I) as (C & P & Rd & _). pose proof (rs_max _ _ P) as Hm. pose proof (cs_max _ _ I) as Hcm. pose proof (rc_size _ _ C) as HN.
  assert (pkt_at (g_buf g) i = None) as Hnone.
  { destruct (pkt_at (g_buf g) i) as [q|] eqn:Eq; [|done]. assert (CRcvBuffer.has_unit (ab_cell (g_buf g) i) = true) as Hu%(rs_unit _ _ P) by (apply has_unit_pkt; eauto). lia. }
  pose proof (a_insert_add s g p buf Hn E) as Ea. fold i in Ea. rewrite bool_decide_eq_true_2 in Ea by done.
  unfold take_in, handleSocketPacketReception. cbn [receive_all]. unfold receive_one. rewrite Eo, Ta.
  destruct (Z.ltb_spec (i - first g) 0); [lia|]. destruct (Z.ltb_spec i (g_ack g)); [lia|]. cbn [orb]. rewrite Z.geb_leb. unfold CRcvBuffer.capacity.
  destruct (Z.leb_spec (bufsize s - 1) (i - first g)); [lia|]. rewrite Ea. cbn [mbind option_bind m_iRcvCurrSeqNo set_buffer]. rewrite Tn, Tc.
  destruct (Z.ltb_spec (g_cur g) i) as [_|]; [|lia]. cbn [andb]. cbn [loss_seqs new_inserted was_sent_in_order set_curr losses set_buffer orb].
  set (lost := if g_cur g + 1 <? i then _ else _). set (ttl := CUDT.initial_loss_ttl (env c) (losses s)).
  set (A' := if g_cur g + 1 <? i then snd (spec_insert (g_lost g) (g_cur g + 1) (i - 1)) else g_lost g).
  assert (exists l rs, record_losses ttl nowl lost (losses s) = Some l /\ inv l A' rs /\ list_size l = list_size (losses s)
    /\ (forall m, seen A' = Some m -> m <= i) /\ (forall z, z ∈ lostset A' <-> z ∈ lost_at g \/ g_cur g < z < i)) as (l & rs & El & Il & Zl & Sl & Ll).
  { destruct (cs_loss _ _ I) as [rs Irs]. unfold lost, A'. destruct (Z.ltb_spec (g_cur g + 1) i) as [Hgap|Hgap].
    - destruct (loss_inv (losses s) (g_lost g) rs ttl (g_cur g + 1) (i - 1) nowl Irs) as (l & rs' & El & Il).
      { cbn [event_ok]. do 2 (split; [apply (window_nearby s g); [done|done|lia]|]). split; [lia|]. split; [|split; [split|done]].
        - intros m Hmm%(cs_seen _ _ I). lia.
        - pose proof (cs_size _ _ I) as Hz. unfold list_size in Hz. lia.
        - intros z Hz. destruct (cs_lost _ _ I z Hz) as (? & ? & _). pose proof (cs_size _ _ I) as Hsz. unfold list_size in Hsz. lia. }
      assert (CPacket.getSeqNo p = seq_of i) as Eseq by (symmetry; by apply index_of_seq).
      exists l, rs'. rewrite (cs_cur _ _ I), Eseq, incseq_seq_of, decseq_seq_of. cbn [app record_losses]. rewrite El. split_and!; [done|done|by eapply record_loss_size|..].
      + unfold spec_insert. assert (cutoff (seen (g_lost g)) (g_cur g + 1) = g_cur g + 1) as ->.
        { unfold cutoff. destruct (seen (g_lost g)) as [m|] eqn:Em; [|done]. pose proof (cs_seen _ _ I m Em). lia. }
        destruct (Z.ltb_spec (i - 1) (g_cur g + 1)); [lia|]. cbn [snd seen]. intros m [= <-]. lia.
      + unfold spec_insert. assert (cutoff (seen (g_lost g)) (g_cur g + 1) = g_cur g + 1) as ->.
        { unfold cutoff. destruct (seen (g_lost g)) as [m|] eqn:Em; [|done]. pose proof (cs_seen _ _ I m Em). lia. }
        destruct (Z.ltb_spec (i - 1) (g_cur g + 1)); [lia|]. intros z. cbn [snd lostset]. rewrite elem_of_union, elem_of_range_set. split; (intros [?|?]; [by left|right; lia]).
    - exists (losses s), rs. split_and!; [done|done|done| |].
      + intros m Hmm%(cs_seen _ _ I). lia.
      + intros z. split; [by left|]. intros [?|?]; [done|lia]. }
  cbn [mbind option_bind loss_seqs losses set_curr set_buffer new_inserted was_sent_in_order]. rewrite El. cbn [mbind option_bind negb losses set_losses]. rewrite quick_tick. cbn [losses set_losses].
  destruct (CUDT.fresh_loss_tick _ l ttl) as [[words conf] l'] eqn:Etk.
  eexists _, words, _. split; [reflexivity|]. rewrite quick_buf. split; [|done]. apply quick_live. pose proof (tick_live l A' rs ttl _ words conf l' true Il Etk) as [[rs' Il'] Zl'].
  constructor; cbn [g_buf g_lost g_cur g_ack g_gone m_pRcvBuffer losses m_iRcvCurrSeqNo m_iRcvLastAck m_ACKWindow m_RcvTimeWindow set_losses set_curr set_buffer]; try done.
  - eexists. exact Il'.
  - rewrite Zl', Zl, Z. apply (cs_size _ _ I).
  - by symmetry; apply index_of_seq.
  - lia.
  - lia.
  - rewrite B1, Z. intros z [Hz|Hz]%Ll.
    + destruct (cs_lost _ _ I z Hz) as (Z1 & Z2 & Z3). rewrite B8 by lia. split_and!; done || lia.
    + rewrite B8 by lia. split_and!; [lia..|]. destruct (pkt_at (g_buf g) z) as [q|] eqn:Eq; [|done].
      assert (CRcvBuffer.has_unit (ab_cell (g_buf g) z) = true) as Hu%(rs_unit _ _ P) by (apply has_unit_pkt; eauto). lia.
  - rewrite B1. intros j Hj Hnj. destruct (Z.eq_dec j i) as [->|Hji]; [done|]. rewrite B8 in Hnj by done.
    destruct (Z.le_gt_cases j (g_cur g)); [|left; apply Ll; right; lia]. destruct (cs_missing _ _ I j ltac:(lia) Hnj); [left; apply Ll; by left|by right].
  - destruct (cs_ack _ _ I) as [Ea' Ha']. split; [done|lia].
  - apply I.
  - apply I.
Qed.

Lemma spec_remove_seen A y k : y <= k -> (forall m, seen A = Some m -> m <= k) -> forall m, seen (snd (spec_remove A y)) = Some m -> m <= k.
Proof using Type.
  intros Hy Hk m. unfold spec_remove, seen_with. destruct (decide (y ∈ lostset A)); cbn [snd seen]; [destruct (decide _); [done|]|];
    (destruct (seen A) as [x|]; [specialize (Hk x eq_refl)|]); intros [= <-]; lia.
Qed.

(** A packet at or behind [m_iRcvCurrSeqNo] is no longer lost. *)
Lemma data_older s g p now nowl nowq :
  consistent s g -> within_reach g -> data_ok p nowl s -> taken_in (bufsize s) p g = true -> data_index p g <= g_cur g ->
  exists ret reported words s', take_in decrypt c now nowl nowq p s = Some (ret, reported, words, s') /\ consistent s' (g_data (bufsize s) p g)
    /\ bufsize s' = bufsize s.
Proof using Hc.
  intros I W (Hv & Hs & Hn & Ht) Htk Hold. destruct (taken_tests s g p I W Hv) as [Eo Et]. unfold g_data. rewrite Htk. unfold taken_in in Htk.
  set (i := data_index p g) in *. apply andb_true_iff in Htk as [[H1%Z.leb_le H2%Z.leb_le]%andb_true_iff H3%Z.ltb_lt].
  destruct (Et ltac:(lia)) as (Ta & Tc & Tn). destruct (insert_live s g p I Hv Hs ltac:(fold i; lia)) as (buf & E & R & Z & B1 & B2 & B3 & B4 & B5 & B6 & B7 & B8 & B9).
  fold i in E, B3, B8, B9. set (b' := snd (a_insert (bufsize s) p (g_buf g))) in *.
  pose proof (cs_buf _ _ I) as (C & P & Rd & _). pose proof (rs_max _ _ P) as Hm. pose proof (cs_max _ _ I) as Hcm. pose proof (rc_size _ _ C) as HN.
  pose proof (a_insert_add s g p buf Hn E) as Ea. fold i in Ea.
  unfold take_in, handleSocketPacketReception. cbn [receive_all]. unfold receive_one. rewrite Eo, Ta.
  destruct (Z.ltb_spec (i - first g) 0); [lia|]. destruct (Z.ltb_spec i (g_ack g)); [lia|]. cbn [orb]. rewrite Z.geb_leb. unfold CRcvBuffer.capacity.
  destruct (Z.leb_spec (bufsize s - 1) (i - first g)); [lia|]. rewrite Ea. cbn [mbind option_bind m_iRcvCurrSeqNo set_buffer]. rewrite Tn, Tc.
  destruct (Z.ltb_spec (g_cur g) i); [lia|]. destruct (Z.ltb_spec (g_cur g + 1) i); [lia|]. rewrite andb_false_r. cbn [loss_seqs losses set_buffer].
  destruct (now 0%nat) as [[n1 n2] n3]. destruct (cs_loss _ _ I) as [rs Irs]. assert (CPacket.getSeqNo p = seq_of i) as Eseq by (symmetry; by apply index_of_seq).
  destruct (unlose_inv (env_at c (set_buffer buf s)) (losses s) (g_lost g) rs i (CPacket.getRexmitFlag p) n1 n2 n3 (env_srtla _) Irs) as (l & rs' & El & Il & _).
  { apply (window_nearby s g); [done|done|lia]. }
  pose proof (unlose_size _ _ _ _ _ _ _ _ (env_srtla _) El) as Zl. rewrite Eseq, El. cbn [mbind option_bind loss_seqs record_losses losses set_losses new_inserted orb].
  assert (forall s', rrep (m_pRcvBuffer s') b' -> CRcvBuffer.m_szSize (m_pRcvBuffer s') = bufsize s -> (exists rs, inv (losses s') (snd (spec_remove (g_lost g) i)) rs) ->
    list_size (losses s') = list_size (losses s) -> m_iRcvCurrSeqNo s' = m_iRcvCurrSeqNo s -> m_iRcvLastAck s' = m_iRcvLastAck s -> m_ACKWindow s' = m_ACKWindow s -> m_RcvTimeWindow s' = m_RcvTimeWindow s ->
    consistent s' (mkGhost b' (snd (spec_remove (g_lost g) i)) (g_cur g) (g_ack g) (g_gone g))) as Hcons.
  { intros s' K1 K2 K3 K4 K5 K6 K7 K8. constructor; cbn [g_buf g_lost g_cur g_ack g_gone]; rewrite ?K2, ?K4, ?K5, ?K6, ?K7, ?K8; try done; try apply I.
    - lia.
    - rewrite B1. apply I.
    - apply spec_remove_seen; [done|apply I].
    - rewrite B1, spec_remove_lost. intros z [Hz Hne]%elem_of_difference. destruct (cs_lost _ _ I z Hz) as (Z1 & Z2 & Z3).
      rewrite B8 by (intros ->; set_solver). done.
    - rewrite B1, spec_remove_lost. intros j Hj Hnj. destruct (Z.eq_dec j i) as [->|Hji]; [done|]. rewrite B8 in Hnj by done.
      destruct (cs_missing _ _ I j Hj Hnj); [left|by right]. apply elem_of_difference. split; [done|]. set_solver.
    - destruct (cs_ack _ _ I) as [Ea' Ha']. split; [done|lia]. }
  destruct (bool_decide (pkt_at (g_buf g) i = None)); cbn [negb].
  - rewrite quick_tick. cbn [losses set_losses]. destruct (CUDT.fresh_loss_tick _ l _) as [[words conf] l'] eqn:Etk.
    eexists _, _, words, _. split; [reflexivity|]. rewrite quick_buf. split; [|done]. apply quick_live.
    destruct (tick_live l _ rs' _ _ words conf l' (true && negb (CUDT.m_bPeerRexmitFlag (env c) && negb (CPacket.getRexmitFlag p))) Il Etk) as [Il' Zl'].
    apply Hcons; [exact R|exact Z|exact Il'| |reflexivity..]. etransitivity; [exact Zl'|exact Zl].
  - eexists _, _, _, _. split; [reflexivity|]. rewrite quick_buf. split; [|done]. apply quick_live. apply Hcons; try done. by exists rs'.
Qed.

Lemma data_live s g p now nowl nowq :
  consistent s g -> within_reach g -> data_ok p nowl s ->
  exists ret reported words s', take_in decrypt c now nowl nowq p s = Some (ret, reported, words, s') /\ consistent s' (g_data (bufsize s) p g)
    /\ bufsize s' = bufsize s.
Proof using Hc.
  intros I W Hok. destruct (taken_in (bufsize s) p g) eqn:Ht.
  - destruct (Z.lt_ge_cases (g_cur g) (data_index p g)) as [Hlt|Hge]; [|by apply data_older].
    destruct (data_newer s g p now nowl nowq I W Hok Ht Hlt) as (reported & words & s' & E & R). exists 0, reported, words, s'. by split.
  - destruct (data_ignored s g p now nowl nowq I W Hok Ht) as (s' & E & R). exists (-1), [], [], s'. unfold g_data. by rewrite Ht.
Qed.

(** The time windows. *)
Lemma arrival_times sz now w : times_ok w -> exists w', CPktTimeWindow.onPktArrival sz now w = Some w' /\ times_ok w'.
Proof using Type.
  clear Hc. intros (H1 & H2 & H3). unfold CPktTimeWindow.onPktArrival. rewrite !aset_Some by (unfold in_bounds in *; lia). cbn [mbind option_bind].
  eexists. split; [reflexivity|]. unfold times_ok, in_bounds, CPktTimeWindow.advance in *. cbn. rewrite !length_insert. split_and!; try lia. all: case_match; lia.
Qed.

Lemma probe_times p unordered now1 now2 w : times_ok w -> exists w', CPktTimeWindow.probeArrival p unordered now1 now2 w = Some w' /\ times_ok w'.
Proof using Type.
  clear Hc. intros H. unfold CPktTimeWindow.probeArrival. set (w1 := if _ =? 0 then _ else w).
  assert (times_ok w1) as H1 by (unfold w1, CPktTimeWindow.probe1Arrival; repeat case_match; done). clearbody w1. destruct unordered; [by exists w1|].
  destruct (_ =? 1); [|by exists w1]. unfold CPktTimeWindow.probe2Arrival. destruct (_ || _); [by exists w1|]. destruct H1 as (H1 & H2 & H3).
  rewrite aset_Some by done. cbn [mbind option_bind]. eexists. split; [reflexivity|]. unfold times_ok, in_bounds, CPktTimeWindow.advance in *. cbn. rewrite !length_insert. split_and!; try lia. all: case_match; lia.
Qed.

Lemma arrive_live s g nows p :
  consistent s g -> exists s', arrive c nows p s = Some s' /\ consistent s' g /\ m_pRcvBuffer s' = m_pRcvBuffer s /\ losses s' = losses s.
Proof using Type.
  clear Hc. intros I. unfold arrive. destruct nows as [[[now nowa] nowp1] nowp2]. destruct (arrival_times (CPacket.getLength p) nowa _ (cs_times _ _ I)) as (w & -> & Hw). cbn [mbind option_bind].
  match goal with |- context [CPktTimeWindow.probeArrival p ?u _ _ _] => destruct (probe_times p u nowp1 nowp2 w Hw) as (w' & -> & Hw') end. cbn [mbind option_bind].
  eexists. split; [reflexivity|]. split; [|done]. destruct I. by constructor.
Qed.

(** A closing connection takes nothing in. *)
Definition g_received (N : Z) (p : CPacket.t) (s : state) (g : ghost) : ghost := if m_bClosing (conn s) then g else g_data N p g.

Lemma received_live s g p nows now nowl nowq :
  consistent s g -> within_reach g -> data_ok p nowl s ->
  exists ret reported words s', processData decrypt c nows now nowl nowq p s = Some (ret, reported, words, s') /\ consistent s' (g_received (bufsize s) p s g)
    /\ bufsize s' = bufsize s.
Proof using Hc.
  intros I W Hok. unfold processData, g_received. destruct (m_bClosing (conn s)); [by exists (-1), [], [], s|].
  destruct (arrive_live s g nows p I) as (s1 & -> & I1 & Eb & El). cbn [mbind option_bind]. rewrite <- Eb. apply data_live; [done|done|]. unfold data_ok. by rewrite El.
Qed.

(** ** The start of the buffer moves on *)

Lemma moved_live s g buf b' l A :
  consistent s g -> rrep buf b' -> CRcvBuffer.m_szSize buf = bufsize s -> ab_api b' = true -> first g <= ab_first b' -> ab_max b' = ab_max (g_buf g) ->
  (forall i, ab_cell b' i = if i <? ab_first b' then CRcvBuffer.empty_entry else ab_cell (g_buf g) i) ->
  pkt_at b' (ab_ready b') = None -> g_ack g <= ab_ready b' ->
  (exists rs, inv l A rs) -> list_size l = list_size (losses s) -> (forall m, seen A = Some m -> m <= g_cur g) ->
  (forall z, z ∈ lostset A <-> z ∈ lost_at g /\ ab_first b' <= z) ->
  consistent (set_losses l (set_buffer buf s)) (mkGhost b' A (g_cur g) (g_ack g) (g_gone g)).
Proof using Type.
  intros I R Z Ha Hf Hm Hc' Hr Hk Hl Hz Hs HA.
  assert (forall i, ab_first b' <= i -> pkt_at b' i = pkt_at (g_buf g) i) as Hp.
  { intros i Hi. unfold pkt_at. rewrite Hc'. by destruct (Z.ltb_spec i (ab_first b')); [lia|]. }
  constructor; cbn [g_buf g_lost g_cur g_ack g_gone m_pRcvBuffer losses m_iRcvCurrSeqNo m_iRcvLastAck set_losses set_buffer]; try done; try apply I.
  - intros i. rewrite Hc'. destruct (_ <? _); [done|apply I].
  - intros i q Hq. destruct (Z.lt_ge_cases i (ab_first b')) as [Hi|Hi]; [|rewrite Hp in Hq by done; by eapply cs_solo].
    unfold pkt_at in Hq. rewrite Hc' in Hq. by destruct (Z.ltb_spec i (ab_first b')); [|lia].
  - rewrite Z, Hz. apply I.
  - rewrite Hm. apply I.
  - pose proof (cs_far _ _ I). lia.
  - intros z [Hlost Hge]%HA. destruct (cs_lost _ _ I z Hlost) as (? & ? & Hn). rewrite Z, Hp by done. split_and!; [lia..|done].
  - intros i Hi Hn. rewrite Hp in Hn by lia. destruct (cs_missing _ _ I i ltac:(lia) Hn); [left; apply HA; split; [done|lia]|by right].
  - split; [apply I|done].
Qed.

(** ** Reading *)

Definition g_read (N len : Z) (g : ghost) : ghost := mkGhost (snd (a_readMessage N len (g_buf g))) (g_lost g) (g_cur g) (g_ack g) (g_gone g).

(** A message is one packet: the first of the buffer, which is ready. *)
Lemma read_one s g len :
  consistent s g -> first g < ab_ready (g_buf g) ->
  exists p m, pkt_at (g_buf g) (first g) = Some p /\ CRcvBuffer.msg_data m = take (Z.to_nat (Z.min len (CPacket.getLength p))) (CPacket.m_pcData p)
    /\ CRcvBuffer.msg_pktseq m = Some (CPacket.getSeqNo p)
    /\ a_readMessage (bufsize s) len (g_buf g) = (Z.of_nat (length (CRcvBuffer.msg_data m)), m, with_ready (ab_ready (g_buf g)) (pop (g_buf g))).
Proof using Type.
  intros I Hr. pose proof (cs_buf _ _ I) as (C & P & Rd & _). destruct (proj1 (has_unit_pkt _ _) (rd_unit _ _ Rd (first g) ltac:(lia))) as [p Ep].
  unfold a_readMessage. destruct (Z.ltb_spec (first g) (ab_ready (g_buf g))); [|lia]. cbn [a_read]. rewrite Ep.
  destruct (solo_last p (cs_solo _ _ I _ _ Ep)) as [-> Hf]. rewrite settle_id.
  2: { unfold settled. cbn. unfold set_cell. destruct (Z.eqb_spec (first g + 1) (first g)); [done|]. apply (cs_fill _ _ I). }
  eexists p, _. split; [done|]. split; [|split; [|rewrite Z.max_l by (cbn; lia); reflexivity]]; done.
Qed.

Lemma read_live s g len :
  consistent s g -> exists n m buf, CRcvBuffer.readMessage len (m_pRcvBuffer s) = Some (n, m, buf) /\ consistent (set_buffer buf s) (g_read (bufsize s) len g)
    /\ CRcvBuffer.m_szSize buf = bufsize s /\ (first g < ab_ready (g_buf g) -> CRcvBuffer.msg_pktseq m = Some (seq_of (first g)) /\ ab_first (g_buf (g_read (bufsize s) len g)) = first g + 1).
Proof using Type.
  intros I. pose proof (readMessage_run _ _ len (cs_buf _ _ I) (cs_api _ _ I)) as Hrun. pose proof (cs_buf _ _ I) as (C & P & Rd & _).
  unfold g_read. destruct (Z.lt_ge_cases (first g) (ab_ready (g_buf g))) as [Hlt|Hge].
  - destruct (read_one s g len I Hlt) as (p & m & Ep & _ & Em & Ea). rewrite Ea in *. destruct Hrun as (buf & E & R & Z). cbn [snd g_buf] in *.
    exists (Z.of_nat (length (CRcvBuffer.msg_data m))), m, buf. split; [done|]. split; [|split; [done|]].
    + change (set_buffer buf s) with (set_losses (losses s) (set_buffer buf s)). apply moved_live; try done; try (cbn; lia); try apply I.
      * intros i. cbn. unfold set_cell. destruct (Z.ltb_spec i (first g + 1)), (Z.eqb_spec i (first g)); try lia; [done|apply (rc_out _ _ C); lia|done].
      * unfold pkt_at. cbn. unfold set_cell. destruct (Z.eqb_spec (ab_ready (g_buf g)) (first g)); [lia|]. apply (cs_ready _ _ I).
      * intros z. split; [|by intros [? _]]. intros Hz. split; [done|]. destruct (cs_lost _ _ I z Hz) as ((? & ?) & _ & Hn). cbn. destruct (Z.eq_dec z (first g)) as [->|]; [congruence|lia].
    + intros _. split; [|done]. rewrite Em. f_equal. by apply (rc_unit _ _ C).
  - unfold a_readMessage in *. destruct (Z.ltb_spec (first g) (ab_ready (g_buf g))); [lia|]. destruct Hrun as (buf & E & R & Z). cbn [snd] in *.
    exists 0, no_message, buf. split; [done|]. split; [|split; [done|lia]]. destruct I. by constructor; cbn; rewrite ?Z.
Qed.

(** ** Delivery *)

Fixpoint first_pkt (n : nat) (b : abuf) (i : Z) : option (Z * CPacket.t) :=
  match n with
  | O => None
  | S m => match pkt_at b i with Some p => Some (i, p) | None => first_pkt m b (i + 1) end
  end.

(** The first packet in the buffer. *)
Definition head_pkt (b : abuf) : option (Z * CPacket.t) := first_pkt (Z.to_nat (ab_max b - ab_first b)) b (ab_first b).

Lemma first_pkt_spec n b i j p : first_pkt n b i = Some (j, p) -> i <= j < i + Z.of_nat n /\ pkt_at b j = Some p /\ forall k, i <= k < j -> pkt_at b k = None.
Proof using Type.
  revert i. induction n as [|n IH]; intros i; cbn [first_pkt]; [done|]. destruct (pkt_at b i) as [q|] eqn:Eq.
  - intros [= -> ->]. split; [lia|]. split; [done|]. lia.
  - intros H. apply IH in H as (H1 & H2 & H3). split; [lia|]. split; [done|]. intros k Hk. destruct (Z.eq_dec k i) as [->|]; [done|]. apply H3. lia.
Qed.

Lemma first_valid_run fuel s b n i :
  rcore s b -> rspan s b -> ab_first b <= i -> i + Z.of_nat n = ab_max b -> (n <= fuel)%nat ->
  CRcvBuffer.first_valid fuel s (at_ s b (ab_max b)) (at_ s b i)
  = Some (match first_pkt n b i with None => CRcvBuffer.mkInfo (-1) false 0
          | Some (j, p) => CRcvBuffer.mkInfo (CPacket.getSeqNo p) (negb (j =? ab_first b)) (CRcvBuffer.getPktTsbPdTime (CPacket.getMsgTimeStamp p) s) end).
Proof using Type.
  intros C P. pose proof (rs_max _ _ P) as Hm. revert fuel i. induction n as [|n IH]; intros fuel i Hi Hn Hf.
  - replace i with (ab_max b) by lia. destruct fuel; cbn [CRcvBuffer.first_valid first_pkt]; by rewrite Z.eqb_refl.
  - destruct fuel as [|f]; [lia|]. cbn [CRcvBuffer.first_valid first_pkt]. destruct (Z.eqb_spec (at_ s b i) (at_ s b (ab_max b))) as [E|_].
    { apply (at_inj _ _ C) in E; lia. }
    rewrite (entry_at _ _ C) by lia. cbn [mbind option_bind]. unfold pkt_at. destruct (CRcvBuffer.pUnit (ab_cell b i)) as [p|].
    + do 3 f_equal. rewrite <- (at_first _ _ C). destruct (Z.eqb_spec i (ab_first b)) as [->|Hne]; [by rewrite Z.eqb_refl|].
      destruct (Z.eqb_spec (at_ s b i) (at_ s b (ab_first b))) as [E|]; [|done]. apply (at_inj _ _ C) in E; lia.
    + rewrite (at_next _ _ C). apply IH; lia.
Qed.

Lemma first_valid_info s b :
  rrep s b ->
  CRcvBuffer.getFirstValidPacketInfo s
  = Some (match head_pkt b with None => CRcvBuffer.mkInfo (-1) false 0
          | Some (j, p) => CRcvBuffer.mkInfo (CPacket.getSeqNo p) (negb (j =? ab_first b)) (CRcvBuffer.getPktTsbPdTime (CPacket.getMsgTimeStamp p) s) end).
Proof using Type.
  intros (C & P & _). pose proof (rs_max _ _ P) as Hm. unfold CRcvBuffer.getFirstValidPacketInfo. rewrite (rs_maxoff _ _ P), (at_off _ _ C), <- (at_first _ _ C).
  replace (ab_first b + (ab_max b - ab_first b)) with (ab_max b) by lia. apply first_valid_run; [done|done|lia|lia|]. unfold CRcvBuffer.m_szSize in Hm. lia.
Qed.

(** The number of the largest packet seen, after a range was taken out. *)
Lemma spec_remove_n_seen n A y k : y + Z.of_nat n - 1 <= k -> (forall m, seen A = Some m -> m <= k) -> forall m, seen (spec_remove_n A y n) = Some m -> m <= k.
Proof using Type.
  revert A y. induction n as [|n IH]; intros A y Hy Hk; cbn [spec_remove_n]; [done|]. apply IH; [lia|]. apply spec_remove_seen; [lia|done].
Qed.

Lemma spec_drop_parts A y k :
  y <= k -> (forall m, seen A = Some m -> m <= k) ->
  (forall m, seen (spec_drop A None y) = Some m -> m <= k) /\ (forall z, z ∈ lostset (spec_drop A None y) <-> z ∈ lostset A /\ y < z).
Proof using Type.
  intros Hy Hk. unfold spec_drop. pose proof (first_lost_spec A) as Hf. destruct (first_lost A) as [x|].
  - destruct Hf as [Hx Hmin]. destruct (Z.ltb_spec y x).
    + split; [done|]. intros z. split; [|by intros [? _]]. intros Hz. specialize (Hmin z Hz). split; [done|lia].
    + split; [apply spec_remove_n_seen; [lia|done]|]. intros z. rewrite spec_remove_n_lost, elem_of_difference, elem_of_range_set. split.
      * intros [Hz Hn]. specialize (Hmin z Hz). split; [done|lia].
      * intros [Hz Hn]. split; [done|lia].
  - split; [done|]. intros z. rewrite Hf. clear Hc. set_solver.
Qed.

(** The receiver gives up on the packets before [j]. *)
Definition g_skip (N j : Z) (g : ghost) : ghost :=
  mkGhost (snd (a_dropUpTo N (seq_of j) (g_buf g))) (spec_drop (g_lost g) None (j - 1)) (g_cur g) (g_ack g) (g_gone g).

Lemma first_lost_word s g : consistent s g ->
  CRcvLossList.getFirstLostSeq (CUDT.m_pRcvLossList (losses s)) = Some (match first_lost (g_lost g) with Some x => seq_of x | None => SRT_SEQNO_NONE end).
Proof using Type.
  intros I. destruct (cs_loss _ _ I) as [rs Irs]. pose proof (first_lost_spec (g_lost g)) as Hf.
  destruct (models_first _ _ (inv_models _ _ _ Irs)) as [[He ->]|(x & Hx & Hmin & ->)]; destruct (first_lost (g_lost g)) as [y|]; try done.
  - destruct Hf as [Hf _]. rewrite He in Hf. by apply not_elem_of_empty in Hf.
  - destruct Hf as [Hy Hmin']. specialize (Hmin _ Hy). specialize (Hmin' _ Hx). do 2 f_equal. lia.
  - rewrite Hf in Hx. by apply not_elem_of_empty in Hx.
Qed.

Lemma index_near b j : Z.abs (j - ab_first b) < 2 ^ 30 - 1 -> index_of b (seq_of j) = j.
Proof using Type. intros Hj. unfold index_of. rewrite seqoff_seq_of by (unfold CSeqNo.m_iSeqNoTH; lia). lia. Qed.

Lemma skip_live s g j :
  consistent s g -> within_reach g -> first g < j < ab_max (g_buf g) -> pkt_at (g_buf g) (first g) = None -> pkt_at (g_buf g) j <> None ->
  exists n s', rcvDropTooLateUpTo c (seq_of j) s = Some (n, s') /\ consistent s' (g_skip (bufsize s) j g) /\ bufsize s' = bufsize s
    /\ ab_first (g_buf (g_skip (bufsize s) j g)) = j /\ j < ab_ready (g_buf (g_skip (bufsize s) j g))
    /\ (forall i, pkt_at (g_buf (g_skip (bufsize s) j g)) i = if i <? j then None else pkt_at (g_buf g) i).
Proof using Hc.
  intros I W Hj H0 Hp. pose proof (cs_buf _ _ I) as (C & P & Rd & _). pose proof (rs_max _ _ P) as Hm. pose proof (cs_max _ _ I) as Hcm. pose proof (rc_size _ _ C) as HN.
  pose proof (rd_ready _ _ Rd) as Hr. pose proof (cs_far _ _ I) as Hfar.
  assert (ab_ready (g_buf g) = first g) as Er.
  { destruct (Z.eq_dec (ab_ready (g_buf g)) (first g)); [done|]. assert (CRcvBuffer.has_unit (ab_cell (g_buf g) (first g)) = true) as [q Hq]%has_unit_pkt by (apply (rd_unit _ _ Rd); lia). congruence. }
  unfold rcvDropTooLateUpTo. rewrite (cs_cur _ _ I), incseq_seq_of, seqcmp_gtb by (unfold CSeqNo.m_iSeqNoTH; lia). rewrite Z.gtb_ltb.
  destruct (Z.ltb_spec (g_cur g + 1) j); [lia|]. rewrite decseq_seq_of. unfold dropFromLossLists, drop_fuel. rewrite Z.eqb_refl, (first_lost_word _ _ I). cbn [mbind option_bind].
  destruct (cs_loss _ _ I) as [rs Irs].
  set (fuel := if _ =? SRT_SEQNO_NONE then 0%nat else _).
  destruct (drop_inv (env_at c s) (losses s) (g_lost g) rs fuel None (j - 1) (env_srtla s) Irs) as (l & rs' & El & Il & _).
  { split; [apply (window_nearby s g); [done|done|lia]|]. intros x Hx. destruct (cs_lost _ _ I x Hx) as (? & ? & _).
    split; [apply (window_nearby s g); [done|done|lia]|]. split; [unfold CSeqNo.m_iSeqNoTH; lia|]. unfold fuel.
    pose proof (first_lost_spec (g_lost g)) as Hfl. destruct (first_lost (g_lost g)) as [y|]; [|rewrite Hfl in Hx; set_solver].
    destruct Hfl as [Hy Hmin]. specialize (Hmin x Hx). destruct (cs_lost _ _ I y Hy) as (? & ? & _). rewrite seq_of_not_none, seqoff_seq_of by (unfold CSeqNo.m_iSeqNoTH; lia). lia. }
  cbn [from_option] in El. rewrite El. cbn [mbind option_bind m_pRcvBuffer set_losses].
  pose proof (dropUpTo_run _ _ (seq_of j) (cs_buf _ _ I) (seq_of_valid j)) as Hrun. pose proof (dropFromLossLists_size _ _ _ _ _ _ El) as Zl.
  destruct (spec_drop_parts (g_lost g) (j - 1) (g_cur g) ltac:(lia) (cs_seen _ _ I)) as [Hs Hlost].
  unfold g_skip. unfold a_dropUpTo in *. rewrite index_near in * by lia. destruct (Z.leb_spec j (first g)); [lia|]. cbn zeta in *.
  rewrite settle_id in *.
  2,3: unfold settled; cbn; unfold clear_below; destruct (Z.ltb_spec j j); [lia|]; apply (cs_fill _ _ I).
  cbn [ab_ready ab_first with_clock with_cells] in *. destruct (Z.ltb_spec (ab_ready (g_buf g)) j); [|lia]. destruct Hrun as (buf & E & R & Z). rewrite E. cbn [mbind option_bind snd g_buf].
  set (b1 := with_ready j _) in *. pose proof R as (C' & P' & Rd' & _).
  destruct (refresh_spec (bufsize s) b1) as [Rn Mx]; [apply (rs_unit _ _ P')|cbn; lia..|].
  assert (pkt_at (refresh (bufsize s) b1) (ab_ready (refresh (bufsize s) b1)) = None) as Hready.
  { apply solo_ready; [|exact Mx]. intros q. unfold pkt_at. cbn. unfold clear_below. destruct (_ <? _); [done|]. apply (cs_solo _ _ I). }
  assert (j < ab_ready (refresh (bufsize s) b1)) as Hjr.
  { pose proof (rd_ready _ _ Rd') as Hrr. change (ab_first (refresh (bufsize s) b1)) with j in Hrr. destruct (Z.eq_dec j (ab_ready (refresh (bufsize s) b1))) as [Ej|]; [|lia].
    rewrite <- Ej in Hready. unfold pkt_at in Hready. cbn in Hready. unfold clear_below in Hready. destruct (Z.ltb_spec j j); [lia|]. done. }
  eexists _, _. split; [reflexivity|].
  split; [|split; [done|]; split; [done|]; split; [done|]; intros i; unfold pkt_at; cbn; unfold clear_below; by destruct (_ <? _)].
  change (set_buffer buf (set_losses l s)) with (set_losses l (set_buffer buf s)). apply moved_live; try done; try (cbn; lia); try apply I.
  - destruct (cs_ack _ _ I). lia.
  - by exists rs'.
  - intros z. rewrite Hlost. cbn. split; intros [? ?]; split; done || lia.
Qed.

(** When a packet is to be given to the application. *)
Definition due (tnow : Z) (b : abuf) (p : CPacket.t) : bool :=
  let time := CTsbpdTime.getPktTime (CPacket.getMsgTimeStamp p) (ab_clock b) in negb (is_zero time) && (tnow >=? time).

Definition g_round (N tnow : Z) (g : ghost) : ghost :=
  match head_pkt (g_buf g) with
  | Some (j, p) => if due tnow (g_buf g) p && negb (j =? first g) then g_skip N j g else g
  | None => g
  end.

(** The application is told to read exactly when the first packet is due, and then
    there is a message. *)
Lemma round_live s g tnow :
  consistent s g -> within_reach g ->
  exists told next s', tsbpd_round c tnow s = Some (told, next, s') /\ consistent s' (g_round (bufsize s) tnow g) /\ bufsize s' = bufsize s
    /\ told = match head_pkt (g_buf g) with Some (_, p) => due tnow (g_buf g) p | None => false end
    /\ (told = true -> ab_first (g_buf (g_round (bufsize s) tnow g)) < ab_ready (g_buf (g_round (bufsize s) tnow g)))
    /\ (told = false -> s' = s) /\ (forall i p, pkt_at (g_buf g) i = Some p -> pkt_at (g_buf (g_round (bufsize s) tnow g)) i = Some p).
Proof using Hc.
  intros I W. pose proof (cs_buf _ _ I) as (C & P & Rd & _). pose proof (rs_max _ _ P) as Hm. pose proof (rd_ready _ _ Rd) as Hr.
  unfold tsbpd_round, g_round. rewrite (first_valid_info _ _ (cs_buf _ _ I)). destruct (lc_tsbpd _ Hc) as (_ & -> & _). cbn [mbind option_bind negb].
  destruct (head_pkt (g_buf g)) as [[j p]|] eqn:Ehd; [|by exists false, 0, s].
  apply first_pkt_spec in Ehd as (Hj & Ep & Hbefore). cbn [CRcvBuffer.tsbpd_time CRcvBuffer.seq_gap CRcvBuffer.info_seqno].
  unfold due, CRcvBuffer.getPktTsbPdTime. rewrite (rc_clock _ _ C). set (time := CTsbpdTime.getPktTime _ _).
  destruct (negb (is_zero time) && (tnow >=? time)); cbn [andb]; [|by exists false, time, s].
  destruct (Z.eqb_spec j (first g)) as [->|Hne]; cbn [negb].
  - exists true, 0, s. split_and!; [done..| |done|done]. intros _. pose proof (cs_ready _ _ I) as Hn. destruct (Z.eq_dec (first g) (ab_ready (g_buf g))) as [E|]; [|lia]. rewrite <- E in Hn. congruence.
  - assert (CPacket.getSeqNo p = seq_of j) as -> by (by apply (rc_unit _ _ C)).
    destruct (skip_live s g j I W) as (n & s' & E & I' & Z' & F' & R' & K'); [lia|apply Hbefore; lia|congruence|].
    rewrite E. cbn [mbind option_bind snd]. exists true, 0, s'. split_and!; [done..|intros _; lia|done|].
    intros i q Hq. rewrite K'. destruct (Z.ltb_spec i j); [|done]. destruct (Z.lt_ge_cases i (first g)); [|rewrite Hbefore in Hq by lia; done].
    unfold pkt_at in Hq. by rewrite (rc_out _ _ C) in Hq by lia.
Qed.

(** ** The sender asks to drop a range *)

Lemma seqoff_opp a b : valid_seq a -> valid_seq b -> CSeqNo.seqoff a b = - CSeqNo.seqoff b a.
Proof using Type.
  clear Hc. unfold valid_seq, CSeqNo.m_iMaxSeqNo. intros Ha Hb. unfold CSeqNo.seqoff, CSeqNo.m_iSeqNoTH, CSeqNo.m_iMaxSeqNo. unwrap_ints. split_ifs; unwrap_ints; lia.
Qed.

(** The range, if it is accepted: it starts near the buffer's start and is not reversed. *)
Definition req_range (lo hi : Z) (g : ghost) : option (Z * Z) :=
  let x := index_of (g_buf g) lo in
  let d := CSeqNo.seqoff lo hi in
  if (Z.abs (x - first g) <=? 2 ^ 29 - 1) && (0 <=? d) && (d <=? 2 ^ 29 - 1) then Some (x, x + d) else None.

Definition g_dropreq (lo hi : Z) (g : ghost) : ghost :=
  match req_range lo hi g with
  | Some (x, y) => mkGhost (g_buf g) (spec_remove_n (g_lost g) x (Z.to_nat (y - x + 1))) (Z.max (g_cur g) y) (g_ack g) (fun i => g_gone g i \/ x <= i <= y)
  | None => g
  end.

(** No packet is skipped between the last one and the range, which ends within
    half of what can be compared. *)
Definition dropreq_ok (lo hi : Z) (g : ghost) : Prop :=
  valid_seq lo /\ valid_seq hi /\ match req_range lo hi g with Some (x, y) => x <= g_cur g + 1 /\ y < first g + (2 ^ 29 - 1) | None => True end.

(** The packets from [x] to [x + d] are taken out of the loss list. *)
Lemma taken_out s g x d s' :
  consistent s g -> 0 <= d -> x <= g_cur g + 1 -> x + d < first g + (2 ^ 29 - 1) ->
  m_pRcvBuffer s' = m_pRcvBuffer s -> (exists rs, inv (losses s') (spec_remove_n (g_lost g) x (Z.to_nat (d + 1))) rs) -> list_size (losses s') = list_size (losses s) ->
  m_iRcvCurrSeqNo s' = seq_of (Z.max (g_cur g) (x + d)) -> m_iRcvLastAck s' = m_iRcvLastAck s -> m_ACKWindow s' = m_ACKWindow s -> m_RcvTimeWindow s' = m_RcvTimeWindow s ->
  consistent s' (mkGhost (g_buf g) (spec_remove_n (g_lost g) x (Z.to_nat (d + 1))) (Z.max (g_cur g) (x + d)) (g_ack g) (fun i => g_gone g i \/ x <= i <= x + d)).
Proof using Type.
  intros I Hd Hx Hy K1 K2 K3 K4 K5 K6 K7. pose proof (cs_max _ _ I) as Hcm. pose proof (cs_far _ _ I) as Hfar.
  constructor; cbn [g_buf g_lost g_cur g_ack g_gone]; rewrite ?spec_remove_n_lost, ?K1, ?K3, ?K4, ?K5, ?K6, ?K7; try done; try apply I.
  - lia.
  - lia.
  - apply spec_remove_n_seen; [lia|]. intros m Hmm. pose proof (cs_seen _ _ I m Hmm). lia.
  - intros z [Hz _]%elem_of_difference. destruct (cs_lost _ _ I z Hz) as (? & ? & ?). split_and!; done || lia.
  - intros i Hi Hn. rewrite elem_of_difference, elem_of_range_set. destruct (decide (x <= i <= x + d)); [by right; right|].
    destruct (cs_missing _ _ I i ltac:(lia) Hn); [left; split; [done|lia]|by right; left].
Qed.

Lemma dropreq_live s g lo hi rest msgno :
  consistent s g -> within_reach g -> dropreq_ok lo hi g ->
  exists s', processCtrlDropReq c (lo :: hi :: rest) msgno s = Some (bool_decide (is_Some (req_range lo hi g)), s') /\ consistent s' (g_dropreq lo hi g) /\ bufsize s' = bufsize s.
Proof using Hc.
  intros I W (Hl & Hh & Hok). pose proof (cs_buf _ _ I) as (C & P & Rd & _). pose proof (rs_max _ _ P) as Hm. pose proof (cs_max _ _ I) as Hcm. pose proof (rc_size _ _ C) as HN.
  pose proof (cs_far _ _ I) as Hfar. pose proof (seqoff_index (first g) _ Hl) as [_ Hb]. pose proof (index_of_seq (g_buf g) _ Hl) as Ex. pose proof (seqoff_index (index_of (g_buf g) lo) _ Hh) as [Ey Hd].
  unfold processCtrlDropReq, g_dropreq. rewrite (rs_seq _ _ P), (seqoff_opp lo) by (done || apply seq_of_valid).
  rewrite Ex in Ey, Hd. unfold req_range in *. rewrite c_abs_id by lia. rewrite Z.abs_opp. change (CSeqNo.m_iSeqNoTH / 2) with (2 ^ 29 - 1). rewrite !Z.gtb_ltb.
  set (x := index_of (g_buf g) lo) in *. set (d := CSeqNo.seqoff lo hi) in *. assert (CSeqNo.seqoff (seq_of (first g)) lo = x - first g) as -> by (unfold x, index_of; lia).
  destruct (Z.ltb_spec (2 ^ 29 - 1) (Z.abs (x - first g))), (Z.leb_spec (Z.abs (x - first g)) (2 ^ 29 - 1)); try lia; cbn [andb orb]; [by exists s|].
  destruct (Z.ltb_spec d 0), (Z.leb_spec 0 d); try lia; cbn [andb orb]; [by exists s|].
  destruct (Z.ltb_spec (2 ^ 29 - 1) d), (Z.leb_spec d (2 ^ 29 - 1)); try lia; cbn [andb orb]; [by exists s|].
  destruct Hok as [Hx Hy]. destruct (lc_tsbpd _ Hc) as (-> & -> & _). cbn [negb orb mbind option_bind].
  destruct (cs_loss _ _ I) as [rs Irs]. rewrite <- Ey, <- Ex. unfold dropFromLossLists, drop_fuel. rewrite seq_of_not_none. cbn [mbind option_bind]. rewrite seq_of_not_none.
  rewrite seqoff_seq_of by (unfold CSeqNo.m_iSeqNoTH; lia). set (s0 := set_buffer (m_pRcvBuffer s) s).
  assert (forall z, first g - (2 ^ 29 - 1) <= z < first g + 2 ^ 29 -> nearby (g_lost g) z) as Hnear.
  { intros z Hz. split; unfold CSeqNo.m_iSeqNoTH.
    - intros m Hmm. pose proof (cs_seen _ _ I m Hmm). pose proof (reach_seen _ _ W Hmm). lia.
    - intros k Hk. destruct (cs_lost _ _ I k Hk) as (? & ? & _). lia. }
  destruct (drop_inv (env_at c s0) (losses s) (g_lost g) rs (Z.to_nat (x + d - x + 2)) (Some x) (x + d) (env_srtla s0) Irs) as (l & rs' & El & Il & _).
  { split; [apply Hnear; lia|]. split; [lia|]. split; [apply Hnear; lia|]. split; [unfold CSeqNo.m_iSeqNoTH; lia|lia]. }
  cbn [from_option] in El. change (losses s0) with (losses s). rewrite El. cbn [mbind option_bind m_iRcvCurrSeqNo set_losses set_buffer s0]. rewrite (cs_cur _ _ I), incseq_seq_of.
  pose proof (dropFromLossLists_size _ _ _ _ _ _ El) as Zl.
  pose proof (seqcmp_seq_of_sgn x (g_cur g + 1) ltac:(unfold CSeqNo.m_iSeqNoTH; lia)) as Hsg. rewrite seqcmp_gtb by (unfold CSeqNo.m_iSeqNoTH; lia).
  destruct (Z.leb_spec (CSeqNo.seqcmp (seq_of x) (seq_of (g_cur g + 1))) 0); [|lia]. cbn [andb]. rewrite Z.gtb_ltb.
  eexists. split; [rewrite bool_decide_eq_true_2 by done; reflexivity|]. split; [|by destruct (_ <? _)].
  replace (Z.to_nat (x + d - x + 1)) with (Z.to_nat (d + 1)) by lia.
  assert (spec_drop (g_lost g) (Some x) (x + d) = spec_remove_n (g_lost g) x (Z.to_nat (d + 1))) as Esp by (cbn; f_equal; lia). rewrite Esp in Il.
  apply (taken_out s g); try done; try lia; try (by destruct (_ <? _)).
  - exists rs'. by destruct (_ <? _).
  - destruct (Z.ltb_spec (g_cur g) (x + d)); cbn; [f_equal; lia|]. rewrite (cs_cur _ _ I). f_equal. lia.
Qed.

(** ** Acknowledgements and loss reports *)

(** The first packet missing after those ready is acknowledged. *)
Lemma noncont_live s g : consistent s g -> getFirstNoncontSequence c s = Some (seq_of (ab_ready (g_buf g))).
Proof using Hc.
  intros I. pose proof (cs_buf _ _ I) as (C & P & Rd & _). pose proof (rs_max _ _ P) as Hm. pose proof (rd_ready _ _ Rd) as Hr. pose proof (cs_max _ _ I) as Hcm.
  pose proof (rc_size _ _ C) as HN. pose proof (cs_far _ _ I) as Hfar. unfold getFirstNoncontSequence. destruct (lc_tsbpd _ Hc) as (_ & _ & ->). cbn [orb].
  rewrite (nonread_seq _ _ C P Rd), (cs_cur _ _ I), incseq_seq_of, seqcmp_gtb by (unfold CSeqNo.m_iSeqNoTH; lia). rewrite Z.gtb_ltb.
  destruct (Z.ltb_spec (g_cur g + 1) (ab_ready (g_buf g))); [lia|done].
Qed.

Definition need_full (s : state) : bool := m_bBufferWasFull s && (CRcvBuffer.getAvailSize (m_iRcvLastAck s) (m_pRcvBuffer s) >? 0).

(** [m_iRcvLastAck] follows unless the packet was answered already or is lite. *)
Definition g_acked (lite : bool) (s : state) (g : ghost) : ghost :=
  if ((m_iRcvLastAckAck s =? seq_of (ab_ready (g_buf g))) || lite) && negb (need_full s) then g
  else mkGhost (g_buf g) (g_lost g) (g_cur g) (ab_ready (g_buf g)) (g_gone g).

(** The packet an acknowledgement carries. *)
Definition ack_number (a : ack_sent) : option Z :=
  match a with AckNone => None | AckLite n => Some n | AckFull _ words => head words end.

Lemma acked_live s g k s' :
  consistent s g -> g_ack g <= k <= ab_ready (g_buf g) -> m_iRcvLastAck s' = seq_of k -> m_pRcvBuffer s' = m_pRcvBuffer s -> losses s' = losses s ->
  m_iRcvCurrSeqNo s' = m_iRcvCurrSeqNo s -> (exists rs, arep ACK_WND_SIZE (m_ACKWindow s') rs) -> m_RcvTimeWindow s' = m_RcvTimeWindow s ->
  consistent s' (mkGhost (g_buf g) (g_lost g) (g_cur g) k (g_gone g)).
Proof using Type.
  intros I Hk K1 K2 K3 K4 K5 K6. constructor; cbn [g_buf g_lost g_cur g_ack g_gone]; rewrite ?K1, ?K2, ?K3, ?K4, ?K6; try done; try apply I. split; [done|lia].
Qed.

Lemma ack_words_head bufferleft measured s words : ack_words c bufferleft measured s = Some words -> head words = Some (m_iRcvLastAck s).
Proof using Type. clear Hc. unfold ack_words. intros H. bind_inv; done. Qed.

(** The measurements can be taken. *)
Definition measurable (s : state) : Prop :=
  is_Some (CPktTimeWindow.getPktRcvSpeed (m_RcvTimeWindow s)) /\ is_Some (CPktTimeWindow.getBandwidth (m_RcvTimeWindow s)).

Lemma ack_words_ok bufferleft measured s : measurable s -> is_Some (ack_words c bufferleft measured s).
Proof using Type. clear Hc. intros [[[speed rate] E1] [bw E2]]. unfold ack_words. rewrite E1, E2. by destruct measured. Qed.

(** The end of [sendCtrlAck]: a full acknowledgement, if there is something new. *)
Lemma ack_end s g (send : bool) now2 now3 now4 :
  consistent s g -> measurable s ->
  exists sent s',
    (if send then
       let ackno := CAckNo.incack (m_iAckSeqNo s) in
       let bufferleft := i32 (CRcvBuffer.getAvailSize (m_iRcvLastAck s) (m_pRcvBuffer s)) in
       let measured := now2 - m_tsLastAckTime s >? m_tdACKInterval c in
       words ← ack_words c bufferleft measured s;
       w ← CACKWindow.store ACK_WND_SIZE now4 ackno (m_iRcvLastAck s) (m_ACKWindow s);
       Some (AckFull ackno words, set_ack_sent (bufferleft =? 0) ackno (if measured then now3 else m_tsLastAckTime s) w s)
     else Some (AckNone, s)) = Some (sent, s')
    /\ consistent s' g /\ bufsize s' = bufsize s /\ (forall n, ack_number sent = Some n -> n = m_iRcvLastAck s).
Proof using Type.
  clear Hc. intros I HM. destruct send; [|by exists AckNone, s]. cbv zeta.
  set (bl := i32 (CRcvBuffer.getAvailSize _ _)). set (ms := _ >? _). destruct (ack_words_ok bl ms s HM) as [words Ew]. rewrite Ew. cbn [mbind option_bind].
  destruct (cs_window _ _ I) as [rs Rw]. destruct (store_rep ACK_WND_SIZE ltac:(unfold ACK_WND_SIZE; lia) _ rs now4 (CAckNo.incack (m_iAckSeqNo s)) (m_iRcvLastAck s) Rw) as (w & -> & Rw').
  cbn [mbind option_bind]. eexists _, _. split; [reflexivity|]. split; [|split; [done|]].
  - destruct I. constructor; try done. by eexists.
  - cbn [ack_number]. intros n. rewrite (ack_words_head _ _ _ _ Ew). by intros [= <-].
Qed.

Lemma ack_live s g lite now1 now2 now3 now4 :
  consistent s g -> within_reach g -> measurable s ->
  exists sent s', sendCtrlAck c lite now1 now2 now3 now4 s = Some (sent, s') /\ consistent s' (g_acked lite s g) /\ bufsize s' = bufsize s
    /\ (forall n, ack_number sent = Some n -> n = seq_of (ab_ready (g_buf g))).
Proof using Hc.
  intros I [_ W] HM. pose proof (cs_buf _ _ I) as (C & P & Rd & _). pose proof (rs_max _ _ P) as Hm. pose proof (rd_ready _ _ Rd) as Hr. pose proof (rc_size _ _ C) as HN.
  destruct (cs_ack _ _ I) as [Ea Hack]. unfold sendCtrlAck, g_acked. fold (need_full s). rewrite (noncont_live s g I). cbn [mbind option_bind].
  set (r := ab_ready (g_buf g)) in *.
  destruct ((m_iRcvLastAckAck s =? seq_of r) && negb (need_full s)) eqn:E1.
  { apply andb_true_iff in E1 as [-> ->]. by exists AckNone, s. }
  destruct (lite && negb (need_full s)) eqn:E2.
  { apply andb_true_iff in E2 as [-> ->]. rewrite orb_true_r. exists (AckLite (seq_of r)), s. split_and!; [done..|]. by intros n [= <-]. }
  assert (((m_iRcvLastAckAck s =? seq_of r) || lite) && negb (need_full s) = false) as -> by (rewrite andb_orb_distrib_l, E1, E2; done).
  assert ((seq_of r =? seq_of (g_ack g)) = (r =? g_ack g)) as Eqr.
  { destruct (Z.eqb_spec r (g_ack g)) as [->|Hne]; [apply Z.eqb_refl|]. destruct (Z.eqb_spec (seq_of r) (seq_of (g_ack g))) as [E|]; [apply seq_of_inj in E; lia|done]. }
  rewrite Ea, Eqr, seqcmp_gtb by (unfold CSeqNo.m_iSeqNoTH; lia). rewrite Z.gtb_ltb. destruct (Z.ltb_spec (g_ack g) r) as [Hlt|Hge]; cbn [negb andb].
  - assert (consistent (set_last_ack (seq_of r) s) (mkGhost (g_buf g) (g_lost g) (g_cur g) r (g_gone g))) as I' by (apply (acked_live s g); done || lia || apply I).
    destruct (ack_end _ _ ((CSeqNo.seqcmp (seq_of r) (m_iRcvLastAckAck s) >? 0) || need_full s) now2 now3 now4 I' HM) as (sent & s' & E & R). by exists sent, s'.
  - assert (r = g_ack g) as Er by lia. assert (mkGhost (g_buf g) (g_lost g) (g_cur g) r (g_gone g) = g) as -> by (rewrite Er; by destruct g).
    destruct (Z.eqb_spec r (g_ack g)) as [_|]; [|lia]. cbn [negb andb]. rewrite orb_false_r. destruct (negb (need_full s) && _); [by exists AckNone, s|].
    destruct (ack_end _ _ ((CSeqNo.seqcmp (m_iRcvLastAck s) (m_iRcvLastAckAck s) >? 0) || need_full s) now2 now3 now4 I HM) as (sent & s' & E & I' & Z' & Hn).
    exists sent, s'. split; [exact E|]. do 2 (split; [done|]). rewrite Er, <- Ea. exact Hn.
Qed.

Lemma nak_size s now steady : CUDT.srtla_emitter (env_at c s) = true -> list_size (snd (CUDT.checkNAKTimer (env_at c s) (losses s) now steady)) = list_size (losses s).
Proof using Type.
  clear Hc. intros He. unfold CUDT.checkNAKTimer. destruct (_ || _); [done|]. cbv zeta. destruct (_ >? 0); [|done]. destruct (_ <=? _); [done|]. rewrite He.
  destruct (srtla_report_lists (env_at c s) (losses s) now steady) as (p & _ & Hl & _). destruct (CUDT.srtla_report _ _ _ _) as [sent l]. unfold list_size. cbn in *. by rewrite Hl.
Qed.

Lemma nak_live s g now steady : consistent s g -> consistent (set_losses (snd (CUDT.checkNAKTimer (env_at c s) (losses s) now steady)) s) g.
Proof using Hc.
  intros I. destruct (cs_loss _ _ I) as [rs Irs]. destruct (nak_inv (env_at c s) _ _ _ now steady Irs) as [n I']. pose proof (nak_size s now steady (env_srtla s)) as Z.
  destruct I. constructor; cbn [m_pRcvBuffer losses m_iRcvCurrSeqNo m_iRcvLastAck m_ACKWindow m_RcvTimeWindow set_losses]; try done; [by eexists|]. by rewrite Z.
Qed.

End Data.
