(* ===== verification/RcvPathProps.v ===== *)
(** * What the receiver's data path promises

    In live mode under SRTLA: data packets, drop requests, delivery rounds, reads,
    acknowledgements and loss reports, in any order, keep the receiver's buffer,
    loss list and sequence numbers consistent (RcvPathInv.v). Acknowledgements do
    not go back and never pass a missing packet; what is announced to the
    application can be read, and giving up on late packets discards no packet that
    was received. *)

From stdpp Require Import sorting.
From S2P Require Import Prelude SeqNo Packet Tsbpd Windows Ranges RcvLossList RcvLossListSpec RcvLossListRefine FreshLoss FreshLossSpec RcvLossCtl RcvLossInv WindowsSpec.
From S2P Require Import RcvBuffer RcvBufferSpec RcvBufferRefine RcvBufferProps RcvPath RcvPathInv.
Import RcvPath.

(** ** Events *)

Inductive path_event :=
  | PData (p : CPacket.t) (nows : Z * Z * Z * Z) (now : Z * Z * Z) (nowl nowq : Z)
  | PDropReq (lo hi msgno : Z)
  | PRound (tnow : Z)
  | PRead (len : Z)
  | PAck (lite : bool) (now1 now2 now3 now4 : Z)
  | PNak (now : Z) (steady : option Z).

Inductive path_out :=
  | OData (code : Z) (reported : list (Z * Z)) (words : list Z)
  | ODropReq (accepted : bool)
  | ORound (told : bool) (next : Z)
  | ORead (n : Z) (m : CRcvBuffer.message)
  | OAck (sent : ack_sent)
  | ONak (sent : CUDT.nak_sent).

Section Path.

Context (decrypt : CPacket.t -> option CPacket.t) (c : config).

Definition do_event (ev : path_event) (s : state) : option (path_out * state) :=
  match ev with
  | PData p nows now nowl nowq => r ← processData decrypt c nows (fun _ => now) nowl nowq p s; let '(code, reported, words, s) := r in Some (OData code reported words, s)
  | PDropReq lo hi msgno => r ← processCtrlDropReq c [lo; hi] msgno s; Some (ODropReq (fst r), snd r)
  | PRound tnow => r ← tsbpd_round c tnow s; let '(told, next, s) := r in Some (ORound told next, s)
  | PRead len => r ← CRcvBuffer.readMessage len (m_pRcvBuffer s); let '(n, m, b) := r in Some (ORead n m, set_buffer b s)
  | PAck lite n1 n2 n3 n4 => r ← sendCtrlAck c lite n1 n2 n3 n4 s; Some (OAck (fst r), snd r)
  | PNak now steady => let r := CUDT.checkNAKTimer (env_at c s) (losses s) now steady in Some (ONak (fst r), set_losses (snd r) s)
  end.

Fixpoint do_events (evs : list path_event) (s : state) : option (list path_out * state) :=
  match evs with
  | [] => Some ([], s)
  | ev :: rest => r ← do_event ev s; q ← do_events rest (snd r); Some (fst r :: fst q, snd q)
  end.

Definition g_event (N : Z) (ev : path_event) (s : state) (g : ghost) : ghost :=
  match ev with
  | PData p _ _ _ _ => g_received N p s g
  | PDropReq lo hi _ => g_dropreq lo hi g
  | PRound tnow => g_round N tnow g
  | PRead len => g_read N len g
  | PAck lite _ _ _ _ => g_acked lite s g
  | PNak _ _ => g
  end.

Definition path_ok (ev : path_event) (s : state) (g : ghost) : Prop :=
  within_reach g
  /\ match ev with
     | PData p _ _ nowl _ => data_ok p nowl s
     | PDropReq lo hi _ => dropreq_ok lo hi g
     | PAck _ _ _ _ _ => measurable s
     | _ => True
     end.

Fixpoint paths_ok (N : Z) (evs : list path_event) (s : state) (g : ghost) : Prop :=
  match evs with
  | [] => True
  | ev :: rest => path_ok ev s g /\ match do_event ev s with Some (_, s') => paths_ok N rest s' (g_event N ev s g) | None => True end
  end.

(** Each event succeeds and keeps the invariant. *)
Lemma event_live ev s g :
  live_config c -> consistent s g -> path_ok ev s g ->
  exists o s', do_event ev s = Some (o, s') /\ consistent s' (g_event (bufsize s) ev s g) /\ bufsize s' = bufsize s
    /\ (forall n, match o with OAck sent => ack_number sent | _ => None end = Some n -> n = seq_of (ab_ready (g_buf g))).
Proof using Type.
  intros Hc I [W Hok]. destruct ev as [p nows now nowl nowq|lo hi msgno|tnow|len|lite n1 n2 n3 n4|now steady]; cbn [do_event g_event].
  - destruct (received_live decrypt c Hc s g p nows (fun _ => now) nowl nowq I W Hok) as (code & rep & words & s' & -> & I' & Z'). cbn [mbind option_bind]. eexists _, _. split; [reflexivity|]. split; [exact I'|split; [exact Z'|done]].
  - destruct (dropreq_live c Hc s g lo hi [] msgno I W Hok) as (s' & -> & I' & Z'). cbn [mbind option_bind fst snd]. eexists _, _. split; [reflexivity|]. split; [exact I'|split; [exact Z'|done]].
  - destruct (round_live c Hc s g tnow I W) as (told & next & s' & -> & I' & Z' & _). cbn [mbind option_bind]. eexists _, _. split; [reflexivity|]. split; [exact I'|split; [exact Z'|done]].
  - destruct (read_live s g len I) as (n & m & buf & -> & I' & Z' & _). cbn [mbind option_bind]. eexists _, _. split; [reflexivity|]. split; [exact I'|split; [exact Z'|done]].
  - destruct (ack_live c Hc s g lite n1 n2 n3 n4 I W Hok) as (sent & s' & -> & I' & Z' & Hn). cbn [mbind option_bind fst snd]. eexists _, _. split; [reflexivity|]. split; [exact I'|split; [exact Z'|done]].
  - eexists _, _. split; [reflexivity|]. split; [by apply nak_live|]. done.
Qed.

Definition sent_acks (outs : list path_out) : list Z := omap (fun o => match o with OAck sent => ack_number sent | _ => None end) outs.

End Path.

(** ** The first packet not ready never goes back *)

Lemma event_ready c ev s g : live_config c -> consistent s g -> path_ok ev s g -> ab_ready (g_buf g) <= ab_ready (g_buf (g_event (bufsize s) ev s g)).
Proof.
  intros Hc I [W Hok]. destruct ev as [p nows now nowl nowq|lo hi msgno|tnow|len|lite n1 n2 n3 n4|now steady]; cbn [g_event].
  - unfold g_received. destruct (m_bClosing (conn s)); [done|]. unfold g_data. destruct (taken_in _ p g) eqn:Ht; [|done]. unfold taken_in in Ht. apply andb_true_iff in Ht as [[H1%Z.leb_le _]%andb_true_iff H3%Z.ltb_lt].
    destruct Hok as (Hv & Hs & _). destruct (insert_live s g p I Hv Hs) as (_ & _ & _ & _ & _ & _ & _ & B4 & _); [lia|]. by destruct (_ <? _).
  - unfold g_dropreq. destruct (req_range lo hi g) as [[x y]|]; done.
  - unfold g_round. destruct (head_pkt (g_buf g)) as [[j p]|] eqn:Eh; [|done]. destruct (due tnow (g_buf g) p); [|done]. destruct (Z.eqb_spec j (first g)) as [|Hne]; [done|]. cbn [andb negb].
    apply first_pkt_spec in Eh as (Hj & Ep & Hb). pose proof (cs_buf _ _ I) as (C & P & Rd & _). pose proof (rs_max _ _ P). pose proof (rd_ready _ _ Rd).
    destruct (skip_live c Hc s g j I W) as (_ & _ & _ & _ & _ & _ & Hr & _); [lia|apply Hb; lia|congruence|].
    destruct (Z.le_gt_cases (ab_ready (g_buf g)) (first g)); [lia|].
    assert (CRcvBuffer.has_unit (ab_cell (g_buf g) (first g)) = true) as [q Hq]%has_unit_pkt by (apply (rd_unit _ _ Rd); lia). rewrite Hb in Hq by lia. done.
  - unfold g_read. cbn [g_buf]. destruct (Z.lt_ge_cases (first g) (ab_ready (g_buf g))) as [Hlt|Hge].
    + destruct (read_one s g len I Hlt) as (p & m & _ & _ & _ & ->). done.
    + unfold a_readMessage. destruct (Z.ltb_spec (first g) (ab_ready (g_buf g))); [lia|done].
  - unfold g_acked. by destruct (_ && _).
  - done.
Qed.

Lemma events_live decrypt c N evs s g :
  live_config c -> consistent s g -> bufsize s = N -> paths_ok decrypt c N evs s g ->
  exists outs s' g' ks, do_events decrypt c evs s = Some (outs, s') /\ consistent s' g' /\ bufsize s' = bufsize s
    /\ sent_acks outs = map seq_of ks /\ StronglySorted Z.le ks /\ Forall (fun k => ab_ready (g_buf g) <= k <= ab_ready (g_buf g')) ks /\ ab_ready (g_buf g) <= ab_ready (g_buf g').
Proof.
  intros Hc. revert s g. induction evs as [|ev evs IH]; intros s g I HN Hok; cbn [do_events].
  - exists [], s, g, []. split_and!; try done. constructor.
  - destruct Hok as [Ho Hok]. destruct (event_live decrypt c ev s g Hc I Ho) as (o & s1 & E & I1 & Z1 & Ha). rewrite E in Hok. rewrite E. cbn [mbind option_bind fst snd].
    pose proof (event_ready c ev s g Hc I Ho) as Hr. rewrite HN in I1, Z1, Hr.
    destruct (IH s1 _ I1 Z1 Hok) as (outs & s2 & g2 & ks & -> & I2 & Z2 & Hks & Hso & HF & Hr2). cbn [mbind option_bind fst snd].
    assert (Forall (fun k => ab_ready (g_buf g) <= k <= ab_ready (g_buf g2)) ks) as HF'.
    { eapply Forall_impl; [|exact HF]. cbn beta. intros k Hk. lia. }
    assert (ab_ready (g_buf g) <= ab_ready (g_buf g2)) by lia.
    destruct (match o with OAck sent => ack_number sent | _ => None end) as [n|] eqn:Eo.
    + exists (o :: outs), s2, g2, (ab_ready (g_buf g) :: ks). split_and!; try done; try congruence.
      * unfold sent_acks in *. cbn [omap list_omap map]. rewrite Eo, (Ha n eq_refl). by f_equal.
      * constructor; [done|]. eapply Forall_impl; [|exact HF']. cbn beta. lia.
      * constructor; [lia|done].
    + exists (o :: outs), s2, g2, ks. split_and!; try done; try congruence. unfold sent_acks in *. cbn [omap list_omap map]. by rewrite Eo.
Qed.

(** ** The start of a connection *)

Definition start (isn size : Z) (k : CTsbpdTime.t) (l : CUDT.state) (tw : CPktTimeWindow.t) : state :=
  mkState (CRcvBuffer.set_tsbpd k (CRcvBuffer.create isn size true)) l (CSeqNo.decseq isn) isn isn false 0 0 (CACKWindow.create ACK_WND_SIZE) tw
    (mkConn 1 0 0 (CSeqNo.decseq isn) 0 false false false 0).

Definition start_ghost (isn : Z) (k : CTsbpdTime.t) : ghost := mkGhost (fresh isn k true) (mkLossSet ∅ None) (isn - 1) isn (fun _ => False).

Lemma start_consistent isn size k junk lsize tol tw :
  valid_seq isn -> 1 < size < 2 ^ 29 -> size <= lsize <= 2 ^ 29 -> CTsbpdTime.isEnabled k = true -> times_ok tw ->
  consistent (start isn size k (CUDT.initial junk lsize tol) tw) (start_ghost isn k) /\ bufsize (start isn size k (CUDT.initial junk lsize tol) tw) = size.
Proof.
  intros Hi Hs Hl Hk Ht. destruct (fresh_rep isn size k true Hi Hs (or_introl Hk)) as [R Z]. split; [|exact Z].
  constructor; cbn [start start_ghost g_buf g_lost g_cur g_ack g_gone m_pRcvBuffer losses RcvPath.m_iRcvCurrSeqNo m_iRcvLastAck m_ACKWindow m_RcvTimeWindow fresh ab_first ab_max ab_ready ab_api ab_cell lostset seen]; try done; try lia.
  - exists []. constructor; simpl; [apply create_models; lia|constructor|by exists 0, 0|by intros z ?%lost_nil|constructor].
  - rewrite Z. unfold list_size. cbn. lia.
  - rewrite <- (seq_of_id isn Hi) at 1. apply decseq_seq_of.
  - split; [by rewrite seq_of_id|lia].
  - exists []. apply create_rep. unfold ACK_WND_SIZE. lia.
Qed.

(** ** The data path *)

Section Start.

(** The parameters of a connection and what happens in it. *)
Context (decrypt : CPacket.t -> option CPacket.t) (c : config) (isn size : Z) (k : CTsbpdTime.t) (junk lsize tol : Z) (tw : CPktTimeWindow.t) (evs : list path_event).

Notation s0 := (start isn size k (CUDT.initial junk lsize tol) tw).



End Start.

(** C16: A round of the delivery thread never discards a packet that was received.
    When it tells the application that there is something to read, the next read
    gives the first packet of the buffer, whose time has come, at once, even if
    packets before it are missing; otherwise nothing changed. *)
Theorem rcv_round_delivers c s g tnow len :
  live_config c -> consistent s g -> within_reach g ->
  exists told next s' g', tsbpd_round c tnow s = Some (told, next, s') /\ consistent s' g'
    /\ (forall i p, pkt_at (g_buf g) i = Some p -> pkt_at (g_buf g') i = Some p)
    /\ if told then
         exists p n m b, pkt_at (g_buf g) (first g') = Some p /\ (forall i, i < first g' -> pkt_at (g_buf g) i = None) /\ due tnow (g_buf g) p = true
           /\ CRcvBuffer.readMessage len (m_pRcvBuffer s') = Some (n, m, b) /\ CRcvBuffer.msg_pktseq m = Some (CPacket.getSeqNo p)
       else s' = s /\ forall j p, head_pkt (g_buf g) = Some (j, p) -> due tnow (g_buf g) p = false.
Proof.
  intros Hc I W. destruct (round_live c Hc s g tnow I W) as (told & next & s' & E & I' & Z' & Et & Ht & Hf & Hkeep). exists told, next, s', (g_round (bufsize s) tnow g).
  split_and!; try done. destruct told.
  - destruct (head_pkt (g_buf g)) as [[j p]|] eqn:Eh; [|done].
    destruct (read_live s' _ len I') as (n & m & b & Er & _ & _ & Hm). destruct (Hm (Ht eq_refl)) as [Em _].
    pose proof Eh as Eh'. apply first_pkt_spec in Eh as (Hj & Ep & Hb). pose proof (cs_buf _ _ I) as (C & P & Rd & _). pose proof (rs_max _ _ P).
    assert (ab_first (g_buf (g_round (bufsize s) tnow g)) = j) as Ej.
    { unfold g_round. rewrite Eh', <- Et. destruct (Z.eqb_spec j (first g)) as [|Hne]; [done|]. cbn [andb negb].
      destruct (skip_live c Hc s g j I W) as (_ & _ & _ & _ & _ & Hfj & _); [lia|apply Hb; lia|congruence|done]. }
    exists p, n, m, b. rewrite Ej in *. split_and!; try done.
    + intros i Hi. destruct (Z.lt_ge_cases i (first g)); [|apply Hb; lia]. unfold pkt_at. by rewrite (rc_out _ _ C) by lia.
    + rewrite Em. f_equal. symmetry. by apply (rc_unit _ _ C).
  - split; [by apply Hf|]. intros j p Eh. by rewrite Eh in Et.
Qed.

(** ** An example *)

Definition live_env : CUDT.env := CUDT.mkEnv true true true 0 true 2000 true 50000 20000 1456 0.
Definition live_c : config := mkConfig live_env true true true true false 10000 10000 (SrtVersion 1 5 4) (fun _ => false).
Definition live_times : CPktTimeWindow.t := CPktTimeWindow.initialize 28 1456 (CPktTimeWindow.create 16 64 0).
Definition path_clock : CTsbpdTime.t := CTsbpdTime.setTsbPdMode 0 false 2000000 CTsbpdTime.init.
Definition live_start : state := start 0x7FFFFFFE 8 path_clock (CUDT.initial 0 16 0) live_times.

(** A gap of two, one of which comes late and the other one never. *)
Definition live_events : list path_event :=
  [PData (pkt 0x7FFFFFFE 3 1 [1]) (1, 1, 1, 1) (1, 1, 1) 1 1; PAck false 20000 20000 20000 20000; PData (pkt 1 3 4 [4]) (2, 2, 2, 2) (2, 2, 2) 2 2; PNak 2 None; PData (pkt 0 3 3 [3]) (3, 3, 3, 3) (3, 3, 3) 3 3;
   PRound 2001000; PRead 100; PAck false 40000 40000 40000 40000; PRound 2001001; PDropReq 2 3 0; PRead 100; PRead 100; PAck true 50000 50000 50000 50000].

Lemma live_times_ok : times_ok live_times.
Proof. vm_compute. repeat split; congruence. Qed.

Lemma live_c_ok : live_config live_c.
Proof. by constructor. Qed.

Lemma live_events_ok : paths_ok (fun _ => None) live_c 8 live_events live_start (start_ghost 0x7FFFFFFE path_clock).
Proof. vm_compute. repeat split; try congruence; eauto; repeat constructor; congruence. Qed.



Lemma rcv_round_delivers_witness :
  exists told next s' g', tsbpd_round live_c 2001000 live_start = Some (told, next, s') /\ consistent s' g'.
Proof.
  destruct (start_consistent 0x7FFFFFFE 8 path_clock 0 16 0 live_times) as [I _]; [unfold valid_seq, CSeqNo.m_iMaxSeqNo; lia|lia|lia|reflexivity|exact live_times_ok|].
  destruct (rcv_round_delivers live_c live_start (start_ghost 0x7FFFFFFE path_clock) 2001000 100 live_c_ok I) as (told & next & s' & g' & H1 & H2 & _); [split; [exact Logic.I|cbn; lia]|].
  exists told, next, s', g'. split; [exact H1|exact H2].
Defined.

(** The results of the example: packets 0x7FFFFFFE, 0 and 1 are read; the first
    delivery round after the read gives up on 0x7FFFFFFF. *)
Definition read_seqs (outs : list path_out) : list (option Z) := omap (fun o => match o with ORead _ m => Some (CRcvBuffer.msg_pktseq m) | _ => None end) outs.

Lemma live_events_results :
  option_map (fun r => (read_seqs (fst r), sent_acks (fst r))) (do_events (fun _ => None) live_c live_events live_start)
  = Some ([Some 0x7FFFFFFE; Some 0; Some 1], [0x7FFFFFFF; 2]).
Proof. vm_compute. reflexivity. Qed.

(** ** Gaps that are not recorded *)

(** [m_iRcvCurrSeqNo], the first packet in the loss list and the loss reports sent. *)
Definition recorded (r : list path_out * state) : Z * option Z * list CUDT.nak_sent :=
  (RcvPath.m_iRcvCurrSeqNo (snd r), CRcvLossList.getFirstLostSeq (CUDT.m_pRcvLossList (losses (snd r))),
   omap (fun o => match o with ONak x => Some x | _ => None end) (fst r)).

(** An encrypted message of one packet. *)
Definition encrypted (seqno msgno : Z) (data : list Z) : CPacket.t := CPacket.mk seqno (3 * 2 ^ 30 + 2 ^ 27 + msgno) 1000 7 data.

(** A gap is not always recorded. When packet 2 comes after packet 0, packet 1
    goes to the loss list and is reported; but not if packet 2 cannot be decrypted:
    [m_iRcvCurrSeqNo] moves past the gap, which is never reported, also when more
    packets follow. And when the sender asks to drop packets 3 and 4 before the gap
    of 1 and 2 is seen, that gap is not recorded either when packet 5 comes: the
    drop request has raised the largest number of the loss list past it. *)
Theorem rcv_gap_unrecorded :
  let data p := PData p (1, 1, 1, 1) (1, 1, 1) 1 1 in
  let run evs := option_map recorded (do_events (fun _ => None) live_c
                   (data (pkt 0 3 1 [1]) :: evs ++ [data (pkt 6 3 7 [7]); data (pkt 7 3 8 [8]); data (pkt 8 3 9 [9]); PNak 400000 None])
                   (start 0 16 path_clock (CUDT.initial 0 16 0) live_times)) in
  let rest := [data (pkt 3 3 4 [4]); data (pkt 4 3 5 [5]); data (pkt 5 3 6 [6])] in
  run (data (pkt 2 3 3 [3]) :: rest) = Some (8, Some 1, [CUDT.NakWords [1] 1])
  /\ run (data (encrypted 2 3 [3]) :: rest) = Some (8, Some SRT_SEQNO_NONE, [CUDT.NakNone])
  /\ run [PDropReq 3 4 0; data (pkt 5 3 6 [6])] = Some (8, Some SRT_SEQNO_NONE, [CUDT.NakNone]).
Proof. vm_compute. by repeat split. Qed.
