(* ===== verification/Queue.v ===== *)
(** * The lists of the queues (srtcore/queue.h, queue.cpp)

    [CUnitQueue]: the pool of packet buffers of a receiving queue, a circle of
    blocks that grows. [CSndUList]: the sockets that wait for their time to send, a
    heap in an array. [CRcvUList]: the sockets a receiving queue serves, a doubly
    linked list in the order of their last timer event. [CHash]: the sockets of a
    receiving queue by their ID, a table of linked buckets.

    A socket is its index in the store of its nodes; an access out of bounds, or
    through a null pointer, is [None]. The signals to other threads are returned in
    their order. Proofs are in SndUListSpec.v, RcvUListSpec.v and QueueSpec.v. *)

From S2P Require Import Prelude.

Module CUnitQueue.

(** A block is the [m_bTaken] of its units; [m_pAvailUnit] is the place in the
    current block. The blocks are linked in the order they were allocated, the last
    one to the first. *)
Record t := mk {
  m_blocks : list (list bool);
  m_pCurrQueue : nat;
  m_pAvailUnit : nat;
  m_iSize : Z;
  m_iNumTaken : Z;
  m_iBlockSize : Z
}.

Definition capacity (q : t) : Z := m_iSize q.
Definition size (q : t) : Z := m_iSize q - m_iNumTaken q.

Definition allocateEntry (iNumUnits : Z) : list bool := replicate (Z.to_nat iNumUnits) false.

Definition create (initNumUnits : Z) : t := mk [allocateEntry initNumUnits] 0 0 initNumUnits 0 initNumUnits.

(** [memory]: the allocation succeeds. *)
Definition increase_ (memory : bool) (q : t) : Z * t :=
  if memory then
    (0, mk (m_blocks q ++ [allocateEntry (m_iBlockSize q)]) (m_pCurrQueue q) (m_pAvailUnit q) (i32 (m_iSize q + m_iBlockSize q)) (m_iNumTaken q) (m_iBlockSize q))
  else (-1, q).

Definition set_place (b u : nat) (q : t) : t := mk (m_blocks q) b u (m_iSize q) (m_iNumTaken q) (m_iBlockSize q).

(** The inner loop: from the available unit to the end of the block. The place
    found, if any, and the units checked. *)
Fixpoint scan_block (block : list bool) (u : nat) (checked : Z) : option nat * Z :=
  match block with
  | [] => (None, checked)
  | taken :: rest => if taken then scan_block rest (S u) (checked + 1) else (Some u, checked)
  end.

(** The outer loop, at most [fuel] blocks. *)
Fixpoint scan_blocks (fuel : nat) (checked : Z) (q : t) : option (option (nat * nat) * t) :=
  match fuel with
  | O => None
  | S f =>
    block ← m_blocks q !! m_pCurrQueue q;
    match scan_block (drop (m_pAvailUnit q) block) (m_pAvailUnit q) checked with
    | (Some u, _) => Some (Some (m_pCurrQueue q, u), set_place (m_pCurrQueue q) u q)
    | (None, checked) =>
      let next := if (S (m_pCurrQueue q) =? length (m_blocks q))%nat then 0%nat else S (m_pCurrQueue q) in
      let q := set_place next 0 q in
      if checked <? m_iSize q then scan_blocks f checked q else Some (None, q)
    end
  end.

Definition getNextAvailUnit (memory : bool) (q : t) : option (option (nat * nat) * t) :=
  let q := if i32 (m_iNumTaken q * 10) >? i32 (capacity q * 9) then snd (increase_ memory q) else q in
  if m_iNumTaken q >=? capacity q then Some (None, q)
  else scan_blocks (S (S (length (m_blocks q)))) 0 q.

Definition set_taken (v : bool) (p : nat * nat) (taken : Z) (q : t) : option t :=
  block ← m_blocks q !! p.1;
  old ← block !! p.2;
  if Bool.eqb old v then None
  else Some (mk (<[p.1 := <[p.2 := v]> block]> (m_blocks q)) (m_pCurrQueue q) (m_pAvailUnit q) (m_iSize q) taken (m_iBlockSize q)).

(** Both assert that the unit is in the other state. *)
Definition makeUnitFree (p : nat * nat) (q : t) : option t := set_taken false p (m_iNumTaken q - 1) q.
Definition makeUnitTaken (p : nat * nat) (q : t) : option t := set_taken true p (m_iNumTaken q + 1) q.

End CUnitQueue.

Module CSndUList.

(** Times are microseconds; [m_iHeapLoc] is -1 for a socket not in the heap. *)
Record CSNode := mkNode { m_tsTimeStamp : Z; m_iHeapLoc : Z }.

(** [m_iArrayLength] is the length of [m_pHeap]. *)
Record t := mk { m_nodes : list CSNode; m_pHeap : list Z; m_iLastEntry : Z }.

Inductive EReschedule := DONT_RESCHEDULE | DO_RESCHEDULE.
Definition rescheduleIf (cond : bool) : EReschedule := if cond then DO_RESCHEDULE else DONT_RESCHEDULE.

(** What the other threads are told: the timer stops waiting, the worker that waits
    for a first entry goes on. *)
Inductive signal := TimerInterrupt | ListNotify.

Definition m_iArrayLength (s : t) : Z := Z.of_nat (length (m_pHeap s)).

(** [junk]: what a new array holds. *)
Definition create (junk : Z) (nodes : list CSNode) : t := mk nodes (replicate 512 junk) (-1).

Definition set_heap (h : list Z) (s : t) : t := mk (m_nodes s) h (m_iLastEntry s).
Definition set_last (k : Z) (s : t) : t := mk (m_nodes s) (m_pHeap s) k.

Definition put (k u : Z) (s : t) : option t := h ← aset (m_pHeap s) k u; Some (set_heap h s).
Definition set_loc (u k : Z) (s : t) : option t :=
  n ← aupd (m_nodes s) u (fun n => mkNode (m_tsTimeStamp n) k); Some (mk n (m_pHeap s) (m_iLastEntry s)).
Definition set_time (u ts : Z) (s : t) : option t :=
  n ← aupd (m_nodes s) u (fun n => mkNode ts (m_iHeapLoc n)); Some (mk n (m_pHeap s) (m_iLastEntry s)).

(** The time of the socket at a place of the heap. *)
Definition time_at (s : t) (k : Z) : option Z := u ← aget (m_pHeap s) k; n ← aget (m_nodes s) u; Some (m_tsTimeStamp n).

Definition swap (p q : Z) (s : t) : option t :=
  up ← aget (m_pHeap s) p; uq ← aget (m_pHeap s) q;
  s ← put p uq s; put q up s.

(** The first loop: the new entry moves up from [q]. *)
Fixpoint sift_up (fuel : nat) (q : Z) (s : t) : option (Z * t) :=
  if q =? 0 then Some (q, s)
  else
    match fuel with
    | O => None
    | S f =>
      let p := Z.shiftr (q - 1) 1 in
      tp ← time_at s p; tq ← time_at s q;
      if tp <=? tq then Some (q, s)
      else
        s ← swap p q s;
        u ← aget (m_pHeap s) q;
        s ← set_loc u q s;
        sift_up f p s
    end.

(** The second loop: the entry moved to [q] moves down. *)
Fixpoint sift_down (fuel : nat) (q : Z) (s : t) : option t :=
  let p := q * 2 + 1 in
  if negb (p <=? m_iLastEntry s) then Some s
  else
    match fuel with
    | O => None
    | S f =>
      p ← (if p + 1 <=? m_iLastEntry s then
             tp ← time_at s p; tp1 ← time_at s (p + 1); Some (if tp >? tp1 then p + 1 else p)
           else Some p);
      tq ← time_at s q; tp ← time_at s p;
      if tq >? tp then
        s ← swap p q s;
        up ← aget (m_pHeap s) p; s ← set_loc up p s;
        uq ← aget (m_pHeap s) q; s ← set_loc uq q s;
        sift_down f p s
      else Some s
    end.

Definition insert_norealloc_ (ts u : Z) (s : t) : option (list signal * t) :=
  n ← aget (m_nodes s) u;
  if m_iHeapLoc n >=? 0 then Some ([], s)
  else
    let last := m_iLastEntry s + 1 in
    s ← put last u (set_last last s);
    s ← set_time u ts s;
    r ← sift_up (Z.to_nat last) last s;
    let '(q, s) := r in
    s ← set_loc u q s;
    Some ((if q =? 0 then [TimerInterrupt] else []) ++ (if m_iLastEntry s =? 0 then [ListNotify] else []), s).

(** The array doubles; [junk] is what its second half holds. *)
Definition realloc_ (junk : Z) (s : t) : t := set_heap (m_pHeap s ++ replicate (length (m_pHeap s)) junk) s.

Definition insert_ (junk ts u : Z) (s : t) : option (list signal * t) :=
  insert_norealloc_ ts u (if m_iLastEntry s =? m_iArrayLength s - 1 then realloc_ junk s else s).

Definition remove_ (u : Z) (s : t) : option (list signal * t) :=
  n ← aget (m_nodes s) u;
  let loc := m_iHeapLoc n in
  s ← (if loc >=? 0 then
         moved ← aget (m_pHeap s) (m_iLastEntry s);
         s ← put loc moved s;
         s ← set_loc moved loc (set_last (m_iLastEntry s - 1) s);
         n ← aget (m_nodes s) u;
         s ← sift_down (Z.to_nat (m_iLastEntry s + 1)) (m_iHeapLoc n) s;
         set_loc u (-1) s
       else Some s);
  Some (if m_iLastEntry s =? 0 then [TimerInterrupt] else [], s).

Definition update (junk u : Z) (reschedule : EReschedule) (ts : Z) (s : t) : option (list signal * t) :=
  n ← aget (m_nodes s) u;
  if m_iHeapLoc n >=? 0 then
    match reschedule with
    | DONT_RESCHEDULE => Some ([], s)
    | DO_RESCHEDULE =>
      if m_tsTimeStamp n <=? ts then Some ([], s)
      else if m_iHeapLoc n =? 0 then s ← set_time u ts s; Some ([TimerInterrupt], s)
      else
        r ← remove_ u s;
        q ← insert_norealloc_ ts u (snd r);
        Some (fst r ++ fst q, snd q)
    end
  else insert_ junk ts u s.

(** The socket whose time has come. *)
Definition pop (now : Z) (s : t) : option (option Z * list signal * t) :=
  if m_iLastEntry s =? -1 then Some (None, [], s)
  else
    ts ← time_at s 0;
    if ts >? now then Some (None, [], s)
    else u ← aget (m_pHeap s) 0; r ← remove_ u s; Some (Some u, fst r, snd r).

Definition remove (u : Z) (s : t) : option (list signal * t) := remove_ u s.

(** 0 when there is none. *)
Definition getNextProcTime (s : t) : option Z := if m_iLastEntry s =? -1 then Some 0 else time_at s 0.

End CSndUList.

Module CRcvUList.

(** A pointer is [None] for null. [m_bOnList] is kept by the queue that owns the list. *)
Record CRNode := mkNode { m_tsTimeStamp : Z; m_pPrev : option Z; m_pNext : option Z; m_bOnList : bool }.

Record t := mk { m_nodes : list CRNode; m_pUList : option Z; m_pLast : option Z }.

Definition create (nodes : list CRNode) : t := mk nodes None None.

Definition upd (u : Z) (f : CRNode -> CRNode) (s : t) : option t := n ← aupd (m_nodes s) u f; Some (mk n (m_pUList s) (m_pLast s)).
Definition set_ends (first last : option Z) (s : t) : t := mk (m_nodes s) first last.

Definition with_time (ts : Z) (n : CRNode) : CRNode := mkNode ts (m_pPrev n) (m_pNext n) (m_bOnList n).
Definition with_prev (p : option Z) (n : CRNode) : CRNode := mkNode (m_tsTimeStamp n) p (m_pNext n) (m_bOnList n).
Definition with_next (p : option Z) (n : CRNode) : CRNode := mkNode (m_tsTimeStamp n) (m_pPrev n) p (m_bOnList n).
Definition with_links (p q : option Z) (n : CRNode) : CRNode := with_prev p (with_next q n).

(** [now]: the clock. *)
Definition insert (now u : Z) (s : t) : option t :=
  s ← upd u (with_time now) s;
  match m_pUList s with
  | None => s ← upd u (with_links None None) s; Some (set_ends (Some u) (Some u) s)
  | Some _ =>
    s ← upd u (with_links (m_pLast s) None) s;
    last ← m_pLast s;
    s ← upd last (with_next (Some u)) s;
    Some (set_ends (m_pUList s) (Some u) s)
  end.

Definition remove (u : Z) (s : t) : option t :=
  n ← aget (m_nodes s) u;
  if negb (m_bOnList n) then Some s
  else
    s ← match m_pPrev n with
        | None =>
          match m_pNext n with
          | None => Some (set_ends None None s)
          | Some next => s ← upd next (with_prev None) s; Some (set_ends (Some next) (m_pLast s) s)
          end
        | Some prev =>
          s ← upd prev (with_next (m_pNext n)) s;
          match m_pNext n with
          | None => Some (set_ends (m_pUList s) (Some prev) s)
          | Some next => upd next (with_prev (Some prev)) s
          end
        end;
    upd u (with_links None None) s.

Definition update (now u : Z) (s : t) : option t :=
  n ← aget (m_nodes s) u;
  if negb (m_bOnList n) then Some s
  else
    s ← upd u (with_time now) s;
    match m_pNext n with
    | None => Some s
    | Some next =>
      s ← match m_pPrev n with
          | None => s ← upd next (with_prev None) s; Some (set_ends (Some next) (m_pLast s) s)
          | Some prev => s ← upd prev (with_next (Some next)) s; upd next (with_prev (Some prev)) s
          end;
      s ← upd u (with_links (m_pLast s) None) s;
      last ← m_pLast s;
      s ← upd last (with_next (Some u)) s;
      Some (set_ends (m_pUList s) (Some u) s)
    end.

End CRcvUList.

Module CHash.

(** A bucket list is the list of its IDs and sockets. *)
Definition bucket : Type := list (Z * Z).
Record t := mk { m_pBucket : list bucket; m_iHashSize : Z }.

Definition init (size : Z) : t := mk (replicate (Z.to_nat size) []) size.

Fixpoint find (id : Z) (b : bucket) : option Z :=
  match b with [] => None | (i, u) :: rest => if id =? i then Some u else find id rest end.

Fixpoint unlink (id : Z) (b : bucket) : bucket :=
  match b with [] => [] | (i, u) :: rest => if id =? i then rest else (i, u) :: unlink id rest end.

(** [id % m_iHashSize] has the sign of [id]. *)
Definition lookup (id : Z) (s : t) : option (option Z) := b ← aget (m_pBucket s) (Z.rem id (m_iHashSize s)); Some (find id b).
Definition insert (id u : Z) (s : t) : option t := a ← aupd (m_pBucket s) (Z.rem id (m_iHashSize s)) (cons (id, u)); Some (mk a (m_iHashSize s)).
Definition remove (id : Z) (s : t) : option t := a ← aupd (m_pBucket s) (Z.rem id (m_iHashSize s)) (unlink id); Some (mk a (m_iHashSize s)).

End CHash.
