(* ===== verification/SndUListSpec.v ===== *)
(** * The sending schedule

    Every sequence of updates, removals and pops keeps the heap of [CSndUList] and
    the places its sockets remember in agreement and schedules exactly the sockets
    of a finite map from sockets to times. The first entry is the earliest one as
    long as no entry is taken out of the middle. *)

From S2P Require Import Prelude Queue.
Import CSndUList.

(** ** The places *)

(** Socket [w]: its time, and whether it is scheduled. *)
Definition view (s : t) (w : Z) : option (Z * bool) := (fun n => (m_tsTimeStamp n, m_iHeapLoc n >=? 0)) <$> aget (m_nodes s) w.

Definition scheduled (s : t) (w : Z) : option Z := n ← aget (m_nodes s) w; if m_iHeapLoc n >=? 0 then Some (m_tsTimeStamp n) else None.

Lemma scheduled_view s w : scheduled s w = match view s w with Some (t, true) => Some t | _ => None end.
Proof. unfold scheduled, view. destruct (aget (m_nodes s) w) as [n|]; [|done]. cbn. by destruct (_ >=? 0). Qed.

(** The heap and the places agree, but for the places the sockets in [X] remember. *)
Record agree (X : Z -> Prop) (s : t) : Prop := mkAgree {
  ag_last : -1 <= m_iLastEntry s < m_iArrayLength s;
  ag_place : forall k, 0 <= k <= m_iLastEntry s -> exists u n, aget (m_pHeap s) k = Some u /\ aget (m_nodes s) u = Some n /\ (~ X u -> m_iHeapLoc n = k);
  ag_node : forall u n, aget (m_nodes s) u = Some n -> ~ X u -> m_iHeapLoc n < 0 \/ (0 <= m_iHeapLoc n <= m_iLastEntry s /\ aget (m_pHeap s) (m_iHeapLoc n) = Some u);
  ag_once : forall j k u, 0 <= j <= m_iLastEntry s -> 0 <= k <= m_iLastEntry s -> aget (m_pHeap s) j = Some u -> aget (m_pHeap s) k = Some u -> j = k
}.

Definition nobody (_ : Z) : Prop := False.

Lemma agree_weaken (X Y : Z -> Prop) s : (forall u, X u -> Y u) -> agree X s -> agree Y s.
Proof. intros H []. constructor; try done; [|naive_solver]. intros k Hk. destruct (ag_place0 k Hk) as (u & n & E & En & Hn). exists u, n. naive_solver. Qed.

Definition T (s : t) (k : Z) : Z := default 0 (time_at s k).

Lemma time_T X s k : agree X s -> 0 <= k <= m_iLastEntry s -> time_at s k = Some (T s k).
Proof. intros A Hk. destruct (ag_place _ _ A k Hk) as (u & n & E1 & E2 & _). unfold T, time_at. rewrite E1. cbn. rewrite E2. done. Qed.

(** What the loops leave alone. *)
Record keeps (s s' : t) : Prop := mkKeeps {
  kp_view : forall w, view s' w = view s w;
  kp_last : m_iLastEntry s' = m_iLastEntry s;
  kp_length : m_iArrayLength s' = m_iArrayLength s
}.

Lemma keeps_refl s : keeps s s. Proof. done. Qed.
Lemma keeps_trans s1 s2 s3 : keeps s1 s2 -> keeps s2 s3 -> keeps s1 s3.
Proof. intros [] []. constructor; [|congruence..]. intros w. by rewrite kp_view1. Qed.

(** *** Steps *)

Lemma put_run k u s : 0 <= k < m_iArrayLength s ->
  exists s', put k u s = Some s' /\ m_nodes s' = m_nodes s /\ m_iLastEntry s' = m_iLastEntry s /\ m_iArrayLength s' = m_iArrayLength s
    /\ forall j, aget (m_pHeap s') j = if decide (j = k) then Some u else aget (m_pHeap s) j.
Proof.
  intros Hk. unfold put. rewrite aset_Some by exact Hk. cbn [mbind option_bind]. eexists. split; [reflexivity|]. unfold m_iArrayLength. cbn. rewrite length_insert. split_and!; [done..|].
  intros j. case_decide as E; [subst; by apply aget_insert_eq|]. apply aget_insert_ne; [unfold m_iArrayLength in Hk; lia|done].
Qed.

Lemma loc_run u n k s : aget (m_nodes s) u = Some n ->
  exists s', set_loc u k s = Some s' /\ m_pHeap s' = m_pHeap s /\ m_iLastEntry s' = m_iLastEntry s
    /\ forall w, aget (m_nodes s') w = if decide (w = u) then Some (mkNode (m_tsTimeStamp n) k) else aget (m_nodes s) w.
Proof.
  intros E. unfold set_loc. rewrite (aupd_Some _ _ _ _ E). cbn [mbind option_bind]. eexists. split; [reflexivity|]. cbn. split_and!; [done..|].
  pose proof (aget_in_bounds _ _ _ E) as Hb. intros w. case_decide as Ew; [subst; by apply aget_insert_eq|]. apply aget_insert_ne; [unfold in_bounds in Hb; lia|done].
Qed.

(** [child p k]: place [k] is one of the two below [p]. *)
Definition child (p k : Z) : Prop := k = 2 * p + 1 \/ k = 2 * p + 2.

Lemma parent_child q : 0 < q -> 0 <= Z.shiftr (q - 1) 1 < q /\ child (Z.shiftr (q - 1) 1) q.
Proof.
  intros Hq. rewrite Z.shiftr_div_pow2 by lia. change (2 ^ 1) with 2. unfold child. pose proof (Z.div_mod (q - 1) 2 ltac:(lia)). pose proof (Z.mod_pos_bound (q - 1) 2 ltac:(lia)). lia.
Qed.

(** No entry is later than those below it. *)
Definition in_order (s : t) : Prop := forall p k, 0 <= p -> child p k -> k <= m_iLastEntry s -> T s p <= T s k.

(** The same but for the entry at [q]: against the one above it, or against those
    below it; and what is above [q] is not later than what is below it. *)
Definition over (s : t) (q : Z) : Prop := forall p k, 0 <= p -> child p q -> child q k -> k <= m_iLastEntry s -> T s p <= T s k.
Definition up_ok (s : t) (q : Z) : Prop := (forall p k, 0 <= p -> child p k -> k <= m_iLastEntry s -> k <> q -> T s p <= T s k) /\ over s q.
Definition down_ok (s : t) (q : Z) : Prop := (forall p k, 0 <= p -> child p k -> k <= m_iLastEntry s -> p <> q -> T s p <= T s k) /\ over s q.

Definition exchange (p q j : Z) : Z := if decide (j = p) then q else if decide (j = q) then p else j.

Section Swapped.

(** Two entries are exchanged. *)
Context (s s' : t) (p q : Z) (Hpq : 0 <= p) (Hc : child p q) (Hl : m_iLastEntry s' = m_iLastEntry s)
  (HT : forall j, T s' j = T s (exchange p q j)).

Ltac swapped := unfold child in *; rewrite !HT; unfold exchange; repeat case_decide; try lia.

Lemma swap_up : up_ok s q -> q <= m_iLastEntry s -> T s q < T s p -> up_ok s' p.
Proof using All.
  intros [H1 H2] Hq Ht. split; unfold over.
  - intros p0 k H0 Hk Hle Hne. rewrite Hl in Hle.
    destruct (Z.eq_dec k q) as [->|Hkq]; [swapped|]. destruct (Z.eq_dec p0 p) as [->|]; [pose proof (H1 p k H0 Hk Hle Hkq); swapped|].
    destruct (Z.eq_dec p0 q) as [->|]; [pose proof (H2 p k Hpq Hc Hk Hle); swapped|]. pose proof (H1 p0 k H0 Hk Hle Hkq). swapped.
  - intros g k H0 Hg Hk Hle. rewrite Hl in Hle. assert (T s g <= T s p) by (apply H1; [done|done|unfold child in *; lia|unfold child in *; lia]).
    destruct (Z.eq_dec k q) as [->|Hkq]; [swapped|]. pose proof (H1 p k Hpq Hk Hle Hkq). swapped.
Qed.

Lemma swap_down : down_ok s p -> q <= m_iLastEntry s -> T s q < T s p -> (forall k, child p k -> k <= m_iLastEntry s -> T s q <= T s k) -> down_ok s' q.
Proof using All.
  intros [H1 H2] Hq Ht Hmin. split; unfold over.
  - intros p0 k H0 Hk Hle Hne. rewrite Hl in Hle.
    destruct (Z.eq_dec p0 p) as [->|Hp0]; [pose proof (Hmin k Hk Hle); swapped|].
    destruct (Z.eq_dec k p) as [->|Hkp]; [pose proof (H2 p0 q H0 Hk Hc Hq); swapped|]. pose proof (H1 p0 k H0 Hk Hle Hp0). swapped.
  - intros g k H0 Hg Hk Hle. rewrite Hl in Hle. assert (g = p) as -> by (unfold child in *; lia).
    pose proof (H1 q k ltac:(unfold child in *; lia) Hk Hle ltac:(unfold child in *; lia)). swapped.
Qed.

End Swapped.

Lemma time_view s k : time_at s k = u ← aget (m_pHeap s) k; fst <$> view s u.
Proof. unfold time_at, view. destruct (aget (m_pHeap s) k) as [u|]; [|done]. cbn. by destruct (aget (m_nodes s) u). Qed.

(** Two entries change places; they have to be told. *)
Lemma swap_run X p q a b s :
  agree X s -> 0 <= p <= m_iLastEntry s -> 0 <= q <= m_iLastEntry s -> aget (m_pHeap s) p = Some a -> aget (m_pHeap s) q = Some b ->
  exists s', swap p q s = Some s' /\ m_nodes s' = m_nodes s /\ m_iLastEntry s' = m_iLastEntry s /\ m_iArrayLength s' = m_iArrayLength s
    /\ (forall j, aget (m_pHeap s') j = aget (m_pHeap s) (exchange p q j)) /\ agree (fun w => X w \/ w = a \/ w = b) s'.
Proof.
  intros A Hp Hq Ep Eq. pose proof (ag_last _ _ A) as Hl.
  unfold swap. rewrite Ep, Eq. cbn [mbind option_bind]. destruct (put_run p b s) as (s1 & -> & N1 & L1 & Z1 & H1); [lia|]. cbn [mbind option_bind].
  destruct (put_run q a s1) as (s2 & -> & N2 & L2 & Z2 & H2); [lia|]. exists s2. split; [done|].
  assert (forall j, aget (m_pHeap s2) j = aget (m_pHeap s) (exchange p q j)) as HH by (intros j; rewrite H2, H1; unfold exchange; repeat case_decide; congruence).
  assert (forall k, 0 <= k <= m_iLastEntry s -> 0 <= exchange p q k <= m_iLastEntry s) as Hex by (intros k Hk; unfold exchange; repeat case_decide; lia).
  rewrite N2, N1, L2, L1, Z2, Z1. split_and!; try done. constructor; rewrite ?N2, ?N1, ?L2, ?L1, ?Z2, ?Z1; [done|..].
  - intros k Hk. rewrite HH. destruct (ag_place _ _ A _ (Hex k Hk)) as (w & m & Ew & Em & Hw). exists w, m. split_and!; [done..|]. intros Hn.
    rewrite Hw by tauto. unfold exchange in *. repeat case_decide; try done; exfalso; apply Hn; right; [right|left]; congruence.
  - intros w m Em Hn. destruct (ag_node _ _ A w m Em) as [?|[Hr Hm]]; [tauto|by left|right]. split; [done|]. rewrite HH. unfold exchange.
    case_decide as E1; [rewrite E1 in Hm; exfalso; apply Hn; right; left; congruence|]. case_decide as E2; [rewrite E2 in Hm; exfalso; apply Hn; right; right; congruence|]. done.
  - intros j k w Hj Hk. rewrite !HH. intros Ej Ek. pose proof (ag_once _ _ A _ _ w (Hex j Hj) (Hex k Hk) Ej Ek) as E. revert E. unfold exchange. repeat case_decide; lia.
Qed.

(** The socket at place [k] is told. *)
Lemma tell_run X k w s :
  agree X s -> 0 <= k <= m_iLastEntry s -> aget (m_pHeap s) k = Some w ->
  exists s', set_loc w k s = Some s' /\ m_pHeap s' = m_pHeap s /\ m_iLastEntry s' = m_iLastEntry s /\ agree (fun v => X v /\ v <> w) s'
    /\ (forall v, view s' v = if decide (v = w) then (fun x => (fst x, true)) <$> view s v else view s v).
Proof.
  intros A Hk Ek. destruct (ag_place _ _ A k Hk) as (w' & n & Ew & En & _). rewrite Ek in Ew. injection Ew as <-.
  destruct (loc_run w n k s En) as (s' & E & H & L & N). exists s'. split_and!; try done.
  - constructor; rewrite ?L; unfold m_iArrayLength; rewrite ?H; try apply A.
    + intros j Hj. destruct (ag_place _ _ A j Hj) as (v & m & Ev & Em & Hm). exists v. rewrite N. case_decide as Evw.
      * subst v. eexists. split_and!; [done..|]. intros _. cbn. apply (ag_once _ _ A k j w); done || lia.
      * exists m. split_and!; [done..|]. intros Hn. apply Hm. tauto.
    + intros v m. rewrite N. case_decide as Evw; [intros [= <-] _; right; cbn; split; [lia|congruence]|]. intros Em Hn. apply (ag_node _ _ A); [done|tauto].
  - intros v. unfold view. rewrite N. case_decide as Evw; [|done]. subst v. rewrite En. cbn. rewrite Z.geb_leb. by destruct (Z.leb_spec 0 k); [|lia].
Qed.

(** A socket of the heap that knows its place is scheduled. *)
Lemma view_placed X s k w : agree X s -> 0 <= k <= m_iLastEntry s -> aget (m_pHeap s) k = Some w -> ~ X w -> (fun x => (fst x, true)) <$> view s w = view s w.
Proof.
  intros A Hk Ek Hx. destruct (ag_place _ _ A k Hk) as (w' & n & Ew & En & Hn). rewrite Ek in Ew. injection Ew as <-. unfold view. rewrite En. cbn. rewrite Hn, Z.geb_leb by done.
  by destruct (Z.leb_spec 0 k); [|lia].
Qed.

Lemma T_exchange s s' p q : (forall w, view s' w = view s w) -> (forall j, aget (m_pHeap s') j = aget (m_pHeap s) (exchange p q j)) -> forall j, T s' j = T s (exchange p q j).
Proof. intros Hv HH j. unfold T. rewrite !time_view, HH. f_equal. apply option_bind_ext_fun. intros w. by rewrite Hv. Qed.

(** The exchange of the first loop: the entry moving up is not told yet. *)
Lemma exchange_up x p q s :
  agree (eq x) s -> 0 <= p <= m_iLastEntry s -> 0 <= q <= m_iLastEntry s -> p <> q -> aget (m_pHeap s) q = Some x ->
  exists s', (s ← swap p q s; u ← aget (m_pHeap s) q; set_loc u q s) = Some s'
    /\ agree (eq x) s' /\ keeps s s' /\ aget (m_pHeap s') p = Some x /\ forall j, T s' j = T s (exchange p q j).
Proof.
  intros A Hp Hq Hpq Ex. destruct (ag_place _ _ A p Hp) as (u & n & Eu & En & Hn).
  assert (u <> x) as Hux by (intros ->; apply Hpq; by apply (ag_once _ _ A p q x)).
  destruct (swap_run _ p q u x s A Hp Hq Eu Ex) as (s1 & -> & N1 & L1 & Z1 & H1 & A1). cbn [mbind option_bind].
  assert (aget (m_pHeap s1) q = Some u) as Eq by (rewrite H1; unfold exchange; rewrite decide_False, decide_True by done; done). rewrite Eq. cbn [mbind option_bind].
  destruct (tell_run _ q u s1 A1 ltac:(by rewrite L1) Eq) as (s2 & -> & H2 & L2 & A2 & V2). exists s2. split; [done|].
  assert (forall w, view s1 w = view s w) as V1 by (intros w; unfold view; by rewrite N1).
  assert (forall w, view s2 w = view s w) as Hv.
  { intros w. rewrite V2, V1. case_decide as Ew; [|done]. subst w. apply (view_placed _ _ p u A Hp Eu). congruence. }
  split_and!.
  - eapply agree_weaken; [|exact A2]. naive_solver.
  - constructor; [done|congruence|]. unfold m_iArrayLength in *. by rewrite H2.
  - rewrite H2, H1. unfold exchange. by rewrite decide_True.
  - apply T_exchange; [done|]. intros j. by rewrite H2, H1.
Qed.

(** The exchange of the second loop: both are told. *)
Lemma exchange_down X p q s :
  agree X s -> 0 <= p <= m_iLastEntry s -> 0 <= q <= m_iLastEntry s -> p <> q -> (forall k u, 0 <= k <= m_iLastEntry s -> aget (m_pHeap s) k = Some u -> ~ X u) ->
  exists s', (s ← swap p q s; up ← aget (m_pHeap s) p; s ← set_loc up p s; uq ← aget (m_pHeap s) q; set_loc uq q s) = Some s'
    /\ agree X s' /\ keeps s s' /\ (forall j, aget (m_pHeap s') j = aget (m_pHeap s) (exchange p q j)) /\ forall j, T s' j = T s (exchange p q j).
Proof.
  intros A Hp Hq Hpq HX. destruct (ag_place _ _ A p Hp) as (a & na & Ea & _), (ag_place _ _ A q Hq) as (b & nb & Eb & _).
  destruct (swap_run _ p q a b s A Hp Hq Ea Eb) as (s1 & -> & N1 & L1 & Z1 & H1 & A1). cbn [mbind option_bind].
  assert (aget (m_pHeap s1) p = Some b) as E1p by (rewrite H1; unfold exchange; by rewrite decide_True). rewrite E1p. cbn [mbind option_bind].
  destruct (tell_run _ p b s1 A1 ltac:(by rewrite L1) E1p) as (s2 & -> & H2 & L2 & A2 & V2). cbn [mbind option_bind].
  assert (aget (m_pHeap s2) q = Some a) as E2q by (rewrite H2, H1; unfold exchange; rewrite decide_False, decide_True by done; done). rewrite E2q. cbn [mbind option_bind].
  destruct (tell_run _ q a s2 A2 ltac:(rewrite L2; by rewrite L1) E2q) as (s3 & -> & H3 & L3 & A3 & V3). exists s3. split; [done|].
  assert (forall w, view s1 w = view s w) as V1 by (intros w; unfold view; by rewrite N1).
  assert (forall w, view s3 w = view s w) as Hv.
  { intros w. rewrite V3, V2, V1. pose proof (view_placed _ _ p a A Hp Ea (HX p a Hp Ea)). pose proof (view_placed _ _ q b A Hq Eb (HX q b Hq Eb)). repeat case_decide; subst; congruence. }
  split_and!.
  - eapply agree_weaken; [|exact A3]. naive_solver.
  - constructor; [done|congruence|]. unfold m_iArrayLength in *. by rewrite H3, H2.
  - intros j. by rewrite H3, H2, H1.
  - apply T_exchange; [done|]. intros j. by rewrite H3, H2, H1.
Qed.

(** ** The two loops *)

Lemma sift_up_run fuel x q s :
  agree (eq x) s -> 0 <= q <= m_iLastEntry s -> q <= Z.of_nat fuel -> aget (m_pHeap s) q = Some x -> view s x <> None ->
  exists q' s', sift_up fuel q s = Some (q', s') /\ agree (eq x) s' /\ keeps s s' /\ 0 <= q' <= m_iLastEntry s /\ aget (m_pHeap s') q' = Some x
    /\ (up_ok s q -> in_order s').
Proof.
  revert q s. induction fuel as [|f IH]; intros q s A Hq Hf Ex Hx.
  - assert (q = 0) as -> by lia. exists 0, s. split_and!; try done; try lia. intros [H1 _] p k H0 Hk Hl. apply H1; [done..|]. unfold child in Hk. lia.
  - cbn [sift_up]. destruct (Z.eqb_spec q 0) as [->|Hq0].
    { exists 0, s. split_and!; try done; try lia. intros [H1 _] p k H0 Hk Hl. apply H1; [done..|]. unfold child in Hk. lia. }
    destruct (parent_child q ltac:(lia)) as [Hp Hc]. set (p := Z.shiftr (q - 1) 1) in *. rewrite (time_T _ s p A), (time_T _ s q A) by lia. cbn [mbind option_bind].
    destruct (Z.leb_spec (T s p) (T s q)) as [Hle|Hgt].
    { exists q, s. split_and!; try done; try lia. intros [H1 H2] p0 k H0 Hk Hl. destruct (Z.eq_dec k q) as [->|]; [|by apply H1]. assert (p0 = p) as -> by (unfold child in *; lia). done. }
    destruct (exchange_up x p q s A ltac:(lia) Hq ltac:(lia) Ex) as (s1 & E1 & A1 & K1 & Ex1 & HT).
    destruct (swap p q s) as [s2|]; [|done]. cbn [mbind option_bind] in *. destruct (aget (m_pHeap s2) q) as [w|]; [|done]. cbn [mbind option_bind] in *. rewrite E1. cbn [mbind option_bind].
    destruct (IH p s1 A1) as (q' & s' & E' & A' & K' & Hq' & Ex' & Ho); [rewrite (kp_last _ _ K1); lia|lia|done|by rewrite (kp_view _ _ K1)|].
    exists q', s'. rewrite (kp_last _ _ K1) in Hq'. split_and!; try done; try lia; [by eapply keeps_trans|]. intros Hup. apply Ho. eapply (swap_up s s1 p q); try done; try lia. apply K1.
Qed.

(** The heap holds the same sockets. *)
Definition same_sockets (s s' : t) : Prop :=
  forall u, (exists k, 0 <= k <= m_iLastEntry s' /\ aget (m_pHeap s') k = Some u) -> exists k, 0 <= k <= m_iLastEntry s /\ aget (m_pHeap s) k = Some u.

Lemma same_refl s : same_sockets s s. Proof. by intros u. Qed.

Lemma sift_down_run fuel X q s :
  agree X s -> 0 <= q -> m_iLastEntry s - q <= Z.of_nat fuel -> (forall k u, 0 <= k <= m_iLastEntry s -> aget (m_pHeap s) k = Some u -> ~ X u) ->
  exists s', sift_down fuel q s = Some s' /\ agree X s' /\ keeps s s' /\ same_sockets s s' /\ (down_ok s q -> in_order s').
Proof.
  revert q s. induction fuel as [|f IH]; intros q s A Hq Hf HX; cbn [sift_down].
  all: destruct (Z.leb_spec (q * 2 + 1) (m_iLastEntry s)) as [Hle|Hgt]; cbn [negb];
    [|exists s; split; [done|]; split; [done|]; split; [done|]; split; [apply same_refl|]; intros [H1 _] p k H0 Hk Hl; apply H1; try done; unfold child in Hk; lia].
  - lia.
  - set (p := if (q * 2 + 2 <=? m_iLastEntry s) && (T s (q * 2 + 1) >? T s (q * 2 + 2)) then q * 2 + 2 else q * 2 + 1).
    match goal with |- context [mbind _ ?x] => assert (x = Some p) as -> end.
    { replace (q * 2 + 1 + 1) with (q * 2 + 2) by lia. unfold p. destruct (Z.leb_spec (q * 2 + 2) (m_iLastEntry s)); [|done]. rewrite !(time_T _ s _ A) by lia. cbn. by destruct (_ >? _). }
    assert (child q p /\ p <= m_iLastEntry s /\ forall k, child q k -> k <= m_iLastEntry s -> T s p <= T s k) as (Hc & Hp & Hmin).
    { unfold p, child. destruct (Z.leb_spec (q * 2 + 2) (m_iLastEntry s)); cbn [andb]; [destruct (Z.gtb_spec (T s (q * 2 + 1)) (T s (q * 2 + 2)))|]; (split; [lia|]); (split; [lia|]);
        intros k Hk Hkl; (assert (k = q * 2 + 1 \/ k = q * 2 + 2) as [Ek|Ek] by lia); rewrite Ek in *; lia. }
    cbn [mbind option_bind]. rewrite (time_T _ s q A), (time_T _ s p A) by (unfold child in Hc; lia). cbn [mbind option_bind]. rewrite Z.gtb_ltb.
    destruct (Z.ltb_spec (T s p) (T s q)) as [Hlt|Hge].
    2: { exists s. split; [done|]. split; [done|]. split; [done|]. split; [apply same_refl|]. intros [H1 _] p0 k H0 Hk Hl. destruct (Z.eq_dec p0 q) as [->|]; [|by apply H1]. specialize (Hmin k Hk Hl). lia. }
    destruct (exchange_down X p q s A) as (s1 & E1 & A1 & K1 & H1 & HT); [unfold child in Hc; lia..|done|].
    destruct (swap p q s) as [s2|]; [|done]. cbn [mbind option_bind] in *. destruct (aget (m_pHeap s2) p) as [up|]; [|done]. cbn [mbind option_bind] in *.
    destruct (set_loc up p s2) as [s3|]; [|done]. cbn [mbind option_bind] in *. destruct (aget (m_pHeap s3) q) as [uq|]; [|done]. cbn [mbind option_bind] in *. rewrite E1. cbn [mbind option_bind].
    assert (same_sockets s s1) as S1.
    { intros u (k & Hk & Ek). rewrite (kp_last _ _ K1) in Hk. exists (exchange p q k). rewrite <- H1. split; [|done]. unfold exchange, child in *. repeat case_decide; lia. }
    destruct (IH p s1 A1) as (s' & E' & A' & K' & S' & Ho); [unfold child in Hc; lia|rewrite (kp_last _ _ K1); unfold child in Hc; lia| |].
    { intros k u Hk Ek. destruct (S1 u) as (k' & Hk' & Ek'); [by exists k|]. by eapply HX. }
    exists s'. split_and!; try done; [by eapply keeps_trans|intros u Hu; apply S1, S'; done|]. intros Hd. apply Ho.
    assert (forall j, exchange p q j = exchange q p j) as Hsym by (intros j; unfold exchange; repeat case_decide; lia).
    apply (swap_down s s1 q p); try done; [apply K1|]. intros j. by rewrite HT, Hsym.
Qed.

(** ** The operations *)

Definition ok (s : t) : Prop := agree nobody s.

(** Abstract: each scheduled socket and its time. *)
Definition models (s : t) (M : gmap Z Z) : Prop := forall u, M !! u = scheduled s u.

Lemma models_node s M u n : models s M -> aget (m_nodes s) u = Some n -> M !! u = if m_iHeapLoc n >=? 0 then Some (m_tsTimeStamp n) else None.
Proof. intros HM En. rewrite HM. unfold scheduled. by rewrite En. Qed.

(** A scheduled socket is at its place. *)
Lemma ok_node s u n : ok s -> aget (m_nodes s) u = Some n -> m_iHeapLoc n < 0 \/ (0 <= m_iHeapLoc n <= m_iLastEntry s /\ aget (m_pHeap s) (m_iHeapLoc n) = Some u).
Proof. intros A En. apply (ag_node _ _ A); [done|]. by intros []. Qed.

Lemma ok_place s k u n : ok s -> 0 <= k <= m_iLastEntry s -> aget (m_pHeap s) k = Some u -> aget (m_nodes s) u = Some n -> m_iHeapLoc n = k.
Proof. intros A Hk Ek En. destruct (ag_place _ _ A k Hk) as (u' & n' & E1 & E2 & H). rewrite Ek in E1. injection E1 as <-. rewrite En in E2. injection E2 as <-. apply H. by intros []. Qed.

(** The first steps of an insertion: the new entry is last. *)
Lemma append_run ts u n s :
  ok s -> aget (m_nodes s) u = Some n -> m_iHeapLoc n < 0 -> m_iLastEntry s < m_iArrayLength s - 1 -> let last := m_iLastEntry s + 1 in
  exists s', (s ← put last u (set_last last s); set_time u ts s) = Some s' /\ agree (eq u) s' /\ m_iLastEntry s' = last /\ m_iArrayLength s' = m_iArrayLength s
    /\ aget (m_pHeap s') last = Some u /\ (forall w, view s' w = if decide (w = u) then Some (ts, false) else view s w)
    /\ (forall k, 0 <= k < last -> T s' k = T s k).
Proof.
  intros A En Hn Hlen last. pose proof (ag_last _ _ A) as Hl. destruct (put_run last u (set_last last s)) as (s1 & -> & N1 & L1 & Z1 & H1); [cbn; unfold m_iArrayLength in *; cbn; lia|].
  cbn [mbind option_bind]. change (m_nodes (set_last last s)) with (m_nodes s) in N1. change (m_pHeap (set_last last s)) with (m_pHeap s) in H1. change (m_iLastEntry (set_last last s)) with last in L1.
  unfold set_time. rewrite N1, (aupd_Some _ _ _ _ En). cbn [mbind option_bind]. eexists. split; [reflexivity|]. cbn [m_nodes m_pHeap m_iLastEntry].
  pose proof (aget_in_bounds _ _ _ En) as Hb.
  assert (forall w, aget (<[Z.to_nat u:=mkNode ts (m_iHeapLoc n)]> (m_nodes s)) w = if decide (w = u) then Some (mkNode ts (m_iHeapLoc n)) else aget (m_nodes s) w) as N2.
  { intros w. case_decide as Ew; [subst; by apply aget_insert_eq|]. apply aget_insert_ne; [unfold in_bounds in Hb; lia|done]. }
  assert (forall k w, 0 <= k < last -> aget (m_pHeap s) k = Some w -> w <> u) as Hne.
  { intros k w Hk Ek ->. pose proof (ok_place s k u n A ltac:(lia) Ek En). lia. }
  assert (forall w, view (mk (<[Z.to_nat u:=mkNode ts (m_iHeapLoc n)]> (m_nodes s)) (m_pHeap s1) (m_iLastEntry s1)) w = if decide (w = u) then Some (ts, false) else view s w) as Hv.
  { intros w. unfold view. cbn [m_nodes]. rewrite N2. case_decide; [|done]. cbn. rewrite Z.geb_leb. by destruct (Z.leb_spec 0 (m_iHeapLoc n)); [lia|]. }
  split_and!; try done.
  - constructor; unfold m_iArrayLength; cbn [m_nodes m_pHeap m_iLastEntry]; rewrite ?L1.
    + unfold m_iArrayLength in *. cbn in *. lia.
    + intros k Hk. rewrite H1. case_decide as Ek.
      * exists u. eexists. split; [done|]. rewrite N2, decide_True by done. by split.
      * destruct (ag_place _ _ A k ltac:(lia)) as (w & m & Ew & Em & Hm). exists w, m. rewrite N2, decide_False by (by apply (Hne k); [lia|]). split_and!; [done..|]. intros _. apply Hm. by intros [].
    + intros w m. rewrite N2. case_decide as Ew; [by intros _ []|]. intros Em _. destruct (ok_node s w m A Em) as [?|[Hr Hm]]; [by left|right]. split; [lia|]. rewrite H1, decide_False by lia. done.
    + intros j k w Hj Hk. rewrite !H1. repeat case_decide; subst; try done.
      * intros [= <-] Ek. exfalso. by apply (Hne k u); [lia|..].
      * intros Ej [= <-]. exfalso. by apply (Hne j u); [lia|..].
      * apply (ag_once _ _ A); lia.
  - rewrite H1. by rewrite decide_True.
  - intros k Hk. unfold T. rewrite !time_view. cbn [m_pHeap]. rewrite H1, decide_False by lia. destruct (aget (m_pHeap s) k) as [w|] eqn:Ek; [|done]. cbn [mbind option_bind].
    rewrite Hv, decide_False; [done|]. by apply (Hne k).
Qed.

Lemma heap_insert_run ts u s M :
  ok s -> models s M -> is_Some (aget (m_nodes s) u) -> M !! u = None -> m_iLastEntry s < m_iArrayLength s - 1 ->
  exists sig s', insert_norealloc_ ts u s = Some (sig, s') /\ ok s' /\ models s' (<[u := ts]> M)
    /\ m_iLastEntry s' = m_iLastEntry s + 1 /\ m_iArrayLength s' = m_iArrayLength s /\ (in_order s -> in_order s').
Proof.
  intros A HM [n En] HMu Hlen. rewrite (models_node s M u n HM En) in HMu. unfold insert_norealloc_. rewrite En. cbn [mbind option_bind]. destruct (Z.geb_spec (m_iHeapLoc n) 0) as [Hge|Hlt]; [done|].
  destruct (append_run ts u n s A En ltac:(lia) Hlen) as (s1 & E1 & A1 & L1 & Z1 & H1 & V1 & T1). set (last := m_iLastEntry s + 1) in *. pose proof (ag_last _ _ A) as Hl.
  destruct (put last u (set_last last s)) as [s0|]; [|done]. cbn [mbind option_bind] in *. rewrite E1. cbn [mbind option_bind].
  destruct (sift_up_run (Z.to_nat last) u last s1 A1) as (q & s2 & -> & A2 & K2 & Hq & H2 & O2); [lia|lia|done|by rewrite V1, decide_True|]. cbn [mbind option_bind].
  destruct (tell_run _ q u s2 A2) as (s3 & -> & H3 & L3 & A3 & V3); [by rewrite (kp_last _ _ K2)|done|]. cbn [mbind option_bind].
  eexists _, s3. split; [reflexivity|]. split_and!.
  - eapply agree_weaken; [|exact A3]. naive_solver.
  - intros w. rewrite scheduled_view, V3, (kp_view _ _ K2), V1. case_decide as Ew; [subst; by rewrite lookup_insert_eq|]. rewrite lookup_insert_ne by done. by rewrite HM, scheduled_view.
  - by rewrite L3, (kp_last _ _ K2).
  - unfold m_iArrayLength in *. rewrite H3. pose proof (kp_length _ _ K2) as Z2. unfold m_iArrayLength in Z2. congruence.
  - intros Ho. assert (in_order s2) as O3.
    { apply O2. split; [|unfold over, child; lia]. intros p k H0 Hk Hle Hne. rewrite L1 in Hle. assert (p < k) by (unfold child in Hk; lia). rewrite !T1 by lia. apply Ho; [done|done|lia]. }
    intros p k H0 Hk Hle. rewrite L3 in Hle. assert (forall j, 0 <= j <= m_iLastEntry s2 -> T s3 j = T s2 j) as T3.
    { intros j Hj. unfold T. rewrite !time_view, H3. f_equal. apply option_bind_ext_fun. intros w. rewrite V3. case_decide; [|done]. by destruct (view s2 w) as [[]|]. }
    rewrite !T3 by (unfold child in Hk; lia). by apply O3.
Qed.

(** The first steps of a removal: the last entry takes the place. *)
Lemma vacate_run u n s :
  ok s -> aget (m_nodes s) u = Some n -> 0 <= m_iHeapLoc n -> let loc := m_iHeapLoc n in let last := m_iLastEntry s in
  exists s', (moved ← aget (m_pHeap s) last; s ← put loc moved s; set_loc moved loc (set_last (m_iLastEntry s - 1) s)) = Some s'
    /\ agree (eq u) s' /\ m_iLastEntry s' = last - 1 /\ m_iArrayLength s' = m_iArrayLength s /\ (forall k, 0 <= k <= last - 1 -> aget (m_pHeap s') k <> Some u)
    /\ (exists n', aget (m_nodes s') u = Some n' /\ m_iHeapLoc n' = loc) /\ (forall w, view s' w = view s w)
    /\ (forall k, 0 <= k <= last - 1 -> T s' k = T s (if decide (k = loc) then last else k)).
Proof.
  intros A En Hn loc last. destruct (ok_node s u n A En) as [?|[Hr Hu]]; [lia|]. fold loc in Hr, Hu. fold last in Hr. pose proof (ag_last _ _ A) as Hl. fold last in Hl.
  destruct (ag_place _ _ A last ltac:(lia)) as (m & nm & Em & Enm & Hm). rewrite Em. cbn [mbind option_bind].
  destruct (put_run loc m s) as (s1 & -> & N1 & L1 & Z1 & H1); [lia|]. cbn [mbind option_bind].
  destruct (loc_run m nm loc (set_last (m_iLastEntry s1 - 1) s1)) as (s2 & -> & H2 & L2 & N2); [cbn; by rewrite N1|]. cbn [m_nodes m_pHeap m_iLastEntry set_last] in *. exists s2. split; [done|].
  assert (m_iHeapLoc nm = last) as Hml by (apply Hm; by intros []).
  assert (forall k, 0 <= k <= last - 1 -> aget (m_pHeap s2) k <> Some u) as Habs.
  { intros k Hk E. rewrite H2, H1 in E. case_decide as Ek; [injection E as ->; rewrite Enm in En; injection En as ->; lia|]. apply Ek. pose proof (ok_place s k u n A ltac:(lia) E En). unfold loc. lia. }
  assert (forall w, view s2 w = view s w) as Hv.
  { intros w. unfold view. rewrite N2, N1. case_decide as Ew; [|done]. subst w. rewrite Enm. cbn. rewrite Hml, !Z.geb_leb. destruct (Z.leb_spec 0 loc), (Z.leb_spec 0 last); lia || done. }
  split_and!; try done.
  - constructor; rewrite ?L2, ?L1; unfold m_iArrayLength; rewrite ?H2; fold last.
    + unfold m_iArrayLength in *. lia.
    + intros k Hk. rewrite H1. case_decide as Ek.
      * exists m. eexists. split; [done|]. rewrite N2, decide_True by done. by split.
      * destruct (ag_place _ _ A k ltac:(fold last; lia)) as (w & nw & Ew & Enw & Hw). exists w, nw. rewrite N2, N1. rewrite decide_False; [split_and!; [done..|]; intros _; apply Hw; by intros []|].
        intros ->. rewrite Enw in Enm. injection Enm as ->. rewrite Hw in Hml by (by intros []). lia.
    + intros w nw. rewrite N2, N1. case_decide as Ew.
      * intros [= <-] Hne. cbn. subst w. destruct (Z.eq_dec loc last) as [E|]; [exfalso; rewrite E in Hu; congruence|]. right. split; [lia|]. rewrite H1. by rewrite decide_True.
      * intros Enw Hne. destruct (ok_node s w nw A Enw) as [?|[Hrw Hw]]; [by left|right]. rewrite H1.
        destruct (Z.eq_dec (m_iHeapLoc nw) last) as [E|]; [rewrite E in Hw; congruence|]. split; [fold last in Hrw; lia|]. case_decide as E; [rewrite E in Hw; congruence|done].
    + intros j k w Hj Hk. rewrite !H1. pose proof (ag_once _ _ A) as Ho. fold last in Ho. repeat case_decide; subst; try done.
      * intros [= <-] Ek. pose proof (Ho k last m ltac:(lia) ltac:(lia) Ek Em). lia.
      * intros Ej [= <-]. pose proof (Ho j last m ltac:(lia) ltac:(lia) Ej Em). lia.
      * apply Ho; lia.
  - rewrite L2. lia.
  - unfold m_iArrayLength in *. by rewrite H2.
  - destruct (Z.eq_dec u m) as [->|Hne]; [eexists; rewrite N2, decide_True by done; by split|]. exists n. rewrite N2, N1, decide_False by done. by split.
  - intros k Hk. unfold T. rewrite !time_view, H2, H1. case_decide as Ek; [rewrite Em|]; f_equal; apply option_bind_ext_fun; intros w; by rewrite Hv.
Qed.

(** The socket that was removed forgets its place. *)
Lemma forget_run u s :
  agree (eq u) s -> is_Some (aget (m_nodes s) u) -> (forall k, 0 <= k <= m_iLastEntry s -> aget (m_pHeap s) k <> Some u) ->
  exists s', set_loc u (-1) s = Some s' /\ ok s' /\ m_iLastEntry s' = m_iLastEntry s /\ m_iArrayLength s' = m_iArrayLength s
    /\ (forall w, scheduled s' w = if decide (w = u) then None else scheduled s w) /\ (forall k, 0 <= k <= m_iLastEntry s -> T s' k = T s k).
Proof.
  intros A [n En] Habs. destruct (loc_run u n (-1) s En) as (s' & -> & H & L & N). exists s'. split_and!; try done.
  - constructor; rewrite ?L; unfold m_iArrayLength; rewrite ?H; try apply A.
    + intros k Hk. destruct (ag_place _ _ A k Hk) as (w & nw & Ew & Enw & Hw). assert (w <> u) as Hne by (intros ->; by apply (Habs k)). exists w, nw. rewrite N, decide_False by done.
      split_and!; [done..|]. intros _. apply Hw. congruence.
    + intros w nw. rewrite N. case_decide as Ew; [intros [= <-] _; left; cbn; lia|]. intros Enw _. apply (ag_node _ _ A); [done|congruence].
  - unfold m_iArrayLength. by rewrite H.
  - intros w. unfold scheduled. rewrite N. by case_decide.
  - intros k Hk. unfold T, time_at. rewrite H. destruct (aget (m_pHeap s) k) as [w|] eqn:Ew; [|done]. cbn [mbind option_bind]. rewrite N, decide_False; [done|]. intros ->. by apply (Habs k).
Qed.

(** The entry that takes the place of [u] is not earlier than the one above it. *)
Definition fits (u : Z) (s : t) : Prop :=
  match aget (m_nodes s) u with
  | Some n => 0 < m_iHeapLoc n -> T s (Z.shiftr (m_iHeapLoc n - 1) 1) <= T s (m_iLastEntry s)
  | None => True
  end.

Lemma fits_above u s n p : fits u s -> aget (m_nodes s) u = Some n -> 0 <= p -> child p (m_iHeapLoc n) -> T s p <= T s (m_iLastEntry s).
Proof.
  unfold fits. intros Hf En Hp Hc. rewrite En in Hf. assert (0 < m_iHeapLoc n) as H0 by (unfold child in Hc; lia). destruct (parent_child (m_iHeapLoc n) H0) as [Hs Hc'].
  assert (p = Z.shiftr (m_iHeapLoc n - 1) 1) as -> by (unfold child in *; lia). by apply Hf.
Qed.

Lemma remove_run u s M :
  ok s -> models s M -> is_Some (aget (m_nodes s) u) ->
  exists sig s', remove_ u s = Some (sig, s') /\ ok s' /\ models s' (delete u M) /\ m_iArrayLength s' = m_iArrayLength s
    /\ m_iLastEntry s' = m_iLastEntry s - (if decide (M !! u = None) then 0 else 1) /\ (in_order s -> fits u s -> in_order s').
Proof.
  intros A HM [n En]. pose proof (models_node s M u n HM En) as HMu. unfold remove_. rewrite En. cbn [mbind option_bind]. destruct (Z.geb_spec (m_iHeapLoc n) 0) as [Hge|Hlt].
  2: { eexists _, s. split; [reflexivity|]. rewrite decide_True by done. split_and!; try done; [|lia]. by rewrite delete_id. }
  rewrite decide_False by (by rewrite HMu). destruct (vacate_run u n s A En ltac:(lia)) as (s1 & E1 & A1 & L1 & Z1 & Habs & (n1 & En1 & Hn1) & V1 & T1). set (last := m_iLastEntry s) in *.
  destruct (aget (m_pHeap s) last) as [m|]; [|done]. cbn [mbind option_bind] in *. destruct (put (m_iHeapLoc n) m s) as [s0|]; [|done]. cbn [mbind option_bind] in *. rewrite E1. cbn [mbind option_bind].
  rewrite En1. cbn [mbind option_bind]. rewrite Hn1. destruct (ok_node s u n A En) as [?|[Hr Hu]]; [lia|]. fold last in Hr.
  destruct (sift_down_run (Z.to_nat (m_iLastEntry s1 + 1)) (eq u) (m_iHeapLoc n) s1 A1) as (s2 & -> & A2 & K2 & S2 & O2); [lia|lia| |].
  { intros k w Hk Ek <-. apply (Habs k); [by rewrite L1 in Hk|done]. }
  cbn [mbind option_bind]. destruct (forget_run u s2 A2) as (s3 & -> & A3 & L3 & Z3 & V3 & T3).
  { pose proof (kp_view _ _ K2 u) as Hvu. unfold view in Hvu. rewrite En1 in Hvu. destruct (aget (m_nodes s2) u); [by eexists|done]. }
  { intros k Hk Ek. destruct (S2 u) as (k' & Hk' & Ek'); [by exists k|]. by apply (Habs k'); [rewrite L1 in Hk'|]. }
  cbn [mbind option_bind]. eexists _, s3. split; [reflexivity|]. split_and!; try done.
  - intros w. rewrite V3. case_decide as Ew; [subst; by rewrite lookup_delete_eq|]. rewrite lookup_delete_ne by done. by rewrite HM, !scheduled_view, (kp_view _ _ K2), V1.
  - rewrite Z3, (kp_length _ _ K2). done.
  - rewrite L3, (kp_last _ _ K2), L1. done.
  - intros Ho Hfit. assert (in_order s2) as O3.
    { apply O2. split.
      - intros p k H0 Hk Hle Hne. rewrite L1 in Hle. rewrite !T1 by (unfold child in Hk; lia). rewrite (decide_False (P := p = _)) by done. case_decide as Ek; [subst k; by apply (fits_above u s n p)|]. apply Ho; [done|done|fold last; lia].
      - intros p k H0 Hp Hk Hle. rewrite L1 in Hle. rewrite !T1 by (unfold child in *; lia). rewrite !decide_False by (unfold child in *; lia).
        etransitivity; [apply (Ho p (m_iHeapLoc n)); [done|done|fold last; lia]|apply Ho; [lia|done|fold last; lia]]. }
    intros p k H0 Hk Hle. rewrite L3 in Hle. rewrite !T3 by (unfold child in Hk; lia). by apply O3.
Qed.

(** The array grows; the first entry gets an earlier time. *)
Lemma realloc_run junk s M : ok s -> models s M -> 0 < m_iArrayLength s ->
  ok (realloc_ junk s) /\ models (realloc_ junk s) M /\ m_iArrayLength s < m_iArrayLength (realloc_ junk s) /\ (in_order s -> in_order (realloc_ junk s)).
Proof.
  intros A HM Hlen. pose proof (ag_last _ _ A) as Hl. assert (forall k, 0 <= k <= m_iLastEntry s -> aget (m_pHeap (realloc_ junk s)) k = aget (m_pHeap s) k) as HH.
  { intros k Hk. unfold aget, m_iArrayLength in *. cbn. destruct (Z.leb_spec 0 k); [|done]. apply lookup_app_l. lia. }
  assert (m_iArrayLength (realloc_ junk s) = 2 * m_iArrayLength s) as Z by (unfold m_iArrayLength; cbn; rewrite length_app, length_replicate; lia).
  split_and!; [|done|lia|].
  - constructor; cbn [m_iLastEntry realloc_ set_heap m_nodes]; [lia|..].
    + intros k Hk. rewrite HH by done. by apply (ag_place _ _ A).
    + intros u n En Hn. destruct (ag_node _ _ A u n En Hn) as [?|[Hr Hu]]; [by left|right]. split; [done|]. by rewrite HH.
    + intros j k u Hj Hk. rewrite !HH by done. by apply (ag_once _ _ A).
  - intros Ho p k H0 Hk Hle. cbn in Hle. unfold T, time_at. cbn [m_nodes realloc_ set_heap]. rewrite !HH by (unfold child in Hk; lia). by apply Ho.
Qed.

Lemma retime_run u n ts s M : ok s -> models s M -> aget (m_nodes s) u = Some n -> m_iHeapLoc n = 0 -> ts <= m_tsTimeStamp n ->
  exists s', set_time u ts s = Some s' /\ ok s' /\ models s' (<[u := ts]> M) /\ m_iArrayLength s' = m_iArrayLength s /\ (in_order s -> in_order s').
Proof.
  intros A HM En Hn Hts. unfold set_time. rewrite (aupd_Some _ _ _ _ En). cbn [mbind option_bind]. eexists. split; [reflexivity|]. pose proof (aget_in_bounds _ _ _ En) as Hb.
  destruct (ok_node s u n A En) as [?|[Hr Hu]]; [lia|]. rewrite Hn in Hr, Hu.
  assert (forall w, aget (<[Z.to_nat u:=mkNode ts (m_iHeapLoc n)]> (m_nodes s)) w = if decide (w = u) then Some (mkNode ts (m_iHeapLoc n)) else aget (m_nodes s) w) as N2.
  { intros w. case_decide as Ew; [subst; by apply aget_insert_eq|]. apply aget_insert_ne; [unfold in_bounds in Hb; lia|done]. }
  split_and!; [|..|done|].
  - constructor; cbn [m_nodes m_pHeap m_iLastEntry]; try apply A.
    + intros k Hk. destruct (ag_place _ _ A k Hk) as (w & m & Ew & Em & Hm). exists w. rewrite N2. case_decide; [|by exists m]. subst w. rewrite En in Em. injection Em as <-. by eexists.
    + intros w m. rewrite N2. case_decide; [|apply (ag_node _ _ A)]. subst w. intros [= <-]. cbn. by apply (ag_node _ _ A).
  - intros w. unfold scheduled. cbn [m_nodes]. rewrite N2. case_decide as Ew; [subst w; rewrite lookup_insert_eq; cbn; by rewrite Hn|]. rewrite lookup_insert_ne by done. apply HM.
  - intros Ho p k H0 Hk Hle. cbn in Hle. specialize (Ho p k H0 Hk Hle). unfold T, time_at in *. cbn [m_nodes m_pHeap] in *.
    assert (k <> 0) as Hk0 by (unfold child in Hk; lia).
    destruct (ag_place _ _ A p ltac:(unfold child in Hk; lia)) as (a & na & Ea & Ena & _), (ag_place _ _ A k ltac:(unfold child in Hk; lia)) as (b & nb & Eb & Enb & _).
    rewrite Ea, Eb in *. cbn [mbind option_bind] in *. rewrite !N2. rewrite Ena, Enb in Ho. cbn in Ho.
    assert (b <> u) as Hbu by (intros ->; apply Hk0, (ag_once _ _ A k 0 u); done || (unfold child in Hk; lia)). rewrite (decide_False (P := b = u)), Enb by done. cbn.
    case_decide as Eau; [|by rewrite Ena]. subst a. rewrite En in Ena. injection Ena as <-. cbn. lia.
Qed.

(** ** Sequences *)

Inductive sched_op :=
  | SUpdate (u : Z) (reschedule : EReschedule) (ts : Z)
  | SPop (now : Z)
  | SRemove (u : Z).

(** What a pop returns; [None] for the others. *)
Definition do_sched (junk : Z) (o : sched_op) (s : t) : option (option Z * t) :=
  match o with
  | SUpdate u r ts => x ← update junk u r ts s; Some (None, snd x)
  | SPop now => x ← pop now s; let '(u, _, s) := x in Some (u, s)
  | SRemove u => x ← remove u s; Some (None, snd x)
  end.

Fixpoint do_scheds (junk : Z) (os : list sched_op) (s : t) : option (list (option Z) * t) :=
  match os with
  | [] => Some ([], s)
  | o :: rest => x ← do_sched junk o s; y ← do_scheds junk rest (snd x); Some (fst x :: fst y, snd y)
  end.

(** A socket keeps its time unless it is rescheduled to an earlier one. *)
Definition spec_update (u : Z) (r : EReschedule) (ts : Z) (M : gmap Z Z) : gmap Z Z :=
  match M !! u, r with
  | Some t, DO_RESCHEDULE => if ts <? t then <[u := ts]> M else M
  | Some _, DONT_RESCHEDULE => M
  | None, _ => <[u := ts]> M
  end.

(** A pop gives a socket whose time has come, or none. *)
Definition spec_sched (o : sched_op) (res : option Z) (M : gmap Z Z) : option (gmap Z Z) :=
  match o, res with
  | SUpdate u r ts, None => Some (spec_update u r ts M)
  | SRemove u, None => Some (delete u M)
  | SPop now, None => Some M
  | SPop now, Some u => t ← M !! u; if t <=? now then Some (delete u M) else None
  | _, _ => None
  end.

Fixpoint spec_scheds (os : list sched_op) (rs : list (option Z)) (M : gmap Z Z) : option (gmap Z Z) :=
  match os, rs with
  | [], [] => Some M
  | o :: os, r :: rs => M ← spec_sched o r M; spec_scheds os rs M
  | _, _ => None
  end.

Definition socket_of (o : sched_op) : option Z := match o with SUpdate u _ _ | SRemove u => Some u | SPop _ => None end.

(** No entry is taken out of a place where the last one is too early to go. *)
Definition op_fits (o : sched_op) (s : t) : Prop :=
  match o with SRemove u | SUpdate u DO_RESCHEDULE _ => fits u s | _ => True end.

Fixpoint ops_fit (junk : Z) (os : list sched_op) (s : t) : Prop :=
  match os with
  | [] => True
  | o :: rest => op_fits o s /\ match do_sched junk o s with Some (_, s) => ops_fit junk rest s | None => True end
  end.

(** A pop gives the earliest socket if its time has come, and else none. *)
Definition earliest (o : sched_op) (res : option Z) (M : gmap Z Z) : Prop :=
  match o, res with
  | SPop now, Some u => exists t, M !! u = Some t /\ map_Forall (fun _ t' => t <= t') M
  | SPop now, None => map_Forall (fun _ t => now < t) M
  | _, _ => True
  end.

Fixpoint all_earliest (os : list sched_op) (rs : list (option Z)) (M : gmap Z Z) : Prop :=
  match os, rs with
  | o :: os, r :: rs => earliest o r M /\ match spec_sched o r M with Some M => all_earliest os rs M | None => True end
  | _, _ => True
  end.

Lemma first_earliest s k : in_order s -> 0 <= k <= m_iLastEntry s -> T s 0 <= T s k.
Proof.
  intros Ho Hk. destruct Hk as [H0 Hk]. revert Hk. pattern k. apply Zlt_0_ind; [|done]. clear k H0. intros k IH H0 Hk.
  destruct (Z.eq_dec k 0) as [->|]; [done|]. destruct (parent_child k ltac:(lia)) as [Hp Hc]. etransitivity; [apply (IH (Z.shiftr (k - 1) 1)); lia|]. apply Ho; [lia|done|done].
Qed.

(** *** The store of nodes keeps its size *)

Definition count (s : t) : nat := length (m_nodes s).

Lemma put_count k u s s' : put k u s = Some s' -> count s' = count s.
Proof. unfold put. intros H. bind_inv. done. Qed.

Lemma loc_count u k s s' : set_loc u k s = Some s' -> count s' = count s.
Proof. unfold set_loc, aupd. intros H. bind_inv. unfold count. cbn. by eapply aset_length. Qed.

Lemma time_count u ts s s' : set_time u ts s = Some s' -> count s' = count s.
Proof. unfold set_time, aupd. intros H. bind_inv. unfold count. cbn. by eapply aset_length. Qed.

Lemma swap_count p q s s' : swap p q s = Some s' -> count s' = count s.
Proof. unfold swap. intros H. bind_inv. etransitivity; by eapply put_count. Qed.

Lemma sift_up_count fuel q s r : sift_up fuel q s = Some r -> count (snd r) = count s.
Proof.
  revert q s. induction fuel as [|f IH]; intros q s H; cbn [sift_up] in H; bind_inv; try done. apply IH in H.
  match goal with E1 : swap _ _ _ = Some _, E2 : set_loc _ _ _ = Some _ |- _ => rewrite H, (loc_count _ _ _ _ E2); by apply swap_count in E1 end.
Qed.

Lemma sift_down_count fuel q s s' : sift_down fuel q s = Some s' -> count s' = count s.
Proof.
  revert q s. induction fuel as [|f IH]; intros q s H; cbn [sift_down] in H; destruct (negb _); try (by injection H as <-); [done|].
  apply bind_Some in H as (p & _ & H). apply bind_Some in H as (? & _ & H). apply bind_Some in H as (? & _ & H). destruct (_ >? _); [|by injection H as <-].
  apply bind_Some in H as (s1 & E1 & H). apply bind_Some in H as (? & _ & H). apply bind_Some in H as (s2 & E2 & H). apply bind_Some in H as (? & _ & H). apply bind_Some in H as (s3 & E3 & H).
  apply IH in H. rewrite H, (loc_count _ _ _ _ E3), (loc_count _ _ _ _ E2). by apply swap_count in E1.
Qed.

Lemma insert_count ts u s r : insert_norealloc_ ts u s = Some r -> count (snd r) = count s.
Proof.
  unfold insert_norealloc_. intros H. apply bind_Some in H as (n & _ & H). destruct (_ >=? _); [by injection H as <-|]. cbv zeta in H.
  apply bind_Some in H as (s1 & E1 & H). apply bind_Some in H as (s2 & E2 & H). apply bind_Some in H as ([q s3] & E3 & H). apply bind_Some in H as (s4 & E4 & H). injection H as <-. cbn [snd].
  rewrite (loc_count _ _ _ _ E4). apply sift_up_count in E3. cbn in E3. rewrite E3, (time_count _ _ _ _ E2). by apply put_count in E1.
Qed.

Lemma remove_count u s r : remove_ u s = Some r -> count (snd r) = count s.
Proof.
  unfold remove_. intros H. apply bind_Some in H as (n & _ & H). cbv zeta in H. apply bind_Some in H as (s' & E & H). injection H as <-. cbn [snd]. destruct (_ >=? _); [|by injection E as <-].
  apply bind_Some in E as (m & _ & E). apply bind_Some in E as (s1 & E1 & E). apply bind_Some in E as (s2 & E2 & E). apply bind_Some in E as (n2 & _ & E). apply bind_Some in E as (s3 & E3 & E).
  rewrite (loc_count _ _ _ _ E), (sift_down_count _ _ _ _ E3), (loc_count _ _ _ _ E2). change (count (set_last ?k s1)) with (count s1). by apply put_count in E1.
Qed.

Lemma sched_count junk o s r : do_sched junk o s = Some r -> count (snd r) = count s.
Proof.
  destruct o as [u rs ts|now|u]; cbn [do_sched]; intros H; apply bind_Some in H as (x & E & H).
  - injection H as <-. cbn [snd]. unfold update in E. apply bind_Some in E as (n & _ & E). destruct (_ >=? _).
    + destruct rs; [by injection E as <-|]. destruct (_ <=? _); [by injection E as <-|]. destruct (_ =? _).
      * apply bind_Some in E as (s1 & E1 & E). injection E as <-. by apply time_count in E1.
      * apply bind_Some in E as (y & E1 & E). apply bind_Some in E as (z & E2 & E). injection E as <-. cbn [snd]. rewrite (insert_count _ _ _ _ E2). by apply remove_count in E1.
    + unfold insert_ in E. apply insert_count in E. rewrite E. by destruct (_ =? _).
  - destruct x as [[v sig] s']. injection H as <-. cbn [snd]. unfold pop in E. destruct (_ =? _); [by injection E as _ _ <-|]. apply bind_Some in E as (ts & _ & E). destruct (_ >? _); [by injection E as _ _ <-|].
    apply bind_Some in E as (w & _ & E). apply bind_Some in E as (y & E1 & E). injection E as _ _ <-. by apply remove_count in E1.
  - injection H as <-. by apply remove_count in E.
Qed.

(** *** One operation *)

Definition good (s : t) (M : gmap Z Z) : Prop := ok s /\ models s M /\ 0 < m_iArrayLength s.

Lemma update_good junk u r ts s M :
  good s M -> is_Some (aget (m_nodes s) u) ->
  exists sig s', update junk u r ts s = Some (sig, s') /\ good s' (spec_update u r ts M) /\ (in_order s -> op_fits (SUpdate u r ts) s -> in_order s').
Proof.
  intros (A & HM & Hlen) [n En]. pose proof (models_node s M u n HM En) as HMu. unfold update, spec_update. rewrite En. cbn [mbind option_bind]. rewrite HMu.
  destruct (Z.geb_spec (m_iHeapLoc n) 0) as [Hge|Hlt].
  - destruct r; [by exists [], s|]. destruct (Z.leb_spec (m_tsTimeStamp n) ts), (Z.ltb_spec ts (m_tsTimeStamp n)); try lia; [by exists [], s|].
    destruct (Z.eqb_spec (m_iHeapLoc n) 0) as [Hz|Hne].
    + destruct (retime_run u n ts s M A HM En Hz ltac:(lia)) as (s' & -> & A' & HM' & Z' & Ho). cbn [mbind option_bind]. exists [TimerInterrupt], s'. split; [done|]. split; [split_and!; [done|done|lia]|]. intros Hs _. by apply Ho.
    + destruct (remove_run u s M A HM ltac:(by eexists)) as (sig1 & s1 & E1 & A1 & M1 & Z1 & L1 & O1). rewrite E1. cbn [mbind option_bind snd fst].
      rewrite decide_False in L1 by (rewrite HMu; done). pose proof (ag_last _ _ A).
      destruct (heap_insert_run ts u s1 (delete u M) A1 M1) as (sig2 & s2 & -> & A2 & M2 & L2 & Z2 & O2); [|apply lookup_delete_eq|lia|].
      { apply remove_count in E1. unfold count in E1. cbn in E1. apply aget_in_bounds in En. apply aget_is_Some. unfold in_bounds in *. lia. }
      cbn [mbind option_bind snd fst]. rewrite insert_delete_eq in M2. eexists _, s2. split; [done|]. split; [split_and!; [done|done|lia]|]. intros Hs Hf. by apply O2, O1.
  - unfold insert_. assert (M !! u = None) as HN by done. set (s0 := if m_iLastEntry s =? m_iArrayLength s - 1 then realloc_ junk s else s).
    pose proof (ag_last _ _ A) as Hl.
    assert (ok s0 /\ models s0 M /\ m_iLastEntry s0 < m_iArrayLength s0 - 1 /\ (in_order s -> in_order s0) /\ m_nodes s0 = m_nodes s) as (A0 & M0 & L0 & O0 & N0).
    { unfold s0. destruct (Z.eqb_spec (m_iLastEntry s) (m_iArrayLength s - 1)); [|split_and!; done || lia].
      destruct (realloc_run junk s M A HM Hlen) as (? & ? & ? & ?). split_and!; try done. cbn [m_iLastEntry realloc_ set_heap]. fold (realloc_ junk s). lia. }
    destruct (heap_insert_run ts u s0 M A0 M0) as (sig & s' & E & A' & M' & L' & Z' & O'); [by rewrite N0; eexists|done|done|]. rewrite E. exists sig, s'. split; [done|].
    split; [split_and!; [done|done|]; pose proof (ag_last _ _ A0); lia|]. intros Hs _. by apply O', O0.
Qed.

(** The first entry, as a socket of the map. *)
Lemma first_entry s M : ok s -> models s M -> 0 <= m_iLastEntry s -> exists u, aget (m_pHeap s) 0 = Some u /\ is_Some (aget (m_nodes s) u) /\ M !! u = Some (T s 0).
Proof.
  intros A HM Hl. destruct (ag_place _ _ A 0 ltac:(lia)) as (u & n & Eu & En & Hn). exists u. split_and!; [done|by eexists|]. rewrite (models_node s M u n HM En), Hn by (by intros []).
  unfold T, time_at. rewrite Eu. cbn [mbind option_bind]. by rewrite En.
Qed.

Lemma scheduled_at s M u t' : ok s -> models s M -> M !! u = Some t' -> exists k, 0 <= k <= m_iLastEntry s /\ T s k = t'.
Proof.
  intros A HM E. rewrite HM in E. unfold scheduled in E. destruct (aget (m_nodes s) u) as [n|] eqn:En; [|done]. cbn in E. destruct (Z.geb_spec (m_iHeapLoc n) 0); [|done]. injection E as <-.
  destruct (ok_node s u n A En) as [?|[Hr Hu]]; [lia|]. exists (m_iHeapLoc n). split; [done|]. unfold T, time_at. rewrite Hu. cbn. by rewrite En.
Qed.

Lemma pop_good now s M :
  good s M ->
  exists res sig s' M', pop now s = Some (res, sig, s') /\ spec_sched (SPop now) res M = Some M' /\ good s' M' /\ (in_order s -> in_order s' /\ earliest (SPop now) res M).
Proof.
  intros (A & HM & Hlen). unfold pop. pose proof (ag_last _ _ A) as Hl. destruct (Z.eqb_spec (m_iLastEntry s) (-1)) as [He|Hne].
  - exists None, [], s, M. split_and!; try done. intros Ho. split; [done|]. intros u t' Hu. destruct (scheduled_at s M u t' A HM Hu) as (k & ? & _). lia.
  - destruct (first_entry s M A HM ltac:(lia)) as (u & Eu & Hn & HMu). rewrite (time_T _ s 0 A) by lia. cbn [mbind option_bind]. rewrite Z.gtb_ltb. destruct (Z.ltb_spec now (T s 0)) as [Hlt|Hge].
    + exists None, [], s, M. split_and!; try done. intros Ho. split; [done|]. intros w t' Hw. destruct (scheduled_at s M w t' A HM Hw) as (k & Hk & <-). pose proof (first_earliest s k Ho Hk). lia.
    + rewrite Eu. cbn [mbind option_bind]. destruct (remove_run u s M A HM Hn) as (sig & s' & -> & A' & M' & Z' & _ & O'). cbn [mbind option_bind fst snd].
      exists (Some u), sig, s', (delete u M). split; [done|]. cbn [spec_sched]. rewrite HMu. cbn [mbind option_bind]. destruct (Z.leb_spec (T s 0) now); [|lia]. split; [done|]. split; [split_and!; [done|done|lia]|].
      intros Ho. split.
      * apply O'; [done|]. destruct Hn as [n En]. unfold fits. rewrite En, (ok_place s 0 u n A ltac:(lia) Eu En). lia.
      * exists (T s 0). split; [done|]. intros w t' Hw. destruct (scheduled_at s M w t' A HM Hw) as (k & Hk & <-). by apply first_earliest.
Qed.

Definition known (s : t) (o : sched_op) : Prop := match socket_of o with Some u => 0 <= u < Z.of_nat (count s) | None => True end.

Lemma sched_good junk o s M :
  good s M -> known s o ->
  exists res s' M', do_sched junk o s = Some (res, s') /\ spec_sched o res M = Some M' /\ good s' M' /\ (in_order s -> op_fits o s -> in_order s' /\ earliest o res M).
Proof.
  intros G Hk. destruct o as [u r ts|now|u]; cbn [do_sched].
  - destruct (update_good junk u r ts s M G) as (sig & s' & -> & G' & Ho); [by apply aget_is_Some|]. cbn [mbind option_bind snd]. eexists _, s', _. split; [done|]. split; [done|]. split; [done|]. intros H1 H2. split; [by apply Ho|done].
  - destruct (pop_good now s M G) as (res & sig & s' & M' & -> & Hs & G' & Ho). cbn [mbind option_bind]. exists res, s', M'. split_and!; try done; intros H1 H2; by apply Ho.
  - destruct G as (A & HM & Hlen). destruct (remove_run u s M A HM) as (sig & s' & E & A' & M' & Z' & _ & O'); [by apply aget_is_Some|]. unfold remove. rewrite E. cbn [mbind option_bind snd]. eexists _, s', _. split; [done|]. split; [done|].
    split; [split_and!; [done|done|lia]|]. intros H1 H2. split; [by apply O'|done].
Qed.

Lemma scheds_good junk os s M :
  good s M -> Forall (known s) os ->
  exists rs s' M', do_scheds junk os s = Some (rs, s') /\ spec_scheds os rs M = Some M' /\ good s' M' /\ (in_order s -> ops_fit junk os s -> all_earliest os rs M).
Proof.
  revert s M. induction os as [|o os IH]; intros s M G HF; cbn [do_scheds].
  - exists [], s, M. done.
  - apply list.Forall_cons in HF as [Hk HF]. destruct (sched_good junk o s M G Hk) as (res & s1 & M1 & E & Hs & G1 & O1). rewrite E. cbn [mbind option_bind fst snd].
    pose proof (sched_count _ _ _ _ E) as Hc. cbn in Hc. destruct (IH s1 M1 G1) as (rs & s2 & M2 & -> & Hs2 & G2 & O2).
    { eapply Forall_impl; [|exact HF]. intros x. unfold known. by rewrite Hc. }
    cbn [mbind option_bind fst snd]. exists (res :: rs), s2, M2. split; [done|]. cbn [spec_scheds]. rewrite Hs. cbn [mbind option_bind]. split; [done|]. split; [done|].
    intros Ho [Hf1 Hf2]. rewrite E in Hf2. destruct (O1 Ho Hf1) as [Ho1 He]. cbn [all_earliest]. rewrite Hs. split; [done|]. by apply O2.
Qed.

(** ** The schedule *)

(** Sockets none of which is scheduled. *)
Definition idle (nodes : list CSNode) : Prop := Forall (fun n => m_iHeapLoc n = -1) nodes.

Lemma create_good junk nodes : idle nodes -> good (create junk nodes) ∅ /\ in_order (create junk nodes).
Proof.
  intros Hi. assert (forall u n, aget nodes u = Some n -> m_iHeapLoc n = -1) as Hn.
  { intros u n. unfold aget. destruct (0 <=? u); [|done]. intros E. unfold idle in Hi. rewrite Forall_lookup in Hi. by apply (Hi _ _ E). }
  split; [|intros p k H0 Hk Hl; cbn in Hl; unfold child in Hk; lia]. split_and!.
  - constructor; unfold m_iArrayLength; cbn [m_iLastEntry m_pHeap m_nodes create]; rewrite ?length_replicate; try lia. intros u n En _. left. rewrite (Hn _ _ En). lia.
  - intros u. rewrite lookup_empty. unfold scheduled. cbn [m_nodes create]. destruct (aget nodes u) as [n|] eqn:En; [|done]. cbn. by rewrite (Hn _ _ En).
  - unfold m_iArrayLength. cbn [m_pHeap create]. rewrite length_replicate. lia.
Qed.

(** C38: Every sequence of updates, pops and removals on the sending schedule, with
    any number of sockets, stays inside its array and acts on a map from scheduled
    sockets to times: an update schedules a socket or moves it to an earlier time, a
    removal takes it out, and a pop takes out a socket whose time has come. *)
Theorem snd_ulist_refines junk nodes os :
  idle nodes -> Forall (known (create junk nodes)) os ->
  exists rs s' M', do_scheds junk os (create junk nodes) = Some (rs, s') /\ spec_scheds os rs ∅ = Some M' /\ agree nobody s' /\ models s' M'.
Proof.
  intros Hi HF. destruct (create_good junk nodes Hi) as [G _]. destruct (scheds_good junk os _ _ G HF) as (rs & s' & M' & E & Hs & (A' & HM' & _) & _). by exists rs, s', M'.
Qed.


Definition unscheduled (n : nat) : list CSNode := replicate n (mkNode 0 (-1)).

Definition example_schedule : list sched_op :=
  [SUpdate 2 DONT_RESCHEDULE 30; SUpdate 0 DONT_RESCHEDULE 10; SUpdate 1 DO_RESCHEDULE 20; SUpdate 0 DO_RESCHEDULE 5; SPop 4; SPop 100; SRemove 2; SPop 100; SPop 100].

Lemma example_known : idle (unscheduled 3) /\ Forall (known (create 0 (unscheduled 3))) example_schedule.
Proof. split; [by repeat constructor|]. repeat (constructor; [cbn; lia || done|]). constructor. Qed.

Lemma snd_ulist_refines_witness :
  exists rs s' M', do_scheds 0 example_schedule (create 0 (unscheduled 3)) = Some (rs, s') /\ spec_scheds example_schedule rs ∅ = Some M' /\ agree nobody s' /\ models s' M'.
Proof. destruct example_known as [H1 H2]. apply (snd_ulist_refines 0 (unscheduled 3) example_schedule H1 H2). Defined.

Lemma example_fits : ops_fit 0 example_schedule (create 0 (unscheduled 3)).
Proof. vm_compute. repeat split; congruence. Qed.


(** An entry taken out of the middle can spoil the order. Sockets 0 to 6 are
    scheduled; 3, the left one of the third row, is removed, and the last one, 6, goes
    to its place, below a socket with a later time: it is only moved down, never up.
    After two pops the next one gives socket 1, scheduled for 100, although socket 6
    has been waiting since 50. *)
Theorem snd_ulist_order_broken :
  let schedule := [SUpdate 0 DONT_RESCHEDULE 10; SUpdate 1 DONT_RESCHEDULE 100; SUpdate 2 DONT_RESCHEDULE 20; SUpdate 3 DONT_RESCHEDULE 200;
                   SUpdate 4 DONT_RESCHEDULE 210; SUpdate 5 DONT_RESCHEDULE 110; SUpdate 6 DONT_RESCHEDULE 50] in
  option_map fst (do_scheds 0 (schedule ++ [SRemove 3; SPop 300; SPop 300; SPop 300; SPop 300]) (create 0 (unscheduled 7)))
  = Some (replicate 8 None ++ [Some 0; Some 2; Some 1; Some 6]).
Proof. vm_compute. reflexivity. Qed.
