(* ===== verification/QueueSpec.v ===== *)
(** * The pool of units, the list of receiving sockets and the socket table

    The pool of [CUnitQueue] hands out free units and never runs out while there is
    memory; [CRcvUList] is a list of sockets, the one served longest ago first;
    [CHash] is a map from socket IDs to sockets. *)

From S2P Require Import Prelude Queue.

(** ** The pool of units *)

Section Pool.

Import CUnitQueue.

(** [H]: the units in use. *)
Record pool (q : t) (H : gset (nat * nat)) : Prop := mkPool {
  pl_block : 0 < m_iBlockSize q;
  pl_length : Forall (fun b => length b = Z.to_nat (m_iBlockSize q)) (m_blocks q);
  pl_place : (m_pCurrQueue q < length (m_blocks q))%nat /\ (m_pAvailUnit q <= Z.to_nat (m_iBlockSize q))%nat;
  pl_size : m_iSize q = Z.of_nat (length (m_blocks q)) * m_iBlockSize q;
  pl_taken : forall b u, (b, u) ∈ H <-> (block ← m_blocks q !! b; block !! u) = Some true;
  pl_count : m_iNumTaken q = Z.of_nat (base.size H)
}.

Definition free (q : t) (p : nat * nat) : Prop := (block ← m_blocks q !! p.1; block !! p.2) = Some false.

#[local] Instance free_dec q p : Decision (free q p).
Proof using Type. unfold free. apply _. Defined.

Lemma free_not_taken q H p : pool q H -> free q p -> p ∉ H.
Proof using Type. intros P Hf Hp. destruct p as [b u]. apply (pl_taken _ _ P) in Hp. unfold free in Hf. cbn in Hf. congruence. Qed.

Lemma length_pairs k n bs : length (seq k n ≫= fun b => (fun u => (b, u)) <$> seq 0 bs) = (n * bs)%nat.
Proof using Type. revert k. induction n as [|n IH]; intros k; [done|]. cbn [seq]. rewrite bind_cons, length_app, length_fmap, length_seq, IH. lia. Qed.

Lemma NoDup_pairs k n bs : NoDup (seq k n ≫= fun b => (fun u => (b, u)) <$> seq 0 bs).
Proof using Type.
  apply NoDup_bind; [|intros b _; apply NoDup_fmap_2; [by intros ?? [= ->]|apply NoDup_seq]|apply NoDup_seq].
  intros b1 b2 y _ _ (u1 & -> & _)%list_elem_of_fmap (u2 & [= -> _] & _)%list_elem_of_fmap. done.
Qed.

(** As long as not all are in use there is a free unit. *)
Lemma free_exists q H : pool q H -> m_iNumTaken q < m_iSize q -> exists p, free q p.
Proof using Type.
  intros P Hlt. set (nb := length (m_blocks q)). set (bs := Z.to_nat (m_iBlockSize q)).
  set (all := seq 0 nb ≫= fun b => (fun u => (b, u)) <$> seq 0 bs).
  destruct (decide (Exists (free q) all)) as [[p [_ Hp]]%list.Exists_exists|Hno]; [by exists p|]. exfalso.
  assert (NoDup all) as HN by apply NoDup_pairs.
  assert (length all = nb * bs)%nat as Hlen by apply length_pairs.
  assert (list_to_set all ⊆ H) as Hsub.
  { intros [b u] [b' [[u' [[= -> ->] Hu]]%list_elem_of_fmap Hb]]%elem_of_list_to_set%list_elem_of_bind. apply elem_of_seq in Hu, Hb. apply (pl_taken _ _ P).
    destruct (lookup_lt_is_Some_2 (m_blocks q) b' ltac:(unfold nb in *; lia)) as [bl Eb]. rewrite Eb. cbn.
    pose proof (pl_length _ _ P) as HL. rewrite Forall_lookup in HL. specialize (HL _ _ Eb). destruct (lookup_lt_is_Some_2 bl u' ltac:(unfold bs in *; lia)) as [v Ev]. rewrite Ev. destruct v; [done|]. exfalso. apply Hno.
    apply list.Exists_exists. exists (b', u'). split; [|unfold free; cbn; by rewrite Eb]. apply list_elem_of_bind. exists b'. split; [apply list_elem_of_fmap; exists u'; split; [done|]|]; apply elem_of_seq; lia. }
  apply subseteq_size in Hsub. rewrite size_list_to_set in Hsub by done. pose proof (pl_count _ _ P). pose proof (pl_size _ _ P). pose proof (pl_block _ _ P). unfold nb, bs in *. nia.
Qed.

Lemma scan_block_spec l u ck :
  match scan_block l u ck with
  | (Some v, _) => (u <= v)%nat /\ l !! (v - u)%nat = Some false
  | (None, ck') => ck' = ck + Z.of_nat (length l) /\ Forall (eq true) l
  end.
Proof using Type.
  revert u ck. induction l as [|[] l IH]; intros u ck; cbn [scan_block].
  - split; [cbn; lia|constructor].
  - specialize (IH (S u) (ck + 1)). destruct (scan_block l (S u) (ck + 1)) as [[v|] ck'].
    + destruct IH as [H1 H2]. split; [lia|]. replace (v - u)%nat with (S (v - S u)) by lia. done.
    + destruct IH as [-> H2]. split; [cbn [length]; lia|by constructor].
  - split; [done|]. by rewrite Nat.sub_diag.
Qed.

(** The blocks, and what does not change while looking for a unit. *)
Definition same_pool (q q' : t) : Prop :=
  m_blocks q' = m_blocks q /\ m_iSize q' = m_iSize q /\ m_iNumTaken q' = m_iNumTaken q /\ m_iBlockSize q' = m_iBlockSize q.

Lemma place_pool q H b u : pool q H -> (b < length (m_blocks q))%nat -> (u <= Z.to_nat (m_iBlockSize q))%nat -> pool (set_place b u q) H.
Proof using Type. intros [] Hb Hu. by constructor. Qed.

Lemma pool_block q H b : pool q H -> (b < length (m_blocks q))%nat -> exists block, m_blocks q !! b = Some block /\ length block = Z.to_nat (m_iBlockSize q).
Proof using Type.
  intros P Hb. destruct (lookup_lt_is_Some_2 _ _ Hb) as [block E]. exists block. split; [done|]. pose proof (pl_length _ _ P) as HL. rewrite Forall_lookup in HL. by apply (HL _ _ E).
Qed.

(** From the start of a block on: a free unit [d] blocks ahead is reached. *)
Lemma scan_found f ck q H b u d :
  pool q H -> m_pAvailUnit q = 0%nat -> free q (b, u) -> (d < length (m_blocks q))%nat -> (d < f)%nat ->
  b = (if m_pCurrQueue q + d <? length (m_blocks q) then m_pCurrQueue q + d else m_pCurrQueue q + d - length (m_blocks q))%nat ->
  ck + Z.of_nat d * m_iBlockSize q < m_iSize q ->
  exists p q', scan_blocks f ck q = Some (Some p, q') /\ free q p /\ pool q' H /\ same_pool q q'.
Proof using Type.
  revert ck q d. induction f as [|f IH]; intros ck q d P Ha Hf Hd Hdf Hb Hck; [lia|]. cbn [scan_blocks]. destruct (pl_place _ _ P) as [Hc _]. pose proof (pl_block _ _ P) as Hbs.
  destruct (pool_block q H _ P Hc) as (block & Eb & Hlen). rewrite Eb. cbn [mbind option_bind]. rewrite Ha, drop_0. pose proof (scan_block_spec block 0 ck) as Hs. destruct (scan_block block 0 ck) as [[v|] ck'].
  - destruct Hs as [_ Hv]. rewrite Nat.sub_0_r in Hv. eexists _, _. split; [reflexivity|]. split_and!; try done; [unfold free; cbn; by rewrite Eb|]. apply place_pool; [done|done|]. apply lookup_lt_Some in Hv. lia.
  - destruct Hs as [-> Hall].
    assert (d <> 0)%nat as Hd0.
    { intros ->. unfold free in Hf. cbn in Hf. destruct (Nat.ltb_spec (m_pCurrQueue q + 0) (length (m_blocks q))); [|lia]. rewrite Nat.add_0_r in Hb. subst b. rewrite Eb in Hf. cbn in Hf. rewrite Forall_lookup in Hall. by specialize (Hall _ _ Hf). }
    cbn [m_iSize set_place]. destruct (Z.ltb_spec (ck + Z.of_nat (length block)) (m_iSize q)); [|exfalso; rewrite Hlen in *; nia].
    set (next := if (S (m_pCurrQueue q) =? length (m_blocks q))%nat then 0%nat else S (m_pCurrQueue q)).
    assert (next < length (m_blocks q))%nat as Hn by (unfold next; destruct (Nat.eqb_spec (S (m_pCurrQueue q)) (length (m_blocks q))); lia).
    destruct (IH (ck + Z.of_nat (length block)) (set_place next 0 q) (d - 1)%nat) as (p & q' & E & Hfp & P' & S').
    + apply place_pool; [done|done|lia].
    + done.
    + exact Hf.
    + cbn. lia.
    + lia.
    + cbn [m_pCurrQueue m_blocks set_place]. rewrite Hb. unfold next. destruct (Nat.eqb_spec (S (m_pCurrQueue q)) (length (m_blocks q))); repeat match goal with |- context [(?x <? ?y)%nat] => destruct (Nat.ltb_spec x y) end; lia.
    + cbn. rewrite Hlen. nia.
    + exists p, q'. by split_and!.
Qed.

(** The whole search. *)
Lemma scan_run q H :
  pool q H -> m_iNumTaken q < m_iSize q ->
  exists p q', scan_blocks (S (S (length (m_blocks q)))) 0 q = Some (Some p, q') /\ free q p /\ pool q' H /\ same_pool q q'.
Proof using Type.
  intros P Hlt. destruct (free_exists q H P Hlt) as [[b u] Hf]. destruct (pl_place _ _ P) as [Hc Ha]. pose proof (pl_block _ _ P) as Hbs. pose proof (pl_size _ _ P) as Hsz.
  destruct (pool_block q H _ P Hc) as (block & Eb & Hlen). cbn [scan_blocks]. rewrite Eb. cbn [mbind option_bind].
  pose proof (scan_block_spec (drop (m_pAvailUnit q) block) (m_pAvailUnit q) 0) as Hs. destruct (scan_block _ _ 0) as [[v|] ck'].
  - destruct Hs as [Hv1 Hv2]. rewrite lookup_drop in Hv2. replace (m_pAvailUnit q + (v - m_pAvailUnit q))%nat with v in Hv2 by lia.
    eexists _, _. split; [reflexivity|]. split_and!; try done; [unfold free; cbn; by rewrite Eb|]. apply place_pool; [done|done|]. apply lookup_lt_Some in Hv2. lia.
  - destruct Hs as [-> Hall]. rewrite length_drop, Hlen. cbn [m_iSize set_place].
    assert (b < length (m_blocks q))%nat as Hb by (unfold free in Hf; cbn in Hf; destruct (m_blocks q !! b) eqn:E; [by apply lookup_lt_Some in E|done]).
    set (next := if (S (m_pCurrQueue q) =? length (m_blocks q))%nat then 0%nat else S (m_pCurrQueue q)).
    assert (next < length (m_blocks q))%nat as Hn by (unfold next; destruct (Nat.eqb_spec (S (m_pCurrQueue q)) (length (m_blocks q))); lia).
    set (d := (if next <=? b then b - next else b + length (m_blocks q) - next)%nat).
    assert (b = m_pCurrQueue q -> 0 < m_pAvailUnit q)%nat as Hself.
    { intros ->. unfold free in Hf. cbn in Hf. rewrite Eb in Hf. cbn in Hf. destruct (Nat.lt_ge_cases u (m_pAvailUnit q)); [lia|]. rewrite Forall_lookup in Hall.
      specialize (Hall (u - m_pAvailUnit q)%nat false). rewrite lookup_drop in Hall. replace (m_pAvailUnit q + (u - m_pAvailUnit q))%nat with u in Hall by lia. by specialize (Hall Hf). }
    assert (d < length (m_blocks q))%nat as Hd by (unfold d; destruct (Nat.leb_spec next b); lia).
    assert (Z.of_nat (Z.to_nat (m_iBlockSize q) - m_pAvailUnit q) + Z.of_nat d * m_iBlockSize q < m_iSize q) as Hck.
    { rewrite Hsz. destruct (decide (b = m_pCurrQueue q)) as [->|Hne]; [specialize (Hself eq_refl)|]; unfold d, next in *;
        destruct (Nat.eqb_spec (S (m_pCurrQueue q)) (length (m_blocks q))); match goal with |- context [(?x <=? ?y)%nat] => destruct (Nat.leb_spec x y) end; try lia; nia. }
    destruct (Z.ltb_spec (0 + Z.of_nat (Z.to_nat (m_iBlockSize q) - m_pAvailUnit q)) (m_iSize q)); [|exfalso; nia].
    destruct (scan_found (S (length (m_blocks q))) (0 + Z.of_nat (Z.to_nat (m_iBlockSize q) - m_pAvailUnit q)) (set_place next 0 q) H b u d) as (p & q' & E & Hfp & P' & S').
    + apply place_pool; [done|done|lia].
    + done.
    + exact Hf.
    + exact Hd.
    + lia.
    + cbn [m_pCurrQueue m_blocks set_place]. unfold d. destruct (Nat.leb_spec next b); match goal with |- context [(?x <? ?y)%nat] => destruct (Nat.ltb_spec x y) end; lia.
    + cbn [m_iBlockSize m_iSize set_place]. lia.
    + exists p, q'. by split_and!.
Qed.

Lemma increase_pool q H : pool q H -> m_iSize q + m_iBlockSize q < 2 ^ 31 -> pool (snd (increase_ true q)) H /\ m_iSize (snd (increase_ true q)) = m_iSize q + m_iBlockSize q.
Proof using Type.
  intros P Hs. destruct P as [H1 H2 H3 H4 H5 H6]. cbn [increase_ snd]. unfold allocateEntry. 
  assert (0 <= m_iSize q) by nia.
  rewrite i32_id by (unfold is_i32; lia).
  split; [|done]. constructor; cbn [m_blocks m_iBlockSize m_iSize m_iNumTaken m_pCurrQueue m_pAvailUnit]; try done.
  - apply Forall_app. split; [done|]. constructor; [apply length_replicate|constructor].
  - rewrite length_app. cbn. lia.
  - rewrite length_app. cbn. lia.
  - intros b u. rewrite H5. destruct (Nat.lt_ge_cases b (length (m_blocks q))).
    + by rewrite lookup_app_l.
    + rewrite (lookup_ge_None_2 (m_blocks q)) by lia. rewrite lookup_app_r by lia. split; [done|]. destruct (b - length (m_blocks q))%nat as [|k]; [|done]. cbn. intros [E _]%lookup_replicate_1. done.
Qed.

(** With memory there is always a unit; without, as long as not all are in use. *)
Lemma get_run memory q H :
  pool q H -> m_iSize q + m_iBlockSize q <= 2 ^ 27 ->
  exists r q', getNextAvailUnit memory q = Some (r, q') /\ pool q' H /\ m_iSize q <= m_iSize q' <= m_iSize q + m_iBlockSize q /\ m_iBlockSize q' = m_iBlockSize q
    /\ match r with Some p => free q' p | None => memory = false /\ m_iSize q <= m_iNumTaken q end.
Proof using Type.
  intros P Hb. pose proof (pl_block _ _ P) as Hbs. pose proof (pl_size _ _ P) as Hsz. destruct (pl_place _ _ P) as [Hc _]. pose proof (pl_count _ _ P) as Hct.
  unfold getNextAvailUnit, capacity.
  set (q0 := if i32 (m_iNumTaken q * 10) >? i32 (m_iSize q * 9) then snd (increase_ memory q) else q).
  assert (m_iNumTaken q <= m_iSize q) as Hle.
  { assert (~ (m_iSize q < m_iNumTaken q)); [|lia]. intros Hgt. pose proof (pl_taken _ _ P) as Ht. set (all := seq 0 (length (m_blocks q)) ≫= fun b => (fun u => (b, u)) <$> seq 0 (Z.to_nat (m_iBlockSize q))).
    assert (H ⊆ list_to_set all) as Hsub.
    { intros [b u] Hin. apply Ht in Hin. apply elem_of_list_to_set, list_elem_of_bind. destruct (m_blocks q !! b) as [bl|] eqn:Eb; [|done]. cbn in Hin. exists b. split.
      - apply list_elem_of_fmap. exists u. split; [done|]. apply elem_of_seq. apply lookup_lt_Some in Hin. pose proof (pl_length _ _ P) as HL. rewrite Forall_lookup in HL. specialize (HL _ _ Eb). lia.
      - apply elem_of_seq. apply lookup_lt_Some in Eb. lia. }
    apply subseteq_size in Hsub. rewrite size_list_to_set in Hsub by apply NoDup_pairs. unfold all in *. rewrite length_pairs in Hsub. nia. }
  assert (pool q0 H /\ m_iSize q <= m_iSize q0 <= m_iSize q + m_iBlockSize q /\ m_iBlockSize q0 = m_iBlockSize q /\ m_iNumTaken q0 = m_iNumTaken q
    /\ (m_iNumTaken q < m_iSize q0 \/ (memory = false /\ m_iSize q <= m_iNumTaken q))) as (P0 & S0 & B0 & N0 & C0).
  { unfold q0. rewrite !i32_id by (unfold is_i32; lia). rewrite Z.gtb_ltb. destruct (Z.ltb_spec (m_iSize q * 9) (m_iNumTaken q * 10)); [|assert (0 < m_iSize q) by nia; split_and!; first [done|lia|left; lia]]. destruct memory.
    - destruct (increase_pool q H P ltac:(lia)) as [P1 S1]. split; [done|]. rewrite S1. split; [lia|]. split; [done|]. split; [done|]. left. lia.
    - cbn [increase_ snd]. split; [done|]. split; [lia|]. split; [done|]. split; [done|]. destruct (Z.lt_ge_cases (m_iNumTaken q) (m_iSize q)); [by left|by right]. }
  clearbody q0. rewrite N0, Z.geb_leb. destruct (Z.leb_spec (m_iSize q0) (m_iNumTaken q)) as [Hfull|Hroom].
  - exists None, q0. split_and!; try done; try lia; destruct C0 as [?|[? ?]]; done || lia.
  - destruct (scan_run q0 H P0 ltac:(lia)) as (p & q' & E & Hf & P' & (E1 & E2 & E3 & E4)). exists (Some p), q'. rewrite E. split; [done|]. split; [done|]. rewrite E2, E4. split; [lia|]. split; [done|]. unfold free in *. by rewrite E1.
Qed.

Lemma set_taken_pool v p q H n :
  pool q H -> (block ← m_blocks q !! p.1; block !! p.2) = Some (negb v) -> let H' := if v then {[p]} ∪ H else H ∖ {[p]} in n = Z.of_nat (base.size H') ->
  exists q', set_taken v p n q = Some q' /\ pool q' H' /\ m_iSize q' = m_iSize q /\ m_iBlockSize q' = m_iBlockSize q.
Proof using Type.
  intros P Hp H' Hn. unfold set_taken. destruct p as [b u]. cbn [fst snd] in *. destruct (m_blocks q !! b) as [bl|] eqn:Eb; [|done]. cbn [mbind option_bind] in *. rewrite Hp. cbn [mbind option_bind].
  assert (Bool.eqb (negb v) v = false) as -> by (by destruct v). eexists. split; [reflexivity|]. split; [|done]. destruct P as [H1 H2 H3 H4 H5 H6]. pose proof (lookup_lt_Some _ _ _ Eb) as Hb.
  constructor; cbn [m_blocks m_iBlockSize m_iSize m_iNumTaken m_pCurrQueue m_pAvailUnit]; rewrite ?length_insert; try done.
  - apply Forall_insert; [done|]. rewrite length_insert. rewrite Forall_lookup in H2. by apply (H2 _ _ Eb).
  - intros b' u'. assert ((b', u') ∈ H' <-> if decide ((b', u') = (b, u)) then v = true else (b', u') ∈ H) as -> by (unfold H'; destruct v; case_decide; set_solver).
    destruct (decide (b' = b)) as [->|Hne].
    + rewrite list_lookup_insert_eq by done. cbn. destruct (decide (u' = u)) as [->|Hu].
      * rewrite decide_True by done. rewrite list_lookup_insert_eq by (by eapply lookup_lt_Some). destruct v; split; congruence.
      * rewrite decide_False by congruence. rewrite list_lookup_insert_ne by done. rewrite H5, Eb. done.
    + rewrite decide_False by congruence. rewrite list_lookup_insert_ne by done. apply H5.
Qed.

(** A free unit can be taken. *)
Lemma take_pool p q H :
  pool q H -> free q p -> exists q', makeUnitTaken p q = Some q' /\ pool q' ({[p]} ∪ H) /\ m_iSize q' = m_iSize q /\ m_iBlockSize q' = m_iBlockSize q.
Proof using Type.
  intros P Hp. pose proof (free_not_taken q H p P Hp) as Hn. apply (set_taken_pool true p q H _ P Hp). rewrite (pl_count _ _ P), size_union by set_solver. rewrite size_singleton. lia.
Qed.

(** *** Sequences *)

(** A unit is taken for a packet; a unit is given back. *)
Inductive pool_op := PoolGet (memory : bool) | PoolFree (p : nat * nat).

Definition do_pool (o : pool_op) (q : t) : option (option (nat * nat) * t) :=
  match o with
  | PoolGet memory =>
    r ← getNextAvailUnit memory q;
    match fst r with Some p => q ← makeUnitTaken p (snd r); Some (Some p, q) | None => Some (None, snd r) end
  | PoolFree p => q ← makeUnitFree p q; Some (None, q)
  end.

Fixpoint do_pools (os : list pool_op) (q : t) : option (list (option (nat * nat)) * t) :=
  match os with
  | [] => Some ([], q)
  | o :: rest => r ← do_pool o q; x ← do_pools rest (snd r); Some (fst r :: fst x, snd x)
  end.

(** A unit that is handed out is not in use; one is refused only without memory. *)
Definition spec_pool (o : pool_op) (r : option (nat * nat)) (H : gset (nat * nat)) : option (gset (nat * nat)) :=
  match o, r with
  | PoolGet _, Some p => if decide (p ∈ H) then None else Some ({[p]} ∪ H)
  | PoolGet memory, None => if memory then None else Some H
  | PoolFree p, None => Some (H ∖ {[p]})
  | PoolFree _, Some _ => None
  end.

Fixpoint spec_pools (os : list pool_op) (rs : list (option (nat * nat))) (H : gset (nat * nat)) : option (gset (nat * nat)) :=
  match os, rs with
  | [], [] => Some H
  | o :: os, r :: rs => H ← spec_pool o r H; spec_pools os rs H
  | _, _ => None
  end.

(** Only units in use are given back. *)
Fixpoint pools_ok (os : list pool_op) (q : t) (H : gset (nat * nat)) : Prop :=
  match os with
  | [] => True
  | o :: rest =>
    match o with PoolFree p => p ∈ H | PoolGet _ => True end
    /\ match do_pool o q with Some (r, q) => match spec_pool o r H with Some H => pools_ok rest q H | None => True end | None => True end
  end.

Lemma pool_op_run o q H :
  pool q H -> m_iSize q + m_iBlockSize q <= 2 ^ 27 -> match o with PoolFree p => p ∈ H | PoolGet _ => True end ->
  exists r q' H', do_pool o q = Some (r, q') /\ spec_pool o r H = Some H' /\ pool q' H' /\ m_iSize q' <= m_iSize q + m_iBlockSize q /\ m_iBlockSize q' = m_iBlockSize q.
Proof using Type.
  intros P Hb Ho. destruct o as [memory|p]; cbn [do_pool].
  - destruct (get_run memory q H P Hb) as (r & q1 & -> & P1 & S1 & B1 & Hr). cbn [mbind option_bind fst snd]. destruct r as [p|].
    + pose proof (free_not_taken q1 H p P1 Hr) as Hp. destruct (take_pool p q1 H P1 Hr) as (q' & E & P' & S' & B'). rewrite E. cbn [mbind option_bind]. exists (Some p), q', ({[p]} ∪ H). cbn [spec_pool]. rewrite decide_False by done. split_and!; try done; lia.
    + destruct Hr as [-> _]. exists None, q1, H. split_and!; try done; lia.
  - destruct p as [b u]. pose proof (proj1 (pl_taken _ _ P b u) Ho) as Hp. destruct (set_taken_pool false (b, u) q H (m_iNumTaken q - 1) P Hp) as (q' & E & P' & S' & B').
    { rewrite (pl_count _ _ P). rewrite size_difference by set_solver. rewrite size_singleton. pose proof (subseteq_size {[(b, u)]} H ltac:(set_solver)) as Hz. rewrite size_singleton in Hz. lia. }
    unfold makeUnitFree. rewrite E. cbn [mbind option_bind]. exists None, q', (H ∖ {[(b, u)]}). split_and!; try done. pose proof (pl_block _ _ P). lia.
Qed.

Lemma pool_ops_run os q H :
  pool q H -> m_iSize q + Z.of_nat (length os) * m_iBlockSize q <= 2 ^ 27 -> pools_ok os q H ->
  exists rs q' H', do_pools os q = Some (rs, q') /\ spec_pools os rs H = Some H' /\ pool q' H'.
Proof using Type.
  revert q H. induction os as [|o os IH]; intros q H P Hb Hok; cbn [do_pools]; [by exists [], q, H|]. destruct Hok as [Ho Hok]. cbn [length] in Hb. pose proof (pl_block _ _ P) as Hbs.
  destruct (pool_op_run o q H P ltac:(nia) Ho) as (r & q1 & H1 & E & Es & P1 & S1 & B1). rewrite E, Es in Hok. rewrite E. cbn [mbind option_bind fst snd].
  destruct (IH q1 H1 P1) as (rs & q2 & H2 & -> & Es2 & P2); [rewrite B1; nia|done|]. cbn [mbind option_bind fst snd]. exists (r :: rs), q2, H2. split; [done|]. cbn [spec_pools]. rewrite Es. done.
Qed.

Lemma create_pool n : 0 < n -> pool (create n) ∅ /\ m_iSize (create n) = n /\ m_iBlockSize (create n) = n.
Proof using Type.
  intros Hn. split; [|done]. constructor; cbn [create m_blocks m_iBlockSize m_iSize m_iNumTaken m_pCurrQueue m_pAvailUnit]; try done.
  - constructor; [apply length_replicate|constructor].
  - cbn. lia.
  - cbn. lia.
  - intros b u. split; [set_solver|]. destruct b as [|b]; [|done]. cbn. intros [E _]%lookup_replicate_1. done.
Qed.

End Pool.

(** The pool of receiving units hands out, over every sequence of units taken
    and given back, only units that are not in use, and while there is memory it
    never refuses one: it grows before it is full. *)
Theorem unit_pool_available n os :
  0 < n -> n + Z.of_nat (length os) * n <= 2 ^ 27 -> pools_ok os (CUnitQueue.create n) ∅ ->
  exists rs q' H', do_pools os (CUnitQueue.create n) = Some (rs, q') /\ spec_pools os rs ∅ = Some H' /\ pool q' H'.
Proof. intros Hn Hb Hok. destruct (create_pool n Hn) as (P & ES & EB). apply (pool_ops_run os _ ∅ P); [by rewrite ES, EB|done]. Qed.

Definition pool_example : list pool_op := [PoolGet true; PoolGet true; PoolGet false; PoolFree (0, 0)%nat; PoolGet true; PoolGet true; PoolFree (0, 1)%nat; PoolGet false].

Lemma unit_pool_available_witness :
  exists rs q' H', do_pools pool_example (CUnitQueue.create 2) = Some (rs, q') /\ spec_pools pool_example rs ∅ = Some H' /\ pool q' H'.
Proof. apply (unit_pool_available 2 pool_example); [lia|cbn; lia|]. vm_compute. repeat split. Defined.
