(* ===== verification/RcvUListSpec.v ===== *)
(** * The list of receiving sockets and the table of sockets

    [CRcvUList] is a list of sockets with the times of their last timer events: a
    socket that is inserted or served goes to its end, so the list is in the order
    of these times. [CHash] is a map from IDs to sockets. *)

From S2P Require Import Prelude Queue.

(** ** The doubly linked list *)

(** A list of sockets and times, first to last. *)
Notation entries := (list (Z * Z)).

Section RcvUList.

Import CRcvUList.

Definition next_of (r : entries) (q : option Z) : option Z := match r with [] => q | (v, _) :: _ => Some v end.

Fixpoint last_of (p : option Z) (l : entries) : option Z := match l with [] => p | (v, _) :: r => last_of (Some v) r end.

(** The nodes of [l] are linked to each other, the first one back to [p] and the last
    one on to [q]. *)
Fixpoint chain (N : list CRNode) (p : option Z) (l : entries) (q : option Z) : Prop :=
  match l with
  | [] => True
  | (u, ts) :: r => aget N u = Some (mkNode ts p (next_of r q) true) /\ chain N (Some u) r q
  end.

Record rep (s : t) (l : entries) : Prop := mkRep {
  rep_nodup : NoDup l.*1;
  rep_chain : chain (m_nodes s) None l None;
  rep_first : m_pUList s = next_of l None;
  rep_last : m_pLast s = last_of None l
}.

Lemma next_of_app a b q : next_of (a ++ b) q = next_of a (next_of b q).
Proof. by destruct a as [|[]]. Qed.

Lemma last_of_app a b p : last_of p (a ++ b) = last_of (last_of p a) b.
Proof. revert p. induction a as [|[u ts] a IH]; intros p; cbn; [done|apply IH]. Qed.

Lemma ulinks_app N p a b q : chain N p (a ++ b) q <-> chain N p a (next_of b q) /\ chain N (last_of p a) b q.
Proof.
  revert p. induction a as [|[u ts] a IH]; intros p; cbn [app chain last_of]; [tauto|]. rewrite next_of_app, IH. tauto.
Qed.

(** Other nodes do not matter. *)
Lemma links_frame N N' p l q : (forall u, u ∈ l.*1 -> aget N' u = aget N u) -> chain N p l q -> chain N' p l q.
Proof.
  revert p. induction l as [|[u ts] l IH]; intros p HN; cbn [chain]; [done|]. intros [E H]. split.
  - rewrite HN; [done|]. apply list_elem_of_here.
  - apply IH; [|done]. intros v Hv. apply HN. by apply list_elem_of_further.
Qed.

Lemma chain_insert N p l q u n : u ∉ l.*1 -> in_bounds N u -> chain N p l q -> chain (<[Z.to_nat u := n]> N) p l q.
Proof.
  intros Hu Hb. apply links_frame. intros v Hv. apply aget_insert_ne; [unfold in_bounds in Hb; lia|]. intros ->. done.
Qed.

Lemma chain_in N p l q u : u ∈ l.*1 -> chain N p l q -> exists n, aget N u = Some n /\ m_bOnList n = true.
Proof.
  revert p. induction l as [|[v ts] l IH]; intros p; cbn; [by intros ?%elem_of_nil|]. intros [->|Hu]%elem_of_cons [E H]; [by eexists|by eapply IH].
Qed.

(** The link of the last node is set. *)
Lemma links_set_next N p l u ts q q' :
  NoDup (l ++ [(u, ts)]).*1 -> chain N p (l ++ [(u, ts)]) q ->
  exists N', aupd N u (with_next q') = Some N' /\ chain N' p (l ++ [(u, ts)]) q' /\ length N' = length N /\ forall v, v <> u -> aget N' v = aget N v.
Proof.
  rewrite fmap_app. intros (HN & Hd & _)%list.NoDup_app (Hl & Hu & _)%ulinks_app. cbn in Hu. pose proof (aget_in_bounds _ _ _ Hu) as Hb. eexists. split; [by apply aupd_Some|].
  assert (u ∉ l.*1) as Hul by (intros H; apply (Hd u H), list_elem_of_here). split_and!.
  - apply ulinks_app. split; [by apply chain_insert|]. cbn. split; [|done]. rewrite aget_insert_eq by done. done.
  - apply length_insert.
  - intros v Hv. apply aget_insert_ne; [unfold in_bounds in Hb; lia|done].
Qed.

(** The link of the first node is set. *)
Lemma links_set_prev N p l u ts q p' :
  NoDup ((u, ts) :: l).*1 -> chain N p ((u, ts) :: l) q ->
  exists N', aupd N u (with_prev p') = Some N' /\ chain N' p' ((u, ts) :: l) q /\ length N' = length N /\ forall v, v <> u -> aget N' v = aget N v.
Proof.
  intros [Hul HN]%list.NoDup_cons [Hu Hl]. pose proof (aget_in_bounds _ _ _ Hu) as Hb. eexists. split; [by apply aupd_Some|]. split_and!.
  - cbn [chain]. split; [by rewrite aget_insert_eq|]. by apply chain_insert.
  - apply length_insert.
  - intros v Hv. apply aget_insert_ne; [unfold in_bounds in Hb; lia|done].
Qed.

Lemma last_of_snoc p l u ts : last_of p (l ++ [(u, ts)]) = Some u.
Proof. by rewrite last_of_app. Qed.

(** A node outside the list is linked behind its last node. *)
Lemma append_chain N l v tv u n :
  NoDup (l ++ [(v, tv)]).*1 -> chain N None (l ++ [(v, tv)]) None -> u ∉ (l ++ [(v, tv)]).*1 -> aget N u = Some n -> m_bOnList n = true ->
  exists N1 N2, aupd N u (with_links (Some v) None) = Some N1 /\ aupd N1 v (with_next (Some u)) = Some N2
    /\ chain N2 None ((l ++ [(v, tv)]) ++ [(u, m_tsTimeStamp n)]) None /\ length N2 = length N
    /\ forall x, x ∉ (l ++ [(v, tv)]).*1 -> x <> u -> aget N2 x = aget N x.
Proof.
  intros HN HC Hu Hn Hb. pose proof (aget_in_bounds _ _ _ Hn) as Hib. assert (0 <= u) by (unfold in_bounds in Hib; lia).
  eexists. rewrite (aupd_Some _ _ n) by done. set (N1 := <[Z.to_nat u := with_links (Some v) None n]> N).
  assert (chain N1 None (l ++ [(v, tv)]) None) as HC1 by (by apply chain_insert).
  destruct (links_set_next N1 None l v tv None (Some u) HN HC1) as (N2 & E2 & HC2 & Hlen & Hfr). exists N2. split; [reflexivity|]. split; [done|].
  assert (v ∈ (l ++ [(v, tv)]).*1) as Hv by (rewrite fmap_app; apply elem_of_app; right; apply list_elem_of_here).
  assert (u <> v) as Huv by congruence. split_and!.
  - apply ulinks_app. split; [done|]. rewrite last_of_snoc. cbn. split; [|done]. rewrite Hfr by done. unfold N1. rewrite aget_insert_eq by done. by rewrite <- Hb.
  - rewrite Hlen. unfold N1. by rewrite length_insert.
  - intros x Hx Hxu. rewrite Hfr by congruence. unfold N1. by rewrite aget_insert_ne by done.
Qed.

Lemma NoDup_snoc (l : entries) u ts : NoDup l.*1 -> u ∉ l.*1 -> NoDup (l ++ [(u, ts)]).*1.
Proof. intros HN Hu. rewrite fmap_app. apply list.NoDup_app. split_and!; [done|intros x Hx ->%list_elem_of_singleton; done|apply NoDup_singleton]. Qed.

(** A node outside the list, marked as on the list, goes to the end. *)
Lemma ulist_insert_rep s l u now n :
  rep s l -> u ∉ l.*1 -> aget (m_nodes s) u = Some n -> m_bOnList n = true ->
  exists s', insert now u s = Some s' /\ rep s' (l ++ [(u, now)]) /\ length (m_nodes s') = length (m_nodes s) /\ forall v, v ∉ l.*1 -> v <> u -> aget (m_nodes s') v = aget (m_nodes s) v.
Proof.
  intros [HN HC HF HL] Hu Hn Hb. pose proof (aget_in_bounds _ _ _ Hn) as Hib. unfold insert, upd. rewrite (aupd_Some _ _ n) by done. cbn [mbind option_bind m_pUList].
  assert (0 <= u) by (unfold in_bounds in Hib; lia). set (N0 := <[Z.to_nat u := with_time now n]> (m_nodes s)).
  assert (aget N0 u = Some (with_time now n)) as Hn0 by (by apply aget_insert_eq).
  destruct l as [|[v tv] l _] using rev_ind.
  - cbn in HF. rewrite HF. cbn [m_nodes]. rewrite (aupd_Some _ _ (with_time now n)) by done. cbn [mbind option_bind]. eexists. split; [reflexivity|]. split_and!; cbn [set_ends m_nodes].
    + constructor; cbn; try done; [apply NoDup_singleton|]. split; [|done]. rewrite aget_insert_eq by (by apply in_bounds_insert). by rewrite <- Hb.
    + unfold N0. by rewrite !length_insert.
    + intros x _ Hx. unfold N0. rewrite !aget_insert_ne by congruence || done. done.
  - assert (exists w, m_pUList s = Some w) as [w Hw] by (rewrite HF, next_of_app; destruct l as [|[]]; by eexists). rewrite Hw. cbn [m_nodes m_pLast]. rewrite HL, last_of_snoc.
    destruct (append_chain N0 l v tv u (with_time now n) HN) as (N1 & N2 & E1 & E2 & HC2 & Hlen & Hfr); [by apply chain_insert|done|done|done|]. rewrite E1. cbn [mbind option_bind m_nodes m_pLast m_pUList]. rewrite E2. cbn [mbind option_bind].
    eexists. split; [reflexivity|]. split_and!; cbn [set_ends m_nodes].
    + constructor; cbn [m_nodes m_pUList m_pLast set_ends]; [by apply NoDup_snoc|done| |by rewrite last_of_snoc]. rewrite <- Hw, HF, !next_of_app. by destruct l as [|[]].
    + rewrite Hlen. unfold N0. by rewrite length_insert.
    + intros x Hx Hxu. rewrite Hfr by done. unfold N0. by rewrite aget_insert_ne by congruence.
Qed.

(** The two nodes around a node are linked to each other. *)
Definition relink (prev next : option Z) (N : list CRNode) : option (list CRNode) :=
  N ← match prev with None => Some N | Some p => aupd N p (with_next next) end;
  match next with None => Some N | Some x => aupd N x (with_prev prev) end.

Lemma relink_chain N a u tu b :
  NoDup (a ++ (u, tu) :: b).*1 -> chain N None (a ++ (u, tu) :: b) None ->
  exists N', relink (last_of None a) (next_of b None) N = Some N' /\ chain N' None (a ++ b) None /\ length N' = length N
    /\ forall v, v ∉ (a ++ b).*1 -> aget N' v = aget N v.
Proof.
  rewrite fmap_app, fmap_cons. intros (Hna & Hd & [Hub Hnb]%list.NoDup_cons)%list.NoDup_app (Ha & _ & Hb)%ulinks_app. cbn [next_of] in Ha.
  assert (exists N1, match last_of None a with None => Some N | Some p => aupd N p (with_next (next_of b None)) end = Some N1 /\ chain N1 None a (next_of b None)
    /\ chain N1 (Some u) b None /\ length N1 = length N /\ forall v, v ∉ a.*1 -> aget N1 v = aget N v) as (N1 & E1 & Ha1 & Hb1 & Hl1 & Hf1).
  { destruct a as [|[p tp] a _] using rev_ind; [by exists N|]. rewrite last_of_snoc. destruct (links_set_next N None a p tp (Some u) (next_of b None) Hna Ha) as (N1 & E & HC & Hl & Hf). exists N1. split_and!; try done.
    - apply (links_frame N); [|done]. intros v Hv. apply Hf. intros ->. apply (Hd p); [rewrite fmap_app; apply elem_of_app; right; apply list_elem_of_here|by apply list_elem_of_further].
    - intros v Hv. apply Hf. intros ->. apply Hv. rewrite fmap_app. apply elem_of_app. right. apply list_elem_of_here. }
  unfold relink. rewrite E1. cbn [mbind option_bind].
  destruct b as [|[x tx] b].
  - cbn [next_of]. exists N1. rewrite app_nil_r. by split_and!.
  - cbn [next_of] in *. destruct (links_set_prev N1 (Some u) b x tx None (last_of None a) Hnb Hb1) as (N2 & E & HC & Hl & Hf). exists N2. split; [done|]. split_and!.
    + apply ulinks_app. split; [|done]. apply (links_frame N1); [|done]. intros v Hv. apply Hf. intros ->. apply (Hd x Hv). apply list_elem_of_further, list_elem_of_here.
    + congruence.
    + intros v Hv. rewrite fmap_app in Hv. rewrite Hf, Hf1; [done| |]; [set_solver|]. intros ->. apply Hv. apply elem_of_app. right. apply list_elem_of_here.
Qed.

Lemma entry_split (l : entries) u : u ∈ l.*1 -> exists a tu b, l = a ++ (u, tu) :: b.
Proof. intros ([u' tu] & -> & Hin)%list_elem_of_fmap. apply list_elem_of_split in Hin as (a & b & ->). by exists a, tu, b. Qed.

(** The list without a socket. *)
Definition without (u : Z) (l : entries) : entries := filter (fun e => e.1 <> u) l.

Lemma without_absent u (l : entries) : u ∉ l.*1 -> without u l = l.
Proof.
  unfold without. induction l as [|[v tv] l IH]; [done|]. rewrite fmap_cons, not_elem_of_cons. intros [H1 H2]. rewrite filter_cons_True by (cbn in *; congruence). f_equal. by apply IH.
Qed.

Lemma without_split u tu (a b : entries) : NoDup (a ++ (u, tu) :: b).*1 -> without u (a ++ (u, tu) :: b) = a ++ b.
Proof.
  rewrite fmap_app, fmap_cons. intros (_ & Hd & [Hb _]%list.NoDup_cons)%list.NoDup_app. unfold without. rewrite list.filter_app, filter_cons_False by (cbn; tauto).
  f_equal; [|by apply (without_absent u b)]. apply (without_absent u a). intros H. by apply (Hd u H), list_elem_of_here.
Qed.

Lemma NoDup_without u (l : entries) : NoDup l.*1 -> NoDup (without u l).*1 /\ u ∉ (without u l).*1.
Proof.
  intros HN. unfold without. split.
  - induction l as [|[v tv] l IH]; [constructor|]. apply list.NoDup_cons in HN as [Hv HN]. destruct (decide (v = u)) as [->|Hne].
    + rewrite filter_cons_False by (cbn; tauto). by apply IH.
    + rewrite filter_cons_True by done. rewrite fmap_cons. apply list.NoDup_cons. split; [|by apply IH]. intros ([x tx] & E & [_ Hin]%list_elem_of_filter)%list_elem_of_fmap. apply Hv. cbn in *. subst x. apply list_elem_of_fmap. by exists (v, tx).
  - intros ([x tx] & E & [Hx _]%list_elem_of_filter)%list_elem_of_fmap. cbn in *. congruence.
Qed.

(** What the queue does after [relink]: the ends of the list. *)
Lemma ends_of (a b : entries) p0 u tu (first last : option Z) :
  first = next_of (a ++ (u, tu) :: b) None -> last = last_of p0 (a ++ (u, tu) :: b) ->
  next_of (a ++ b) None = match last_of None a with None => next_of b None | Some _ => first end
  /\ last_of None (a ++ b) = match next_of b None with None => last_of None a | Some _ => last end.
Proof.
  intros -> ->. split.
  - destruct a as [|[v tv] a]; [done|]. cbn [last_of app next_of]. assert (exists w, last_of (Some v) a = Some w) as [w ->]; [|done].
    clear. revert v. induction a as [|[x tx] a IH]; intros v; [by eexists|]. apply IH.
  - rewrite !last_of_app. cbn [last_of]. destruct b as [|[v tv] b]; done.
Qed.

Lemma ulist_remove_rep s l u :
  rep s l -> u ∈ l.*1 ->
  exists s', remove u s = Some s' /\ rep s' (without u l) /\ length (m_nodes s') = length (m_nodes s)
    /\ (exists n, aget (m_nodes s') u = Some n) /\ forall v, v ∉ l.*1 -> aget (m_nodes s') v = aget (m_nodes s) v.
Proof.
  intros [HN HC HF HL] Hu. destruct (entry_split l u Hu) as (a & tu & b & ->). pose proof (without_split u tu a b HN) as Hw.
  destruct (relink_chain _ a u tu b HN HC) as (N' & ER & HC' & Hlen & Hfr). destruct (ends_of a b None u tu _ _ HF HL) as [E1 E2].
  assert (u ∉ (a ++ b).*1) as Hnu by (rewrite <- Hw; by apply NoDup_without).
  apply ulinks_app in HC as (_ & Hn & _). cbn [chain] in Hn. unfold remove. rewrite Hn. cbn [mbind option_bind m_bOnList negb m_pPrev m_pNext].
  assert (exists s1, match last_of None a with
    | None => match next_of b None with None => Some (set_ends None None s) | Some next => s ← upd next (with_prev None) s; Some (set_ends (Some next) (m_pLast s) s) end
    | Some prev => s ← upd prev (with_next (next_of b None)) s; match next_of b None with None => Some (set_ends (m_pUList s) (Some prev) s) | Some next => upd next (with_prev (Some prev)) s end
    end = Some s1 /\ m_nodes s1 = N' /\ m_pUList s1 = next_of (a ++ b) None /\ m_pLast s1 = last_of None (a ++ b)) as (s1 & -> & EN & EF & EL).
  { rewrite E1, E2. unfold relink in ER. unfold upd. destruct (last_of None a) as [p|], (next_of b None) as [x|]; cbn [mbind option_bind] in *; bind_inv; rewrite ?ER; cbn [mbind option_bind]; try (eexists; split; [reflexivity|]; by split_and!).
    all: match goal with H : aupd _ _ _ = Some _ |- _ => rewrite H end; cbn [mbind option_bind m_nodes m_pUList m_pLast] in *; rewrite ?ER; cbn [mbind option_bind]; eexists; split; [reflexivity|]; split_and!; try done; by simplify_eq. }
  cbn [mbind option_bind]. unfold upd. rewrite EN. rewrite (aupd_Some _ _ (mkNode tu (last_of None a) (next_of b None) true)) by (by rewrite Hfr). cbn [mbind option_bind]. eexists. split; [reflexivity|].
  assert (in_bounds N' u) as Hb by (eapply aget_in_bounds; by rewrite Hfr). rewrite Hw. split_and!; cbn [m_nodes].
  - constructor; cbn [m_nodes m_pUList m_pLast]; [rewrite <- Hw; by apply NoDup_without|by apply chain_insert|done|done].
  - rewrite length_insert. done.
  - rewrite aget_insert_eq by done. by eexists.
  - intros v Hv. rewrite aget_insert_ne; [| |intros ->; by apply Hv]; [|unfold in_bounds in Hb; lia]. apply Hfr. intros Hin. apply Hv. rewrite fmap_app in *. set_solver.
Qed.

(** The time of a node does not matter for its links. *)
Lemma ulist_update_rep s l u now :
  rep s l -> u ∈ l.*1 ->
  exists s', update now u s = Some s' /\ rep s' (without u l ++ [(u, now)]) /\ length (m_nodes s') = length (m_nodes s)
    /\ forall v, v ∉ l.*1 -> aget (m_nodes s') v = aget (m_nodes s) v.
Proof.
  intros [HN HC HF HL] Hu. destruct (entry_split l u Hu) as (a & tu & b & ->). pose proof (without_split u tu a b HN) as Hw.
  assert (u ∉ (a ++ b).*1 /\ NoDup (a ++ b).*1) as [Hnu HNab] by (rewrite <- Hw; split; by apply NoDup_without).
  pose proof HC as (Ha & Hn & Hb)%ulinks_app. cbn [chain] in Hn. pose proof (aget_in_bounds _ _ _ Hn) as Hib. unfold update. rewrite Hn. cbn [mbind option_bind m_bOnList negb m_pPrev m_pNext].
  set (N0 := <[Z.to_nat u := mkNode now (last_of None a) (next_of b None) true]> (m_nodes s)).
  assert (upd u (with_time now) s = Some (mk N0 (m_pUList s) (m_pLast s))) as -> by (unfold upd; by rewrite (aupd_Some _ _ _ _ Hn)). cbn [mbind option_bind].
  assert (aget N0 u = Some (mkNode now (last_of None a) (next_of b None) true)) as Hn0 by (unfold N0; by rewrite aget_insert_eq).
  assert (chain N0 None (a ++ (u, now) :: b) None) as HC0.
  { apply ulinks_app. split; [apply chain_insert; [rewrite fmap_app in Hnu; set_solver|done|done]|]. cbn [chain]. split; [done|]. apply chain_insert; [rewrite fmap_app in Hnu; set_solver|done|done]. }
  assert (NoDup (a ++ (u, now) :: b).*1) as HN0 by (rewrite fmap_app in *; exact HN).
  destruct (relink_chain N0 a u now b HN0 HC0) as (N' & ER & HC' & Hlen & Hfr). rewrite Hw. unfold relink in ER.
  assert (forall v, v ∉ (a ++ (u, tu) :: b).*1 -> v <> u /\ v ∉ (a ++ b).*1) as Hout by (rewrite !fmap_app, fmap_cons; intros v; rewrite not_elem_of_app, not_elem_of_app, not_elem_of_cons; tauto).
  destruct b as [|[x tx] b _] using rev_ind.
  - cbn [next_of] in *. rewrite app_nil_r in *. eexists. split; [reflexivity|]. split_and!; cbn [m_nodes].
    + constructor; cbn [m_nodes m_pUList m_pLast]; [done|done|rewrite HF, !next_of_app; done|rewrite HL, !last_of_app; done].
    + apply length_insert.
    + intros v Hv. apply aget_insert_ne; [unfold in_bounds in Hib; lia|]. by destruct (Hout v Hv).
  - assert (exists y, next_of (b ++ [(x, tx)]) None = Some y) as [y Hy] by (rewrite next_of_app; destruct b as [|[]]; by eexists). rewrite Hy in *.
    destruct (ends_of a (b ++ [(x, tx)]) None u tu _ _ HF HL) as [E1 E2]. rewrite Hy in E1, E2. rewrite (assoc_L (++)) in *.
    assert (m_pLast s = Some x) as ELx by (rewrite <- E2, last_of_snoc; done).
    destruct (append_chain N' (a ++ b) x tx u (mkNode now (last_of None a) (Some y) true)) as (N1 & N2 & F1 & F2 & HC2 & Hl2 & Hf2); [done|done|done|by rewrite Hfr|done|].
    assert (exists s1, match last_of None a with
      | None => s ← upd y (with_prev None) (mk N0 (m_pUList s) (m_pLast s)); Some (set_ends (Some y) (m_pLast s) s)
      | Some prev => s ← upd prev (with_next (Some y)) (mk N0 (m_pUList s) (m_pLast s)); upd y (with_prev (Some prev)) s
      end = Some s1 /\ m_nodes s1 = N' /\ m_pUList s1 = next_of ((a ++ b) ++ [(x, tx)]) None /\ m_pLast s1 = Some x) as (s1 & -> & EN & EF & EL).
    { rewrite E1. unfold upd. cbn [m_nodes m_pUList m_pLast]. destruct (last_of None a) as [p|]; cbn [mbind option_bind] in *; bind_inv; rewrite ?ER; cbn [mbind option_bind].
      - match goal with H : aupd _ _ _ = Some _ |- _ => rewrite H end. cbn [mbind option_bind m_nodes m_pUList m_pLast]. rewrite ER. cbn [mbind option_bind]. eexists. split; [reflexivity|]. by split_and!.
      - eexists. split; [reflexivity|]. by split_and!. }
    cbn [mbind option_bind]. unfold upd. rewrite EN, EL, F1. cbn [mbind option_bind m_nodes m_pUList m_pLast]. rewrite F2. cbn [mbind option_bind]. eexists. split; [reflexivity|]. split_and!; cbn [set_ends m_nodes].
    + constructor; cbn [m_nodes m_pUList m_pLast set_ends]; [by apply NoDup_snoc|done| |by rewrite last_of_snoc]. rewrite EF, !next_of_app. by destruct a as [|[]], b as [|[]].
    + rewrite Hl2, Hlen. unfold N0. by rewrite length_insert.
    + intros v Hv. destruct (Hout v Hv) as [H1 H2]. rewrite Hf2, Hfr by done. unfold N0. apply aget_insert_ne; [unfold in_bounds in Hib; lia|done].
Qed.

End RcvUList.

(** ** The table of sockets *)

Section Hash.

Import CHash.

Record hash_rep (h : t) (m : gmap Z Z) : Prop := mkHash {
  hr_size : 0 < m_iHashSize h /\ Z.of_nat (length (m_pBucket h)) = m_iHashSize h;
  hr_nodup : Forall (fun b => NoDup b.*1) (m_pBucket h);
  hr_lookup : forall id, 0 <= id -> lookup id h = Some (m !! id)
}.

Lemma find_None id b : find id b = None <-> id ∉ b.*1.
Proof.
  induction b as [|[i u] b IH]; cbn [find]; [split; [intros _ ?%elem_of_nil; done|done]|]. rewrite fmap_cons, not_elem_of_cons. cbn. destruct (Z.eqb_spec id i); [split; [done|tauto]|]. rewrite IH. tauto.
Qed.

Lemma find_unlink id b : NoDup b.*1 -> find id (unlink id b) = None.
Proof.
  induction b as [|[i u] b IH]; cbn [unlink]; [done|]. intros [Hi HN]%list.NoDup_cons. destruct (Z.eqb_spec id i) as [->|Hne]; [by apply find_None|]. cbn [find]. destruct (Z.eqb_spec id i); [done|]. by apply IH.
Qed.

Lemma find_unlink_ne id id' b : id' <> id -> find id' (unlink id b) = find id' b.
Proof.
  intros Hne. induction b as [|[i u] b IH]; cbn [unlink]; [done|]. destruct (Z.eqb_spec id i) as [->|Hi]; cbn [find].
  - by destruct (Z.eqb_spec id' i).
  - by rewrite IH.
Qed.

Lemma NoDup_unlink id b : NoDup b.*1 -> NoDup (unlink id b).*1.
Proof.
  induction b as [|[i u] b IH]; cbn [unlink]; [done|]. intros [Hi HN]%list.NoDup_cons. destruct (Z.eqb_spec id i); [done|]. rewrite fmap_cons. apply list.NoDup_cons. split; [|by apply IH]. cbn in *.
  apply find_None. rewrite find_unlink_ne by done. by apply find_None.
Qed.

Lemma slot_bounds h m id : hash_rep h m -> 0 <= id -> in_bounds (m_pBucket h) (Z.rem id (m_iHashSize h)).
Proof. intros [[Hs Hl] _ _] Hid. unfold in_bounds. rewrite Hl. apply Z.rem_bound_pos; lia. Qed.

(** A change of the bucket of [id] that changes only what is found for [id]. *)
Lemma bucket_change h m id f r :
  hash_rep h m -> 0 <= id -> (forall b, NoDup b.*1 -> find id b = m !! id -> NoDup (f b).*1 /\ find id (f b) = r /\ forall id', id' <> id -> find id' (f b) = find id' b) ->
  exists a, aupd (m_pBucket h) (Z.rem id (m_iHashSize h)) f = Some a /\ hash_rep (mk a (m_iHashSize h)) (partial_alter (fun _ => r) id m).
Proof.
  intros HR Hid Hf. pose proof (slot_bounds h m id HR Hid) as Hb. destruct (aget_is_Some _ _ Hb) as [b Eb]. eexists. split; [by apply aupd_Some|]. destruct HR as [[Hs Hl] HN HL].
  assert (NoDup b.*1) as Hnb by (rewrite Forall_lookup in HN; unfold aget in Eb; destruct (0 <=? _); [by eapply HN|done]).
  assert (find id b = m !! id) as Efd by (specialize (HL id Hid); unfold lookup in HL; rewrite Eb in HL; cbn in HL; congruence).
  destruct (Hf b Hnb Efd) as (Hn' & Hr & Ho). constructor; cbn [m_pBucket m_iHashSize].
  - by rewrite length_insert.
  - by apply Forall_insert.
  - intros id' Hid'. unfold lookup. cbn [m_pBucket m_iHashSize]. destruct (decide (Z.rem id' (m_iHashSize h) = Z.rem id (m_iHashSize h))) as [E|E].
    + rewrite E, aget_insert_eq by done. cbn [mbind option_bind]. destruct (decide (id' = id)) as [->|Hne]; [by rewrite lookup_partial_alter_eq, Hr|].
      rewrite Ho, lookup_partial_alter_ne by done. specialize (HL id' Hid'). unfold lookup in HL. rewrite E, Eb in HL. exact HL.
    + rewrite aget_insert_ne by (unfold in_bounds in Hb; congruence || lia). rewrite lookup_partial_alter_ne by congruence. by apply HL.
Qed.

Lemma hash_insert h m id u : hash_rep h m -> 0 <= id -> m !! id = None -> exists h', insert id u h = Some h' /\ hash_rep h' (<[id := u]> m).
Proof.
  intros HR Hid Hm. destruct (bucket_change h m id (cons (id, u)) (Some u) HR Hid) as (a & E & HR').
  { intros b Hb Hf. rewrite Hm in Hf. cbn [find]. rewrite Z.eqb_refl. split_and!; [|done|].
    - rewrite fmap_cons. apply list.NoDup_cons. split; [by apply find_None|done].
    - intros id' Hne. by destruct (Z.eqb_spec id' id). }
  unfold insert. rewrite E. cbn [mbind option_bind]. by eexists.
Qed.

Lemma hash_remove h m id : hash_rep h m -> 0 <= id -> exists h', remove id h = Some h' /\ hash_rep h' (delete id m).
Proof.
  intros HR Hid. destruct (bucket_change h m id (unlink id) None HR Hid) as (a & E & HR').
  { intros b Hb _. split_and!; [by apply NoDup_unlink|by apply find_unlink|]. intros id' Hne. by apply find_unlink_ne. }
  unfold remove. rewrite E. cbn [mbind option_bind]. by eexists.
Qed.

Lemma hash_init n : 0 < n -> hash_rep (init n) ∅.
Proof.
  intros Hn. constructor; cbn [init m_pBucket m_iHashSize].
  - rewrite length_replicate. lia.
  - apply Forall_replicate. constructor.
  - intros id Hid. unfold lookup. cbn [init m_pBucket m_iHashSize]. rewrite lookup_empty. unfold aget. pose proof (Z.rem_bound_pos id n Hid Hn). destruct (Z.leb_spec 0 (Z.rem id n)); [|lia].
    rewrite lookup_replicate_2 by lia. done.
Qed.

End Hash.
