(* ===== verification/RcvQueue.v ===== *)
(** * The receiving queue (srtcore/queue.h, queue.cpp)

    [CRcvQueue] reads the datagrams of one UDP socket and hands them to the sockets
    that share it; [CRendezvousQueue] is the list of those that are still
    connecting. One iteration of the worker thread: take in the sockets that have
    connected, find a unit for the next packet, hand the packet on, serve the timers
    of the sockets, go on with the connecting ones.

    A socket is its index; the addresses are numbers. What the sockets do when they
    are called is not part of the queue: the calls are returned in their order, and
    [answers] says what they return. Their effects on the queue (a socket connects,
    closes or breaks) are operations here. The datagram read from the channel and
    the verdict of the SRTLA receiver on it are arguments. Proofs are in
    RcvQueueSpec.v. *)

From S2P Require Import Prelude Packet Queue.

Module CRcvQueue.

Inductive EConnectStatus := CONN_ACCEPT | CONN_REJECT | CONN_CONTINUE | CONN_RENDEZVOUS | CONN_CONFUSED | CONN_RUNNING | CONN_AGAIN.
Inductive EReadStatus := RST_OK | RST_AGAIN | RST_ERROR.

#[global] Instance EConnectStatus_eq_dec : EqDecision EConnectStatus.
Proof. solve_decision. Defined.
#[global] Instance EReadStatus_eq_dec : EqDecision EReadStatus.
Proof. solve_decision. Defined.

Definition SRT_REJ_CLOSE : Z := 7.
Definition SRT_REJ_TIMEOUT : Z := 16.
Definition SRT_SUCCESS : Z := 0.
Definition SRT_ENOSERVER : Z := 1001.
Definition SRT_ECONNREJ : Z := 1002.

Definition COMM_SYN_INTERVAL_US : Z := 10 * 1000.

(** What the queue reads and writes of a socket. *)
Record socket := mkSock {
  m_SocketID : Z;
  m_PeerAddr : Z;
  m_bConnected : bool;
  m_bBroken : bool;
  m_bClosing : bool;
  m_bConnecting : bool;
  bSRTLA : bool;
  bSynRecving : bool;
  bRendezvous : bool;
  m_RejectReason : Z;
  m_tsLastReqTime : Z                   (** 0 is [time_point()] *)
}.

Definition with_state (connected broken closing : bool) (k : socket) : socket :=
  mkSock (m_SocketID k) (m_PeerAddr k) connected broken closing (m_bConnecting k) (bSRTLA k) (bSynRecving k) (bRendezvous k) (m_RejectReason k) (m_tsLastReqTime k).
Definition with_connecting (v : bool) (k : socket) : socket :=
  mkSock (m_SocketID k) (m_PeerAddr k) (m_bConnected k) (m_bBroken k) (m_bClosing k) v (bSRTLA k) (bSynRecving k) (bRendezvous k) (m_RejectReason k) (m_tsLastReqTime k).
Definition with_reject (v : Z) (k : socket) : socket :=
  mkSock (m_SocketID k) (m_PeerAddr k) (m_bConnected k) (m_bBroken k) (m_bClosing k) (m_bConnecting k) (bSRTLA k) (bSynRecving k) (bRendezvous k) v (m_tsLastReqTime k).
Definition with_reqtime (v : Z) (k : socket) : socket :=
  mkSock (m_SocketID k) (m_PeerAddr k) (m_bConnected k) (m_bBroken k) (m_bClosing k) (m_bConnecting k) (bSRTLA k) (bSynRecving k) (bRendezvous k) (m_RejectReason k) v.

Record CRL := mkCRL { r_iID : Z; r_pUDT : Z; r_PeerAddr : Z; r_tsTTL : Z }.

Record t := mk {
  m_sockets : list socket;
  m_pUnitQueue : CUnitQueue.t;
  m_pRcvUList : CRcvUList.t;
  m_pHash : CHash.t;
  m_pListener : option Z;
  m_lRendezvousID : list CRL;
  m_vNewEntry : list Z;
  m_mBuffer : gmap Z (list CPacket.t)
}.

Definition set_sockets (x : list socket) (q : t) : t := mk x (m_pUnitQueue q) (m_pRcvUList q) (m_pHash q) (m_pListener q) (m_lRendezvousID q) (m_vNewEntry q) (m_mBuffer q).
Definition set_units (x : CUnitQueue.t) (q : t) : t := mk (m_sockets q) x (m_pRcvUList q) (m_pHash q) (m_pListener q) (m_lRendezvousID q) (m_vNewEntry q) (m_mBuffer q).
Definition set_lists (l : CRcvUList.t) (h : CHash.t) (q : t) : t := mk (m_sockets q) (m_pUnitQueue q) l h (m_pListener q) (m_lRendezvousID q) (m_vNewEntry q) (m_mBuffer q).
Definition set_listener (x : option Z) (q : t) : t := mk (m_sockets q) (m_pUnitQueue q) (m_pRcvUList q) (m_pHash q) x (m_lRendezvousID q) (m_vNewEntry q) (m_mBuffer q).
Definition set_connectors (x : list CRL) (q : t) : t := mk (m_sockets q) (m_pUnitQueue q) (m_pRcvUList q) (m_pHash q) (m_pListener q) x (m_vNewEntry q) (m_mBuffer q).
Definition set_entries (x : list Z) (q : t) : t := mk (m_sockets q) (m_pUnitQueue q) (m_pRcvUList q) (m_pHash q) (m_pListener q) (m_lRendezvousID q) x (m_mBuffer q).
Definition set_buffer (x : gmap Z (list CPacket.t)) (q : t) : t := mk (m_sockets q) (m_pUnitQueue q) (m_pRcvUList q) (m_pHash q) (m_pListener q) (m_lRendezvousID q) (m_vNewEntry q) x.

Definition upd_socket (u : Z) (f : socket -> socket) (q : t) : option t := a ← aupd (m_sockets q) u f; Some (set_sockets a q).

(** The calls of the queue on the sockets. *)
Inductive call :=
| ProcessConnectRequest (u : Z) (p : CPacket.t)
| ProcessAsyncConnectResponse (u : Z) (p : CPacket.t)
| ProcessAsyncConnectRequest (u : Z) (rst : EReadStatus) (cst : EConnectStatus)
| ProcessCtrl (u : Z) (p : CPacket.t)
| ProcessData (u : Z) (p : CPacket.t)
| CheckTimers (u : Z)
| SendShutdown (u : Z)
| UpdateEvents (u : Z)
| CompleteBrokenConnection (u : Z) (errorcode : Z).

(** What they answer. [accepted]: the socket has connected during the call
    ([postConnect]). [keepsUnit]: the socket's buffer keeps the packet. *)
Record answers := mkAnswers {
  on_connect_request : t -> Z -> CPacket.t -> Z;
  on_connect_response : t -> Z -> CPacket.t -> EConnectStatus * bool;
  on_connect_resend : t -> Z -> EReadStatus -> EConnectStatus -> bool * bool * Z;     (** and the new [m_tsLastReqTime] *)
  keepsUnit : t -> Z -> CPacket.t -> bool;
  exists_socket : Z -> bool                                                         (** [SocketKeeper] finds the ID *)
}.

(** A computation on the queue: its calls are collected; [None] is an access out of
    bounds, or a recursion that does not end. *)
Definition M (A : Type) : Type := t -> option (A * list call * t).
#[global] Instance M_ret : MRet M := fun A a q => Some (a, [], q).
#[global] Instance M_bind : MBind M := fun A B f m q =>
  match m q with
  | Some (a, e, q) => match f a q with Some (b, e', q) => Some (b, e ++ e', q) | None => None end
  | None => None
  end.

Definition get : M t := fun q => Some (q, [], q).
Definition modify (f : t -> t) : M unit := fun q => Some (tt, [], f q).
Definition emit (e : call) : M unit := fun q => Some (tt, [e], q).
Definition update (f : t -> option t) : M unit := fun q => q ← f q; Some (tt, [], q).
Definition fail {A} : M A := fun _ => None.
Definition ask {A} (f : t -> option A) : M A := fun q => a ← f q; Some (a, [], q).
Definition sock (u : Z) : M socket := ask (fun q => aget (m_sockets q) u).

(** [init]: [qsize] units, [hsize] buckets. *)
Definition init (qsize hsize : Z) (socks : list socket) : t :=
  mk socks (CUnitQueue.create qsize) (CRcvUList.create (replicate (length socks) (CRcvUList.mkNode 0 None None false))) (CHash.init hsize) None [] [] ∅.

(** ** The lists *)

(** [postConnect] and [acceptAndRespond]: the socket is connected and its node is
    marked before it becomes a new entry. *)
Definition setNewEntry (u : Z) (q : t) : option t :=
  q ← upd_socket u (fun k => with_state true (m_bBroken k) (m_bClosing k) k) q;
  n ← aupd (CRcvUList.m_nodes (m_pRcvUList q)) u (fun n => CRcvUList.mkNode (CRcvUList.m_tsTimeStamp n) (CRcvUList.m_pPrev n) (CRcvUList.m_pNext n) true);
  Some (set_entries (m_vNewEntry q ++ [u]) (set_lists (CRcvUList.mk n (CRcvUList.m_pUList (m_pRcvUList q)) (CRcvUList.m_pLast (m_pRcvUList q))) (m_pHash q) q)).

Definition getNewEntry : M (option Z) :=
  q ← get;
  match m_vNewEntry q with [] => mret None | u :: rest => modify (set_entries rest);; mret (Some u) end.

(** A new entry goes to the list and to the table. *)
Definition enlist (now u : Z) (q : t) : option t :=
  k ← aget (m_sockets q) u;
  l ← CRcvUList.insert now u (m_pRcvUList q);
  h ← CHash.insert (m_SocketID k) u (m_pHash q);
  Some (set_lists l h q).

Definition removeFromLists (u : Z) (q : t) : option t :=
  k ← aget (m_sockets q) u;
  h ← CHash.remove (m_SocketID k) (m_pHash q);
  l ← CRcvUList.remove u (m_pRcvUList q);
  n ← aupd (CRcvUList.m_nodes l) u (fun n => CRcvUList.mkNode (CRcvUList.m_tsTimeStamp n) (CRcvUList.m_pPrev n) (CRcvUList.m_pNext n) false);
  Some (set_lists (CRcvUList.mk n (CRcvUList.m_pUList l) (CRcvUList.m_pLast l)) h q).

Definition touch (now u : Z) (q : t) : option t := l ← CRcvUList.update now u (m_pRcvUList q); Some (set_lists l (m_pHash q) q).

Definition setListener (u : Z) (q : t) : bool * t := match m_pListener q with None => (true, set_listener (Some u) q) | Some _ => (false, q) end.
Definition removeListener (u : Z) (q : t) : bool * t := if decide (m_pListener q = Some u) then (true, set_listener None q) else (false, q).

(** ** The connecting sockets *)

Definition rdv_insert (id u addr ttl : Z) (l : list CRL) : list CRL := l ++ [mkCRL id u addr ttl].

Fixpoint rdv_remove (id : Z) (l : list CRL) : list CRL :=
  match l with [] => [] | r :: rest => if r_iID r =? id then rest else r :: rdv_remove id rest end.

(** The socket found and its ID. *)
Fixpoint rdv_retrieve (socks : list socket) (addr id : Z) (l : list CRL) : option (option (Z * Z)) :=
  match l with
  | [] => Some None
  | r :: rest =>
    if (r_PeerAddr r =? addr) && ((id =? 0) || (id =? r_iID r)) then
      k ← aget socks (r_pUDT r);
      if (id =? 0) && negb (bRendezvous k) then rdv_retrieve socks addr id rest
      else Some (Some (r_pUDT r, r_iID r))
    else rdv_retrieve socks addr id rest
  end.

Definition registerConnector (id u addr ttl : Z) (q : t) : t := set_connectors (rdv_insert id u addr ttl (m_lRendezvousID q)) q.

Definition removeConnector (id : Z) (q : t) : t := set_buffer (delete id (m_mBuffer q)) (set_connectors (rdv_remove id (m_lRendezvousID q)) q).

(** ** Packets that wait for a socket *)

Definition storePktClone (id : Z) (p : CPacket.t) (q : t) : t :=
  match m_mBuffer q !! id with
  | None => set_buffer (<[id := [p]]> (m_mBuffer q)) q
  | Some l => if 16 <? Z.of_nat (length l) then q else set_buffer (<[id := l ++ [p]]> (m_mBuffer q)) q
  end.

(** After the wait for a packet; [size] is the room of the caller's packet. The code
    dereferences the front of the queue, which is undefined for an empty one. *)
Definition recvfrom (id size : Z) (q : t) : option (Z * option CPacket.t * t) :=
  match m_mBuffer q !! id with
  | None => Some (-1, None, q)
  | Some l =>
    p ← head l;
    if size <? CPacket.getLength p then Some (-1, None, q)
    else
      let rest := tail l in
      Some (CPacket.getLength p, Some p, set_buffer (if decide (rest = []) then delete id (m_mBuffer q) else <[id := rest]> (m_mBuffer q)) q)
  end.

(** ** Handing on a packet *)

Section Worker.

Variable env : answers.

(** The unit the packet is in. *)
Variable place : nat * nat.

Definition take_unit (q : t) : option t := x ← CUnitQueue.makeUnitTaken place (m_pUnitQueue q); Some (set_units x q).

(** A packet with the ID of a connected socket. [other]: what is done when there is
    none. *)
Definition addressed (now : Z) (other : Z -> CPacket.t -> Z -> M EConnectStatus) (id : Z) (pkt : CPacket.t) (addr : Z) : M EConnectStatus :=
  u ← ask (fun q => CHash.lookup id (m_pHash q));
  match u with
  | None => other id pkt addr
  | Some u =>
    k ← sock u;
    if negb (addr =? m_PeerAddr k) && negb (bSRTLA k) then mret CONN_AGAIN
    else if negb (m_bConnected k) || m_bBroken k || m_bClosing k then
      update (upd_socket u (with_reject SRT_REJ_CLOSE));; mret CONN_REJECT
    else
      q ← get;
      (if CPacket.isControl pkt then emit (ProcessCtrl u pkt)
       else emit (ProcessData u pkt);; if keepsUnit env q u pkt then update take_unit else mret tt);;
      emit (CheckTimers u);;
      update (touch now u);;
      mret CONN_RUNNING
  end.

(** The socket has connected: it becomes a new entry and is no longer a connector. *)
Definition postConnect (u id : Z) : M unit := update (setNewEntry u);; modify (removeConnector id).

(** A packet for a connecting socket. When the packet is the first data of a socket that
    connects, it is handed on once more; [clk n] is the time [n] levels above the end of
    the recursion. *)
Fixpoint worker_TryAsyncRend_OrStore (clk : nat -> Z) (fuel : nat) (id : Z) (pkt : CPacket.t) (addr : Z) : M EConnectStatus :=
  match fuel with
  | O => fail
  | S f =>
    r ← ask (fun q => rdv_retrieve (m_sockets q) addr id (m_lRendezvousID q));
    match r with
    | None => mret CONN_AGAIN
    | Some (u, id) =>
      k ← sock u;
      if negb (bSynRecving k) then
        q ← get;
        let '(cst, accepted) := on_connect_response env q u pkt in
        emit (ProcessAsyncConnectResponse u pkt);;
        (if accepted : bool then postConnect u (m_SocketID k) else mret tt);;
        update (upd_socket u (with_reqtime 0));;
        cst ← (if decide (cst = CONN_CONFUSED) then
                 modify (storePktClone id pkt);;
                 q ← get;
                 let '(ok, accepted, req) := on_connect_resend env q u RST_AGAIN CONN_CONTINUE in
                 emit (ProcessAsyncConnectRequest u RST_AGAIN CONN_CONTINUE);;
                 update (upd_socket u (with_reqtime req));;
                 (if accepted : bool then postConnect u (m_SocketID k) else mret tt);;
                 mret (if ok : bool then CONN_CONTINUE else CONN_REJECT)
               else mret cst);
        if decide (cst = CONN_ACCEPT) then
          if CPacket.isControl pkt then mret cst
          else
            ne ← getNewEntry;
            match ne with
            | Some ne =>
              update (enlist (clk fuel) ne);;
              cst ← addressed (clk f) (worker_TryAsyncRend_OrStore clk f) id pkt addr;
              mret (if decide (cst = CONN_REJECT) then cst else CONN_ACCEPT)
            | None => mret cst
            end
        else mret cst
      else
        modify (storePktClone id pkt);;
        mret CONN_CONTINUE
    end
  end.

Definition worker_ProcessAddressedPacket (clk : nat -> Z) (fuel : nat) (id : Z) (pkt : CPacket.t) (addr : Z) : M EConnectStatus :=
  addressed (clk fuel) (worker_TryAsyncRend_OrStore clk fuel) id pkt addr.

Definition worker_ProcessConnectionRequest (clk : nat -> Z) (fuel : nat) (pkt : CPacket.t) (addr : Z) : M EConnectStatus :=
  q ← get;
  match m_pListener q with
  | Some u =>
    emit (ProcessConnectRequest u pkt);;
    mret (if on_connect_request env q u pkt =? SRT_REJ_UNKNOWN then CONN_CONTINUE else CONN_REJECT)
  | None => worker_TryAsyncRend_OrStore clk fuel 0 pkt addr
  end.

(** ** Serving the timers *)

(** The loop over the sockets that were not served for 10 ms. *)
Fixpoint serve (fuel : nat) (clk : nat -> Z) (limit : Z) : M unit :=
  q ← get;
  match CRcvUList.m_pUList (m_pRcvUList q) with
  | None => mret tt
  | Some u =>
    n ← ask (fun q => aget (CRcvUList.m_nodes (m_pRcvUList q)) u);
    if negb (CRcvUList.m_tsTimeStamp n <? limit) then mret tt
    else
      match fuel with
      | O => fail
      | S f =>
        k ← sock u;
        (if m_bConnected k && negb (m_bBroken k) && negb (m_bClosing k) then emit (CheckTimers u);; update (touch (clk fuel) u)
         else update (removeFromLists u));;
        serve f clk limit
      end
  end.

(** ** Going on with the connecting sockets *)

Record LinkStatusInfo := mkInfo { i_u : Z; i_id : Z; i_errorcode : Z; i_peeraddr : Z }.

(** One turn of the loop of [qualifyToHandle]: whether the connector stays, what is to
    remove, what is to process, and the new reason of a rejection. *)
Definition qualify_one (rst : EReadStatus) (dst : Z) (tsNow : Z) (r : CRL) (k : socket) : bool * option LinkStatusInfo * option LinkStatusInfo * Z :=
  if tsNow >=? r_tsTTL r then
    let '(ccerror, reason) :=
      if m_RejectReason k =? SRT_REJ_UNKNOWN then
        if negb (r_tsTTL r =? 0) then (SRT_ENOSERVER, SRT_REJ_TIMEOUT) else (SRT_ECONNREJ, SRT_REJ_PEER)
      else (SRT_ECONNREJ, m_RejectReason k) in
    (false, Some (mkInfo (r_pUDT r) (r_iID r) ccerror (r_PeerAddr r)), None, reason)
  else if (bool_decide (rst = RST_AGAIN) || negb (r_iID r =? dst)) && (tsNow <=? m_tsLastReqTime k + 250 * 1000) then (true, None, None, m_RejectReason k)
  else if negb (bSynRecving k) then (true, None, Some (mkInfo (r_pUDT r) (r_iID r) SRT_SUCCESS (r_PeerAddr r)), m_RejectReason k)
  else (true, None, None, m_RejectReason k).

Definition opt_list {A} (x : option A) : list A := match x with Some a => [a] | None => [] end.

Fixpoint qualify (rst : EReadStatus) (dst : Z) (clk : nat -> Z) (l : list CRL) (socks : list socket) : option (list CRL * list LinkStatusInfo * list LinkStatusInfo * list socket) :=
  match l with
  | [] => Some ([], [], [], socks)
  | r :: rest =>
    k ← aget socks (r_pUDT r);
    let '(stays, rem, proc, reason) := qualify_one rst dst (clk (length rest)) r k in
    socks ← aupd socks (r_pUDT r) (with_reject reason);
    x ← qualify rst dst clk rest socks;
    let '(l, rems, procs, socks) := x in
    Some ((if stays then [r] else []) ++ l, opt_list rem ++ rems, opt_list proc ++ procs, socks)
  end.

Definition qualifyToHandle (rst : EReadStatus) (dst : Z) (clk : nat -> Z) : M (list LinkStatusInfo * list LinkStatusInfo) :=
  r ← ask (fun q => qualify rst dst clk (m_lRendezvousID q) (m_sockets q));
  let '(l, rems, procs, socks) := r in
  modify (fun q => set_connectors l (set_sockets socks q));;
  mret (rems, procs).

(** The requests are sent again; those that fail are added to the ones to remove. *)
Fixpoint process_connectors (rst : EReadStatus) (cst : EConnectStatus) (dst : Z) (l : list LinkStatusInfo) : M (list LinkStatusInfo) :=
  match l with
  | [] => mret []
  | i :: rest =>
    more ← (if negb (exists_socket env (i_id i)) then mret [i]
            else
              let '(read_st, conn_st) := if bool_decide (cst = CONN_RENDEZVOUS) || (i_id i =? dst) then (rst, cst) else (RST_AGAIN, CONN_AGAIN) in
              q ← get;
              k ← sock (i_u i);
              let '(ok, accepted, req) := on_connect_resend env q (i_u i) read_st conn_st in
              emit (ProcessAsyncConnectRequest (i_u i) read_st conn_st);;
              update (upd_socket (i_u i) (with_reqtime req));;
              (if accepted : bool then postConnect (i_u i) (m_SocketID k) else mret tt);;
              if ok : bool then mret []
              else emit (SendShutdown (i_u i));; mret [mkInfo (i_u i) (i_id i) SRT_ECONNREJ (i_peeraddr i)]);
    rems ← process_connectors rst cst dst rest;
    mret (more ++ rems)
  end.

Fixpoint remove_connectors (l : list LinkStatusInfo) : M unit :=
  match l with
  | [] => mret tt
  | i :: rest =>
    modify (fun q => set_connectors (rdv_remove (i_id i) (m_lRendezvousID q)) q);;
    (if negb (exists_socket env (i_id i)) then mret tt
     else
       update (upd_socket (i_u i) (with_connecting false));;
       emit (UpdateEvents (i_u i));;
       emit (CompleteBrokenConnection (i_u i) (i_errorcode i)));;
    remove_connectors rest
  end.

(** Connectors that are left with the ID of a failed one expire now. *)
Definition expire (ids : list Z) (r : CRL) : CRL := if decide (r_iID r ∈ ids) then mkCRL (r_iID r) (r_pUDT r) (r_PeerAddr r) 0 else r.

Definition updateConnStatus (rst : EReadStatus) (cst : EConnectStatus) (pkt : option CPacket.t) (clk : nat -> Z) : M unit :=
  let dest_id := match pkt with Some p => i32 (CPacket.ph_id p) | None => 0 end in
  q ← get;
  if decide (m_lRendezvousID q = []) then mret tt
  else
    r ← qualifyToHandle rst dest_id clk;
    let '(toRemove, toProcess) := r in
    if decide (toRemove = [] /\ toProcess = []) then mret tt
    else
      more ← process_connectors rst cst dest_id toProcess;
      remove_connectors (toRemove ++ more);;
      modify (fun q => set_connectors (expire (i_id <$> (toRemove ++ more)) <$> m_lRendezvousID q) q).

End Worker.

(** ** One iteration of the worker *)

(** What a call of [CChannel::recvfrom] gives: the status, the packet and the address. *)
Record datagram := mkDatagram { d_status : EReadStatus; d_packet : CPacket.t; d_addr : Z }.

(** The sockets that have connected are taken in. *)
Fixpoint take_entries (clk : nat -> Z) (l : list Z) : M unit :=
  match l with
  | [] => mret tt
  | u :: rest => modify (set_entries rest);; update (enlist (clk (length rest)) u);; take_entries clk rest
  end.

(** The status, the place of the unit, the packet and its address. *)
Definition worker_RetrieveUnit (memory : bool) (clk : nat -> Z) (d : datagram) : M (EReadStatus * option (nat * nat)) :=
  q ← get;
  take_entries clk (m_vNewEntry q);;
  r ← ask (fun q => CUnitQueue.getNextAvailUnit memory (m_pUnitQueue q));
  modify (set_units (snd r));;
  match fst r with
  | None => mret (if decide (d_status d = RST_ERROR) then RST_ERROR else RST_AGAIN, None)
  | Some place => mret (d_status d, Some place)
  end.

(** A packet is handed on at most once for every connecting socket and every new entry. *)
Definition levels (q : t) : nat := S (2 * length (m_lRendezvousID q) + length (m_vNewEntry q)).

(** [srtla]: the packet is consumed by the SRTLA receiver. The connection status, if
    there is a new one. *)
Definition dispatch (env : answers) (srtla : bool) (clk : nat -> Z) (place : nat * nat) (pkt : CPacket.t) (addr : Z) : M (option EConnectStatus) :=
  let id := i32 (CPacket.ph_id pkt) in
  if srtla then mret None
  else if id <? 0 then mret None
  else
    q ← get;
    cst ← (if id =? 0 then worker_ProcessConnectionRequest env place clk (levels q) pkt addr
           else worker_ProcessAddressedPacket env place clk (levels q) id pkt addr);
    mret (Some cst).

(** What the loop reads from outside: the datagram, whether there is memory for more
    units, the verdict of the SRTLA receiver, and the clock in the parts of the
    iteration. *)
Record round := mkRound {
  rd_datagram : datagram;
  rd_memory : bool;
  rd_srtla : bool;
  rd_entries : nat -> Z;
  rd_dispatch : nat -> Z;
  rd_limit : Z;                        (** [curtime_minus_syn] *)
  rd_serve : nat -> Z;
  rd_connectors : nat -> Z
}.

(** The pass over the timers and the connectors, in every iteration that is not cut
    short. There can be as many timers to serve as there are sockets. *)
Definition worker_passes (env : answers) (r : round) (rst : EReadStatus) (cst : EConnectStatus) (pkt : option CPacket.t) : M unit :=
  q ← get;
  serve (S (length (m_sockets q))) (rd_serve r) (rd_limit r);;
  updateConnStatus env rst cst pkt (rd_connectors r).

(** The connection status is kept from one iteration to the next. When nothing is read,
    the packet is what the unit held before. *)
Definition worker_iteration (env : answers) (r : round) (cst : EConnectStatus) : M EConnectStatus :=
  let d := rd_datagram r in
  x ← worker_RetrieveUnit (rd_memory r) (rd_entries r) d;
  let '(rst, place) := x in
  match rst, place with
  | RST_OK, Some place =>
    c ← dispatch env (rd_srtla r) (rd_dispatch r) place (d_packet d) (d_addr d);
    match c with
    | None => mret cst
    | Some CONN_AGAIN => mret CONN_AGAIN
    | Some cst => worker_passes env r rst cst (Some (d_packet d));; mret cst
    end
  | RST_ERROR, _ => mret CONN_REJECT
  | _, Some _ => worker_passes env r rst cst (Some (d_packet d));; mret cst
  | _, None => worker_passes env r rst cst None;; mret cst
  end.

End CRcvQueue.
