(* ===== verification/RcvQueueSpec.v ===== *)
(** * Correctness of the receiving queue

    The list of receiving sockets and the table by ID hold the same sockets in every
    reachable state, no socket is enlisted twice, and the packets and the timers
    reach the sockets they should. *)

From Stdlib Require Import Sorted.
From S2P Require Import Prelude Packet Queue QueueSpec RcvUListSpec RcvQueue.

Import CRcvQueue.

(** ** Computations on the queue *)

(** A computation ends, with a result for which [Q] holds. *)
Definition runs {A} (m : M A) (q : t) (Q : A -> list call -> t -> Prop) : Prop := exists a e q', m q = Some (a, e, q') /\ Q a e q'.

Section Runs.

Context {A B : Type}.
Implicit Types (m : M A) (q : t).

Lemma runs_ret (a : A) q (Q : A -> list call -> t -> Prop) : Q a [] q -> runs (mret a) q Q.
Proof. intros H. by exists a, [], q. Qed.

Lemma runs_bind m (f : A -> M B) q (Q : B -> list call -> t -> Prop) :
  runs m q (fun a e q => runs (f a) q (fun b e' q => Q b (e ++ e') q)) -> runs (m ≫= f) q Q.
Proof.
  intros (a & e & q1 & E1 & b & e' & q2 & E2 & H). exists b, (e ++ e'), q2. split; [|done]. unfold mbind, M_bind. by rewrite E1, E2.
Qed.

Lemma runs_weaken m q (Q Q' : A -> list call -> t -> Prop) : runs m q Q -> (forall a e q, Q a e q -> Q' a e q) -> runs m q Q'.
Proof. intros (a & e & q' & E & H) HQ. exists a, e, q'. split; [done|]. by apply HQ. Qed.

Lemma runs_det m q (Q : A -> list call -> t -> Prop) a e q' : m q = Some (a, e, q') -> runs m q Q -> Q a e q'.
Proof. intros E (a2 & e2 & q2 & E2 & H). congruence. Qed.

End Runs.

Lemma runs_get q Q : Q q [] q -> runs get q Q.
Proof. intros H. by exists q, [], q. Qed.

Lemma runs_modify f q Q : Q tt [] (f q) -> runs (modify f) q Q.
Proof. intros H. by exists tt, [], (f q). Qed.

Lemma runs_emit c q Q : Q tt [c] q -> runs (emit c) q Q.
Proof. intros H. by exists tt, [c], q. Qed.

Lemma runs_update f q q' Q : f q = Some q' -> Q tt [] q' -> runs (update f) q Q.
Proof. intros E H. exists tt, [], q'. split; [|done]. unfold update. by rewrite E. Qed.

Lemma runs_ask {A} (f : t -> option A) q a Q : f q = Some a -> Q a [] q -> runs (ask f) q Q.
Proof. intros E H. exists a, [], q. split; [|done]. unfold ask. by rewrite E. Qed.

(** Fields of updated queues. *)
Ltac qsimp := cbn [removeConnector registerConnector set_buffer set_connectors set_entries set_lists set_sockets set_units set_listener m_sockets m_vNewEntry m_lRendezvousID m_pUnitQueue m_mBuffer m_pRcvUList m_pHash m_pListener CRcvUList.m_nodes CRcvUList.m_pUList CRcvUList.m_pLast].

(** ** The invariant *)

(** What the queue never changes of a socket. *)
Definition fixed (k : socket) : Z * Z * bool := (m_SocketID k, m_PeerAddr k, bSRTLA k).
Definition sfix (q : t) (u : Z) : option (Z * Z * bool) := fixed <$> aget (m_sockets q) u.

(** The ID of a socket. *)
Definition sid (q : t) (u : Z) : option Z := m_SocketID <$> aget (m_sockets q) u.

(** [l]: the sockets in the list and their times; [T]: a time not before these. A
    socket is in the list, a new entry or a connector, and only once. *)
Record reg (T : Z) (l : entries) (q : t) : Prop := mkReg {
  rg_rep : rep (m_pRcvUList q) l;
  rg_nodes : length (CRcvUList.m_nodes (m_pRcvUList q)) = length (m_sockets q);
  rg_sorted : StronglySorted Z.le l.*2;
  rg_past : Forall (fun ts => ts <= T) l.*2;
  rg_pending : Forall (fun u => exists n, aget (CRcvUList.m_nodes (m_pRcvUList q)) u = Some n /\ CRcvUList.m_bOnList n = true) (m_vNewEntry q);
  rg_once : NoDup (l.*1 ++ m_vNewEntry q ++ (r_pUDT <$> m_lRendezvousID q));
  rg_ids : forall u v id, sid q u = Some id -> sid q v = Some id -> u = v;
  rg_pos : forall u id, sid q u = Some id -> 0 < id;
  rg_conn : Forall (fun r => sid q (r_pUDT r) = Some (r_iID r)) (m_lRendezvousID q);
  rg_hash : exists m, hash_rep (m_pHash q) m /\ forall id u, m !! id = Some u <-> u ∈ l.*1 /\ sid q u = Some id;
  rg_buffer : map_Forall (fun _ ps => ps <> [] /\ (length ps <= 17)%nat) (m_mBuffer q)
}.

Lemma reg_time T T' l q : reg T l q -> T <= T' -> reg T' l q.
Proof. intros [] HT. constructor; try done. eapply Forall_impl; [|done]. cbn. lia. Qed.

Lemma sid_sfix q u : sid q u = (fun x => x.1.1) <$> sfix q u.
Proof. unfold sid, sfix. by destruct (aget _ _). Qed.

Lemma sid_same q q' : (forall u, sfix q' u = sfix q u) -> forall u, sid q' u = sid q u.
Proof. intros H u. by rewrite !sid_sfix, H. Qed.

Lemma sid_bounds q u id : sid q u = Some id -> exists k, aget (m_sockets q) u = Some k /\ m_SocketID k = id.
Proof. unfold sid. destruct (aget _ _) as [k|]; [|done]. intros [= <-]. by exists k. Qed.

Lemma same_length_aget {A B} (a : list A) (b : list B) u x : length a = length b -> aget a u = Some x -> exists y, aget b u = Some y.
Proof. intros HL H%aget_in_bounds. apply aget_is_Some. unfold in_bounds in *. lia. Qed.

Lemma list_socket T l q u : reg T l q -> u ∈ l.*1 -> exists k, aget (m_sockets q) u = Some k.
Proof. intros R Hu. destruct (chain_in _ _ _ _ u Hu (rep_chain _ _ (rg_rep _ _ _ R))) as (n & E & _). apply (same_length_aget _ _ _ _ (rg_nodes _ _ _ R) E). Qed.

Lemma pending_socket T l q u : reg T l q -> u ∈ m_vNewEntry q -> exists k, aget (m_sockets q) u = Some k.
Proof. intros R Hu. pose proof (rg_pending _ _ _ R) as HP. rewrite list.Forall_forall in HP. destruct (HP u Hu) as (n & E & _). apply (same_length_aget _ _ _ _ (rg_nodes _ _ _ R) E). Qed.

(** *** Changes of a socket *)

Lemma upd_socket_run q u f : (exists k, aget (m_sockets q) u = Some k) -> (forall k, fixed (f k) = fixed k) ->
  exists a, upd_socket u f q = Some (set_sockets a q) /\ length a = length (m_sockets q) /\ forall v, sfix (set_sockets a q) v = sfix q v.
Proof.
  intros [k Hk] Hf. unfold upd_socket. rewrite (aupd_Some _ _ _ _ Hk). cbn [mbind option_bind]. pose proof (aget_in_bounds _ _ _ Hk) as Hb. eexists. split; [reflexivity|]. split; [apply length_insert|].
  intros v. unfold sfix. cbn [set_sockets m_sockets]. destruct (decide (u = v)) as [<-|Hne].
  - rewrite aget_insert_eq by done. rewrite Hk. cbn. by rewrite Hf.
  - rewrite aget_insert_ne; [done|unfold in_bounds in Hb; lia|done].
Qed.

(** Only the state of the sockets, the units and the listener differ. *)
Record similar (q q' : t) : Prop := mkSimilar {
  sm_list : m_pRcvUList q' = m_pRcvUList q;
  sm_hash : m_pHash q' = m_pHash q;
  sm_entries : m_vNewEntry q' = m_vNewEntry q;
  sm_conn : m_lRendezvousID q' = m_lRendezvousID q;
  sm_buffer : map_Forall (fun _ ps => ps <> [] /\ (length ps <= 17)%nat) (m_mBuffer q) -> map_Forall (fun _ ps => ps <> [] /\ (length ps <= 17)%nat) (m_mBuffer q');
  sm_len : length (m_sockets q') = length (m_sockets q);
  sm_fix : forall u, sfix q' u = sfix q u
}.

Lemma similar_reg T l q q' : similar q q' -> reg T l q -> reg T l q'.
Proof.
  intros [E1 E2 E3 E4 E5 E6 EF] [R1 R2 R3 R4 R5 R6 R7 R8 R9 R10 R11]. pose proof (sid_same q q' EF) as E7. constructor; rewrite ?E1, ?E2, ?E3, ?E4; try done.
  - congruence.
  - intros u v id. rewrite !E7. apply R7.
  - intros u id. rewrite E7. apply R8.
  - eapply Forall_impl; [|done]. cbn. intros r. by rewrite E7.
  - destruct R10 as (m & Hm & Hi). exists m. split; [done|]. intros id u. rewrite E7. apply Hi.
  - by apply E5.
Qed.

Lemma similar_refl q : similar q q.
Proof. by constructor. Qed.

Lemma similar_trans q1 q2 q3 : similar q1 q2 -> similar q2 q3 -> similar q1 q3.
Proof. intros [] []. constructor; try congruence; eauto; intros; congruence. Qed.

Lemma similar_upd q u f : (exists k, aget (m_sockets q) u = Some k) -> (forall k, fixed (f k) = fixed k) -> exists q', upd_socket u f q = Some q' /\ similar q q' /\ m_pUnitQueue q' = m_pUnitQueue q.
Proof. intros Hk Hf. destruct (upd_socket_run q u f Hk Hf) as (a & E & Hl & Hs). eexists. split; [done|]. split; [by constructor|done]. Qed.

Lemma similar_store q id p : similar q (storePktClone id p q).
Proof.
  unfold storePktClone. destruct (m_mBuffer q !! id) as [ps|] eqn:E; [destruct (Z.ltb_spec 16 (Z.of_nat (length ps))); [apply similar_refl|]|]; constructor; try done; cbn [set_buffer m_mBuffer]; intros HB; apply map_Forall_insert_2; try done; split; try done.
  - by intros [_ ?]%app_eq_nil.
  - rewrite length_app. cbn. destruct (HB _ _ E). lia.
  - cbn. lia.
Qed.

Lemma similar_units q x : similar q (set_units x q).
Proof. by constructor. Qed.

(** *** Enlisting, serving and removing a socket *)

Lemma sorted_snoc T (l : list Z) now : StronglySorted Z.le l -> Forall (fun ts => ts <= T) l -> T <= now -> StronglySorted Z.le (l ++ [now]).
Proof.
  induction l as [|x l IH]; intros HS HF HT; cbn; [repeat constructor|]. inversion_clear HS. apply list.Forall_cons in HF as [Hx HF]. constructor; [by apply IH|]. apply Forall_app. split; [done|]. repeat constructor. lia.
Qed.

Lemma sublist_Forall {A} (P : A -> Prop) (l l' : list A) : sublist l' l -> Forall P l -> Forall P l'.
Proof. induction 1; intros HF; [constructor| |]; apply list.Forall_cons in HF as [Hx HF]; [constructor|]; auto. Qed.

Lemma sublist_sorted (l l' : list Z) : sublist l' l -> StronglySorted Z.le l -> StronglySorted Z.le l'.
Proof.
  induction 1 as [|x l1 l2 H IH|x l1 l2 H IH]; intros HS; [constructor| |]; inversion_clear HS as [|? ? HS' HF]; [|by apply IH]. constructor; [by apply IH|]. eapply sublist_Forall; [done|exact HF].
Qed.

Lemma without_sublist u (l : entries) : sublist (without u l) l.
Proof. apply sublist_filter. Qed.

Lemma without_elem u (l : entries) v : v ∈ (without u l).*1 <-> v ∈ l.*1 /\ v <> u.
Proof.
  rewrite !list_elem_of_fmap. unfold without. split.
  - intros ([x tx] & -> & [Hx Hin]%list_elem_of_filter). split; [by exists (x, tx)|done].
  - intros [([x tx] & -> & Hin) Hne]. exists (x, tx). split; [done|]. by apply list_elem_of_filter.
Qed.

Lemma enlist_reg T l q u rest now :
  reg T l q -> m_vNewEntry q = u :: rest -> T <= now ->
  exists q', enlist now u (set_entries rest q) = Some q' /\ reg now (l ++ [(u, now)]) q' /\ m_sockets q' = m_sockets q /\ m_vNewEntry q' = rest
    /\ m_lRendezvousID q' = m_lRendezvousID q /\ m_pUnitQueue q' = m_pUnitQueue q.
Proof.
  intros R Hq HT. pose proof (rg_once _ _ _ R) as HO. rewrite Hq in HO. destruct (pending_socket T l q u R ltac:(rewrite Hq; apply list_elem_of_here)) as [k Hk]. pose proof (rg_pending _ _ _ R) as HP. rewrite Hq in HP. apply list.Forall_cons in HP as [(n & Hn & Hon) HP].
  assert (u ∉ l.*1) as Hul by (apply list.NoDup_app in HO as (_ & Hd & _); intros Hin; apply (Hd u Hin); by apply list_elem_of_here).
  destruct (ulist_insert_rep _ l u now n (rg_rep _ _ _ R) Hul Hn Hon) as (L & EL & RL & HL & HFr).
  destruct (rg_hash _ _ _ R) as (m & Hm & Hi). assert (sid q u = Some (m_SocketID k)) as Hsid by (unfold sid; by rewrite Hk). pose proof (rg_pos _ _ _ R _ _ Hsid) as Hpos.
  assert (m !! m_SocketID k = None) as Hnone by (apply eq_None_not_Some; intros [v [Hv Hid]%Hi]; by rewrite (rg_ids _ _ _ R _ _ _ Hid Hsid) in Hv).
  destruct (hash_insert _ m (m_SocketID k) u Hm ltac:(lia) Hnone) as (h & Eh & Hh). unfold enlist. cbn [set_entries m_sockets m_pRcvUList m_pHash]. rewrite Hk. cbn [mbind option_bind]. rewrite EL. cbn [mbind option_bind]. rewrite Eh. cbn [mbind option_bind].
  eexists. split; [reflexivity|]. split; [|done]. destruct R as [R1 R2 R3 R4 R5 R6 R7 R8 R9 R10 R11]. constructor; cbn [set_lists set_entries m_pRcvUList m_sockets m_vNewEntry m_lRendezvousID m_pHash m_mBuffer]; try done.
  - congruence.
  - rewrite fmap_app. by eapply sorted_snoc.
  - rewrite fmap_app. apply Forall_app. split; [|repeat constructor; cbn; lia]. eapply Forall_impl; [|exact R4]. cbn. lia.
  - apply list.Forall_forall. intros v Hv. rewrite list.Forall_forall in HP. destruct (HP v Hv) as (nv & Ev & Hov). exists nv. split; [|done]. rewrite HFr; [done| |].
    + apply list.NoDup_app in HO as (_ & Hd & _). intros Hin. apply (Hd v Hin). apply list_elem_of_further. apply elem_of_app. by left.
    + apply list.NoDup_app in HO as (_ & _ & [Hnu _]%list.NoDup_cons). intros ->. apply Hnu. apply elem_of_app. by left.
  - rewrite fmap_app. cbn. rewrite <- (assoc_L (++)). done.
  - eexists. split; [exact Hh|]. intros id v. change (sid (set_lists L h (set_entries rest q)) v) with (sid q v). rewrite fmap_app, elem_of_app. cbn. rewrite list_elem_of_singleton. destruct (decide (id = m_SocketID k)) as [->|Hne].
    + rewrite lookup_insert_eq. split; [intros [= <-]; tauto|]. intros [_ Hv]. f_equal. by apply (R7 _ _ _ Hsid).
    + rewrite lookup_insert_ne by done. rewrite Hi. split; [tauto|]. intros [[Hv| ->] Hid]; [done|congruence].
Qed.

Lemma touch_reg T l q u now :
  reg T l q -> u ∈ l.*1 -> T <= now ->
  exists q', touch now u q = Some q' /\ reg now (without u l ++ [(u, now)]) q' /\ m_sockets q' = m_sockets q /\ m_vNewEntry q' = m_vNewEntry q
    /\ m_lRendezvousID q' = m_lRendezvousID q /\ m_pUnitQueue q' = m_pUnitQueue q.
Proof.
  intros R Hu HT. destruct (ulist_update_rep _ l u now (rg_rep _ _ _ R) Hu) as (L & EL & RL & HL & HFr). unfold touch. rewrite EL. cbn [mbind option_bind]. eexists. split; [reflexivity|]. split; [|done].
  pose proof (NoDup_without u l (rep_nodup _ _ (rg_rep _ _ _ R))) as [_ Hnu].
  destruct R as [R1 R2 R3 R4 R5 R6 R7 R8 R9 R10 R11]. constructor; cbn [set_lists m_pRcvUList m_sockets m_vNewEntry m_lRendezvousID m_pHash m_mBuffer]; try done.
  - congruence.
  - rewrite fmap_app. apply (sorted_snoc T); [|eapply sublist_Forall; [apply fmap_sublist, without_sublist|done]|done]. eapply sublist_sorted; [apply fmap_sublist, without_sublist|done].
  - rewrite fmap_app. apply Forall_app. split; [|repeat constructor; cbn; lia]. eapply sublist_Forall; [apply fmap_sublist, without_sublist|]. eapply Forall_impl; [|exact R4]. cbn. lia.
  - apply list.Forall_forall. intros v Hv. rewrite list.Forall_forall in R5. destruct (R5 v Hv) as (nv & Ev & Hov). exists nv. split; [|done]. rewrite HFr; [done|].
    apply list.NoDup_app in R6 as (_ & Hd & _). intros Hin. apply (Hd v Hin). apply elem_of_app. by left.
  - destruct (entry_split l u Hu) as (a & tu & b & ->). rewrite without_split in * by (by apply list.NoDup_app in R6 as (? & _)). revert R6. apply NoDup_Permutation_proper. apply Permutation_app_tail. rewrite !fmap_app. cbn. rewrite <- (assoc_L (++)). apply Permutation_app_head. symmetry. apply Permutation_cons_append.
  - destruct R10 as (m & Hm & Hi). exists m. split; [done|]. intros id v. change (sid (set_lists L (m_pHash q) q) v) with (sid q v). rewrite Hi, fmap_app, elem_of_app, without_elem. cbn. rewrite list_elem_of_singleton. destruct (decide (v = u)) as [->|]; tauto.
Qed.

Lemma removeFromLists_reg T l q u :
  reg T l q -> u ∈ l.*1 ->
  exists q', removeFromLists u q = Some q' /\ reg T (without u l) q' /\ m_sockets q' = m_sockets q /\ m_vNewEntry q' = m_vNewEntry q
    /\ m_lRendezvousID q' = m_lRendezvousID q /\ m_pUnitQueue q' = m_pUnitQueue q.
Proof.
  intros R Hu. destruct (list_socket T l q u R Hu) as [k Hk]. assert (sid q u = Some (m_SocketID k)) as Hsid by (unfold sid; by rewrite Hk). pose proof (rg_pos _ _ _ R _ _ Hsid) as Hpos.
  destruct (ulist_remove_rep _ l u (rg_rep _ _ _ R) Hu) as (L & EL & RL & HL & [n Hn] & HFr). destruct (rg_hash _ _ _ R) as (m & Hm & Hi). destruct (hash_remove _ m (m_SocketID k) Hm ltac:(lia)) as (h & Eh & Hh).
  pose proof (NoDup_without u l (rep_nodup _ _ (rg_rep _ _ _ R))) as [_ Hnu].
  unfold removeFromLists. rewrite Hk. cbn [mbind option_bind]. rewrite Eh. cbn [mbind option_bind]. rewrite EL. cbn [mbind option_bind]. rewrite (aupd_Some _ _ _ _ Hn). cbn [mbind option_bind]. eexists. split; [reflexivity|]. split; [|done].
  pose proof (aget_in_bounds _ _ _ Hn) as Hib. assert (forall v, v <> u -> aget (<[Z.to_nat u := CRcvUList.mkNode (CRcvUList.m_tsTimeStamp n) (CRcvUList.m_pPrev n) (CRcvUList.m_pNext n) false]> (CRcvUList.m_nodes L)) v = aget (CRcvUList.m_nodes L) v) as Hne by (intros v Hv; apply aget_insert_ne; [unfold in_bounds in Hib; lia|done]).
  destruct R as [R1 R2 R3 R4 R5 R6 R7 R8 R9 R10 R11]. constructor; cbn [set_lists m_pRcvUList m_sockets m_vNewEntry m_lRendezvousID m_pHash m_mBuffer CRcvUList.m_nodes]; try done.
  - destruct RL as [L1 L2 L3 L4]. constructor; cbn [CRcvUList.m_nodes CRcvUList.m_pUList CRcvUList.m_pLast]; try done. by apply chain_insert.
  - rewrite length_insert. congruence.
  - eapply sublist_sorted; [apply fmap_sublist, without_sublist|done].
  - eapply sublist_Forall; [apply fmap_sublist, without_sublist|done].
  - apply list.Forall_forall. intros v Hv. rewrite list.Forall_forall in R5. destruct (R5 v Hv) as (nv & Ev & Hov). exists nv. split; [|done].
    assert (v ∉ l.*1) as Hvl by (apply list.NoDup_app in R6 as (_ & Hd & _); intros Hin; apply (Hd v Hin); apply elem_of_app; by left). rewrite Hne by congruence. by rewrite HFr.
  - eapply sublist_NoDup; [exact R6|]. apply sublist_app; [|done]. apply fmap_sublist, without_sublist.
  - eexists. split; [exact Hh|]. intros id v. change (sid (set_lists _ h q) v) with (sid q v). rewrite without_elem. destruct (decide (id = m_SocketID k)) as [->|Hid].
    + rewrite lookup_delete_eq. split; [done|]. intros [[_ Hv] Hs]. exfalso. apply Hv. by apply (R7 _ _ _ Hs).
    + rewrite lookup_delete_ne by done. rewrite Hi. split; [|tauto]. intros [Hv Hs]. split; [|done]. split; [done|]. intros ->. congruence.
Qed.

(** *** A socket that connects *)

Lemma rdv_remove_split q a r b :
  (forall u v id, sid q u = Some id -> sid q v = Some id -> u = v) -> Forall (fun r => sid q (r_pUDT r) = Some (r_iID r)) (a ++ r :: b) -> NoDup (r_pUDT <$> (a ++ r :: b)) ->
  rdv_remove (r_iID r) (a ++ r :: b) = a ++ b.
Proof.
  intros Hid. induction a as [|x a IH]; cbn [app rdv_remove]; [by rewrite Z.eqb_refl|]. rewrite fmap_cons. intros [Hx HF]%list.Forall_cons [Hn HN]%list.NoDup_cons. destruct (Z.eqb_spec (r_iID x) (r_iID r)) as [E|_]; [|by rewrite IH]. exfalso. apply Hn.
  apply Forall_app in HF as [_ [Hr _]%list.Forall_cons]. rewrite E in Hx. rewrite (Hid _ _ _ Hx Hr). rewrite fmap_app. apply elem_of_app. right. apply list_elem_of_here.
Qed.

Lemma reg_connectors T l q conn :
  reg T l q -> sublist (r_pUDT <$> conn) (r_pUDT <$> m_lRendezvousID q) -> Forall (fun r => sid q (r_pUDT r) = Some (r_iID r)) conn -> reg T l (set_connectors conn q).
Proof.
  intros [R1 R2 R3 R4 R5 R6 R7 R8 R9 R10 R11] Hs HF. constructor; qsimp; try done. eapply sublist_NoDup; [exact R6|]. apply sublist_app; [done|]. by apply sublist_app.
Qed.

(** A node outside the list may be marked, and its socket may become a new entry. *)
Lemma entry_run T l q u :
  reg T l q -> u ∉ l.*1 -> u ∉ m_vNewEntry q -> u ∉ r_pUDT <$> m_lRendezvousID q -> (exists k, aget (m_sockets q) u = Some k) ->
  exists q', setNewEntry u q = Some q' /\ reg T l q' /\ (forall v, sfix q' v = sfix q v) /\ m_vNewEntry q' = m_vNewEntry q ++ [u] /\ m_pUnitQueue q' = m_pUnitQueue q
    /\ m_lRendezvousID q' = m_lRendezvousID q /\ length (m_sockets q') = length (m_sockets q).
Proof.
  intros R Hul Hne Hnc [k Hk]. destruct (upd_socket_run q u (fun k => with_state true (m_bBroken k) (m_bClosing k) k)) as (a & Ea & Hla & Hfa); [by exists k|done|].
  destruct (same_length_aget _ (CRcvUList.m_nodes (m_pRcvUList q)) _ _ (eq_sym (rg_nodes _ _ _ R)) Hk) as [n En]. pose proof (aget_in_bounds _ _ _ En) as Hib.
  unfold setNewEntry. rewrite Ea. cbn [mbind option_bind]. qsimp. rewrite (aupd_Some _ _ _ _ En). cbn [mbind option_bind]. eexists. split; [reflexivity|]. qsimp. split; [|done].
  destruct R as [R1 R2 R3 R4 R5 R6 R7 R8 R9 R10 R11]. pose proof (sid_same q (set_sockets a q) Hfa) as Hs. constructor; qsimp; try done.
  - destruct R1 as [L1 L2 L3 L4]. constructor; qsimp; try done. by apply chain_insert.
  - rewrite length_insert. congruence.
  - apply Forall_app. split; [|repeat constructor; eexists; split; [by apply aget_insert_eq|done]]. apply list.Forall_forall. intros v Hv. rewrite list.Forall_forall in R5. destruct (R5 v Hv) as (nv & Ev & Hov). exists nv. split; [|done]. rewrite aget_insert_ne; [done|unfold in_bounds in Hib; lia|congruence].
  - rewrite <- (assoc_L (++)). assert (NoDup (u :: l.*1 ++ m_vNewEntry q ++ (r_pUDT <$> m_lRendezvousID q))) as HN by (apply list.NoDup_cons; split; [rewrite !elem_of_app; tauto|done]).
    revert HN. apply NoDup_Permutation_proper. rewrite (Permutation_middle l.*1). apply Permutation_app_head. symmetry. apply Permutation_middle.
  - intros v w id. change (sid (set_sockets a q) v = Some id -> sid (set_sockets a q) w = Some id -> v = w). rewrite !Hs. apply R7.
  - intros v id. change (sid (set_sockets a q) v = Some id -> 0 < id). rewrite Hs. apply R8.
  - eapply Forall_impl; [|exact R9]. cbn. intros x Hx. change (sid (set_sockets a q) (r_pUDT x) = Some (r_iID x)). by rewrite Hs.
  - destruct R10 as (m & Hm & Hi). exists m. split; [done|]. intros id v. change (m !! id = Some v <-> v ∈ l.*1 /\ sid (set_sockets a q) v = Some id). rewrite Hs. apply Hi.
Qed.

(** The connectors and the waiting packets do not matter for it. *)
Lemma setNewEntry_connectors u c q : setNewEntry u (set_connectors c q) = set_connectors c <$> setNewEntry u q.
Proof.
  unfold setNewEntry, upd_socket. qsimp. destruct (aupd (m_sockets q) u _) as [a|]; [|done]. cbn [mbind option_bind fmap option_fmap option_map]. qsimp. by destruct (aupd (CRcvUList.m_nodes (m_pRcvUList q)) u _).
Qed.

Lemma reg_forget T l q id : reg T l q -> reg T l (set_buffer (delete id (m_mBuffer q)) q).
Proof. intros []. constructor; qsimp; try done. by apply map_Forall_delete. Qed.

Lemma postConnect_run T l q r :
  reg T l q -> r ∈ m_lRendezvousID q ->
  runs (postConnect (r_pUDT r) (r_iID r)) q (fun _ e q' => e = [] /\ reg T l q' /\ (forall u, sfix q' u = sfix q u) /\ m_vNewEntry q' = m_vNewEntry q ++ [r_pUDT r]
    /\ m_pUnitQueue q' = m_pUnitQueue q /\ length (m_lRendezvousID q) = S (length (m_lRendezvousID q')) /\ length (m_sockets q') = length (m_sockets q)
    /\ (forall r', r' ∈ m_lRendezvousID q -> r_pUDT r' <> r_pUDT r -> r' ∈ m_lRendezvousID q')).
Proof.
  intros R Hr. set (u := r_pUDT r). pose proof (rg_conn _ _ _ R) as HC. pose proof HC as HC'. rewrite list.Forall_forall in HC'. destruct (sid_bounds q u _ (HC' r Hr)) as (k & Hk & Hid).
  apply list_elem_of_split in Hr as (c1 & c2 & Ec). pose proof (rg_once _ _ _ R) as (_ & Hd & (_ & Hd' & HN)%list.NoDup_app)%list.NoDup_app.
  assert (u ∈ r_pUDT <$> m_lRendezvousID q) as Hin by (rewrite Ec, fmap_app; apply elem_of_app; right; apply list_elem_of_here).
  assert (u ∉ l.*1) as Hul by (intros H; apply (Hd u H), elem_of_app; by right). assert (u ∉ m_vNewEntry q) as Hue by (intros H; by apply (Hd' u H)).
  assert (rdv_remove (r_iID r) (m_lRendezvousID q) = c1 ++ c2) as Erm by (rewrite Ec in *; by apply (rdv_remove_split q); [apply (rg_ids _ _ _ R)| |]).
  assert (reg T l (set_connectors (c1 ++ c2) q)) as R1.
  { apply reg_connectors; [done| |]; rewrite Ec in *; [rewrite !fmap_app, fmap_cons; apply sublist_app; [done|by apply sublist_cons]|]. apply Forall_app in HC as [F1 [_ F2]%list.Forall_cons]. by apply Forall_app. }
  destruct (entry_run T l _ u R1 Hul Hue) as (q1 & E1 & R2 & F2 & N2 & U2 & C2 & L2); [|by exists k|].
  { qsimp. rewrite Ec, fmap_app, fmap_cons in HN. rewrite fmap_app. apply list.NoDup_app in HN as (_ & Hd1 & [Hd2 _]%list.NoDup_cons). rewrite elem_of_app. intros [H|H]; [by apply (Hd1 u H), list_elem_of_here|done]. }
  rewrite setNewEntry_connectors in E1. destruct (setNewEntry u q) as [q0|] eqn:E0; [|done]. injection E1 as <-. unfold postConnect. apply runs_bind. eapply runs_update; [exact E0|]. apply runs_modify.
  assert (m_lRendezvousID q0 = m_lRendezvousID q) as Ec0 by (unfold setNewEntry, upd_socket in E0; bind_inv; done). unfold removeConnector. rewrite Ec0, Erm. split; [done|]. split; [exact (reg_forget _ _ _ (r_iID r) R2)|]. split; [exact F2|]. split; [exact N2|]. split; [exact U2|]. qsimp. rewrite Ec.
  split; [rewrite !length_app; cbn; lia|]. split; [exact L2|]. intros r' Hr' Hne. apply elem_of_app. apply elem_of_app in Hr' as [H|[->|H]%elem_of_cons]; [by left|done|by right].
Qed.

(** ** Taking in the new entries *)

(** Readings of the clock, the later the smaller their index, none before [T]. *)
Definition clock (T : Z) (clk : nat -> Z) : Prop := (forall n, T <= clk n) /\ forall n m, (m <= n)%nat -> clk n <= clk m.

Lemma take_entries_run clk es T l q :
  reg T l q -> m_vNewEntry q = es -> clock T clk ->
  runs (take_entries clk es) q (fun _ e q' => e = [] /\ m_vNewEntry q' = [] /\ m_sockets q' = m_sockets q /\ m_lRendezvousID q' = m_lRendezvousID q /\ m_pUnitQueue q' = m_pUnitQueue q
    /\ exists T' l', reg T' l' q' /\ T <= T' <= clk 0%nat /\ l'.*1 = l.*1 ++ es).
Proof.
  intros R Hq [HT HC]. assert (T <= clk (length es)) as HTe by done. clear HT. revert T l q R Hq HTe. induction es as [|u es IH]; intros T l q R Hq HTe; cbn [take_entries].
  - apply runs_ret. split_and!; try done. exists T, l. split; [done|]. split; [cbn in HTe; lia|by rewrite app_nil_r].
  - assert (T <= clk (length es)) as HTl by (specialize (HC (length (u :: es)) (length es)); cbn in *; lia).
    destruct (enlist_reg T l q u es (clk (length es)) R Hq HTl) as (q' & E & R' & E1 & E2 & E3 & E4). apply runs_bind, runs_modify, runs_bind. eapply runs_update; [exact E|].
    eapply runs_weaken; [apply (IH _ _ _ R' E2); lia|]. intros [] e q2 (-> & H1 & H2 & H3 & H4 & T' & l' & R2 & HT' & Hl'). cbn. split_and!; try congruence. exists T', l'. split; [done|]. split; [lia|]. rewrite Hl', fmap_app. cbn. by rewrite <- (assoc_L (++)).
Qed.

(** ** The pass over the timers *)

Definition live (q : t) (u : Z) : bool :=
  match aget (m_sockets q) u with Some k => m_bConnected k && negb (m_bBroken k) && negb (m_bClosing k) | None => false end.

Lemma serve_due clk limit fuel due rest T q :
  reg T (due ++ rest) q -> Forall (fun ts => ts < limit) due.*2 -> Forall (fun ts => limit <= ts) rest.*2 -> (length due <= fuel)%nat ->
  clock T clk -> (forall n, limit <= clk n) ->
  runs (serve fuel clk limit) q (fun _ e q' => e = CheckTimers <$> filter (fun u => live q u = true) due.*1 /\ m_sockets q' = m_sockets q
    /\ m_vNewEntry q' = m_vNewEntry q /\ m_lRendezvousID q' = m_lRendezvousID q /\ m_pUnitQueue q' = m_pUnitQueue q
    /\ exists T' late, reg T' (rest ++ late) q' /\ T <= T' <= Z.max T (clk 0%nat) /\ late.*1 = filter (fun u => live q u = true) due.*1 /\ Forall (fun ts => limit <= ts) late.*2).
Proof.
  intros R Hd Hr Hf [HT HC] HL. assert (T <= clk fuel) as HTf by done. clear HT. revert fuel rest T q R Hd Hr Hf HL HTf. induction due as [|[u tu] due IH]; intros fuel rest T q R Hd Hr Hf HL HTf.
  - exists tt, [], q. split; [|split_and!; try done; exists T, []; rewrite app_nil_r; split; [done|]; split; [lia|]; by split].
    destruct fuel as [|f]; cbn [serve]; unfold mbind, M_bind, get; rewrite (rep_first _ _ (rg_rep _ _ _ R)); destruct rest as [|[v tv] rest]; cbn [app next_of]; try done;
      destruct (rep_chain _ _ (rg_rep _ _ _ R)) as [Hn _]; unfold ask; rewrite Hn; cbn; apply list.Forall_cons in Hr as [Hv _]; cbn in Hv; destruct (Z.ltb_spec tv limit); try lia; done.
  - destruct fuel as [|fuel]; [cbn in Hf; lia|]. assert (u ∈ ((u, tu) :: due ++ rest).*1) as Hu by apply list_elem_of_here.
    pose proof (rep_nodup _ _ (rg_rep _ _ _ R)) as HN. cbn [app] in *. pose proof (without_split u tu [] (due ++ rest) HN) as Hw. cbn [app] in Hw.
    destruct (list_socket _ _ _ u R Hu) as [k Hk]. apply list.Forall_cons in Hd as [Htu Hd]. cbn in Htu.
    cbn [serve]. apply runs_bind, runs_get. rewrite (rep_first _ _ (rg_rep _ _ _ R)). cbn [next_of]. apply runs_bind. destruct (rep_chain _ _ (rg_rep _ _ _ R)) as [Hn _]. eapply runs_ask; [exact Hn|]. cbn [CRcvUList.m_tsTimeStamp].
    destruct (Z.ltb_spec tu limit); [|lia]. cbn [negb]. apply runs_bind. eapply runs_ask; [exact Hk|]. rewrite fmap_cons. cbn [fst]. assert (live q u = m_bConnected k && negb (m_bBroken k) && negb (m_bClosing k)) as Hlive by (unfold live; by rewrite Hk). rewrite <- Hlive.
    destruct (live q u) eqn:Hlv.
    + destruct (touch_reg T _ q u (clk (S fuel)) R Hu HTf) as (q1 & E1 & R1 & Es & Ee & Er & Ep). rewrite Hw, <- (assoc_L (++)) in R1. apply runs_bind, runs_bind, runs_emit. eapply runs_update; [exact E1|].
      assert (forall v, live q1 v = live q v) as Hsame by (intros v; unfold live; by rewrite Es). eapply runs_weaken; [apply (IH fuel (rest ++ [(u, clk (S fuel))]) (clk (S fuel)) q1 R1 Hd)|].
      * rewrite fmap_app. apply Forall_app. split; [done|]. repeat constructor. cbn. apply HL.
      * cbn in Hf. lia.
      * exact HL.
      * apply HC. lia.
      * intros [] e q2 (-> & H1 & H2 & H3 & H4 & T' & late & R2 & HT' & Hla & Hlt). rewrite filter_cons_True by done. split_and!; try congruence; [cbn; do 2 f_equal; apply list_filter_iff; intros v; by rewrite Hsame|].
        exists T', ((u, clk (S fuel)) :: late). rewrite <- (assoc_L (++)) in R2. split; [done|]. pose proof (HC (S fuel) 0%nat ltac:(lia)). split; [lia|]. rewrite !fmap_cons. cbn. split; [rewrite Hla; f_equal; apply list_filter_iff; intros v; by rewrite Hsame|]. constructor; [apply HL|done].
    + destruct (removeFromLists_reg T _ q u R Hu) as (q1 & E1 & R1 & Es & Ee & Er & Ep). rewrite Hw in R1. apply runs_bind. eapply runs_update; [exact E1|].
      assert (forall v, live q1 v = live q v) as Hsame by (intros v; unfold live; by rewrite Es). eapply runs_weaken; [apply (IH fuel rest T q1 R1 Hd Hr)|].
      * cbn in Hf. lia.
      * exact HL.
      * specialize (HC (S fuel) fuel). lia.
      * intros [] e q2 (-> & H1 & H2 & H3 & H4 & T' & late & R2 & HT' & Hla & Hlt). rewrite filter_cons_False by (by rewrite Hlv). split_and!; try congruence; [cbn; f_equal; apply list_filter_iff; intros v; by rewrite Hsame|].
        exists T', late. split_and!; try done; [lia|lia|rewrite Hla; apply list_filter_iff; intros v; by rewrite Hsame].
Qed.

(** The sockets that are due come first. *)
Definition due (limit : Z) (l : entries) : entries := filter (fun e => e.2 < limit) l.
Definition fresh (limit : Z) (l : entries) : entries := filter (fun e => limit <= e.2) l.

Lemma due_fresh limit (l : entries) : StronglySorted Z.le l.*2 -> l = due limit l ++ fresh limit l.
Proof.
  unfold due, fresh. induction l as [|[u tu] l IH]; [done|]. rewrite fmap_cons. intros HS. inversion_clear HS as [|? ? HS' HF]. cbn in HF. destruct (Z.lt_ge_cases tu limit).
  - rewrite filter_cons_True, filter_cons_False by (cbn; lia). cbn. f_equal. by apply IH.
  - rewrite filter_cons_False, filter_cons_True by (cbn; lia). assert (forall l' : entries, Forall (Z.le tu) l'.*2 -> filter (fun e => e.2 < limit) l' = [] /\ filter (fun e => limit <= e.2) l' = l') as Hall; [|destruct (Hall l HF) as [-> ->]; done].
    clear - H. induction l' as [|[v tv] l' IH']; [done|]. rewrite fmap_cons. intros [Hv HF]%list.Forall_cons. cbn in Hv. destruct (IH' HF) as [E1 E2]. rewrite filter_cons_False, filter_cons_True by (cbn; lia). by rewrite E1, E2.
Qed.

Lemma due_length T l q limit : reg T l q -> (length (due limit l) <= length (m_sockets q))%nat.
Proof.
  intros R. rewrite <- (rg_nodes _ _ _ R). transitivity (length l); [apply length_filter|].
  assert (l.*1 ⊆+ Z.of_nat <$> seq 0 (length (CRcvUList.m_nodes (m_pRcvUList q)))) as Hs; [|apply submseteq_length in Hs; by rewrite !length_fmap, length_seq in Hs].
  apply NoDup_submseteq; [apply (rep_nodup _ _ (rg_rep _ _ _ R))|]. intros u Hu. destruct (chain_in _ _ _ _ u Hu (rep_chain _ _ (rg_rep _ _ _ R))) as (n & E%aget_in_bounds & _). unfold in_bounds in E. apply list_elem_of_fmap. exists (Z.to_nat u). split; [lia|]. apply elem_of_seq. lia.
Qed.

Lemma serve_run T l q clk limit :
  reg T l q -> clock T clk -> (forall n, limit <= clk n) ->
  runs (serve (S (length (m_sockets q))) clk limit) q (fun _ e q' => e = CheckTimers <$> filter (fun u => live q u = true) (due limit l).*1 /\ m_sockets q' = m_sockets q
    /\ m_vNewEntry q' = m_vNewEntry q /\ m_lRendezvousID q' = m_lRendezvousID q /\ m_pUnitQueue q' = m_pUnitQueue q
    /\ exists T' late, reg T' (fresh limit l ++ late) q' /\ T <= T' <= clk 0%nat /\ late.*1 = filter (fun u => live q u = true) (due limit l).*1 /\ Forall (fun ts => limit <= ts) late.*2).
Proof.
  intros R HC HL. pose proof (due_fresh limit l (rg_sorted _ _ _ R)) as E. rewrite E in R.
  eapply runs_weaken; [apply (serve_due clk limit _ (due limit l) (fresh limit l) T q R); [| | |done|done]|].
  - apply Forall_fmap, list.Forall_forall. by intros e [? _]%list_elem_of_filter.
  - apply Forall_fmap, list.Forall_forall. by intros e [? _]%list_elem_of_filter.
  - rewrite <- E in R. pose proof (due_length _ _ _ limit R). lia.
  - intros [] e q' (H1 & H2 & H3 & H4 & H5 & T' & late & H6 & H7 & H8). split_and!; try done. exists T', late. split; [done|]. split; [|done]. destruct HC as [HT _]. specialize (HT 0%nat). lia.
Qed.

(** ** Handing on a packet *)

(** A packet from [addr] with destination [id] reaches only a socket with this ID (or a
    connecting one, for 0), from its peer or under SRTLA. *)
Definition reaches (q : t) (addr id : Z) (pkt : CPacket.t) (c : call) : Prop :=
  match c with
  | ProcessCtrl u p | ProcessData u p =>
    p = pkt /\ exists id' peer srtla, sfix q u = Some (id', peer, srtla) /\ (id = 0 \/ id' = id) /\ (peer = addr \/ srtla = true)
  | _ => True
  end.

(** The invariant after a part of an iteration. *)
Record kept (T Tm : Z) (q q' : t) : Prop := mkKept {
  kp_reg : exists T' l', reg T' l' q' /\ T <= T' <= Tm;
  kp_fix : forall u, sfix q' u = sfix q u;
  kp_pool : exists H, pool (m_pUnitQueue q') H;
  kp_size : CUnitQueue.m_iSize (m_pUnitQueue q') = CUnitQueue.m_iSize (m_pUnitQueue q) /\ CUnitQueue.m_iBlockSize (m_pUnitQueue q') = CUnitQueue.m_iBlockSize (m_pUnitQueue q)
}.

Lemma kept_from T T0 Tm q0 q q' : (forall u, sfix q u = sfix q0 u) -> m_pUnitQueue q = m_pUnitQueue q0 -> T0 <= T -> kept T Tm q q' -> kept T0 Tm q0 q'.
Proof.
  intros Hf Hu HT [(T' & l' & R & HT') F (H & P) S]. constructor; [exists T', l'; split; [done|lia]|intros u; by rewrite F, Hf|by exists H|by rewrite <- Hu].
Qed.

Lemma reaches_from q0 q addr id id0 pkt c : (forall u, sfix q u = sfix q0 u) -> (id0 = 0 \/ id0 = id) -> reaches q addr id pkt c -> reaches q0 addr id0 pkt c.
Proof.
  intros Hf Hi. destruct c; cbn [reaches]; try done; intros [-> (id' & peer & srtla & Hs & H1 & H2)]; (split; [done|]); exists id', peer, srtla; rewrite <- Hf; (split; [done|]); (split; [|done]); destruct Hi, H1; subst; tauto.
Qed.

Definition outcome (T Tm : Z) (q : t) (addr id : Z) (pkt : CPacket.t) (e : list call) (q' : t) : Prop := kept T Tm q q' /\ Forall (reaches q addr id pkt) e.

Lemma outcome_same T Tm l q q' H addr id pkt e :
  reg T l q' -> T <= Tm -> (forall u, sfix q' u = sfix q u) -> pool (m_pUnitQueue q') H -> m_pUnitQueue q' = m_pUnitQueue q -> Forall (reaches q addr id pkt) e -> outcome T Tm q addr id pkt e q'.
Proof. intros R HT HF HP HU HE. split; [|done]. constructor; [exists T, l; split; [done|lia]|done|by exists H|by rewrite HU]. Qed.

Lemma outcome_from T T0 Tm q0 q q' addr id id0 pkt e e' :
  (forall u, sfix q u = sfix q0 u) -> m_pUnitQueue q = m_pUnitQueue q0 -> T0 <= T -> (id0 = 0 \/ id0 = id) -> Forall (reaches q0 addr id0 pkt) e -> outcome T Tm q addr id pkt e' q' -> outcome T0 Tm q0 addr id0 pkt (e ++ e') q'.
Proof.
  intros Hf Hu HT Hi He [K Hr]. split; [by apply (kept_from T T0 Tm q0 q q')|]. apply Forall_app. split; [done|]. eapply Forall_impl; [|exact Hr]. cbn. intros c. by apply reaches_from.
Qed.

Section Dispatch.

Context (env : answers) (place : nat * nat) (pkt : CPacket.t) (addr : Z).

(** A socket that has connected understood the packet. *)
Definition response_ok : Prop := forall q u p cst, on_connect_response env q u p = (cst, true) -> cst <> CONN_CONFUSED.

(** The packet is given to its socket, whose buffer may keep the unit. *)
Lemma process_run q u H :
  pool (m_pUnitQueue q) H -> free (m_pUnitQueue q) place ->
  runs (if CPacket.isControl pkt then emit (ProcessCtrl u pkt) else emit (ProcessData u pkt);; (if keepsUnit env q u pkt then update (take_unit place) else mret tt)) q
    (fun _ e q' => e = [if CPacket.isControl pkt then ProcessCtrl u pkt else ProcessData u pkt] /\ exists x H', q' = set_units x q /\ pool x H'
       /\ CUnitQueue.m_iSize x = CUnitQueue.m_iSize (m_pUnitQueue q) /\ CUnitQueue.m_iBlockSize x = CUnitQueue.m_iBlockSize (m_pUnitQueue q)).
Proof.
  intros HP HF. assert (q = set_units (m_pUnitQueue q) q) as Eq by (by destruct q). destruct (CPacket.isControl pkt).
  - apply runs_emit. split; [done|]. exists (m_pUnitQueue q), H. by split.
  - apply runs_bind, runs_emit. destruct (keepsUnit env q u pkt).
    + destruct (take_pool place _ H HP HF) as (x & Ex & Px & Sx & Bx). eapply runs_update; [unfold take_unit; rewrite Ex; reflexivity|]. split; [done|]. by exists x, ({[place]} ∪ H).
    + apply runs_ret. split; [done|]. exists (m_pUnitQueue q), H. by split.
Qed.

Lemma addressed_run now other id T Tm l q H :
  reg T l q -> 0 < id -> T <= now <= Tm -> pool (m_pUnitQueue q) H -> free (m_pUnitQueue q) place ->
  runs (other id pkt addr) q (fun _ e q' => outcome T Tm q addr id pkt e q') ->
  runs (addressed env place now other id pkt addr) q (fun _ e q' => outcome T Tm q addr id pkt e q').
Proof.
  intros R Hid HT HP HF HO. destruct (rg_hash _ _ _ R) as (m & Hm & Hi). unfold addressed. apply runs_bind. eapply runs_ask; [apply (hr_lookup _ _ Hm); lia|]. destruct (m !! id) as [u|] eqn:Eu; [|exact HO].
  apply Hi in Eu as [Hu Hsid]. destruct (sid_bounds q u id Hsid) as (k & Hk & Eid). apply runs_bind. eapply runs_ask; [exact Hk|].
  destruct (negb (addr =? m_PeerAddr k) && negb (bSRTLA k)) eqn:Ea; [apply runs_ret; apply (outcome_same _ _ l _ _ H); try done; lia|].
  assert (m_PeerAddr k = addr \/ bSRTLA k = true) as Hpeer by (destruct (Z.eqb_spec addr (m_PeerAddr k)), (bSRTLA k); auto; done). clear Ea.
  destruct (negb (m_bConnected k) || m_bBroken k || m_bClosing k).
  - destruct (similar_upd q u (with_reject SRT_REJ_CLOSE)) as (q1 & E1 & S1 & U1); [by exists k|done|]. apply runs_bind. eapply runs_update; [exact E1|]. apply runs_ret.
    apply (outcome_same _ _ l _ _ H); try done; [by apply (similar_reg _ _ _ _ S1)|lia|apply (sm_fix _ _ S1)|by rewrite U1].
  - assert (reaches q addr id pkt (if CPacket.isControl pkt then ProcessCtrl u pkt else ProcessData u pkt)) as Hrc.
    { assert (sfix q u = Some (id, m_PeerAddr k, bSRTLA k)) as Hsf by (unfold sfix; rewrite Hk; cbn; unfold fixed; by rewrite Eid). destruct (CPacket.isControl pkt); (split; [done|]); exists id, (m_PeerAddr k), (bSRTLA k); auto. }
    apply runs_bind, runs_get, runs_bind. eapply runs_weaken; [apply (process_run q u H HP HF)|]. intros [] e1 q1 (-> & x & H' & -> & Px & Sx & Bx). apply runs_bind, runs_emit, runs_bind.
    destruct (touch_reg T l (set_units x q) u now (similar_reg _ _ _ _ (similar_units q x) R) Hu ltac:(lia)) as (q2 & E2 & R2 & Es2 & Ee2 & Ec2 & Ep2).
    eapply runs_update; [exact E2|]. apply runs_ret. split; [|cbn; apply list.Forall_cons; split; [done|repeat constructor]]. constructor.
    + eexists _, _. split; [exact R2|lia].
    + intros v. unfold sfix. by rewrite Es2.
    + exists H'. rewrite Ep2. exact Px.
    + rewrite Ep2. exact (conj Sx Bx).
Qed.

Lemma retrieve_run q id :
  Forall (fun r => sid q (r_pUDT r) = Some (r_iID r)) (m_lRendezvousID q) ->
  exists x, rdv_retrieve (m_sockets q) addr id (m_lRendezvousID q) = Some x
    /\ match x with Some (u, id') => exists r, r ∈ m_lRendezvousID q /\ u = r_pUDT r /\ id' = r_iID r /\ r_PeerAddr r = addr /\ (id = 0 \/ id = id') | None => True end.
Proof.
  induction (m_lRendezvousID q) as [|r rest IH]; cbn [rdv_retrieve]; intros HF; [by exists None|]. apply list.Forall_cons in HF as [Hr HF]. destruct (IH HF) as (x & Ex & Hx).
  assert (match x with Some (u, id') => exists r', r' ∈ r :: rest /\ u = r_pUDT r' /\ id' = r_iID r' /\ r_PeerAddr r' = addr /\ (id = 0 \/ id = id') | None => True end) as Hx' by (destruct x as [[u id']|]; [|done]; destruct Hx as (r' & Hin & Hx); exists r'; split; [by apply list_elem_of_further|done]).
  destruct ((r_PeerAddr r =? addr) && ((id =? 0) || (id =? r_iID r))) eqn:E; [|by exists x]. destruct (sid_bounds _ _ _ Hr) as (k & -> & _). cbn [mbind option_bind]. destruct ((id =? 0) && negb (bRendezvous k)); [by exists x|].
  eexists. split; [reflexivity|]. exists r. split; [apply list_elem_of_here|]. apply andb_true_iff in E as [E1%Z.eqb_eq E2]. apply orb_true_iff in E2 as [E2%Z.eqb_eq|E2%Z.eqb_eq]; auto.
Qed.

(** The socket of a connector connects, or not. *)
Lemma maybe_connect_run (accepted : bool) T l q r k :
  reg T l q -> r ∈ m_lRendezvousID q -> m_SocketID k = r_iID r ->
  runs (if accepted then postConnect (r_pUDT r) (m_SocketID k) else mret tt) q (fun _ e q' => e = [] /\ reg T l q' /\ (forall u, sfix q' u = sfix q u) /\ m_pUnitQueue q' = m_pUnitQueue q
    /\ (2 * length (m_lRendezvousID q') + length (m_vNewEntry q') <= 2 * length (m_lRendezvousID q) + length (m_vNewEntry q))%nat
    /\ (forall r', r' ∈ m_lRendezvousID q -> r_pUDT r' <> r_pUDT r -> r' ∈ m_lRendezvousID q') /\ (accepted = false -> q' = q)).
Proof.
  intros R Hr ->. destruct accepted.
  - eapply runs_weaken; [apply (postConnect_run T l q r R Hr)|]. intros [] e q' (-> & R' & F & Ee & Eu & El & _ & Hk). split_and!; try done. rewrite Ee, length_app, El. cbn. lia.
  - apply runs_ret. by split_and!.
Qed.

Lemma reqtime_run q u v : (exists k, aget (m_sockets q) u = Some k) -> exists q', upd_socket u (with_reqtime v) q = Some q' /\ similar q q' /\ m_pUnitQueue q' = m_pUnitQueue q.
Proof. intros Hk. by apply similar_upd. Qed.

(** A socket is found again after its state was changed. *)
Lemma sfix_bounds q q' u k : (forall u, sfix q' u = sfix q u) -> aget (m_sockets q) u = Some k -> exists k', aget (m_sockets q') u = Some k'.
Proof. intros HF Hk. specialize (HF u). unfold sfix in HF. rewrite Hk in HF. cbn in HF. destruct (aget (m_sockets q') u) as [k'|]; [by exists k'|done]. Qed.

Lemma try_run clk : (forall n m, (m <= n)%nat -> clk n <= clk m) -> response_ok -> forall f id T l q H,
  reg T l q -> 0 <= id -> (2 * length (m_lRendezvousID q) + length (m_vNewEntry q) < f)%nat -> T <= clk f -> pool (m_pUnitQueue q) H -> free (m_pUnitQueue q) place ->
  runs (worker_TryAsyncRend_OrStore env place clk f id pkt addr) q (fun _ e q' => outcome T (clk 0%nat) q addr id pkt e q').
Proof.
  intros HC Hresp. induction f as [|f IH]; intros id T l q H R Hid Hm HT HP HF; [lia|]. cbn [worker_TryAsyncRend_OrStore]. pose proof (HC (S f) 0%nat ltac:(lia)) as HT0. pose proof (HC (S f) f ltac:(lia)) as HTf.
  apply runs_bind. destruct (retrieve_run q id (rg_conn _ _ _ R)) as (x & Ex & Hx). eapply runs_ask; [exact Ex|]. destruct x as [[u id']|]; [|apply runs_ret; apply (outcome_same _ _ l _ _ H); done || lia].
  destruct Hx as (r & Hr & -> & -> & Hpa & Hii). pose proof (rg_conn _ _ _ R) as HCn. rewrite list.Forall_forall in HCn. pose proof (HCn r Hr) as Hsid. destruct (sid_bounds _ _ _ Hsid) as (k & Hk & Eid). pose proof (rg_pos _ _ _ R _ _ Hsid) as Hpos.
  apply runs_bind. eapply runs_ask; [exact Hk|]. destruct (negb (bSynRecving k)).
  2:{ apply runs_bind, runs_modify, runs_ret. pose proof (similar_store q (r_iID r) pkt) as S. apply (outcome_same _ _ l _ _ H); try done; [by apply (similar_reg _ _ _ _ S)|lia|apply (sm_fix _ _ S)| |];
      unfold storePktClone; destruct (m_mBuffer q !! r_iID r); try done; by destruct (16 <? _). }
  apply runs_bind, runs_get. destruct (on_connect_response env q (r_pUDT r) pkt) as [cst accepted] eqn:Er. apply runs_bind, runs_emit, runs_bind.
  eapply runs_weaken; [apply (maybe_connect_run accepted T l q r k R Hr Eid)|]. intros [] e1 q1 (-> & R1 & F1 & U1 & M1 & C1 & Q1). apply runs_bind.
  destruct (reqtime_run q1 (r_pUDT r) 0 (sfix_bounds q q1 _ _ F1 Hk)) as (q2 & E2 & S2 & U2). eapply runs_update; [exact E2|]. pose proof (similar_reg _ _ _ _ S2 R1) as R2.
  assert (forall v, sfix q2 v = sfix q v) as F2 by (intros v; by rewrite (sm_fix _ _ S2), F1). assert (m_pUnitQueue q2 = m_pUnitQueue q) as U2' by congruence.
  apply runs_bind. destruct (decide (cst = CONN_CONFUSED)) as [->|Hcst].
  - assert (accepted = false) as -> by (destruct accepted; [by destruct (Hresp _ _ _ _ Er)|done]). specialize (Q1 eq_refl). subst q1. apply runs_bind, runs_modify, runs_bind, runs_get.
    pose proof (similar_trans _ _ _ S2 (similar_store q2 (r_iID r) pkt)) as S3. set (q3 := storePktClone (r_iID r) pkt q2) in *. assert (m_pUnitQueue q3 = m_pUnitQueue q) as U3 by (rewrite <- U2'; unfold q3, storePktClone; destruct (m_mBuffer q2 !! r_iID r); try done; by destruct (16 <? _)).
    destruct (on_connect_resend env q3 (r_pUDT r) RST_AGAIN CONN_CONTINUE) as [[okk acc] req]. apply runs_bind, runs_emit, runs_bind.
    destruct (reqtime_run q3 (r_pUDT r) req (sfix_bounds q q3 _ _ (sm_fix _ _ S3) Hk)) as (q4 & E4 & S4 & U4). eapply runs_update; [exact E4|]. pose proof (similar_trans _ _ _ S3 S4) as S5. pose proof (similar_reg _ _ _ _ S5 R) as R4.
    apply runs_bind. eapply runs_weaken; [apply (maybe_connect_run acc T l q4 r k R4); [by rewrite (sm_conn _ _ S5)|done]|]. intros [] e5 q5 (-> & R5 & F5 & U5 & _). apply runs_ret.
    rewrite decide_False by (by destruct okk). apply runs_ret. apply (outcome_same _ _ l _ _ H); try done; [lia|intros v; by rewrite F5, (sm_fix _ _ S5)|by rewrite U5, U4, U3|by rewrite U5, U4, U3|repeat constructor].
  - apply runs_ret. destruct (decide (cst = CONN_ACCEPT)) as [->|_]; [|apply runs_ret; apply (outcome_same _ _ l _ _ H); try done; [lia|by rewrite U2'|repeat constructor]].
    destruct (CPacket.isControl pkt); [apply runs_ret; apply (outcome_same _ _ l _ _ H); try done; [lia|by rewrite U2'|repeat constructor]|].
    apply runs_bind. unfold getNewEntry. apply runs_bind, runs_get. destruct (m_vNewEntry q2) as [|ne rest] eqn:Ene; [apply runs_ret, runs_ret; apply (outcome_same _ _ l _ _ H); try done; [lia|by rewrite U2'|repeat constructor]|].
    apply runs_bind, runs_modify, runs_ret, runs_bind. destruct (enlist_reg T l q2 ne rest (clk (S f)) R2 Ene HT) as (q3 & E3 & R3 & Es3 & Ee3 & Ec3 & Ep3). eapply runs_update; [exact E3|]. apply runs_bind.
    assert (forall v, sfix q3 v = sfix q v) as F3 by (intros v; rewrite <- F2; unfold sfix; by rewrite Es3). assert (m_pUnitQueue q3 = m_pUnitQueue q) as U3 by congruence.
    assert (pool (m_pUnitQueue q3) H) as HP3 by (by rewrite U3). assert (free (m_pUnitQueue q3) place) as HF3 by (by rewrite U3).
    eapply runs_weaken; [apply (addressed_run (clk f) (worker_TryAsyncRend_OrStore env place clk f) (r_iID r) (clk (S f)) (clk 0%nat) _ q3 H R3 Hpos)|].
    + split; [lia|]. apply HC. lia.
    + exact HP3.
    + exact HF3.
    + apply (IH _ _ _ _ H R3); try done; [lia|]. rewrite Ec3, Ee3, (sm_conn _ _ S2). pose proof (sm_entries _ _ S2) as Ee. rewrite Ene in Ee. rewrite <- Ee in M1. cbn [length] in M1. lia.
    + intros c e q' O. apply runs_ret. cbn [app]. rewrite !app_nil_r. apply (outcome_from (clk (S f)) T _ q q3 q' addr (r_iID r) id pkt [ProcessAsyncConnectResponse (r_pUDT r) pkt] e); [exact F3|exact U3|exact HT|exact Hii|repeat constructor|exact O].
Qed.

End Dispatch.

(** ** Going on with the connecting sockets *)

(** The connector an entry was made of. *)
Definition made_of (l : list CRL) (i : LinkStatusInfo) : Prop := exists r, r ∈ l /\ r_pUDT r = i_u i /\ r_iID r = i_id i.

Lemma made_of_mono l l' i : (forall r, r ∈ l -> r ∈ l') -> made_of l i -> made_of l' i.
Proof. intros H (r & Hr & E). exists r. split; [by apply H|done]. Qed.

Lemma qualify_run rst dst clk l socks :
  Forall (fun r => exists k, aget socks (r_pUDT r) = Some k) l ->
  exists l' rems procs socks', qualify rst dst clk l socks = Some (l', rems, procs, socks') /\ sublist l' l /\ length socks' = length socks
    /\ (forall u, fixed <$> aget socks' u = fixed <$> aget socks u) /\ Forall (made_of l') procs /\ sublist (i_u <$> procs) (r_pUDT <$> l') /\ Forall (made_of l) rems.
Proof.
  revert socks. induction l as [|r l IH]; intros socks HF; cbn [qualify]; [eexists [], [], [], socks; split; [reflexivity|]; by split_and!|]. apply list.Forall_cons in HF as [[k Hk] HF]. rewrite Hk. cbn [mbind option_bind].
  destruct (qualify_one rst dst (clk (length l)) r k) as [[[stays rem] proc] reason] eqn:Eq. rewrite (aupd_Some _ _ _ _ Hk). cbn [mbind option_bind]. pose proof (aget_in_bounds _ _ _ Hk) as Hb.
  set (s1 := <[Z.to_nat (r_pUDT r) := with_reject reason k]> socks).
  assert (forall u, fixed <$> aget s1 u = fixed <$> aget socks u) as Hs1.
  { intros u. unfold s1. destruct (decide (r_pUDT r = u)) as [<-|Hne]; [rewrite aget_insert_eq, Hk by done; done|]. rewrite aget_insert_ne; [done|unfold in_bounds in Hb; lia|done]. }
  destruct (IH s1) as (l' & rems & procs & s2 & -> & Hsub & Hlen & Hfix & Hp & Hps & Hr).
  { eapply Forall_impl; [|exact HF]. cbn. intros x [kx Hx]. apply aget_is_Some. apply in_bounds_insert. by eapply aget_in_bounds. }
  cbn [mbind option_bind]. eexists _, _, _, _. split; [reflexivity|].
  assert ((forall i, rem = Some i -> made_of [r] i) /\ (forall i, proc = Some i -> stays = true /\ i_u i = r_pUDT r /\ made_of [r] i)) as [Hrem Hproc].
  { assert (forall c, made_of [r] (mkInfo (r_pUDT r) (r_iID r) c (r_PeerAddr r))) as Hmk by (intros c; exists r; split; [apply list_elem_of_here|done]).
    unfold qualify_one in Eq. repeat case_match; simplify_eq; split; intros i E; first [discriminate E|injection E as <-; by auto]. }
  split_and!.
  - destruct stays; cbn; [by apply sublist_skip|by apply sublist_cons].
  - rewrite Hlen. unfold s1. apply length_insert.
  - intros u. by rewrite Hfix, Hs1.
  - apply Forall_app. split.
    + destruct proc as [i|]; [|constructor]. destruct (Hproc i eq_refl) as (-> & _ & Hm). repeat constructor. eapply made_of_mono; [|exact Hm]. set_solver.
    + eapply Forall_impl; [|exact Hp]. intros i. apply made_of_mono. set_solver.
  - destruct proc as [i|]; cbn [opt_list app].
    + destruct (Hproc i eq_refl) as (-> & Hi & _). rewrite fmap_cons. cbn. rewrite Hi. by apply sublist_skip.
    + destruct stays; cbn; [by apply sublist_cons|done].
  - apply Forall_app. split.
    + destruct rem as [i|]; [|constructor]. repeat constructor. eapply made_of_mono; [|by apply Hrem]. set_solver.
    + eapply Forall_impl; [|exact Hr]. intros i. apply made_of_mono. set_solver.
Qed.

(** What the pass leaves unchanged. *)
Definition carried (T : Z) (l : entries) (q q' : t) : Prop := reg T l q' /\ (forall u, sfix q' u = sfix q u) /\ m_pUnitQueue q' = m_pUnitQueue q.

Lemma process_connectors_run env rst cst dst ins T l q :
  reg T l q -> Forall (made_of (m_lRendezvousID q)) ins -> NoDup (i_u <$> ins) ->
  runs (process_connectors env rst cst dst ins) q (fun more _ q' => carried T l q q' /\ Forall (fun i => exists i', i' ∈ ins /\ i_u i = i_u i' /\ i_id i = i_id i') more).
Proof.
  revert q. induction ins as [|i ins IH]; intros q R HM HN; cbn [process_connectors]; [by apply runs_ret|]. apply list.Forall_cons in HM as [(r & Hr & Eu & Ei) HM]. rewrite fmap_cons in HN. apply list.NoDup_cons in HN as [Hni HN].
  pose proof (rg_conn _ _ _ R) as HC. rewrite list.Forall_forall in HC. destruct (sid_bounds _ _ _ (HC r Hr)) as (k & Hk & Eid).
  assert (forall q1, carried T l q q1 -> (forall r', r' ∈ m_lRendezvousID q -> r_pUDT r' <> r_pUDT r -> r' ∈ m_lRendezvousID q1) -> forall more, Forall (fun x => exists i', i' ∈ i :: ins /\ i_u x = i_u i' /\ i_id x = i_id i') more ->
    runs (process_connectors env rst cst dst ins ≫= fun rems => mret (more ++ rems)) q1 (fun b _ q' => carried T l q q' /\ Forall (fun x => exists i', i' ∈ i :: ins /\ i_u x = i_u i' /\ i_id x = i_id i') b)) as Hrest.
  { intros q1 (R1 & F1 & U1) Hc more Hmore. apply runs_bind. eapply runs_weaken; [apply (IH q1 R1)|].
    - apply list.Forall_forall. intros x Hx. rewrite list.Forall_forall in HM. destruct (HM x Hx) as (rx & Hrx & Ex & Ex'). exists rx. split; [|done]. apply Hc; [done|]. rewrite Eu, Ex. intros E. apply Hni. rewrite <- E. by apply list_elem_of_fmap_2.
    - done.
    - intros b e q2 ((R2 & F2 & U2) & Hb). apply runs_ret. split; [split; [done|]; split; [intros v; by rewrite F2|congruence]|]. apply Forall_app. split; [done|]. eapply Forall_impl; [|exact Hb]. cbn. intros x (i' & Hi' & E). exists i'. split; [by apply list_elem_of_further|done]. }
  apply runs_bind. destruct (negb (exists_socket env (i_id i))).
  - apply runs_ret. apply (Hrest q); [by split_and!|done|repeat constructor; exists i; split; [apply list_elem_of_here|done]].
  - destruct (if bool_decide (cst = CONN_RENDEZVOUS) || (i_id i =? dst) then (rst, cst) else (RST_AGAIN, CONN_AGAIN)) as [read_st conn_st]. apply runs_bind, runs_get, runs_bind. rewrite <- Eu. eapply runs_ask; [exact Hk|].
    destruct (on_connect_resend env q (r_pUDT r) read_st conn_st) as [[okk accepted] req]. apply runs_bind, runs_emit, runs_bind.
    destruct (reqtime_run q (r_pUDT r) req) as (q1 & E1 & S1 & U1); [by exists k|]. eapply runs_update; [exact E1|]. apply runs_bind. eapply runs_weaken; [apply (maybe_connect_run accepted T l q1 r k (similar_reg _ _ _ _ S1 R)); [by rewrite (sm_conn _ _ S1)|done]|].
    intros [] e2 q2 (-> & R2 & F2 & U2 & _ & C2 & _). rewrite (sm_conn _ _ S1) in C2. assert (carried T l q q2) as K2 by (split; [done|]; split; [intros v; by rewrite F2, (sm_fix _ _ S1)|congruence]).
    destruct okk; [apply runs_ret; apply (Hrest q2 K2 C2 []); constructor|].
    apply runs_bind, runs_emit, runs_ret. apply (Hrest q2 K2 C2). repeat constructor. exists i. split; [apply list_elem_of_here|done].
Qed.

Lemma rdv_remove_sublist id l : sublist (rdv_remove id l) l.
Proof. induction l as [|r l IH]; cbn [rdv_remove]; [done|]. destruct (r_iID r =? id); [by apply sublist_cons|by apply sublist_skip]. Qed.

Lemma remove_connectors_run env ins T l q :
  reg T l q -> Forall (fun i => exists k, aget (m_sockets q) (i_u i) = Some k) ins -> runs (remove_connectors env ins) q (fun _ _ q' => carried T l q q').
Proof.
  revert q. induction ins as [|i ins IH]; intros q R HM; cbn [remove_connectors]; [by apply runs_ret|]. apply list.Forall_cons in HM as [[k Hk] HM]. apply runs_bind, runs_modify.
  set (q1 := set_connectors (rdv_remove (i_id i) (m_lRendezvousID q)) q). assert (reg T l q1) as R1.
  { apply reg_connectors; [done|apply fmap_sublist, rdv_remove_sublist|]. eapply sublist_Forall; [apply rdv_remove_sublist|]. apply (rg_conn _ _ _ R). }
  assert (forall q2, similar q1 q2 -> m_pUnitQueue q2 = m_pUnitQueue q -> runs (remove_connectors env ins) q2 (fun _ _ q' => carried T l q q')) as Hrest.
  { intros q2 S2 U2. eapply runs_weaken; [apply (IH q2 (similar_reg _ _ _ _ S2 R1))|].
    - eapply Forall_impl; [|exact HM]. cbn. intros x [kx Hx]. by apply (sfix_bounds q q2 _ kx); [intros u; apply (sm_fix _ _ S2)|].
    - intros [] e q3 (R3 & F3 & U3). split; [done|]. split; [intros u; rewrite F3; apply (sm_fix _ _ S2)|congruence]. }
  apply runs_bind. destruct (negb (exists_socket env (i_id i))).
  - apply runs_ret. apply Hrest; [apply similar_refl|done].
  - destruct (similar_upd q1 (i_u i) (with_connecting false)) as (q2 & E2 & S2 & U2); [by exists k|done|]. apply runs_bind. eapply runs_update; [exact E2|]. apply runs_bind, runs_emit, runs_emit. by apply Hrest.
Qed.

Lemma updateConnStatus_run env rst cst pkt clk T l q : reg T l q -> runs (updateConnStatus env rst cst pkt clk) q (fun _ _ q' => carried T l q q').
Proof.
  intros R. unfold updateConnStatus. apply runs_bind, runs_get. destruct (decide _) as [|_]; [apply runs_ret; by split_and!|]. apply runs_bind. unfold qualifyToHandle. apply runs_bind.
  destruct (qualify_run rst (match pkt with Some p => i32 (CPacket.ph_id p) | None => 0 end) clk (m_lRendezvousID q) (m_sockets q)) as (conn & rems & procs & socks & Eq & Hsub & Hlen & Hfix & Hp & Hps & Hr).
  { eapply Forall_impl; [|exact (rg_conn _ _ _ R)]. cbn. intros r (k & Hk & _)%sid_bounds. by exists k. }
  eapply runs_ask; [exact Eq|]. apply runs_bind, runs_modify, runs_ret. set (q1 := set_connectors conn (set_sockets socks q)).
  assert (similar q (set_sockets socks q)) as S1 by (by constructor). pose proof (similar_reg _ _ _ _ S1 R) as R0.
  assert (reg T l q1) as R1.
  { apply reg_connectors; [done|by apply fmap_sublist|]. eapply sublist_Forall; [exact Hsub|]. apply (rg_conn _ _ _ R0). }
  assert (forall u, sfix q1 u = sfix q u) as F1 by exact Hfix.
  destruct (decide (rems = [] /\ procs = [])) as [_|_]; [apply runs_ret; by split_and!|]. apply runs_bind. eapply runs_weaken; [apply (process_connectors_run env rst cst _ procs T l q1 R1 Hp)|].
  - eapply sublist_NoDup; [|exact Hps]. pose proof (rg_once _ _ _ R1) as (_ & _ & (_ & _ & HN)%list.NoDup_app)%list.NoDup_app. exact HN.
  - intros more e2 q2 ((R2 & F2 & U2) & Hmore). assert (forall u, sfix q2 u = sfix q u) as F2' by (intros u; by rewrite F2). apply runs_bind. eapply runs_weaken; [apply (remove_connectors_run env (rems ++ more) T l q2 R2)|].
    + assert (forall x, made_of (m_lRendezvousID q) x -> exists k, aget (m_sockets q2) (i_u x) = Some k) as Hmade.
      { intros x (r & Hin & Eu & _). pose proof (rg_conn _ _ _ R) as HC. rewrite list.Forall_forall in HC. destruct (sid_bounds _ _ _ (HC r Hin)) as (k & Hk & _). rewrite <- Eu. by apply (sfix_bounds q q2 _ k). }
      assert (forall r, r ∈ conn -> r ∈ m_lRendezvousID q) as Hin by (intros r Hin; by eapply elem_of_sublist).
      apply Forall_app. split; (eapply Forall_impl; [|eassumption]); [exact Hmade|]. cbn. intros x (i' & Hi' & Eu & _). rewrite Eu. apply Hmade. rewrite list.Forall_forall in Hp. eapply made_of_mono; [exact Hin|by apply Hp].
    + intros [] e3 q3 (R3 & F3 & U3). apply runs_modify. split; [|split; [intros u; rewrite <- F2'; apply F3|by rewrite <- U3 in U2]].
      assert (r_pUDT <$> (expire (i_id <$> (rems ++ more)) <$> m_lRendezvousID q3) = r_pUDT <$> m_lRendezvousID q3) as Ex by (rewrite <- list_fmap_compose; apply list_fmap_ext; intros j r _; cbn; unfold expire; by case_decide).
      apply reg_connectors; [done|by rewrite Ex|]. apply Forall_fmap. eapply Forall_impl; [|exact (rg_conn _ _ _ R3)]. cbn. intros r Hs. unfold expire. by case_decide.
Qed.
