(* ===== verification/RcvQueueProps.v ===== *)
(** * What the receiving queue guarantees

    Over every sequence of iterations of the worker, of sockets that are accepted,
    start to connect, close or break, and of packets that are read or released. *)

From Stdlib Require Import Sorted.
From S2P Require Import Prelude Packet Queue QueueSpec RcvUListSpec RcvQueue RcvQueueSpec.

Import CRcvQueue.

(** ** One iteration *)

(** The clock of an iteration, from [T] on. *)
Definition round_ok (T : Z) (r : round) : Prop :=
  clock T (rd_entries r) /\ clock (rd_entries r 0%nat) (rd_dispatch r) /\ clock (rd_dispatch r 0%nat) (rd_serve r) /\ forall n, rd_limit r <= rd_serve r n.

(** The pool grows by one block at most. *)
Definition grown (q q' : t) : Prop :=
  (exists H, pool (m_pUnitQueue q') H)
  /\ CUnitQueue.m_iSize (m_pUnitQueue q') <= CUnitQueue.m_iSize (m_pUnitQueue q) + CUnitQueue.m_iBlockSize (m_pUnitQueue q)
  /\ CUnitQueue.m_iBlockSize (m_pUnitQueue q') = CUnitQueue.m_iBlockSize (m_pUnitQueue q).

Lemma passes_run env r rst cst pkt T l q :
  reg T l q -> clock T (rd_serve r) -> (forall n, rd_limit r <= rd_serve r n) ->
  runs (worker_passes env r rst cst pkt) q (fun _ _ q' => (exists T' l', reg T' l' q' /\ T' <= rd_serve r 0%nat) /\ m_pUnitQueue q' = m_pUnitQueue q).
Proof.
  intros R HC HL. unfold worker_passes. apply runs_bind, runs_get, runs_bind. eapply runs_weaken; [by apply (serve_run T l)|]. intros [] e q1 (_ & _ & _ & _ & U1 & T1 & late & R1 & HT1 & _).
  eapply runs_weaken; [by apply (updateConnStatus_run _ _ _ _ _ _ _ _ R1)|]. intros [] e2 q2 (R2 & _ & U2). split; [|congruence]. eexists _, _. split; [exact R2|lia].
Qed.

Lemma iteration_run env r cst T l q H :
  response_ok env -> reg T l q -> round_ok T r -> pool (m_pUnitQueue q) H -> CUnitQueue.m_iSize (m_pUnitQueue q) + CUnitQueue.m_iBlockSize (m_pUnitQueue q) <= 2 ^ 27 ->
  runs (worker_iteration env r cst) q (fun _ _ q' => (exists T' l', reg T' l' q' /\ T' <= rd_serve r 0%nat) /\ grown q q').
Proof.
  intros Hresp R (C1 & C2 & C3 & HL) HP HB. pose proof (pl_block _ _ HP) as Hbs. unfold worker_iteration, worker_RetrieveUnit. apply runs_bind, runs_bind, runs_get, runs_bind.
  eapply runs_weaken; [by apply (take_entries_run _ _ T l)|]. intros [] e1 q1 (-> & N1 & S1 & K1 & U1 & T1 & l1 & R1 & HT1 & _). rewrite <- U1 in HP, HB, Hbs.
  destruct (get_run (rd_memory r) (m_pUnitQueue q1) H HP HB) as (place & x & Ex & Px & Sx & Bx & Hx). apply runs_bind. eapply runs_ask; [exact Ex|]. cbn [fst snd]. apply runs_bind, runs_modify. set (q2 := set_units x q1).
  pose proof (similar_reg _ _ _ _ (similar_units q1 x) R1) as R2. fold q2 in R2. pose proof (proj1 C2 0%nat) as L2. pose proof (proj1 C3 0%nat) as L3.
  assert (forall c pk, runs (worker_passes env r RST_AGAIN c pk;; mret c) q2 (fun _ _ q' => (exists T' l', reg T' l' q' /\ T' <= rd_serve r 0%nat) /\ grown q q')) as Hpass.
  { intros c pk. apply runs_bind. eapply runs_weaken; [apply (passes_run env r RST_AGAIN c pk T1 l1 q2 R2); [|exact HL]|].
    - destruct C3 as [H1 H2]. split; [|exact H2]. intros n. specialize (H1 n). lia.
    - intros [] e3 q3 (HR & U3). apply runs_ret. split; [exact HR|]. unfold grown. rewrite U3, <- U1. split; [by exists H|]. split; [exact (proj2 Sx)|exact Bx]. }
  assert (forall c, runs (mret c : M EConnectStatus) q2 (fun _ _ q' => (exists T' l', reg T' l' q' /\ T' <= rd_serve r 0%nat) /\ grown q q')) as Hstop.
  { intros c. apply runs_ret. split; [exists T1, l1; split; [done|lia]|]. unfold grown. rewrite <- U1. split; [by exists H|]. split; [exact (proj2 Sx)|exact Bx]. }
  destruct place as [place|].
  - apply runs_ret. destruct (d_status (rd_datagram r)); [|apply Hpass|apply Hstop]. apply runs_bind. unfold dispatch. destruct (rd_srtla r); [apply runs_ret, Hstop|]. set (id := i32 (CPacket.ph_id (d_packet (rd_datagram r)))). destruct (Z.ltb_spec id 0); [apply runs_ret, Hstop|].
    apply runs_bind, runs_get, runs_bind. assert (forall n m, (m <= n)%nat -> rd_dispatch r n <= rd_dispatch r m) as Hanti by exact (proj2 C2).
    assert (forall id', 0 <= id' -> runs (worker_TryAsyncRend_OrStore env place (rd_dispatch r) (levels q2) id' (d_packet (rd_datagram r)) (d_addr (rd_datagram r))) q2 (fun _ e q' => outcome T1 (rd_dispatch r 0%nat) q2 (d_addr (rd_datagram r)) id' (d_packet (rd_datagram r)) e q')) as Htry.
    { intros id' Hid'. apply (try_run env place _ _ (rd_dispatch r) Hanti Hresp (levels q2) id' T1 l1 q2 H R2 Hid'); [unfold levels; lia| |exact Px|exact Hx]. pose proof (proj1 C2 (levels q2)). lia. }
    eapply (runs_weaken _ _ (fun _ e q' => kept T1 (rd_dispatch r 0%nat) q2 q')).
    + destruct (Z.eqb_spec id 0) as [_|Hne].
      * unfold worker_ProcessConnectionRequest. apply runs_bind, runs_get. destruct (m_pListener q2) as [u|].
        -- apply runs_bind, runs_emit, runs_ret. constructor; [exists T1, l1; split; [done|lia]|done|by exists H|done].
        -- eapply runs_weaken; [by apply (Htry 0)|]. intros c e q' O. exact (proj1 O).
      * eapply runs_weaken; [apply (addressed_run env place _ _ (rd_dispatch r (levels q2)) _ id T1 (rd_dispatch r 0%nat) l1 q2 H R2); [lia| |exact Px|exact Hx|by apply Htry]|].
        -- split; [pose proof (proj1 C2 (levels q2)); lia|]. apply Hanti. lia.
        -- intros c e q' O. exact (proj1 O).
    + intros c e q3 [(T3 & l3 & R3 & HT3) F3 (H3 & P3) [S3 B3]]. apply runs_ret. assert (grown q q3) as Hg by (unfold grown; rewrite S3, B3, <- U1; split; [by exists H3|]; split; [exact (proj2 Sx)|exact Bx]).
      assert (runs (worker_passes env r RST_OK c (Some (d_packet (rd_datagram r)));; mret c) q3 (fun _ _ q' => (exists T' l', reg T' l' q' /\ T' <= rd_serve r 0%nat) /\ grown q q')) as Hgo.
      { apply runs_bind. eapply runs_weaken; [apply (passes_run env r RST_OK c _ T3 l3 q3 R3); [|exact HL]|].
        - destruct C3 as [G1 G2]. split; [|exact G2]. intros n. specialize (G1 n). lia.
        - intros [] e4 q4 (HR & U4). apply runs_ret. split; [exact HR|]. unfold grown in *. rewrite U4. exact Hg. }
      destruct c; try exact Hgo. apply runs_ret. split; [|exact Hg]. exists T3, l3. split; [done|lia].
  - apply runs_ret. destruct (d_status (rd_datagram r)); cbn; [apply Hpass|apply Hpass|apply Hstop].
Qed.

(** ** Sequences of operations *)

(** What happens to the queue: an iteration; a socket accepted by the listener; a
    socket that starts to connect or gives up; a listener that comes or goes; a socket
    whose state changes; a waiting packet that is read; a unit that is released. *)
Inductive op :=
| Iterate (r : round)
| Accept (u : Z)
| Connect (u addr ttl : Z)
| GiveUp (id : Z)
| Listen (u : Z)
| Unlisten (u : Z)
| State (u : Z) (connected broken closing : bool)
| Receive (id size : Z)
| Release (p : nat * nat).

Definition do_op (env : answers) (o : op) (x : EConnectStatus * t) : option (list call * (EConnectStatus * t)) :=
  let '(cst, q) := x in
  match o with
  | Iterate r => y ← worker_iteration env r cst q; Some (y.1.2, (y.1.1, y.2))
  | Accept u => q ← setNewEntry u q; Some ([], (cst, q))
  | Connect u addr ttl => k ← aget (m_sockets q) u; Some ([], (cst, registerConnector (m_SocketID k) u addr ttl q))
  | GiveUp id => Some ([], (cst, removeConnector id q))
  | Listen u => Some ([], (cst, snd (setListener u q)))
  | Unlisten u => Some ([], (cst, snd (removeListener u q)))
  | State u a b c => q ← upd_socket u (with_state a b c) q; Some ([], (cst, q))
  | Receive id size => y ← recvfrom id size q; Some ([], (cst, y.2))
  | Release p => x ← CUnitQueue.makeUnitFree p (m_pUnitQueue q); Some ([], (cst, set_units x q))
  end.

Fixpoint do_ops (env : answers) (os : list op) (x : EConnectStatus * t) : option (list call * (EConnectStatus * t)) :=
  match os with
  | [] => Some ([], x)
  | o :: rest => y ← do_op env o x; z ← do_ops env rest y.2; Some (y.1 ++ z.1, z.2)
  end.

(** A socket that is neither in the list nor on its way to it. *)
Definition idle (q : t) (u : Z) : Prop :=
  match aget (CRcvUList.m_nodes (m_pRcvUList q)) u with Some n => CRcvUList.m_bOnList n = false | None => False end
  /\ u ∉ m_vNewEntry q /\ u ∉ r_pUDT <$> m_lRendezvousID q.

(** What the rest of the program sees to: only idle sockets are accepted or start to
    connect, only units in use are released, the clock does not go back. *)
Definition op_ok (T : Z) (o : op) (q : t) : Prop :=
  match o with
  | Iterate r => round_ok T r
  | Accept u => idle q u
  | Connect u _ _ => idle q u
  | State u _ _ _ => is_Some (aget (m_sockets q) u)
  | Release p => (block ← CUnitQueue.m_blocks (m_pUnitQueue q) !! p.1; block !! p.2) = Some true
  | _ => True
  end.

Definition op_time (T : Z) (o : op) : Z := match o with Iterate r => rd_serve r 0%nat | _ => T end.

Fixpoint ops_ok (env : answers) (T : Z) (os : list op) (x : EConnectStatus * t) : Prop :=
  match os with
  | [] => True
  | o :: rest => op_ok T o x.2 /\ match do_op env o x with Some y => ops_ok env (op_time T o) rest y.2 | None => True end
  end.

Lemma idle_out T l q u : reg T l q -> idle q u -> u ∉ l.*1 /\ exists k, aget (m_sockets q) u = Some k.
Proof.
  intros R (Hn & _). destruct (aget (CRcvUList.m_nodes (m_pRcvUList q)) u) as [n|] eqn:En; [|done]. split; [|apply (same_length_aget _ _ _ _ (rg_nodes _ _ _ R) En)].
  intros Hu. destruct (chain_in _ _ _ _ u Hu (rep_chain _ _ (rg_rep _ _ _ R))) as (n' & E & Ho). congruence.
Qed.

Lemma connect_reg T l q u k addr ttl : reg T l q -> idle q u -> aget (m_sockets q) u = Some k -> reg T l (registerConnector (m_SocketID k) u addr ttl q).
Proof.
  intros R Hi Hk. destruct (idle_out T l q u R Hi) as [Hul _]. destruct Hi as (_ & Hne & Hnc).
  destruct R as [R1 R2 R3 R4 R5 R6 R7 R8 R9 R10 R11]. constructor; qsimp; try done; unfold rdv_insert.
  - rewrite fmap_app. cbn. rewrite !(assoc_L (++)). apply list.NoDup_app. split; [by rewrite <- (assoc_L (++))|]. split; [|apply NoDup_singleton]. intros x Hx ->%list_elem_of_singleton. rewrite !elem_of_app in Hx. tauto.
  - apply Forall_app. split; [done|]. repeat constructor. cbn. unfold sid. qsimp. by rewrite Hk.
Qed.

Lemma rcvq_op_run env o cst T l q H :
  response_ok env -> reg T l q -> op_ok T o q -> pool (m_pUnitQueue q) H -> CUnitQueue.m_iSize (m_pUnitQueue q) + CUnitQueue.m_iBlockSize (m_pUnitQueue q) <= 2 ^ 27 ->
  exists e cst' q', do_op env o (cst, q) = Some (e, (cst', q')) /\ (exists T' l', reg T' l' q' /\ T' <= op_time T o) /\ grown q q'.
Proof.
  intros Hresp R Ho HP HB. pose proof (pl_block _ _ HP) as Hbs.
  assert (forall q' l', reg T l' q' -> m_pUnitQueue q' = m_pUnitQueue q -> (exists T' l', reg T' l' q' /\ T' <= T) /\ grown q q') as Hsame.
  { intros q' l' R' U'. split; [exists T, l'; split; [done|lia]|]. unfold grown. rewrite U'. split; [by exists H|]. lia. }
  destruct o as [r|u|u addr ttl|id|u|u|u a b c|id size|p]; cbn [do_op op_ok op_time] in *.
  - destruct (iteration_run env r cst T l q H Hresp R Ho HP HB) as (c & e & q' & E & HR). rewrite E. cbn. by exists e, c, q'.
  - destruct (idle_out T l q u R Ho) as [Hul Hk]. destruct Ho as (_ & Hne & Hnc). destruct (entry_run T l q u R Hul Hne Hnc Hk) as (q' & E & R' & _ & _ & U' & _). rewrite E. cbn. exists [], cst, q'. split; [done|]. by apply (Hsame q' l).
  - destruct (idle_out T l q u R Ho) as [_ [k Hk]].
    rewrite Hk. cbn. eexists _, _, _. split; [reflexivity|]. apply (Hsame _ l); [by apply connect_reg|done].
  - eexists _, _, _. split; [reflexivity|]. apply (Hsame _ l); [|done]. apply (reg_forget T l (set_connectors (rdv_remove id (m_lRendezvousID q)) q)).
    apply reg_connectors; [done|apply fmap_sublist, rdv_remove_sublist|]. eapply sublist_Forall; [apply rdv_remove_sublist|]. apply (rg_conn _ _ _ R).
  - eexists _, _, _. split; [reflexivity|]. unfold setListener. destruct (m_pListener q); apply (Hsame _ l); try done. by apply (similar_reg _ _ q).
  - eexists _, _, _. split; [reflexivity|]. unfold removeListener. destruct (decide _); apply (Hsame _ l); try done. by apply (similar_reg _ _ q).
  - destruct (similar_upd q u (with_state a b c) Ho) as (q' & E & S & U); [done|]. rewrite E. cbn. eexists _, _, _. split; [reflexivity|]. apply (Hsame _ l); [by apply (similar_reg _ _ q)|done].
  - unfold recvfrom. destruct (m_mBuffer q !! id) as [ps|] eqn:Eb; [|eexists _, _, _; split; [reflexivity|]; by apply (Hsame _ l)]. destruct (rg_buffer _ _ _ R _ _ Eb) as [Hne Hlen]. destruct ps as [|p rest]; [done|]. cbn [head mbind option_bind tail].
    destruct (size <? CPacket.getLength p); cbn; [eexists _, _, _; split; [reflexivity|]; by apply (Hsame _ l)|]. eexists _, _, _. split; [reflexivity|]. apply (Hsame _ l); [|done]. apply (similar_reg _ _ q); [|done]. constructor; try done. qsimp. intros HB'. destruct (decide (rest = [])); [by apply map_Forall_delete|].
    apply map_Forall_insert_2; [|done]. split; [done|]. cbn in Hlen. lia.
  - destruct p as [b u]. pose proof (proj2 (pl_taken _ _ HP b u) Ho) as Hin. destruct (set_taken_pool false (b, u) (m_pUnitQueue q) H (CUnitQueue.m_iNumTaken (m_pUnitQueue q) - 1) HP Ho) as (x & E & P' & S' & B').
    { rewrite (pl_count _ _ HP). rewrite size_difference by set_solver. rewrite size_singleton. pose proof (subseteq_size {[(b, u)]} H ltac:(set_solver)) as Hz. rewrite size_singleton in Hz. lia. }
    unfold CUnitQueue.makeUnitFree. rewrite E. cbn. eexists _, _, _. split; [reflexivity|]. split; [exists T, l; split; [by apply (similar_reg _ _ q), R; apply similar_units|lia]|]. unfold grown. qsimp. split; [by eexists|]. lia.
Qed.

Lemma rcvq_ops_run env os T cst q l H :
  response_ok env -> reg T l q -> pool (m_pUnitQueue q) H -> CUnitQueue.m_iSize (m_pUnitQueue q) + Z.of_nat (length os) * CUnitQueue.m_iBlockSize (m_pUnitQueue q) <= 2 ^ 27 ->
  ops_ok env T os (cst, q) ->
  exists e cst' q', do_ops env os (cst, q) = Some (e, (cst', q')) /\ (exists l', reg (foldl op_time T os) l' q') /\ exists H', pool (m_pUnitQueue q') H'
    /\ CUnitQueue.m_iSize (m_pUnitQueue q') <= CUnitQueue.m_iSize (m_pUnitQueue q) + Z.of_nat (length os) * CUnitQueue.m_iBlockSize (m_pUnitQueue q)
    /\ CUnitQueue.m_iBlockSize (m_pUnitQueue q') = CUnitQueue.m_iBlockSize (m_pUnitQueue q).
Proof.
  intros Hresp. revert T cst q l H. induction os as [|o os IH]; intros T cst q l H R HP HB Hok.
  - exists [], cst, q. split; [done|]. split; [by exists l|]. exists H. split; [done|]. cbn. lia.
  - cbn [length] in HB. destruct Hok as [Ho Hok]. pose proof (pl_block _ _ HP) as Hbs. cbn [snd] in Ho. destruct (rcvq_op_run env o cst T l q H Hresp R Ho HP ltac:(nia)) as (e & c1 & q1 & E & (T1 & l1 & R1 & HT1) & (H1 & P1) & G1 & G2). rewrite E in Hok. cbn [snd] in Hok.
    pose proof (reg_time _ _ _ _ R1 HT1) as R1'. destruct (IH (op_time T o) c1 q1 l1 H1 R1' P1) as (e2 & c2 & q2 & E2 & HR2 & H2 & P2 & S2 & B2); [rewrite G2; nia|exact Hok|].
    cbn [do_ops]. rewrite E. cbn [mbind option_bind fst snd]. rewrite E2. cbn [mbind option_bind fst snd]. exists (e ++ e2), c2, q2. split; [done|]. split; [exact HR2|]. exists H2. split; [exact P2|]. rewrite G2 in *. split; [cbn [length]; nia|exact B2].
Qed.

Lemma init_reg qsize hsize socks T :
  0 < hsize -> NoDup (m_SocketID <$> socks) -> Forall (fun k => 0 < m_SocketID k) socks -> reg T [] (init qsize hsize socks).
Proof.
  intros Hh HN HF. constructor; qsimp; unfold init; qsimp; cbn [CRcvUList.create CRcvUList.m_nodes]; try done.
  - constructor; cbn; try done. apply NoDup_nil_2.
  - apply length_replicate.
  - constructor.
  - apply NoDup_nil_2.
  - intros u v id. unfold sid. cbn [m_sockets]. unfold aget. destruct (Z.leb_spec 0 u), (Z.leb_spec 0 v); try done. intros Hu Hv. assert (Z.to_nat u = Z.to_nat v); [|lia]. eapply NoDup_lookup; [exact HN| |]; rewrite list_lookup_fmap; eassumption.
  - intros u id. unfold sid. cbn [m_sockets]. unfold aget. destruct (0 <=? u); [|done]. destruct (socks !! Z.to_nat u) as [k|] eqn:E; [|done]. cbn. intros [= <-]. rewrite Forall_lookup in HF. by eapply HF.
  - exists ∅. split; [by apply hash_init|]. intros id u. rewrite lookup_empty. split; [done|]. by intros [?%elem_of_nil _].
Qed.

(** A queue after a sequence of operations, at time [T]. *)
Record reachable (env : answers) (qsize hsize : Z) (socks : list socket) (os : list op) : Prop := mkReachable {
  rc_answers : response_ok env;
  rc_sizes : 0 < qsize /\ 0 < hsize;
  rc_ids : NoDup (m_SocketID <$> socks) /\ Forall (fun k => 0 < m_SocketID k) socks;
  rc_units : qsize + (1 + Z.of_nat (length os)) * qsize <= 2 ^ 27;
  rc_ops : ops_ok env 0 os (CONN_AGAIN, init qsize hsize socks)
}.

Lemma reachable_run env qsize hsize socks os :
  reachable env qsize hsize socks os ->
  exists e cst q, do_ops env os (CONN_AGAIN, init qsize hsize socks) = Some (e, (cst, q)) /\ (exists l, reg (foldl op_time 0 os) l q)
    /\ exists H, pool (m_pUnitQueue q) H /\ CUnitQueue.m_iSize (m_pUnitQueue q) + CUnitQueue.m_iBlockSize (m_pUnitQueue q) <= 2 ^ 27.
Proof.
  intros [Ha [Hq Hh] [Hn Hp] Hu Ho]. destruct (create_pool qsize Hq) as (P & ES & EB).
  assert (CUnitQueue.m_iSize (CUnitQueue.create qsize) + Z.of_nat (length os) * CUnitQueue.m_iBlockSize (CUnitQueue.create qsize) <= 2 ^ 27) as HB by (rewrite ES, EB; lia).
  destruct (rcvq_ops_run env os 0 CONN_AGAIN (init qsize hsize socks) [] ∅ Ha (init_reg qsize hsize socks 0 Hh Hn Hp) P HB Ho) as (e & cst & q & E & HR & H & P' & S' & B').
  exists e, cst, q. split; [exact E|]. split; [exact HR|]. exists H. split; [exact P'|]. unfold init in *. cbn [m_pUnitQueue] in *. rewrite ES, EB in *. lia.
Qed.

(** The sockets of the list, in its order, are those of the table. *)
Definition registry (q : t) (l : entries) : Prop :=
  rep (m_pRcvUList q) l /\ StronglySorted Z.le l.*2 /\ forall id u, 0 <= id -> CHash.lookup id (m_pHash q) = Some (Some u) <-> u ∈ l.*1 /\ sid q u = Some id.

Lemma reg_registry T l q : reg T l q -> registry q l.
Proof.
  intros R. split; [apply (rg_rep _ _ _ R)|]. split; [apply (rg_sorted _ _ _ R)|]. destruct (rg_hash _ _ _ R) as (m & Hm & Hi). intros id u Hid. rewrite (hr_lookup _ _ Hm id Hid), <- Hi. split; [congruence|by intros ->].
Qed.

(** C35: Whatever happens to the receiving queue, its iterations end without an access
    out of bounds; the list of sockets is linked correctly and in the order of the
    times, and the table finds by its ID exactly the sockets of the list. *)
Theorem rcvq_registry env qsize hsize socks os :
  reachable env qsize hsize socks os ->
  exists e cst q l, do_ops env os (CONN_AGAIN, init qsize hsize socks) = Some (e, (cst, q)) /\ registry q l.
Proof. intros HR. destruct (reachable_run _ _ _ _ _ HR) as (e & cst & q & E & [l R] & _). exists e, cst, q, l. split; [exact E|by apply (reg_registry _ _ _ R)]. Qed.

(** C37: The pass over the timers ends; it checks the timers of exactly the live sockets
    that were not served since the limit, in the order of the list, takes the others
    of these off the list, and no socket of the list is then older than the limit. *)
Theorem rcvq_timers_served env qsize hsize socks os e cst q clk limit :
  reachable env qsize hsize socks os -> do_ops env os (CONN_AGAIN, init qsize hsize socks) = Some (e, (cst, q)) ->
  clock (foldl op_time 0 os) clk -> (forall n, limit <= clk n) ->
  exists l q' late, registry q l /\ serve (S (length (m_sockets q))) clk limit q = Some (tt, CheckTimers <$> filter (fun u => live q u = true) (due limit l).*1, q')
    /\ registry q' (fresh limit l ++ late) /\ late.*1 = filter (fun u => live q u = true) (due limit l).*1 /\ Forall (fun ts => limit <= ts) (fresh limit l ++ late).*2.
Proof.
  intros HR E HC HL. destruct (reachable_run _ _ _ _ _ HR) as (e' & cst' & q0 & E' & [l R] & _). rewrite E in E'. injection E' as <- <- <-.
  destruct (serve_run _ l q clk limit R HC HL) as ([] & e2 & q' & E2 & -> & _ & _ & _ & _ & T' & late & R2 & _ & Hl & Ht). exists l, q', late. split; [by apply (reg_registry _ _ _ R)|]. split; [exact E2|]. split; [by apply (reg_registry _ _ _ R2)|]. split; [exact Hl|].
  rewrite fmap_app. apply Forall_app. split; [|exact Ht]. apply Forall_fmap, list.Forall_forall. by intros x [? _]%list_elem_of_filter.
Qed.

(** A packet for a live socket of the table, from its peer or under SRTLA. *)
Lemma addressed_exact env place pkt addr now other id T l q H u k :
  reg T l q -> CHash.lookup id (m_pHash q) = Some (Some u) -> 0 <= id -> aget (m_sockets q) u = Some k -> live q u = true -> m_PeerAddr k = addr \/ bSRTLA k = true ->
  T <= now -> pool (m_pUnitQueue q) H -> free (m_pUnitQueue q) place ->
  runs (addressed env place now other id pkt addr) q (fun c e _ => c = CONN_RUNNING /\ e = [if CPacket.isControl pkt then ProcessCtrl u pkt else ProcessData u pkt; CheckTimers u]).
Proof.
  intros R Hl Hid Hk Hlive Hpeer HT HP HF. pose proof (proj2 (proj2 (reg_registry _ _ _ R)) id u Hid) as [Hin _]. destruct (Hin Hl) as [Hu _]. unfold live in Hlive. rewrite Hk in Hlive.
  unfold addressed. apply runs_bind. eapply runs_ask; [exact Hl|]. apply runs_bind. eapply runs_ask; [exact Hk|].
  assert (negb (addr =? m_PeerAddr k) && negb (bSRTLA k) = false) as -> by (destruct Hpeer as [->| ->]; [by rewrite Z.eqb_refl|by rewrite andb_false_r]).
  assert (negb (m_bConnected k) || m_bBroken k || m_bClosing k = false) as -> by (destruct (m_bConnected k), (m_bBroken k), (m_bClosing k); done).
  apply runs_bind, runs_get, runs_bind. eapply runs_weaken; [apply (process_run env place pkt q u H HP HF)|]. intros [] e1 q1 (-> & x & H' & -> & _). apply runs_bind, runs_emit, runs_bind.
  destruct (touch_reg T l (set_units x q) u now (similar_reg _ _ _ _ (similar_units q x) R) Hu HT) as (q2 & E2 & _). eapply runs_update; [exact E2|]. by apply runs_ret.
Qed.

Lemma dispatch_run env srtla clk place pkt addr T l q H :
  response_ok env -> reg T l q -> clock T clk -> pool (m_pUnitQueue q) H -> free (m_pUnitQueue q) place ->
  runs (dispatch env srtla clk place pkt addr) q (fun _ e _ => Forall (reaches q addr (i32 (CPacket.ph_id pkt)) pkt) e).
Proof.
  intros Hresp R [HT HC] HP HF. unfold dispatch. set (id := i32 (CPacket.ph_id pkt)). destruct srtla; [by apply runs_ret|]. destruct (Z.ltb_spec id 0); [by apply runs_ret|]. apply runs_bind, runs_get, runs_bind.
  assert (runs (worker_TryAsyncRend_OrStore env place clk (levels q) id pkt addr) q (fun _ e q' => outcome T (clk 0%nat) q addr id pkt e q')) as Htry.
  { apply (try_run env place pkt addr clk HC Hresp (levels q) id T l q H R); try done. unfold levels. lia. }
  eapply (runs_weaken _ _ (fun _ e _ => Forall (reaches q addr id pkt) e)); [|intros c e q' He; apply runs_ret; by rewrite app_nil_r]. destruct (Z.eqb_spec id 0) as [E0|Hne].
  - unfold worker_ProcessConnectionRequest. apply runs_bind, runs_get. destruct (m_pListener q) as [u|]; [apply runs_bind, runs_emit, runs_ret; repeat constructor|]. rewrite E0 in Htry. eapply runs_weaken; [exact Htry|]. intros c e q' O. rewrite E0. exact (proj2 O).
  - eapply runs_weaken; [apply (addressed_run env place pkt addr (clk (levels q)) (worker_TryAsyncRend_OrStore env place clk (levels q)) id T (clk 0%nat) l q H R); try done; [lia|split; [apply HT|apply HC; lia]]|]. intros c e q' O. exact (proj2 O).
Qed.


(** *** An example *)

(** Two sockets: one is accepted, the other connects. *)
Definition ex_sockets : list socket := [mkSock 5 100 false false false false true false false 0 0; mkSock 7 200 false false false true false false false 0 0].

Definition ex_answers : answers := mkAnswers (fun _ _ _ => 0) (fun _ _ _ => (CONN_ACCEPT, true)) (fun _ _ _ _ => (true, false, 0)) (fun _ _ _ => true) (fun _ => true).

Definition ex_packet (id : Z) : CPacket.t := CPacket.mk 1 0 0 id [1; 2; 3].

Definition ex_round (t id addr : Z) : round := mkRound (mkDatagram RST_OK (ex_packet id) addr) true false (fun _ => t) (fun _ => t) (t - 10000) (fun _ => t) (fun _ => t).

(** The connecting socket connects with its first data packet; the accepted one gets one
    from another of its links; the unit of the first packet is released. *)
Definition ex_ops : list op := [Accept 0; Connect 1 200 1000000; Iterate (ex_round 20000 7 200); Iterate (ex_round 21000 5 300); Release (0, 0)%nat].

Lemma ex_clock T : clock T (fun _ => T).
Proof. split; intros; cbn; lia. Qed.

Lemma ex_clocks T t id addr : T <= t -> round_ok T (ex_round t id addr).
Proof. intros HT. split; [split; intros; cbn; lia|]. split; [apply ex_clock|]. split; [apply ex_clock|]. intros n. cbn. lia. Qed.

Lemma ex_response : response_ok ex_answers.
Proof. intros q u p cst [= <-]. done. Qed.

Lemma ex_reachable : reachable ex_answers 2 3 ex_sockets ex_ops.
Proof.
  constructor; [apply ex_response|lia| |cbn; lia|].
  - split; [|repeat constructor; cbn; lia]. apply NoDup_cons_2; [set_solver|]. apply NoDup_singleton.
  - split; [vm_compute; split; [done|]; split; set_solver|]. vm_compute do_op. split; [vm_compute; split; [done|]; split; set_solver|]. vm_compute do_op.
    split; [by apply ex_clocks|]. vm_compute do_op. split; [by apply ex_clocks|]. vm_compute do_op. split; [reflexivity|]. vm_compute do_op. exact I.
Qed.

Lemma rcvq_registry_witness : exists e cst q l, do_ops ex_answers ex_ops (CONN_AGAIN, init 2 3 ex_sockets) = Some (e, (cst, q)) /\ registry q l.
Proof. apply (rcvq_registry ex_answers 2 3 ex_sockets ex_ops). apply ex_reachable. Defined.

Lemma rcvq_timers_served_witness :
  exists e cst q l q' late, do_ops ex_answers ex_ops (CONN_AGAIN, init 2 3 ex_sockets) = Some (e, (cst, q)) /\ registry q l
    /\ serve (S (length (m_sockets q))) (fun _ => 40000) 30000 q = Some (tt, CheckTimers <$> filter (fun u => live q u = true) (due 30000 l).*1, q')
    /\ registry q' (fresh 30000 l ++ late) /\ late.*1 = filter (fun u => live q u = true) (due 30000 l).*1 /\ Forall (fun ts => 30000 <= ts) (fresh 30000 l ++ late).*2.
Proof.
  destruct (reachable_run _ _ _ _ _ ex_reachable) as (e & cst & q & E & _).
  destruct (rcvq_timers_served _ _ _ _ _ e cst q (fun _ => 40000) 30000 ex_reachable E) as (l & q' & late & H).
  - split; intros; cbn; lia.
  - intros n. cbn. lia.
  - exists e, cst, q, l, q', late. split; [exact E|exact H].
Defined.


(** In the example the second socket is enlisted by its first packet, which it then
    processes; the packet of the other comes from a link that is not its peer. *)
Example ex_calls :
  fst <$> do_ops ex_answers ex_ops (CONN_AGAIN, init 2 3 ex_sockets)
  = Some [ProcessAsyncConnectResponse 1 (ex_packet 7); ProcessData 1 (ex_packet 7); CheckTimers 1; ProcessData 0 (ex_packet 5); CheckTimers 0].
Proof. vm_compute. reflexivity. Qed.
