(* ===== verification/Handshake.v ===== *)
(** * The SRT handshake (srtcore/handshake.h, handshake.cpp; the handshake
      extensions of srtcore/core.cpp)

    [CHandShake]: the fixed part of a handshake and its serialization. [Ext]:
    the extension blocks that follow it: what the initiator and the responder
    write into them ([fillSrtHandshake], [fillHsExtConfigString],
    [fillHsExtKMREQ], [fillHsExtKMRSP], [createSrtHandshake]), how they are
    found again ([FindExtensionBlock], [NextExtensionBlock],
    [SrtExtractHandshakeExtensions]) and interpreted
    ([processSrtMsg_HSREQ], [processSrtMsg_HSRSP], [interpretSrtHandshake]).

    A packet's data is its bytes in memory on a little-endian host, as in
    Packet.v, and every access to it is checked: [None] is an access outside
    the buffer or through a null pointer. The build is the default one: without
    ENABLE_BONDING and without ENABLE_AEAD_API_PREVIEW, with encryption. The
    key exchange itself (CCryptoControl's KMREQ and KMRSP handlers) and the
    packet filter's configuration check are the interface [Peripherals]: the
    handshake calls them and reacts to what they return. Proofs are in
    HandshakeSpec.v, HandshakeSafe.v, HandshakeExt.v, HandshakeNeg.v and
    HandshakeProps.v. *)

From S2P Require Import Prelude SeqNo Packet.

(** ** Memory *)

(** [memcpy(mem + off, bs, size)]. *)
Definition poke (off : Z) (bs : list Z) (mem : list Z) : option (list Z) :=
  if (0 <=? off) && (off + Z.of_nat (length bs) <=? Z.of_nat (length mem))
  then Some (take (Z.to_nat off) mem ++ bs ++ drop (Z.to_nat off + length bs) mem) else None.

(** [memcpy(_, mem + off, n)]. *)
Definition peek (off n : Z) (mem : list Z) : option (list Z) :=
  if (0 <=? off) && (0 <=? n) && (off + n <=? Z.of_nat (length mem))
  then Some (take (Z.to_nat n) (drop (Z.to_nat off) mem)) else None.

Definition words_bytes (ws : list Z) : list Z := concat (map le_bytes ws).

Fixpoint bytes_words (bs : list Z) : list Z :=
  match bs with
  | b0 :: b1 :: b2 :: b3 :: rest => le_word b0 b1 b2 b3 :: bytes_words rest
  | _ => []
  end.

(** [p[i] = ...] and [p[i]], [p] a [uint32_t*] to the beginning of [mem]. *)
Definition poke_words (i : Z) (ws : list Z) (mem : list Z) : option (list Z) := poke (4 * i) (words_bytes ws) mem.

Definition peek_words (i n : Z) (mem : list Z) : option (list Z) := bs ← peek (4 * i) (4 * n) mem; Some (bytes_words bs).

Definition peek_word (i : Z) (mem : list Z) : option Z := ws ← peek_words i 1 mem; head ws.

(** The C string in a char array: the characters before the first NUL. *)
Fixpoint c_string (bs : list Z) : list Z :=
  match bs with
  | b :: rest => if b =? 0 then [] else b :: c_string rest
  | [] => []
  end.

(** ** The fixed part *)

Definition URQ_INDUCTION : Z := 1.
Definition URQ_WAVEAHAND : Z := 0.
Definition URQ_CONCLUSION : Z := -1.
Definition URQ_AGREEMENT : Z := -2.
Definition URQ_DONE : Z := -3.
Definition URQ_FAILURE_TYPES : Z := 1000.

Definition SRT_REJ_ROGUE : Z := 4.
Definition SRT_REJ_IPE : Z := 6.
Definition SRT_REJ_VERSION : Z := 8.
Definition SRT_REJ_RDVCOOKIE : Z := 9.
Definition SRT_REJ_BADSECRET : Z := 10.
Definition SRT_REJ_UNSECURE : Z := 11.
Definition SRT_REJ_MESSAGEAPI : Z := 12.
Definition SRT_REJ_CONGESTION : Z := 13.
Definition SRT_REJ_FILTER : Z := 14.

(** Without ENABLE_AEAD_API_PREVIEW: [SRT_REJ_TIMEOUT] is the last reason. *)
Definition SRT_REJ_E_SIZE : Z := 17.
Definition SRT_REJC_PREDEFINED : Z := 1000.

Definition URQFailure (reason : Z) : Z := URQ_FAILURE_TYPES + reason.

Definition RejectReasonForURQ (req : Z) : Z :=
  if req <? URQ_FAILURE_TYPES then SRT_REJ_UNKNOWN
  else
    let reason := req - URQ_FAILURE_TYPES in
    if (reason <? SRT_REJC_PREDEFINED) && (reason >=? SRT_REJ_E_SIZE) then SRT_REJ_UNKNOWN else reason.

Definition HS_VERSION_UDT4 : Z := 4.
Definition HS_VERSION_SRT1 : Z := 5.
Definition UDT_DGRAM : Z := 2.

Module CHandShake.

Record t := mk {
  m_iVersion : Z;
  m_iType : Z;
  m_iISN : Z;
  m_iMSS : Z;
  m_iFlightFlagSize : Z;
  m_iReqType : Z;
  m_iID : Z;
  m_iCookie : Z;
  m_piPeerIP : list Z;
  m_extension : bool
}.

Definition init : t := mk 0 0 0 0 0 URQ_WAVEAHAND 0 0 [0; 0; 0; 0] false.

Definition m_iContentSize : Z := 48.

Definition HS_EXT_HSREQ : Z := 1.
Definition HS_EXT_KMREQ : Z := 2.
Definition HS_EXT_CONFIG : Z := 4.

Definition set_version (v : Z) (h : t) : t :=
  mk v (m_iType h) (m_iISN h) (m_iMSS h) (m_iFlightFlagSize h) (m_iReqType h) (m_iID h) (m_iCookie h) (m_piPeerIP h) (m_extension h).
Definition set_type (v : Z) (h : t) : t :=
  mk (m_iVersion h) v (m_iISN h) (m_iMSS h) (m_iFlightFlagSize h) (m_iReqType h) (m_iID h) (m_iCookie h) (m_piPeerIP h) (m_extension h).
Definition set_reqtype (v : Z) (h : t) : t :=
  mk (m_iVersion h) (m_iType h) (m_iISN h) (m_iMSS h) (m_iFlightFlagSize h) v (m_iID h) (m_iCookie h) (m_piPeerIP h) (m_extension h).
Definition set_extension (v : bool) (h : t) : t :=
  mk (m_iVersion h) (m_iType h) (m_iISN h) (m_iMSS h) (m_iFlightFlagSize h) (m_iReqType h) (m_iID h) (m_iCookie h) (m_piPeerIP h) v.

(** The words [store_to] writes, each the 32 bits of its field. *)
Definition words (h : t) : list Z :=
  map u32 ([m_iVersion h; m_iType h; m_iISN h; m_iMSS h; m_iFlightFlagSize h; m_iReqType h; m_iID h; m_iCookie h]
           ++ m_piPeerIP h).

(** The result is the return value, the buffer and the size written back. *)
Definition store_to (h : t) (buf : list Z) (w_size : Z) : option (Z * list Z * Z) :=
  if w_size <? m_iContentSize then Some (-1, buf, w_size)
  else buf' ← poke_words 0 (words h) buf; Some (0, buf', m_iContentSize).

Definition load_from (h : t) (buf : list Z) (size : Z) : option (Z * t) :=
  if size <? m_iContentSize then Some (-1, h)
  else
    ws ← peek_words 0 12 buf;
    match ws with
    | ver :: ty :: isn :: mss :: flw :: req :: id :: cookie :: ip =>
      Some (0, mk (i32 ver) (i32 ty) (i32 isn) (i32 mss) (i32 flw) (i32 req) (i32 id) (i32 cookie) ip (m_extension h))
    | _ => None
    end.

Definition UDP_HDR_SIZE_IPv6 : Z := 48.
Definition HDR_SIZE : Z := 16.

Definition valid (h : t) : bool :=
  if (m_iVersion h <? HS_VERSION_UDT4)
     || (m_iISN h <? 0) || (m_iISN h >=? CSeqNo.m_iMaxSeqNo)
     || (m_iMSS h <? UDP_HDR_SIZE_IPv6 + HDR_SIZE)
     || (m_iFlightFlagSize h <? 2)
  then false else true.

(** Every field has its width. *)
Definition wf (h : t) : Prop :=
  is_i32 (m_iVersion h) /\ is_i32 (m_iType h) /\ is_i32 (m_iISN h) /\ is_i32 (m_iMSS h)
  /\ is_i32 (m_iFlightFlagSize h) /\ is_i32 (m_iReqType h) /\ is_i32 (m_iID h) /\ is_i32 (m_iCookie h)
  /\ length (m_piPeerIP h) = 4%nat /\ Forall is_u32 (m_piPeerIP h).

End CHandShake.

(** ** The extension flags and commands *)

Definition HS_CMDSPEC_CMD := Bits.mk 31 16.
Definition HS_CMDSPEC_SIZE := Bits.mk 15 0.

Definition SRT_OPT_TSBPDSND : Z := 1.
Definition SRT_OPT_TSBPDRCV : Z := 2.
Definition SRT_OPT_HAICRYPT : Z := 4.
Definition SRT_OPT_TLPKTDROP : Z := 8.
Definition SRT_OPT_NAKREPORT : Z := 16.
Definition SRT_OPT_REXMITFLG : Z := 32.
Definition SRT_OPT_STREAM : Z := 64.
Definition SRT_OPT_FILTERCAP : Z := 128.

Definition SrtVersionCapabilities : Z := Z.lor SRT_OPT_HAICRYPT SRT_OPT_FILTERCAP.

Definition SRT_CMD_REJECT : Z := 0.
Definition SRT_CMD_HSREQ : Z := 1.
Definition SRT_CMD_HSRSP : Z := 2.
Definition SRT_CMD_KMREQ : Z := 3.
Definition SRT_CMD_KMRSP : Z := 4.
Definition SRT_CMD_SID : Z := 5.
Definition SRT_CMD_CONGESTION : Z := 6.
Definition SRT_CMD_FILTER : Z := 7.
Definition SRT_CMD_NONE : Z := -1.

(** [SRT_HS_VERSION], [SRT_HS_FLAGS] and [SRT_HS_LATENCY] are words 0, 1 and 2. *)
Definition SRT_HS_E_SIZE : Z := 3.

Definition SRT_HS_LATENCY_RCV := Bits.mk 31 16.
Definition SRT_HS_LATENCY_SND := Bits.mk 15 0.
Definition SRT_HS_LATENCY_LEG := Bits.mk 15 0.

Definition SRT_HSTYPE_ENCFLAGS := Bits.mk 31 16.
Definition SRT_HSTYPE_HSFLAGS := Bits.mk 15 0.
Definition SRT_PBKEYLEN_BITS := Bits.mk 5 3.
Definition SRT_MAGIC_CODE : Z := 0x4A17.

Definition wrapFlags (withmagic : bool) (crypto_keylen : Z) : Z :=
  let base := if withmagic then SRT_MAGIC_CODE else 0 in
  i32 (Z.lor base (Bits.wrap SRT_HSTYPE_ENCFLAGS (Bits.unwrap SRT_PBKEYLEN_BITS crypto_keylen))).

Definition SRT_VERSION_FEAT_HSv5 : Z := 0x010300.

Definition MAX_SID_LENGTH : Z := 512.
Definition MAX_PFILTER_LENGTH : Z := 64.
Definition MAX_CONG_LENGTH : Z := 16.

Definition SRT_KM_S_UNSECURED : Z := 0.
Definition SRT_KM_S_NOSECRET : Z := 3.
Definition SRT_KM_S_BADSECRET : Z := 4.

Inductive HandshakeSide := HSD_DRAW | HSD_INITIATOR | HSD_RESPONDER.

#[global] Instance HandshakeSide_eq_dec : EqDecision HandshakeSide.
Proof. solve_decision. Defined.

(** The string "live". *)
Definition str_live : list Z := [108; 105; 118; 101].

(** ** The state the extensions work on *)

(** The options of [CSrtConfig] the handshake reads; strings are their bytes. *)
Record CSrtConfig := mkConfig {
  uSrtVersion : Z;
  uMinimumPeerSrtVersion : Z;
  bTSBPD : bool;
  iRcvLatency : Z;
  iPeerLatency : Z;
  bRcvNakReport : bool;
  bMessageAPI : bool;
  bEnforcedEnc : bool;
  CryptoSecret_len : Z;
  iSndCryptoKeyLen : Z;
  sStreamName : list Z;
  sCongestion : list Z;
  sPacketFilterConfig : list Z
}.

Definition set_StreamName (v : list Z) (c : CSrtConfig) : CSrtConfig :=
  mkConfig (uSrtVersion c) (uMinimumPeerSrtVersion c) (bTSBPD c) (iRcvLatency c) (iPeerLatency c) (bRcvNakReport c)
    (bMessageAPI c) (bEnforcedEnc c) (CryptoSecret_len c) (iSndCryptoKeyLen c) v (sCongestion c) (sPacketFilterConfig c).
Definition set_Congestion (v : list Z) (c : CSrtConfig) : CSrtConfig :=
  mkConfig (uSrtVersion c) (uMinimumPeerSrtVersion c) (bTSBPD c) (iRcvLatency c) (iPeerLatency c) (bRcvNakReport c)
    (bMessageAPI c) (bEnforcedEnc c) (CryptoSecret_len c) (iSndCryptoKeyLen c) (sStreamName c) v (sPacketFilterConfig c).
Definition set_PacketFilterConfig (v : list Z) (c : CSrtConfig) : CSrtConfig :=
  mkConfig (uSrtVersion c) (uMinimumPeerSrtVersion c) (bTSBPD c) (iRcvLatency c) (iPeerLatency c) (bRcvNakReport c)
    (bMessageAPI c) (bEnforcedEnc c) (CryptoSecret_len c) (iSndCryptoKeyLen c) (sStreamName c) (sCongestion c) v.

(** What the handshake settles: the fields of [CUDT] it writes, other than the
    configuration and the key exchange. A [m_tsRcvPeerStartTime] of 0 is the
    clock's zero. *)
Record settled := mkSettled {
  m_tsRcvPeerStartTime : Z;
  m_iTsbPdDelay_ms : Z;
  m_iPeerTsbPdDelay_ms : Z;
  m_bTsbPd : bool;
  m_bPeerTsbPd : bool;
  m_bPeerTLPktDrop : bool;
  m_bPeerNakReport : bool;
  m_bPeerRexmitFlag : bool;
  m_uPeerSrtVersion : Z;
  m_uPeerSrtFlags : Z;
  m_iSndHsRetryCnt : Z
}.

Definition set_start (v : Z) (s : settled) : settled :=
  mkSettled v (m_iTsbPdDelay_ms s) (m_iPeerTsbPdDelay_ms s) (m_bTsbPd s) (m_bPeerTsbPd s) (m_bPeerTLPktDrop s)
    (m_bPeerNakReport s) (m_bPeerRexmitFlag s) (m_uPeerSrtVersion s) (m_uPeerSrtFlags s) (m_iSndHsRetryCnt s).
Definition set_delays (d p : Z) (s : settled) : settled :=
  mkSettled (m_tsRcvPeerStartTime s) d p (m_bTsbPd s) (m_bPeerTsbPd s) (m_bPeerTLPktDrop s)
    (m_bPeerNakReport s) (m_bPeerRexmitFlag s) (m_uPeerSrtVersion s) (m_uPeerSrtFlags s) (m_iSndHsRetryCnt s).
Definition set_tsbpd (a p : bool) (s : settled) : settled :=
  mkSettled (m_tsRcvPeerStartTime s) (m_iTsbPdDelay_ms s) (m_iPeerTsbPdDelay_ms s) a p (m_bPeerTLPktDrop s)
    (m_bPeerNakReport s) (m_bPeerRexmitFlag s) (m_uPeerSrtVersion s) (m_uPeerSrtFlags s) (m_iSndHsRetryCnt s).
Definition set_peer_drop (v : bool) (s : settled) : settled :=
  mkSettled (m_tsRcvPeerStartTime s) (m_iTsbPdDelay_ms s) (m_iPeerTsbPdDelay_ms s) (m_bTsbPd s) (m_bPeerTsbPd s) v
    (m_bPeerNakReport s) (m_bPeerRexmitFlag s) (m_uPeerSrtVersion s) (m_uPeerSrtFlags s) (m_iSndHsRetryCnt s).
Definition set_peer_nak (v : bool) (s : settled) : settled :=
  mkSettled (m_tsRcvPeerStartTime s) (m_iTsbPdDelay_ms s) (m_iPeerTsbPdDelay_ms s) (m_bTsbPd s) (m_bPeerTsbPd s)
    (m_bPeerTLPktDrop s) v (m_bPeerRexmitFlag s) (m_uPeerSrtVersion s) (m_uPeerSrtFlags s) (m_iSndHsRetryCnt s).
Definition set_peer_rexmit (v : bool) (s : settled) : settled :=
  mkSettled (m_tsRcvPeerStartTime s) (m_iTsbPdDelay_ms s) (m_iPeerTsbPdDelay_ms s) (m_bTsbPd s) (m_bPeerTsbPd s)
    (m_bPeerTLPktDrop s) (m_bPeerNakReport s) v (m_uPeerSrtVersion s) (m_uPeerSrtFlags s) (m_iSndHsRetryCnt s).
Definition set_peer_version (v f : Z) (s : settled) : settled :=
  mkSettled (m_tsRcvPeerStartTime s) (m_iTsbPdDelay_ms s) (m_iPeerTsbPdDelay_ms s) (m_bTsbPd s) (m_bPeerTsbPd s)
    (m_bPeerTLPktDrop s) (m_bPeerNakReport s) (m_bPeerRexmitFlag s) v f (m_iSndHsRetryCnt s).
Definition set_retry (v : Z) (s : settled) : settled :=
  mkSettled (m_tsRcvPeerStartTime s) (m_iTsbPdDelay_ms s) (m_iPeerTsbPdDelay_ms s) (m_bTsbPd s) (m_bPeerTsbPd s)
    (m_bPeerTLPktDrop s) (m_bPeerNakReport s) (m_bPeerRexmitFlag s) (m_uPeerSrtVersion s) (m_uPeerSrtFlags s) v.

(** The key exchange and the packet filter, as the handshake uses them: [K] is a
    [CCryptoControl]. [processSrtMsg_KMREQ] takes the block's words and the
    peer's version and gives the command returned and the words of the answer. *)
Class Peripherals (K : Type) := {
  hasPassphrase : K -> bool;
  getKmMsg_size : K -> Z -> Z;
  getKmMsg_data : K -> Z -> list Z;
  m_RcvKmState : K -> Z;
  m_SndKmState : K -> Z;
  set_KmStates : Z -> Z -> K -> K;
  createFakeSndContext : K -> K;
  processSrtMsg_KMREQ : list Z -> Z -> K -> Z * list Z * K;
  processSrtMsg_KMRSP : list Z -> Z -> bool -> K -> Z * K;
  checkApplyFilterConfig : list Z -> HandshakeSide -> CSrtConfig -> option CSrtConfig
}.

Module Ext.

Section Ext.

Context {K : Type} `{!Peripherals K}.

Record t := mk {
  m_config : CSrtConfig;
  st : settled;
  m_bTLPktDrop : bool;
  m_RejectReason : Z;
  m_SrtHsSide : HandshakeSide;
  m_ConnRes_version : Z;
  connected : bool;
  m_pCryptoControl : option K
}.

Definition set_config (c : CSrtConfig) (s : t) : t :=
  mk c (st s) (m_bTLPktDrop s) (m_RejectReason s) (m_SrtHsSide s) (m_ConnRes_version s) (connected s) (m_pCryptoControl s).
Definition set_st (v : settled) (s : t) : t :=
  mk (m_config s) v (m_bTLPktDrop s) (m_RejectReason s) (m_SrtHsSide s) (m_ConnRes_version s) (connected s) (m_pCryptoControl s).
Definition set_reject (v : Z) (s : t) : t :=
  mk (m_config s) (st s) (m_bTLPktDrop s) v (m_SrtHsSide s) (m_ConnRes_version s) (connected s) (m_pCryptoControl s).
Definition set_crypto (v : K) (s : t) : t :=
  mk (m_config s) (st s) (m_bTLPktDrop s) (m_RejectReason s) (m_SrtHsSide s) (m_ConnRes_version s) (connected s) (Some v).

(** ** A monad of the functions that may [return false]

    The outer [None] is undefined behaviour, the inner [None] an early
    [return false]. *)
Definition HM (A : Type) : Type := t -> option (option A * t).

#[global] Instance HM_ret : MRet HM := fun A a s => Some (Some a, s).
#[global] Instance HM_bind : MBind HM :=
  fun A B f m s => match m s with
                   | Some (Some a, s') => f a s'
                   | Some (None, s') => Some (None, s')
                   | None => None
                   end.

Definition hfail {A} : HM A := fun s => Some (None, s).
Definition hreject {A} (reason : Z) : HM A := fun s => Some (None, set_reject reason s).
Definition hget : HM t := fun s => Some (Some s, s).
Definition hmodify (f : t -> t) : HM unit := fun s => Some (Some tt, f s).
Definition hlift {A} (o : option A) : HM A := fun s => a ← o; Some (Some a, s).

(** [m_pCryptoControl->], undefined on a null pointer. *)
Definition hcrypto : HM K := s ← hget; hlift (m_pCryptoControl s).

Definition upd_st (f : settled -> settled) : HM unit := hmodify (fun s => set_st (f (st s)) s).

(** ** Writing the blocks *)

Definition isOPT_TsbPd (s : t) : bool := bTSBPD (m_config s).

Definition or_if (b : bool) (flag w : Z) : Z := if b then Z.lor w flag else w.

(** [fillSrtHandshake_HSREQ] after [fillSrtHandshake]'s initial words: the
    words to write and the new delays. *)
Definition fillSrtHandshake_HSREQ (hs_version : Z) (flags0 : Z) : HM (list Z) :=
  s ← hget;
  let c := m_config s in
  (if bTSBPD c then upd_st (set_delays (iRcvLatency c) (iPeerLatency c)) else mret ());;
  s ← hget;
  let flags := or_if (bTSBPD c) SRT_OPT_TSBPDSND flags0 in
  let old := hs_version <? HS_VERSION_SRT1 in
  let latency :=
    if bTSBPD c then
      if old then Bits.wrap SRT_HS_LATENCY_LEG (u32 (m_iPeerTsbPdDelay_ms (st s)))
      else Z.lor (Bits.wrap SRT_HS_LATENCY_SND (u32 (m_iPeerTsbPdDelay_ms (st s))))
             (Bits.wrap SRT_HS_LATENCY_RCV (u32 (m_iTsbPdDelay_ms (st s))))
    else 0 in
  let flags := or_if (bTSBPD c && negb old) SRT_OPT_TSBPDRCV flags in
  let flags := or_if (bTSBPD c && negb old && m_bTLPktDrop s) SRT_OPT_TLPKTDROP flags in
  let flags := or_if (bRcvNakReport c) SRT_OPT_NAKREPORT flags in
  let flags := Z.lor flags SRT_OPT_REXMITFLG in
  let flags := or_if (negb (bMessageAPI c)) SRT_OPT_STREAM flags in
  mret [uSrtVersion c; flags; latency].

(** The empty list is the returned size 0 (no peer start time yet). *)
Definition fillSrtHandshake_HSRSP (hs_version : Z) (flags0 : Z) : HM (list Z) :=
  s ← hget;
  let c := m_config s in
  let e := st s in
  if m_tsRcvPeerStartTime e =? 0 then mret []
  else
    let flags := or_if (isOPT_TsbPd s) SRT_OPT_TSBPDRCV flags0 in
    let latency :=
      if isOPT_TsbPd s then
        if hs_version <? HS_VERSION_SRT1 then Bits.wrap SRT_HS_LATENCY_LEG (u32 (m_iTsbPdDelay_ms e))
        else Bits.wrap SRT_HS_LATENCY_RCV (u32 (m_iTsbPdDelay_ms e))
      else 0 in
    let snd := m_bPeerTsbPd e && (hs_version >=? HS_VERSION_SRT1) in
    let flags := or_if snd SRT_OPT_TSBPDSND flags in
    let latency := or_if snd (Bits.wrap SRT_HS_LATENCY_SND (u32 (m_iPeerTsbPdDelay_ms e))) latency in
    let flags := or_if (m_bTLPktDrop s) SRT_OPT_TLPKTDROP flags in
    let flags := or_if (bRcvNakReport c) SRT_OPT_NAKREPORT flags in
    let flags := if bRcvNakReport c && (m_uPeerSrtVersion e <=? SrtVersion 1 0 7)
                 then Z.ldiff flags SRT_OPT_TLPKTDROP else flags in
    let flags := or_if ((uSrtVersion c >=? SrtVersion 1 2 0) && m_bPeerRexmitFlag e) SRT_OPT_REXMITFLG flags in
    mret [uSrtVersion c; flags; latency].

(** [fillSrtHandshake]: the words at the beginning of the [srtlen] words it may
    use, and the size it returns. On size 0 (a too small buffer, an unknown
    message, no peer start time) the words zeroed and initialized before remain. *)
Definition fillSrtHandshake (srtlen msgtype hs_version : Z) : HM (list Z * Z) :=
  s ← hget;
  if srtlen <? SRT_HS_E_SIZE then mret ([], 0)
  else
    let base := [uSrtVersion (m_config s); SrtVersionCapabilities; 0] in
    ws ← (if msgtype =? SRT_CMD_HSREQ then fillSrtHandshake_HSREQ hs_version SrtVersionCapabilities
          else if msgtype =? SRT_CMD_HSRSP then fillSrtHandshake_HSRSP hs_version SrtVersionCapabilities
          else mret []);
    mret (match ws with [] => (base, 0) | _ => (ws, 3) end).

Definition cmdspec (cmd size : Z) : Z := Z.lor (Bits.wrap HS_CMDSPEC_CMD cmd) (Bits.wrap HS_CMDSPEC_SIZE (u32 size)).

(** [fillHsExtConfigString]: the block at the word index [spec] of the buffer. *)
Definition fillHsExtConfigString (spec cmd : Z) (str : list Z) (buf : list Z) : option (Z * list Z) :=
  let size := Z.of_nat (length str) in
  let wordsize := (size + 3) / 4 in
  let aligned_bytesize := wordsize * 4 in
  buf ← poke (4 * (spec + 1)) (replicate (Z.to_nat aligned_bytesize) 0) buf;
  buf ← poke (4 * (spec + 1)) str buf;
  buf ← poke_words spec [cmdspec cmd wordsize] buf;
  Some (wordsize, buf).

(** [NtoHLA] of key material, which is already in network byte order. *)
Definition ntoh_words (bs : list Z) : list Z := map bswap32 (bytes_words bs).

Definition fillHsExtKMREQ (spec ki : Z) (buf : list Z) : HM (Z * list Z) :=
  k ← hcrypto;
  let msglen := getKmMsg_size k ki in
  let ra_size := msglen / 4 + (if msglen mod 4 =? 0 then 0 else 1) in
  buf ← hlift (poke_words spec [cmdspec SRT_CMD_KMREQ ra_size] buf);
  keydata ← hlift (peek 0 (4 * ra_size) (getKmMsg_data k ki));
  buf ← hlift (poke_words (spec + 1) (ntoh_words keydata) buf);
  mret (ra_size, buf).

(** [kmdata] is [None] for a null pointer; its words as they lie in memory. *)
Definition fillHsExtKMRSP (spec : Z) (kmdata : option (list Z)) (kmdata_wordsize : Z) (buf : list Z)
    : HM (Z * list Z) :=
  if kmdata_wordsize =? 0 then
    k ← hcrypto;
    hmodify (set_crypto (set_KmStates SRT_KM_S_NOSECRET SRT_KM_S_UNSECURED k));;
    buf ← hlift (poke_words spec [cmdspec SRT_CMD_KMRSP 1] buf);
    buf ← hlift (poke_words (spec + 1) (map bswap32 [SRT_KM_S_UNSECURED]) buf);
    mret (1, buf)
  else
    match kmdata with
    | None => hmodify (set_reject SRT_REJ_IPE);; mret (0, buf)
    | Some ws =>
      buf ← hlift (poke_words spec [cmdspec SRT_CMD_KMRSP kmdata_wordsize] buf);
      buf ← hlift (poke_words (spec + 1) (map bswap32 (take (Z.to_nat kmdata_wordsize) ws)) buf);
      mret (kmdata_wordsize, buf)
    end.

(** ** [createSrtHandshake] *)

Definition ETH_MAX_MTU_SIZE : Z := 1500.

(** [controlPayloadSize]: for [AF_INET6] and for [AF_INET]. *)
Definition controlPayloadSize (ipv6 : bool) : Z := ETH_MAX_MTU_SIZE - (if ipv6 then 48 else 28).

(** The fixed part before the extension decision: the peer's version 4 settles
    the version, and an HSRSP without a received HSREQ blocks the extensions. *)
Definition hs_base (srths_cmd : Z) (s : t) (h : CHandShake.t) : CHandShake.t :=
  let h :=
    if m_ConnRes_version s =? HS_VERSION_UDT4
    then CHandShake.set_extension false (CHandShake.set_type UDT_DGRAM (CHandShake.set_version HS_VERSION_UDT4 h))
    else CHandShake.set_type 0 h in
  if CHandShake.m_iVersion h >? HS_VERSION_UDT4 then
    let h :=
      if (CHandShake.m_iReqType h =? URQ_CONCLUSION) && (srths_cmd =? SRT_CMD_HSRSP)
         && (m_tsRcvPeerStartTime (st s) =? 0)
      then CHandShake.set_extension false h else h in
    CHandShake.set_type (wrapFlags false (iSndCryptoKeyLen (m_config s))) h
  else CHandShake.set_type UDT_DGRAM h.

Definition have_sid (srths_cmd : Z) (c : CSrtConfig) : bool :=
  (srths_cmd =? SRT_CMD_HSREQ) && negb (bool_decide (sStreamName c = [])).

(** [m_sPeerPktFilterConfigString] is never set. *)
Definition peer_filter_capable (srths_cmd : Z) (s : t) : bool :=
  if srths_cmd =? SRT_CMD_HSRSP then IsSet (m_uPeerSrtFlags (st s)) SRT_OPT_FILTERCAP else true.

Definition have_filter (srths_cmd : Z) (s : t) : bool :=
  peer_filter_capable srths_cmd s && negb (bool_decide (sPacketFilterConfig (m_config s) = [])).

Definition have_congctl (c : CSrtConfig) : bool :=
  negb (bool_decide (sCongestion c = [])) && negb (bool_decide (sCongestion c = str_live)).

Definition have_kmreq (c : CSrtConfig) (kmdata_wordsize : Z) : bool :=
  (CryptoSecret_len c >? 0) || (kmdata_wordsize >? 0).

(** The extension flags in [m_iType]. *)
Definition hs_flags (srths_cmd kmdata_wordsize : Z) (s : t) (h : CHandShake.t) : CHandShake.t :=
  let c := m_config s in
  let ty := Z.lor (CHandShake.m_iType h) CHandShake.HS_EXT_HSREQ in
  let ty := or_if (have_sid srths_cmd c) CHandShake.HS_EXT_CONFIG ty in
  let ty := or_if (have_filter srths_cmd s) CHandShake.HS_EXT_CONFIG ty in
  let ty := or_if (have_congctl c) CHandShake.HS_EXT_CONFIG ty in
  let ty := or_if (have_kmreq c kmdata_wordsize) CHandShake.HS_EXT_KMREQ ty in
  CHandShake.set_type ty h.

(** The buffer, the word index [offset] of the current block's data and its
    size [ra_size]. *)
Record cursor := mkCursor { buf : list Z; offset : Z; ra_size : Z }.

(** [offset += ra_size + 1; ra_size = fill(p + offset - 1, ...)]. *)
Definition next_block (fill : Z -> list Z -> HM (Z * list Z)) (c : cursor) : HM cursor :=
  let off := offset c + ra_size c + 1 in
  r ← fill (off - 1) (buf c);
  mret (mkCursor (snd r) off (fst r)).

Definition config_block (have : bool) (cmd : Z) (str : list Z) (c : cursor) : HM cursor :=
  if have then next_block (fun spec b => hlift (fillHsExtConfigString spec cmd str b)) c else mret c.

Definition kmreq_block (ki : Z) (r : cursor * bool) : HM (cursor * bool) :=
  k ← hcrypto;
  if getKmMsg_size k ki >? 0 then c ← next_block (fun spec b => fillHsExtKMREQ spec ki b) (fst r); mret (c, true)
  else mret r.

(** The key material, when encryption is turned on. *)
Definition km_blocks (srtkm_cmd : Z) (kmdata : option (list Z)) (kmdata_wordsize : Z) (c : cursor) : HM cursor :=
  s ← hget;
  match m_pCryptoControl s with
  | None => hreject SRT_REJ_IPE
  | Some _ =>
    if srtkm_cmd =? SRT_CMD_KMREQ then
      r ← kmreq_block 0 (c, false);
      '(c, have_any_keys) ← kmreq_block 1 r;
      if (have_any_keys : bool) then mret c else hreject SRT_REJ_IPE
    else if srtkm_cmd =? SRT_CMD_KMRSP then
      next_block (fun spec b => fillHsExtKMRSP spec kmdata kmdata_wordsize b) c
    else hreject SRT_REJ_IPE
  end.

(** The extended handshake into a buffer of [w_pkt]'s length; the result is the
    packet's data. *)
Definition fill_blocks (srths_cmd srtkm_cmd : Z) (kmdata : option (list Z)) (kmdata_wordsize : Z)
    (data : list Z) (h : CHandShake.t) : HM (list Z) :=
  s ← hget;
  let cfg := m_config s in
  let total_ra_size := Z.of_nat (length data) / 4 in
  stored ← hlift (CHandShake.store_to h data (Z.of_nat (length data)));
  let '(_, data, hs_size) := stored in
  let spec := hs_size / 4 in
  let off := spec + 1 in
  w ← fillSrtHandshake ((total_ra_size - off) mod 2 ^ 64) srths_cmd HS_VERSION_SRT1;
  data ← hlift (poke_words off (fst w) data);
  data ← hlift (poke_words spec [cmdspec srths_cmd (snd w)] data);
  let c := mkCursor data off (snd w) in
  (if have_sid srths_cmd cfg && (Z.of_nat (length (sStreamName cfg)) >=? controlPayloadSize false / 2)
   then hreject SRT_REJ_ROGUE else mret ());;
  c ← config_block (have_sid srths_cmd cfg) SRT_CMD_SID (sStreamName cfg) c;
  c ← config_block (have_congctl cfg) SRT_CMD_CONGESTION (sCongestion cfg) c;
  c ← config_block (have_filter srths_cmd s) SRT_CMD_FILTER (sPacketFilterConfig cfg) c;
  c ← (if have_kmreq cfg kmdata_wordsize then km_blocks srtkm_cmd kmdata kmdata_wordsize c else mret c);
  if ra_size c =? 0 then hfail else mret (take (Z.to_nat (4 * (ra_size c + offset c))) (buf c)).

(** The result is the packet's data, where the function returns true, and the
    handshake structure as it is left. *)
Definition createSrtHandshake (srths_cmd srtkm_cmd : Z) (kmdata : option (list Z)) (kmdata_wordsize : Z)
    (data : list Z) (w_hs : CHandShake.t) (s : t) : option (option (list Z) * CHandShake.t * t) :=
  let h := hs_base srths_cmd s w_hs in
  if negb (CHandShake.m_extension h) then
    r ← CHandShake.store_to h data (Z.of_nat (length data));
    let '(_, data, hs_size) := r in
    Some (Some (take (Z.to_nat hs_size) data), h, s)
  else if (srths_cmd =? SRT_CMD_HSREQ) && bool_decide (m_SrtHsSide s = HSD_RESPONDER) then
    Some (None, h, set_reject SRT_REJ_IPE s)
  else
    let h := hs_flags srths_cmd kmdata_wordsize s h in
    r ← fill_blocks srths_cmd srtkm_cmd kmdata kmdata_wordsize data h s;
    Some (fst r, h, snd r).

(** ** Finding the blocks *)

(** Pointers are word indices into the memory after the fixed part; [None] for
    the null pointer. The results are the command and the new values of the
    reference arguments. *)
Definition FindExtensionBlock (mem : list Z) (begin total_length : Z) (w_out_len : Z) (w_next_block : option Z)
    : option (Z * Z * option Z) :=
  if total_length =? 0 then Some (SRT_CMD_NONE, 0, None)
  else
    w ← peek_word begin mem;
    let cmd := Bits.unwrap HS_CMDSPEC_CMD w in
    let size := Bits.unwrap HS_CMDSPEC_SIZE w in
    if size + 1 >? total_length then Some (SRT_CMD_NONE, w_out_len, w_next_block)
    else Some (cmd, size, if total_length =? size + 1 then None else Some (begin + 1 + size)).

(** The new [begin] and [length]; [None] for the result [false]. *)
Definition NextExtensionBlock (w_begin : Z) (next : option Z) (w_length : Z) : option (Z * Z) :=
  match next with
  | None => None
  | Some n => Some (n, w_length - (n - w_begin))
  end.

Record SrtHandshakeExtension := mkExt { type : Z; contents : list Z }.

(** Each round takes at least the block's first word. The command is narrowed
    to the [int16_t] of the result. *)
Fixpoint extract_loop (fuel : nat) (mem : list Z) (begin len blocklen : Z) (next : option Z)
    (w_output : list SrtHandshakeExtension) : option (list SrtHandshakeExtension) :=
  match fuel with
  | O => None
  | S fuel =>
    r ← FindExtensionBlock mem begin len blocklen next;
    let '(cmd, blocklen, next) := r in
    if cmd =? SRT_CMD_NONE then Some w_output
    else
      body ← peek_words (begin + 1) blocklen mem;
      let w_output := w_output ++ [mkExt ((cmd + 2 ^ 15) mod 2 ^ 16 - 2 ^ 15) body] in
      match NextExtensionBlock begin next len with
      | None => Some w_output
      | Some (begin, len) => extract_loop fuel mem begin len blocklen next w_output
      end
  end.

(** The rounds: one per word and one more. *)
Definition loop_fuel (mem : list Z) : nat := S (length mem).

Definition SrtExtractHandshakeExtensions (bufdata : list Z) : option (list SrtHandshakeExtension) :=
  let mem := drop (Z.to_nat CHandShake.m_iContentSize) bufdata in
  let size := Z.of_nat (length bufdata) - CHandShake.m_iContentSize in
  extract_loop (loop_fuel mem) mem 0 (size / 4) 0 None [].

(** ** Interpreting HSREQ and HSRSP *)

Definition SRT_CMD_HSREQ_MINSZ : Z := 8.
Definition SRT_CMD_HSRSP_MINSZ : Z := 8.

Definition upd_when (b : bool) (f : settled -> settled) : HM unit := if b then upd_st f else mret ().

(** A returned command with its reject reason. *)
Definition reject_cmd (reason cmd : Z) : HM Z := hmodify (set_reject reason);; mret cmd.

(** [HSREQ] after the checks: the latencies. *)
Definition hsreq_latency (flags latencystr hsv : Z) : HM unit :=
  s ← hget;
  upd_when (IsSet flags SRT_OPT_TSBPDSND && isOPT_TsbPd s)
    (fun e => let peer_decl_latency :=
       if hsv <? HS_VERSION_SRT1 then Bits.unwrap SRT_HS_LATENCY_LEG latencystr
       else Bits.unwrap SRT_HS_LATENCY_SND latencystr in
     set_tsbpd true (m_bPeerTsbPd e)
       (set_delays (Z.max (m_iTsbPdDelay_ms e) peer_decl_latency) (m_iPeerTsbPdDelay_ms e) e));;
  upd_when ((hsv >? HS_VERSION_UDT4) && IsSet flags SRT_OPT_TSBPDRCV)
    (fun e => let peer_decl_latency := Bits.unwrap SRT_HS_LATENCY_RCV latencystr in
     set_tsbpd (m_bTsbPd e) true
       (set_delays (m_iTsbPdDelay_ms e) (Z.max (m_iPeerTsbPdDelay_ms e) peer_decl_latency) e));;
  upd_when ((hsv >? HS_VERSION_UDT4) && IsSet flags SRT_OPT_TLPKTDROP) (set_peer_drop true);;
  upd_when ((hsv >? HS_VERSION_UDT4) && IsSet flags SRT_OPT_NAKREPORT) (set_peer_nak true).

(** [srtdata] is the message's words, [now] the clock and [ts] the packet's time stamp. *)
Definition processSrtMsg_HSREQ (now : Z) (srtdata : list Z) (bytelen ts hsv : Z) : HM Z :=
  upd_st (set_start (now - ts));;
  s ← hget;
  let c := m_config s in
  upd_st (set_delays (iRcvLatency c) (iPeerLatency c));;
  if bytelen <? SRT_CMD_HSREQ_MINSZ then reject_cmd SRT_REJ_ROGUE SRT_CMD_NONE
  else
    version ← hlift (srtdata !! 0%nat);
    flags ← hlift (srtdata !! 1%nat);
    upd_st (set_peer_version version flags);;
    if (if hsv =? HS_VERSION_UDT4 then version >=? SRT_VERSION_FEAT_HSv5 else version <? SRT_VERSION_FEAT_HSv5)
    then reject_cmd SRT_REJ_ROGUE SRT_CMD_REJECT
    else if version <? uMinimumPeerSrtVersion c then reject_cmd SRT_REJ_VERSION SRT_CMD_REJECT
    else
      upd_st (set_peer_rexmit (IsSet flags SRT_OPT_REXMITFLG));;
      let peer_message_api := negb (IsSet flags SRT_OPT_STREAM) in
      if negb (eqb peer_message_api (bMessageAPI c)) then reject_cmd SRT_REJ_MESSAGEAPI SRT_CMD_REJECT
      else if bytelen <? SRT_HS_E_SIZE * 4 then
        if IsSet flags SRT_OPT_TSBPDSND || IsSet flags SRT_OPT_TSBPDRCV
        then reject_cmd SRT_REJ_ROGUE SRT_CMD_REJECT
        else upd_st (set_tsbpd false false);; mret SRT_CMD_HSRSP
      else
        latencystr ← hlift (srtdata !! 2%nat);
        hsreq_latency flags latencystr hsv;;
        mret SRT_CMD_HSRSP.

Definition handshakeDone : HM unit := upd_st (set_retry 0).

(** [HSRSP] after the checks: the latencies the responder settled. *)
Definition hsrsp_latency (srtdata : list Z) (flags hsv : Z) : HM unit :=
  s ← hget;
  if hsv =? HS_VERSION_UDT4 then
    if IsSet flags SRT_OPT_TSBPDRCV then
      latency ← hlift (srtdata !! 2%nat);
      upd_st (fun e => set_tsbpd (m_bTsbPd e) true
        (set_delays (m_iTsbPdDelay_ms e) (Bits.unwrap SRT_HS_LATENCY_LEG latency) e))
    else mret ()
  else
    (if IsSet flags SRT_OPT_TSBPDRCV then
       latency ← hlift (srtdata !! 2%nat);
       upd_st (fun e => set_tsbpd (m_bTsbPd e) true
         (set_delays (m_iTsbPdDelay_ms e) (Bits.unwrap SRT_HS_LATENCY_RCV latency) e))
     else mret ());;
    if IsSet flags SRT_OPT_TSBPDSND && isOPT_TsbPd s then
      latency ← hlift (srtdata !! 2%nat);
      upd_st (fun e => set_tsbpd true (m_bPeerTsbPd e)
        (set_delays (Bits.unwrap SRT_HS_LATENCY_SND latency) (m_iPeerTsbPdDelay_ms e) e))
    else mret ().

Definition processSrtMsg_HSRSP (now : Z) (srtdata : list Z) (bytelen ts hsv : Z) : HM Z :=
  version ← hlift (srtdata !! 0%nat);
  if (hsv =? HS_VERSION_UDT4) && (version >=? SRT_VERSION_FEAT_HSv5) then mret SRT_CMD_NONE
  else if bytelen <? SRT_CMD_HSRSP_MINSZ then mret SRT_CMD_NONE
  else
    upd_st (fun e => if m_tsRcvPeerStartTime e =? 0 then set_start (now - ts) e else e);;
    flags ← hlift (srtdata !! 1%nat);
    upd_st (set_peer_version version flags);;
    s ← hget;
    let c := m_config s in
    if version <? uMinimumPeerSrtVersion c then reject_cmd SRT_REJ_VERSION SRT_CMD_REJECT
    else
      hsrsp_latency srtdata flags hsv;;
      upd_when ((uSrtVersion c >=? SrtVersion 1 0 5) && IsSet flags SRT_OPT_TLPKTDROP) (set_peer_drop true);;
      upd_when ((uSrtVersion c >=? SrtVersion 1 1 0) && IsSet flags SRT_OPT_NAKREPORT) (set_peer_nak true);;
      upd_when ((uSrtVersion c >=? SrtVersion 1 2 0) && IsSet flags SRT_OPT_REXMITFLG) (set_peer_rexmit true);;
      handshakeDone;;
      mret SRT_CMD_NONE.

(** ** [interpretSrtHandshake] *)

(** The extension area of a handshake packet: its bytes, and its length in words. *)
Definition ext_mem (data : list Z) : list Z := drop (Z.to_nat CHandShake.m_iContentSize) data.
Definition ext_words (data : list Z) : Z := (Z.of_nat (length data) - CHandShake.m_iContentSize) / 4.

Definition take_HSREQ (now ts : Z) (mem : list Z) (begin blocklen : Z) : HM unit :=
  if blocklen <? SRT_HS_E_SIZE then hreject SRT_REJ_ROGUE
  else
    body ← hlift (peek_words (begin + 1) blocklen mem);
    rescmd ← processSrtMsg_HSREQ now body (blocklen * 4) ts HS_VERSION_SRT1;
    if negb (rescmd =? SRT_CMD_HSRSP) then hfail else handshakeDone.

Definition take_HSRSP (now ts : Z) (mem : list Z) (begin blocklen : Z) : HM unit :=
  if blocklen <? SRT_HS_E_SIZE then hreject SRT_REJ_ROGUE
  else
    body ← hlift (peek_words (begin + 1) blocklen mem);
    rescmd ← processSrtMsg_HSRSP now body (blocklen * 4) ts HS_VERSION_SRT1;
    if negb (rescmd =? SRT_CMD_NONE) then
      s ← hget; if m_RejectReason s =? SRT_REJ_UNKNOWN then hreject SRT_REJ_ROGUE else hfail
    else handshakeDone.

(** The loop for the HSREQ or HSRSP block. *)
Fixpoint hsreq_loop (fuel : nat) (now ts : Z) (mem : list Z) (begin len blocklen : Z) (next : option Z) : HM unit :=
  match fuel with
  | O => hlift None
  | S fuel =>
    '(cmd, blocklen, next) ← hlift (FindExtensionBlock mem begin len blocklen next);
    if cmd =? SRT_CMD_HSREQ then take_HSREQ now ts mem begin blocklen
    else if cmd =? SRT_CMD_HSRSP then take_HSRSP now ts mem begin blocklen
    else if cmd =? SRT_CMD_NONE then hreject SRT_REJ_ROGUE
    else
      match next with
      | Some n => hsreq_loop fuel now ts mem n (len - (n - begin)) blocklen next
      | None => mret ()
      end
  end.

Definition take_KMREQ (out : bool) (mem : list Z) (begin blocklen : Z) : HM (list Z) :=
  if negb out then hreject SRT_REJ_IPE
  else
    s ← hget;
    k ← hcrypto;
    body ← hlift (peek_words (begin + 1) blocklen mem);
    let '(res, kmdata, k) := processSrtMsg_KMREQ body (m_uPeerSrtVersion (st s)) k in
    hmodify (set_crypto k);;
    if negb (res =? SRT_CMD_KMRSP) then hreject SRT_REJ_IPE
    else if bool_decide (length kmdata = 1%nat) && bEnforcedEnc (m_config s) then
      hreject (if m_RcvKmState k =? SRT_KM_S_BADSECRET then SRT_REJ_BADSECRET else SRT_REJ_UNSECURE)
    else mret kmdata.

Definition take_KMRSP (mem : list Z) (begin blocklen : Z) : HM unit :=
  s ← hget;
  k ← hcrypto;
  body ← hlift (peek_words (begin + 1) blocklen mem);
  let '(res, k) := processSrtMsg_KMRSP body (m_uPeerSrtVersion (st s)) (negb (connected s)) k in
  hmodify (set_crypto k);;
  if bEnforcedEnc (m_config s) && (res =? -1) then
    hreject (if m_SndKmState k =? SRT_KM_S_BADSECRET then SRT_REJ_BADSECRET else SRT_REJ_UNSECURE)
  else mret ().

(** The loop for the KMREQ or KMRSP block; the result is the answer's words and
    the flag [encrypted]. *)
Fixpoint km_loop (fuel : nat) (out : bool) (mem : list Z) (begin len blocklen : Z) (next : option Z)
    : HM (list Z * bool) :=
  match fuel with
  | O => hlift None
  | S fuel =>
    '(cmd, blocklen, next) ← hlift (FindExtensionBlock mem begin len blocklen next);
    if cmd =? SRT_CMD_KMREQ then kmdata ← take_KMREQ out mem begin blocklen; mret (kmdata, true)
    else if cmd =? SRT_CMD_KMRSP then take_KMRSP mem begin blocklen;; mret ([], true)
    else if cmd =? SRT_CMD_NONE then hreject SRT_REJ_ROGUE
    else
      match NextExtensionBlock begin next len with
      | Some (begin, len) => km_loop fuel out mem begin len blocklen next
      | None => mret ([], false)
      end
  end.

Definition interpret_km (flagged out : bool) (data : list Z) : HM (list Z * bool) :=
  if flagged then
    s ← hget;
    k ← hcrypto;
    if negb (hasPassphrase k) && bEnforcedEnc (m_config s) then hreject SRT_REJ_UNSECURE
    else km_loop (loop_fuel data) out (ext_mem data) 0 (ext_words data) 0 None
  else mret ([], false).

(** [for (pos = bytelen - 1; pos != 0; --pos)]: the length up to the last
    character that is not NUL, positions [pos] down to 1 only. *)
Fixpoint sid_length (target : list Z) (bytelen : Z) (pos : nat) : Z :=
  match pos with
  | O => bytelen
  | S pos' => if from_option id 0 (target !! pos) =? 0 then sid_length target bytelen pos' else Z.of_nat pos + 1
  end.

(** The stream ID from the bytes of its block. *)
Definition decode_sid (bs : list Z) : list Z :=
  take (Z.to_nat (sid_length bs (Z.of_nat (length bs)) (length bs - 1))) bs.

(** The effect of one configuration block; the flags are [have_congctl] and [have_filter]. *)
Definition take_config (cmd : Z) (agsm : list Z) (mem : list Z) (begin blocklen : Z) (have : bool * bool)
    : HM (bool * bool) :=
  let bytelen := blocklen * 4 in
  let bad max := (bytelen =? 0) || (bytelen >? max) in
  if cmd =? SRT_CMD_SID then
    if bad MAX_SID_LENGTH then hfail
    else
      bs ← hlift (peek (4 * (begin + 1)) bytelen mem);
      hmodify (fun s => set_config (set_StreamName (decode_sid bs) (m_config s)) s);;
      mret have
  else if cmd =? SRT_CMD_CONGESTION then
    if fst have then hreject SRT_REJ_ROGUE
    else if bad MAX_CONG_LENGTH then hfail
    else
      bs ← hlift (peek (4 * (begin + 1)) bytelen mem);
      if bool_decide (c_string bs = agsm) then mret (true, snd have) else hreject SRT_REJ_CONGESTION
  else if cmd =? SRT_CMD_FILTER then
    if snd have then hreject SRT_REJ_FILTER
    else if bad MAX_PFILTER_LENGTH then hfail
    else
      bs ← hlift (peek (4 * (begin + 1)) bytelen mem);
      s ← hget;
      match checkApplyFilterConfig (c_string bs) (m_SrtHsSide s) (m_config s) with
      | None => hreject SRT_REJ_FILTER
      | Some c => hmodify (set_config c);; mret (fst have, true)
      end
  else mret have.

Fixpoint config_loop (fuel : nat) (agsm : list Z) (mem : list Z) (begin len blocklen : Z) (next : option Z)
    (have : bool * bool) : HM (bool * bool) :=
  match fuel with
  | O => hlift None
  | S fuel =>
    '(cmd, blocklen, next) ← hlift (FindExtensionBlock mem begin len blocklen next);
    if cmd =? SRT_CMD_NONE then mret have
    else
      have ← take_config cmd agsm mem begin blocklen have;
      match NextExtensionBlock begin next len with
      | Some (begin, len) => config_loop fuel agsm mem begin len blocklen next have
      | None => mret have
      end
  end.

(** The checks after the blocks. *)
Definition post_checks (encrypted : bool) (agsm : list Z) (have : bool * bool) : HM unit :=
  s ← hget;
  let c := m_config s in
  if negb encrypted && (CryptoSecret_len c >? 0) then
    if bEnforcedEnc c then hreject SRT_REJ_UNSECURE
    else
      k ← hcrypto;
      hmodify (set_crypto (set_KmStates SRT_KM_S_NOSECRET SRT_KM_S_UNSECURED (createFakeSndContext k)))
  else if negb (bool_decide (agsm = str_live)) && negb (fst have) then hreject SRT_REJ_CONGESTION
  else if negb (bool_decide (sPacketFilterConfig c = [])) && negb (snd have) then
    if decide (m_SrtHsSide s = HSD_INITIATOR) then hreject SRT_REJ_FILTER
    else hmodify (set_config (set_PacketFilterConfig [] c))
  else mret ().

(** [out] tells whether the caller passes a buffer for the key material's
    answer; the result is its words. *)
Definition interpretSrtHandshake (now : Z) (hs : CHandShake.t) (ts : Z) (data : list Z) (out : bool) : HM (list Z) :=
  s ← hget;
  if (m_ConnRes_version s >? HS_VERSION_UDT4) && (CHandShake.m_iVersion hs =? 0) then hreject SRT_REJ_PEER
  else if CHandShake.m_iVersion hs <? HS_VERSION_SRT1 then
    let min := uMinimumPeerSrtVersion (m_config s) in
    if negb (min =? 0) && (min >=? SRT_VERSION_FEAT_HSv5) then hreject SRT_REJ_VERSION else mret []
  else if Z.of_nat (length data) <=? CHandShake.m_iContentSize then hreject SRT_REJ_ROGUE
  else
    let ext_flags := Bits.unwrap SRT_HSTYPE_HSFLAGS (u32 (CHandShake.m_iType hs)) in
    if ext_flags =? 0 then hreject SRT_REJ_ROGUE
    else
      (if IsSet ext_flags CHandShake.HS_EXT_HSREQ
       then hsreq_loop (loop_fuel data) now ts (ext_mem data) 0 (ext_words data) 0 None else mret ());;
      '(kmdata, encrypted) ← interpret_km (IsSet ext_flags CHandShake.HS_EXT_KMREQ) out data;
      (hmodify (fun s => if decide (sCongestion (m_config s) = [])
                         then set_config (set_Congestion str_live (m_config s)) s else s));;
      s ← hget;
      let agsm := sCongestion (m_config s) in
      have ← (if IsSet ext_flags CHandShake.HS_EXT_CONFIG
              then config_loop (loop_fuel data) agsm (ext_mem data) 0 (ext_words data) 0 None (false, false)
              else mret (false, false));
      post_checks encrypted agsm have;;
      mret kmdata.

End Ext.

Arguments t : clear implicits.
Arguments HM : clear implicits.

End Ext.
