(* ===== verification/HandshakeSpec.v ===== *)
(** * The handshake's memory: reads, writes and the list of extension blocks

    [enc]: the bytes of a list of blocks, each a command and its words. The
    parser of Handshake.v finds exactly the blocks written, one after another,
    and on any bytes at all it ends without leaving the buffer. *)

From S2P Require Import Prelude SeqNo Packet Handshake.

(** ** Reads and writes *)

Lemma poke_app a b c d :
  length b = length c -> poke (Z.of_nat (length a)) b (a ++ c ++ d) = Some (a ++ b ++ d).
Proof.
  intros E. unfold poke. rewrite !length_app, E.
  destruct (Z.leb_spec 0 (Z.of_nat (length a))); [|lia].
  destruct (Z.leb_spec (Z.of_nat (length a) + Z.of_nat (length c))
              (Z.of_nat (length a + (length c + length d)))); [|lia].
  cbn [andb]. rewrite Nat2Z.id, take_app_length. f_equal. f_equal. f_equal.
  rewrite (app_assoc a c d), <- length_app. apply drop_app_length.
Qed.

Lemma poke_split off b mem :
  0 <= off -> off + Z.of_nat (length b) <= Z.of_nat (length mem) ->
  exists a c d, mem = a ++ c ++ d /\ Z.of_nat (length a) = off /\ length c = length b
    /\ poke off b mem = Some (a ++ b ++ d).
Proof.
  intros H0 H1. exists (take (Z.to_nat off) mem), (take (length b) (drop (Z.to_nat off) mem)),
    (drop (length b) (drop (Z.to_nat off) mem)).
  assert (length (take (Z.to_nat off) mem) = Z.to_nat off) as La by (rewrite length_take; lia).
  split; [by rewrite !take_drop|]. split; [rewrite La; lia|].
  split; [rewrite length_take, length_drop; lia|].
  unfold poke. destruct (Z.leb_spec 0 off), (Z.leb_spec (off + Z.of_nat (length b)) (Z.of_nat (length mem))); try lia.
  cbn [andb]. by rewrite drop_drop.
Qed.

Lemma peek_app a b c : peek (Z.of_nat (length a)) (Z.of_nat (length b)) (a ++ b ++ c) = Some b.
Proof.
  unfold peek. rewrite !length_app.
  destruct (Z.leb_spec 0 (Z.of_nat (length a))), (Z.leb_spec 0 (Z.of_nat (length b))); try lia.
  destruct (Z.leb_spec (Z.of_nat (length a) + Z.of_nat (length b))
              (Z.of_nat (length a + (length b + length c)))); [|lia].
  cbn [andb]. rewrite !Nat2Z.id, drop_app_length, take_app_length. done.
Qed.

Lemma peek_is_Some off n mem :
  0 <= off -> 0 <= n -> off + n <= Z.of_nat (length mem) ->
  exists bs, peek off n mem = Some bs /\ Z.of_nat (length bs) = n.
Proof.
  intros H0 H1 H2. unfold peek.
  destruct (Z.leb_spec 0 off), (Z.leb_spec 0 n), (Z.leb_spec (off + n) (Z.of_nat (length mem))); try lia.
  cbn [andb]. eexists. split; [done|]. rewrite length_take, length_drop. lia.
Qed.

(** ** Words *)

Lemma length_words_bytes ws : length (words_bytes ws) = (4 * length ws)%nat.
Proof. unfold words_bytes. induction ws as [|w ws IH]; [done|]. cbn [map concat]. rewrite length_app, IH. change (length (le_bytes w)) with 4%nat. cbn [length]. lia. Qed.

Lemma words_bytes_app a b : words_bytes (a ++ b) = words_bytes a ++ words_bytes b.
Proof. unfold words_bytes. by rewrite map_app, concat_app. Qed.

Lemma bytes_words_app ws rest :
  Forall is_u32 ws -> bytes_words (words_bytes ws ++ rest) = ws ++ bytes_words rest.
Proof.
  induction 1 as [|w ws Hw _ IH]; [done|].
  unfold words_bytes in *. cbn [map concat]. rewrite <- app_assoc. unfold le_bytes at 1. cbn [app bytes_words].
  rewrite IH. f_equal. by apply le_word_le_bytes.
Qed.

Lemma bytes_words_words_bytes ws : Forall is_u32 ws -> bytes_words (words_bytes ws) = ws.
Proof. intros H. rewrite <- (app_nil_r (words_bytes ws)), bytes_words_app by done. apply app_nil_r. Qed.

(** Whole words only. *)
Lemma words_ind (P : list Z -> Prop) :
  P [] -> (forall b0 b1 b2 b3 rest, P rest -> P (b0 :: b1 :: b2 :: b3 :: rest)) ->
  forall n bs, length bs = (4 * n)%nat -> P bs.
Proof.
  intros H0 HS n. induction n as [|n IH]; intros bs Hl.
  - by destruct bs.
  - destruct bs as [|b0 [|b1 [|b2 [|b3 rest]]]]; cbn [length] in Hl; try lia. apply HS, IH. lia.
Qed.

Lemma words_bytes_bytes_words n bs :
  length bs = (4 * n)%nat -> Forall is_byte bs -> words_bytes (bytes_words bs) = bs.
Proof.
  revert bs. apply (words_ind (fun bs => Forall is_byte bs -> words_bytes (bytes_words bs) = bs)); [done|].
  intros b0 b1 b2 b3 rest IH Hb. apply Forall_byte_4 in Hb as [(? & ? & ? & ?) Hr].
  cbn [bytes_words]. unfold words_bytes in *. cbn [map concat]. rewrite IH, le_bytes_le_word by done. done.
Qed.

Lemma length_bytes_words n bs : length bs = (4 * n)%nat -> length (bytes_words bs) = n.
Proof.
  revert n bs. intros n. induction n as [|n IH]; intros bs Hl; [by destruct bs|].
  destruct bs as [|b0 [|b1 [|b2 [|b3 rest]]]]; cbn [length] in Hl; try lia. cbn [bytes_words length]. f_equal.
  apply IH. lia.
Qed.

Lemma bytes_words_range n bs : length bs = (4 * n)%nat -> Forall is_byte bs -> Forall is_u32 (bytes_words bs).
Proof.
  revert bs. apply (words_ind (fun bs => Forall is_byte bs -> Forall is_u32 (bytes_words bs))); [by intros|].
  intros b0 b1 b2 b3 rest IH Hb. apply Forall_byte_4 in Hb as [(? & ? & ? & ?) Hr].
  cbn [bytes_words]. apply Forall_cons_2; [by apply le_word_range|auto].
Qed.

Lemma poke_words_app a ws c d n :
  length c = (4 * length ws)%nat -> Z.of_nat (length a) = 4 * n ->
  poke_words n ws (a ++ c ++ d) = Some (a ++ words_bytes ws ++ d).
Proof. intros Hc Ha. unfold poke_words. rewrite <- Ha. apply poke_app. rewrite length_words_bytes. lia. Qed.

Lemma peek_words_app a ws c n k :
  Forall is_u32 ws -> Z.of_nat (length a) = 4 * n -> k = Z.of_nat (length ws) ->
  peek_words n k (a ++ words_bytes ws ++ c) = Some ws.
Proof.
  intros Hw Ha ->. unfold peek_words. rewrite <- Ha.
  replace (4 * Z.of_nat (length ws)) with (Z.of_nat (length (words_bytes ws))) by (rewrite length_words_bytes; lia).
  rewrite peek_app. cbn [mbind option_bind]. by rewrite bytes_words_words_bytes.
Qed.

Lemma peek_words_is_Some n k mem :
  0 <= n -> 0 <= k -> 4 * (n + k) <= Z.of_nat (length mem) ->
  exists ws, peek_words n k mem = Some ws /\ Z.of_nat (length ws) = k.
Proof.
  intros H0 H1 H2. unfold peek_words. destruct (peek_is_Some (4 * n) (4 * k) mem) as (bs & -> & El); [lia..|].
  cbn [mbind option_bind]. eexists. split; [done|]. rewrite (length_bytes_words (Z.to_nat k)) by lia. lia.
Qed.

Lemma peek_word_is_Some n mem : 0 <= n -> 4 * (n + 1) <= Z.of_nat (length mem) -> exists w, peek_word n mem = Some w.
Proof.
  intros H0 H1. unfold peek_word. destruct (peek_words_is_Some n 1 mem) as (ws & -> & El); [lia..|].
  destruct ws as [|w ws]; [cbn in El; lia|]. by exists w.
Qed.

Lemma peek_word_app a w c n :
  is_u32 w -> Z.of_nat (length a) = 4 * n -> peek_word n (a ++ le_bytes w ++ c) = Some w.
Proof.
  intros Hw Ha. unfold peek_word. pose proof (peek_words_app a [w] c n 1) as H.
  unfold words_bytes in H. cbn [map concat] in H. rewrite app_nil_r in H. by rewrite H by auto.
Qed.

(** ** The fixed part *)

Lemma u32_i32 z : i32 (u32 z) = i32 z.
Proof. unfold i32, u32. rewrite Z.add_mod_idemp_l by lia. done. Qed.

Lemma hs_words_range h : Forall is_u32 (CHandShake.words h).
Proof. unfold CHandShake.words. apply Forall_map, Forall_true. intros x. apply u32_range. Qed.

Lemma hs_words_length h : CHandShake.wf h -> length (CHandShake.words h) = 12%nat.
Proof. intros H. unfold CHandShake.words. rewrite length_map, length_app. cbn [length]. destruct H as (_&_&_&_&_&_&_&_&E&_). lia. Qed.

Lemma map_u32_id l : Forall is_u32 l -> map u32 l = l.
Proof. induction 1 as [|x l Hx _ IH]; [done|]. cbn [map]. by rewrite IH, u32_id. Qed.

Lemma store_to_app h a d :
  CHandShake.wf h -> length a = 48%nat ->
  CHandShake.store_to h (a ++ d) (Z.of_nat (length (a ++ d))) = Some (0, words_bytes (CHandShake.words h) ++ d, 48).
Proof.
  intros Hw Ha. unfold CHandShake.store_to. rewrite length_app.
  destruct (Z.ltb_spec (Z.of_nat (length a + length d)) CHandShake.m_iContentSize) as [Hl|_];
    [unfold CHandShake.m_iContentSize in Hl; lia|].
  pose proof (poke_words_app [] (CHandShake.words h) a d 0) as H. cbn [app] in H.
  rewrite H; [done|rewrite hs_words_length by done; lia|done].
Qed.

(** What is read back of a stored handshake: everything but [m_extension]. *)
Lemma load_from_app h h0 rest :
  CHandShake.wf h ->
  CHandShake.load_from h0 (words_bytes (CHandShake.words h) ++ rest)
    (Z.of_nat (length (words_bytes (CHandShake.words h) ++ rest)))
  = Some (0, CHandShake.set_extension (CHandShake.m_extension h0) h).
Proof.
  intros Hw. unfold CHandShake.load_from. rewrite length_app, length_words_bytes, hs_words_length by done.
  destruct (Z.ltb_spec (Z.of_nat (4 * 12 + length rest)) CHandShake.m_iContentSize) as [Hl|_];
    [unfold CHandShake.m_iContentSize in Hl; lia|].
  pose proof (peek_words_app [] (CHandShake.words h) rest 0 12 (hs_words_range h) eq_refl) as E. cbn [app] in E.
  rewrite E by (by rewrite hs_words_length). clear E.
  destruct h as [ver ty isn mss flw req id ck ip ex].
  destruct Hw as (H1&H2&H3&H4&H5&H6&H7&H8&H9&H10). cbn in H1,H2,H3,H4,H5,H6,H7,H8,H9,H10.
  cbn [mbind option_bind CHandShake.words CHandShake.m_iVersion CHandShake.m_iType CHandShake.m_iISN
    CHandShake.m_iMSS CHandShake.m_iFlightFlagSize CHandShake.m_iReqType CHandShake.m_iID CHandShake.m_iCookie
    CHandShake.m_piPeerIP map app].
  rewrite !u32_i32, !i32_id, map_u32_id by done. done.
Qed.

(** ** Two halves of a word *)

Lemma wf_high : Bits.wf (Bits.mk 31 16).
Proof. split; cbn; lia. Qed.

Lemma wf_low : Bits.wf (Bits.mk 15 0).
Proof. split; cbn; lia. Qed.

Lemma wrap_high v : 0 <= v < 2 ^ 16 -> Bits.wrap (Bits.mk 31 16) v = Z.shiftl v 16.
Proof.
  intros Hv. apply Z.bits_inj'. intros i Hi. rewrite (testbit_wrap _ wf_high), Z.shiftl_spec by done.
  cbn [Bits.R Bits.L]. destruct (Z.leb_spec 16 i); [|by rewrite Z.testbit_neg_r by lia].
  destruct (Z.leb_spec i 31); [done|]. cbn [andb]. symmetry.
  rewrite <- (Z.mod_small v (2 ^ 16)) by lia. apply Z.mod_pow2_bits_high. lia.
Qed.

Lemma wrap_low v : 0 <= v < 2 ^ 16 -> Bits.wrap (Bits.mk 15 0) v = v.
Proof.
  intros Hv. apply Z.bits_inj'. intros i Hi. rewrite (testbit_wrap _ wf_low) by done. cbn [Bits.R Bits.L].
  rewrite Z.sub_0_r. destruct (Z.leb_spec 0 i); [|lia]. destruct (Z.leb_spec i 15); [done|]. cbn [andb]. symmetry.
  rewrite <- (Z.mod_small v (2 ^ 16)) by lia. apply Z.mod_pow2_bits_high. lia.
Qed.

Definition two (hi lo : Z) : Z := Z.lor (Bits.wrap (Bits.mk 31 16) hi) (Bits.wrap (Bits.mk 15 0) lo).

Lemma two_value hi lo : 0 <= hi < 2 ^ 16 -> 0 <= lo < 2 ^ 16 -> two hi lo = lo + hi * 2 ^ 16.
Proof. intros Hh Hl. unfold two. rewrite wrap_high, wrap_low, Z.lor_comm by done. apply lor_shift_add; lia. Qed.

Lemma unwrap_high w : is_u32 w -> Bits.unwrap (Bits.mk 31 16) w = w / 2 ^ 16.
Proof.
  intros Hw. rewrite <- Z.shiftr_div_pow2 by lia. apply Z.bits_inj'. intros i Hi.
  rewrite (testbit_unwrap _ wf_high), Z.shiftr_spec by done. cbn [Bits.R Bits.L].
  destruct (Z.leb_spec (i + 16) 31); [by rewrite andb_true_r|]. rewrite andb_false_r. symmetry.
  unfold is_u32 in Hw. rewrite <- (Z.mod_small w (2 ^ 32)) by lia. apply Z.mod_pow2_bits_high. lia.
Qed.

Lemma unwrap_low w : Bits.unwrap (Bits.mk 15 0) w = w mod 2 ^ 16.
Proof.
  apply Z.bits_inj'. intros i Hi. rewrite (testbit_unwrap _ wf_low) by done. cbn [Bits.R Bits.L].
  rewrite Z.add_0_r. destruct (Z.leb_spec i 15).
  - by rewrite Z.mod_pow2_bits_low, andb_true_r by lia.
  - by rewrite Z.mod_pow2_bits_high, andb_false_r by lia.
Qed.

Lemma two_unwrap hi lo : 0 <= hi < 2 ^ 16 -> 0 <= lo < 2 ^ 16 ->
  is_u32 (two hi lo) /\ Bits.unwrap (Bits.mk 31 16) (two hi lo) = hi /\ Bits.unwrap (Bits.mk 15 0) (two hi lo) = lo.
Proof.
  intros Hh Hl. rewrite two_value by done. assert (is_u32 (lo + hi * 2 ^ 16)) as Hw by (unfold is_u32; lia).
  split; [done|]. rewrite unwrap_high, unwrap_low by done. split; zlia.
Qed.

(** ** Blocks *)

Notation block := (Z * list Z)%type.

Definition block_ok (b : block) : Prop :=
  0 <= fst b < 2 ^ 15 /\ Z.of_nat (length (snd b)) < 2 ^ 16 /\ Forall is_u32 (snd b).

Definition block_words (b : block) : list Z := Ext.cmdspec (fst b) (Z.of_nat (length (snd b))) :: snd b.

Definition ewords (bs : list block) : list Z := concat (map block_words bs).
Definition enc (bs : list block) : list Z := words_bytes (ewords bs).
Definition wsz (bs : list block) : Z := Z.of_nat (length (ewords bs)).

Lemma cmdspec_two cmd n : 0 <= n < 2 ^ 16 -> Ext.cmdspec cmd n = two cmd n.
Proof. intros Hn. unfold Ext.cmdspec, two. rewrite u32_id by (unfold is_u32; lia). done. Qed.

Lemma ewords_app a b : ewords (a ++ b) = ewords a ++ ewords b.
Proof. unfold ewords. by rewrite map_app, concat_app. Qed.

Lemma enc_app a b : enc (a ++ b) = enc a ++ enc b.
Proof. unfold enc. by rewrite ewords_app, words_bytes_app. Qed.

Lemma enc_cons cmd ws bs :
  enc ((cmd, ws) :: bs) = le_bytes (Ext.cmdspec cmd (Z.of_nat (length ws))) ++ words_bytes ws ++ enc bs.
Proof.
  unfold enc, ewords. cbn [map concat]. unfold block_words at 1. cbn [fst snd app].
  unfold words_bytes at 1. cbn [map concat]. fold (words_bytes (ws ++ concat (map block_words bs))).
  by rewrite words_bytes_app.
Qed.

Lemma wsz_app a b : wsz (a ++ b) = wsz a + wsz b.
Proof. unfold wsz. rewrite ewords_app, length_app. lia. Qed.

Lemma wsz_cons cmd ws bs : wsz ((cmd, ws) :: bs) = 1 + Z.of_nat (length ws) + wsz bs.
Proof. unfold wsz, ewords. cbn [map concat]. rewrite length_app. unfold block_words at 1. cbn [fst snd length]. lia. Qed.

Lemma wsz_nonneg bs : 0 <= wsz bs.
Proof. unfold wsz. lia. Qed.

Lemma wsz_zero bs : wsz bs = 0 -> bs = [].
Proof. destruct bs as [|[cmd ws] bs]; [done|]. rewrite wsz_cons. pose proof (wsz_nonneg bs). lia. Qed.

Lemma length_enc bs : Z.of_nat (length (enc bs)) = 4 * wsz bs.
Proof. unfold enc, wsz. rewrite length_words_bytes. lia. Qed.

Lemma cmdspec_facts cmd ws : block_ok (cmd, ws) ->
  is_u32 (Ext.cmdspec cmd (Z.of_nat (length ws)))
  /\ Bits.unwrap HS_CMDSPEC_CMD (Ext.cmdspec cmd (Z.of_nat (length ws))) = cmd
  /\ Bits.unwrap HS_CMDSPEC_SIZE (Ext.cmdspec cmd (Z.of_nat (length ws))) = Z.of_nat (length ws).
Proof.
  intros (H1 & H2 & _). cbn [fst snd] in H1, H2. rewrite cmdspec_two by lia. apply two_unwrap; lia.
Qed.

(** The next block of an area written block by block. *)
Definition next_of (pre : list block) (ws : list Z) (post : list block) : option Z :=
  if decide (post = []) then None else Some (wsz pre + 1 + Z.of_nat (length ws)).

Lemma find_block pre cmd ws post ol nx :
  block_ok (cmd, ws) ->
  Ext.FindExtensionBlock (enc (pre ++ (cmd, ws) :: post)) (wsz pre) (wsz ((cmd, ws) :: post)) ol nx
  = Some (cmd, Z.of_nat (length ws), next_of pre ws post).
Proof.
  intros Hok. destruct (cmdspec_facts _ _ Hok) as (Hw & Ec & Es). pose proof (wsz_nonneg post).
  unfold Ext.FindExtensionBlock. rewrite wsz_cons, enc_app, enc_cons.
  destruct (Z.eqb_spec (1 + Z.of_nat (length ws) + wsz post) 0); [lia|].
  rewrite peek_word_app by (done || apply length_enc). cbn [mbind option_bind]. rewrite Ec, Es.
  destruct (Z.gtb_spec (Z.of_nat (length ws) + 1) (1 + Z.of_nat (length ws) + wsz post)); [lia|].
  f_equal. f_equal. unfold next_of.
  destruct (Z.eqb_spec (1 + Z.of_nat (length ws) + wsz post) (Z.of_nat (length ws) + 1)) as [E|E].
  - rewrite decide_True; [done|]. apply wsz_zero. lia.
  - rewrite decide_False; [done|]. intros ->. change (wsz []) with 0 in E. lia.
Qed.

Lemma block_body pre cmd ws post :
  block_ok (cmd, ws) ->
  peek_words (wsz pre + 1) (Z.of_nat (length ws)) (enc (pre ++ (cmd, ws) :: post)) = Some ws.
Proof.
  intros (_ & _ & Hw). rewrite enc_app, enc_cons, app_assoc. apply peek_words_app; [done| |done].
  rewrite length_app, Nat2Z.inj_add, length_enc. change (length (le_bytes _)) with 4%nat. lia.
Qed.

(** Moving on to the next block. *)
Lemma next_block_step pre cmd ws post :
  Ext.NextExtensionBlock (wsz pre) (next_of pre ws post) (wsz ((cmd, ws) :: post))
  = if decide (post = []) then None else Some (wsz (pre ++ [(cmd, ws)]), wsz post).
Proof.
  unfold next_of. destruct (decide (post = [])); [done|]. cbn [Ext.NextExtensionBlock].
  rewrite wsz_app, !wsz_cons. change (wsz []) with 0. f_equal. f_equal; lia.
Qed.

Lemma blocks_fuel post : (length post <= Z.to_nat (wsz post))%nat.
Proof. induction post as [|[cmd ws] post IH]; [cbn; lia|]. rewrite wsz_cons. pose proof (wsz_nonneg post). cbn [length]. lia. Qed.

(** ** Extraction *)

Definition ext_of (b : block) : Ext.SrtHandshakeExtension := Ext.mkExt (fst b) (snd b).

Lemma extract_blocks post : forall fuel pre ol nx out,
  Forall block_ok post -> post <> [] -> (length post <= fuel)%nat ->
  Ext.extract_loop fuel (enc (pre ++ post)) (wsz pre) (wsz post) ol nx out = Some (out ++ map ext_of post).
Proof.
  induction post as [|[cmd ws] post IH]; intros fuel pre ol nx out Hok Hne Hf; [done|].
  destruct fuel as [|fuel]; [cbn in Hf; lia|]. apply list.Forall_cons in Hok as [Hb Hok].
  cbn [Ext.extract_loop]. rewrite find_block by done. cbn [mbind option_bind].
  pose proof Hb as (Hc & _). cbn [fst] in Hc.
  destruct (Z.eqb_spec cmd SRT_CMD_NONE) as [E|_]; [unfold SRT_CMD_NONE in E; lia|].
  rewrite block_body by done. cbn [mbind option_bind]. rewrite next_block_step.
  replace ((cmd + 2 ^ 15) mod 2 ^ 16 - 2 ^ 15) with cmd by (rewrite Z.mod_small; lia).
  destruct (decide (post = [])) as [->|Hp]; [done|].
  rewrite cons_middle, app_assoc.
  rewrite IH by (done || cbn in Hf; lia). by rewrite <- app_assoc.
Qed.

Lemma drop_header (hdr mem : list Z) : length hdr = 48%nat -> drop (Z.to_nat CHandShake.m_iContentSize) (hdr ++ mem) = mem.
Proof. intros E. change (Z.to_nat CHandShake.m_iContentSize) with 48%nat. rewrite <- E. apply drop_app_length. Qed.

Lemma ext_words_enc hdr bs : length hdr = 48%nat -> Ext.ext_words (hdr ++ enc bs) = wsz bs.
Proof.
  intros E. unfold Ext.ext_words. rewrite length_app, Nat2Z.inj_add, length_enc, E.
  change CHandShake.m_iContentSize with 48. replace (Z.of_nat 48 + 4 * wsz bs - 48) with (wsz bs * 4) by lia.
  by rewrite Z.div_mul.
Qed.

Lemma extract_enc hdr bs :
  length hdr = 48%nat -> Forall block_ok bs ->
  Ext.SrtExtractHandshakeExtensions (hdr ++ enc bs) = Some (map ext_of bs).
Proof.
  intros Hh Hok. unfold Ext.SrtExtractHandshakeExtensions. rewrite drop_header by done.
  fold (Ext.ext_words (hdr ++ enc bs)). rewrite ext_words_enc by done.
  destruct (decide (bs = [])) as [->|Hne]; [done|].
  apply (extract_blocks bs _ [] 0 None []); [done..|]. unfold Ext.loop_fuel.
  pose proof (length_enc bs). pose proof (blocks_fuel bs). lia.
Qed.
