(* ===== verification/HandshakeSafe.v ===== *)
(** * Interpreting any handshake ends and stays inside the packet

    [safe m]: from every state with a crypto control, [m] ends without undefined
    behaviour and leaves the crypto control there. The rules follow the monad,
    and the loops over the extension blocks are safe on arbitrary bytes. *)

From S2P Require Import Prelude SeqNo Packet Handshake HandshakeSpec.

(** ** One step of the search, on any bytes *)

Definition area (mem : list Z) (begin len : Z) : Prop :=
  0 <= begin /\ 0 <= len /\ 4 * (begin + len) <= Z.of_nat (length mem).

Lemma find_any mem begin len ol nx :
  area mem begin len ->
  exists cmd bl nx', Ext.FindExtensionBlock mem begin len ol nx = Some (cmd, bl, nx')
    /\ (cmd <> SRT_CMD_NONE -> 0 <= bl /\ 1 + bl <= len
          /\ (nx' = None \/ (nx' = Some (begin + 1 + bl) /\ area mem (begin + 1 + bl) (len - (1 + bl))))).
Proof.
  intros (H0 & H1 & H2). unfold Ext.FindExtensionBlock.
  destruct (Z.eqb_spec len 0) as [->|Hne]; [do 3 eexists; split; [done|done]|].
  destruct (peek_word_is_Some begin mem) as (w & ->); [lia..|]. cbn [mbind option_bind].
  assert (0 <= Bits.unwrap HS_CMDSPEC_SIZE w) as Hs.
  { unfold HS_CMDSPEC_SIZE. rewrite unwrap_low. apply Z.mod_pos_bound. lia. }
  destruct (Z.gtb_spec (Bits.unwrap HS_CMDSPEC_SIZE w + 1) len); [do 3 eexists; split; [done|done]|].
  do 3 eexists. split; [done|]. intros _. split; [done|]. split; [lia|].
  destruct (Z.eqb_spec len (Bits.unwrap HS_CMDSPEC_SIZE w + 1)); [by left|right].
  split; [done|]. unfold area. lia.
Qed.

Lemma body_any mem begin len bl :
  area mem begin len -> 0 <= bl -> 1 + bl <= len ->
  exists ws, peek_words (begin + 1) bl mem = Some ws /\ Z.of_nat (length ws) = bl.
Proof. intros (H0 & H1 & H2) ? ?. apply peek_words_is_Some; lia. Qed.

Lemma bytes_any mem begin len bl :
  area mem begin len -> 0 <= bl -> 1 + bl <= len ->
  exists bs, peek (4 * (begin + 1)) (bl * 4) mem = Some bs.
Proof. intros (H0 & H1 & H2) ? ?. destruct (peek_is_Some (4 * (begin + 1)) (bl * 4) mem) as (bs & ? & _); [lia..|]. by exists bs. Qed.

Lemma next_any mem begin len bl nx :
  nx = None \/ (nx = Some (begin + 1 + bl) /\ area mem (begin + 1 + bl) (len - (1 + bl))) ->
  Ext.NextExtensionBlock begin nx len = None
  \/ exists b' l', Ext.NextExtensionBlock begin nx len = Some (b', l') /\ area mem b' l' /\ l' = len - (1 + bl).
Proof.
  intros [->|[-> Ha]]; [by left|right]. cbn [Ext.NextExtensionBlock].
  replace (len - (begin + 1 + bl - begin)) with (len - (1 + bl)) by lia. eauto.
Qed.

Lemma extract_any fuel : forall mem begin len ol nx out,
  area mem begin len -> len < Z.of_nat fuel -> exists r, Ext.extract_loop fuel mem begin len ol nx out = Some r.
Proof.
  induction fuel as [|fuel IH]; intros mem begin len ol nx out Ha Hf; [destruct Ha; lia|].
  cbn [Ext.extract_loop]. destruct (find_any mem begin len ol nx Ha) as (cmd & bl & nx' & -> & Hcmd).
  cbn [mbind option_bind]. destruct (Z.eqb_spec cmd SRT_CMD_NONE) as [E|E]; [by eexists|].
  destruct (Hcmd E) as (H0 & H1 & Hn).
  destruct (body_any mem begin len bl Ha H0 H1) as (ws & -> & _). cbn [mbind option_bind].
  destruct (next_any mem begin len bl nx' Hn) as [->|(b' & l' & -> & Ha' & ->)]; [by eexists|].
  apply IH; [done|lia].
Qed.

Lemma ext_area data : 48 < Z.of_nat (length data) -> area (Ext.ext_mem data) 0 (Ext.ext_words data).
Proof.
  intros H. unfold area, Ext.ext_mem, Ext.ext_words. rewrite length_drop.
  change CHandShake.m_iContentSize with 48. change (Z.to_nat 48) with 48%nat.
  pose proof (Z.mul_div_le (Z.of_nat (length data) - 48) 4).
  pose proof (Z.div_pos (Z.of_nat (length data) - 48) 4). lia.
Qed.

Lemma ext_fuel data : 48 < Z.of_nat (length data) -> Ext.ext_words data < Z.of_nat (Ext.loop_fuel data).
Proof.
  intros H. unfold Ext.loop_fuel, Ext.ext_words. change CHandShake.m_iContentSize with 48.
  pose proof (Z.mul_div_le (Z.of_nat (length data) - 48) 4). lia.
Qed.

Lemma extract_total data :
  48 <= Z.of_nat (length data) -> exists r, Ext.SrtExtractHandshakeExtensions data = Some r.
Proof.
  intros H. unfold Ext.SrtExtractHandshakeExtensions. apply extract_any.
  - unfold area. rewrite length_drop. change CHandShake.m_iContentSize with 48. change (Z.to_nat 48) with 48%nat.
    pose proof (Z.mul_div_le (Z.of_nat (length data) - 48) 4).
    pose proof (Z.div_pos (Z.of_nat (length data) - 48) 4). lia.
  - unfold Ext.loop_fuel. rewrite length_drop. change CHandShake.m_iContentSize with 48. change (Z.to_nat 48) with 48%nat.
    pose proof (Z.mul_div_le (Z.of_nat (length data) - 48) 4). lia.
Qed.

(** ** Safety of the monad's programs *)

Section Safe.

Context {K : Type} `{!Peripherals K}.

Definition armed (s : Ext.t K) : Prop := Ext.m_pCryptoControl s <> None.

Definition safe {A} (m : Ext.HM K A) : Prop :=
  forall s, armed s -> exists r s', m s = Some (r, s') /\ armed s'.

Lemma safe_ret {A} (a : A) : safe (mret a : Ext.HM K A).
Proof. intros s Hs. by exists (Some a), s. Qed.

Lemma safe_bind {A B} (m : Ext.HM K A) (f : A -> Ext.HM K B) : safe m -> (forall a, safe (f a)) -> safe (m ≫= f).
Proof.
  intros Hm Hf s Hs. destruct (Hm s Hs) as (r & s' & E & Hs'). unfold mbind, Ext.HM_bind. rewrite E.
  destruct r as [a|]; [by apply Hf|]. by exists None, s'.
Qed.

Lemma safe_fail {A} : safe (@Ext.hfail K A).
Proof. intros s Hs. by exists None, s. Qed.

Lemma safe_reject {A} reason : safe (@Ext.hreject K A reason).
Proof. intros s Hs. by exists None, (Ext.set_reject reason s). Qed.

Lemma safe_get : safe (@Ext.hget K).
Proof. intros s Hs. by exists (Some s), s. Qed.

Lemma safe_modify f : (forall s : Ext.t K, armed s -> armed (f s)) -> safe (Ext.hmodify f).
Proof. intros Hf s Hs. exists (Some tt), (f s). auto. Qed.

Lemma safe_lift {A} (o : option A) : o <> None -> safe (@Ext.hlift K A o).
Proof. intros Ho s Hs. destruct o as [a|]; [|done]. by exists (Some a), s. Qed.

Lemma safe_crypto : safe (@Ext.hcrypto K).
Proof.
  intros s Hs. unfold Ext.hcrypto, mbind, Ext.HM_bind, Ext.hget, Ext.hlift. unfold armed in Hs.
  destruct (Ext.m_pCryptoControl s) eqn:E; [|done]. cbn. eexists _, s. split; [done|]. unfold armed. by rewrite E.
Qed.

Lemma safe_set_crypto k : safe (Ext.hmodify (Ext.set_crypto (K := K) k)).
Proof. by apply safe_modify. Qed.

Lemma safe_upd f : safe (@Ext.upd_st K f).
Proof. by apply safe_modify. Qed.

Lemma safe_when b f : safe (@Ext.upd_when K b f).
Proof. unfold Ext.upd_when. destruct b; [apply safe_upd|apply safe_ret]. Qed.

Lemma safe_reject_cmd reason cmd : safe (@Ext.reject_cmd K reason cmd).
Proof. unfold Ext.reject_cmd. apply safe_bind; [by apply safe_modify|intros; apply safe_ret]. Qed.

Lemma safe_done : safe (@Ext.handshakeDone K).
Proof. apply safe_upd. Qed.

Lemma safe_if {A} (b : bool) (m1 m2 : Ext.HM K A) :
  (b = true -> safe m1) -> (b = false -> safe m2) -> safe (if b then m1 else m2).
Proof. destruct b; auto. Qed.

End Safe.

Create HintDb hs_safe.
#[export] Hint Resolve safe_ret safe_fail safe_reject safe_get safe_crypto safe_set_crypto safe_upd safe_when
  safe_reject_cmd safe_done : hs_safe.

(** Follows the structure of a program; leaves what it cannot decide. *)
Ltac safe_step :=
  match goal with
  | |- safe (_ ≫= _) => apply safe_bind; [|intros ?]
  | |- safe (if decide _ then _ else _) => case_decide
  | |- safe (if _ then _ else _) => apply safe_if; intros ?
  | |- safe (let '(_, _) := ?p in _) => destruct p
  | |- safe _ => solve [auto with hs_safe]
  end.
Ltac safe_auto := repeat safe_step.

Section Interpret.

Context {K : Type} `{!Peripherals K}.

Lemma lookup_word (ws : list Z) (i : nat) : (i < length ws)%nat -> ws !! i <> None.
Proof. intros H. rewrite lookup_ge_None. lia. Qed.

Lemma safe_HSREQ now ws bytelen ts hsv :
  3 <= Z.of_nat (length ws) -> safe (@Ext.processSrtMsg_HSREQ K now ws bytelen ts hsv).
Proof.
  intros Hl. unfold Ext.processSrtMsg_HSREQ, Ext.hsreq_latency.
  safe_auto; apply safe_lift, lookup_word; lia.
Qed.

Lemma safe_HSRSP now ws bytelen ts hsv :
  3 <= Z.of_nat (length ws) -> safe (@Ext.processSrtMsg_HSRSP K now ws bytelen ts hsv).
Proof.
  intros Hl. unfold Ext.processSrtMsg_HSRSP, Ext.hsrsp_latency.
  safe_auto; apply safe_lift, lookup_word; lia.
Qed.

Section Block.

Context (mem : list Z) (begin len bl : Z) (Ha : area mem begin len) (H0 : 0 <= bl) (H1 : 1 + bl <= len).

Lemma safe_body {A} (f : list Z -> Ext.HM K A) :
  (forall ws, Z.of_nat (length ws) = bl -> safe (f ws)) ->
  safe (Ext.hlift (peek_words (begin + 1) bl mem) ≫= f).
Proof using Ha H0 H1.
  intros Hf s Hs. destruct (body_any mem begin len bl Ha H0 H1) as (ws & E & El). rewrite E. by apply (Hf ws El).
Qed.

Lemma safe_bytes {A} (f : list Z -> Ext.HM K A) :
  (forall bs, safe (f bs)) -> safe (Ext.hlift (peek (4 * (begin + 1)) (bl * 4) mem) ≫= f).
Proof using Ha H0 H1.
  intros Hf s Hs. destruct (bytes_any mem begin len bl Ha H0 H1) as (bs & E). rewrite E. by apply (Hf bs).
Qed.

Lemma safe_take_HSREQ now ts : safe (@Ext.take_HSREQ K now ts mem begin bl).
Proof using Ha H0 H1.
  unfold Ext.take_HSREQ. apply safe_if; intros Hb; [apply safe_reject|]. apply Z.ltb_ge in Hb. unfold SRT_HS_E_SIZE in Hb.
  apply safe_body. intros ws El. apply safe_bind; [apply safe_HSREQ; lia|]. intros r. safe_auto.
Qed.

Lemma safe_take_HSRSP now ts : safe (@Ext.take_HSRSP K now ts mem begin bl).
Proof using Ha H0 H1.
  unfold Ext.take_HSRSP. apply safe_if; intros Hb; [apply safe_reject|]. apply Z.ltb_ge in Hb. unfold SRT_HS_E_SIZE in Hb.
  apply safe_body. intros ws El. apply safe_bind; [apply safe_HSRSP; lia|]. intros r. safe_auto.
Qed.

Lemma safe_take_KMREQ out : safe (Ext.take_KMREQ out mem begin bl).
Proof using Ha H0 H1.
  unfold Ext.take_KMREQ. apply safe_if; intros _; [apply safe_reject|].
  safe_step; [safe_step|]. safe_step; [safe_step|]. apply safe_body. intros ws _. destruct (processSrtMsg_KMREQ _ _ _) as [[res kmdata] k]. safe_auto.
Qed.

Lemma safe_take_KMRSP : safe (Ext.take_KMRSP mem begin bl).
Proof using Ha H0 H1.
  unfold Ext.take_KMRSP. safe_step; [safe_step|]. safe_step; [safe_step|].
  apply safe_body. intros ws _. destruct (processSrtMsg_KMRSP _ _ _ _) as [res k]. safe_auto.
Qed.

Lemma safe_take_config cmd agsm have : safe (Ext.take_config cmd agsm mem begin bl have).
Proof using Ha H0 H1.
  unfold Ext.take_config. cbv zeta.
  apply safe_if; intros _; [|apply safe_if; intros _; [|apply safe_if; intros _; [|apply safe_ret]]].
  - apply safe_if; intros _; [apply safe_fail|]. apply safe_bytes. intros bs. safe_auto. by apply safe_modify.
  - do 2 (apply safe_if; intros _; [solve [safe_auto]|]). apply safe_bytes. intros bs. safe_auto.
  - do 2 (apply safe_if; intros _; [solve [safe_auto]|]). apply safe_bytes. intros bs. safe_step; [safe_step|].
    destruct (checkApplyFilterConfig _ _ _); safe_auto. by apply safe_modify.
Qed.

End Block.

(** The three loops, by one rule: what is done with a found block is safe, and
    the loop goes on at the next block with less to read. *)
Lemma safe_found {A} mem begin len ol nx (f : Z * Z * option Z -> Ext.HM K A) :
  area mem begin len ->
  (forall cmd bl nx',
     (cmd <> SRT_CMD_NONE -> 0 <= bl /\ 1 + bl <= len
        /\ (nx' = None \/ (nx' = Some (begin + 1 + bl) /\ area mem (begin + 1 + bl) (len - (1 + bl))))) ->
     safe (f (cmd, bl, nx'))) ->
  safe (Ext.hlift (Ext.FindExtensionBlock mem begin len ol nx) ≫= f).
Proof.
  intros Ha Hf s Hs. destruct (find_any mem begin len ol nx Ha) as (cmd & bl & nx' & E & Hc). rewrite E.
  by apply (Hf cmd bl nx' Hc).
Qed.

Lemma cmd_not_none cmd k : cmd =? k = true -> k <> SRT_CMD_NONE -> cmd <> SRT_CMD_NONE.
Proof. intros H%Z.eqb_eq Hk. congruence. Qed.

Lemma safe_hsreq_loop fuel : forall now ts mem begin len ol nx,
  area mem begin len -> len < Z.of_nat fuel -> safe (@Ext.hsreq_loop K fuel now ts mem begin len ol nx).
Proof.
  induction fuel as [|fuel IH]; intros now ts mem begin len ol nx Ha Hf; [destruct Ha; lia|].
  cbn [Ext.hsreq_loop]. apply safe_found; [done|]. intros cmd bl nx' Hc.
  apply safe_if; intros E1; [destruct Hc as (? & ? & _); [by eapply cmd_not_none|eapply safe_take_HSREQ; eauto]|].
  apply safe_if; intros E2; [destruct Hc as (? & ? & _); [by eapply cmd_not_none|eapply safe_take_HSRSP; eauto]|].
  apply safe_if; intros E3; [apply safe_reject|]. apply Z.eqb_neq in E3.
  destruct (Hc E3) as (H0 & H1 & [->|[-> Ha']]); [apply safe_ret|].
  replace (len - (begin + 1 + bl - begin)) with (len - (1 + bl)) by lia. apply IH; [done|lia].
Qed.

Lemma safe_km_loop fuel : forall out mem begin len ol nx,
  area mem begin len -> len < Z.of_nat fuel -> safe (Ext.km_loop fuel out mem begin len ol nx).
Proof.
  induction fuel as [|fuel IH]; intros out mem begin len ol nx Ha Hf; [destruct Ha; lia|].
  cbn [Ext.km_loop]. apply safe_found; [done|]. intros cmd bl nx' Hc.
  apply safe_if; intros E1; [destruct Hc as (? & ? & _); [by eapply cmd_not_none|]|].
  { apply safe_bind; [eapply safe_take_KMREQ; eauto|intros; apply safe_ret]. }
  apply safe_if; intros E2; [destruct Hc as (? & ? & _); [by eapply cmd_not_none|]|].
  { apply safe_bind; [eapply safe_take_KMRSP; eauto|intros; apply safe_ret]. }
  apply safe_if; intros E3; [apply safe_reject|]. apply Z.eqb_neq in E3. destruct (Hc E3) as (H0 & H1 & Hn).
  destruct (next_any mem begin len bl nx' Hn) as [->|(b' & l' & -> & Ha' & ->)]; [apply safe_ret|].
  apply IH; [done|lia].
Qed.

Lemma safe_config_loop fuel : forall agsm mem begin len ol nx have,
  area mem begin len -> len < Z.of_nat fuel -> safe (Ext.config_loop fuel agsm mem begin len ol nx have).
Proof.
  induction fuel as [|fuel IH]; intros agsm mem begin len ol nx have Ha Hf; [destruct Ha; lia|].
  cbn [Ext.config_loop]. apply safe_found; [done|]. intros cmd bl nx' Hc.
  apply safe_if; intros E3; [apply safe_ret|]. apply Z.eqb_neq in E3. destruct (Hc E3) as (H0 & H1 & Hn).
  apply safe_bind; [eapply safe_take_config; eauto|]. intros have'.
  destruct (next_any mem begin len bl nx' Hn) as [->|(b' & l' & -> & Ha' & ->)]; [apply safe_ret|].
  apply IH; [done|lia].
Qed.

Lemma safe_post_checks encrypted agsm have : safe (Ext.post_checks encrypted agsm have).
Proof. unfold Ext.post_checks. safe_auto; by apply safe_modify. Qed.

Lemma safe_interpret now hs ts data out : safe (Ext.interpretSrtHandshake now hs ts data out).
Proof.
  unfold Ext.interpretSrtHandshake. safe_step; [safe_step|]. cbv zeta.
  apply safe_if; intros _; [apply safe_reject|].
  apply safe_if; intros _; [apply safe_if; intros _; auto with hs_safe|].
  apply safe_if; intros Hl; [apply safe_reject|]. apply Z.leb_gt in Hl. change CHandShake.m_iContentSize with 48 in Hl.
  pose proof (ext_area data Hl) as Ha. pose proof (ext_fuel data Hl) as Hf.
  apply safe_if; intros _; [apply safe_reject|].
  apply safe_bind; [apply safe_if; intros _; [by apply safe_hsreq_loop|apply safe_ret]|]. intros _.
  apply safe_bind.
  { unfold Ext.interpret_km. apply safe_if; intros _; [|apply safe_ret].
    safe_step; [safe_step|]. safe_step; [safe_step|]. apply safe_if; intros _; [apply safe_reject|by apply safe_km_loop]. }
  intros [kmdata encrypted]. apply safe_bind; [apply safe_modify; intros s' Hs'; by case_decide|]. intros _.
  safe_step; [safe_step|]. apply safe_bind; [apply safe_if; intros _; [by apply safe_config_loop|apply safe_ret]|].
  intros have. apply safe_bind; [apply safe_post_checks|]. intros; apply safe_ret.
Qed.

End Interpret.
