(* ===== verification/HandshakeExt.v ===== *)
(** * What [createSrtHandshake] writes

    The packet it makes is the fixed part followed by a list of blocks, and the
    buffer a control packet gets has room for every configuration. *)

From S2P Require Import Prelude SeqNo Packet Handshake HandshakeSpec HandshakeSafe.

(** ** Strings as words *)

Definition pad4 (str : list Z) : list Z :=
  str ++ replicate (Z.to_nat ((Z.of_nat (length str) + 3) / 4 * 4) - length str) 0.

Definition str_words (str : list Z) : list Z := bytes_words (pad4 str).

Lemma length_pad4 str : length (pad4 str) = (4 * Z.to_nat ((Z.of_nat (length str) + 3) / 4))%nat.
Proof. unfold pad4. rewrite length_app, length_replicate. zlia. Qed.

Lemma length_str_words str : Z.of_nat (length (str_words str)) = (Z.of_nat (length str) + 3) / 4.
Proof.
  unfold str_words. rewrite (length_bytes_words _ _ (length_pad4 str)). rewrite Z2Nat.id; [done|]. zlia.
Qed.

Lemma pad4_bytes str : Forall is_byte str -> Forall is_byte (pad4 str).
Proof. intros H. unfold pad4. apply Forall_app. split; [done|]. apply Forall_replicate. unfold is_byte. lia. Qed.

Lemma str_words_range str : Forall is_byte str -> Forall is_u32 (str_words str).
Proof. intros H. eapply bytes_words_range; [apply length_pad4|by apply pad4_bytes]. Qed.

Lemma words_bytes_str str : Forall is_byte str -> words_bytes (str_words str) = pad4 str.
Proof. intros H. eapply words_bytes_bytes_words; [apply length_pad4|by apply pad4_bytes]. Qed.

Lemma config_string_app spec cmd str a c d :
  Forall is_byte str -> Z.of_nat (length a) = 4 * spec ->
  Z.of_nat (length c) = 4 * (1 + Z.of_nat (length (str_words str))) ->
  Ext.fillHsExtConfigString spec cmd str (a ++ c ++ d)
  = Some (Z.of_nat (length (str_words str)), a ++ enc [(cmd, str_words str)] ++ d).
Proof.
  intros Hb Ha Hc. unfold Ext.fillHsExtConfigString. rewrite <- length_str_words.
  set (n := Z.of_nat (length (str_words str))) in *.
  destruct c as [|c0 [|c1 [|c2 [|c3 c]]]]; [cbn [length] in Hc; lia..|]. cbn [length] in Hc.
  set (w := [c0; c1; c2; c3]). change (c0 :: c1 :: c2 :: c3 :: c) with (w ++ c).
  assert (4 * (spec + 1) = Z.of_nat (length (a ++ w))) as -> by (rewrite length_app; cbn [w length]; lia).
  rewrite <- (app_assoc w c d), (app_assoc a w (c ++ d)).
  rewrite poke_app by (rewrite length_replicate; lia). cbn [mbind option_bind].
  assert (length str <= length c)%nat as Hs.
  { pose proof (length_str_words str) as E. fold n in E. zlia. }
  replace (replicate (Z.to_nat (n * 4)) 0 ++ d)
    with (replicate (length str) 0 ++ (replicate (length c - length str) 0 ++ d)).
  2: { rewrite app_assoc, <- replicate_add. do 2 f_equal. lia. }
  rewrite poke_app by (by rewrite length_replicate). cbn [mbind option_bind].
  rewrite <- (app_assoc a w). rewrite (poke_words_app a [Ext.cmdspec cmd n] w) by (done || lia).
  cbn [mbind option_bind]. f_equal. f_equal. f_equal.
  rewrite enc_cons, words_bytes_str by done. unfold words_bytes. cbn [map concat]. rewrite !app_nil_r.
  rewrite <- app_assoc. f_equal. unfold pad4. rewrite <- app_assoc. do 2 f_equal. f_equal.
  pose proof (length_str_words str) as E. fold n in E. rewrite <- E. lia.
Qed.

(** ** The cursor *)

Section Create.

Context {K : Type} `{!Peripherals K}.

(** The blocks [bs] are written after the 48 bytes [hdr], in a buffer of [N] bytes. *)
Definition written (N : Z) (hdr : list Z) (bs : list block) (c : Ext.cursor) : Prop :=
  length hdr = 48%nat /\ Z.of_nat (length (Ext.buf c)) = N /\ Ext.offset c + Ext.ra_size c = 12 + wsz bs
  /\ exists rest, Ext.buf c = hdr ++ enc bs ++ rest.

(** [fill] writes the block [b]. *)
Definition writes (fill : Z -> list Z -> Ext.HM K (Z * list Z)) (b : block) (s s' : Ext.t K) : Prop :=
  forall spec a c d,
    Z.of_nat (length a) = 4 * spec -> Z.of_nat (length c) = 4 * (1 + Z.of_nat (length (snd b))) ->
    fill spec (a ++ c ++ d) s = Some (Some (Z.of_nat (length (snd b)), a ++ enc [b] ++ d), s').

Lemma next_block_written N hdr bs b c fill s s' :
  written N hdr bs c -> writes fill b s s' -> 4 * (13 + wsz bs + Z.of_nat (length (snd b))) <= N ->
  exists c', Ext.next_block fill c s = Some (Some c', s') /\ written N hdr (bs ++ [b]) c'
    /\ Ext.ra_size c' = Z.of_nat (length (snd b)).
Proof.
  intros (Hh & HN & Ho & rest & Eb) Hw Hroom. pose proof (wsz_nonneg bs) as Hn. pose proof (length_enc bs) as Le.
  set (n := Z.to_nat (4 * (1 + Z.of_nat (length (snd b))))).
  assert (Z.of_nat (length (hdr ++ enc bs)) = 4 * (12 + wsz bs)) as La by (rewrite length_app; lia).
  assert (n <= length rest)%nat as Hr by (rewrite Eb, app_assoc, length_app in HN; unfold n; lia).
  specialize (Hw (12 + wsz bs) (hdr ++ enc bs) (take n rest) (drop n rest) La).
  rewrite <- app_assoc, take_drop in Hw. rewrite length_take_le in Hw by done. unfold Ext.next_block. rewrite Ho, Eb.
  replace (12 + wsz bs + 1 - 1) with (12 + wsz bs) by lia.
  unfold mbind, Ext.HM_bind. rewrite Hw by (unfold n; lia).
  eexists. split; [done|]. cbn [Ext.ra_size]. split; [|done].
  split; [done|]. cbn [Ext.buf Ext.offset Ext.ra_size fst snd].
  assert (wsz [b] = 1 + Z.of_nat (length (snd b))) as Wb by (destruct b; rewrite wsz_cons; change (wsz []) with 0; cbn [snd]; lia).
  pose proof (length_enc [b]) as Lb. split.
  { assert (Z.of_nat n = 4 * (1 + Z.of_nat (length (snd b)))) as En by (unfold n; lia). clearbody n.
    rewrite <- HN, Eb, !length_app, length_drop. lia. }
  split; [rewrite wsz_app; lia|].
  exists (drop n rest). by rewrite enc_app, <- !app_assoc.
Qed.

Lemma writes_string cmd str (s : Ext.t K) :
  Forall is_byte str -> writes (fun spec b => Ext.hlift (Ext.fillHsExtConfigString spec cmd str b)) (cmd, str_words str) s s.
Proof. intros Hb spec a c d Ha Hc. unfold Ext.hlift. rewrite config_string_app by done. done. Qed.

Definition opt_block (have : bool) (cmd : Z) (str : list Z) : list block := if have then [(cmd, str_words str)] else [].

Lemma config_block_written N hdr bs have cmd str c (s : Ext.t K) :
  written N hdr bs c -> Forall is_byte str ->
  (have = true -> 4 * (13 + wsz bs + (Z.of_nat (length str) + 3) / 4) <= N) ->
  exists c', Ext.config_block have cmd str c s = Some (Some c', s)
    /\ written N hdr (bs ++ opt_block have cmd str) c'
    /\ Ext.ra_size c' = if have then (Z.of_nat (length str) + 3) / 4 else Ext.ra_size c.
Proof.
  intros Hw Hb Hroom. unfold Ext.config_block, opt_block. destruct have; [|exists c; rewrite app_nil_r; auto].
  destruct (next_block_written N hdr bs (cmd, str_words str) c _ s s Hw (writes_string cmd str s Hb)) as (c' & E & Hw' & Er).
  { cbn [snd]. rewrite length_str_words. auto. }
  exists c'. split; [done|]. split; [done|]. by rewrite Er, <- length_str_words.
Qed.

(** ** Key material *)

Definition km_words (n : Z) : Z := n / 4 + (if n mod 4 =? 0 then 0 else 1).

Definition kmreq_bytes (k : K) (ki : Z) : list Z := take (Z.to_nat (4 * km_words (getKmMsg_size k ki))) (getKmMsg_data k ki).

(** The key messages are arrays of at most [HCRYPT_MSG_KM_MAX_SZ] = 104 bytes. *)
Definition km_ok (k : K) : Prop :=
  forall ki, 0 <= getKmMsg_size k ki <= 104 /\ length (getKmMsg_data k ki) = 104%nat
    /\ Forall is_byte (getKmMsg_data k ki).

Lemma km_words_bound n : 0 <= n <= 104 -> 0 <= km_words n <= 26.
Proof. intros H. unfold km_words. destruct (Z.eqb_spec (n mod 4) 0); zlia. Qed.

Lemma poke_block spec cmd ws a c d :
  Z.of_nat (length a) = 4 * spec -> Z.of_nat (length c) = 4 * (1 + Z.of_nat (length ws)) ->
  exists m, poke_words spec [Ext.cmdspec cmd (Z.of_nat (length ws))] (a ++ c ++ d) = Some m
    /\ poke_words (spec + 1) ws m = Some (a ++ enc [(cmd, ws)] ++ d).
Proof.
  intros Ha Hc. destruct c as [|c0 [|c1 [|c2 [|c3 c]]]]; [cbn [length] in Hc; lia..|]. cbn [length] in Hc.
  set (w := [c0; c1; c2; c3]). change (c0 :: c1 :: c2 :: c3 :: c) with (w ++ c). rewrite <- (app_assoc w c d).
  rewrite (poke_words_app a [Ext.cmdspec cmd (Z.of_nat (length ws))] w) by (done || lia). eexists. split; [done|].
  rewrite app_assoc, (poke_words_app (a ++ words_bytes [Ext.cmdspec cmd (Z.of_nat (length ws))]) ws c d (spec + 1)).
  2: lia.
  2: { rewrite length_app, length_words_bytes. cbn [length]. lia. }
  rewrite enc_cons. change (enc []) with (@nil Z). rewrite app_nil_r. unfold words_bytes at 1. cbn [map concat].
  by rewrite app_nil_r, <- !app_assoc.
Qed.

Lemma writes_KMREQ k ki (s : Ext.t K) :
  Ext.m_pCryptoControl s = Some k -> km_ok k ->
  writes (fun spec b => Ext.fillHsExtKMREQ spec ki b) (SRT_CMD_KMREQ, Ext.ntoh_words (kmreq_bytes k ki)) s s
  /\ Z.of_nat (length (Ext.ntoh_words (kmreq_bytes k ki))) = km_words (getKmMsg_size k ki).
Proof.
  intros Hk Hok. destruct (Hok ki) as (Hs & Hl & Hb). pose proof (km_words_bound _ Hs) as Hn.
  set (n := km_words (getKmMsg_size k ki)) in *.
  assert (length (kmreq_bytes k ki) = (4 * Z.to_nat n)%nat) as Lb
    by (unfold kmreq_bytes; fold n; rewrite length_take; lia).
  assert (Z.of_nat (length (Ext.ntoh_words (kmreq_bytes k ki))) = n) as Lw.
  { unfold Ext.ntoh_words. rewrite length_map, (length_bytes_words (Z.to_nat n)) by done. lia. }
  split; [|done]. intros spec a c d Ha Hc. cbn [snd] in *. rewrite Lw in *.
  rewrite <- Lw in Hc. destruct (poke_block spec SRT_CMD_KMREQ _ a c d Ha Hc) as (m & E1 & E2). rewrite Lw in E1.
  unfold Ext.fillHsExtKMREQ, Ext.hcrypto, mbind, Ext.HM_bind, Ext.hget, Ext.hlift. rewrite Hk.
  cbn [mbind option_bind]. unfold Ext.HM_bind. fold (km_words (getKmMsg_size k ki)). fold n.
  rewrite E1. cbn [mbind option_bind].
  destruct (peek_is_Some 0 (4 * n) (getKmMsg_data k ki)) as (bs & Ep & _); [lia..|].
  assert (bs = kmreq_bytes k ki) as ->.
  { unfold peek in Ep. destruct (_ && _); [|done]. by injection Ep as <-. }
  rewrite Ep. cbn [mbind option_bind]. rewrite E2. done.
Qed.

Definition kmrsp_words (kmdata : list Z) : list Z := map bswap32 (match kmdata with [] => [SRT_KM_S_UNSECURED] | _ => kmdata end).

(** No answer to a KMREQ leaves a failure code, and the key states. *)
Definition kmrsp_state (kmdata : list Z) (k : K) (s : Ext.t K) : Ext.t K :=
  match kmdata with
  | [] => Ext.set_crypto (set_KmStates SRT_KM_S_NOSECRET SRT_KM_S_UNSECURED k) s
  | _ => s
  end.

Lemma writes_KMRSP k kmdata s :
  Ext.m_pCryptoControl s = Some k ->
  writes (fun spec b => Ext.fillHsExtKMRSP spec (Some kmdata) (Z.of_nat (length kmdata)) b)
    (SRT_CMD_KMRSP, kmrsp_words kmdata) s (kmrsp_state kmdata k s).
Proof.
  intros Hk spec a c d Ha Hc. cbn [snd] in *. unfold Ext.fillHsExtKMRSP.
  destruct (poke_block spec SRT_CMD_KMRSP (kmrsp_words kmdata) a c d Ha Hc) as (m & E1 & E2).
  destruct kmdata as [|w kmdata].
  - change (Z.of_nat (length []) =? 0) with true. cbv iota.
    unfold Ext.hcrypto, mbind, Ext.HM_bind, Ext.hget, Ext.hlift, Ext.hmodify. rewrite Hk. cbn [mbind option_bind].
    change (Z.of_nat (length (kmrsp_words []))) with 1 in E1. rewrite E1. cbn [mbind option_bind].
    change (map bswap32 [SRT_KM_S_UNSECURED]) with (kmrsp_words []). rewrite E2. done.
  - destruct (Z.eqb_spec (Z.of_nat (length (w :: kmdata))) 0) as [E|_]; [cbn [length] in E; lia|].
    rewrite Nat2Z.id, (take_ge (w :: kmdata)) by lia. change (map bswap32 (w :: kmdata)) with (kmrsp_words (w :: kmdata)).
    assert (length (kmrsp_words (w :: kmdata)) = length (w :: kmdata)) as El by (unfold kmrsp_words; apply length_map).
    rewrite El in E1. unfold mbind, Ext.HM_bind, Ext.hlift. rewrite E1. cbn [mbind option_bind]. rewrite E2.
    cbn [mbind option_bind]. unfold mret, Ext.HM_ret. by rewrite El.
Qed.

Definition kmreq_block_of (k : K) (ki : Z) : list block :=
  if getKmMsg_size k ki >? 0 then [(SRT_CMD_KMREQ, Ext.ntoh_words (kmreq_bytes k ki))] else [].

Lemma kmreq_block_written N hdr bs c b k ki s :
  written N hdr bs c -> Ext.m_pCryptoControl s = Some k -> km_ok k -> 4 * (39 + wsz bs) <= N ->
  exists c', Ext.kmreq_block ki (c, b) s = Some (Some (c', b || (getKmMsg_size k ki >? 0)), s)
    /\ written N hdr (bs ++ kmreq_block_of k ki) c' /\ wsz (bs ++ kmreq_block_of k ki) <= wsz bs + 27
    /\ Ext.ra_size c' = if getKmMsg_size k ki >? 0 then km_words (getKmMsg_size k ki) else Ext.ra_size c.
Proof.
  intros Hw Hk Hok Hroom. unfold Ext.kmreq_block, kmreq_block_of, Ext.hcrypto, mbind, Ext.HM_bind, Ext.hget, Ext.hlift.
  rewrite Hk. cbn [mbind option_bind fst].
  destruct (Z.gtb_spec (getKmMsg_size k ki) 0) as [Hs|Hs].
  2: { exists c. rewrite app_nil_r, orb_false_r. repeat split; try apply Hw; lia || done. }
  destruct (writes_KMREQ k ki s Hk Hok) as [Hwr Lw]. destruct (Hok ki) as (Hb & _). pose proof (km_words_bound _ Hb).
  destruct (next_block_written N hdr bs _ c _ s s Hw Hwr) as (c' & E & Hw' & Er); [cbn [snd]; lia|].
  exists c'. rewrite E. unfold mret, Ext.HM_ret. rewrite orb_true_r. split; [done|]. split; [done|].
  rewrite wsz_app, wsz_cons. change (wsz []) with 0. cbn [snd] in Er. rewrite Er. lia.
Qed.

(** The key blocks of a request, and of a response with the words [kmdata]. *)
Definition kmreq_blocks (k : K) : list block := kmreq_block_of k 0 ++ kmreq_block_of k 1.

Lemma kmreq_blocks_written N hdr bs c kmdata n k s :
  written N hdr bs c -> Ext.m_pCryptoControl s = Some k -> km_ok k -> 4 * (66 + wsz bs) <= N ->
  (getKmMsg_size k 0 > 0 \/ getKmMsg_size k 1 > 0) ->
  exists c', Ext.km_blocks SRT_CMD_KMREQ kmdata n c s = Some (Some c', s)
    /\ written N hdr (bs ++ kmreq_blocks k) c' /\ Ext.ra_size c' > 0.
Proof.
  intros Hw Hk Hok Hroom Hany. unfold Ext.km_blocks, mbind, Ext.HM_bind, Ext.hget. rewrite Hk.
  change (SRT_CMD_KMREQ =? SRT_CMD_KMREQ) with true. cbv iota.
  destruct (kmreq_block_written N hdr bs c false k 0 s Hw Hk Hok) as (c1 & E1 & Hw1 & Hz1 & Er1); [lia|]. rewrite E1.
  destruct (kmreq_block_written N hdr _ c1 (false || (getKmMsg_size k 0 >? 0)) k 1 s Hw1 Hk Hok) as (c2 & E2 & Hw2 & _ & Er2);
    [lia|]. rewrite E2. cbn [orb].
  assert ((getKmMsg_size k 0 >? 0) || (getKmMsg_size k 1 >? 0) = true) as Eb.
  { destruct (Z.gtb_spec (getKmMsg_size k 0) 0), (Z.gtb_spec (getKmMsg_size k 1) 0); try done. lia. }
  rewrite Eb. exists c2. split; [done|]. unfold kmreq_blocks. rewrite app_assoc. split; [done|].
  destruct (Hok 0) as (Hs0 & _), (Hok 1) as (Hs1 & _).
  assert (forall x, 0 <= x <= 104 -> x > 0 -> km_words x > 0) as Hpos.
  { intros x Hx1 Hx2. unfold km_words. destruct (Z.eqb_spec (x mod 4) 0); zlia. }
  rewrite Er2, Er1. destruct (Z.gtb_spec (getKmMsg_size k 1) 0); [apply Hpos; lia|].
  destruct (Z.gtb_spec (getKmMsg_size k 0) 0); [apply Hpos; lia|lia].
Qed.

Lemma kmrsp_blocks_written N hdr bs c kmdata k s :
  written N hdr bs c -> Ext.m_pCryptoControl s = Some k -> (length kmdata <= 26)%nat -> 4 * (39 + wsz bs) <= N ->
  exists c', Ext.km_blocks SRT_CMD_KMRSP (Some kmdata) (Z.of_nat (length kmdata)) c s = Some (Some c', kmrsp_state kmdata k s)
    /\ written N hdr (bs ++ [(SRT_CMD_KMRSP, kmrsp_words kmdata)]) c' /\ Ext.ra_size c' > 0.
Proof.
  intros Hw Hk Hl Hroom. unfold Ext.km_blocks, mbind, Ext.HM_bind, Ext.hget. rewrite Hk.
  change (SRT_CMD_KMRSP =? SRT_CMD_KMREQ) with false. change (SRT_CMD_KMRSP =? SRT_CMD_KMRSP) with true. cbv iota.
  assert (0 < length (kmrsp_words kmdata) <= 26)%nat as Hn.
  { unfold kmrsp_words. rewrite length_map. destruct kmdata; cbn [length] in *; lia. }
  destruct (next_block_written N hdr bs _ c _ s _ Hw (writes_KMRSP k kmdata s Hk)) as (c' & E & Hw' & Er); [cbn [snd]; lia|].
  exists c'. split; [done|]. split; [done|]. rewrite Er. cbn [snd]. lia.
Qed.

End Create.

(** ** The words of HSREQ and HSRSP *)

Section Words.

Context {K : Type} `{!Peripherals K}.

Definition hsreq_flags (c : CSrtConfig) (drop : bool) : Z :=
  Ext.or_if (negb (bMessageAPI c)) SRT_OPT_STREAM
    (Z.lor (Ext.or_if (bRcvNakReport c) SRT_OPT_NAKREPORT
       (Ext.or_if (bTSBPD c && drop) SRT_OPT_TLPKTDROP
          (Ext.or_if (bTSBPD c) SRT_OPT_TSBPDRCV (Ext.or_if (bTSBPD c) SRT_OPT_TSBPDSND SrtVersionCapabilities))))
       SRT_OPT_REXMITFLG).

Definition hsrsp_flags (c : CSrtConfig) (drop : bool) (e : settled) : Z :=
  let flags := Ext.or_if (bTSBPD c) SRT_OPT_TSBPDRCV SrtVersionCapabilities in
  let flags := Ext.or_if (m_bPeerTsbPd e) SRT_OPT_TSBPDSND flags in
  let flags := Ext.or_if drop SRT_OPT_TLPKTDROP flags in
  let flags := Ext.or_if (bRcvNakReport c) SRT_OPT_NAKREPORT flags in
  let flags := if bRcvNakReport c && (m_uPeerSrtVersion e <=? SrtVersion 1 0 7)
               then Z.ldiff flags SRT_OPT_TLPKTDROP else flags in
  Ext.or_if ((uSrtVersion c >=? SrtVersion 1 2 0) && m_bPeerRexmitFlag e) SRT_OPT_REXMITFLG flags.

Definition delay_ok (d : Z) : Prop := 0 <= d < 2 ^ 16.

(** The configuration fits its options' storage and its latencies their field. *)
Definition cfg_ok (c : CSrtConfig) : Prop :=
  is_u32 (uSrtVersion c) /\ delay_ok (iRcvLatency c) /\ delay_ok (iPeerLatency c)
  /\ (Z.of_nat (length (sStreamName c)) <= MAX_SID_LENGTH /\ Forall is_byte (sStreamName c))
  /\ (Z.of_nat (length (sCongestion c)) <= MAX_CONG_LENGTH /\ Forall is_byte (sCongestion c))
  /\ (Z.of_nat (length (sPacketFilterConfig c)) <= MAX_PFILTER_LENGTH /\ Forall is_byte (sPacketFilterConfig c)).

Definition hsreq_words (s : Ext.t K) : list Z :=
  let c := Ext.m_config s in
  [uSrtVersion c; hsreq_flags c (Ext.m_bTLPktDrop s); if bTSBPD c then two (iRcvLatency c) (iPeerLatency c) else 0].

Definition hsreq_state (s : Ext.t K) : Ext.t K :=
  let c := Ext.m_config s in
  if bTSBPD c then Ext.set_st (set_delays (iRcvLatency c) (iPeerLatency c) (Ext.st s)) s else s.

Definition hsrsp_words (s : Ext.t K) : list Z :=
  let c := Ext.m_config s in
  let e := Ext.st s in
  [uSrtVersion c; hsrsp_flags c (Ext.m_bTLPktDrop s) e;
   two (if bTSBPD c then m_iTsbPdDelay_ms e else 0) (if m_bPeerTsbPd e then m_iPeerTsbPdDelay_ms e else 0)].

Definition hsx_words (cmd : Z) (s : Ext.t K) : list Z := if cmd =? SRT_CMD_HSREQ then hsreq_words s else hsrsp_words s.
Definition hsx_state (cmd : Z) (s : Ext.t K) : Ext.t K := if cmd =? SRT_CMD_HSREQ then hsreq_state s else s.

(** When [fillSrtHandshake] has something to say. *)
Definition hsx_ready (cmd : Z) (s : Ext.t K) : Prop :=
  cmd = SRT_CMD_HSREQ \/ (cmd = SRT_CMD_HSRSP /\ m_tsRcvPeerStartTime (Ext.st s) <> 0
    /\ delay_ok (m_iTsbPdDelay_ms (Ext.st s)) /\ delay_ok (m_iPeerTsbPdDelay_ms (Ext.st s))).

Lemma delay_u32 d : delay_ok d -> u32 d = d.
Proof. intros H. apply u32_id. unfold is_u32, delay_ok in *. lia. Qed.

Lemma fill_HSREQ s :
  cfg_ok (Ext.m_config s) ->
  Ext.fillSrtHandshake_HSREQ HS_VERSION_SRT1 SrtVersionCapabilities s = Some (Some (hsreq_words s), hsreq_state s).
Proof.
  intros (_ & Hr & Hp & _). destruct s as [c e drop rej side ver conn k]. cbn [Ext.m_config] in *.
  unfold Ext.fillSrtHandshake_HSREQ, hsreq_words, hsreq_state, hsreq_flags, mbind, Ext.HM_bind, Ext.hget, Ext.upd_st, Ext.hmodify,
    mret, Ext.HM_ret. cbn [Ext.m_config Ext.st Ext.m_bTLPktDrop].
  change (HS_VERSION_SRT1 <? HS_VERSION_SRT1) with false. cbn [negb].
  destruct (bTSBPD c); cbn [Ext.st Ext.set_st Ext.m_bTLPktDrop andb set_delays m_iTsbPdDelay_ms m_iPeerTsbPdDelay_ms];
    rewrite ?delay_u32 by done; [|done].
  unfold two. by rewrite (Z.lor_comm (Bits.wrap SRT_HS_LATENCY_SND _)).
Qed.

Lemma fill_HSRSP s :
  m_tsRcvPeerStartTime (Ext.st s) <> 0 -> delay_ok (m_iTsbPdDelay_ms (Ext.st s)) ->
  delay_ok (m_iPeerTsbPdDelay_ms (Ext.st s)) ->
  Ext.fillSrtHandshake_HSRSP HS_VERSION_SRT1 SrtVersionCapabilities s = Some (Some (hsrsp_words s), s).
Proof.
  intros Hs Hd Hp. unfold Ext.fillSrtHandshake_HSRSP, hsrsp_words, hsrsp_flags, mbind, Ext.HM_bind, Ext.hget, mret, Ext.HM_ret,
    Ext.isOPT_TsbPd. destruct (Z.eqb_spec (m_tsRcvPeerStartTime (Ext.st s)) 0); [done|].
  change (HS_VERSION_SRT1 <? HS_VERSION_SRT1) with false. change (HS_VERSION_SRT1 >=? HS_VERSION_SRT1) with true.
  rewrite !delay_u32, !andb_true_r by done. cbv zeta.
  assert (Ext.or_if (m_bPeerTsbPd (Ext.st s)) (Bits.wrap SRT_HS_LATENCY_SND (m_iPeerTsbPdDelay_ms (Ext.st s)))
            (if bTSBPD (Ext.m_config s) then Bits.wrap SRT_HS_LATENCY_RCV (m_iTsbPdDelay_ms (Ext.st s)) else 0)
          = two (if bTSBPD (Ext.m_config s) then m_iTsbPdDelay_ms (Ext.st s) else 0)
              (if m_bPeerTsbPd (Ext.st s) then m_iPeerTsbPdDelay_ms (Ext.st s) else 0)) as ->; [|done].
  unfold two, Ext.or_if. change (Bits.wrap (Bits.mk 31 16) 0) with 0.
  destruct (bTSBPD _), (m_bPeerTsbPd _); rewrite ?Z.lor_0_r, ?Z.lor_0_l; try done.
Qed.

Lemma fill_ok srtlen cmd s :
  3 <= srtlen -> cfg_ok (Ext.m_config s) -> hsx_ready cmd s ->
  Ext.fillSrtHandshake srtlen cmd HS_VERSION_SRT1 s = Some (Some (hsx_words cmd s, 3), hsx_state cmd s).
Proof.
  intros Hl Hc Hr. unfold Ext.fillSrtHandshake, mbind, Ext.HM_bind, Ext.hget.
  destruct (Z.ltb_spec srtlen SRT_HS_E_SIZE) as [Hlt|_]; [unfold SRT_HS_E_SIZE in Hlt; lia|].
  destruct Hr as [->|(-> & H1 & H2 & H3)].
  - change (SRT_CMD_HSREQ =? SRT_CMD_HSREQ) with true. cbv iota. rewrite fill_HSREQ by done. done.
  - change (SRT_CMD_HSRSP =? SRT_CMD_HSREQ) with false. change (SRT_CMD_HSRSP =? SRT_CMD_HSRSP) with true. cbv iota.
    rewrite fill_HSRSP by done. done.
Qed.

Lemma flags_range x : 0 <= x < 256 -> is_u32 x.
Proof. unfold is_u32. lia. Qed.

Lemma hsreq_flags_range c drop : is_u32 (hsreq_flags c drop).
Proof.
  apply flags_range. unfold hsreq_flags. destruct (bMessageAPI c), (bRcvNakReport c), (bTSBPD c), drop; split; vm_compute; congruence.
Qed.

Lemma hsrsp_flags_range c drop e : is_u32 (hsrsp_flags c drop e).
Proof.
  apply flags_range. unfold hsrsp_flags.
  destruct (bTSBPD c), (m_bPeerTsbPd e), drop, (bRcvNakReport c), (m_uPeerSrtVersion e <=? SrtVersion 1 0 7),
    (uSrtVersion c >=? SrtVersion 1 2 0), (m_bPeerRexmitFlag e); split; vm_compute; congruence.
Qed.

Lemma hsx_words_ok cmd s :
  cfg_ok (Ext.m_config s) -> hsx_ready cmd s -> Forall is_u32 (hsx_words cmd s) /\ length (hsx_words cmd s) = 3%nat.
Proof.
  intros (Hv & Hr & Hp & _) Hready. assert (is_u32 0) as H0 by (unfold is_u32; lia).
  assert (forall a b, delay_ok a -> delay_ok b -> is_u32 (two a b)) as Ht by (intros; by apply two_unwrap).
  assert (delay_ok 0) as D0 by (unfold delay_ok; lia).
  unfold hsx_words. destruct Hready as [->|(-> & _ & Hd & Hp')].
  - change (SRT_CMD_HSREQ =? SRT_CMD_HSREQ) with true. cbv iota. split; [|done]. unfold hsreq_words. cbv zeta.
    repeat apply Forall_cons_2; [done|apply hsreq_flags_range| |by apply Forall_nil].
    destruct (bTSBPD _); auto.
  - change (SRT_CMD_HSRSP =? SRT_CMD_HSREQ) with false. cbv iota. split; [|done]. unfold hsrsp_words. cbv zeta.
    repeat apply Forall_cons_2; [done|apply hsrsp_flags_range| |by apply Forall_nil].
    destruct (bTSBPD _), (m_bPeerTsbPd _); auto.
Qed.

End Words.

(** ** The whole packet *)

Section Whole.

Context {K : Type} `{!Peripherals K}.

Definition hs_blocks (cmd : Z) (s : Ext.t K) (km : list block) : list block :=
  let c := Ext.m_config s in
  (cmd, hsx_words cmd s) :: opt_block (Ext.have_sid cmd c) SRT_CMD_SID (sStreamName c)
    ++ opt_block (Ext.have_congctl c) SRT_CMD_CONGESTION (sCongestion c)
    ++ opt_block (Ext.have_filter cmd s) SRT_CMD_FILTER (sPacketFilterConfig c) ++ km.

(** A control packet's buffer ([controlPayloadSize]). *)
Definition hs_buffer (data : list Z) : Prop := 1452 <= Z.of_nat (length data) <= 1472.

Lemma wsz_opt have cmd str : wsz (opt_block have cmd str) = if have then 1 + (Z.of_nat (length str) + 3) / 4 else 0.
Proof. unfold opt_block. destruct have; [|done]. rewrite wsz_cons, length_str_words. change (wsz []) with 0. lia. Qed.

Lemma opt_bound (have : bool) (str : list Z) max : Z.of_nat (length str) <= max -> 0 <= max ->
  0 <= (if have then 1 + (Z.of_nat (length str) + 3) / 4 else 0) <= 1 + (max + 3) / 4.
Proof. intros H Hm. pose proof (Z.div_le_mono (Z.of_nat (length str) + 3) (max + 3) 4). destruct have; zlia. Qed.

Lemma have_pos (b : bool) (str : list Z) : (b = true -> str <> []) -> (if b then (Z.of_nat (length str) + 3) / 4 else 3) > 0.
Proof. intros H. destruct b; [|lia]. specialize (H eq_refl). destruct str; [done|]. cbn [length]. zlia. Qed.

Lemma have_sid_ne cmd c : Ext.have_sid cmd c = true -> sStreamName c <> [].
Proof. unfold Ext.have_sid. intros H. apply andb_true_iff in H as [_ H]. by apply negb_true_iff, bool_decide_eq_false in H. Qed.

Lemma have_congctl_ne c : Ext.have_congctl c = true -> sCongestion c <> [].
Proof. unfold Ext.have_congctl. intros H. apply andb_true_iff in H as [H _]. by apply negb_true_iff, bool_decide_eq_false in H. Qed.

Lemma have_filter_ne cmd s : @Ext.have_filter K cmd s = true -> sPacketFilterConfig (Ext.m_config s) <> [].
Proof. unfold Ext.have_filter. intros H. apply andb_true_iff in H as [_ H]. by apply negb_true_iff, bool_decide_eq_false in H. Qed.

(** A step that returns a value passes it on. *)
Lemma bind_run {A B} (m : Ext.HM K A) (f : A -> Ext.HM K B) s a s' : m s = Some (Some a, s') -> (m ≫= f) s = f a s'.
Proof. intros E. unfold mbind, Ext.HM_bind. by rewrite E. Qed.

(** After the fixed part and the HSREQ or HSRSP block. *)
Lemma first_block h data cmd s :
  CHandShake.wf h -> hs_buffer data -> cfg_ok (Ext.m_config s) -> hsx_ready cmd s ->
  exists c, written (Z.of_nat (length data)) (words_bytes (CHandShake.words h)) [(cmd, hsx_words cmd s)] c
    /\ Ext.ra_size c = 3
    /\ forall srtkm kmdata n,
      Ext.fill_blocks cmd srtkm kmdata n data h s
      = ((if Ext.have_sid cmd (Ext.m_config s)
             && (Z.of_nat (length (sStreamName (Ext.m_config s))) >=? Ext.controlPayloadSize false / 2)
          then Ext.hreject SRT_REJ_ROGUE else mret ());;
         c ← Ext.config_block (Ext.have_sid cmd (Ext.m_config s)) SRT_CMD_SID (sStreamName (Ext.m_config s)) c;
         c ← Ext.config_block (Ext.have_congctl (Ext.m_config s)) SRT_CMD_CONGESTION (sCongestion (Ext.m_config s)) c;
         c ← Ext.config_block (Ext.have_filter cmd s) SRT_CMD_FILTER (sPacketFilterConfig (Ext.m_config s)) c;
         c ← (if Ext.have_kmreq (Ext.m_config s) n then Ext.km_blocks srtkm kmdata n c else mret c);
         if Ext.ra_size c =? 0 then Ext.hfail
         else mret (take (Z.to_nat (4 * (Ext.ra_size c + Ext.offset c))) (Ext.buf c))) (hsx_state cmd s).
Proof.
  intros Hh [Hb1 Hb2] Hc Hr. destruct (hsx_words_ok cmd s Hc Hr) as [_ Hl].
  set (a := take 48 data). set (d := drop 48 data).
  assert (length a = 48%nat) as La by (unfold a; rewrite length_take; lia).
  assert (data = a ++ d) as Ed by (unfold a, d; by rewrite take_drop).
  pose proof (store_to_app h a d Hh La) as Hst. rewrite <- Ed in Hst.
  set (hdr := words_bytes (CHandShake.words h)) in *.
  assert (length hdr = 48%nat) as Lh by (unfold hdr; rewrite length_words_bytes, hs_words_length by done; done).
  assert (length data = 48 + length d)%nat as Ld by (rewrite Ed, length_app; lia).
  set (d0 := take 4 d). set (d1 := take 12 (drop 4 d)). set (d2 := drop 12 (drop 4 d)).
  assert (d = d0 ++ d1 ++ d2) as Edd by (unfold d0, d1, d2; by rewrite !take_drop).
  assert (length d0 = 4%nat) as L0 by (unfold d0; rewrite length_take; lia).
  assert (length d1 = 12%nat) as L1 by (unfold d1; rewrite length_take, length_drop; lia).
  exists (Ext.mkCursor (hdr ++ enc [(cmd, hsx_words cmd s)] ++ d2) 13 3). split; [|split; [done|]].
  - split; [done|]. cbn [Ext.buf Ext.offset Ext.ra_size]. rewrite wsz_cons, Hl. change (wsz []) with 0.
    split; [|split; [done|by exists d2]].
    pose proof (length_enc [(cmd, hsx_words cmd s)]) as Le. rewrite wsz_cons, Hl in Le. change (wsz []) with 0 in Le.
    rewrite !length_app, Nat2Z.inj_add, Nat2Z.inj_add, Le, Ld, Edd, !length_app. lia.
  - intros srtkm kmdata n. unfold Ext.fill_blocks. rewrite (bind_run _ _ s s s eq_refl). cbv zeta.
    rewrite (bind_run _ _ s (0, hdr ++ d, 48) s) by (unfold Ext.hlift; by rewrite Hst).
    change (48 / 4) with 12. change (12 + 1) with 13.
    rewrite (bind_run _ _ s (hsx_words cmd s, 3) (hsx_state cmd s))
      by (apply fill_ok; [rewrite Z.mod_small; zlia|done|done]). cbn [fst snd].
    rewrite (bind_run _ _ _ ((hdr ++ d0) ++ words_bytes (hsx_words cmd s) ++ d2) (hsx_state cmd s)).
    2: { unfold Ext.hlift. rewrite Edd, (app_assoc hdr d0), (poke_words_app (hdr ++ d0) _ d1 d2 13);
           [done|lia|rewrite length_app; lia]. }
    rewrite (bind_run _ _ _ (hdr ++ enc [(cmd, hsx_words cmd s)] ++ d2) (hsx_state cmd s)); [done|].
    unfold Ext.hlift. rewrite <- (app_assoc hdr d0), (poke_words_app hdr [Ext.cmdspec cmd 3] d0 _ 12) by (done || lia).
    cbn [mbind option_bind]. rewrite enc_cons, Hl. change (enc []) with (@nil Z). rewrite app_nil_r.
    change (words_bytes [Ext.cmdspec cmd 3]) with (le_bytes (Ext.cmdspec cmd 3) ++ []).
    by rewrite app_nil_r, <- app_assoc.
Qed.

(** The configuration blocks after it. *)
Lemma config_blocks h data cmd s :
  CHandShake.wf h -> hs_buffer data -> cfg_ok (Ext.m_config s) -> hsx_ready cmd s ->
  exists c, written (Z.of_nat (length data)) (words_bytes (CHandShake.words h)) (hs_blocks cmd s []) c
    /\ Ext.ra_size c > 0 /\ wsz (hs_blocks cmd s []) <= 155
    /\ forall srtkm kmdata n,
      Ext.fill_blocks cmd srtkm kmdata n data h s
      = (c ← (if Ext.have_kmreq (Ext.m_config s) n then Ext.km_blocks srtkm kmdata n c else mret c);
         if Ext.ra_size c =? 0 then Ext.hfail
         else mret (take (Z.to_nat (4 * (Ext.ra_size c + Ext.offset c))) (Ext.buf c))) (hsx_state cmd s).
Proof.
  intros Hh Hbuf Hc Hr. pose proof Hbuf as [Hb1 Hb2]. destruct (hsx_words_ok cmd s Hc Hr) as [_ Hl].
  destruct (first_block h data cmd s Hh Hbuf Hc Hr) as (c0 & Hw0 & Er0 & Eq).
  destruct Hc as (_ & _ & _ & [Ls Bs] & [Lc Bc] & [Lf Bf]).
  unfold MAX_SID_LENGTH, MAX_CONG_LENGTH, MAX_PFILTER_LENGTH in *.
  pose proof (opt_bound (Ext.have_sid cmd (Ext.m_config s)) _ _ Ls) as B1.
  pose proof (opt_bound (Ext.have_congctl (Ext.m_config s)) _ _ Lc) as B2.
  pose proof (opt_bound (Ext.have_filter cmd s) _ _ Lf) as B3.
  change (1 + (512 + 3) / 4) with 129 in B1. change (1 + (16 + 3) / 4) with 5 in B2. change (1 + (64 + 3) / 4) with 17 in B3.
  set (st1 := hsx_state cmd s) in *.
  assert (wsz [(cmd, hsx_words cmd s)] = 4) as W0 by (rewrite wsz_cons, Hl; change (wsz []) with 0; lia).
  destruct (config_block_written _ _ _ (Ext.have_sid cmd (Ext.m_config s)) SRT_CMD_SID _ c0 st1 Hw0 Bs) as (c1 & E1 & Hw1 & Er1).
  { intros E. rewrite E in B1. lia. }
  destruct (config_block_written _ _ _ (Ext.have_congctl (Ext.m_config s)) SRT_CMD_CONGESTION _ c1 st1 Hw1 Bc) as (c2 & E2 & Hw2 & Er2).
  { intros E. rewrite E in B2. rewrite wsz_app, wsz_opt. lia. }
  destruct (config_block_written _ _ _ (Ext.have_filter cmd s) SRT_CMD_FILTER _ c2 st1 Hw2 Bf) as (c3 & E3 & Hw3 & Er3).
  { intros E. rewrite E in B3. rewrite !wsz_app, !wsz_opt. lia. }
  exists c3. unfold hs_blocks. rewrite app_nil_r. cbn [app] in Hw3. rewrite <- app_assoc in Hw3.
  split; [done|]. split.
  { pose proof (have_pos _ _ (have_sid_ne cmd (Ext.m_config s))) as P1. rewrite Er0 in Er1. rewrite <- Er1 in P1.
    rewrite Er3. destruct (Ext.have_filter cmd s) eqn:Ef; [apply (have_pos true); intros _; by apply (have_filter_ne cmd)|].
    rewrite Er2. destruct (Ext.have_congctl _) eqn:Eg; [apply (have_pos true); intros _; by apply have_congctl_ne|done]. }
  split; [rewrite wsz_cons, Hl, !wsz_app, !wsz_opt; lia|].
  intros srtkm kmdata n. rewrite Eq. rewrite (bind_run _ _ st1 tt st1).
  2: { change (Ext.controlPayloadSize false / 2) with 736.
       destruct (Z.geb_spec (Z.of_nat (length (sStreamName (Ext.m_config s)))) 736); [lia|]. by rewrite andb_false_r. }
  by rewrite (bind_run _ _ _ _ _ E1), (bind_run _ _ _ _ _ E2), (bind_run _ _ _ _ _ E3).
Qed.

Lemma written_take N hdr bs c :
  written N hdr bs c -> take (Z.to_nat (4 * (Ext.ra_size c + Ext.offset c))) (Ext.buf c) = hdr ++ enc bs.
Proof.
  intros (Hh & _ & Ho & rest & ->). pose proof (length_enc bs) as Le. rewrite app_assoc.
  replace (Z.to_nat (4 * (Ext.ra_size c + Ext.offset c))) with (length (hdr ++ enc bs)); [apply take_app_length|].
  rewrite length_app. lia.
Qed.

(** The tail of the packet's creation, once the key blocks are written. *)
Lemma finish_blocks N hdr bs c (s : Ext.t K) :
  written N hdr bs c -> Ext.ra_size c > 0 ->
  (if Ext.ra_size c =? 0 then Ext.hfail
   else mret (take (Z.to_nat (4 * (Ext.ra_size c + Ext.offset c))) (Ext.buf c))) s = Some (Some (hdr ++ enc bs), s).
Proof.
  intros Hw Hr. destruct (Z.eqb_spec (Ext.ra_size c) 0); [lia|]. by rewrite (written_take N hdr bs c Hw).
Qed.

End Whole.
