(* ===== verification/HandshakeNeg.v ===== *)
(** * Negotiation: what one party writes and the other settles

    The effect of an HSREQ and of an HSRSP on the receiving party, and of the
    configuration blocks, on a packet made of blocks. *)

From S2P Require Import Prelude SeqNo Packet Handshake HandshakeSpec HandshakeSafe HandshakeExt.

Section Neg.

Context {K : Type} `{!Peripherals K}.

(** ** HSREQ at the responder *)

Definition settle_req (start version flags latency : Z) (c : CSrtConfig) (e : settled) : settled :=
  let mine := IsSet flags SRT_OPT_TSBPDSND && bTSBPD c in
  let peer := IsSet flags SRT_OPT_TSBPDRCV in
  mkSettled start
    (if mine then Z.max (iRcvLatency c) (Bits.unwrap SRT_HS_LATENCY_SND latency) else iRcvLatency c)
    (if peer then Z.max (iPeerLatency c) (Bits.unwrap SRT_HS_LATENCY_RCV latency) else iPeerLatency c)
    (mine || m_bTsbPd e) (peer || m_bPeerTsbPd e)
    (IsSet flags SRT_OPT_TLPKTDROP || m_bPeerTLPktDrop e) (IsSet flags SRT_OPT_NAKREPORT || m_bPeerNakReport e)
    (IsSet flags SRT_OPT_REXMITFLG) version flags 0.

(** An HSREQ of the same API and an acceptable version is taken. *)
Definition acceptable (c : CSrtConfig) (version flags : Z) : Prop :=
  SRT_VERSION_FEAT_HSv5 <= version /\ uMinimumPeerSrtVersion c <= version
  /\ negb (IsSet flags SRT_OPT_STREAM) = bMessageAPI c.

Ltac run_hm := unfold Ext.upd_when, Ext.upd_st, mbind, Ext.HM_bind, mret, Ext.HM_ret, Ext.hget, Ext.hmodify, Ext.hlift; cbv beta iota zeta.

Lemma take_HSREQ_ok now ts version flags latency post (s : Ext.t K) :
  Forall is_u32 [version; flags; latency] -> acceptable (Ext.m_config s) version flags ->
  Ext.take_HSREQ now ts (enc ((SRT_CMD_HSREQ, [version; flags; latency]) :: post)) 0 3 s
  = Some (Some tt, Ext.set_st (settle_req (now - ts) version flags latency (Ext.m_config s) (Ext.st s)) s).
Proof.
  intros Hw (Hv5 & Hmin & Hapi). unfold Ext.take_HSREQ. change (3 <? SRT_HS_E_SIZE) with false. cbv iota.
  pose proof (block_body [] SRT_CMD_HSREQ [version; flags; latency] post) as Hb. cbn [app length] in Hb.
  change (wsz [] + 1) with (0 + 1) in Hb. change (Z.of_nat 3) with 3 in Hb.
  unfold mbind at 1, Ext.HM_bind at 1, Ext.hlift at 1.
  rewrite Hb by (split; [split; vm_compute; congruence|split; [vm_compute; congruence|done]]). cbn [mbind option_bind].
  destruct s as [c e drop rej side ver conn k]. cbn [Ext.m_config Ext.st] in *.
  unfold Ext.processSrtMsg_HSREQ, Ext.hsreq_latency, Ext.handshakeDone, Ext.isOPT_TsbPd. run_hm.
  cbn [Ext.m_config Ext.st Ext.set_st]. change (3 * 4 <? Ext.SRT_CMD_HSREQ_MINSZ) with false. cbv iota.
  cbn [lookup list_lookup mbind option_bind Ext.st Ext.set_st Ext.m_config].
  change (HS_VERSION_SRT1 =? HS_VERSION_UDT4) with false. cbv iota.
  destruct (Z.ltb_spec version SRT_VERSION_FEAT_HSv5); [lia|].
  destruct (Z.ltb_spec version (uMinimumPeerSrtVersion c)); [lia|].
  rewrite Hapi. change (3 * 4 <? SRT_HS_E_SIZE * 4) with false.
  change (HS_VERSION_SRT1 >? HS_VERSION_UDT4) with true. change (HS_VERSION_SRT1 <? HS_VERSION_SRT1) with false.
  assert (eqb (bMessageAPI c) (bMessageAPI c) = true) as -> by apply eqb_reflx. cbn [negb andb Ext.m_config Ext.st Ext.set_st].
  unfold settle_req.
  destruct (IsSet flags SRT_OPT_TSBPDSND), (bTSBPD c), (IsSet flags SRT_OPT_TSBPDRCV), (IsSet flags SRT_OPT_TLPKTDROP),
    (IsSet flags SRT_OPT_NAKREPORT); reflexivity.
Qed.

(** ** HSRSP at the initiator *)

Definition settle_rsp (start version flags latency : Z) (c : CSrtConfig) (e : settled) : settled :=
  let mine := IsSet flags SRT_OPT_TSBPDSND && bTSBPD c in
  let peer := IsSet flags SRT_OPT_TSBPDRCV in
  mkSettled (if m_tsRcvPeerStartTime e =? 0 then start else m_tsRcvPeerStartTime e)
    (if mine then Bits.unwrap SRT_HS_LATENCY_SND latency else m_iTsbPdDelay_ms e)
    (if peer then Bits.unwrap SRT_HS_LATENCY_RCV latency else m_iPeerTsbPdDelay_ms e)
    (mine || m_bTsbPd e) (peer || m_bPeerTsbPd e)
    ((uSrtVersion c >=? SrtVersion 1 0 5) && IsSet flags SRT_OPT_TLPKTDROP || m_bPeerTLPktDrop e)
    ((uSrtVersion c >=? SrtVersion 1 1 0) && IsSet flags SRT_OPT_NAKREPORT || m_bPeerNakReport e)
    ((uSrtVersion c >=? SrtVersion 1 2 0) && IsSet flags SRT_OPT_REXMITFLG || m_bPeerRexmitFlag e) version flags 0.

Lemma take_HSRSP_ok now ts version flags latency post (s : Ext.t K) :
  Forall is_u32 [version; flags; latency] -> uMinimumPeerSrtVersion (Ext.m_config s) <= version ->
  Ext.take_HSRSP now ts (enc ((SRT_CMD_HSRSP, [version; flags; latency]) :: post)) 0 3 s
  = Some (Some tt, Ext.set_st (settle_rsp (now - ts) version flags latency (Ext.m_config s) (Ext.st s)) s).
Proof.
  intros Hw Hmin. unfold Ext.take_HSRSP. change (3 <? SRT_HS_E_SIZE) with false. cbv iota.
  pose proof (block_body [] SRT_CMD_HSRSP [version; flags; latency] post) as Hb. cbn [app length] in Hb.
  change (wsz [] + 1) with (0 + 1) in Hb. change (Z.of_nat 3) with 3 in Hb.
  unfold mbind at 1, Ext.HM_bind at 1, Ext.hlift at 1.
  rewrite Hb by (split; [split; vm_compute; congruence|split; [vm_compute; congruence|done]]). cbn [mbind option_bind].
  destruct s as [c e drop rej side ver conn k]. cbn [Ext.m_config Ext.st] in *.
  unfold Ext.processSrtMsg_HSRSP, Ext.hsrsp_latency, Ext.handshakeDone, Ext.isOPT_TsbPd. run_hm.
  cbn [lookup list_lookup mbind option_bind].
  change (HS_VERSION_SRT1 =? HS_VERSION_UDT4) with false. cbn [andb].
  change (3 * 4 <? Ext.SRT_CMD_HSRSP_MINSZ) with false. cbv iota.
  cbn [Ext.m_config Ext.st Ext.set_st].
  destruct (Z.ltb_spec version (uMinimumPeerSrtVersion c)); [lia|]. cbn [Ext.m_config Ext.st Ext.set_st]. unfold settle_rsp.
  destruct e as [start d p a b c1 c2 c3 v f r]. cbn [m_tsRcvPeerStartTime]. destruct (start =? 0);
  destruct (IsSet flags SRT_OPT_TSBPDSND), (bTSBPD c), (IsSet flags SRT_OPT_TSBPDRCV),
    (_ && IsSet flags SRT_OPT_TLPKTDROP), (_ && IsSet flags SRT_OPT_NAKREPORT), (_ && IsSet flags SRT_OPT_REXMITFLG);
    reflexivity.
Qed.

(** ** Blocks *)

Lemma hsreq_loop_first fuel now ts cmd ws post (s : Ext.t K) :
  block_ok (cmd, ws) -> length ws = 3%nat -> cmd = SRT_CMD_HSREQ \/ cmd = SRT_CMD_HSRSP ->
  Ext.hsreq_loop (S fuel) now ts (enc ((cmd, ws) :: post)) 0 (wsz ((cmd, ws) :: post)) 0 None s
  = (if cmd =? SRT_CMD_HSREQ then Ext.take_HSREQ now ts (enc ((cmd, ws) :: post)) 0 3
     else Ext.take_HSRSP now ts (enc ((cmd, ws) :: post)) 0 3) s.
Proof.
  intros Hok Hl Hcmd. cbn [Ext.hsreq_loop]. pose proof (find_block [] cmd ws post 0 None Hok) as E. cbn [app] in E.
  change (wsz []) with 0 in E. rewrite Hl in E. unfold mbind, Ext.HM_bind, Ext.hlift. rewrite E. cbn [mbind option_bind].
  by destruct Hcmd as [->| ->].
Qed.

(** What a configuration block does depends on the block alone. *)
Definition take_block (agsm : list Z) (b : block) (have : bool * bool) : Ext.HM K (bool * bool) :=
  Ext.take_config (fst b) agsm (enc [b]) 0 (Z.of_nat (length (snd b))) have.

Lemma block_bytes pre cmd ws post :
  peek (4 * (wsz pre + 1)) (Z.of_nat (length ws) * 4) (enc (pre ++ (cmd, ws) :: post)) = Some (words_bytes ws).
Proof.
  rewrite enc_app, enc_cons, app_assoc.
  replace (4 * (wsz pre + 1)) with (Z.of_nat (length (enc pre ++ le_bytes (Ext.cmdspec cmd (Z.of_nat (length ws)))))).
  - replace (Z.of_nat (length ws) * 4) with (Z.of_nat (length (words_bytes ws))) by (rewrite length_words_bytes; lia).
    apply peek_app.
  - rewrite length_app, Nat2Z.inj_add, length_enc. change (length (le_bytes _)) with 4%nat. lia.
Qed.

Lemma take_config_block agsm pre cmd ws post have (s : Ext.t K) :
  Ext.take_config cmd agsm (enc (pre ++ (cmd, ws) :: post)) (wsz pre) (Z.of_nat (length ws)) have s
  = take_block agsm (cmd, ws) have s.
Proof.
  unfold take_block, Ext.take_config. cbn [fst snd]. cbv zeta. rewrite block_bytes.
  pose proof (block_bytes [] cmd ws []) as E. cbn [app] in E. change (wsz []) with 0 in E. by rewrite E.
Qed.

Fixpoint config_run (agsm : list Z) (bs : list block) (have : bool * bool) : Ext.HM K (bool * bool) :=
  match bs with
  | [] => mret have
  | b :: bs => have ← take_block agsm b have; config_run agsm bs have
  end.

Lemma config_loop_run agsm post : forall fuel pre ol nx have (s : Ext.t K),
  Forall block_ok post -> post <> [] -> (length post <= fuel)%nat ->
  Ext.config_loop fuel agsm (enc (pre ++ post)) (wsz pre) (wsz post) ol nx have s = config_run agsm post have s.
Proof.
  induction post as [|[cmd ws] post IH]; intros fuel pre ol nx have s Hok Hne Hf; [done|].
  destruct fuel as [|fuel]; [cbn in Hf; lia|]. apply list.Forall_cons in Hok as [Hb Hok].
  cbn [Ext.config_loop config_run]. unfold mbind, Ext.HM_bind, Ext.hlift. rewrite find_block by done.
  cbn [mbind option_bind]. pose proof Hb as (Hc & _). cbn [fst] in Hc.
  destruct (Z.eqb_spec cmd SRT_CMD_NONE) as [E|_]; [unfold SRT_CMD_NONE in E; lia|].
  rewrite take_config_block, next_block_step. destruct (take_block agsm (cmd, ws) have s) as [[[have'|] s']|]; [|done..].
  destruct (decide (post = [])) as [->|Hp]; [done|]. rewrite cons_middle, app_assoc. apply IH; [done..|]. cbn in Hf. lia.
Qed.

(** A whole handshake without key material. *)
Lemma interpret_blocks now hs ts hdr cmd ws post out (s : Ext.t K) :
  CHandShake.m_iVersion hs = HS_VERSION_SRT1 -> length hdr = 48%nat ->
  Forall block_ok ((cmd, ws) :: post) -> length ws = 3%nat -> cmd = SRT_CMD_HSREQ \/ cmd = SRT_CMD_HSRSP ->
  Bits.unwrap SRT_HSTYPE_HSFLAGS (u32 (CHandShake.m_iType hs))
    = CHandShake.HS_EXT_HSREQ + (if decide (post = []) then 0 else CHandShake.HS_EXT_CONFIG) ->
  Ext.interpretSrtHandshake now hs ts (hdr ++ enc ((cmd, ws) :: post)) out s
  = ((if cmd =? SRT_CMD_HSREQ then Ext.take_HSREQ now ts (enc ((cmd, ws) :: post)) 0 3
      else Ext.take_HSRSP now ts (enc ((cmd, ws) :: post)) 0 3);;
     (Ext.hmodify (fun s => if decide (sCongestion (Ext.m_config s) = [])
                            then Ext.set_config (set_Congestion str_live (Ext.m_config s)) s else s));;
     s ← Ext.hget;
     let agsm := sCongestion (Ext.m_config s) in
     have ← (if decide (post = []) then mret (false, false) else config_run agsm ((cmd, ws) :: post) (false, false));
     Ext.post_checks false agsm have;; mret []) s.
Proof.
  intros Hv Hh Hok Hl Hcmd Hfl. unfold Ext.interpretSrtHandshake. unfold mbind at 1, Ext.HM_bind at 1, Ext.hget at 1.
  rewrite Hv, Hfl. change (HS_VERSION_SRT1 =? 0) with false. rewrite andb_false_r.
  change (HS_VERSION_SRT1 <? HS_VERSION_SRT1) with false. cbv iota.
  destruct (Z.leb_spec (Z.of_nat (length (hdr ++ enc ((cmd, ws) :: post)))) CHandShake.m_iContentSize) as [Hle|_].
  { rewrite length_app, Nat2Z.inj_add, length_enc, wsz_cons in Hle. pose proof (wsz_nonneg post).
    unfold CHandShake.m_iContentSize in Hle. lia. }
  assert (Ext.ext_mem (hdr ++ enc ((cmd, ws) :: post)) = enc ((cmd, ws) :: post)) as -> by (by apply drop_header).
  rewrite ext_words_enc by done.
  assert (length ((cmd, ws) :: post) <= Ext.loop_fuel (hdr ++ enc ((cmd, ws) :: post)))%nat as Hf.
  { unfold Ext.loop_fuel. rewrite length_app. pose proof (length_enc ((cmd, ws) :: post)).
    pose proof (blocks_fuel ((cmd, ws) :: post)). lia. }
  assert (forall agsm (s : Ext.t K), Ext.config_loop (Ext.loop_fuel (hdr ++ enc ((cmd, ws) :: post))) agsm (enc ((cmd, ws) :: post)) 0
            (wsz ((cmd, ws) :: post)) 0 None (false, false) s
          = config_run agsm ((cmd, ws) :: post) (false, false) s) as Hconf.
  { intros agsm s'. by apply (config_loop_run agsm ((cmd, ws) :: post) _ [] 0 None (false, false) s'). }
  apply list.Forall_cons in Hok as [Hb _].
  assert (forall s : Ext.t K, Ext.hsreq_loop (Ext.loop_fuel (hdr ++ enc ((cmd, ws) :: post))) now ts (enc ((cmd, ws) :: post)) 0
            (wsz ((cmd, ws) :: post)) 0 None s
          = (if cmd =? SRT_CMD_HSREQ then Ext.take_HSREQ now ts (enc ((cmd, ws) :: post)) 0 3
             else Ext.take_HSRSP now ts (enc ((cmd, ws) :: post)) 0 3) s) as Hhs.
  { intros s'. unfold Ext.loop_fuel. by apply hsreq_loop_first. }
  destruct (decide (post = [])) as [Hp|Hp]; cbn [Z.add Pos.add].
  - change (CHandShake.HS_EXT_HSREQ + 0 =? 0) with false. change (IsSet _ CHandShake.HS_EXT_HSREQ) with true.
    change (IsSet (CHandShake.HS_EXT_HSREQ + 0) CHandShake.HS_EXT_KMREQ) with false.
    change (IsSet (CHandShake.HS_EXT_HSREQ + 0) CHandShake.HS_EXT_CONFIG) with false. cbv iota.
    unfold mbind at 1, Ext.HM_bind at 1. rewrite Hhs. reflexivity.
  - change (CHandShake.HS_EXT_HSREQ + CHandShake.HS_EXT_CONFIG =? 0) with false.
    change (IsSet (CHandShake.HS_EXT_HSREQ + CHandShake.HS_EXT_CONFIG) CHandShake.HS_EXT_HSREQ) with true.
    change (IsSet (CHandShake.HS_EXT_HSREQ + CHandShake.HS_EXT_CONFIG) CHandShake.HS_EXT_KMREQ) with false.
    change (IsSet (CHandShake.HS_EXT_HSREQ + CHandShake.HS_EXT_CONFIG) CHandShake.HS_EXT_CONFIG) with true. cbv iota.
    unfold mbind, Ext.HM_bind. rewrite Hhs.
    match goal with |- match ?m with _ => _ end = _ => destruct m as [[[[]|] s']|]; [|done..] end.
    unfold Ext.interpret_km, mret, Ext.HM_ret, Ext.hmodify, Ext.hget. rewrite Hconf. reflexivity.
Qed.

(** ** Strings *)

Lemma sid_length_at target bytelen n pos :
  (0 < n <= pos)%nat -> from_option id 0 (target !! n) <> 0 ->
  (forall i, (n < i <= pos)%nat -> from_option id 0 (target !! i) = 0) ->
  Ext.sid_length target bytelen pos = Z.of_nat n + 1.
Proof.
  induction pos as [|pos IH]; intros Hn Hne Hz; [lia|]. cbn [Ext.sid_length].
  destruct (decide (n = S pos)) as [->|Hd].
  - destruct (Z.eqb_spec (from_option id 0 (target !! S pos)) 0); [done|lia].
  - rewrite Hz by lia. cbn [Z.eqb]. apply IH; [lia|done|]. intros i Hi. apply Hz. lia.
Qed.

Lemma sid_length_none target bytelen pos :
  (forall i, (0 < i <= pos)%nat -> from_option id 0 (target !! i) = 0) -> Ext.sid_length target bytelen pos = bytelen.
Proof.
  induction pos as [|pos IH]; intros Hz; [done|]. cbn [Ext.sid_length]. rewrite Hz by lia. cbn [Z.eqb].
  apply IH. intros i Hi. apply Hz. lia.
Qed.

Lemma pad4_zero str i : (length str <= i)%nat -> from_option id 0 (pad4 str !! i) = 0.
Proof.
  intros Hi. unfold pad4. rewrite lookup_app_r by done.
  destruct (replicate _ 0 !! _) as [x|] eqn:E; [|done]. by apply lookup_replicate in E as [-> _].
Qed.

(** A stream ID of at least two characters comes through; of a single character
    it keeps the padding. *)
Lemma decode_pad4 str c :
  c <> 0 -> str <> [] -> Ext.decode_sid (pad4 (str ++ [c])) = str ++ [c].
Proof.
  intros Hc Hne. unfold Ext.decode_sid.
  rewrite (sid_length_at _ _ (length str) (length (pad4 (str ++ [c])) - 1)).
  - replace (Z.to_nat (Z.of_nat (length str) + 1)) with (length (str ++ [c])) by (rewrite length_app; cbn [length]; lia).
    unfold pad4. apply take_app_length.
  - destruct str; [done|]. rewrite length_pad4, length_app. cbn [length]. zlia.
  - unfold pad4. rewrite <- app_assoc, lookup_app_r, Nat.sub_diag by lia. done.
  - intros i Hi. apply pad4_zero. rewrite length_app. cbn [length]. lia.
Qed.

Lemma decode_pad4_one c : Ext.decode_sid (pad4 [c]) = [c; 0; 0; 0].
Proof. reflexivity. Qed.

Lemma c_string_pad4 str : Forall (fun b => b <> 0) str -> c_string (pad4 str) = str.
Proof.
  unfold pad4. generalize (Z.to_nat ((Z.of_nat (length str) + 3) / 4 * 4) - length str)%nat. intros n H.
  induction H as [|b str Hb _ IH]; cbn [app c_string].
  - destruct n; [done|]. done.
  - destruct (Z.eqb_spec b 0); [done|]. by rewrite IH.
Qed.

(** ** The configuration blocks of a packet *)

Lemma str_len_bound str max : str <> [] -> Z.of_nat (length str) <= max -> (4 | max) ->
  (Z.of_nat (length (str_words str)) * 4 =? 0) || (Z.of_nat (length (str_words str)) * 4 >? max) = false.
Proof.
  intros Hne Hl [q ->]. rewrite length_str_words. destruct str as [|b str]; [done|]. cbn [length] in *.
  apply orb_false_iff. split; [apply Z.eqb_neq|rewrite Z.gtb_ltb; apply Z.ltb_ge]; zlia.
Qed.

Lemma own_bytes cmd ws : peek (4 * (0 + 1)) (Z.of_nat (length ws) * 4) (enc [(cmd, ws)]) = Some (words_bytes ws).
Proof. apply (block_bytes [] cmd ws []). Qed.

Lemma take_sid agsm str have (s : Ext.t K) :
  Forall is_byte str -> str <> [] -> Z.of_nat (length str) <= MAX_SID_LENGTH ->
  take_block agsm (SRT_CMD_SID, str_words str) have s
  = Some (Some have, Ext.set_config (set_StreamName (Ext.decode_sid (pad4 str)) (Ext.m_config s)) s).
Proof.
  intros Hb Hne Hl. unfold take_block, Ext.take_config. cbn [fst snd]. cbv zeta.
  change (SRT_CMD_SID =? SRT_CMD_SID) with true. cbv iota.
  rewrite str_len_bound, own_bytes, words_bytes_str by (done || by exists 128). done.
Qed.

Lemma take_congctl str have (s : Ext.t K) :
  Forall is_byte str -> Forall (fun b => b <> 0) str -> str <> [] -> Z.of_nat (length str) <= MAX_CONG_LENGTH ->
  fst have = false -> take_block str (SRT_CMD_CONGESTION, str_words str) have s = Some (Some (true, snd have), s).
Proof.
  intros Hb Hz Hne Hl Hf. unfold take_block, Ext.take_config. cbn [fst snd]. cbv zeta.
  change (SRT_CMD_CONGESTION =? SRT_CMD_SID) with false. change (SRT_CMD_CONGESTION =? SRT_CMD_CONGESTION) with true. cbv iota.
  rewrite Hf, str_len_bound, own_bytes, words_bytes_str by (done || by exists 4).
  unfold mbind, Ext.HM_bind, Ext.hlift. cbn [mbind option_bind].
  by rewrite c_string_pad4, bool_decide_eq_true_2 by done.
Qed.

Lemma take_other agsm cmd ws have (s : Ext.t K) :
  cmd = SRT_CMD_HSREQ \/ cmd = SRT_CMD_HSRSP -> take_block agsm (cmd, ws) have s = Some (Some have, s).
Proof. by intros [->| ->]. Qed.

End Neg.
