(* ===== verification/HandshakeProps.v ===== *)
(** * The handshake's properties

    The fixed part and the extension blocks come through a packet; every packet
    is interpreted within its bounds; every handshake fits the buffer it is
    written to; and the two parties of an exchange settle on the same latencies
    and flags. *)

From S2P Require Import Prelude SeqNo Packet Handshake HandshakeSpec HandshakeSafe HandshakeExt HandshakeNeg.

(** ** The composition of the calls of the two parties

    The initiator's request ([createSrtHandshake] with HSREQ), the responder's
    interpretation and response, the initiator's interpretation of it, as
    [processConnectResponse], [acceptAndRespond] and [postConnect] call them. *)

Section Exchange.

Context {K : Type} `{!Peripherals K}.

(** A packet's fixed part as the receiver loads it. *)
Definition load (data : list Z) : option CHandShake.t :=
  r ← CHandShake.load_from CHandShake.init data (Z.of_nat (length data)); if fst r =? 0 then Some (snd r) else None.

Definition made (r : option (option (list Z) * CHandShake.t * Ext.t K)) : option (list Z * Ext.t K) :=
  '(data, _, s) ← r; d ← data; Some (d, s).

Definition taken (r : option (option (list Z) * Ext.t K)) : option (list Z * Ext.t K) :=
  '(km, s) ← r; k ← km; Some (k, s).

Definition negotiate (now_r ts_i now_i ts_r : Z) (hi hr : CHandShake.t) (buf : list Z) (si sr : Ext.t K)
    : option (Ext.t K * Ext.t K) :=
  '(d1, si) ← made (Ext.createSrtHandshake SRT_CMD_HSREQ SRT_CMD_KMREQ None 0 buf hi si);
  h1 ← load d1;
  '(km, sr) ← taken (Ext.interpretSrtHandshake now_r h1 ts_i d1 true sr);
  '(d2, sr) ← made (Ext.createSrtHandshake SRT_CMD_HSRSP SRT_CMD_KMRSP (Some km) (Z.of_nat (length km)) buf hr sr);
  h2 ← load d2;
  '(_, si) ← taken (Ext.interpretSrtHandshake now_i h2 ts_r d2 false si);
  Some (si, sr).

(** ** A handshake without key material *)

Definition agreed (c : CSrtConfig) : list Z := if decide (sCongestion c = []) then str_live else sCongestion c.

Definition plain (c : CSrtConfig) : Prop :=
  cfg_ok c /\ CryptoSecret_len c = 0 /\ sPacketFilterConfig c = [] /\ Forall (fun b => b <> 0) (sCongestion c)
  /\ SRT_VERSION_FEAT_HSv5 <= uSrtVersion c.

(** A conclusion of version 5 that asks for extensions. *)
Definition conclusion (h : CHandShake.t) : Prop :=
  CHandShake.wf h /\ CHandShake.m_iVersion h = HS_VERSION_SRT1 /\ CHandShake.m_extension h = true.

Definition plain_post (cmd : Z) (c : CSrtConfig) : list block :=
  opt_block (Ext.have_sid cmd c) SRT_CMD_SID (sStreamName c)
    ++ opt_block (Ext.have_congctl c) SRT_CMD_CONGESTION (sCongestion c).

Definition pbk (c : CSrtConfig) : Z := Bits.unwrap SRT_PBKEYLEN_BITS (iSndCryptoKeyLen c).

Lemma pbk_range c : 0 <= pbk c < 8.
Proof.
  unfold pbk. assert (Bits.wf SRT_PBKEYLEN_BITS) as Hb by (split; cbn; lia).
  replace (Bits.unwrap SRT_PBKEYLEN_BITS (iSndCryptoKeyLen c)) with (Bits.unwrap SRT_PBKEYLEN_BITS (iSndCryptoKeyLen c) mod 2 ^ 3).
  { apply Z.mod_pos_bound. lia. }
  apply Z.bits_inj'. intros i Hi. destruct (Z.lt_ge_cases i 3).
  - by rewrite Z.mod_pow2_bits_low by lia.
  - rewrite Z.mod_pow2_bits_high, (testbit_unwrap _ Hb) by lia. cbn [Bits.R Bits.L SRT_PBKEYLEN_BITS].
    destruct (Z.leb_spec (i + 3) 5); [lia|]. by rewrite andb_false_r.
Qed.

Lemma type_two c x : 0 <= x < 2 ^ 16 ->
  Z.lor (wrapFlags false (iSndCryptoKeyLen c)) x = two (pbk c) x.
Proof.
  intros Hx. pose proof (pbk_range c) as Hp. unfold wrapFlags. rewrite Z.lor_0_l. fold (pbk c).
  assert (Bits.wrap (Bits.mk 31 16) (pbk c) = pbk c * 2 ^ 16) as E by (rewrite wrap_high, Z.shiftl_mul_pow2; lia).
  rewrite i32_id.
  - unfold two. by rewrite wrap_low by done.
  - change SRT_HSTYPE_ENCFLAGS with (Bits.mk 31 16). rewrite E. unfold is_i32. lia.
Qed.

(** The type field of an extended handshake: the key length and the flags. *)
Definition flag_word (cmd : Z) (c : CSrtConfig) : Z :=
  CHandShake.HS_EXT_HSREQ + (if decide (plain_post cmd c = []) then 0 else CHandShake.HS_EXT_CONFIG).

Lemma flag_word_range cmd c : 0 <= flag_word cmd c < 2 ^ 16.
Proof. unfold flag_word. case_decide; split; vm_compute; congruence. Qed.

Lemma hs_flags_plain cmd (s : Ext.t K) h :
  plain (Ext.m_config s) ->
  CHandShake.m_iType h = wrapFlags false (iSndCryptoKeyLen (Ext.m_config s)) ->
  Ext.hs_flags cmd 0 s h = CHandShake.set_type (two (pbk (Ext.m_config s)) (flag_word cmd (Ext.m_config s))) h.
Proof.
  intros (_ & Hk & Hf & _) Ht. unfold Ext.hs_flags. cbv zeta. f_equal. rewrite Ht. unfold Ext.have_filter, Ext.have_kmreq.
  rewrite Hk, Hf, bool_decide_eq_true_2, andb_false_r by done. change (0 >? 0) with false. cbn [orb Ext.or_if].
  rewrite <- type_two by apply flag_word_range. unfold flag_word, plain_post, opt_block.
  destruct (Ext.have_sid cmd _), (Ext.have_congctl _); cbn [app Ext.or_if]; first [rewrite decide_False by done|rewrite decide_True by done];
    rewrite <- ?Z.lor_assoc; done.
Qed.

Lemma hs_blocks_plain cmd (s : Ext.t K) :
  plain (Ext.m_config s) -> hs_blocks cmd s [] = (cmd, hsx_words cmd s) :: plain_post cmd (Ext.m_config s).
Proof.
  intros (_ & _ & Hf & _). unfold hs_blocks, plain_post. f_equal. f_equal.
  assert (Ext.have_filter cmd s = false) as ->; [|cbn [opt_block app]; by rewrite app_nil_r].
  unfold Ext.have_filter. by rewrite Hf, bool_decide_eq_true_2, andb_false_r.
Qed.

(** The handshake as it is sent. *)
Definition sent_hs (cmd : Z) (s : Ext.t K) (h : CHandShake.t) : CHandShake.t :=
  CHandShake.set_type (two (pbk (Ext.m_config s)) (flag_word cmd (Ext.m_config s))) h.

Lemma sent_hs_wf cmd s h : CHandShake.wf h -> CHandShake.wf (sent_hs cmd s h).
Proof.
  intros (H1&_&H3). split; [done|]. split; [|done]. cbn.
  pose proof (pbk_range (Ext.m_config s)). pose proof (flag_word_range cmd (Ext.m_config s)).
  rewrite two_value by lia. unfold is_i32. lia.
Qed.

Lemma hs_base_plain cmd (s : Ext.t K) h :
  conclusion h -> Ext.m_ConnRes_version s <> HS_VERSION_UDT4 ->
  cmd <> SRT_CMD_HSRSP \/ m_tsRcvPeerStartTime (Ext.st s) <> 0 ->
  Ext.hs_base cmd s h = CHandShake.set_type (wrapFlags false (iSndCryptoKeyLen (Ext.m_config s))) h.
Proof.
  intros (_ & Hv & He) Hn Hs. unfold Ext.hs_base. destruct (Z.eqb_spec (Ext.m_ConnRes_version s) HS_VERSION_UDT4); [done|].
  cbn [CHandShake.set_type CHandShake.m_iVersion CHandShake.m_iReqType]. rewrite Hv.
  change (HS_VERSION_SRT1 >? HS_VERSION_UDT4) with true. cbv iota.
  assert ((cmd =? SRT_CMD_HSRSP) && (m_tsRcvPeerStartTime (Ext.st s) =? 0) = false) as E.
  { destruct Hs as [Hs|Hs]; apply Z.eqb_neq in Hs; rewrite Hs; [done|apply andb_false_r]. }
  rewrite <- andb_assoc, E, andb_false_r. by destruct h.
Qed.

(** ** The packet of a handshake, and its reception *)

Definition packet_of (cmd : Z) (s : Ext.t K) (h : CHandShake.t) : list Z :=
  words_bytes (CHandShake.words (sent_hs cmd s h)) ++ enc ((cmd, hsx_words cmd s) :: plain_post cmd (Ext.m_config s)).

Lemma create_plain cmd srtkm kmdata h buf (s : Ext.t K) :
  plain (Ext.m_config s) -> conclusion h -> hs_buffer buf -> Ext.m_ConnRes_version s <> HS_VERSION_UDT4 ->
  hsx_ready cmd s -> (cmd = SRT_CMD_HSREQ -> Ext.m_SrtHsSide s <> HSD_RESPONDER) ->
  made (Ext.createSrtHandshake cmd srtkm kmdata 0 buf h s) = Some (packet_of cmd s h, hsx_state cmd s).
Proof.
  intros Hp Hh Hb Hn Hr Hside. pose proof Hp as (Hc & Hk & _). unfold made, Ext.createSrtHandshake. cbv zeta.
  rewrite hs_base_plain by (done || (destruct Hr as [->|(_ & Hs & _)]; [by left|by right])).
  pose proof Hh as (Hw & Hv & He). cbn [CHandShake.set_type CHandShake.m_extension]. rewrite He. cbn [negb].
  assert ((cmd =? SRT_CMD_HSREQ) && bool_decide (Ext.m_SrtHsSide s = HSD_RESPONDER) = false) as ->.
  { destruct (Z.eqb_spec cmd SRT_CMD_HSREQ) as [E|_]; [|done]. by rewrite bool_decide_eq_false_2 by auto. }
  rewrite hs_flags_plain by done.
  change (CHandShake.set_type _ (CHandShake.set_type _ h)) with (sent_hs cmd s h).
  destruct (config_blocks (sent_hs cmd s h) buf cmd s (sent_hs_wf cmd s h Hw) Hb Hc Hr) as (c & Hwr & Hra & _ & Eq).
  rewrite Eq. unfold Ext.have_kmreq. rewrite Hk. change (0 >? 0) with false. cbn [orb].
  rewrite (bind_run _ _ _ c (hsx_state cmd s) eq_refl), (finish_blocks _ _ _ _ _ Hwr Hra), hs_blocks_plain by done. done.
Qed.

Lemma load_packet cmd (s : Ext.t K) h :
  conclusion h -> load (packet_of cmd s h) = Some (CHandShake.set_extension false (sent_hs cmd s h)).
Proof.
  intros (Hw & _). unfold load, packet_of. rewrite load_from_app by (by apply sent_hs_wf). done.
Qed.

Lemma opt_block_ok have cmd str :
  0 <= cmd < 2 ^ 15 -> Forall is_byte str -> Z.of_nat (length str) <= 512 -> Forall block_ok (opt_block have cmd str).
Proof.
  intros Hc Hb Hl. unfold opt_block. destruct have; [|by apply Forall_nil]. apply Forall_cons_2; [|by apply Forall_nil].
  split; [done|]. cbn [snd]. split; [rewrite length_str_words; zlia|by apply str_words_range].
Qed.

Lemma plain_blocks_ok cmd (s : Ext.t K) :
  plain (Ext.m_config s) -> hsx_ready cmd s -> Forall block_ok ((cmd, hsx_words cmd s) :: plain_post cmd (Ext.m_config s)).
Proof.
  intros (Hc & _) Hr. destruct (hsx_words_ok cmd s Hc Hr) as [Hu Hl].
  destruct Hc as (_ & _ & _ & [Ls Bs] & [Lc Bc] & _). unfold MAX_SID_LENGTH, MAX_CONG_LENGTH in *.
  apply Forall_cons_2.
  - split; [destruct Hr as [->|(-> & _)]; split; vm_compute; congruence|]. cbn [snd]. rewrite Hl. split; [lia|done].
  - apply Forall_app. split; apply opt_block_ok; try done; try lia; split; vm_compute; congruence.
Qed.

(** The stream ID a request carries. *)
Definition with_sid (cmd : Z) (c : CSrtConfig) (s : Ext.t K) : Ext.t K :=
  if Ext.have_sid cmd c then Ext.set_config (set_StreamName (Ext.decode_sid (pad4 (sStreamName c))) (Ext.m_config s)) s else s.

Lemma have_congctl_agreed c : plain c -> if Ext.have_congctl c then agreed c = sCongestion c /\ agreed c <> str_live
  else agreed c = str_live.
Proof.
  intros _. unfold Ext.have_congctl, agreed. destruct (decide (sCongestion c = [])) as [E|E].
  - by rewrite bool_decide_eq_true_2.
  - rewrite bool_decide_eq_false_2 by done. cbn [negb andb].
    destruct (bool_decide_reflect (sCongestion c = str_live)) as [E'|E']; cbn [negb]; [done|by split].
Qed.

Lemma config_stage cmd cs ws (s : Ext.t K) :
  plain cs -> cmd = SRT_CMD_HSREQ \/ cmd = SRT_CMD_HSRSP ->
  CryptoSecret_len (Ext.m_config s) = 0 -> sPacketFilterConfig (Ext.m_config s) = [] ->
  (have ← (if decide (plain_post cmd cs = []) then mret (false, false)
           else config_run (agreed cs) ((cmd, ws) :: plain_post cmd cs) (false, false));
   Ext.post_checks false (agreed cs) have;; mret []) s = Some (Some (@nil Z), with_sid cmd cs s).
Proof.
  intros Hp Hcmd Hk Hf. pose proof (have_congctl_agreed cs Hp) as Ha.
  destruct Hp as (Hc & _ & _ & Hz & _). destruct Hc as (_ & _ & _ & [Ls Bs] & [Lc Bc] & _).
  assert (forall s', CryptoSecret_len (Ext.m_config s') = 0 -> sPacketFilterConfig (Ext.m_config s') = [] ->
            Ext.post_checks false (agreed cs) (Ext.have_congctl cs, false) s' = Some (Some tt, s')) as Hpost.
  { intros s' Hk' Hf'. unfold Ext.post_checks, mbind, Ext.HM_bind, Ext.hget. rewrite Hk', Hf'.
    change (0 >? 0) with false. cbn [negb andb snd fst]. rewrite (bool_decide_eq_true_2 ([] = [])) by done. cbn [negb andb].
    destruct (Ext.have_congctl cs); [by rewrite andb_false_r|]. rewrite Ha, bool_decide_eq_true_2 by done. done. }
  assert (forall m s', m s = Some (Some (Ext.have_congctl cs, false), s') ->
            CryptoSecret_len (Ext.m_config s') = 0 -> sPacketFilterConfig (Ext.m_config s') = [] ->
            (have ← m; Ext.post_checks false (agreed cs) have;; mret []) s = Some (Some (@nil Z), s')) as Hrun.
  { intros m s' E Hk' Hf'. rewrite (bind_run _ _ _ _ _ E), (bind_run _ _ _ _ _ (Hpost s' Hk' Hf')). done. }
  unfold plain_post, with_sid. pose proof (have_sid_ne cmd cs) as Hsn. pose proof (have_congctl_ne cs) as Hcn.
  destruct (Ext.have_sid cmd cs), (Ext.have_congctl cs); cbn [opt_block app]; first [rewrite decide_False by done|rewrite decide_True by done];
    (apply Hrun; [|done|done]); cbn [config_run]; try done.
  - rewrite (bind_run _ _ _ _ _ (take_other _ _ _ _ _ Hcmd)), (bind_run _ _ _ _ _ (take_sid _ _ _ _ Bs (Hsn eq_refl) Ls)).
    destruct Ha as [-> _]. by rewrite (bind_run _ _ _ _ _ (take_congctl _ (false, false) _ Bc Hz (Hcn eq_refl) Lc eq_refl)).
  - by rewrite (bind_run _ _ _ _ _ (take_other _ _ _ _ _ Hcmd)), (bind_run _ _ _ _ _ (take_sid _ _ _ _ Bs (Hsn eq_refl) Ls)).
  - rewrite (bind_run _ _ _ _ _ (take_other _ _ _ _ _ Hcmd)).
    destruct Ha as [-> _]. by rewrite (bind_run _ _ _ _ _ (take_congctl _ (false, false) _ Bc Hz (Hcn eq_refl) Lc eq_refl)).
Qed.

Definition with_live (s : Ext.t K) : Ext.t K :=
  if decide (sCongestion (Ext.m_config s) = []) then Ext.set_config (set_Congestion str_live (Ext.m_config s)) s else s.

(** A party takes the packet of another that uses the same congestion control. *)
Lemma receive_plain now ts cmd (ss : Ext.t K) h out (rs : Ext.t K) e :
  plain (Ext.m_config ss) -> conclusion h -> hsx_ready cmd ss ->
  CryptoSecret_len (Ext.m_config rs) = 0 -> sPacketFilterConfig (Ext.m_config rs) = [] ->
  agreed (Ext.m_config rs) = agreed (Ext.m_config ss) ->
  (if cmd =? SRT_CMD_HSREQ then Ext.take_HSREQ now ts (enc ((cmd, hsx_words cmd ss) :: plain_post cmd (Ext.m_config ss))) 0 3
   else Ext.take_HSRSP now ts (enc ((cmd, hsx_words cmd ss) :: plain_post cmd (Ext.m_config ss))) 0 3) rs
    = Some (Some tt, Ext.set_st e rs) ->
  taken (Ext.interpretSrtHandshake now (CHandShake.set_extension false (sent_hs cmd ss h)) ts (packet_of cmd ss h) out rs)
  = Some ([], with_sid cmd (Ext.m_config ss) (with_live (Ext.set_st e rs))).
Proof.
  intros Hp Hh Hr Hk Hf Ha Ht. pose proof Hp as (Hc & _). pose proof Hh as (Hw & Hv & _).
  assert (cmd = SRT_CMD_HSREQ \/ cmd = SRT_CMD_HSRSP) as Hcmd by (destruct Hr as [->|(-> & _)]; auto).
  unfold taken, packet_of. rewrite interpret_blocks.
  - rewrite (bind_run _ _ _ _ _ Ht). rewrite (bind_run _ _ _ tt (with_live (Ext.set_st e rs)) eq_refl).
    rewrite (bind_run _ _ _ (with_live (Ext.set_st e rs)) (with_live (Ext.set_st e rs)) eq_refl). cbv zeta.
    assert (sCongestion (Ext.m_config (with_live (Ext.set_st e rs))) = agreed (Ext.m_config ss)) as ->.
    { rewrite <- Ha. unfold with_live, agreed. cbn [Ext.set_st Ext.m_config]. by case_decide. }
    rewrite config_stage; [done|done|done|..]; unfold with_live; by case_decide.
  - done.
  - rewrite length_words_bytes, hs_words_length by (by apply sent_hs_wf). done.
  - by apply plain_blocks_ok.
  - by apply hsx_words_ok.
  - done.
  - cbn [CHandShake.set_extension sent_hs CHandShake.set_type CHandShake.m_iType].
    pose proof (pbk_range (Ext.m_config ss)) as P. pose proof (flag_word_range cmd (Ext.m_config ss)) as F.
    destruct (two_unwrap (pbk (Ext.m_config ss)) (flag_word cmd (Ext.m_config ss))) as (Hu & _ & E); [lia|done|].
    rewrite u32_id by done. exact E.
Qed.

(** ** The flags read back *)

Lemma hsreq_flag_bits c drop :
  let f := hsreq_flags c drop in
  IsSet f SRT_OPT_TSBPDSND = bTSBPD c /\ IsSet f SRT_OPT_TSBPDRCV = bTSBPD c
  /\ IsSet f SRT_OPT_TLPKTDROP = bTSBPD c && drop /\ IsSet f SRT_OPT_NAKREPORT = bRcvNakReport c
  /\ IsSet f SRT_OPT_REXMITFLG = true /\ negb (IsSet f SRT_OPT_STREAM) = bMessageAPI c.
Proof. unfold hsreq_flags. destruct (bMessageAPI c), (bRcvNakReport c), (bTSBPD c), drop; vm_compute; auto 10. Qed.

Lemma hsrsp_flag_bits c drop e :
  let f := hsrsp_flags c drop e in
  IsSet f SRT_OPT_TSBPDSND = m_bPeerTsbPd e /\ IsSet f SRT_OPT_TSBPDRCV = bTSBPD c
  /\ IsSet f SRT_OPT_TLPKTDROP = drop && negb (bRcvNakReport c && (m_uPeerSrtVersion e <=? SrtVersion 1 0 7))
  /\ IsSet f SRT_OPT_NAKREPORT = bRcvNakReport c
  /\ IsSet f SRT_OPT_REXMITFLG = (uSrtVersion c >=? SrtVersion 1 2 0) && m_bPeerRexmitFlag e.
Proof.
  unfold hsrsp_flags. destruct (bTSBPD c), (m_bPeerTsbPd e), drop, (bRcvNakReport c), (m_uPeerSrtVersion e <=? SrtVersion 1 0 7),
    (uSrtVersion c >=? SrtVersion 1 2 0), (m_bPeerRexmitFlag e); vm_compute; auto 10.
Qed.

(** ** The exchange *)

(** Nothing is known of the peer yet. *)
Definition fresh (e : settled) : Prop :=
  m_tsRcvPeerStartTime e = 0 /\ m_bTsbPd e = false /\ m_bPeerTsbPd e = false /\ m_bPeerTLPktDrop e = false
  /\ m_bPeerNakReport e = false /\ m_bPeerRexmitFlag e = false.

(** Two parties whose options can be reconciled. *)
Definition compatible (ci cr : CSrtConfig) : Prop :=
  plain ci /\ plain cr /\ uMinimumPeerSrtVersion ci <= uSrtVersion cr /\ uMinimumPeerSrtVersion cr <= uSrtVersion ci
  /\ bMessageAPI ci = bMessageAPI cr /\ agreed ci = agreed cr.

(** A stream ID whose padding can be told from its characters. *)
Definition sid_ok (sid : list Z) : Prop := sid = [] \/ exists str c, sid = str ++ [c] /\ c <> 0 /\ str <> [].

(** The exchange's parts: what the responder settles from the request, and the
    initiator from the response. *)
Definition responder_settled (start : Z) (si sr : Ext.t K) : settled :=
  let ci := Ext.m_config si in
  settle_req start (uSrtVersion ci) (hsreq_flags ci (Ext.m_bTLPktDrop si))
    (if bTSBPD ci then two (iRcvLatency ci) (iPeerLatency ci) else 0) (Ext.m_config sr) (Ext.st sr).

Definition initiator_settled (start : Z) (er : settled) (si1 sr1 : Ext.t K) : settled :=
  let cr := Ext.m_config sr1 in
  settle_rsp start (uSrtVersion cr) (hsrsp_flags cr (Ext.m_bTLPktDrop sr1) er)
    (two (if bTSBPD cr then m_iTsbPdDelay_ms er else 0) (if m_bPeerTsbPd er then m_iPeerTsbPdDelay_ms er else 0))
    (Ext.m_config si1) (Ext.st si1).

Lemma delay_max a b : delay_ok a -> delay_ok b -> delay_ok (Z.max a b).
Proof. unfold delay_ok. lia. Qed.

Lemma two_delays a b : delay_ok a -> delay_ok b ->
  Bits.unwrap SRT_HS_LATENCY_RCV (two a b) = a /\ Bits.unwrap SRT_HS_LATENCY_SND (two a b) = b.
Proof. intros Ha Hb. by apply two_unwrap. Qed.

Lemma responder_delays start si sr :
  cfg_ok (Ext.m_config si) -> cfg_ok (Ext.m_config sr) ->
  let ci := Ext.m_config si in
  let cr := Ext.m_config sr in
  let e := responder_settled start si sr in
  m_iTsbPdDelay_ms e = (if bTSBPD ci && bTSBPD cr then Z.max (iRcvLatency cr) (iPeerLatency ci) else iRcvLatency cr)
  /\ m_iPeerTsbPdDelay_ms e = (if bTSBPD ci then Z.max (iPeerLatency cr) (iRcvLatency ci) else iPeerLatency cr)
  /\ delay_ok (m_iTsbPdDelay_ms e) /\ delay_ok (m_iPeerTsbPdDelay_ms e).
Proof.
  intros (_ & Hr & Hp & _) (_ & Hr' & Hp' & _). cbv zeta. unfold responder_settled, settle_req. cbv zeta.
  destruct (hsreq_flag_bits (Ext.m_config si) (Ext.m_bTLPktDrop si)) as (-> & -> & _).
  cbn [m_iTsbPdDelay_ms m_iPeerTsbPdDelay_ms].
  destruct (two_delays _ _ Hr Hp) as [E1 E2]. destruct (bTSBPD (Ext.m_config si)), (bTSBPD (Ext.m_config sr)); cbn [andb];
    rewrite ?E1, ?E2; auto using delay_max.
Qed.

Section Run.

Context (now_r ts_i now_i ts_r : Z) (hi hr : CHandShake.t) (buf : list Z) (si sr : Ext.t K).
Context (Hci : conclusion hi) (Hcr : conclusion hr) (Hbuf : hs_buffer buf).
Context (Hcompat : compatible (Ext.m_config si) (Ext.m_config sr)) (Hstart : now_r - ts_i <> 0).
Context (Hvi : Ext.m_ConnRes_version si <> HS_VERSION_UDT4) (Hvr : Ext.m_ConnRes_version sr <> HS_VERSION_UDT4).
Context (Hside : Ext.m_SrtHsSide si <> HSD_RESPONDER).

Let er : settled := responder_settled (now_r - ts_i) si sr.
Let sr1 : Ext.t K := with_sid SRT_CMD_HSREQ (Ext.m_config si) (with_live (Ext.set_st er sr)).

(** The options the responder's answer is made of are its own. *)
Lemma responder_config :
  plain (Ext.m_config sr1) -> bTSBPD (Ext.m_config sr1) = bTSBPD (Ext.m_config sr)
  /\ uSrtVersion (Ext.m_config sr1) = uSrtVersion (Ext.m_config sr)
  /\ bRcvNakReport (Ext.m_config sr1) = bRcvNakReport (Ext.m_config sr) /\ Ext.m_bTLPktDrop sr1 = Ext.m_bTLPktDrop sr.
Proof using Type.
  intros _. unfold sr1, with_sid, with_live. destruct (Ext.have_sid _ _); case_decide; cbn; auto.
Qed.

Lemma decode_bounds str :
  Forall is_byte str -> Z.of_nat (length str) <= MAX_SID_LENGTH ->
  Z.of_nat (length (Ext.decode_sid (pad4 str))) <= MAX_SID_LENGTH /\ Forall is_byte (Ext.decode_sid (pad4 str)).
Proof using Type.
  intros Hb Hl. unfold Ext.decode_sid. split; [|apply Forall_take; by apply pad4_bytes].
  rewrite length_take, length_pad4. unfold MAX_SID_LENGTH in *. zlia.
Qed.

Lemma plain_sr1 : plain (Ext.m_config sr1).
Proof using Hcompat.
  destruct Hcompat as ((Hi & _) & (Hr & Hrest) & _). destruct Hi as (_ & _ & _ & [Ls Bs] & _).
  pose proof (decode_bounds _ Bs Ls) as Hd. unfold sr1, with_sid, with_live.
  assert (plain (Ext.m_config sr)) as Hp by (by split).
  assert (plain (set_Congestion str_live (Ext.m_config sr))) as Hp'.
  { destruct Hr as (H1 & H2 & H3 & H4 & _ & H6). destruct Hrest as (K1 & K2 & _ & K4). unfold plain, cfg_ok. cbn. repeat split; try apply H1; try apply H2;
      try apply H3; try apply H4; try apply H6; try done; try (repeat apply Forall_cons_2; try done; unfold is_byte; lia). }
  destruct (Ext.have_sid _ _); case_decide; cbn [Ext.m_config Ext.set_config Ext.set_st]; try done.
  - destruct Hp' as ((H1 & H2 & H3 & _ & H5) & Hx). split; [|exact Hx]. repeat split; try apply H1; try apply H2; try apply H3; try apply Hd; try apply H5.
  - destruct Hp as ((H1 & H2 & H3 & _ & H5) & Hx). split; [|exact Hx]. repeat split; try apply H1; try apply H2; try apply H3; try apply Hd; try apply H5.
Qed.

(** The responder's side of the exchange. *)
Lemma responder_receives :
  taken (Ext.interpretSrtHandshake now_r (CHandShake.set_extension false (sent_hs SRT_CMD_HSREQ si hi)) ts_i
           (packet_of SRT_CMD_HSREQ si hi) true sr) = Some ([], sr1).
Proof using Hci Hcompat.
  destruct Hcompat as (Hpi & Hpr & Hmi & Hmr & Hapi & Hag).
  assert (hsx_ready SRT_CMD_HSREQ si) as Hready by (by left).
  destruct (hsx_words_ok SRT_CMD_HSREQ si (proj1 Hpi) Hready) as [Hu _].
  destruct (hsreq_flag_bits (Ext.m_config si) (Ext.m_bTLPktDrop si)) as (_ & _ & _ & _ & _ & Hst).
  pose proof Hpi as (_ & _ & _ & _ & Hv). pose proof Hpr as (_ & Hk & Hf & _).
  apply receive_plain; try done. change (SRT_CMD_HSREQ =? SRT_CMD_HSREQ) with true. cbv iota.
  change (hsx_words SRT_CMD_HSREQ si) with (hsreq_words si) in *. unfold hsreq_words in *. cbv zeta in *.
  apply take_HSREQ_ok; [done|]. split; [done|]. split; [done|]. by rewrite Hst.
Qed.

(** The initiator's state when the request is sent, and after the response. *)
Let si1 : Ext.t K := hsreq_state si.

Let ei : settled := initiator_settled (now_i - ts_r) er si1 sr1.

Lemma st_sr1 : Ext.st sr1 = er.
Proof using Type. unfold sr1, with_sid, with_live. destruct (Ext.have_sid _ _); by case_decide. Qed.

Lemma config_si1 : Ext.m_config si1 = Ext.m_config si.
Proof using Type. unfold si1, hsreq_state. cbv zeta.
  destruct (bTSBPD (Ext.m_config si)); done. Qed.

Lemma ready_sr1 : hsx_ready SRT_CMD_HSRSP sr1.
Proof using Hcompat Hstart.
  right. split; [done|]. rewrite st_sr1. destruct Hcompat as ((Hi & _) & (Hr & _) & _).
  destruct (responder_delays (now_r - ts_i) si sr Hi Hr) as (_ & _ & Hd & Hp). auto.
Qed.

Lemma agreed_ne c : agreed c <> [].
Proof using Type. unfold agreed. by case_decide. Qed.

Lemma agreed_sr1 : agreed (Ext.m_config sr1) = agreed (Ext.m_config sr).
Proof using Type.
  assert (sCongestion (Ext.m_config sr1) = agreed (Ext.m_config sr)) as E.
  { unfold sr1, with_sid, with_live, agreed. cbn [Ext.set_st Ext.m_config]. destruct (Ext.have_sid _ _); by case_decide. }
  unfold agreed at 1. rewrite E. rewrite decide_False; [done|]. apply agreed_ne.
Qed.

Lemma initiator_receives :
  taken (Ext.interpretSrtHandshake now_i (CHandShake.set_extension false (sent_hs SRT_CMD_HSRSP sr1 hr)) ts_r
           (packet_of SRT_CMD_HSRSP sr1 hr) false si1) = Some ([], with_live (Ext.set_st ei si1)).
Proof using Hcr Hcompat Hstart.
  destruct Hcompat as (Hpi & Hpr & Hmi & Hmr & Hapi & Hag). pose proof Hpi as (_ & Hk & Hf & _).
  destruct (responder_config plain_sr1) as (_ & Ev & _).
  destruct (hsx_words_ok SRT_CMD_HSRSP sr1 (proj1 plain_sr1) ready_sr1) as [Hu _].
  rewrite (receive_plain now_i ts_r SRT_CMD_HSRSP sr1 hr false si1 ei); [done|apply plain_sr1|done|apply ready_sr1|..];
    rewrite ?config_si1; [done|done|by rewrite agreed_sr1|].
  change (SRT_CMD_HSRSP =? SRT_CMD_HSREQ) with false. cbv iota.
  change (hsx_words SRT_CMD_HSRSP sr1) with (hsrsp_words sr1) in *. unfold hsrsp_words in *. cbv zeta in *.
  rewrite st_sr1 in *. rewrite take_HSRSP_ok; [done|done|]. rewrite config_si1. lia.
Qed.

Lemma negotiate_run :
  negotiate now_r ts_i now_i ts_r hi hr buf si sr = Some (with_live (Ext.set_st ei si1), sr1).
Proof using Hci Hcr Hbuf Hcompat Hstart Hvi Hvr Hside.
  pose proof Hcompat as (Hpi & Hpr & _). unfold negotiate. rewrite create_plain by (done || by left).
  cbn [mbind option_bind]. rewrite load_packet by done. cbn [mbind option_bind].
  rewrite responder_receives. cbn [mbind option_bind length Z.of_nat].
  assert (Ext.m_ConnRes_version sr1 = Ext.m_ConnRes_version sr) as Ev
    by (unfold sr1, with_sid, with_live; destruct (Ext.have_sid _ _); by case_decide).
  rewrite create_plain; [|apply plain_sr1|done|done|by rewrite Ev|apply ready_sr1|done].
  cbn [mbind option_bind]. rewrite load_packet by done. cbn [mbind option_bind].
  change (hsx_state SRT_CMD_HSRSP sr1) with sr1. change (hsx_state SRT_CMD_HSREQ si) with si1.
  rewrite initiator_receives. done.
Qed.

End Run.


Lemma responder_fields start si sr :
  fresh (Ext.st sr) ->
  let ci := Ext.m_config si in
  let e := responder_settled start si sr in
  m_bTsbPd e = bTSBPD ci && bTSBPD (Ext.m_config sr) /\ m_bPeerTsbPd e = bTSBPD ci
  /\ m_bPeerTLPktDrop e = bTSBPD ci && Ext.m_bTLPktDrop si /\ m_bPeerNakReport e = bRcvNakReport ci
  /\ m_bPeerRexmitFlag e = true /\ m_uPeerSrtVersion e = uSrtVersion ci.
Proof.
  intros (_ & G2 & G3 & G4 & G5 & _). cbv zeta. unfold responder_settled, settle_req. cbv zeta.
  destruct (hsreq_flag_bits (Ext.m_config si) (Ext.m_bTLPktDrop si)) as (-> & -> & -> & -> & -> & _).
  cbn. rewrite G2, G3, G4, G5, !orb_false_r. done.
Qed.

(** Since version 1.3.0, every feature's version check passes. *)
Lemma since_130 v : SRT_VERSION_FEAT_HSv5 <= v ->
  (v >=? SrtVersion 1 0 5) = true /\ (v >=? SrtVersion 1 1 0) = true /\ (v >=? SrtVersion 1 2 0) = true
  /\ (v <=? SrtVersion 1 0 7) = false.
Proof.
  intros Hv. unfold SRT_VERSION_FEAT_HSv5, SrtVersion in *. rewrite !Z.geb_leb.
  repeat split; try apply Z.leb_le; try apply Z.leb_gt; lia.
Qed.

Lemma initiator_fields start er si sr1 :
  fresh (Ext.st si) -> SRT_VERSION_FEAT_HSv5 <= uSrtVersion (Ext.m_config si) ->
  SRT_VERSION_FEAT_HSv5 <= uSrtVersion (Ext.m_config sr1) -> SRT_VERSION_FEAT_HSv5 <= m_uPeerSrtVersion er ->
  delay_ok (m_iTsbPdDelay_ms er) -> delay_ok (m_iPeerTsbPdDelay_ms er) -> m_bPeerRexmitFlag er = true ->
  m_bPeerTsbPd er = bTSBPD (Ext.m_config si) ->
  let ci := Ext.m_config si in
  let cr := Ext.m_config sr1 in
  let e := initiator_settled start er (hsreq_state si) sr1 in
  (m_bTsbPd e = bTSBPD ci /\ m_bPeerTsbPd e = bTSBPD cr)
  /\ (bTSBPD ci = true -> m_iTsbPdDelay_ms e = m_iPeerTsbPdDelay_ms er)
  /\ (bTSBPD cr = true -> m_iPeerTsbPdDelay_ms e = m_iTsbPdDelay_ms er)
  /\ m_bPeerNakReport e = bRcvNakReport cr /\ m_bPeerTLPktDrop e = Ext.m_bTLPktDrop sr1 /\ m_bPeerRexmitFlag e = true
  /\ m_uPeerSrtVersion e = uSrtVersion cr.
Proof.
  intros (_ & F2 & F3 & F4 & F5 & F6) Hvi Hvr Hve O1 O2 Hrx Hpt. cbv zeta. unfold initiator_settled, settle_rsp. cbv zeta.
  rewrite config_si1. destruct (hsrsp_flag_bits (Ext.m_config sr1) (Ext.m_bTLPktDrop sr1) er) as (-> & -> & -> & -> & ->).
  destruct (since_130 _ Hvi) as (-> & -> & -> & _). destruct (since_130 _ Hvr) as (_ & _ & -> & _).
  destruct (since_130 _ Hve) as (_ & _ & _ & ->). rewrite Hrx, Hpt.
  assert (m_bTsbPd (Ext.st (hsreq_state si)) = false /\ m_bPeerTsbPd (Ext.st (hsreq_state si)) = false
          /\ m_bPeerTLPktDrop (Ext.st (hsreq_state si)) = false /\ m_bPeerNakReport (Ext.st (hsreq_state si)) = false
          /\ m_bPeerRexmitFlag (Ext.st (hsreq_state si)) = false) as (-> & -> & -> & -> & ->).
  { unfold hsreq_state. cbv zeta. destruct (bTSBPD (Ext.m_config si)); cbn; auto. }
  cbn [m_bTsbPd m_bPeerTsbPd m_iTsbPdDelay_ms m_iPeerTsbPdDelay_ms m_bPeerNakReport m_bPeerTLPktDrop m_bPeerRexmitFlag
    m_uPeerSrtVersion andb negb]. rewrite ?andb_false_r, ?orb_false_r, ?andb_diag. cbn [negb]. rewrite ?andb_true_r.
  assert (delay_ok 0) as D0 by (unfold delay_ok; lia).
  split; [done|]. split; [|split; [|done]].
  - intros ->. destruct (bTSBPD (Ext.m_config sr1)); by apply two_delays.
  - intros ->. destruct (bTSBPD (Ext.m_config si)); by apply two_delays.
Qed.

(** The stream ID the responder ends up with. *)
Lemma responder_sid c (s : Ext.t K) :
  sid_ok (sStreamName c) ->
  sStreamName (Ext.m_config (with_sid SRT_CMD_HSREQ c (with_live s)))
  = if decide (sStreamName c = []) then sStreamName (Ext.m_config s) else sStreamName c.
Proof.
  intros Hs. unfold with_sid, Ext.have_sid. change (SRT_CMD_HSREQ =? SRT_CMD_HSREQ) with true. cbn [andb].
  destruct (decide (sStreamName c = [])) as [E|E].
  - rewrite bool_decide_eq_true_2 by done. cbn [negb]. unfold with_live. by case_decide.
  - rewrite bool_decide_eq_false_2 by done. cbn [negb]. destruct Hs as [Hs|(str & x & Es & Hx & Hne)]; [done|].
    cbn [Ext.set_config Ext.m_config set_StreamName sStreamName]. rewrite Es. by apply decode_pad4.
Qed.


End Exchange.

(** ** The other properties *)

(** The fixed part comes through. Every handshake with fields of their
    width is stored into a buffer of at least 48 bytes, the bytes after the
    first 48 are left alone, and loading the packet gives every field back; a
    shorter buffer or packet is refused without an access to it. *)
Theorem hs_fixed_roundtrip (h h0 : CHandShake.t) (buf : list Z) :
  CHandShake.wf h ->
  (if Z.of_nat (length buf) <? CHandShake.m_iContentSize then
     CHandShake.store_to h buf (Z.of_nat (length buf)) = Some (-1, buf, Z.of_nat (length buf))
     /\ CHandShake.load_from h0 buf (Z.of_nat (length buf)) = Some (-1, h0)
   else exists buf', CHandShake.store_to h buf (Z.of_nat (length buf)) = Some (0, buf', 48)
     /\ drop 48 buf' = drop 48 buf /\ length buf' = length buf
     /\ CHandShake.load_from h0 buf' (Z.of_nat (length buf'))
        = Some (0, CHandShake.set_extension (CHandShake.m_extension h0) h)).
Proof.
  intros Hw. destruct (Z.ltb_spec (Z.of_nat (length buf)) CHandShake.m_iContentSize) as [Hl|Hl].
  - unfold CHandShake.store_to, CHandShake.load_from. apply Z.ltb_lt in Hl. by rewrite Hl.
  - change CHandShake.m_iContentSize with 48 in Hl.
    assert (length (take 48 buf) = 48%nat) as Lt by (rewrite length_take; lia).
    pose proof (store_to_app h (take 48 buf) (drop 48 buf) Hw Lt) as Hs. rewrite take_drop in Hs.
    assert (length (words_bytes (CHandShake.words h)) = 48%nat) as Lw by (by rewrite length_words_bytes, hs_words_length).
    eexists. split; [exact Hs|]. rewrite <- Lw at 1. rewrite drop_app_length. split; [done|].
    split; [rewrite length_app, length_drop; lia|by apply load_from_app].
Qed.

Lemma init_wf : CHandShake.wf CHandShake.init.
Proof.
  unfold CHandShake.wf, is_i32. cbn [CHandShake.init CHandShake.m_iVersion CHandShake.m_iType CHandShake.m_iISN CHandShake.m_iMSS
    CHandShake.m_iFlightFlagSize CHandShake.m_iReqType CHandShake.m_iID CHandShake.m_iCookie CHandShake.m_piPeerIP].
  unfold URQ_WAVEAHAND. do 8 (split; [lia|]). split; [done|]. repeat apply Forall_cons_2; try (unfold is_u32; lia). by apply Forall_nil.
Qed.

Lemma hs_fixed_roundtrip_witness :
  CHandShake.wf CHandShake.init
  /\ exists buf', CHandShake.store_to CHandShake.init (replicate 50 7) 50 = Some (0, buf', 48) /\ drop 48 buf' = [7; 7].
Proof.
  assert (CHandShake.wf CHandShake.init) as Hw.
  { exact init_wf. }
  split; [exact Hw|].
  destruct (hs_fixed_roundtrip CHandShake.init CHandShake.init (replicate 50 7) Hw) as (buf' & E & D & _).
  exists buf'. split; [exact E|exact D].
Defined.

(** C19: The extension blocks come through. The extensions extracted from a
    handshake packet made of any list of blocks (commands of 15 bits, at most
    65535 words each) are exactly these blocks, in their order; and from any
    packet of at least 48 bytes the extraction ends and reads only inside it. *)
Theorem hs_extensions_roundtrip (hdr : list Z) (bs : list block) (data : list Z) :
  length hdr = 48%nat -> Forall block_ok bs -> 48 <= Z.of_nat (length data) ->
  Ext.SrtExtractHandshakeExtensions (hdr ++ enc bs) = Some (map ext_of bs)
  /\ exists r, Ext.SrtExtractHandshakeExtensions data = Some r.
Proof. intros Hh Hok Hd. split; [by apply extract_enc|by apply extract_total]. Qed.

Lemma hs_extensions_roundtrip_witness :
  Ext.SrtExtractHandshakeExtensions (replicate 48 0 ++ enc [(SRT_CMD_HSREQ, [0x10500; 0xBF; 0x780078]); (SRT_CMD_SID, [0x6161])])
  = Some [Ext.mkExt 1 [0x10500; 0xBF; 0x780078]; Ext.mkExt 5 [0x6161]]
  /\ exists r, Ext.SrtExtractHandshakeExtensions (replicate 55 255) = Some r.
Proof.
  apply (hs_extensions_roundtrip (replicate 48 0) [(SRT_CMD_HSREQ, [0x10500; 0xBF; 0x780078]); (SRT_CMD_SID, [0x6161])] (replicate 55 255)).
  - reflexivity.
  - repeat apply Forall_cons_2; try apply Forall_nil_2;
      (split; [split; vm_compute; congruence|split; [vm_compute; congruence|]]);
      repeat apply Forall_cons_2; try apply Forall_nil_2; split; vm_compute; congruence.
  - vm_compute. congruence.
Defined.

Section More.

Context {K : Type} `{!Peripherals K}.

(** C17: Any packet is interpreted safely. Whatever the bytes of a handshake
    packet, the fields of its fixed part and the caller, and whatever the key
    exchange and the packet filter answer, [interpretSrtHandshake] ends, reads
    only inside the packet, and either accepts or rejects. *)
Theorem hs_interpret_total (now : Z) (hs : CHandShake.t) (ts : Z) (data : list Z) (out : bool) (s : Ext.t K) :
  Ext.m_pCryptoControl s <> None ->
  exists r s', Ext.interpretSrtHandshake now hs ts data out s = Some (r, s') /\ Ext.m_pCryptoControl s' <> None.
Proof. apply safe_interpret. Qed.

(** The key blocks [createSrtHandshake] adds. *)
Definition km_part (s : Ext.t K) (k : K) (srtkm_cmd : Z) (kmdata : list Z) : list block :=
  if Ext.have_kmreq (Ext.m_config s) (Z.of_nat (length kmdata))
  then if srtkm_cmd =? SRT_CMD_KMREQ then kmreq_blocks k else [(SRT_CMD_KMRSP, kmrsp_words kmdata)] else [].

Definition km_left (s : Ext.t K) (k : K) (srtkm_cmd : Z) (kmdata : list Z) (s1 : Ext.t K) : Ext.t K :=
  if Ext.have_kmreq (Ext.m_config s) (Z.of_nat (length kmdata))
  then if srtkm_cmd =? SRT_CMD_KMREQ then s1 else kmrsp_state kmdata k s1 else s1.


(** ** Where the interpretation falls short *)

(** A stream ID of one character arrives with three NUL characters: the search
    for the last character never looks at the first position. *)
Lemma sid_one_char (agsm : list Z) (c : Z) (have : bool * bool) (s : Ext.t K) :
  is_byte c ->
  exists mem, Ext.fillHsExtConfigString 0 SRT_CMD_SID [c] (replicate 8 0) = Some (1, mem)
    /\ Ext.take_config SRT_CMD_SID agsm mem 0 1 have s
       = Some (Some have, Ext.set_config (set_StreamName [c; 0; 0; 0] (Ext.m_config s)) s).
Proof.
  intros Hc. assert (Forall is_byte [c]) as Hb by (apply Forall_cons_2; [done|by apply Forall_nil]).
  exists (enc [(SRT_CMD_SID, str_words [c])]). split.
  - pose proof (config_string_app 0 SRT_CMD_SID [c] [] (replicate 8 0) [] Hb) as E. cbn [app] in E. rewrite !app_nil_r in E.
    by apply E.
  - pose proof (take_sid agsm [c] have s Hb) as E. rewrite decode_pad4_one in E. apply E; [done|vm_compute; congruence].
Qed.

(** A party with a passphrase and without enforced encryption accepts a peer
    without one whatever the congestion controls; without the passphrase it
    rejects a peer that does not declare a congestion control other than live. *)
Lemma secret_skips_congctl (agsm : list Z) (s : Ext.t K) (k : K) :
  bEnforcedEnc (Ext.m_config s) = false -> Ext.m_pCryptoControl s = Some k -> agsm <> str_live ->
  if CryptoSecret_len (Ext.m_config s) >? 0
  then exists s', Ext.post_checks false agsm (false, false) s = Some (Some tt, s')
  else Ext.post_checks false agsm (false, false) s = Some (None, Ext.set_reject SRT_REJ_CONGESTION s).
Proof.
  intros He Hk Ha. unfold Ext.post_checks. rewrite (bind_run _ _ s s s eq_refl). cbv zeta.
  rewrite He, (bool_decide_eq_false_2 (agsm = str_live)) by done.
  destruct (CryptoSecret_len (Ext.m_config s) >? 0); [|done]. cbn [negb andb].
  rewrite (bind_run _ _ s k s); [by eexists|]. unfold Ext.hcrypto. rewrite (bind_run _ _ s s s eq_refl). unfold Ext.hlift. by rewrite Hk.
Qed.

(** A handshake that declares the HSREQ extension but whose last block is
    another one is accepted without any HSREQ. *)
Lemma hsreq_missing_accepted now ts cmd ws (s : Ext.t K) :
  block_ok (cmd, ws) -> cmd <> SRT_CMD_HSREQ -> cmd <> SRT_CMD_HSRSP ->
  Ext.hsreq_loop 1 now ts (enc [(cmd, ws)]) 0 (wsz [(cmd, ws)]) 0 None s = Some (Some tt, s).
Proof.
  intros Hok H1 H2. cbn [Ext.hsreq_loop]. pose proof (find_block [] cmd ws [] 0 None Hok) as E. cbn [app] in E.
  change (wsz []) with 0 in E. unfold mbind, Ext.HM_bind, Ext.hlift. rewrite E. cbn [mbind option_bind].
  destruct Hok as (Hc & _). cbn [fst] in Hc. apply Z.eqb_neq in H1, H2. rewrite H1, H2.
  destruct (Z.eqb_spec cmd SRT_CMD_NONE) as [E'|_]; [unfold SRT_CMD_NONE in E'; lia|done].
Qed.

End More.

(** ** A concrete exchange *)

(** No key is configured and no packet filter is known. *)
#[global] Instance no_keys : Peripherals unit := {
  hasPassphrase := fun _ => false;
  getKmMsg_size := fun _ _ => 0;
  getKmMsg_data := fun _ _ => replicate 104 0;
  m_RcvKmState := fun _ => SRT_KM_S_UNSECURED;
  m_SndKmState := fun _ => SRT_KM_S_UNSECURED;
  set_KmStates := fun _ _ k => k;
  createFakeSndContext := fun k => k;
  processSrtMsg_KMREQ := fun _ _ k => (SRT_CMD_KMRSP, [SRT_KM_S_NOSECRET], k);
  processSrtMsg_KMRSP := fun _ _ _ k => (0, k);
  checkApplyFilterConfig := fun _ _ _ => None
}.

Definition party_cfg (rcv peer : Z) (sid : list Z) : CSrtConfig :=
  mkConfig 0x10500 0x10000 true rcv peer true true false 0 0 sid [] [].

Definition fresh_st : settled := mkSettled 0 0 0 false false false false false 0 0 0.

Definition party (rcv peer : Z) (sid : list Z) (side : HandshakeSide) (ver : Z) : Ext.t unit :=
  Ext.mk (party_cfg rcv peer sid) fresh_st true SRT_REJ_UNKNOWN side ver false (Some tt).

Definition conclusion_hs : CHandShake.t := CHandShake.mk 5 0 1000 1500 8192 URQ_CONCLUSION 17 99 [1; 0; 0; 0] true.

Lemma party_plain rcv peer sid :
  delay_ok rcv -> delay_ok peer -> Forall is_byte sid -> Z.of_nat (length sid) <= 512 -> plain (party_cfg rcv peer sid).
Proof.
  intros Hr Hp Hb Hl. unfold plain, cfg_ok, party_cfg, SRT_VERSION_FEAT_HSv5, MAX_SID_LENGTH, MAX_CONG_LENGTH, MAX_PFILTER_LENGTH.
  cbn [uSrtVersion iRcvLatency iPeerLatency sStreamName sCongestion sPacketFilterConfig CryptoSecret_len length Z.of_nat].
  assert (is_u32 0x10500) by (unfold is_u32; lia).
  repeat match goal with |- _ /\ _ => split end; try done; try lia; by apply Forall_nil.
Qed.

Lemma conclusion_hs_ok : conclusion conclusion_hs.
Proof.
  split; [|done]. unfold CHandShake.wf, is_i32, conclusion_hs.
  cbn [CHandShake.m_iVersion CHandShake.m_iType CHandShake.m_iISN CHandShake.m_iMSS
    CHandShake.m_iFlightFlagSize CHandShake.m_iReqType CHandShake.m_iID CHandShake.m_iCookie CHandShake.m_piPeerIP].
  unfold URQ_CONCLUSION. do 8 (split; [lia|]). split; [done|]. repeat apply Forall_cons_2; try (unfold is_u32; lia). by apply Forall_nil.
Qed.

Lemma sid_ab_bytes : Forall is_byte [97; 98].
Proof. repeat apply Forall_cons_2; try (unfold is_byte; lia). by apply Forall_nil. Qed.


Lemma hs_interpret_total_witness :
  exists r s', Ext.interpretSrtHandshake 5000 conclusion_hs 2000 (replicate 77 255) true (party 80 200 [] HSD_DRAW 0) = Some (r, s').
Proof.
  destruct (hs_interpret_total 5000 conclusion_hs 2000 (replicate 77 255) true (party 80 200 [] HSD_DRAW 0)) as (r & s' & E & _);
    [discriminate|]. exists r, s'. exact E.
Defined.

