(* ===== verification/Rendezvous.v ===== *)
(** * The rendezvous handshake (srtcore/core.cpp: [cookieContest],
      [rendezvousSwitchState], [processRendezvous], the rendezvous part of
      [processConnectResponse], [startConnect]'s loop and [processCtrlHS])

    Two sockets connect to each other: each waves, the cookies decide which of
    them is the initiator, and a state machine on each side exchanges conclusions
    with and without the HSREQ and HSRSP extensions until both are connected.

    A socket is the state [sock]; a handshake message is its request type, its
    cookie and the extension block it carries. Both parties are of version 5,
    their handshakes' fields are valid and their options compatible, so that an
    extension that is there is accepted (Handshake.v has the extensions
    themselves); what happens when it is not there is modelled. The connection
    is synchronous, as by default: the connecting thread runs [startConnect]'s
    loop, which sends the last packet made every 250 ms. Proofs are in
    RendezvousProps.v. *)

From S2P Require Import Prelude SeqNo Packet Handshake.

Module Rdv.

(** ** The cookie contest *)

Definition compareCookies (req res : Z) : HandshakeSide :=
  if req <? res then HSD_RESPONDER else if req >? res then HSD_INITIATOR else HSD_DRAW.

Definition backwardCompatibleCookieContest (req res : Z) : HandshakeSide :=
  let xreq := i64 req in
  let xres := i64 res in
  let contest := i64 (xreq - xres) in
  if Z.land contest 0xFFFFFFFF =? 0 then HSD_DRAW
  else if negb (Z.land contest 0x80000000 =? 0) then
    let revert := i64 (xres - xreq) in
    if negb (Z.land revert 0x80000000 =? 0) && (req >? res) then HSD_INITIATOR else HSD_RESPONDER
  else HSD_INITIATOR.

(** ** Messages and sockets *)

(** [ext] is the command of the handshake's HSREQ or HSRSP block; without one
    the extension flags are 0. *)
Record handshake := mkHs { hs_req : Z; hs_cookie : Z; hs_ext : option Z }.

(** Payload stands for a data packet, a keepalive or an extension message. *)
Inductive msg := Handshake (h : handshake) | Payload | Shutdown.

Inductive RendezvousState :=
| RDV_INVALID | RDV_WAVING | RDV_ATTENTION | RDV_FINE | RDV_INITIATED | RDV_CONNECTED.

#[global] Instance RendezvousState_eq_dec : EqDecision RendezvousState.
Proof. solve_decision. Defined.

Inductive EConnectStatus := CONN_ACCEPT | CONN_REJECT | CONN_CONTINUE | CONN_RENDEZVOUS.

Record sock := mkSock {
  m_RdvState : RendezvousState;
  m_SrtHsSide : HandshakeSide;
  m_Cookie : Z;                     (* m_ConnReq.m_iCookie *)
  req_type : Z;                     (* m_ConnReq.m_iReqType *)
  req_ext : bool;                   (* m_ConnReq.m_extension *)
  m_ConnRes : option handshake;     (* the last handshake received *)
  peer_start : bool;                (* m_tsRcvPeerStartTime is set: HSREQ or HSRSP was interpreted *)
  m_bConnecting : bool;
  m_bConnected : bool;
  m_RejectReason : Z;
  reqpkt : msg                      (* the packet the connecting loop repeats *)
}.

Definition set_state (v : RendezvousState) (s : sock) : sock :=
  mkSock v (m_SrtHsSide s) (m_Cookie s) (req_type s) (req_ext s) (m_ConnRes s) (peer_start s) (m_bConnecting s) (m_bConnected s) (m_RejectReason s) (reqpkt s).
Definition set_side (v : HandshakeSide) (s : sock) : sock :=
  mkSock (m_RdvState s) v (m_Cookie s) (req_type s) (req_ext s) (m_ConnRes s) (peer_start s) (m_bConnecting s) (m_bConnected s) (m_RejectReason s) (reqpkt s).
Definition set_req (ty : Z) (ext : bool) (s : sock) : sock :=
  mkSock (m_RdvState s) (m_SrtHsSide s) (m_Cookie s) ty ext (m_ConnRes s) (peer_start s) (m_bConnecting s) (m_bConnected s) (m_RejectReason s) (reqpkt s).
Definition set_res (h : handshake) (s : sock) : sock :=
  mkSock (m_RdvState s) (m_SrtHsSide s) (m_Cookie s) (req_type s) (req_ext s) (Some h) (peer_start s) (m_bConnecting s) (m_bConnected s) (m_RejectReason s) (reqpkt s).
Definition set_start (v : bool) (s : sock) : sock :=
  mkSock (m_RdvState s) (m_SrtHsSide s) (m_Cookie s) (req_type s) (req_ext s) (m_ConnRes s) v (m_bConnecting s) (m_bConnected s) (m_RejectReason s) (reqpkt s).
Definition set_conn (connecting connected : bool) (s : sock) : sock :=
  mkSock (m_RdvState s) (m_SrtHsSide s) (m_Cookie s) (req_type s) (req_ext s) (m_ConnRes s) (peer_start s) connecting connected (m_RejectReason s) (reqpkt s).
Definition set_reject (v : Z) (s : sock) : sock :=
  mkSock (m_RdvState s) (m_SrtHsSide s) (m_Cookie s) (req_type s) (req_ext s) (m_ConnRes s) (peer_start s) (m_bConnecting s) (m_bConnected s) v (reqpkt s).
Definition set_pkt (v : msg) (s : sock) : sock :=
  mkSock (m_RdvState s) (m_SrtHsSide s) (m_Cookie s) (req_type s) (req_ext s) (m_ConnRes s) (peer_start s) (m_bConnecting s) (m_bConnected s) (m_RejectReason s) v.

(** A socket that begins to connect: it waves. *)
Definition waving (cookie : Z) : sock :=
  mkSock RDV_WAVING HSD_DRAW cookie URQ_WAVEAHAND false None false true false SRT_REJ_UNKNOWN
    (Handshake (mkHs URQ_WAVEAHAND cookie None)).

(** ** The state machine *)

Definition cookieContest (s : sock) : sock :=
  match m_SrtHsSide s, m_ConnRes s with
  | HSD_DRAW, Some res =>
    if (m_Cookie s =? 0) || (hs_cookie res =? 0) then s
    else set_side (backwardCompatibleCookieContest (m_Cookie s) (hs_cookie res)) s
  | _, _ => s
  end.

Definition is_side (hsd side : HandshakeSide) : bool := bool_decide (hsd = side).

(** The new state, the response type, and the flags needs_extension and
    needs_hsrsp; [rsp0] is the response type before the call. *)
Definition rendezvousSwitchState (state : RendezvousState) (hsd : HandshakeSide) (req : Z) (has_extension : bool)
    (rsp0 : Z) : RendezvousState * Z * bool * bool :=
  let error := (RDV_WAVING, URQFailure SRT_REJ_ROGUE, false, false) in
  match state with
  | RDV_INVALID => (RDV_INVALID, rsp0, false, false)
  | RDV_WAVING =>
    if req =? URQ_WAVEAHAND then (RDV_ATTENTION, URQ_CONCLUSION, is_side hsd HSD_INITIATOR, false)
    else if req =? URQ_CONCLUSION then (RDV_FINE, URQ_CONCLUSION, true, is_side hsd HSD_RESPONDER)
    else error
  | RDV_ATTENTION =>
    if req =? URQ_WAVEAHAND then (RDV_ATTENTION, URQ_CONCLUSION, is_side hsd HSD_INITIATOR, false)
    else if req =? URQ_CONCLUSION then
      match hsd with
      | HSD_INITIATOR =>
        if has_extension then (RDV_CONNECTED, URQ_AGREEMENT, false, false) else (RDV_ATTENTION, URQ_CONCLUSION, true, false)
      | HSD_RESPONDER =>
        if has_extension then (RDV_INITIATED, URQ_CONCLUSION, true, true) else (RDV_ATTENTION, URQ_CONCLUSION, false, false)
      | HSD_DRAW => (RDV_INVALID, URQFailure SRT_REJ_RDVCOOKIE, false, false)
      end
    else if req =? URQ_AGREEMENT then
      match hsd with
      | HSD_INITIATOR => (RDV_CONNECTED, URQ_DONE, false, false)
      | HSD_RESPONDER => (RDV_ATTENTION, URQ_CONCLUSION, true, true)
      | HSD_DRAW => error
      end
    else error
  | RDV_FINE =>
    if req =? URQ_CONCLUSION then
      let correct_switch :=
        if is_side hsd HSD_INITIATOR && negb has_extension then false
        else if is_side hsd HSD_RESPONDER then false else true in
      if negb correct_switch then (RDV_FINE, URQ_CONCLUSION, true, is_side hsd HSD_RESPONDER)
      else (RDV_CONNECTED, URQ_AGREEMENT, false, false)
    else if req =? URQ_AGREEMENT then (RDV_CONNECTED, URQ_DONE, false, false)
    else error
  | RDV_INITIATED =>
    if req =? URQ_AGREEMENT then (RDV_CONNECTED, URQ_DONE, false, false)
    else if req =? URQ_CONCLUSION then (RDV_INITIATED, URQ_CONCLUSION, true, true)
    else error
  | RDV_CONNECTED => (RDV_CONNECTED, URQ_DONE, false, false)
  end.

(** [createSrtHandshake] on [m_ConnReq]: the message, or the rejection. *)
Definition createSrtHandshake (srths_cmd : Z) (s : sock) : option msg * sock :=
  let ext := if (req_type s =? URQ_CONCLUSION) && (srths_cmd =? SRT_CMD_HSRSP) && negb (peer_start s)
             then false else req_ext s in
  let s := set_req (req_type s) ext s in
  if negb ext then (Some (Handshake (mkHs (req_type s) (m_Cookie s) None)), s)
  else if (srths_cmd =? SRT_CMD_HSREQ) && is_side (m_SrtHsSide s) HSD_RESPONDER then (None, set_reject SRT_REJ_IPE s)
  else (Some (Handshake (mkHs (req_type s) (m_Cookie s) (Some srths_cmd))), s).

(** [interpretSrtHandshake] of the handshake just received: without extension
    flags it is rejected. *)
Definition interpret (h : handshake) (s : sock) : bool * sock :=
  match hs_ext h with
  | None => (false, set_reject SRT_REJ_ROGUE s)
  | Some _ => (true, set_start true s)
  end.

Definition postConnect (s : sock) : sock := set_conn false true s.

(** The rest of [processRendezvous] when a response without HSRSP is made; the
    list is what it sends by itself. *)
Definition respond (rsp_type : Z) (needs_extension : bool) (s : sock) : EConnectStatus * sock * list msg :=
  let s := set_req (req_type s) needs_extension s in
  let s := if decide (m_RdvState s = RDV_CONNECTED) then postConnect s else s in
  if rsp_type =? URQ_DONE then (CONN_ACCEPT, s, [])
  else
    match createSrtHandshake SRT_CMD_HSREQ s with
    | (None, s) => (CONN_REJECT, s, [])
    | (Some m, s) =>
      let s := set_pkt m s in
      if (rsp_type =? URQ_AGREEMENT) && bool_decide (m_RdvState s = RDV_CONNECTED) then (CONN_ACCEPT, s, [m])
      else (CONN_CONTINUE, s, [])
    end.

(** [rst_ok]: a packet has just been received. *)
Definition processRendezvous (rst_ok : bool) (s : sock) : EConnectStatus * sock * list msg :=
  if decide (m_RdvState s = RDV_CONNECTED) then (CONN_ACCEPT, s, [])
  else
    match m_ConnRes s with
    | None => (CONN_REJECT, s, [])
    | Some res =>
      let s := cookieContest s in
      if decide (m_SrtHsSide s = HSD_DRAW) then (CONN_REJECT, set_reject SRT_REJ_RDVCOOKIE s, [])
      else
        let has_extension := bool_decide (hs_ext res <> None) in
        let '(state, rsp_type, needs_extension, needs_hsrsp) :=
          rendezvousSwitchState (m_RdvState s) (m_SrtHsSide s) (hs_req res) has_extension URQ_FAILURE_TYPES in
        let s := set_state state s in
        if rsp_type >? URQ_FAILURE_TYPES then (CONN_REJECT, set_reject (RejectReasonForURQ rsp_type) s, [])
        else
          let s := set_req rsp_type needs_extension s in
          if needs_hsrsp then
            let '(ok, s) := if rst_ok then interpret res s else (true, s) in
            if negb ok then (CONN_REJECT, s, [])
            else
              match createSrtHandshake SRT_CMD_HSRSP (set_req rsp_type true s) with
              | (None, s) => (CONN_REJECT, s, [])
              | (Some m, s) => (CONN_CONTINUE, set_pkt m s, [])
              end
          else if is_side (m_SrtHsSide s) HSD_INITIATOR && (rsp_type =? URQ_AGREEMENT) then
            let '(ok, s') := if rst_ok then interpret res s else (true, s) in
            if negb ok then (CONN_REJECT, set_req (URQFailure (m_RejectReason s')) (req_ext s') s', [])
            else respond rsp_type needs_extension s'
          else respond rsp_type needs_extension s
    end.

(** The rendezvous part of [processConnectResponse], version 5. *)
Definition processConnectResponse (m : msg) (s : sock) : EConnectStatus * sock :=
  if negb (m_bConnecting s) then (CONN_REJECT, s)
  else if (bool_decide (m_RdvState s = RDV_CONNECTED) || match m with Payload => true | _ => false end)
          && bool_decide (m_ConnRes s <> None) then
    (CONN_ACCEPT, postConnect (set_state RDV_CONNECTED s))
  else
    match m with
    | Payload | Shutdown => (CONN_REJECT, set_reject SRT_REJ_ROGUE s)
    | Handshake h =>
      let s := set_res h s in
      if hs_req h >=? URQ_FAILURE_TYPES then (CONN_REJECT, set_reject (RejectReasonForURQ (hs_req h)) s)
      else if hs_req h =? URQ_INDUCTION then (CONN_REJECT, set_reject SRT_REJ_ROGUE s)
      else (CONN_RENDEZVOUS, s)
    end.

(** ** A party: its socket and what it does on a packet and on the timer *)

(** [startConnect] gives up: the socket is no longer connecting. *)
Definition stop_connecting (s : sock) : sock := set_conn false (m_bConnected s) s.

(** One round of [startConnect]'s loop that received [m]; the list is what is
    sent. After CONN_CONTINUE the next round sends the packet at once. *)
Definition connecting_receive (m : msg) (s : sock) : sock * list msg :=
  match processConnectResponse m s with
  | (CONN_RENDEZVOUS, s) =>
    match processRendezvous true s with
    | (CONN_CONTINUE, s, out) => (s, out ++ [reqpkt s])
    | (CONN_REJECT, s, out) =>
      let s := if m_RejectReason s =? SRT_REJ_UNKNOWN then set_reject SRT_REJ_ROGUE s else s in
      let s := set_req (URQFailure (m_RejectReason s)) (req_ext s) s in
      (stop_connecting s, out ++ [Handshake (mkHs (req_type s) (m_Cookie s) None); Shutdown])
    | (_, s, out) => (s, out)
    end
  | (CONN_REJECT, s) => (stop_connecting s, [Shutdown])
  | (_, s) => (s, [])
  end.

(** [processCtrlHS] of a connected rendezvous socket. *)
Definition processCtrlHS (req : handshake) (s : sock) : sock * list msg :=
  if (hs_req req >? 0) || negb (hs_req req =? URQ_AGREEMENT) then
    let hs_flags := match m_ConnRes s with Some r => bool_decide (hs_ext r <> None) | None => false end in
    let '(ok, s) := if hs_flags then interpret req s else (true, s) in
    if ok then (s, [Handshake (mkHs URQ_AGREEMENT 0 None)])
    else
      (* the rejection is sent and the connection broken *)
      (set_conn false false (set_reject SRT_REJ_ROGUE s), [Handshake (mkHs (URQFailure SRT_REJ_ROGUE) 0 None)])
  else (s, []).

Definition connected_receive (m : msg) (s : sock) : sock * list msg :=
  match m with
  | Handshake h => processCtrlHS h s
  | Payload => (s, [])
  | Shutdown => (set_conn false false s, [])
  end.

Definition receive (m : msg) (s : sock) : sock * list msg :=
  if m_bConnecting s then connecting_receive m s
  else if m_bConnected s then connected_receive m s
  else (s, []).

(** The connecting loop repeats its packet; a connected socket sends data or keepalives. *)
Definition tick (s : sock) : list msg :=
  if m_bConnecting s then [reqpkt s] else if m_bConnected s then [Payload] else [].

(** ** Two parties and the network between them *)

Record system := mkSys { party_a : sock; party_b : sock; to_a : list msg; to_b : list msg }.

(** Packets may be lost but are not reordered. *)
Inductive step : system -> system -> Prop :=
| tick_a a b qa qb : step (mkSys a b qa qb) (mkSys a b qa (qb ++ tick a))
| tick_b a b qa qb : step (mkSys a b qa qb) (mkSys a b (qa ++ tick b) qb)
| recv_a a b m qa qb a' out : receive m a = (a', out) -> step (mkSys a b (m :: qa) qb) (mkSys a' b qa (qb ++ out))
| recv_b a b m qa qb b' out : receive m b = (b', out) -> step (mkSys a b qa (m :: qb)) (mkSys a b' (qa ++ out) qb)
| lose_a a b m qa qb : step (mkSys a b (m :: qa) qb) (mkSys a b qa qb)
| lose_b a b m qa qb : step (mkSys a b qa (m :: qb)) (mkSys a b qa qb).

Definition start (ca cb : Z) : system := mkSys (waving ca) (waving cb) [] [].

Definition reachable (ca cb : Z) (s : system) : Prop := rtc step (start ca cb) s.

End Rdv.
