(* ===== verification/RendezvousProps.v ===== *)
(** * The rendezvous handshake's properties

    Over a network that loses packets but keeps their order, two rendezvous
    sockets never reject each other and can always complete the connection; a
    packet that arrives late can make them fail. *)

From S2P Require Import Prelude SeqNo Packet Handshake HandshakeSpec Rendezvous.

Import Rdv.

(** ** The cookies decide *)

Lemma land_bit31 x : negb (Z.land x 0x80000000 =? 0) = Z.testbit x 31.
Proof.
  change 0x80000000 with (2 ^ 31). destruct (Z.testbit x 31) eqn:E.
  - apply negb_true_iff, Z.eqb_neq. intros H. assert (Z.testbit (Z.land x (2 ^ 31)) 31 = false) as H' by (rewrite H; apply Z.bits_0).
    rewrite Z.land_spec, E, Z.pow2_bits_true in H' by lia. done.
  - apply negb_false_iff, Z.eqb_eq. apply Z.bits_inj'. intros i Hi. rewrite Z.land_spec, Z.bits_0, Z.pow2_bits_eqb by lia.
    destruct (Z.eqb_spec 31 i) as [<-|]; [by rewrite E|apply andb_false_r].
Qed.

Lemma testbit31 x : Z.testbit x 31 = (2 ^ 31 <=? x mod 2 ^ 32).
Proof.
  rewrite <- (Z.mod_pow2_bits_low x 32 31) by lia.
  assert (0 <= x mod 2 ^ 32 < 2 ^ 32) as H by (apply Z.mod_pos_bound; lia). generalize dependent (x mod 2 ^ 32). intros y Hy.
  rewrite Z.testbit_odd, Z.shiftr_div_pow2 by lia. destruct (Z.leb_spec (2 ^ 31) y).
  - replace (y / 2 ^ 31) with 1 by zlia. done.
  - replace (y / 2 ^ 31) with 0 by zlia. done.
Qed.

Lemma contest_cases a b :
  is_i32 a -> is_i32 b ->
  backwardCompatibleCookieContest a b
  = if a - b =? 0 then HSD_DRAW
    else if (a - b) mod 2 ^ 32 =? 2 ^ 31 then if a >? b then HSD_INITIATOR else HSD_RESPONDER
    else if 2 ^ 31 <? (a - b) mod 2 ^ 32 then HSD_RESPONDER else HSD_INITIATOR.
Proof.
  unfold is_i32. intros Ha Hb. unfold backwardCompatibleCookieContest. cbv zeta.
  rewrite !land_bit31, !testbit31. change 0xFFFFFFFF with (Z.ones 32). rewrite Z.land_ones by lia.
  rewrite (i64_id a), (i64_id b), (i64_id (a - b)), (i64_id (b - a)) by lia.
  destruct (Z.eqb_spec ((a - b) mod 2 ^ 32) 0), (Z.eqb_spec (a - b) 0); try zlia; [done|].
  destruct (Z.leb_spec (2 ^ 31) ((a - b) mod 2 ^ 32)), (Z.eqb_spec ((a - b) mod 2 ^ 32) (2 ^ 31)),
    (Z.ltb_spec (2 ^ 31) ((a - b) mod 2 ^ 32)), (Z.leb_spec (2 ^ 31) ((b - a) mod 2 ^ 32)); try done; try zlia.
Qed.

(** The cookie contest assigns the roles consistently. For any two 32-bit
    cookies the two parties, each comparing its own cookie with the other's,
    find a draw exactly when the cookies are equal, and otherwise one of them
    becomes the initiator and the other the responder. *)
Theorem cookie_roles_agree (a b : Z) :
  is_i32 a -> is_i32 b ->
  match backwardCompatibleCookieContest a b with
  | HSD_DRAW => a = b /\ backwardCompatibleCookieContest b a = HSD_DRAW
  | HSD_INITIATOR => a <> b /\ backwardCompatibleCookieContest b a = HSD_RESPONDER
  | HSD_RESPONDER => a <> b /\ backwardCompatibleCookieContest b a = HSD_INITIATOR
  end.
Proof.
  intros Ha Hb. rewrite (contest_cases a b), (contest_cases b a) by done. unfold is_i32 in *.
  destruct (Z.eqb_spec (a - b) 0), (Z.eqb_spec (b - a) 0); try zlia; [split; [lia|done]|].
  destruct (Z.eqb_spec ((a - b) mod 2 ^ 32) (2 ^ 31)), (Z.eqb_spec ((b - a) mod 2 ^ 32) (2 ^ 31)); try zlia.
  - rewrite !Z.gtb_ltb. destruct (Z.ltb_spec b a), (Z.ltb_spec a b); try lia; (split; [lia|done]).
  - destruct (Z.ltb_spec (2 ^ 31) ((a - b) mod 2 ^ 32)), (Z.ltb_spec (2 ^ 31) ((b - a) mod 2 ^ 32)); try zlia; (split; [lia|done]).
Qed.

Lemma cookie_roles_agree_witness :
  backwardCompatibleCookieContest (- 2 ^ 31) 0 = HSD_RESPONDER
  /\ match backwardCompatibleCookieContest 0 (- 2 ^ 31) with
     | HSD_DRAW => 0 = - 2 ^ 31 /\ backwardCompatibleCookieContest (- 2 ^ 31) 0 = HSD_DRAW
     | HSD_INITIATOR => 0 <> - 2 ^ 31 /\ backwardCompatibleCookieContest (- 2 ^ 31) 0 = HSD_RESPONDER
     | HSD_RESPONDER => 0 <> - 2 ^ 31 /\ backwardCompatibleCookieContest (- 2 ^ 31) 0 = HSD_INITIATOR
     end.
Proof. split; [vm_compute; reflexivity|]. apply (cookie_roles_agree 0 (- 2 ^ 31)); unfold is_i32; lia. Defined.

(** ** The states a party passes through *)

Section Protocol.

(** [ca] is the cookie of the initiator, [cb] of the responder. *)
Context (ca cb : Z) (Ha0 : ca <> 0) (Hb0 : cb <> 0).
Context (Hab : backwardCompatibleCookieContest ca cb = HSD_INITIATOR)
        (Hba : backwardCompatibleCookieContest cb ca = HSD_RESPONDER).

Definition wave (c : Z) : msg := Handshake (mkHs URQ_WAVEAHAND c None).
Definition conclude (c : Z) (ext : option Z) : msg := Handshake (mkHs URQ_CONCLUSION c ext).
Definition agree (c : Z) : msg := Handshake (mkHs URQ_AGREEMENT c None).

Inductive phase := Waving | Attention | Fine | Initiated | Connected.

(** The initiator: it never becomes INITIATED. *)
Inductive initiator : phase -> sock -> Prop :=
| i_waving : initiator Waving (waving ca)
| i_attention h :
    initiator Attention (mkSock RDV_ATTENTION HSD_INITIATOR ca URQ_CONCLUSION true (Some h) false true false SRT_REJ_UNKNOWN
                           (conclude ca (Some SRT_CMD_HSREQ)))
| i_fine h :
    initiator Fine (mkSock RDV_FINE HSD_INITIATOR ca URQ_CONCLUSION true (Some h) false true false SRT_REJ_UNKNOWN
                      (conclude ca (Some SRT_CMD_HSREQ)))
| i_connected h ty ext p :
    hs_ext h <> None ->
    initiator Connected (mkSock RDV_CONNECTED HSD_INITIATOR ca ty ext (Some h) true false true SRT_REJ_UNKNOWN p).

Inductive responder : phase -> sock -> Prop :=
| r_waving : responder Waving (waving cb)
| r_attention h :
    responder Attention (mkSock RDV_ATTENTION HSD_RESPONDER cb URQ_CONCLUSION false (Some h) false true false SRT_REJ_UNKNOWN
                           (conclude cb None))
| r_fine h :
    responder Fine (mkSock RDV_FINE HSD_RESPONDER cb URQ_CONCLUSION true (Some h) true true false SRT_REJ_UNKNOWN
                      (conclude cb (Some SRT_CMD_HSRSP)))
| r_initiated h :
    responder Initiated (mkSock RDV_INITIATED HSD_RESPONDER cb URQ_CONCLUSION true (Some h) true true false SRT_REJ_UNKNOWN
                           (conclude cb (Some SRT_CMD_HSRSP)))
| r_connected h ty ext p :
    responder Connected (mkSock RDV_CONNECTED HSD_RESPONDER cb ty ext (Some h) true false true SRT_REJ_UNKNOWN p).

(** ** What each party sends, in the order it sends it *)

Inductive imsg : nat -> msg -> Prop :=
| im_wave : imsg 0 (wave ca)
| im_request : imsg 1 (conclude ca (Some SRT_CMD_HSREQ))
| im_agree c : imsg 2 (agree c)
| im_payload : imsg 2 Payload.

Inductive rmsg : nat -> msg -> Prop :=
| rm_wave : rmsg 0 (wave cb)
| rm_empty : rmsg 1 (conclude cb None)
| rm_response : rmsg 2 (conclude cb (Some SRT_CMD_HSRSP))
| rm_payload : rmsg 3 Payload.

(** The rank of what a party sends now, and the least rank its peer can still
    receive, as its own phase shows. *)
Definition icur (p : phase) : nat := match p with Waving => 0 | Attention | Fine | Initiated => 1 | Connected => 2 end.
Definition rcur (p : phase) : nat := match p with Waving => 0 | Attention => 1 | Fine | Initiated => 2 | Connected => 3 end.
Definition ilow (p : phase) : nat := match p with Waving | Attention => 0 | Fine | Initiated => 1 | Connected => 2 end.
Definition rlow (p : phase) : nat := match p with Waving | Attention => 0 | Fine | Initiated => 1 | Connected => 2 end.

(** Messages in the order of their ranks, between [lo] and [hi]. *)
Inductive ranked (P : nat -> msg -> Prop) (hi : nat) : nat -> list msg -> Prop :=
| ranked_nil lo : ranked P hi lo []
| ranked_cons lo k m q : (lo <= k <= hi)%nat -> P k m -> ranked P hi k q -> ranked P hi lo (m :: q).

Lemma ranked_lower P hi lo lo' q : ranked P hi lo q -> (lo' <= lo)%nat -> ranked P hi lo' q.
Proof. destruct 1 as [|lo k m q Hk HP Hq]; intros Hl; [by constructor|]. apply (ranked_cons _ _ _ k); [lia|done|done]. Qed.

Lemma ranked_raise P hi hi' lo q : ranked P hi lo q -> (hi <= hi')%nat -> ranked P hi' lo q.
Proof. induction 1 as [|lo k m q Hk HP Hq IH]; intros Hl; [by constructor|]. apply (ranked_cons _ _ _ k); [lia|done|auto]. Qed.

Lemma ranked_snoc P hi lo q k m : ranked P hi lo q -> (hi <= k)%nat -> (lo <= k)%nat -> P k m -> ranked P k lo (q ++ [m]).
Proof.
  induction 1 as [lo|lo k' m' q Hk HP Hq IH]; intros Hh Hl Hm.
  - apply (ranked_cons _ _ _ k); [lia|done|constructor].
  - cbn [app]. apply (ranked_cons _ _ _ k'); [lia|done|]. apply IH; [done|lia|done].
Qed.

Definition no_empty (q : list msg) : Prop := conclude cb None ∉ q.

(** ** What a party does with each message its peer can send *)

Lemma contest_initiator s h :
  m_SrtHsSide s = HSD_DRAW -> m_Cookie s = ca -> m_ConnRes s = Some h -> hs_cookie h = cb ->
  cookieContest s = set_side HSD_INITIATOR s.
Proof using Ha0 Hb0 Hab.
  intros Hs Hc Hr Hh. unfold cookieContest. rewrite Hs, Hr, Hc, Hh. apply Z.eqb_neq in Ha0, Hb0. rewrite Ha0, Hb0. cbn [orb].
  by rewrite Hab.
Qed.

Lemma contest_responder s h :
  m_SrtHsSide s = HSD_DRAW -> m_Cookie s = cb -> m_ConnRes s = Some h -> hs_cookie h = ca ->
  cookieContest s = set_side HSD_RESPONDER s.
Proof using Ha0 Hb0 Hba.
  intros Hs Hc Hr Hh. unfold cookieContest. rewrite Hs, Hr, Hc, Hh. apply Z.eqb_neq in Ha0, Hb0. rewrite Ha0, Hb0. cbn [orb].
  by rewrite Hba.
Qed.

Lemma contest_done s : m_SrtHsSide s <> HSD_DRAW -> cookieContest s = s.
Proof using Type. intros Hs. unfold cookieContest. by destruct (m_SrtHsSide s). Qed.

(** Evaluates a reception; the contest is settled by the lemma given. *)
Tactic Notation "run_rdv" uconstr(lem) :=
  cbv -[cookieContest]; first [rewrite lem by (reflexivity || discriminate)|idtac]; reflexivity.

Lemma initiator_wave p s :
  initiator p s -> p = Waving \/ p = Attention ->
  exists s', receive (wave cb) s = (s', [conclude ca (Some SRT_CMD_HSREQ)]) /\ initiator Attention s'.
Proof using Ha0 Hb0 Hab.
  intros Hs Hp.
  destruct Hs as [|h|h|h ty ext pk Hext]; destruct Hp as [Hp|Hp]; try discriminate Hp; eexists; (split; [|constructor]).
  - run_rdv (contest_initiator _ (mkHs URQ_WAVEAHAND cb None)).
  - run_rdv contest_done.
Qed.

Lemma initiator_empty p s :
  initiator p s -> p <> Connected ->
  exists s', receive (conclude cb None) s = (s', [conclude ca (Some SRT_CMD_HSREQ)])
    /\ initiator (match p with Waving => Fine | _ => p end) s'.
Proof using Ha0 Hb0 Hab.
  intros Hs Hp. destruct Hs as [|h|h|h ty ext pk Hext]; [..|done]; eexists; (split; [|constructor]).
  - run_rdv (contest_initiator _ (mkHs URQ_CONCLUSION cb None)).
  - run_rdv contest_done.
  - run_rdv contest_done.
Qed.

Lemma initiator_response p s :
  initiator p s -> p <> Waving ->
  exists s' c, receive (conclude cb (Some SRT_CMD_HSRSP)) s = (s', [agree c]) /\ initiator Connected s'.
Proof using Type.
  intros Hs Hp. destruct Hs as [|h|h|h ty ext pk Hext]; [done|..].
  - eexists _, ca. split; [run_rdv contest_done|]. by constructor.
  - eexists _, ca. split; [run_rdv contest_done|]. by constructor.
  - destruct h as [r c [e|]]; [|done]. eexists _, 0. split; [reflexivity|]. by constructor.
Qed.

Lemma initiator_payload s : initiator Connected s -> receive Payload s = (s, []).
Proof using Type. by inversion 1. Qed.

Lemma responder_wave p s :
  responder p s -> p = Waving \/ p = Attention ->
  exists s', receive (wave ca) s = (s', [conclude cb None]) /\ responder Attention s'.
Proof using Ha0 Hb0 Hba.
  intros Hs Hp.
  destruct Hs as [|h|h|h|h ty ext pk]; destruct Hp as [Hp|Hp]; try discriminate Hp; eexists; (split; [|constructor]).
  - run_rdv (contest_responder _ (mkHs URQ_WAVEAHAND ca None)).
  - run_rdv contest_done.
Qed.

Lemma responder_request p s :
  responder p s -> p <> Connected ->
  exists s', receive (conclude ca (Some SRT_CMD_HSREQ)) s = (s', [conclude cb (Some SRT_CMD_HSRSP)])
    /\ responder (match p with Waving => Fine | Attention => Initiated | _ => p end) s'.
Proof using Ha0 Hb0 Hba.
  intros Hs Hp. destruct Hs as [|h|h|h|h ty ext pk]; [..|done]; eexists; (split; [|constructor]).
  - run_rdv (contest_responder _ (mkHs URQ_CONCLUSION ca (Some SRT_CMD_HSREQ))).
  - run_rdv contest_done.
  - run_rdv contest_done.
  - run_rdv contest_done.
Qed.

Lemma responder_final p s m :
  responder p s -> p <> Waving -> p <> Attention -> m = Payload \/ (exists c, m = agree c) ->
  exists s', receive m s = (s', []) /\ responder Connected s'.
Proof using Type.
  intros Hs Hw Ha Hm.
  destruct Hs as [|h|h|h|h ty ext pk]; try done; (destruct Hm as [->|[c ->]]; eexists; (split; [|constructor])).
  all: run_rdv contest_done.
Qed.

(** ** The invariant *)

Definition inv (s : system) : Prop :=
  exists pi pr, initiator pi (party_a s) /\ responder pr (party_b s)
    /\ ranked imsg (icur pi) (rlow pr) (to_b s) /\ ranked rmsg (rcur pr) (ilow pi) (to_a s)
    /\ (rlow pr <= icur pi)%nat /\ (ilow pi <= rcur pr)%nat
    /\ (pr = Fine -> pi <> Fine /\ no_empty (to_a s)).

Lemma tick_initiator p s : initiator p s -> exists m, tick s = [m] /\ imsg (icur p) m.
Proof using Type. intros [|h|h|h ty ext pk Hext]; eexists; (split; [reflexivity|constructor]). Qed.

Lemma tick_responder p s : responder p s -> exists m, tick s = [m] /\ rmsg (rcur p) m.
Proof using Type. intros [|h|h|h|h ty ext pk]; eexists; (split; [reflexivity|constructor]). Qed.

Lemma inv_start : inv (start ca cb).
Proof using Type. exists Waving, Waving. cbn. repeat (split; [constructor|]). done. Qed.

Lemma no_empty_snoc q m : no_empty q -> m <> conclude cb None -> no_empty (q ++ [m]).
Proof using Type. clear ca Ha0 Hb0 Hab Hba. unfold no_empty. set_solver. Qed.

(** A message of rank 1 is not in a queue of lower ranks. *)
Lemma no_empty_low lo q : ranked rmsg 0 lo q -> no_empty q.
Proof using Type.
  clear ca Ha0 Hb0 Hab Hba. induction 1 as [|lo k m q Hk Hm Hq IH]; unfold no_empty in *; [set_solver|].
  assert (k = 0%nat) as -> by lia. inversion Hm; subst. unfold wave, conclude in *. set_solver.
Qed.

(** One message for the initiator. *)
Lemma inv_recv_a a b m qa qb a' out :
  inv (mkSys a b (m :: qa) qb) -> receive m a = (a', out) -> inv (mkSys a' b qa (qb ++ out)).
Proof using Ha0 Hb0 Hab.
  intros (pi & pr & Hi & Hr & Qb & Qa & L1 & L2 & Hf) E. cbn [party_a party_b to_a to_b] in *.
  inversion Qa as [|lo k m' q Hk Hm Hq]; subst. clear Qa.
  assert (pr = Fine -> no_empty qa) as Hne.
  { intros Hp. destruct (Hf Hp) as [_ H]. unfold no_empty in *. intros Hin. apply H. by right. }
  assert (pi <> Connected -> (k <= 2)%nat) as Hk2.
  { intros Hp. destruct pi, pr; cbn in *; try done; lia. }
  assert (pi = Waving -> (k <= 1)%nat) as Hk1.
  { intros ->. destruct pr; cbn in *; lia. }
  assert (forall p' m'', initiator p' a' -> out = [m''] -> imsg (icur p') m'' -> (icur pi <= icur p')%nat ->
            (ilow p' <= k)%nat -> (ilow p' <= rcur pr)%nat -> (pr = Fine -> p' <> Fine) ->
            inv (mkSys a' b qa (qb ++ out))) as Hone.
  { intros p' m'' Hi' -> Hm'' Hc Hlo Hlo2 Hff. exists p', pr. cbn [party_a party_b to_a to_b]. split; [done|]. split; [done|].
    split; [apply (ranked_snoc _ (icur pi)); [done|done|lia|done]|]. split; [by apply (ranked_lower _ _ k)|].
    split; [lia|]. split; [done|]. intros Hp. split; [by apply Hff|by apply Hne]. }
  inversion Hm; subst; cbn in Hk.
  - destruct (initiator_wave pi a Hi) as (s' & Er & Hi'); [destruct pi; cbn in Hk; auto; lia|].
    rewrite Er in E. injection E as <- <-.
    apply (Hone Attention _ Hi' eq_refl); [constructor|destruct pi; cbn in *; lia|cbn; lia|cbn; lia|done].
  - assert (pi <> Connected) as Hnc by (intros ->; cbn in Hk; lia).
    destruct (initiator_empty pi a Hi Hnc) as (s' & Er & Hi'). rewrite Er in E. injection E as <- <-.
    apply (Hone _ _ Hi' eq_refl); [destruct pi; try done; apply im_request|destruct pi; cbn in *; lia|destruct pi; cbn in *; lia|destruct pi; cbn in *; lia|].
    intros Hp. destruct (Hf Hp) as [_ H]. exfalso. apply H. by left.
  - assert (pi <> Waving) as Hnw by (intros ->; specialize (Hk1 eq_refl); lia).
    destruct (initiator_response pi a Hi Hnw) as (s' & c & Er & Hi'). rewrite Er in E. injection E as <- <-.
    apply (Hone Connected _ Hi' eq_refl); [constructor|destruct pi; cbn in *; lia|cbn; lia|cbn in *; lia|done].
  - destruct (decide (3 <= 2)%nat); [lia|]. assert (pi = Connected) as -> by (destruct pi; try done; exfalso; assert (3 <= 2)%nat by (by apply Hk2); lia).
    rewrite initiator_payload in E by done. injection E as <- <-. rewrite app_nil_r.
    exists Connected, pr. cbn [party_a party_b to_a to_b]. split; [done|]. split; [done|]. split; [done|].
    split; [apply (ranked_lower _ _ 3); [done|cbn; lia]|]. split; [done|]. split; [done|].
    intros Hp. split; [done|by apply Hne].
Qed.

(** One message for the responder. *)
Lemma inv_recv_b a b m qa qb b' out :
  inv (mkSys a b qa (m :: qb)) -> receive m b = (b', out) -> inv (mkSys a b' (qa ++ out) qb).
Proof using Ha0 Hb0 Hba.
  intros (pi & pr & Hi & Hr & Qb & Qa & L1 & L2 & Hf) E. cbn [party_a party_b to_a to_b] in *.
  inversion Qb as [|lo k m' q Hk Hm Hq]; subst. clear Qb.
  assert (forall p' m'', responder p' b' -> out = [m''] -> rmsg (rcur p') m'' -> (rcur pr <= rcur p')%nat ->
            (rlow p' <= k)%nat -> (p' = Fine -> pi <> Fine /\ no_empty (qa ++ out)) ->
            inv (mkSys a b' (qa ++ out) qb)) as Hone.
  { intros p' m'' Hr' -> Hm'' Hc Hlo Hff. exists pi, p'. cbn [party_a party_b to_a to_b]. split; [done|]. split; [done|].
    split; [by apply (ranked_lower _ _ k)|]. split; [apply (ranked_snoc _ (rcur pr)); [done|done|lia|done]|].
    split; [lia|]. split; [lia|done]. }
  assert (forall m0, receive m0 b = (b', out) -> m0 = Payload \/ (exists c, m0 = agree c) -> (2 <= k <= icur pi)%nat ->
            ranked imsg (icur pi) k qb -> inv (mkSys a b' (qa ++ out) qb)) as Hfin.
  { intros m0 E0 Hm0 Hk2 Hq0. assert (pi = Connected) as -> by (destruct pi; cbn in Hk2; try done; lia). cbn in L2.
    destruct (responder_final pr b m0 Hr) as (s' & Er & Hr'); [intros ->; cbn in L2; lia|intros ->; cbn in L2; lia|done|].
    rewrite Er in E0. injection E0 as <- <-. rewrite app_nil_r. exists Connected, Connected. cbn [party_a party_b to_a to_b].
    split; [done|]. split; [done|]. split; [apply (ranked_lower _ _ k); [done|cbn; lia]|].
    split; [apply (ranked_raise _ (rcur pr)); [done|destruct pr; cbn; lia]|]. cbn. split; [lia|]. split; [lia|done]. }
  inversion Hm; subst; cbn in Hk.
  - destruct (responder_wave pr b Hr) as (s' & Er & Hr'); [destruct pr; cbn in Hk; auto; lia|].
    rewrite Er in E. injection E as <- <-.
    apply (Hone Attention _ Hr' eq_refl); [constructor|destruct pr; cbn in *; lia|cbn; lia|done].
  - assert (pr <> Connected) as Hnc by (intros ->; cbn in Hk; lia).
    destruct (responder_request pr b Hr Hnc) as (s' & Er & Hr'). rewrite Er in E. injection E as <- <-.
    apply (Hone _ _ Hr' eq_refl); [destruct pr; try done; apply rm_response|destruct pr; cbn in *; lia|destruct pr; cbn in *; lia|].
    intros Hp. destruct pr; try done; cbn in *.
    + split; [intros ->; cbn in L2; lia|]. apply no_empty_snoc; [by apply (no_empty_low (ilow pi))|done].
    + destruct (Hf eq_refl) as [H1 H2]. split; [done|by apply no_empty_snoc].
  - apply (Hfin (agree c) E); [by right; eexists|lia|done].
  - apply (Hfin Payload E); [by left|lia|done].
Qed.

Lemma inv_lose_a a b m qa qb : inv (mkSys a b (m :: qa) qb) -> inv (mkSys a b qa qb).
Proof using Type.
  intros (pi & pr & Hi & Hr & Qb & Qa & L1 & L2 & Hf). cbn [party_a party_b to_a to_b] in *.
  inversion Qa as [|lo k m' q Hk Hm Hq]; subst. exists pi, pr. cbn [party_a party_b to_a to_b].
  split; [done|]. split; [done|]. split; [done|]. split; [apply (ranked_lower _ _ k); [done|lia]|]. split; [done|]. split; [done|].
  intros Hp. destruct (Hf Hp) as [H1 H2]. split; [done|]. unfold no_empty in *. intros Hin. apply H2. by right.
Qed.

Lemma inv_lose_b a b m qa qb : inv (mkSys a b qa (m :: qb)) -> inv (mkSys a b qa qb).
Proof using Type.
  intros (pi & pr & Hi & Hr & Qb & Qa & L1 & L2 & Hf). cbn [party_a party_b to_a to_b] in *.
  inversion Qb as [|lo k m' q Hk Hm Hq]; subst. exists pi, pr. cbn [party_a party_b to_a to_b].
  split; [done|]. split; [done|]. split; [apply (ranked_lower _ _ k); [done|lia]|]. done.
Qed.

Lemma inv_tick_a a b qa qb : inv (mkSys a b qa qb) -> inv (mkSys a b qa (qb ++ tick a)).
Proof using Type.
  intros (pi & pr & Hi & Hr & Qb & Qa & L1 & L2 & Hf). cbn [party_a party_b to_a to_b] in *.
  destruct (tick_initiator pi a Hi) as (m & -> & Hm). exists pi, pr. cbn [party_a party_b to_a to_b].
  split; [done|]. split; [done|]. split; [by apply (ranked_snoc _ (icur pi))|done].
Qed.

Lemma inv_tick_b a b qa qb : inv (mkSys a b qa qb) -> inv (mkSys a b (qa ++ tick b) qb).
Proof using Type.
  intros (pi & pr & Hi & Hr & Qb & Qa & L1 & L2 & Hf). cbn [party_a party_b to_a to_b] in *.
  destruct (tick_responder pr b Hr) as (m & -> & Hm). exists pi, pr. cbn [party_a party_b to_a to_b].
  split; [done|]. split; [done|]. split; [done|]. split; [by apply (ranked_snoc _ (rcur pr))|]. split; [done|]. split; [done|].
  intros Hp. destruct (Hf Hp) as [H1 H2]. split; [done|]. apply no_empty_snoc; [done|]. rewrite Hp in Hm. by inversion Hm.
Qed.

Lemma inv_step s s' : step s s' -> inv s -> inv s'.
Proof using Ha0 Hb0 Hab Hba.
  destruct 1; intros Hinv; eauto using inv_tick_a, inv_tick_b, inv_lose_a, inv_lose_b, inv_recv_a, inv_recv_b.
Qed.

Lemma inv_reachable s : reachable ca cb s -> inv s.
Proof using Ha0 Hb0 Hab Hba.
  intros H. assert (inv (start ca cb)) as H0 by apply inv_start. induction H; eauto using inv_step.
Qed.

(** ** The connection can always be completed *)

Lemma drain a b qa qb : rtc step (mkSys a b qa qb) (mkSys a b [] []).
Proof using Type.
  induction qa as [|m qa IH]; [|by eapply rtc_l; [apply lose_a|]].
  induction qb as [|m qb IH]; [done|]. by eapply rtc_l; [apply lose_b|].
Qed.

Definition done_with (s s' : system) : Prop :=
  rtc step s s' /\ initiator Connected (party_a s') /\ responder Connected (party_b s').

(** The initiator is connected: its first packet connects the responder. *)
Lemma finish_connected a b pr :
  initiator Connected a -> responder pr b -> pr <> Waving -> pr <> Attention -> exists s', done_with (mkSys a b [] []) s'.
Proof using Type.
  intros Hi Hr H1 H2. destruct (responder_final pr b Payload Hr H1 H2) as (b' & E & Hr'); [by left|].
  exists (mkSys a b' [] []). split; [|done]. eapply rtc_l; [apply tick_a|]. inversion Hi; subst. cbn.
  eapply rtc_l; [by apply recv_b|]. done.
Qed.

(** The initiator waits for the response: its request is answered. *)
Lemma finish_waiting a b pi pr :
  initiator pi a -> pi <> Waving -> pi <> Connected -> responder pr b -> pr <> Connected ->
  exists s', done_with (mkSys a b [] []) s'.
Proof using Ha0 Hb0 Hba.
  intros Hi H1 H2 Hr H3. destruct (responder_request pr b Hr H3) as (b1 & E1 & Hr1).
  destruct (initiator_response pi a Hi H1) as (a1 & c & E2 & Hi1).
  destruct (responder_final _ b1 (agree c) Hr1) as (b2 & E3 & Hr2); [by destruct pr|by destruct pr|by right; eexists|].
  exists (mkSys a1 b2 [] []). split; [|done].
  eapply rtc_l; [apply tick_a|].
  assert (tick a = [conclude ca (Some SRT_CMD_HSREQ)]) as -> by (by inversion Hi; subst). cbn [app].
  eapply rtc_l; [by apply recv_b|]. cbn [app]. eapply rtc_l; [by apply recv_a|]. cbn [app].
  eapply rtc_l; [by apply recv_b|]. done.
Qed.

Lemma finish_waving a b pr :
  initiator Waving a -> responder pr b -> pr = Waving \/ pr = Attention -> exists s', done_with (mkSys a b [] []) s'.
Proof using Ha0 Hb0 Hab Hba.
  intros Hi Hr Hp.
  assert (exists a1 pi out m, tick b = [m] /\ receive m a = (a1, out) /\ initiator pi a1 /\ pi <> Waving /\ pi <> Connected)
    as (a1 & pi & out & m & Et & Er & Hi1 & H1 & H2).
  { destruct Hp as [->| ->].
    - destruct (initiator_wave _ a Hi) as (a1 & E & Hi1); [by left|]. exists a1, Attention, [conclude ca (Some SRT_CMD_HSREQ)], (wave cb).
      split; [by inversion Hr; subst|]. split; [exact E|]. split; [exact Hi1|done].
    - destruct (initiator_empty _ a Hi) as (a1 & E & Hi1); [done|]. exists a1, Fine, [conclude ca (Some SRT_CMD_HSREQ)], (conclude cb None).
      split; [by inversion Hr; subst|]. split; [exact E|]. split; [exact Hi1|done]. }
  destruct (finish_waiting a1 b pi pr Hi1 H1 H2 Hr) as (s' & Hs' & Hd); [by destruct Hp as [->| ->]|].
  exists s'. split; [|done]. eapply rtc_l; [apply tick_b|]. rewrite Et. cbn [app].
  eapply rtc_l; [by apply recv_a|]. cbn [app]. etrans; [apply drain|exact Hs'].
Qed.

Lemma inv_completes s : inv s -> exists s', done_with s s'.
Proof using Ha0 Hb0 Hab Hba.
  destruct s as [a b qa qb]. intros (pi & pr & Hi & Hr & _ & _ & L1 & L2 & _). cbn [party_a party_b] in *.
  assert (exists s', done_with (mkSys a b [] []) s') as (s' & Hs' & Hd).
  { destruct pi; cbn in L1, L2.
    - apply (finish_waving a b pr Hi Hr). destruct pr; cbn in L1; auto; lia.
    - apply (finish_waiting a b Attention pr Hi); try done. intros ->. cbn in L1. lia.
    - apply (finish_waiting a b Fine pr Hi); try done. intros ->. cbn in L1. lia.
    - inversion Hi.
    - apply (finish_connected a b pr Hi Hr); intros ->; cbn in L2; lia. }
  exists s'. split; [|done]. etrans; [apply drain|exact Hs'].
Qed.

End Protocol.

(** ** Either party may be the initiator *)

Definition swap (s : system) : system := mkSys (party_b s) (party_a s) (to_b s) (to_a s).

Lemma swap_step s s' : step s s' -> step (swap s) (swap s').
Proof. destruct 1; cbn; by constructor. Qed.

Lemma swap_rtc s s' : rtc step s s' -> rtc step (swap s) (swap s').
Proof. induction 1; [done|]. eapply rtc_l; [by apply swap_step|done]. Qed.

Definition cookies_ok (ca cb : Z) : Prop := is_i32 ca /\ is_i32 cb /\ ca <> 0 /\ cb <> 0 /\ ca <> cb.

(** The contest's outcome, in one of the two orders. *)
Lemma cookies_cases ca cb :
  cookies_ok ca cb ->
  (backwardCompatibleCookieContest ca cb = HSD_INITIATOR /\ backwardCompatibleCookieContest cb ca = HSD_RESPONDER)
  \/ (backwardCompatibleCookieContest cb ca = HSD_INITIATOR /\ backwardCompatibleCookieContest ca cb = HSD_RESPONDER).
Proof.
  intros (Ha & Hb & _ & _ & Hne). rewrite (contest_cases ca cb), (contest_cases cb ca) by done. unfold is_i32 in *.
  destruct (Z.eqb_spec (ca - cb) 0), (Z.eqb_spec (cb - ca) 0); try lia.
  destruct (Z.eqb_spec ((ca - cb) mod 2 ^ 32) (2 ^ 31)), (Z.eqb_spec ((cb - ca) mod 2 ^ 32) (2 ^ 31)); try zlia.
  - rewrite !Z.gtb_ltb. destruct (Z.ltb_spec cb ca), (Z.ltb_spec ca cb); auto; lia.
  - destruct (Z.ltb_spec (2 ^ 31) ((ca - cb) mod 2 ^ 32)), (Z.ltb_spec (2 ^ 31) ((cb - ca) mod 2 ^ 32)); auto; zlia.
Qed.

(** What is promised of a party and its peer. *)
Definition alive (s : sock) : Prop := m_bConnecting s = true \/ m_bConnected s = true.

Definition settled_ok (s peer : sock) : Prop :=
  m_bConnected s = true ->
  peer_start s = true
  /\ (m_SrtHsSide s = HSD_INITIATOR -> peer_start peer = true /\ m_SrtHsSide peer = HSD_RESPONDER)
  /\ (m_SrtHsSide s = HSD_RESPONDER -> m_bConnected peer = true /\ m_SrtHsSide peer = HSD_INITIATOR).

Definition well (a b : sock) : Prop :=
  alive a /\ alive b /\ ~ (m_RdvState a = RDV_FINE /\ m_RdvState b = RDV_FINE) /\ settled_ok a b /\ settled_ok b a.

Lemma inv_well ca cb s : inv ca cb s -> well (party_a s) (party_b s).
Proof.
  intros (pi & pr & Hi & Hr & _ & _ & L1 & L2 & Hf). unfold well, alive, settled_ok.
  destruct Hi; destruct Hr; cbn in *; repeat split; auto; try done; try lia; try (intros [? ?]; congruence).
  intros _. by destruct (Hf eq_refl).
Qed.

(** C9: Rendezvous connections do not fail. Two sockets that connect to each
    other in rendezvous mode, with distinct nonzero cookies, over a network that
    may lose any packet but keeps the order, in every reachable situation: neither
    has rejected the connection, they are not both in the state FINE, and a
    connected socket has interpreted the peer's extensions; when the initiator is
    connected the responder has interpreted its request, and the responder is
    connected only after the initiator. *)
Theorem rdv_safe (ca cb : Z) (s : system) :
  cookies_ok ca cb -> reachable ca cb s -> well (party_a s) (party_b s).
Proof.
  intros Hc Hr. pose proof Hc as (_ & _ & Ha & Hb & _). destruct (cookies_cases ca cb Hc) as [[H1 H2]|[H1 H2]].
  - by apply (inv_well ca cb), (inv_reachable ca cb).
  - pose proof (swap_rtc _ _ Hr) as Hr'. apply (inv_reachable cb ca) in Hr'; [|done..].
    destruct (inv_well _ _ _ Hr') as (W1 & W2 & W3 & W4 & W5). cbn in *. split; [done|]. split; [done|]. split; [tauto|done].
Qed.

(** C10: Rendezvous connections can complete. From every situation the two
    sockets can reach, whatever was lost and whatever is under way, there is a
    continuation after which both are connected. *)
Theorem rdv_completes (ca cb : Z) (s : system) :
  cookies_ok ca cb -> reachable ca cb s ->
  exists s', rtc step s s' /\ m_bConnected (party_a s') = true /\ m_bConnected (party_b s') = true.
Proof.
  intros Hc Hr. pose proof Hc as (_ & _ & Ha & Hb & _). destruct (cookies_cases ca cb Hc) as [[H1 H2]|[H1 H2]].
  - destruct (inv_completes ca cb Ha Hb H1 H2 s) as (s' & Hs & Hi & Hq); [by apply (inv_reachable ca cb)|].
    exists s'. split; [done|]. destruct s'; cbn in *. by inversion Hi; subst; inversion Hq; subst.
  - pose proof (swap_rtc _ _ Hr) as Hr'. apply (inv_reachable cb ca) in Hr'; [|done..].
    destruct (inv_completes cb ca Hb Ha H1 H2 _ Hr') as (s' & Hs & Hi & Hq). apply swap_rtc in Hs. exists (swap s').
    split; [by destruct s|]. destruct s'; cbn in *. by inversion Hi; subst; inversion Hq; subst.
Qed.

Lemma rdv_safe_witness :
  well (party_a (mkSys (waving 5) (waving 3) [] [Handshake (mkHs URQ_WAVEAHAND 5 None)]))
       (party_b (mkSys (waving 5) (waving 3) [] [Handshake (mkHs URQ_WAVEAHAND 5 None)])).
Proof.
  apply (rdv_safe 5 3); [unfold cookies_ok, is_i32; lia|]. eapply rtc_l; [apply tick_a|]. apply rtc_refl.
Defined.

Lemma rdv_completes_witness :
  exists s', rtc step (start 5 3) s' /\ m_bConnected (party_a s') = true /\ m_bConnected (party_b s') = true.
Proof. apply (rdv_completes 5 3); [unfold cookies_ok, is_i32; lia|apply rtc_refl]. Defined.

(** ** Packets that arrive late *)

(** Rejecting: no longer connecting, not connected, and the peer is told. *)
Definition rejects (m : msg) (s : sock) : Prop :=
  exists s', receive m s = (s', [Handshake (mkHs (URQFailure SRT_REJ_ROGUE) (m_Cookie s) None); Shutdown])
    /\ m_bConnecting s' = false /\ m_bConnected s' = false.

(** C25: A packet that the network delivers late makes a rendezvous fail. A
    socket that is still connecting and is past the state ATTENTION, whichever
    its side, rejects the connection when one more WAVEAHAND of its peer reaches
    it. An initiator in the state FINE is connected by the peer's conclusion with
    the HSRSP extension, and then breaks the connection when a WAVEAHAND or a
    CONCLUSION without extensions reaches it, both of which its peer sent
    while connecting. *)
Theorem rdv_late_packets (s : sock) (cookie : Z) :
  m_bConnected s = false -> m_bConnecting s = true -> m_SrtHsSide s <> HSD_DRAW -> m_RejectReason s = SRT_REJ_UNKNOWN ->
  m_RdvState s = RDV_FINE \/ m_RdvState s = RDV_INITIATED ->
  rejects (wave cookie) s
  /\ (m_RdvState s = RDV_FINE -> m_SrtHsSide s = HSD_INITIATOR ->
      exists t out, receive (conclude cookie (Some SRT_CMD_HSRSP)) s = (t, out) /\ m_bConnected t = true
        /\ Forall (fun m => exists u, receive m t = (u, [Handshake (mkHs (URQFailure SRT_REJ_ROGUE) 0 None)]) /\ m_bConnected u = false)
             [wave cookie; conclude cookie None]).
Proof.
  destruct s as [state side own ty ext res start_ connecting connected reason pkt]. cbn. intros -> -> Hs -> Hstate. split.
  - unfold rejects. destruct side; [done|..]; destruct Hstate as [->| ->]; eexists; (split; [reflexivity|done]).
  - intros -> ->.
    exists (mkSock RDV_CONNECTED HSD_INITIATOR own URQ_AGREEMENT false (Some (mkHs URQ_CONCLUSION cookie (Some SRT_CMD_HSRSP)))
              true false true SRT_REJ_UNKNOWN (agree own)), [agree own].
    split; [vm_compute; reflexivity|]. split; [done|]. repeat constructor; eexists; (split; [reflexivity|done]).
Qed.

(** The initiator, in FINE. *)
Lemma rdv_late_packets_witness :
  let s := mkSock RDV_FINE HSD_INITIATOR 5 URQ_CONCLUSION true (Some (mkHs URQ_CONCLUSION 3 None)) false true false
             SRT_REJ_UNKNOWN (conclude 5 (Some SRT_CMD_HSREQ)) in
  rejects (wave 3) s
  /\ (m_RdvState s = RDV_FINE -> m_SrtHsSide s = HSD_INITIATOR ->
      exists t out, receive (conclude 3 (Some SRT_CMD_HSRSP)) s = (t, out) /\ m_bConnected t = true
        /\ Forall (fun m => exists u, receive m t = (u, [Handshake (mkHs (URQFailure SRT_REJ_ROGUE) 0 None)]) /\ m_bConnected u = false)
             [wave 3; conclude 3 None]).
Proof. intros s. apply (rdv_late_packets s 3); cbn; auto; discriminate. Defined.
