(* ===== verification/Fec.v ===== *)
(** * The built-in packet filter (srtcore/fec.h, fec.cpp, packetfilter.cpp)

    Forward error correction: packets lie in a matrix of rows of [m_number_cols]
    packets, in the order of their sequence numbers; a group of packets is a row or
    a column of [m_number_rows] packets. The sender keeps for each group the
    exclusive or ("clip") of its packets' length, flags, time stamp and payload and
    sends it in a control packet when the group is complete; the receiver keeps the
    same of what it has, and a group that lacks one packet gives that packet.

    [FEC]: the sender ([feedSource], [packControlPacket]) and the receiver
    ([receive]) of [FECFilterBuiltin], and the calls of [PacketFilter] around them.
    The configuration is already parsed ([config]). Sizes are [Z]; an access outside
    a container, or outside the buffer of a packet, is [None]. Payload characters are
    bytes. Proofs are in FecSpec.v, FecSend.v, FecRcv.v, FecGroups.v,
    FecRebuild.v, FecHang.v and FecProps.v. *)

From S2P Require Import Prelude SeqNo Packet.

Module FEC.

Definition SRT_FEC_MAX_RCV_HISTORY : Z := 10.
Definition SRT_LIVE_MAX_PLSIZE : Z := 1456.

Inductive SRT_ARQLevel := SRT_ARQ_NEVER | SRT_ARQ_ONREQ | SRT_ARQ_ALWAYS.
Inductive EHangStatus := HANG_NOTDONE | HANG_SUCCESS | HANG_PAST | HANG_CRAZY.
Inductive ECellReceived := CELL_RECEIVED | CELL_EXTEND | CELL_REMOVE.
Inductive Type_ := HORIZ | VERT | SINGLE.

#[global] Instance SRT_ARQLevel_eq_dec : EqDecision SRT_ARQLevel.
Proof. solve_decision. Defined.
#[global] Instance EHangStatus_eq_dec : EqDecision EHangStatus.
Proof. solve_decision. Defined.
#[global] Instance ECellReceived_eq_dec : EqDecision ECellReceived.
Proof. solve_decision. Defined.

(** The parsed configuration and the values of [SrtFilterInitializer]. *)
Record config := mkConfig {
  m_number_cols : Z;
  m_number_rows : Z;
  m_cols_only : bool;
  m_arrangement_staircase : bool;
  m_fallback_level : SRT_ARQLevel;
  socketID : Z;
  payloadSize : Z;
  rcvBufferSize : Z
}.

(** [buffer] holds the bytes written into the packet's buffer. *)
Record SrtPacket := mkPacket {
  hdr_seqno : Z; hdr_msgno : Z; hdr_timestamp : Z; hdr_id : Z; buffer : list Z; len : Z
}.

Record Group := mkGroup {
  base : Z; gstep : Z; gdrop : Z; collected : Z;
  length_clip : Z; flag_clip : Z; timestamp_clip : Z; payload_clip : list Z
}.

Record RcvGroup := mkRcvGroup { grp : Group; fec : bool; dismissed : bool }.

Definition inc_collected (g : Group) : Group :=
  mkGroup (base g) (gstep g) (gdrop g) (collected g + 1) (length_clip g) (flag_clip g) (timestamp_clip g) (payload_clip g).

(** ** Groups and clips *)

Definition fresh : Group := mkGroup SRT_SEQNO_NONE 0 0 0 0 0 0 [].

Definition htons (x : Z) : Z := Z.lor (Z.shiftl (Z.land x 255) 8) (Z.land (Z.shiftr x 8) 255).

(** [clip[i] ^ payload[i]] for every [i] of the payload. *)
Fixpoint xor_into (clip payload : list Z) : list Z :=
  match clip, payload with
  | c :: clip', b :: payload' => Z.lxor c b :: xor_into clip' payload'
  | _, _ => clip
  end.

Section Filter.

Context (c : config).

Definition sizeCol : Z := m_number_rows c.
Definition sizeRow : Z := m_number_cols c.

Definition ConfigureGroup (g : Group) (seqno step drop : Z) : Group :=
  mkGroup seqno step drop 0 0 0 0 (resize (Z.to_nat (payloadSize c)) 0 (payload_clip g)).

Definition ResetGroup (g : Group) : Group :=
  mkGroup (CSeqNo.incseq_by (base g) (i32 (gdrop g))) (gstep g) (gdrop g) 0 0 0 0 (replicate (length (payload_clip g)) 0).

Definition ClipData (g : Group) (length_net kflg timestamp_hw : Z) (payload : list Z) : Group :=
  mkGroup (base g) (gstep g) (gdrop g) (collected g)
    (Z.lxor (length_clip g) length_net) (Z.lxor (flag_clip g) kflg) (Z.lxor (timestamp_clip g) timestamp_hw)
    (xor_into (payload_clip g) (take (Z.to_nat (payloadSize c)) payload)).

Definition ClipPacket (g : Group) (pkt : CPacket.t) : Group :=
  ClipData g (htons (u16 (CPacket.getLength pkt))) (u8 (CPacket.getMsgCryptoFlags pkt)) (CPacket.getMsgTimeStamp pkt)
    (CPacket.m_pcData pkt).

(** [None]: the packet is too short and false is returned. *)
Definition ClipControlPacket (g : Group) (pkt : CPacket.t) : option Group :=
  match CPacket.m_pcData pkt with
  | _ :: flag :: l0 :: l1 :: payload =>
    Some (ClipData g (Z.lor l0 (Z.shiftl l1 8)) flag (CPacket.getMsgTimeStamp pkt) payload)
  | _ => None
  end.

Definition ClipRebuiltPacket (g : Group) (pkt : SrtPacket) : Group :=
  ClipData g (htons (u16 (len pkt))) (u8 (Bits.unwrap MSGNO_ENCKEYSPEC (hdr_msgno pkt))) (hdr_timestamp pkt)
    (take (Z.to_nat (len pkt)) (buffer pkt)).

Definition CheckGroupClose (g : Group) (pos size : Z) : Group :=
  if pos mod 2 ^ 64 <? size then g else ResetGroup g.

(** The groups [ConfigureColumns] adds, for the series that begins with [isn]. *)
Fixpoint even_columns (n : nat) (seqno : Z) : list Group :=
  match n with
  | O => []
  | S n' => ConfigureGroup fresh seqno sizeRow (sizeCol * m_number_cols c) :: even_columns n' (CSeqNo.incseq seqno)
  end.

Fixpoint staircase_columns (n : nat) (isn col offset : Z) : list Group :=
  match n with
  | O => []
  | S n' =>
    let seq := CSeqNo.incseq_by isn (i32 offset) in
    let offset' := if col mod m_number_rows c =? m_number_rows c - 1 then col + 1 else offset + (1 + sizeRow) in
    ConfigureGroup fresh seq sizeRow (sizeCol * m_number_cols c) :: staircase_columns n' isn (col + 1) offset'
  end.

Definition ConfigureColumns (isn : Z) : list Group :=
  let n := Z.to_nat (m_number_cols c) in
  if m_arrangement_staircase c then staircase_columns n isn 0 0 else even_columns n isn.

(** ** The sender *)

Record Send := mkSend { row : Group; cols : list Group }.

(** [isn] is the value after [sndISN]. *)
Definition init_send (snd_isn : Z) : Send :=
  let isn := CSeqNo.incseq snd_isn in
  mkSend (ConfigureGroup fresh isn 1 sizeRow) (if sizeCol >? 1 then ConfigureColumns isn else []).

Definition feedSource (packet : CPacket.t) (s : Send) : option Send :=
  let seqno := CPacket.getSeqNo packet in
  let baseoff := CSeqNo.seqoff (base (row s)) seqno in
  let s := mkSend (inc_collected (ClipPacket (CheckGroupClose (row s) baseoff sizeRow) packet)) (cols s) in
  if sizeCol <? 2 then Some s
  else
    let vert_gx := i32 ((baseoff mod 2 ^ 64) mod sizeRow) in
    col ← aget (cols s) vert_gx;
    let vert_off := CSeqNo.seqoff (base col) seqno in
    if vert_off >=? 0 then
      if negb (vert_off mod sizeRow =? 0) then Some s
      else
        let vert_pos := vert_off / sizeRow in
        cs ← aset (cols s) vert_gx (inc_collected (ClipPacket (CheckGroupClose col vert_pos sizeCol) packet));
        Some (mkSend (row s) cs)
    else Some s.

Definition PackControl (g : Group) (index : Z) (pkt : SrtPacket) (seq : Z) : option SrtPacket :=
  let total_size := 1 + 1 + 2 + Z.of_nat (length (payload_clip g)) in
  let out := [u8 index; flag_clip g; Z.land (length_clip g) 255; Z.land (Z.shiftr (length_clip g) 8) 255] ++ payload_clip g in
  if total_size <=? SRT_LIVE_MAX_PLSIZE
  then Some (mkPacket (u32 seq) (hdr_msgno pkt) (timestamp_clip g) (hdr_id pkt) out total_size)
  else None.

(** The part on the row: shipped and reset, or only reset with columns only. *)
Definition pack_row (rpkt : SrtPacket) (seq : Z) (s : Send) : option (option SrtPacket * Send) :=
  if collected (row s) >=? m_number_cols c then
    let s' := mkSend (ResetGroup (row s)) (cols s) in
    if m_cols_only c then Some (None, s')
    else pkt ← PackControl (row s) (-1) rpkt seq; Some (Some pkt, s')
  else Some (None, s).

Definition packControlPacket (rpkt : SrtPacket) (seq : Z) (s : Send) : option (option SrtPacket * Send) :=
  if m_number_rows c <=? 1 then pack_row rpkt seq s
  else
    let offset_to_row_base := CSeqNo.seqoff (base (row s)) seq in
    let vert_gx := Z.rem (i32 (offset_to_row_base + m_number_cols c)) (m_number_cols c) in
    if offset_to_row_base <? 0 then pack_row rpkt seq s
    else
      col ← aget (cols s) vert_gx;
      if collected col >=? m_number_rows c then
        pkt ← PackControl col vert_gx rpkt seq;
        cs ← aset (cols s) vert_gx (ResetGroup col);
        Some (Some pkt, mkSend (row s) cs)
      else pack_row rpkt seq s.

(** [PacketFilter::packControlPacket]: the control packet as it is sent; its ID is
    set by the caller. *)
Definition PacketFilter_packControlPacket (rpkt : SrtPacket) (seq kflg : Z) (s : Send)
    : option (option CPacket.t * SrtPacket * Send) :=
  r ← packControlPacket rpkt seq s;
  let '(have, s) := r in
  Some (match have with
        | None => (None, rpkt, s)
        | Some p =>
          let msgno := Z.lor SRT_MSGNO_CONTROL (PacketBoundaryBits PB_SOLO) in
          (Some (CPacket.setMsgCryptoFlags kflg
                   (CPacket.mk (hdr_seqno p) msgno (hdr_timestamp p) (hdr_id p) (take (Z.to_nat (len p)) (buffer p)))), p, s)
        end).

(** The filter's part of [CUDT::packData] when nothing is retransmitted: a control
    packet that is ready goes first, otherwise [next] is sent and fed. The result
    also says whether it is [next]. *)
Definition packData (next : CPacket.t) (m_iSndCurrSeqNo kflg : Z) (rpkt : SrtPacket) (s : Send)
    : option (bool * CPacket.t * SrtPacket * Send) :=
  r ← PacketFilter_packControlPacket rpkt m_iSndCurrSeqNo kflg s;
  match r with
  | (Some p, rpkt, s) => Some (false, p, rpkt, s)
  | (None, rpkt, s) => s ← feedSource next s; Some (true, next, rpkt, s)
  end.

(** ** The receiver *)

Record Receive := mkReceive {
  order_required : bool;
  rowq : list RcvGroup;
  colq : list RcvGroup;
  cell_base : Z;
  cells : list bool;
  rebuilt : list SrtPacket
}.

Definition set_rowq (v : list RcvGroup) (r : Receive) : Receive :=
  mkReceive (order_required r) v (colq r) (cell_base r) (cells r) (rebuilt r).
Definition set_colq (v : list RcvGroup) (r : Receive) : Receive :=
  mkReceive (order_required r) (rowq r) v (cell_base r) (cells r) (rebuilt r).
Definition set_cells (b : Z) (v : list bool) (r : Receive) : Receive :=
  mkReceive (order_required r) (rowq r) (colq r) b v (rebuilt r).
Definition set_rebuilt (v : list SrtPacket) (r : Receive) : Receive :=
  mkReceive (order_required r) (rowq r) (colq r) (cell_base r) (cells r) v.
Definition set_order (v : bool) (r : Receive) : Receive :=
  mkReceive v (rowq r) (colq r) (cell_base r) (cells r) (rebuilt r).

Definition rcv_group (g : Group) : RcvGroup := mkRcvGroup g false false.

Definition set_grp (g : Group) (x : RcvGroup) : RcvGroup := mkRcvGroup g (fec x) (dismissed x).

Definition init_receive (rcv_isn : Z) : Receive :=
  let isn := CSeqNo.incseq rcv_isn in
  mkReceive false [rcv_group (ConfigureGroup fresh isn 1 sizeRow)]
    (if sizeCol >? 1 then map rcv_group (ConfigureColumns isn) else [])
    isn (replicate (Z.to_nat (sizeCol * sizeRow)) false) [].

(** A monad over the receiver; [None] is undefined behaviour. *)
Definition RM (A : Type) : Type := Receive -> option (A * Receive).

#[global] Instance RM_ret : MRet RM := fun A a r => Some (a, r).
#[global] Instance RM_bind : MBind RM := fun A B f m r => x ← m r; f (fst x) (snd x).

Definition rget : RM Receive := fun r => Some (r, r).
Definition rmodify (f : Receive -> Receive) : RM unit := fun r => Some (tt, f r).
Definition rlift {A} (o : option A) : RM A := fun r => a ← o; Some (a, r).

Definition row_at (i : Z) : RM RcvGroup := r ← rget; rlift (aget (rowq r) i).
Definition col_at (i : Z) : RM RcvGroup := r ← rget; rlift (aget (colq r) i).
Definition set_row (i : Z) (g : RcvGroup) : RM unit :=
  r ← rget; q ← rlift (aset (rowq r) i g); rmodify (set_rowq q).
Definition set_col (i : Z) (g : RcvGroup) : RM unit :=
  r ← rget; q ← rlift (aset (colq r) i g); rmodify (set_colq q).

Definition first_row (seqno : Z) : list RcvGroup := [rcv_group (ConfigureGroup fresh seqno 1 sizeRow)].

Definition CheckLargeDrop (seqno : Z) : RM unit :=
  head ← row_at 0;
  let offset := CSeqNo.seqoff (base (grp head)) seqno in
  if offset <? 0 then mret ()
  else if m_number_rows c =? 1 then
    if offset >? i32 (5 * sizeRow) then
      let rowdist := offset / sizeRow in
      let newbase := CSeqNo.incseq_by (base (grp head)) (i32 (rowdist * sizeRow)) in
      rmodify (fun r => set_rowq (first_row newbase) (set_cells (cell_base r) [] r))
    else mret ()
  else
    col0 ← col_at 0;
    let reset_anyway := negb (offset =? CSeqNo.seqoff (base (grp col0)) seqno) in
    let colx := offset mod m_number_cols c in
    col ← col_at colx;
    let coloff := CSeqNo.seqoff (base (grp col)) seqno in
    if coloff <? 0 then mret ()
    else
      let size_in_packets := colx * m_number_rows c in
      let matrix := m_number_rows c * m_number_cols c in
      let colseries := coloff / matrix in
      if (size_in_packets >? rcvBufferSize c / 2) || (colseries >? SRT_FEC_MAX_RCV_HISTORY) || reset_anyway then
        let newbase := CSeqNo.incseq_by (base (grp col0)) (i32 ((colseries - 1) * matrix)) in
        rmodify (fun r => set_rowq (first_row newbase)
                            (set_colq (map rcv_group (ConfigureColumns newbase)) (set_cells newbase [] r)))
      else mret ().

Definition CheckEmergencyShrink (n_series size_in_packets : Z) : RM bool :=
  let min_series_history := if m_arrangement_staircase c then 4 else 2 in
  if n_series <=? min_series_history then mret false
  else if (size_in_packets <? rcvBufferSize c) && (n_series <? SRT_FEC_MAX_RCV_HISTORY) then mret false
  else
    col0 ← col_at 0;
    r ← rget;
    let shift_series := n_series - 1 in
    let shift := shift_series * m_number_cols c * m_number_rows c in
    let newbase := CSeqNo.incseq_by (base (grp col0)) (i32 shift) in
    let shift_rows := shift_series * m_number_rows c in
    reset_rows ← (if Z.of_nat (length (rowq r)) <? shift_rows then mret true
                  else g ← row_at (m_number_rows c); mret (negb (base (grp g) =? newbase)));
    rmodify (fun r => set_rowq (if (reset_rows : bool) then first_row newbase else drop (Z.to_nat shift_rows) (rowq r)) r);;
    let shift_cols := shift_series * m_number_cols c in
    reset_cols ← (if Z.of_nat (length (colq r)) <? shift_cols then mret true
                  else g ← col_at (m_number_cols c); mret (negb (base (grp g) =? newbase)));
    rmodify (fun r => if (reset_cols : bool) then set_colq (map rcv_group (ConfigureColumns newbase)) r else r);;
    rmodify (fun r => set_cells newbase
                        (if Z.of_nat (length (cells r)) >? shift then drop (Z.to_nat shift) (cells r) else [false]) r);;
    mret true.

(** The rows from index [old] on that [ExtendRows] configures. *)
Definition more_rows (base0 old n : Z) : list RcvGroup :=
  map (fun i => rcv_group (ConfigureGroup fresh (CSeqNo.incseq_by base0 (i32 ((old + Z.of_nat i) * m_number_cols c))) 1 (m_number_cols c)))
    (seq 0 (Z.to_nat n)).

Definition ExtendRows (rowx : Z) : RM Z :=
  CheckEmergencyShrink (rowx / m_number_rows c) (rowx * m_number_cols c);;
  head ← row_at 0;
  rmodify (fun r => let old := Z.of_nat (length (rowq r)) in
                    set_rowq (take (Z.to_nat (rowx + 1)) (rowq r) ++ more_rows (base (grp head)) old (rowx + 1 - old)) r);;
  mret rowx.

(** The index, or the status where it is -1. *)
Definition RcvGetRowGroupIndex (seqno : Z) : RM (EHangStatus + Z) :=
  head ← row_at 0;
  let offset := CSeqNo.seqoff (base (grp head)) seqno in
  if offset <? 0 then mret (inl HANG_PAST)
  else
    let rowx := offset / m_number_cols c in
    r ← rget;
    x ← (if rowx >=? Z.of_nat (length (rowq r)) then ExtendRows rowx else mret rowx);
    mret (inr x).

Definition MarkCellReceived (seqno : Z) (is_received : ECellReceived) : RM unit :=
  r ← rget;
  let cell_offset := CSeqNo.seqoff (cell_base r) seqno in
  let resized := cell_offset >=? Z.of_nat (length (cells r)) in
  let cs := if resized then resize (Z.to_nat (cell_offset + 1)) false (cells r) else cells r in
  if resized || negb (bool_decide (is_received = CELL_EXTEND)) then
    cs ← rlift (aset cs cell_offset (bool_decide (is_received = CELL_RECEIVED)));
    rmodify (fun r => set_cells (cell_base r) cs r)
  else rmodify (fun r => set_cells (cell_base r) cs r).

(** [rcv.CellAt]: a cell that does not exist is created, empty. *)
Definition CellAt (index : Z) : RM bool :=
  r ← rget;
  if index >=? Z.of_nat (length (cells r)) then
    rmodify (fun r => set_cells (cell_base r) (resize (Z.to_nat (index + 1)) false (cells r)) r);; mret false
  else rlift (aget (cells r) index).

(** The loop of [RcvGetLossSeqHoriz] and [RcvGetLossSeqVert]: the first empty one
    of [n] cells from [cix] on, [step] cells apart, or -1. *)
Fixpoint first_missing (n : nat) (cix step : Z) : RM Z :=
  match n with
  | O => mret (-1)
  | S n' => there ← CellAt cix; if (there : bool) then first_missing n' (cix + step) step else mret cix
  end.

Definition loss_seq (n step : Z) (g : Group) : RM Z :=
  r ← rget;
  let baseoff := CSeqNo.seqoff (cell_base r) (base g) in
  if baseoff <? 0 then mret (-1)
  else
    offset ← first_missing (Z.to_nat n) baseoff step;
    mret (if offset =? -1 then -1 else CSeqNo.incseq_by (cell_base r) offset).

Definition RcvGetLossSeqHoriz (g : Group) : RM Z := loss_seq (m_number_cols c) 1 g.
Definition RcvGetLossSeqVert (g : Group) : RM Z := loss_seq sizeCol sizeRow g.

(** ** The column groups of the receiver *)

Fixpoint more_series (n : nat) (base0 s : Z) : list RcvGroup :=
  match n with
  | O => []
  | S n' =>
    map rcv_group (ConfigureColumns (CSeqNo.incseq_by base0 (i32 (m_number_cols c * m_number_rows c * s))))
    ++ more_series n' base0 (s + 1)
  end.

Definition ExtendColumns (colgx : Z) : RM Z :=
  CheckEmergencyShrink (colgx / m_number_cols c) (colgx * m_number_rows c);;
  let series := colgx / m_number_cols c in
  col0 ← col_at 0;
  rmodify (fun r => let old_series := Z.of_nat (length (colq r)) / m_number_cols c in
                    set_colq (colq r ++ more_series (Z.to_nat (series - old_series + 1)) (base (grp col0)) old_series) r);;
  mret colgx.

Definition RcvGetColumnGroupIndex (seqno : Z) : RM (EHangStatus + Z) :=
  col0 ← col_at 0;
  let offset := CSeqNo.seqoff (base (grp col0)) seqno in
  if offset <? 0 then mret (inl HANG_PAST)
  else if offset >? CSeqNo.m_iSeqNoTH / 2 then mret (inl HANG_CRAZY)
  else
    let colx := offset mod m_number_cols c in
    col ← col_at colx;
    let coloff := CSeqNo.seqoff (base (grp col)) seqno in
    if coloff <? 0 then mret (inl HANG_PAST)
    else
      let colseries := coloff / (m_number_cols c * m_number_rows c) in
      let colgx := colx + colseries * m_number_cols c in
      if colgx >? m_number_rows c * m_number_cols c * SRT_FEC_MAX_RCV_HISTORY then mret (inl HANG_CRAZY)
      else
        r ← rget;
        x ← (if colgx >=? Z.of_nat (length (colq r)) then ExtendColumns colgx else mret colgx);
        mret (inr x).

(** ** Rebuilding a packet *)

Definition rebuilt_packet (order : bool) (g : Group) (seqno : Z) : SrtPacket :=
  let msgno := Z.lor (Z.lor (Z.lor (Z.lor 1 (Bits.wrap MSGNO_PACKET_BOUNDARY (PacketBoundary_to PB_SOLO)))
                                   (Bits.wrap MSGNO_PACKET_INORDER (if order then 1 else 0)))
                            (Bits.wrap MSGNO_ENCKEYSPEC (flag_clip g)))
                     (Bits.wrap MSGNO_REXMIT 1) in
  mkPacket (u32 seqno) msgno (timestamp_clip g) (u32 (socketID c)) (payload_clip g) (htons (length_clip g)).

(** [fuel] bounds the recursion from rows to columns and back. *)
Fixpoint RcvRebuild (fuel : nat) (g : Group) (seqno : Z) (tp : Type_) : RM unit :=
  match fuel with
  | O => rlift None
  | S fuel' =>
    if seqno =? -1 then mret ()
    else if htons (length_clip g) >? payloadSize c then mret ()
    else
      r ← rget;
      let p := rebuilt_packet (order_required r) g seqno in
      (if Z.of_nat (length (payload_clip g)) <=? SRT_LIVE_MAX_PLSIZE
       then rmodify (fun r => set_rebuilt (rebuilt r ++ [p]) r) else rlift None);;
      MarkCellReceived seqno CELL_RECEIVED;;
      match tp with
      | SINGLE => mret ()
      | VERT =>
        ix ← RcvGetRowGroupIndex seqno;
        match ix with
        | inl _ => mret ()
        | inr rowx =>
          rowg ← row_at rowx;
          if collected (grp rowg) >? m_number_cols c - 1 then mret ()
          else
            let g' := inc_collected (ClipRebuiltPacket (grp rowg) p) in
            set_row rowx (set_grp g' rowg);;
            if fec rowg && (collected g' =? m_number_cols c - 1)
            then lost ← RcvGetLossSeqHoriz g'; RcvRebuild fuel' g' lost HORIZ
            else mret ()
        end
      | HORIZ =>
        ix ← RcvGetColumnGroupIndex seqno;
        match ix with
        | inl _ => mret ()
        | inr colx =>
          colg ← col_at colx;
          if collected (grp colg) >? m_number_rows c - 1 then mret ()
          else
            let g' := inc_collected (ClipRebuiltPacket (grp colg) p) in
            set_col colx (set_grp g' colg);;
            if fec colg && (collected g' =? m_number_rows c - 1)
            then lost ← RcvGetLossSeqVert g'; RcvRebuild fuel' g' lost VERT
            else mret ()
        end
      end
  end.

(** ** The losses that cannot be rebuilt *)

Definition loss_seqs_t : Type := list (Z * Z).

(** The loop of [CollectIrrecoverRow] over the cells from index [i] on. *)
Fixpoint irrecover_loop (cs : list bool) (base0 i : Z) (last : bool) (val : Z * Z) : bool * (Z * Z) * loss_seqs_t :=
  match cs with
  | [] => (last, val, [])
  | b :: cs' =>
    let seqno := CSeqNo.incseq_by base0 (i32 i) in
    if last && negb b then irrecover_loop cs' base0 (i + 1) b (seqno, seqno)
    else if b && negb last then
      let '(l, v, out) := irrecover_loop cs' base0 (i + 1) b (fst val, seqno) in
      (l, v, (fst val, seqno) :: out)
    else irrecover_loop cs' base0 (i + 1) b val
  end.

(** The losses of row [i] of the queue. *)
Definition CollectIrrecoverRow (i : Z) : RM loss_seqs_t :=
  x ← row_at i;
  if (dismissed x : bool) then mret []
  else
    r ← rget;
    let offset := CSeqNo.seqoff (cell_base r) (base (grp x)) in
    let maxoff := offset + m_number_cols c in
    if offset <? 0 then mret []
    else if maxoff >? Z.of_nat (length (cells r)) then mret []
    else
      let '(last, val, out) :=
        irrecover_loop (take (Z.to_nat (m_number_cols c)) (drop (Z.to_nat offset) (cells r))) (cell_base r) offset true (0, 0) in
      set_row i (mkRcvGroup (grp x) (fec x) true);;
      mret (if last then out else out ++ [(fst val, CSeqNo.incseq_by (cell_base r) (i32 (maxoff - 1)))]).

Fixpoint CollectIrrecoverRows (n : nat) (i : Z) : RM loss_seqs_t :=
  match n with
  | O => mret []
  | S n' => a ← CollectIrrecoverRow i; b ← CollectIrrecoverRows n' (i + 1); mret (a ++ b)
  end.

Definition IsLost (seqno : Z) (r : Receive) : option bool :=
  let offset := CSeqNo.seqoff (cell_base r) seqno in
  if offset <? 0 then Some true
  else if offset >=? Z.of_nat (length (cells r)) then Some false
  else aget (cells r) offset.

(** [std::set<int32_t>::insert]. *)
Fixpoint set_insert (x : Z) (l : list Z) : list Z :=
  match l with
  | [] => [x]
  | y :: l' => if x <? y then x :: l else if x =? y then l else y :: set_insert x l'
  end.

Fixpoint translate_loop (l : list Z) (fi_start fi_end : Z) : loss_seqs_t :=
  match l with
  | [] => [(fi_start, fi_end)]
  | x :: l' =>
    if CSeqNo.seqoff fi_end x =? 1 then translate_loop l' fi_start (i32 (fi_end + 1))
    else (fi_start, fi_end) :: translate_loop l' x x
  end.

Definition TranslateLossRecords (loss : list Z) : loss_seqs_t :=
  match loss with [] => [] | x :: l => translate_loop l x x end.

(** The packets of a column group that are lost. *)
Fixpoint column_losses (n : nat) (base0 sof step : Z) (r : Receive) (loss : list Z) : option (list Z) :=
  match n with
  | O => Some loss
  | S n' =>
    let lseq := CSeqNo.incseq_by base0 (i32 sof) in
    there ← IsLost lseq r;
    column_losses n' base0 (sof + step) step r (if (there : bool) then loss else set_insert lseq loss)
  end.

(** The walk over the column groups of series 0. *)
Fixpoint dismiss_columns (n : nat) (seqno i : Z) (loss : list Z) : RM (list Z) :=
  match n with
  | O => mret loss
  | S n' =>
    pg ← col_at i;
    let last_seq_offset := i32 (CSeqNo.seqoff (base (grp pg)) seqno - i32 ((sizeCol - 1) * sizeRow)) in
    if dismissed pg || (last_seq_offset <? 0) then dismiss_columns n' seqno (i + 1) loss
    else
      set_col i (mkRcvGroup (grp pg) (fec pg) true);;
      r ← rget;
      loss ← rlift (column_losses (Z.to_nat sizeCol) (base (grp pg)) 0 (gstep (grp pg)) r loss);
      dismiss_columns n' seqno (i + 1) loss
  end.

(** One series of columns, one matrix of rows and of cells goes. *)
Definition dismiss_series : RM unit :=
  next ← col_at (m_number_cols c);
  r ← rget;
  let newbase := base (grp next) in
  let matrix_size := m_number_cols c * m_number_rows c in
  let undercounted := Z.of_nat (length (rowq r)) - 1 <? m_number_rows c in
  insane ← (if undercounted then mret false
            else g ← row_at (m_number_rows c); mret (negb (base (grp g) =? newbase)));
  rmodify (fun r => set_colq (drop (Z.to_nat (m_number_cols c)) (colq r)) r);;
  rmodify (fun r => set_rowq (if (insane : bool) || undercounted then first_row newbase
                              else drop (Z.to_nat (m_number_rows c)) (rowq r)) r);;
  rmodify (fun r =>
    let n := Z.of_nat (length (cells r)) in
    let cs :=
      if negb (newbase =? CSeqNo.incseq_by (cell_base r) (i32 matrix_size)) then
        let shift := CSeqNo.seqoff (cell_base r) newbase in
        if (shift <? 0) || (shift >? n) then [] else drop (Z.to_nat shift) (cells r)
      else if n <=? matrix_size then [] else drop (Z.to_nat matrix_size) (cells r) in
    set_cells newbase cs r).

Definition RcvCheckDismissColumn (seqno colgx : Z) : RM loss_seqs_t :=
  let series := colgx / m_number_cols c in
  if series =? 0 then mret []
  else
    loss ← dismiss_columns (Z.to_nat (m_number_cols c)) seqno 0 [];
    col0 ← col_at 0;
    r ← rget;
    let this_off := CSeqNo.seqoff (base (grp col0)) seqno in
    let mindist := i32 (if m_arrangement_staircase c then m_number_cols c * m_number_rows c * 2
                        else m_number_cols c * m_number_rows c) in
    (if this_off <? mindist then mret ()
     else if Z.of_nat (length (colq r)) - 1 <? m_number_cols c then mret ()
     else dismiss_series);;
    mret (TranslateLossRecords loss).

(** ** Hanging a packet on its groups *)

(** A rebuilding completes its group, so there is at most one for every group. *)
Definition rebuild_fuel (r : Receive) : nat := S (length (rowq r) + length (colq r)).

(** A packet or the control packet put into a group, and the rebuilding of the
    packet that lacks. [None]: the control packet is too short. *)
Definition put_in (isfec : bool) (pkt : CPacket.t) (x : RcvGroup) : option RcvGroup :=
  if isfec then
    if fec x then Some x
    else g ← ClipControlPacket (grp x) pkt; Some (mkRcvGroup g true (dismissed x))
  else Some (set_grp (inc_collected (ClipPacket (grp x) pkt)) x).

(** The rows to collect the losses of, from the first one on. *)
Definition rows_past (seqno : Z) : RM Z :=
  r ← rget;
  let current := Z.of_nat (length (rowq r)) - 2 in
  let past := current - 1 in
  if past >? 0 then mret (past - 1)
  else
    row1 ← row_at 1;
    mret (if CSeqNo.seqoff (base (grp row1)) seqno <=? m_number_cols c / 3 then past - 1 else past).

Definition dismiss_rows (seqno : Z) : RM loss_seqs_t :=
  r ← rget;
  let many := Z.of_nat (length (rowq r)) >? 1 in
  let want_remove_cells := many && (m_number_rows c =? 1) in
  let want_collect := many && ((m_number_rows c =? 1) || bool_decide (m_fallback_level c = SRT_ARQ_ONREQ)) in
  if negb want_collect then mret []
  else
    past ← rows_past seqno;
    if past <? 0 then mret []
    else
      let nrowremove := 1 + past in
      irrecover ← CollectIrrecoverRows (Z.to_nat nrowremove) 0;
      r ← rget;
      (if want_remove_cells && (Z.of_nat (length (rowq r)) >? nrowremove) then
         let npktremove := sizeRow * nrowremove in
         let rows := drop (Z.to_nat nrowremove) (rowq r) in
         head ← rlift (aget rows 0);
         rmodify (fun r => set_cells (base (grp head)) (drop (Z.to_nat npktremove) (cells r)) (set_rowq rows r))
       else mret ());;
      mret irrecover.

Definition HangHorizontal (rpkt : CPacket.t) (isfec : bool) : RM (EHangStatus * loss_seqs_t) :=
  let seqno := CPacket.getSeqNo rpkt in
  ix ← RcvGetRowGroupIndex seqno;
  match ix with
  | inl stat => mret (stat, [])
  | inr rowx =>
    rowg ← row_at rowx;
    match put_in isfec rpkt rowg with
    | None => mret (HANG_CRAZY, [])
    | Some rowg =>
      set_row rowx rowg;;
      (if fec rowg && (collected (grp rowg) =? m_number_cols c - 1) then
         lost ← RcvGetLossSeqHoriz (grp rowg);
         r ← rget;
         RcvRebuild (rebuild_fuel r) (grp rowg) lost (if m_number_rows c =? 1 then SINGLE else HORIZ)
       else mret ());;
      irrecover ← dismiss_rows seqno;
      mret (HANG_SUCCESS, irrecover)
    end
  end.

Definition HangVertical (rpkt : CPacket.t) (fec_col : Z) : RM (EHangStatus * loss_seqs_t) :=
  let seqno := CPacket.getSeqNo rpkt in
  ix ← RcvGetColumnGroupIndex seqno;
  match ix with
  | inl stat => mret (stat, [])
  | inr colgx =>
    colg ← col_at colgx;
    match put_in (negb (fec_col =? -1)) rpkt colg with
    | None => mret (HANG_CRAZY, [])
    | Some colg =>
      set_col colgx colg;;
      (if fec colg && (collected (grp colg) =? m_number_rows c - 1) then
         lost ← RcvGetLossSeqVert (grp colg);
         r ← rget;
         RcvRebuild (rebuild_fuel r) (grp colg) lost VERT
       else mret ());;
      irrecover ← RcvCheckDismissColumn seqno colgx;
      mret (HANG_SUCCESS, irrecover)
    end
  end.

(** A byte as the [signed char] it is. *)
Definition schar (b : Z) : Z := if b <? 128 then b else b - 256.

(** What follows the first checks: the packet is hung on its groups. [colx] is the
    column of a control packet, -1 for a row or a data packet. *)
Definition hang (rpkt : CPacket.t) (ctl : bool) (colx : Z) : RM loss_seqs_t :=
  let is_row := ctl && (colx =? -1) in
  let is_col := ctl && negb (colx =? -1) in
  h ← (if is_col then mret (HANG_NOTDONE, []) else HangHorizontal rpkt is_row);
  v ← (if negb is_row && (m_number_rows c >? 1) then HangVertical rpkt colx else mret (HANG_NOTDONE, []));
  (if bool_decide (fst v = HANG_CRAZY) || bool_decide (fst h = HANG_CRAZY)
   then MarkCellReceived (CPacket.getSeqNo rpkt) CELL_REMOVE else mret ());;
  mret (if decide (m_fallback_level c = SRT_ARQ_ONREQ) then if m_number_rows c =? 1 then snd h else snd v else []).

(** The result is whether the packet is passed on, and the losses to report. *)
Definition receive (rpkt : CPacket.t) : RM (bool * loss_seqs_t) :=
  let seqno := CPacket.getSeqNo rpkt in
  CheckLargeDrop seqno;;
  if CPacket.getMsgSeq true rpkt =? SRT_MSGNO_CONTROL then
    b ← rlift (head (CPacket.m_pcData rpkt));
    MarkCellReceived seqno CELL_EXTEND;;
    loss ← hang rpkt true (schar b);
    mret (false, loss)
  else
    r ← rget;
    let celloff := CSeqNo.seqoff (cell_base r) seqno in
    let past := celloff <? 0 in
    let exists_ := (celloff <? Z.of_nat (length (cells r))) && negb past && default false (aget (cells r) celloff) in
    if past || exists_ then mret (true, [])
    else
      MarkCellReceived seqno CELL_RECEIVED;;
      rmodify (set_order (CPacket.getMsgOrderFlag rpkt));;
      loss ← hang rpkt false (-1);
      mret (true, loss).

(** [PacketFilter::receive] and [InsertRebuilt]: the packet itself, if it is passed
    on, and those rebuilt, in the order of their sequence numbers; there is a unit
    for every packet. *)
Definition insert_rebuilt (p : SrtPacket) : CPacket.t :=
  CPacket.mk (hdr_seqno p) (hdr_msgno p) (hdr_timestamp p) (hdr_id p) (take (Z.to_nat (len p)) (buffer p)).

Fixpoint insert_by_seq (p : CPacket.t) (l : list CPacket.t) : list CPacket.t :=
  match l with
  | [] => [p]
  | q :: l' => if CSeqNo.seqcmp (CPacket.getSeqNo p) (CPacket.getSeqNo q) <? 0 then p :: l else q :: insert_by_seq p l'
  end.

Definition sort_by_seq (l : list CPacket.t) : list CPacket.t := foldr insert_by_seq [] l.

Definition PacketFilter_receive (rpkt : CPacket.t) : RM (list CPacket.t * loss_seqs_t) :=
  '(want, loss) ← receive rpkt;
  r ← rget;
  rmodify (set_rebuilt []);;
  mret (sort_by_seq ((if (want : bool) then [rpkt] else []) ++ map insert_rebuilt (rebuilt r)), loss).

End Filter.

End FEC.
