(* ===== verification/FecSpec.v ===== *)
(** * Clips of groups of packets

    A clip is the exclusive or of what packets contribute to their group. The clip
    of a list of packets does not depend on their order, and the clip of all packets
    of a group together with that of all but one is what that one contributes. *)

From S2P Require Import Prelude SeqNo Packet Fec.

Import FEC.

Record clip := mkClip { cl_len : Z; cl_flag : Z; cl_ts : Z; cl_data : list Z }.

Definition xor_list (a b : list Z) : list Z := zip_with Z.lxor a b.

Definition cxor (a b : clip) : clip :=
  mkClip (Z.lxor (cl_len a) (cl_len b)) (Z.lxor (cl_flag a) (cl_flag b)) (Z.lxor (cl_ts a) (cl_ts b))
    (xor_list (cl_data a) (cl_data b)).

Definition clip_of (g : Group) : clip := mkClip (length_clip g) (flag_clip g) (timestamp_clip g) (payload_clip g).

(** ** Exclusive or *)

Lemma xor_list_comm a b : xor_list a b = xor_list b a.
Proof. revert b. induction a as [|x a IH]; intros [|y b]; cbn; [done..|]. by rewrite Z.lxor_comm, <- IH. Qed.

Lemma xor_list_assoc a b d : xor_list a (xor_list b d) = xor_list (xor_list a b) d.
Proof.
  revert b d. induction a as [|x a IH]; intros [|y b] [|z d]; cbn; [done..|]. unfold xor_list in IH. by rewrite IH, Z.lxor_assoc.
Qed.

Lemma xor_list_cancel a b : length a = length b -> xor_list a (xor_list a b) = b.
Proof.
  revert b. induction a as [|x a IH]; intros [|y b] H; cbn in *; try lia; [done|]. unfold xor_list in IH.
  by rewrite IH, <- Z.lxor_assoc, Z.lxor_nilpotent, Z.lxor_0_l by lia.
Qed.

Lemma xor_list_length a b : length a = length b -> length (xor_list a b) = length a.
Proof. intros H. unfold xor_list. rewrite length_zip_with. lia. Qed.

Lemma xor_list_zero a : xor_list (replicate (length a) 0) a = a.
Proof. induction a as [|x a IH]; cbn; [done|]. unfold xor_list in IH. by rewrite IH, Z.lxor_0_l. Qed.

Lemma cxor_comm a b : cxor a b = cxor b a.
Proof. unfold cxor. by rewrite (Z.lxor_comm (cl_len a)), (Z.lxor_comm (cl_flag a)), (Z.lxor_comm (cl_ts a)), xor_list_comm. Qed.

Lemma cxor_assoc a b d : cxor a (cxor b d) = cxor (cxor a b) d.
Proof. unfold cxor. cbn. by rewrite !Z.lxor_assoc, xor_list_assoc. Qed.

Lemma cxor_swap a b d : cxor a (cxor b d) = cxor b (cxor a d).
Proof. by rewrite cxor_assoc, (cxor_comm a), <- cxor_assoc. Qed.

Lemma cxor_cancel a b : length (cl_data a) = length (cl_data b) -> cxor a (cxor a b) = b.
Proof.
  intros H. destruct b as [bl bf bt bd]. unfold cxor. cbn [cl_len cl_flag cl_ts cl_data] in *.
  by rewrite <- !Z.lxor_assoc, !Z.lxor_nilpotent, !Z.lxor_0_l, xor_list_cancel.
Qed.

Lemma lxor_range k a b : 0 <= k -> 0 <= a < 2 ^ k -> 0 <= b < 2 ^ k -> 0 <= Z.lxor a b < 2 ^ k.
Proof.
  intros Hk Ha Hb. split; [by apply Z.lxor_nonneg; lia|].
  destruct (Z.eq_dec (Z.lxor a b) 0) as [->|Hne]; [lia|].
  apply Z.log2_lt_cancel. rewrite Z.log2_pow2 by lia.
  assert (0 <= Z.lxor a b) by (apply Z.lxor_nonneg; lia).
  eapply Z.le_lt_trans; [apply Z.log2_lxor; lia|].
  assert (forall x, 0 <= x < 2 ^ k -> Z.log2 x < k \/ k = 0) as Hl.
  { intros x Hx. destruct (Z.eq_dec x 0) as [->|]; [cbn; lia|]. left. apply Z.log2_lt_pow2; lia. }
  destruct (Z.eq_dec k 0) as [->|]; [|destruct (Hl a Ha), (Hl b Hb); lia].
  replace a with 0 in * by lia. replace b with 0 in * by lia. done.
Qed.

Lemma htons_mod x : htons x = (x / 256) mod 256 + (x mod 256) * 256.
Proof.
  unfold htons. rewrite !land_255, Z.shiftr_div_pow2 by lia. rewrite Z.lor_comm, lor_shift_add by zlia. done.
Qed.

Lemma htons_range x : 0 <= htons x < 2 ^ 16.
Proof. rewrite htons_mod. zlia. Qed.

(** ** What a packet contributes *)

Section Clips.

Context (ps : nat).

Definition zero_clip : clip := mkClip 0 0 0 (replicate ps 0).

Definition contrib (p : CPacket.t) : clip :=
  mkClip (htons (u16 (CPacket.getLength p))) (u8 (CPacket.getMsgCryptoFlags p)) (CPacket.getMsgTimeStamp p)
    (resize ps 0 (CPacket.m_pcData p)).

Definition csum (l : list CPacket.t) : clip := foldr (fun p a => cxor (contrib p) a) zero_clip l.

Lemma csum_data_length l : length (cl_data (csum l)) = ps.
Proof using Type.
  induction l as [|p l IH]; cbn; [apply length_replicate|]. unfold cxor, contrib. cbn.
  rewrite xor_list_length; rewrite length_resize; [done|]. exact (eq_sym IH).
Qed.

Lemma csum_perm l l' : l ≡ₚ l' -> csum l = csum l'.
Proof using Type.
  induction 1 as [|p l l' _ IH|p q l|l l' l'' _ IH1 _ IH2]; [done|exact (f_equal _ IH)|apply cxor_swap|by rewrite IH1].
Qed.

(** All packets of a group, and all but one. *)
Lemma csum_missing p l all : all ≡ₚ p :: l -> cxor (csum l) (csum all) = contrib p.
Proof using Type.
  intros H. rewrite (csum_perm _ _ H). change (csum (p :: l)) with (cxor (contrib p) (csum l)). rewrite (cxor_comm (contrib p)).
  apply cxor_cancel. rewrite csum_data_length. unfold contrib. cbn. by rewrite length_resize.
Qed.

Definition in_range (k : clip) : Prop :=
  0 <= cl_len k < 2 ^ 16 /\ 0 <= cl_flag k < 2 ^ 8 /\ 0 <= cl_ts k < 2 ^ 32 /\ length (cl_data k) = ps.

Lemma cxor_in_range a b : in_range a -> in_range b -> in_range (cxor a b).
Proof using Type.
  intros (H1 & H2 & H3 & H4) (G1 & G2 & G3 & G4). unfold in_range, cxor. cbn.
  repeat (split; [by apply lxor_range|]). rewrite xor_list_length; congruence.
Qed.

Lemma contrib_in_range p : CPacket.wf p -> in_range (contrib p).
Proof using Type.
  intros (_ & _ & Ht & _ & _). unfold in_range, contrib. cbn [cl_len cl_flag cl_ts cl_data].
  split; [apply htons_range|]. split; [apply Z.mod_pos_bound; lia|]. split; [|apply length_resize].
  unfold CPacket.getMsgTimeStamp. change CPacket.MAX_TIMESTAMP with (Z.ones 32). rewrite Z.land_ones by lia.
  apply Z.mod_pos_bound. lia.
Qed.

Lemma csum_in_range l : Forall CPacket.wf l -> in_range (csum l).
Proof using Type.
  induction 1 as [|p l Hp _ IH]; cbn; [|by apply cxor_in_range; [apply contrib_in_range|]].
  unfold in_range, zero_clip. cbn. rewrite length_replicate. lia.
Qed.

End Clips.

(** ** The operations of Fec.v on clips *)

Lemma xor_into_resize clip payload :
  (length payload <= length clip)%nat -> xor_into clip payload = xor_list clip (resize (length clip) 0 payload).
Proof.
  revert payload. induction clip as [|x clip IH]; intros [|b payload] H; cbn in *; try lia; [done| |].
  - rewrite Z.lxor_0_r. f_equal. clear. induction clip as [|y clip IH]; cbn; [done|]. by rewrite Z.lxor_0_r, <- IH.
  - by rewrite IH by lia.
Qed.

Lemma clip_of_ClipData c g len kflg ts payload :
  length (payload_clip g) = Z.to_nat (payloadSize c) -> (length payload <= Z.to_nat (payloadSize c))%nat ->
  clip_of (ClipData c g len kflg ts payload) = cxor (clip_of g) (mkClip len kflg ts (resize (Z.to_nat (payloadSize c)) 0 payload)).
Proof.
  intros Hg Hp. unfold clip_of, ClipData, cxor. cbn [length_clip flag_clip timestamp_clip payload_clip cl_len cl_flag cl_ts cl_data].
  rewrite take_ge by lia. by rewrite xor_into_resize, Hg by lia.
Qed.

Lemma clip_of_ClipPacket c g p :
  length (payload_clip g) = Z.to_nat (payloadSize c) -> (length (CPacket.m_pcData p) <= Z.to_nat (payloadSize c))%nat ->
  clip_of (ClipPacket c g p) = cxor (clip_of g) (contrib (Z.to_nat (payloadSize c)) p).
Proof. intros Hg Hp. unfold ClipPacket. by rewrite clip_of_ClipData. Qed.

(** What the group is apart from its clip. *)
Definition same_place (g g' : Group) : Prop := base g' = base g /\ gstep g' = gstep g /\ gdrop g' = gdrop g.

Lemma clip_of_inc g : clip_of (inc_collected g) = clip_of g.
Proof. done. Qed.

(** ** Reading back what a control packet carries *)

Lemma htons_involutive x : 0 <= x < 2 ^ 16 -> htons (htons x) = x.
Proof. intros H. rewrite !htons_mod. zlia. Qed.

Lemma length_bytes x : 0 <= x < 2 ^ 16 -> Z.lor (Z.land x 255) (Z.shiftl (Z.land (Z.shiftr x 8) 255) 8) = x.
Proof.
  intros H. rewrite !land_255, Z.shiftr_div_pow2, lor_shift_add by zlia. zlia.
Qed.

(** ** Groups of the packets of a stream *)

(** The filter's configuration, as the parser and the payload size allow it, for
    a matrix that is small against the range of sequence numbers. *)
Definition config_ok (c : config) : Prop :=
  2 <= m_number_cols c /\ 1 <= m_number_rows c /\ 32 * (m_number_cols c * m_number_rows c) < 2 ^ 29
  /\ 0 < payloadSize c <= SRT_LIVE_MAX_PLSIZE - 4 /\ (m_cols_only c = true -> 2 <= m_number_rows c).

(** The packet with index [x] is [P x]. *)
Definition stream_ok (c : config) (P : Z -> CPacket.t) : Prop :=
  forall x, CPacket.wf (P x) /\ CPacket.ph_seqno (P x) = seq_of x /\ CPacket.getMsgSeq true (P x) <> SRT_MSGNO_CONTROL
    /\ CPacket.getLength (P x) <= payloadSize c.

(** [N] packets from [z] on, [st] apart. *)
Definition gidx (z st N : Z) : list Z := map (fun i => z + st * i) (seqZ 0 N).

Lemma elem_of_gidx z st N x : x ∈ gidx z st N <-> exists i, 0 <= i < N /\ x = z + st * i.
Proof.
  unfold gidx. rewrite list_elem_of_fmap. setoid_rewrite elem_of_seqZ. split.
  - intros (i & -> & Hi). exists i. split; [lia|done].
  - intros (i & Hi & ->). exists i. split; [done|lia].
Qed.

Lemma gidx_length z st N : length (gidx z st N) = Z.to_nat N.
Proof. unfold gidx. by rewrite length_map, length_seqZ. Qed.

Lemma gidx_snoc z st N : 0 <= N -> gidx z st (N + 1) = gidx z st N ++ [z + st * N].
Proof. intros H. unfold gidx. rewrite seqZ_app by lia. rewrite map_app. do 2 f_equal. Qed.

Lemma gidx_NoDup z st N : st <> 0 -> NoDup (gidx z st N).
Proof.
  intros Hst. unfold gidx. apply (NoDup_fmap_2_strong); [|apply NoDup_seqZ]. intros a b _ _ E. nia.
Qed.

(** The place, the count and the clip of a group. *)
Definition holds (g : Group) (z d q : Z) (k : clip) : Prop :=
  base g = seq_of z /\ gdrop g = d /\ collected g = q /\ clip_of g = k.

Section Groups.

Context (c : config) (P : Z -> CPacket.t) (Hc : config_ok c) (HP : stream_ok c P).

Notation ps := (Z.to_nat (payloadSize c)).

Definition sum (l : list Z) : clip := csum ps (map P l).

Lemma sum_length l : length (cl_data (sum l)) = ps.
Proof using Type. apply csum_data_length. Qed.

Lemma sum_in_range l : in_range ps (sum l).
Proof using HP. apply csum_in_range. apply Forall_map, Forall_true. intros x. apply (HP x). Qed.

Lemma sum_perm l l' : l ≡ₚ l' -> sum l = sum l'.
Proof using Type. intros H. apply csum_perm. by apply Permutation_map. Qed.

Lemma sum_cons x l : sum (x :: l) = cxor (sum l) (contrib ps (P x)).
Proof using Type. by rewrite cxor_comm. Qed.

Lemma sum_snoc x l : sum (l ++ [x]) = cxor (sum l) (contrib ps (P x)).
Proof using Type. rewrite <- sum_cons. apply sum_perm. symmetry. apply Permutation_cons_append. Qed.

Lemma sum_missing x l all : all ≡ₚ x :: l -> cxor (sum l) (sum all) = contrib ps (P x).
Proof using Type. intros H. apply csum_missing. change (P x :: map P l) with (map P (x :: l)). by apply Permutation_map. Qed.

Lemma packet_data x : (length (CPacket.m_pcData (P x)) <= ps)%nat.
Proof using HP. destruct (HP x) as (_ & _ & _ & H). unfold CPacket.getLength in H. lia. Qed.

Lemma packet_seqno x : CPacket.getSeqNo (P x) = seq_of x.
Proof using HP.
  destruct (HP x) as (_ & H & _). unfold CPacket.getSeqNo. rewrite H. pose proof (seq_of_valid x) as V. seq_facts.
  apply i32_id. unfold is_i32. lia.
Qed.

Lemma holds_feed g z d q k x :
  holds g z d q k -> length (cl_data k) = ps ->
  holds (inc_collected (ClipPacket c g (P x))) z d (q + 1) (cxor k (contrib ps (P x))).
Proof using HP.
  intros (Hb & Hd & Hq & Hk) Hl. subst k. repeat split; [done|done|cbn; lia|].
  rewrite clip_of_inc, clip_of_ClipPacket; [done|done|apply packet_data].
Qed.

Lemma holds_configure g z st d :
  payload_clip g = [] -> holds (ConfigureGroup c g (seq_of z) st d) z d 0 (sum []).
Proof using Type. intros E. repeat split. unfold clip_of, ConfigureGroup. cbn. rewrite E. by rewrite resize_nil. Qed.

Lemma holds_reset g z d q k :
  holds g z d q k -> length (cl_data k) = ps -> 0 <= d < 2 ^ 30 -> holds (ResetGroup g) (z + d) d 0 (sum []).
Proof using Type.
  intros (Hb & Hd & Hq & Hk) Hl Hr. subst k d. cbn in Hl. repeat split.
  - cbn. rewrite Hb, i32_id, incseq_by_seq_of by (unfold is_i32, CSeqNo.m_iMaxSeqNo; lia). done.
  - unfold clip_of, ResetGroup, sum. cbn. by rewrite Hl.
Qed.

End Groups.
