(* ===== verification/FecSend.v ===== *)
(** * The sender of the packet filter

    What the sender puts on the wire: the packets in order and, after the last
    packet of a column or a row, the control packet with the clip of exactly the
    packets of that group. *)

From S2P Require Import Prelude SeqNo Packet Fec FecSpec.

Import FEC.

Section Sender.

Context (c : config) (P : Z -> CPacket.t) (Hc : config_ok c) (HP : stream_ok c P).

(** [X] is the index of the first packet. *)
Context (X kflg : Z).

Notation n := (m_number_cols c).
Notation R := (m_number_rows c).
Notation ps := (Z.to_nat (payloadSize c)).
Notation sum := (sum c P).

(** The first packet of column [i], counted from the first packet. *)
Definition col_offset (i : Z) : Z := if m_arrangement_staircase c then (i mod R) * n + i else i.

Definition control (index last : Z) (k : clip) : CPacket.t :=
  CPacket.setMsgCryptoFlags kflg
    (CPacket.mk (seq_of last) (Z.lor SRT_MSGNO_CONTROL (PacketBoundaryBits PB_SOLO)) (cl_ts k) 0
       ([u8 index; cl_flag k; Z.land (cl_len k) 255; Z.land (Z.shiftr (cl_len k) 8) 255] ++ cl_data k)).

(** Packet [x] is the last one of its column. *)
Definition col_ends (x : Z) : bool :=
  let k := x - X in
  let o := col_offset (k mod n) in
  (2 <=? R) && (o <=? k) && (((k - o) / n) mod R =? R - 1).

Definition row_ends (x : Z) : bool := (x - X + 1) mod n =? 0.

(** The control packets that follow packet [x]. *)
Definition col_due (x : Z) : list CPacket.t :=
  if col_ends x then [control ((x - X) mod n) x (sum (gidx (x - n * (R - 1)) n R))] else [].

Definition row_due (x : Z) : list CPacket.t :=
  if row_ends x && negb (m_cols_only c) then [control (-1) x (sum (gidx (x - n + 1) 1 n))] else [].

(** [m] calls of [packData], the packet to send being [P k]. *)
Fixpoint send_calls (m : nat) (k : Z) (rp : SrtPacket) (s : Send) : option (list CPacket.t * Z * SrtPacket * Send) :=
  match m with
  | O => Some ([], k, rp, s)
  | S m' =>
    r ← packData c (P k) (seq_of (k - 1)) kflg rp s;
    let '(data, p, rp, s) := r in
    r' ← send_calls m' (if (data : bool) then k + 1 else k) rp s;
    let '(l, k, rp, s) := r' in
    Some (p :: l, k, rp, s)
  end.

(** ** The state after [K] packets *)

Definition row_state (K : Z) (full : bool) (g : Group) : Prop :=
  exists j q, K = j * n + q /\ 0 <= j /\ 0 <= q <= n /\ (if full then 1 <= q else q = n -> m_cols_only c = true)
    /\ holds g (X + j * n) n q (sum (gidx (X + j * n) 1 q)).

Definition col_state (K i : Z) (g : Group) : Prop :=
  exists t q, let b := col_offset i + t * (R * n) in
    0 <= t /\ 0 <= q < R /\ K <= b + q * n /\ (0 < q -> b + (q - 1) * n < K) /\ (0 < t -> b - n < K)
    /\ holds g (X + b) (R * n) q (sum (gidx (X + b) n q)).

(** The column of the packet fed last: it comes before the first group of the
    column, or is the last one in the group. *)
Definition col_fed (K : Z) (g : Group) : Prop :=
  exists t q, let b := col_offset ((K - 1) mod n) + t * (R * n) in
    0 <= t /\ (K - 1 < b /\ t = 0 /\ q = 0 \/ 1 <= q <= R /\ K - 1 = b + (q - 1) * n)
    /\ holds g (X + b) (R * n) q (sum (gidx (X + b) n q)).

Definition sinv (K : Z) (fullcol fullrow : bool) (s : Send) : Prop :=
  row_state K fullrow (row s)
  /\ (2 <= R -> Z.of_nat (length (cols s)) = n
      /\ forall i, 0 <= i < n -> exists g, aget (cols s) i = Some g
          /\ if fullcol && (i =? (K - 1) mod n) then col_fed K g else col_state K i g).

Lemma col_offset_range i : 0 <= i < n -> 0 <= col_offset i < n * R + n /\ col_offset i mod n = i.
Proof using Hc.
  destruct Hc as (Hn & HR & _). intros Hi. unfold col_offset. destruct (m_arrangement_staircase c).
  - assert (0 <= i mod R < R) by (apply Z.mod_pos_bound; lia). split; [nia|].
    rewrite Z.add_comm, Z.mod_add by lia. apply Z.mod_small. lia.
  - split; [nia|]. apply Z.mod_small. lia.
Qed.

(** ** The initial state *)

Lemma even_columns_state m z :
  even_columns c m (seq_of z)
  = map (fun i => ConfigureGroup c fresh (seq_of (z + Z.of_nat i)) (sizeRow c) (sizeCol c * n)) (seq 0 m).
Proof using Type.
  revert z. induction m as [|m IH]; intros z; cbn [even_columns]; [done|]. cbn [seq map].
  rewrite Z.add_0_r. f_equal. rewrite incseq_seq_of, IH, <- seq_shift, map_map. apply map_ext. intros i.
  do 2 f_equal. lia.
Qed.

Lemma staircase_columns_state m z col :
  2 <= R -> 0 <= col -> Z.of_nat m + col <= n ->
  staircase_columns c m (seq_of z) col ((col mod R) * n + col)
  = map (fun i => ConfigureGroup c fresh (seq_of (z + ((col + Z.of_nat i) mod R * n + (col + Z.of_nat i)))) (sizeRow c) (sizeCol c * n))
      (seq 0 m).
Proof using Hc.
  intros HR2. destruct Hc as (Hn & HR & Hb & _).
  revert col. induction m as [|m IH]; intros col H0 Hm; cbn [staircase_columns]; [done|]. cbv zeta. cbn [seq map].
  assert (0 <= col mod R < R) as Hr by (apply Z.mod_pos_bound; lia).
  rewrite Z.add_0_r. f_equal.
  - rewrite i32_id, incseq_by_seq_of by (unfold is_i32, CSeqNo.m_iMaxSeqNo; nia). done.
  - replace (if col mod R =? R - 1 then col + 1 else col mod R * n + col + (1 + sizeRow c))
      with ((col + 1) mod R * n + (col + 1)).
    + rewrite IH by lia. rewrite <- seq_shift, map_map. apply map_ext. intros i.
      replace (col + Z.of_nat (S i)) with (col + 1 + Z.of_nat i) by lia. done.
    + unfold sizeRow. destruct (Z.eqb_spec (col mod R) (R - 1)) as [E|E].
      * rewrite <- Z.add_mod_idemp_l, E by lia. replace (R - 1 + 1) with R by lia. rewrite Z.mod_same by lia. lia.
      * rewrite <- (Z.add_mod_idemp_l col) by lia. rewrite (Z.mod_small (col mod R + 1)) by lia. lia.
Qed.

Lemma ConfigureColumns_state z :
  2 <= R ->
  ConfigureColumns c (seq_of z)
  = map (fun i => ConfigureGroup c fresh (seq_of (z + col_offset (Z.of_nat i))) (sizeRow c) (sizeCol c * n)) (seq 0 (Z.to_nat n)).
Proof using Hc.
  intros HR. destruct Hc as (Hn & _). unfold ConfigureColumns, col_offset. cbv zeta. destruct (m_arrangement_staircase c).
  - change 0 with (0 mod R * n + 0) at 2. rewrite Z.mod_0_l by lia.
    pose proof (staircase_columns_state (Z.to_nat n) z 0) as H. rewrite Z.mod_0_l in H by lia. rewrite H by lia.
    apply map_ext. intros i. done.
  - apply even_columns_state.
Qed.

Lemma aget_map_seq {A} (f : nat -> A) m i : 0 <= i < Z.of_nat m -> aget (map f (seq 0 m)) i = Some (f (Z.to_nat i)).
Proof using Type.
  intros H. unfold aget. destruct (Z.leb_spec 0 i); [|lia]. rewrite list_lookup_fmap, lookup_seq_lt by lia. done.
Qed.

Lemma sinv_init : sinv 0 false false (init_send c (seq_of (X - 1))).
Proof using Hc.
  destruct Hc as (Hn & HR & _). unfold init_send. cbv zeta. rewrite incseq_seq_of. replace (X - 1 + 1) with X by lia. split.
  - exists 0, 0. repeat (split; [lia|]). replace (X + 0 * n) with X by lia. by apply holds_configure.
  - intros HR2. cbn [cols]. assert (sizeCol c >? 1 = true) as -> by (apply Z.gtb_lt; unfold sizeCol; lia). rewrite ConfigureColumns_state by done.
    split; [rewrite length_map, length_seq; lia|]. intros i Hi. eexists. split; [apply aget_map_seq; lia|].
    destruct (col_offset_range i Hi) as [Ho _]. exists 0, 0. cbv zeta.
    repeat (split; [lia|]). rewrite Z.mul_0_l, Z.add_0_r. replace (Z.of_nat (Z.to_nat i)) with i by lia.
    by apply holds_configure.
Qed.

(** ** One call *)

Lemma control_eq g z d q k rp index x p :
  holds g z d q k -> in_range ps k -> hdr_id rp = 0 -> PackControl g index rp (seq_of x) = Some p ->
  hdr_id p = 0
  /\ CPacket.setMsgCryptoFlags kflg
       (CPacket.mk (hdr_seqno p) (Z.lor SRT_MSGNO_CONTROL (PacketBoundaryBits PB_SOLO)) (hdr_timestamp p) (hdr_id p)
          (take (Z.to_nat (len p)) (buffer p)))
     = control index x k.
Proof using Type.
  intros (_ & _ & _ & <-) (_ & _ & _ & Hl) Hid. unfold PackControl. cbv zeta. destruct (_ <=? _); [|done]. intros [= <-].
  cbn [hdr_id hdr_seqno hdr_timestamp len buffer]. split; [done|]. unfold control, clip_of. cbn [cl_ts cl_flag cl_len cl_data].
  assert (u32 (seq_of x) = seq_of x) as ->.
  { apply u32_id. pose proof (seq_of_valid x) as V. seq_facts. unfold is_u32. lia. }
  rewrite take_ge by (cbn [length app]; lia). by rewrite Hid.
Qed.

Lemma PackControl_Some g z d q k rp index x :
  holds g z d q k -> in_range ps k -> exists p, PackControl g index rp x = Some p.
Proof using Hc.
  destruct Hc as (_ & _ & _ & Hp & _). intros (_ & _ & _ & <-) (_ & _ & _ & Hl). cbn in Hl. unfold PackControl. cbv zeta.
  destruct (Z.leb_spec (1 + 1 + 2 + Z.of_nat (length (payload_clip g))) SRT_LIVE_MAX_PLSIZE); [by eexists|lia].
Qed.

Lemma holds_collected g z d q k : holds g z d q k -> collected g = q.
Proof using Type. by intros (_ & _ & H & _). Qed.

Lemma holds_base g z d q k : holds g z d q k -> base g = seq_of z.
Proof using Type. by intros (H & _). Qed.

(** The row's part of a call. *)
Lemma pack_row_idle K s rp x :
  row_state K false (row s) ->
  exists s', pack_row c rp x s = Some (None, s') /\ cols s' = cols s
    /\ exists j q, K = j * n + q /\ 0 <= j /\ 0 <= q < n /\ holds (row s') (X + j * n) n q (sum (gidx (X + j * n) 1 q)).
Proof using Hc.
  destruct Hc as (Hn & HR & Hb & _).
  intros (j & q & HK & Hj & Hq & Hfull & Hg). unfold pack_row. rewrite (holds_collected _ _ _ _ _ Hg), Z.geb_leb.
  destruct (Z.leb_spec n q) as [Hle|Hlt].
  - cbn in Hfull. rewrite Hfull by lia. eexists. split; [done|]. split; [done|].
    exists (j + 1), 0. repeat (split; [lia|]). cbn [row].
    replace (X + (j + 1) * n) with (X + j * n + n) by lia.
    eapply holds_reset; [exact Hg|apply sum_length|nia].
  - eexists. split; [done|]. split; [done|]. exists j, q. repeat (split; [lia|]). exact Hg.
Qed.

(** Nothing is due: the columns' part. *)
Lemma pack_idle K s rp :
  0 <= K -> sinv K false false s ->
  exists s', packControlPacket c rp (seq_of (X + K - 1)) s = Some (None, s') /\ cols s' = cols s
    /\ exists j q, K = j * n + q /\ 0 <= j /\ 0 <= q < n /\ holds (row s') (X + j * n) n q (sum (gidx (X + j * n) 1 q)).
Proof using Hc.
  pose proof Hc as (Hn & HR & Hb & _). intros HK (Hrow & Hcols). unfold packControlPacket. cbv zeta.
  destruct (Z.leb_spec R 1) as [H1|H1]; [by eapply pack_row_idle|].
  destruct (Hcols ltac:(lia)) as [Hlen Hcol]. pose proof Hrow as (j & q & EK & Hj & Hq & _ & Hg).
  rewrite (holds_base _ _ _ _ _ Hg), seqoff_seq_of by (unfold CSeqNo.m_iSeqNoTH; nia).
  replace (X + K - 1 - (X + j * n)) with (q - 1) by lia.
  destruct (Z.ltb_spec (q - 1) 0) as [H0|H0]; [by eapply pack_row_idle|].
  rewrite i32_id by (unfold is_i32; nia).
  assert (Z.rem (q - 1 + n) n = q - 1) as ->.
  { rewrite Z.rem_mod_nonneg by lia. rewrite <- (Z.mul_1_l n) at 1. rewrite Z.mod_add by lia. apply Z.mod_small. lia. }
  destruct (Hcol (q - 1) ltac:(lia)) as (g & Hget & t & q' & Ht & Hq' & _ & _ & _ & Hh). rewrite Hget. cbn [mbind option_bind].
  rewrite (holds_collected _ _ _ _ _ Hh), Z.geb_leb. destruct (Z.leb_spec R q'); [lia|]. by eapply pack_row_idle.
Qed.

(** ** Feeding a packet *)

Lemma gidx_feed z st q x : 0 <= q -> x = z + st * q -> cxor (sum (gidx z st q)) (contrib ps (P x)) = sum (gidx z st (q + 1)).
Proof using Type. intros Hq ->. by rewrite gidx_snoc, sum_snoc by lia. Qed.

Lemma close_not g pos size : 0 <= pos < size -> size < 2 ^ 64 -> CheckGroupClose g pos size = g.
Proof using Type. intros H Hs. unfold CheckGroupClose. rewrite Z.mod_small by lia. destruct (Z.ltb_spec pos size); [done|lia]. Qed.

(** A column that packet [K] is not in. *)
Lemma col_state_other K i g : 0 <= K -> 0 <= i < n -> i <> K mod n -> col_state K i g -> col_state (K + 1) i g.
Proof using Hc.
  pose proof Hc as (Hn & HR & Hb & _). intros HK Hi Hne (t & q & Ht & Hq & H1 & H2 & H3 & Hh). exists t, q. cbv zeta in *.
  split; [lia|]. split; [lia|]. split; [|split; [lia|split; [lia|done]]].
  destruct (Z.eq_dec K (col_offset i + t * (R * n) + q * n)) as [E|]; [|lia]. exfalso. apply Hne. rewrite E.
  replace (col_offset i + t * (R * n) + q * n) with (col_offset i + (t * R + q) * n) by lia. rewrite Z.mod_add by lia.
  symmetry. by apply col_offset_range.
Qed.

(** The column of packet [K]: the packet is its next one, or comes before it. *)
Lemma col_state_next K t :
  0 <= K -> exists e, K - (col_offset (K mod n) + t * (R * n)) = e * n.
Proof using Hc.
  pose proof Hc as (Hn & HR & Hb & _). intros HK.
  destruct (col_offset_range (K mod n)) as [_ Ho]; [apply Z.mod_pos_bound; lia|].
  exists (K / n - col_offset (K mod n) / n - t * R). pose proof (Z.div_mod K n). pose proof (Z.div_mod (col_offset (K mod n)) n). nia.
Qed.

Lemma feed_row j q s K :
  K = j * n + q -> 0 <= j -> 0 <= q < n -> holds (row s) (X + j * n) n q (sum (gidx (X + j * n) 1 q)) ->
  row_state (K + 1) true
    (inc_collected (ClipPacket c (CheckGroupClose (row s) q (sizeRow c)) (P (X + K)))).
Proof using Hc HP.
  pose proof Hc as (Hn & HR & Hb & _). intros HK Hj Hq Hh. exists j, (q + 1). do 4 (split; [lia|]).
  rewrite close_not by (unfold sizeRow; nia). rewrite <- (gidx_feed _ _ _ (X + K)) by lia.
  apply holds_feed; [done|exact Hh|apply sum_length].
Qed.

Lemma feed_column K g :
  0 <= K -> 2 <= R -> col_state K (K mod n) g ->
  let off := CSeqNo.seqoff (base g) (seq_of (X + K)) in
  if off >=? 0 then off mod n = 0
    /\ col_fed (K + 1) (inc_collected (ClipPacket c (CheckGroupClose g (off / n) (sizeCol c)) (P (X + K))))
  else col_fed (K + 1) g.
Proof using Hc HP.
  pose proof Hc as (Hn & HR & Hb & _). intros HK HR2 (t & q & Ht & Hq & H1 & H2 & H3 & Hh). unfold col_fed. cbv zeta in *.
  replace (K + 1 - 1) with K by lia.
  assert (0 <= K mod n < n) as Hm by (apply Z.mod_pos_bound; lia). destruct (col_offset_range _ Hm) as [Ho _].
  destruct (col_state_next K t HK) as (e & He). set (b := col_offset (K mod n) + t * (R * n)) in *.
  assert (b - K < 2 * (n * R)) by (assert (t = 0 \/ 0 < t) as [->|Ht'] by lia; [nia|specialize (H3 Ht'); nia]).
  rewrite (holds_base _ _ _ _ _ Hh), seqoff_seq_of by (unfold CSeqNo.m_iSeqNoTH; nia).
  replace (X + K - (X + b)) with (K - b) by lia. rewrite Z.geb_leb. destruct (Z.leb_spec 0 (K - b)) as [Hge|Hlt].
  - assert (e = q) as -> by (assert (q = 0 \/ 0 < q) as [->|Hq'] by lia; [nia|specialize (H2 Hq'); nia]).
    rewrite He, Z.mod_mul, Z.div_mul by lia. split; [done|].
    exists t, (q + 1). fold b. split; [lia|]. split; [right; lia|]. rewrite close_not by (unfold sizeCol; nia).
    rewrite <- (gidx_feed _ _ _ (X + K)) by lia. apply holds_feed; [done|exact Hh|apply sum_length].
  - exists t, q. fold b. assert (q = 0) as -> by (destruct (Z.eq_dec q 0) as [|Hq0]; [done|]; specialize (H2 ltac:(lia)); assert (0 <= (q - 1) * n) by (apply Z.mul_nonneg_nonneg; lia); lia).
    assert (t = 0) as Et by (destruct (Z.eq_dec t 0) as [|Ht0]; [done|]; specialize (H3 ltac:(lia)); assert (e <= -1) by nia; nia).
    split; [lia|]. split; [left; lia|done].
Qed.

Lemma feed_state K s j q :
  0 <= K -> K = j * n + q -> 0 <= j -> 0 <= q < n -> holds (row s) (X + j * n) n q (sum (gidx (X + j * n) 1 q)) ->
  (2 <= R -> Z.of_nat (length (cols s)) = n
      /\ forall i, 0 <= i < n -> exists g, aget (cols s) i = Some g /\ col_state K i g) ->
  exists s', feedSource c (P (X + K)) s = Some s' /\ sinv (K + 1) true true s'.
Proof using Hc HP.
  pose proof Hc as (Hn & HR & Hb & _). intros HK EK Hj Hq Hh Hcols. unfold feedSource. cbv zeta.
  rewrite (packet_seqno c P HP), (holds_base _ _ _ _ _ Hh), seqoff_seq_of by (unfold CSeqNo.m_iSeqNoTH; nia).
  replace (X + K - (X + j * n)) with q by lia. pose proof (feed_row j q s K EK Hj Hq Hh) as Hrow.
  unfold sizeCol at 1. destruct (Z.ltb_spec R 2) as [H1|H1]; [eexists; split; [done|]; split; [done|lia]|].
  destruct (Hcols H1) as [Hlen Hcol]. cbn [cols].
  assert (q = K mod n) as Eq by (rewrite EK, Z.add_comm, Z.mod_add by lia; symmetry; apply Z.mod_small; lia).
  assert (i32 (q mod 2 ^ 64 mod sizeRow c) = K mod n) as ->.
  { unfold sizeRow. rewrite (Z.mod_small q (2 ^ 64)), (Z.mod_small q n), i32_id by (unfold is_i32; nia). done. }
  destruct (Hcol (K mod n) ltac:(lia)) as (g & Hget & Hg). rewrite Hget. cbn [mbind option_bind].
  pose proof (feed_column K g HK H1 Hg) as Hf. cbv zeta in Hf. unfold sizeRow. destruct (_ >=? 0) eqn:E.
  - destruct Hf as [Hdiv Hf]. rewrite Hdiv. cbn [Z.eqb negb]. rewrite aset_Some by (by eapply aget_in_bounds).
    cbn [mbind option_bind]. eexists. split; [done|]. split; [exact Hrow|]. intros _. cbn [cols]. rewrite length_insert.
    split; [done|]. intros i Hi. replace (K + 1 - 1) with K by lia. cbn [andb]. destruct (Z.eqb_spec i (K mod n)) as [->|Hne].
    + eexists. split; [apply aget_insert_eq; by eapply aget_in_bounds|]. exact Hf.
    + rewrite aget_insert_ne by lia. destruct (Hcol i Hi) as (g' & Hget' & Hg'). exists g'. split; [done|].
      by apply col_state_other.
  - eexists. split; [done|]. split; [exact Hrow|]. intros _. split; [done|]. intros i Hi. cbn [cols andb].
    replace (K + 1 - 1) with K by lia. destruct (Hcol i Hi) as (g' & Hget' & Hg'). exists g'. split; [done|].
    destruct (Z.eqb_spec i (K mod n)) as [->|Hne]; [rewrite Hget in Hget'; by injection Hget' as <-|by apply col_state_other].
Qed.

(** ** The calls after packet [K - 1] *)

Lemma call_data K s rp :
  0 <= K -> sinv K false false s ->
  exists s', packData c (P (X + K)) (seq_of (X + K - 1)) kflg rp s = Some (true, P (X + K), rp, s') /\ sinv (K + 1) true true s'.
Proof using Hc HP.
  intros HK Hs. destruct (pack_idle K s rp HK Hs) as (s1 & E1 & Ec & j & q & EK & Hj & Hq & Hh).
  destruct (feed_state K s1 j q) as (s2 & E2 & H2); [done..| |].
  { rewrite Ec. apply Hs. }
  exists s2. split; [|done]. unfold packData, PacketFilter_packControlPacket. rewrite E1. cbn [mbind option_bind]. by rewrite E2.
Qed.

Lemma in_range_sum l : in_range ps (sum l).
Proof using HP. by apply sum_in_range. Qed.

(** The column of the last packet: complete or not. *)
Lemma col_fed_ends K g :
  1 <= K -> 2 <= R -> col_fed K g ->
  if col_ends (X + K - 1) then
    holds g (X + K - 1 - n * (R - 1)) (R * n) R (sum (gidx (X + K - 1 - n * (R - 1)) n R))
    /\ col_state K ((K - 1) mod n) (ResetGroup g)
  else collected g < R /\ col_state K ((K - 1) mod n) g.
Proof using Hc.
  pose proof Hc as (Hn & HR & Hb & _). intros HK HR2 (t & q & Ht & Hq & Hh). cbv zeta in *. unfold col_ends. cbv zeta.
  replace (X + K - 1 - X) with (K - 1) by lia. destruct (Z.leb_spec 2 R); [|lia]. cbn [andb].
  assert (0 <= (K - 1) mod n < n) as Hm by (apply Z.mod_pos_bound; lia). destruct (col_offset_range _ Hm) as [Ho _].
  set (o := col_offset ((K - 1) mod n)) in *. destruct Hq as [(Hlt & -> & ->)|(Hq & EK)].
  - destruct (Z.leb_spec o (K - 1)); [lia|]. cbn [andb]. rewrite (holds_collected _ _ _ _ _ Hh). split; [lia|].
    exists 0, 0. cbv zeta. fold o. repeat (split; [lia|]). exact Hh.
  - destruct (Z.leb_spec o (K - 1)); [|nia]. cbn [andb].
    assert ((K - 1 - o) / n = q - 1 + t * R) as -> by (replace (K - 1 - o) with ((q - 1 + t * R) * n) by lia; apply Z.div_mul; lia).
    rewrite Z.mod_add, Z.mod_small by lia. rewrite (holds_collected _ _ _ _ _ Hh). destruct (Z.eqb_spec (q - 1) (R - 1)) as [E|E].
    + assert (q = R) as -> by lia. replace (X + (o + t * (R * n))) with (X + K - 1 - n * (R - 1)) in Hh by lia. split; [done|].
      exists (t + 1), 0. cbv zeta. fold o. split; [lia|]. split; [lia|]. split; [nia|]. split; [lia|]. split; [nia|].
      replace (X + (o + (t + 1) * (R * n))) with (X + K - 1 - n * (R - 1) + R * n) by lia.
      eapply holds_reset; [exact Hh|apply sum_length|nia].
    + split; [lia|]. exists t, q. cbv zeta. fold o. split; [lia|]. split; [lia|]. split; [nia|]. split; [nia|]. split; [nia|done].
Qed.

(** The row of the last packet. *)
Lemma row_fed_ends K g :
  1 <= K -> row_state K true g ->
  if row_ends (X + K - 1) then
    holds g (X + K - 1 - n + 1) n n (sum (gidx (X + K - 1 - n + 1) 1 n)) /\ row_state K false (ResetGroup g)
    /\ (m_cols_only c = true -> row_state K false g)
  else collected g < n /\ row_state K false g.
Proof using Hc.
  pose proof Hc as (Hn & HR & Hb & _). intros HK (j & q & EK & Hj & Hq & H1 & Hh). unfold row_ends.
  replace (X + K - 1 - X + 1) with (q + j * n) by lia. rewrite Z.mod_add by lia.
  destruct (Z.eq_dec q n) as [->|Hne].
  - rewrite Z.mod_same by lia. cbn [Z.eqb]. replace (X + K - 1 - n + 1) with (X + j * n) by lia. split; [done|]. split.
    + exists (j + 1), 0. split; [lia|]. split; [lia|]. split; [lia|]. split; [cbn; lia|].
      replace (X + (j + 1) * n) with (X + j * n + n) by lia. eapply holds_reset; [exact Hh|apply sum_length|nia].
    + intros Hco. exists j, n. split; [lia|]. split; [lia|]. split; [lia|]. split; [done|exact Hh].
  - rewrite Z.mod_small by lia. destruct (Z.eqb_spec q 0); [lia|]. rewrite (holds_collected _ _ _ _ _ Hh). split; [lia|].
    exists j, q. split; [lia|]. split; [lia|]. split; [lia|]. split; [cbn; lia|exact Hh].
Qed.

Lemma row_state_pos K g : row_state K true g ->
  exists j q, K = j * n + q /\ 0 <= j /\ 1 <= q <= n /\ base g = seq_of (X + j * n).
Proof using Type. intros (j & q & EK & Hj & Hq & H1 & Hh). exists j, q. cbn in H1. split; [done|]. split; [done|]. split; [lia|apply Hh]. Qed.

(** [packControlPacket] after packet [K - 1], while its row is not shipped: it
    looks at that packet's column, then at the row. *)
Lemma pack_after K fc s rp :
  1 <= K -> sinv K fc true s ->
  packControlPacket c rp (seq_of (X + K - 1)) s
  = (if R <=? 1 then pack_row c rp (seq_of (X + K - 1)) s
     else
       col ← aget (cols s) ((K - 1) mod n);
       if collected col >=? R then
         pkt ← PackControl col ((K - 1) mod n) rp (seq_of (X + K - 1));
         cs ← aset (cols s) ((K - 1) mod n) (ResetGroup col);
         Some (Some pkt, mkSend (row s) cs)
       else pack_row c rp (seq_of (X + K - 1)) s).
Proof using Hc.
  pose proof Hc as (Hn & HR & Hb & _). intros HK (Hrow & _). unfold packControlPacket. cbv zeta.
  destruct (Z.leb_spec R 1); [done|]. destruct (row_state_pos _ _ Hrow) as (j & q & EK & Hj & Hq & Hbase).
  rewrite Hbase, seqoff_seq_of by (unfold CSeqNo.m_iSeqNoTH; nia). replace (X + K - 1 - (X + j * n)) with (q - 1) by lia.
  destruct (Z.ltb_spec (q - 1) 0); [lia|]. rewrite i32_id by (unfold is_i32; nia).
  assert ((K - 1) mod n = q - 1) as ->.
  { replace (K - 1) with (q - 1 + j * n) by lia. rewrite Z.mod_add by lia. apply Z.mod_small. lia. }
  assert (Z.rem (q - 1 + n) n = q - 1) as ->; [|done].
  rewrite Z.rem_mod_nonneg by lia. rewrite <- (Z.mul_1_l n) at 1. rewrite Z.mod_add by lia. apply Z.mod_small. lia.
Qed.

(** A call after the last packet of a column. *)
Lemma call_col K s rp :
  1 <= K -> hdr_id rp = 0 -> sinv K true true s ->
  if col_ends (X + K - 1) then
    exists p rp' s', packData c (P (X + K)) (seq_of (X + K - 1)) kflg rp s = Some (false, p, rp', s')
      /\ [p] = col_due (X + K - 1) /\ hdr_id rp' = 0 /\ sinv K false true s'
  else sinv K false true s.
Proof using Hc HP.
  pose proof Hc as (Hn & HR & Hb & _). intros HK Hid Hs. pose proof Hs as (Hrow & Hcols).
  assert (0 <= (K - 1) mod n < n) as Hm by (apply Z.mod_pos_bound; lia).
  destruct (Z.leb_spec R 1) as [H1|H1].
  { unfold col_ends. cbv zeta. destruct (Z.leb_spec 2 R); [lia|]. cbn [andb]. split; [done|lia]. }
  destruct (Hcols ltac:(lia)) as [Hlen Hcol]. destruct (Hcol _ Hm) as (g & Hget & Hg). rewrite Z.eqb_refl in Hg. cbn [andb] in Hg.
  pose proof (col_fed_ends K g HK ltac:(lia) Hg) as He. destruct (col_ends (X + K - 1)) eqn:Ee.
  - destruct He as [Hh Hst]. destruct (PackControl_Some _ _ _ _ _ rp ((K - 1) mod n) (seq_of (X + K - 1)) Hh (in_range_sum _)) as (p & Ep).
    destruct (control_eq _ _ _ _ _ _ _ _ _ Hh (in_range_sum _) Hid Ep) as [Hid' Ectl].
    do 3 eexists. split; [|split; [|split; [exact Hid'|]]].
    + unfold packData, PacketFilter_packControlPacket. rewrite (pack_after K true s rp HK Hs). destruct (Z.leb_spec R 1); [lia|].
      rewrite Hget. cbn [mbind option_bind]. rewrite (holds_collected _ _ _ _ _ Hh), Z.geb_leb, Z.leb_refl, Ep.
      cbn [mbind option_bind]. rewrite aset_Some by (by eapply aget_in_bounds). cbn [mbind option_bind]. rewrite Ectl. reflexivity.
    + unfold col_due. rewrite Ee. replace (X + K - 1 - X) with (K - 1) by lia. done.
    + split; [exact Hrow|]. intros _. cbn [cols]. rewrite length_insert. split; [done|]. intros i Hi. cbn [andb].
      destruct (Z.eq_dec i ((K - 1) mod n)) as [->|Hne].
      * eexists. split; [apply aget_insert_eq; by eapply aget_in_bounds|]. exact Hst.
      * rewrite aget_insert_ne by lia. destruct (Hcol i Hi) as (g' & Hget' & Hg'). exists g'. split; [done|].
        revert Hg'. cbn [andb]. destruct (Z.eqb_spec i ((K - 1) mod n)); done.
  - destruct He as [_ Hst]. split; [done|]. intros _. split; [done|]. intros i Hi. destruct (Hcol i Hi) as (g' & Hget' & Hg').
    exists g'. split; [done|]. revert Hg'. cbn [andb]. destruct (Z.eqb_spec i ((K - 1) mod n)) as [->|]; [|done].
    intros _. rewrite Hget in Hget'. by injection Hget' as <-.
Qed.

(** A call after the last packet of a row, its column being shipped. *)
Lemma call_row K s rp :
  1 <= K -> hdr_id rp = 0 -> sinv K false true s ->
  if row_ends (X + K - 1) && negb (m_cols_only c) then
    exists p rp' s', packData c (P (X + K)) (seq_of (X + K - 1)) kflg rp s = Some (false, p, rp', s')
      /\ [p] = row_due (X + K - 1) /\ hdr_id rp' = 0 /\ sinv K false false s'
  else sinv K false false s.
Proof using Hc HP.
  pose proof Hc as (Hn & HR & Hb & _). intros HK Hid Hs. pose proof Hs as (Hrow & Hcols).
  pose proof (row_fed_ends K _ HK Hrow) as He. destruct (row_ends (X + K - 1)) eqn:Ee; cbn [andb]; [|split; [apply He|done]].
  destruct He as (Hh & Hreset & Hco). destruct (m_cols_only c) eqn:Eco; cbn [negb]; [split; [by apply Hco|done]|].
  destruct (PackControl_Some _ _ _ _ _ rp (-1) (seq_of (X + K - 1)) Hh (in_range_sum _)) as (p & Ep).
  destruct (control_eq _ _ _ _ _ _ _ _ _ Hh (in_range_sum _) Hid Ep) as [Hid' Ectl].
  assert (packControlPacket c rp (seq_of (X + K - 1)) s = Some (Some p, mkSend (ResetGroup (row s)) (cols s))) as Epack.
  { assert (pack_row c rp (seq_of (X + K - 1)) s = Some (Some p, mkSend (ResetGroup (row s)) (cols s))) as Er.
    { unfold pack_row. rewrite (holds_collected _ _ _ _ _ Hh), Z.geb_leb, Z.leb_refl, Eco, Ep. done. }
    rewrite (pack_after K false s rp HK Hs). destruct (Z.leb_spec R 1) as [|H1]; [done|].
    assert (0 <= (K - 1) mod n < n) as Hm by (apply Z.mod_pos_bound; lia).
    destruct (Hcols ltac:(lia)) as [_ Hcol]. destruct (Hcol _ Hm) as (g & Hget & t & q & Ht & Hq & _ & _ & _ & Hg).
    rewrite Hget. cbn [mbind option_bind]. rewrite (holds_collected _ _ _ _ _ Hg), Z.geb_leb. destruct (Z.leb_spec R q); [lia|done]. }
  do 3 eexists. split; [|split; [|split; [exact Hid'|]]].
  - unfold packData, PacketFilter_packControlPacket. rewrite Epack. cbn [mbind option_bind]. rewrite Ectl. reflexivity.
  - unfold row_due. by rewrite Ee, Eco.
  - by split.
Qed.

(** ** All calls *)

Lemma send_calls_app m1 m2 k rp s l1 k1 rp1 s1 :
  send_calls m1 k rp s = Some (l1, k1, rp1, s1) ->
  send_calls (m1 + m2) k rp s
  = (r ← send_calls m2 k1 rp1 s1; let '(l, k, rp, s) := r in Some (l1 ++ l, k, rp, s)).
Proof using Type.
  revert k rp s l1. induction m1 as [|m1 IH]; intros k rp s l1; cbn [send_calls Nat.add].
  - intros [= <- <- <- <-]. destruct (send_calls m2 k rp s) as [[[[? ?] ?] ?]|]; done.
  - destruct (packData _ _ _ _ _ _) as [[[[data p] rp0] s0]|]; cbn; [|done].
    destruct (send_calls m1 _ rp0 s0) as [[[[l ?] ?] ?]|] eqn:E; cbn; [|done]. intros [= <- <- <- <-].
    rewrite (IH _ _ _ _ E). destruct (send_calls m2 _ _ _) as [[[[? ?] ?] ?]|]; done.
Qed.

(** A call that sends [l], a control packet or nothing. *)
Definition sends (l : list CPacket.t) (K : Z) (rp : SrtPacket) (s : Send) (rp' : SrtPacket) (s' : Send) : Prop :=
  send_calls (length l) (X + K) rp s = Some (l, X + K, rp', s').

Lemma sends_due (due : bool) l K rp s fc fr fc' fr' :
  l = (if due then l else []) ->
  (if due then exists p rp' s', packData c (P (X + K)) (seq_of (X + K - 1)) kflg rp s = Some (false, p, rp', s')
      /\ [p] = l /\ hdr_id rp' = 0 /\ sinv K fc' fr' s' else sinv K fc' fr' s) ->
  hdr_id rp = 0 -> sinv K fc fr s ->
  exists rp' s', sends l K rp s rp' s' /\ hdr_id rp' = 0 /\ sinv K fc' fr' s'.
Proof using Type.
  intros Hl H Hid Hs. unfold sends. destruct due; [|rewrite Hl; by exists rp, s].
  destruct H as (p & rp' & s' & E & <- & Hid' & Hs'). exists rp', s'. split; [|done]. cbn [length send_calls]. rewrite E. done.
Qed.

Lemma col_due_if x : col_due x = if col_ends x then col_due x else [].
Proof using Type. unfold col_due. by destruct (col_ends x). Qed.

Lemma row_due_if x : row_due x = if row_ends x && negb (m_cols_only c) then row_due x else [].
Proof using Type. unfold row_due. by destruct (_ && _). Qed.

Definition due (x : Z) : list CPacket.t := col_due x ++ row_due x.

Lemma send_packet K s rp :
  0 <= K -> hdr_id rp = 0 -> sinv K false false s ->
  exists rp' s', send_calls (length (P (X + K) :: due (X + K))) (X + K) rp s = Some (P (X + K) :: due (X + K), X + (K + 1), rp', s')
    /\ hdr_id rp' = 0 /\ sinv (K + 1) false false s'.
Proof using Hc HP.
  intros HK Hid Hs. destruct (call_data K s rp HK Hs) as (s1 & E1 & H1).
  pose proof (call_col (K + 1) s1 rp ltac:(lia) Hid H1) as Hcol.
  destruct (sends_due _ (col_due (X + (K + 1) - 1)) _ _ _ _ _ _ _ (col_due_if _) Hcol Hid H1)
    as (rp2 & s2 & E2 & Hid2 & H2).
  pose proof (call_row (K + 1) s2 rp2 ltac:(lia) Hid2 H2) as Hrow.
  destruct (sends_due _ (row_due (X + (K + 1) - 1)) _ _ _ _ _ _ _ (row_due_if _) Hrow Hid2 H2)
    as (rp3 & s3 & E3 & Hid3 & H3).
  unfold sends in *. replace (X + (K + 1) - 1) with (X + K) in * by lia.
  exists rp3, s3. split; [|done]. cbn [length send_calls]. rewrite E1. cbn [mbind option_bind].
  replace (X + K + 1) with (X + (K + 1)) by lia. unfold due. rewrite length_app, (send_calls_app _ _ _ _ _ _ _ _ _ E2), E3. done.
Qed.

(** What is sent for the first [K] packets. *)
Definition wire (K : Z) : list CPacket.t := concat (map (fun x => P x :: due x) (seqZ X K)).

Lemma send_wire (K : nat) :
  exists rp s, send_calls (length (wire (Z.of_nat K))) X (mkPacket 0 0 0 0 [] 0) (init_send c (seq_of (X - 1)))
               = Some (wire (Z.of_nat K), X + Z.of_nat K, rp, s)
    /\ hdr_id rp = 0 /\ sinv (Z.of_nat K) false false s.
Proof using Hc HP.
  induction K as [|K (rp & s & E & Hid & Hs)].
  - do 2 eexists. split; [change (wire (Z.of_nat 0)) with (@nil CPacket.t); rewrite Z.add_0_r; reflexivity|]. split; [done|apply sinv_init].
  - destruct (send_packet (Z.of_nat K) s rp ltac:(lia) Hid Hs) as (rp' & s' & E' & Hid' & Hs').
    exists rp', s'. replace (Z.of_nat (S K)) with (Z.of_nat K + 1) by lia. split; [|done].
    assert (wire (Z.of_nat K + 1) = wire (Z.of_nat K) ++ P (X + Z.of_nat K) :: due (X + Z.of_nat K)) as Ew.
    { unfold wire. rewrite seqZ_app, map_app, concat_app by lia. f_equal. change (seqZ (X + Z.of_nat K) 1) with [0 + (X + Z.of_nat K)]. cbn [map concat]. by rewrite app_nil_r. }
    rewrite Ew, length_app, (send_calls_app _ _ _ _ _ _ _ _ _ E), E'. done.
Qed.

End Sender.
