(* ===== verification/FecRcv.v ===== *)
(** * The receiver of the packet filter: its queues of groups

    The rows and the columns are two queues of groups. A group knows the packets it
    has clipped; a packet that is marked in the cells is in its group, or its group
    is complete. [qinv] states this of a queue, and how marks, packets, control
    packets, new groups and the removal of groups change it. *)

From S2P Require Import Prelude SeqNo Packet Fec FecSpec FecSend.

Import FEC.

(** ** Computations of the receiver *)

Definition wp {A} (m : RM A) (Q : A -> Receive -> Prop) (r : Receive) : Prop :=
  exists a r', m r = Some (a, r') /\ Q a r'.

Lemma wp_ret {A} (a : A) Q r : Q a r -> wp (mret a) Q r.
Proof. intros H. by exists a, r. Qed.

Lemma wp_bind {A B} (m : RM A) (f : A -> RM B) Q r : wp m (fun a r' => wp (f a) Q r') r -> wp (m ≫= f) Q r.
Proof.
  intros (a & r1 & E1 & b & r2 & E2 & H). exists b, r2. split; [|done]. unfold mbind, RM_bind. rewrite E1. cbn. exact E2.
Qed.

Lemma wp_get (Q : Receive -> Receive -> Prop) r : Q r r -> wp rget Q r.
Proof. intros H. by exists r, r. Qed.

Lemma wp_modify f (Q : unit -> Receive -> Prop) r : Q tt (f r) -> wp (rmodify f) Q r.
Proof. intros H. by exists tt, (f r). Qed.

Lemma wp_lift {A} (o : option A) a (Q : A -> Receive -> Prop) r : o = Some a -> Q a r -> wp (rlift o) Q r.
Proof. intros -> H. by exists a, r. Qed.

Lemma wp_mono {A} (m : RM A) (Q Q' : A -> Receive -> Prop) r : wp m Q r -> (forall a r', Q a r' -> Q' a r') -> wp m Q' r.
Proof. intros (a & r' & E & H) HQ. exists a, r'. auto. Qed.

Lemma wp_eq {A} (m : RM A) a r' (Q : A -> Receive -> Prop) r : m r = Some (a, r') -> Q a r' -> wp m Q r.
Proof. intros E H. by exists a, r'. Qed.

(** Runs the next step of a computation. *)
Ltac wstep :=
  match goal with
  | |- wp (_ ≫= _) _ _ => apply wp_bind
  | |- wp (mret _) _ _ => apply wp_ret
  | |- wp rget _ _ => apply wp_get
  | |- wp (rmodify _) _ _ => apply wp_modify
  end; cbv beta.

(** ** Marks *)

(** Packet [y] is marked, [b] being the packet of the first cell. *)
Definition mk (b : Z) (cs : list bool) (y : Z) : bool := (b <=? y) && default false (cs !! Z.to_nat (y - b)).

Lemma mk_resize b cs k y : (length cs <= k)%nat -> mk b (resize k false cs) y = mk b cs y.
Proof.
  intros H. unfold mk. f_equal. destruct (decide (Z.to_nat (y - b) < length cs)%nat).
  - by rewrite lookup_resize by lia.
  - rewrite (lookup_ge_None_2 cs) by lia. destruct (decide (Z.to_nat (y - b) < k)%nat).
    + by rewrite lookup_resize_new by lia.
    + by rewrite lookup_resize_old by lia.
Qed.

Lemma mk_insert b cs m v y :
  b <= m -> (Z.to_nat (m - b) < length cs)%nat -> mk b (<[Z.to_nat (m - b) := v]> cs) y = if y =? m then v else mk b cs y.
Proof.
  intros Hm Hl. unfold mk. destruct (Z.eqb_spec y m) as [->|Hne].
  - rewrite list_lookup_insert_eq by lia. destruct (Z.leb_spec b m); [done|lia].
  - destruct (Z.leb_spec b y); [|done]. by rewrite list_lookup_insert_ne by lia.
Qed.

Lemma mk_drop b cs k y : b + Z.of_nat k <= y -> mk (b + Z.of_nat k) (drop k cs) y = mk b cs y.
Proof.
  intros H. unfold mk. destruct (Z.leb_spec (b + Z.of_nat k) y), (Z.leb_spec b y); try lia. cbn. rewrite lookup_drop.
  do 2 f_equal. lia.
Qed.

Lemma mk_ge b cs y : mk b cs y = true -> b <= y.
Proof. unfold mk. destruct (Z.leb_spec b y); done. Qed.

Definition all_marked (b : Z) (cs : list bool) (ix : list Z) : bool := forallb (mk b cs) ix.

Lemma all_marked_spec b cs ix : all_marked b cs ix = true <-> forall y, y ∈ ix -> mk b cs y = true.
Proof.
  unfold all_marked. rewrite forallb_forall. split; intros H y Hy; apply H; by apply list_elem_of_In.
Qed.

(** ** Marking cells *)

Lemma wp_mark b m r Q :
  cell_base r = seq_of b -> b <= m < b + 2 ^ 29 ->
  (forall cs, (forall y, mk b cs y = mk b (cells r) y || (y =? m)) -> Q tt (set_cells (cell_base r) cs r)) ->
  wp (MarkCellReceived (seq_of m) CELL_RECEIVED) Q r.
Proof.
  intros Hb Hm HQ. unfold MarkCellReceived. wstep. wstep. rewrite Hb, seqoff_seq_of by (unfold CSeqNo.m_iSeqNoTH; lia).
  cbn [bool_decide negb orb]. rewrite orb_true_r. set (cs := if _ >=? _ then _ else cells r).
  assert (Z.to_nat (m - b) < length cs)%nat as Hl.
  { unfold cs. rewrite Z.geb_leb. destruct (Z.leb_spec (Z.of_nat (length (cells r))) (m - b)); [rewrite length_resize|]; lia. }
  assert (forall y, mk b cs y = mk b (cells r) y) as Hcs.
  { intros y. unfold cs. rewrite Z.geb_leb. destruct (Z.leb_spec (Z.of_nat (length (cells r))) (m - b)); [|done]. apply mk_resize. lia. }
  wstep. eapply wp_lift; [apply aset_Some; unfold in_bounds; lia|]. wstep. apply HQ. intros y.
  rewrite mk_insert, Hcs by lia. destruct (Z.eqb_spec y m); [by rewrite orb_true_r|by rewrite orb_false_r].
Qed.

Lemma wp_extend b m r Q :
  cell_base r = seq_of b -> Z.abs (m - b) < 2 ^ 29 ->
  (forall cs, (forall y, mk b cs y = mk b (cells r) y) -> Q tt (set_cells (cell_base r) cs r)) ->
  wp (MarkCellReceived (seq_of m) CELL_EXTEND) Q r.
Proof.
  intros Hb Hm HQ. unfold MarkCellReceived. wstep. wstep. rewrite Hb, seqoff_seq_of by (unfold CSeqNo.m_iSeqNoTH; lia).
  cbn [bool_decide negb orb]. rewrite orb_false_r, Z.geb_leb. destruct (Z.leb_spec (Z.of_nat (length (cells r))) (m - b)) as [Hl|Hl].
  - wstep. eapply wp_lift; [apply aset_Some; unfold in_bounds; rewrite length_resize; lia|]. wstep. apply HQ. intros y.
    rewrite mk_insert by (rewrite ?length_resize; lia). rewrite mk_resize by lia. destruct (Z.eqb_spec y m) as [->|]; [|done].
    unfold mk. destruct (b <=? m); [|done]. by rewrite lookup_ge_None_2 by lia.
  - wstep. by apply HQ.
Qed.

Lemma wp_CellAt b y r Q :
  b <= y -> (forall cs, (forall z, mk b cs z = mk b (cells r) z) -> Q (mk b (cells r) y) (set_cells (cell_base r) cs r)) ->
  wp (CellAt (y - b)) Q r.
Proof.
  intros Hy HQ. unfold CellAt. wstep. wstep. rewrite Z.geb_leb. destruct (Z.leb_spec (Z.of_nat (length (cells r))) (y - b)) as [Hl|Hl].
  - wstep. wstep. wstep. assert (mk b (cells r) y = false) as E.
    { unfold mk. rewrite lookup_ge_None_2 by lia. by rewrite andb_false_r. }
    rewrite E in HQ. apply HQ. intros z. apply mk_resize. lia.
  - destruct (lookup_lt_is_Some_2 (cells r) (Z.to_nat (y - b))) as [v Hv]; [lia|].
    eapply (wp_lift _ v). { unfold aget. destruct (Z.leb_spec 0 (y - b)); [done|lia]. }
    assert (mk b (cells r) y = v) as E. { unfold mk. rewrite Hv. destruct (Z.leb_spec b y); [done|lia]. }
    rewrite E in HQ. specialize (HQ (cells r)). destruct r as [? ? ? ? ? ?]. apply HQ. done.
Qed.

(** The search for the lost packet of a group. *)
Lemma wp_first_missing b z st (k : nat) r Q :
  b <= z -> 0 <= st ->
  (forall cs x, (forall y, mk b cs y = mk b (cells r) y) ->
    (x = -1 /\ all_marked b (cells r) (gidx z st (Z.of_nat k)) = true
     \/ exists m, x = m - b /\ m ∈ gidx z st (Z.of_nat k) /\ mk b (cells r) m = false) ->
    Q x (set_cells (cell_base r) cs r)) ->
  wp (first_missing k (z - b) st) Q r.
Proof.
  revert z r Q. induction k as [|k IH]; intros z r Q Hz Hst HQ; cbn [first_missing].
  - wstep. specialize (HQ (cells r) (-1)). destruct r as [? ? ? ? ? ?]. apply HQ; [done|by left].
  - wstep. apply wp_CellAt; [done|]. intros cs Hcs.
    assert (z ∈ gidx z st (Z.of_nat (S k))) as Hz0 by (apply elem_of_gidx; exists 0; lia).
    assert (forall y, y ∈ gidx z st (Z.of_nat (S k)) <-> y = z \/ y ∈ gidx (z + st) st (Z.of_nat k)) as Hsplit.
    { intros y. rewrite !elem_of_gidx. split.
      - intros (i & Hi & ->). destruct (Z.eq_dec i 0) as [->|]; [left; lia|]. right. exists (i - 1). split; lia.
      - intros [->|(i & Hi & ->)]; [exists 0; lia|]. exists (i + 1). split; lia. }
    destruct (mk b (cells r) z) eqn:Ez.
    + replace (z - b + st) with (z + st - b) by lia. apply IH; [lia|done|]. intros cs' x Hcs' Hx.
      cbn [cells set_cells cell_base] in *.
      change (set_cells (cell_base r) cs' (set_cells (cell_base r) cs r)) with (set_cells (cell_base r) cs' r).
      apply HQ; [intros y; by rewrite Hcs', Hcs|]. destruct Hx as [[-> Hall]|(m & -> & Hm & Hu)].
      * left. split; [done|]. apply all_marked_spec. intros y Hy. apply Hsplit in Hy as [->|Hy]; [done|].
        rewrite <- Hcs. by apply (proj1 (all_marked_spec _ _ _) Hall).
      * right. exists m. split; [done|]. rewrite Hsplit, <- Hcs. auto.
    + wstep. apply HQ; [done|]. right. exists z. auto.
Qed.

(** ** Groups and families of groups *)

Section Receiver.

Context (c : config) (P : Z -> CPacket.t) (Hc : config_ok c) (HP : stream_ok c P).

Notation n := (m_number_cols c).
Notation R := (m_number_rows c).
Notation ps := (Z.to_nat (payloadSize c)).
Notation sum := (sum c P).

(** How far ahead of the first cell packets may come. *)
Definition limit : Z := if R =? 1 then 5 * n + 1 else 9 * (n * R).

Implicit Types (b st N : Z) (cs : list bool) (e l ix : list Z) (zf : nat -> Z) (q : list RcvGroup) (g : RcvGroup).

(** The group of the packets [ix] has clipped the packets [l]; those of [e] are
    marked already but still to be clipped. *)
Definition ginv b cs ix e g : Prop :=
  exists l, NoDup l /\ (forall y, y ∈ l -> y ∈ ix /\ mk b cs y = true /\ y ∉ e)
    /\ collected (grp g) = Z.of_nat (length l)
    /\ clip_of (grp g) = (if fec g then cxor (sum l) (sum ix) else sum l)
    /\ (all_marked b cs ix = true \/ forall y, y ∈ ix -> mk b cs y = true -> y ∈ l \/ y ∈ e).

(** A queue of groups, the [j]-th with [N] packets from [zf j] on, [st] apart. *)
Definition fam b cs zf st N e q : Prop :=
  (forall j g, q !! j = Some g -> base (grp g) = seq_of (zf j) /\ ginv b cs (gidx (zf j) st N) e g
      /\ (fec g = true -> forall y, y ∈ gidx (zf j) st N -> y < b + limit))
  /\ (forall y j, mk b cs y = true -> y ∉ e -> y ∈ gidx (zf j) st N -> (j < length q)%nat).

(** No packet can be rebuilt, other than in group [ex]. *)
Definition settled b cs zf st N (ex : option nat) q : Prop :=
  forall j g, q !! j = Some g -> ex <> Some j -> fec g = true -> collected (grp g) = N - 1 ->
    all_marked b cs (gidx (zf j) st N) = true.

Lemma all_marked_mono b cs cs' ix :
  (forall y, mk b cs y = true -> mk b cs' y = true) -> all_marked b cs ix = true -> all_marked b cs' ix = true.
Proof using Type. rewrite !all_marked_spec. auto. Qed.

Lemma ginv_marks b cs cs' ix e m g :
  (forall y, mk b cs' y = mk b cs y || (y =? m)) -> mk b cs m = false -> ginv b cs ix e g -> ginv b cs' ix (m :: e) g.
Proof using Type.
  intros Hm Hu (l & Hnd & Hl & Hq & Hk & Hb). exists l. split; [done|]. split; [|split; [done|split; [done|]]].
  - intros y Hy. destruct (Hl y Hy) as (H1 & H2 & H3). split; [done|]. split; [by rewrite Hm, H2|].
    intros [->|?]%elem_of_cons; [congruence|done].
  - destruct Hb as [Hb|Hb]; [left; eapply all_marked_mono; [|exact Hb]; intros y Hy; by rewrite Hm, Hy|].
    right. intros y Hy Hmy. rewrite Hm in Hmy. apply orb_true_iff in Hmy as [Hmy|Hmy].
    + destruct (Hb y Hy Hmy); [by left|right; by right].
    + apply Z.eqb_eq in Hmy. subst y. right. by left.
Qed.

Lemma fam_marks b cs cs' zf st N e m q :
  (forall y, mk b cs' y = mk b cs y || (y =? m)) -> mk b cs m = false -> fam b cs zf st N e q -> fam b cs' zf st N (m :: e) q.
Proof using Type.
  intros Hm Hu [H1 H2]. split.
  - intros j g Hj. destruct (H1 j g Hj) as (Hb & Hg & Hf). split; [done|]. split; [by eapply ginv_marks|done].
  - intros y j Hy Hne Hin. apply not_elem_of_cons in Hne as [Hne1 Hne2]. rewrite Hm in Hy.
    apply orb_true_iff in Hy as [Hy|Hy]; [by eapply H2|]. apply Z.eqb_eq in Hy. done.
Qed.

Lemma ginv_same b cs cs' ix e g : (forall y, mk b cs' y = mk b cs y) -> ginv b cs ix e g -> ginv b cs' ix e g.
Proof using Type.
  intros Hm (l & Hnd & Hl & Hq & Hk & Hb). exists l. split; [done|]. split; [|split; [done|split; [done|]]].
  - intros y Hy. rewrite Hm. auto.
  - destruct Hb as [Hb|Hb]; [left|right; intros y; rewrite Hm; auto]. apply (all_marked_mono b cs); [intros y; by rewrite Hm|done].
Qed.

Lemma fam_same b cs cs' zf st N e q : (forall y, mk b cs' y = mk b cs y) -> fam b cs zf st N e q -> fam b cs' zf st N e q.
Proof using Type.
  intros Hm [H1 H2]. split; [|intros y j; rewrite Hm; apply H2].
  intros j g Hj. destruct (H1 j g Hj) as (Hb & Hg & Hf). split; [done|]. split; [by eapply ginv_same|done].
Qed.

Lemma settled_mono b cs cs' zf st N ex q :
  (forall y, mk b cs y = true -> mk b cs' y = true) -> settled b cs zf st N ex q -> settled b cs' zf st N ex q.
Proof using Type. intros Hm H j g Hj Hex Hf Hq. eapply all_marked_mono; [exact Hm|by eapply H]. Qed.

(** A pending packet in no group, or in a group that is complete. *)
Lemma fam_drop b cs zf st N e m q :
  (forall j, m ∈ gidx (zf j) st N -> (j < length q)%nat /\ all_marked b cs (gidx (zf j) st N) = true) ->
  fam b cs zf st N (m :: e) q -> fam b cs zf st N e q.
Proof using Type.
  intros Hm [H1 H2]. split.
  - intros j g Hj. destruct (H1 j g Hj) as (Hb & (l & Hnd & Hl & Hq & Hk & Hor) & Hf). split; [done|]. split; [|done].
    exists l. split; [done|]. split; [|split; [done|split; [done|]]].
    + intros y Hy. destruct (Hl y Hy) as (G1 & G2 & G3). split; [done|]. split; [done|]. by apply not_elem_of_cons in G3 as [_ G3].
    + destruct (decide (m ∈ gidx (zf j) st N)) as [Hin|Hin]; [left; by apply Hm|]. destruct Hor as [Hor|Hor]; [by left|right].
      intros y Hy Hmy. destruct (Hor y Hy Hmy) as [?|[->|?]%elem_of_cons]; [by left|done|by right].
  - intros y j Hy Hne Hin. destruct (Z.eq_dec y m) as [->|Hym]; [by apply Hm|].
    eapply H2; [exact Hy|by apply not_elem_of_cons|exact Hin].
Qed.

(** A pending packet is clipped into its group. *)
Lemma fam_clip b cs zf st N e m q j g g' :
  q !! j = Some g -> m ∈ gidx (zf j) st N -> mk b cs m = true -> m ∉ e ->
  (forall j', m ∈ gidx (zf j') st N -> j' = j) ->
  base (grp g') = base (grp g) -> fec g' = fec g -> collected (grp g') = collected (grp g) + 1 ->
  clip_of (grp g') = cxor (clip_of (grp g)) (contrib ps (P m)) ->
  fam b cs zf st N (m :: e) q -> fam b cs zf st N e (<[j := g']> q).
Proof using Type.
  intros Hj Hin Hmk Hme Huniq Eb Ef Eq Ek [H1 H2]. split.
  - intros j' x Hx. destruct (decide (j' = j)) as [->|Hne].
    + rewrite list_lookup_insert_eq in Hx by (by eapply lookup_lt_Some). injection Hx as <-.
      destruct (H1 j g Hj) as (Hb & (l & Hnd & Hl & Hq & Hk & Hor) & Hf). rewrite Eb, Ef. split; [done|]. split; [|done].
      exists (m :: l). split; [constructor; [|done]; intros Hml; destruct (Hl m Hml) as (_ & _ & G); apply G; by left|].
      split; [|split; [rewrite Eq, Hq; cbn [length]; lia|split]].
      * intros y [->|Hy]%elem_of_cons; [done|]. destruct (Hl y Hy) as (G1 & G2 & G3). split; [done|]. split; [done|].
        by apply not_elem_of_cons in G3 as [_ G3].
      * rewrite Ek, Hk, Ef, sum_cons. destruct (fec g); [|done]. rewrite <- !cxor_assoc. f_equal. apply cxor_comm.
      * destruct Hor as [Hor|Hor]; [by left|right]. intros y Hy Hmy.
        destruct (Hor y Hy Hmy) as [?|[->|?]%elem_of_cons]; [left; by right|left; by left|by right].
    + rewrite list_lookup_insert_ne in Hx by done. destruct (H1 j' x Hx) as (Hb & (l & Hnd & Hl & Hq & Hk & Hor) & Hf).
      split; [done|]. split; [|done]. exists l. split; [done|]. split; [|split; [done|split; [done|]]].
      * intros y Hy. destruct (Hl y Hy) as (G1 & G2 & G3). split; [done|]. split; [done|]. by apply not_elem_of_cons in G3 as [_ G3].
      * destruct Hor as [Hor|Hor]; [by left|right]. intros y Hy Hmy.
        destruct (Hor y Hy Hmy) as [?|[->|?]%elem_of_cons]; [by left|by apply Huniq in Hy|by right].
  - intros y j' Hy Hne Hin'. rewrite length_insert. destruct (Z.eq_dec y m) as [->|Hym].
    + apply Huniq in Hin' as ->. by eapply lookup_lt_Some.
    + eapply H2; [exact Hy|by apply not_elem_of_cons|exact Hin'].
Qed.

(** The control packet is clipped into its group. *)
Lemma fam_control b cs zf st N e q j g g' :
  q !! j = Some g -> fec g = false -> fec g' = true -> (forall y, y ∈ gidx (zf j) st N -> y < b + limit) ->
  base (grp g') = base (grp g) -> collected (grp g') = collected (grp g) ->
  clip_of (grp g') = cxor (clip_of (grp g)) (sum (gidx (zf j) st N)) ->
  fam b cs zf st N e q -> fam b cs zf st N e (<[j := g']> q).
Proof using Type.
  intros Hj Ef Ef' Hlim Eb Eq Ek [H1 H2]. split; [|intros y j' ? ? ?; rewrite length_insert; by eapply H2].
  intros j' x Hx. destruct (decide (j' = j)) as [->|Hne]; [|rewrite list_lookup_insert_ne in Hx by done; by apply H1].
  rewrite list_lookup_insert_eq in Hx by (by eapply lookup_lt_Some). injection Hx as <-.
  destruct (H1 j g Hj) as (Hb & (l & Hnd & Hl & Hq & Hk & Hor) & _). rewrite Eb. split; [done|]. split; [|done].
  exists l. split; [done|]. split; [done|]. split; [congruence|]. split; [|done]. rewrite Ek, Hk, Ef, Ef'. done.
Qed.

(** A group changes in nothing but its flag [dismissed]. *)
Lemma fam_flag b cs zf st N e q j g g' :
  q !! j = Some g -> grp g' = grp g -> fec g' = fec g -> fam b cs zf st N e q -> fam b cs zf st N e (<[j := g']> q).
Proof using Type.
  intros Hj Eg Ef [H1 H2]. split; [|intros y j' ? ? ?; rewrite length_insert; by eapply H2].
  intros j' x Hx. destruct (decide (j' = j)) as [->|Hne]; [|rewrite list_lookup_insert_ne in Hx by done; by apply H1].
  rewrite list_lookup_insert_eq in Hx by (by eapply lookup_lt_Some). injection Hx as <-.
  unfold ginv. rewrite Eg, Ef. by apply H1.
Qed.

Lemma settled_flag b cs zf st N ex q j g g' :
  q !! j = Some g -> grp g' = grp g -> fec g' = fec g -> settled b cs zf st N ex q -> settled b cs zf st N ex (<[j := g']> q).
Proof using Type.
  intros Hj Eg Ef H j' x Hx. destruct (decide (j' = j)) as [->|Hne]; [|rewrite list_lookup_insert_ne in Hx by done; by apply H].
  rewrite list_lookup_insert_eq in Hx by (by eapply lookup_lt_Some). injection Hx as <-. rewrite Eg, Ef. by apply H.
Qed.

(** New groups at the end of the queue. *)
Lemma fam_extend b cs zf st N e q k d st' :
  fam b cs zf st N e q ->
  fam b cs zf st N e (q ++ map (fun i => rcv_group (ConfigureGroup c fresh (seq_of (zf (length q + i)%nat)) st' d)) (seq 0 k)).
Proof using Type.
  intros [H1 H2]. split.
  - intros j g Hj. apply lookup_app_Some in Hj as [Hj|[Hge Hj]]; [by apply H1|].
    apply list_lookup_fmap_Some in Hj as (i & -> & Hi). apply lookup_seq in Hi as [-> Hi]. cbn [Nat.add].
    replace (length q + (j - length q))%nat with j by lia. split; [done|]. split; [|done].
    exists []. split; [constructor|]. split; [intros y Hy; by apply not_elem_of_nil in Hy|]. split; [done|]. split.
    + unfold rcv_group. cbn. apply (holds_configure c P fresh (zf j) st' d eq_refl).
    + right. intros y Hy Hmy. right. destruct (decide (y ∈ e)) as [?|Hne]; [done|]. specialize (H2 y j Hmy Hne Hy). lia.
  - intros y j Hy He Hin. rewrite length_app. specialize (H2 y j Hy He Hin). lia.
Qed.

Lemma settled_extend b cs zf st N ex q k zs st' d :
  settled b cs zf st N ex q -> settled b cs zf st N ex (q ++ map (fun i => rcv_group (ConfigureGroup c fresh (zs i) st' d)) (seq 0 k)).
Proof using Type.
  intros H j g Hj Hex Hf Hq. apply lookup_app_Some in Hj as [Hj|[Hge Hj]]; [by eapply H|].
  apply list_lookup_fmap_Some in Hj as (i & -> & Hi). done.
Qed.

(** The first groups and cells go. *)
Lemma fam_shift b b' cs cs' zf zf' st N (k : nat) q :
  (forall j, zf' j = zf (k + j)%nat) -> b <= b' -> (forall y, b' <= y -> mk b' cs' y = mk b cs y) ->
  (forall j y, y ∈ gidx (zf' j) st N -> b' <= y) ->
  fam b cs zf st N [] q -> fam b' cs' zf' st N [] (drop k q).
Proof using Type.
  intros Hz Hb Hm Hix [H1 H2]. split.
  - intros j g Hj. rewrite lookup_drop in Hj. destruct (H1 _ _ Hj) as (Hbase & (l & Hnd & Hl & Hq & Hk & Hor) & Hf).
    rewrite <- Hz in *. split; [done|]. split; [|intros Hfec y Hy; specialize (Hf Hfec y Hy); lia].
    exists l. split; [done|]. split; [|split; [done|split; [done|]]].
    + intros y Hy. destruct (Hl y Hy) as (G1 & G2 & G3). split; [done|]. split; [|done]. rewrite Hm; [done|by eapply Hix].
    + destruct Hor as [Hor|Hor]; [left|right].
      * apply all_marked_spec. intros y Hy. rewrite Hm by (by eapply Hix). by apply (proj1 (all_marked_spec _ _ _) Hor).
      * intros y Hy Hmy. apply Hor; [done|]. rewrite <- Hm; [done|by eapply Hix].
  - intros y j Hy He Hin. rewrite length_drop. specialize (Hix _ _ Hin) as Hge. rewrite Hm in Hy by done. rewrite Hz in Hin.
    specialize (H2 y _ Hy He Hin). lia.
Qed.

Lemma settled_shift b b' cs cs' zf zf' st N (k : nat) q :
  (forall j, zf' j = zf (k + j)%nat) -> (forall y, b' <= y -> mk b' cs' y = mk b cs y) ->
  (forall j y, y ∈ gidx (zf' j) st N -> b' <= y) ->
  settled b cs zf st N None q -> settled b' cs' zf' st N None (drop k q).
Proof using Type.
  intros Hz Hm Hix H j g Hj _ Hf Hq. rewrite lookup_drop in Hj. specialize (H _ _ Hj ltac:(done) Hf Hq). rewrite <- Hz in H.
  apply all_marked_spec. intros y Hy. rewrite Hm by (by eapply Hix). by apply (proj1 (all_marked_spec _ _ _) H).
Qed.

(** ** The packet that lacks *)

Lemma ginv_missing b cs ix e g m :
  ginv b cs ix e g -> fec g = true -> collected (grp g) = Z.of_nat (length ix) - 1 ->
  m ∈ ix -> mk b cs m = false -> clip_of (grp g) = contrib ps (P m).
Proof using Type.
  intros (l & Hnd & Hl & Hq & Hk & _) Hf Hc1 Hm Hu. rewrite Hk, Hf. apply sum_missing.
  assert (m :: l ⊆+ ix) as Hsub.
  { apply NoDup_submseteq; [constructor; [|done]; intros Hml; destruct (Hl m Hml) as (_ & G & _); congruence|].
    intros y [->|Hy]%elem_of_cons; [done|]. by apply Hl. }
  symmetry. apply submseteq_length_Permutation; [done|]. cbn [length]. lia.
Qed.

(** All but one are clipped: the rest is marked once [m] is. *)
Lemma ginv_completed b cs cs' ix e g m :
  (forall y, mk b cs' y = mk b cs y || (y =? m)) ->
  ginv b cs ix e g -> collected (grp g) = Z.of_nat (length ix) - 1 -> m ∈ ix -> mk b cs m = false -> all_marked b cs' ix = true.
Proof using Type.
  intros Hm (l & Hnd & Hl & Hq & _) Hc1 Hin Hu. apply all_marked_spec. intros y Hy. rewrite Hm.
  assert (m :: l ⊆+ ix) as Hsub.
  { apply NoDup_submseteq; [constructor; [|done]; intros Hml; destruct (Hl m Hml) as (_ & G & _); congruence|].
    intros z [->|Hz]%elem_of_cons; [done|]. by apply Hl. }
  assert (m :: l ≡ₚ ix) as Hp by (apply submseteq_length_Permutation; [done|cbn [length]; lia]).
  rewrite <- Hp in Hy. apply elem_of_cons in Hy as [->|Hy]; [by rewrite Z.eqb_refl, orb_true_r|].
  destruct (Hl y Hy) as (_ & -> & _). done.
Qed.

(** ** A queue of groups *)

(** Every group with its control packet is one of [F]. *)
Definition fec_in zf st N (F : list (list Z)) q : Prop :=
  forall j g, q !! j = Some g -> fec g = true -> gidx (zf j) st N ∈ F.

(** The groups that begin with a packet of [H] have their control packet, unless
    they begin before [b]. *)
Definition fec_has b zf (H : list Z) q : Prop :=
  forall z, z ∈ H -> b <= z -> exists j g, zf j = z /\ q !! j = Some g /\ fec g = true.

Definition qinv b zf st N cs e ex F H q : Prop :=
  fam b cs zf st N e q /\ settled b cs zf st N ex q /\ fec_in zf st N F q /\ fec_has b zf H q.

Section Queue.

Context (b : Z) (zf : nat -> Z) (st N : Z) (F : list (list Z)) (H : list Z) (HN : 1 <= N).
Context (Huniq : forall y j j', y ∈ gidx (zf j) st N -> y ∈ gidx (zf j') st N -> j' = j).

Lemma qinv_marks cs cs' e ex m q :
  (forall y, mk b cs' y = mk b cs y || (y =? m)) -> mk b cs m = false ->
  qinv b zf st N cs e ex F H q -> qinv b zf st N cs' (m :: e) ex F H q.
Proof using Type.
  intros Hm Hu (H1 & H2 & H3). split; [by eapply fam_marks|]. split; [|done]. eapply settled_mono; [|exact H2].
  intros y Hy. by rewrite Hm, Hy.
Qed.

Lemma qinv_same cs cs' e ex q :
  (forall y, mk b cs' y = mk b cs y) -> qinv b zf st N cs e ex F H q -> qinv b zf st N cs' e ex F H q.
Proof using Type.
  intros Hm (H1 & H2 & H3). split; [by eapply fam_same|]. split; [|done]. eapply settled_mono; [|exact H2].
  intros y Hy. by rewrite Hm.
Qed.

Lemma qinv_drop cs e ex m q :
  (forall j, m ∈ gidx (zf j) st N -> (j < length q)%nat /\ all_marked b cs (gidx (zf j) st N) = true) ->
  qinv b zf st N cs (m :: e) ex F H q -> qinv b zf st N cs e ex F H q.
Proof using Type. intros Hm (H1 & H2). split; [by eapply fam_drop|done]. Qed.

(** The group that may be rebuilt is complete, or not ready. *)
Lemma qinv_settle cs e j g q :
  q !! j = Some g ->
  (fec g = true -> collected (grp g) = N - 1 -> all_marked b cs (gidx (zf j) st N) = true) ->
  qinv b zf st N cs e (Some j) F H q -> qinv b zf st N cs e None F H q.
Proof using Type.
  intros Hj Hg (H1 & H2 & H3). split; [done|]. split; [|done]. intros j' g' Hj' _ Hf Hq.
  destruct (decide (j' = j)) as [->|Hne]; [|eapply H2; [exact Hj'|congruence|done|done]].
  rewrite Hj in Hj'. injection Hj' as <-. by apply Hg.
Qed.

(** The packet that lacks in group [j] is marked. *)
Lemma qinv_completed cs cs' e j g m q :
  (forall y, mk b cs' y = mk b cs y || (y =? m)) -> mk b cs m = false -> m ∈ gidx (zf j) st N ->
  q !! j = Some g -> fec g = true -> collected (grp g) = N - 1 ->
  qinv b zf st N cs e (Some j) F H q ->
  all_marked b cs' (gidx (zf j) st N) = true /\ qinv b zf st N cs' e None F H q.
Proof using HN Huniq.
  intros Hm Hu Hin Hj Hf Hq Hinv.
  assert (all_marked b cs' (gidx (zf j) st N) = true) as Hall.
  { destruct Hinv as ([H1 _] & _). destruct (H1 _ _ Hj) as (_ & Hg & _). eapply ginv_completed; [exact Hm|exact Hg| |done|done].
    rewrite gidx_length. lia. }
  split; [done|]. eapply qinv_settle; [exact Hj|done|]. apply (qinv_drop cs' e (Some j) m); [|by eapply qinv_marks].
  intros j' Hj'. rewrite (Huniq _ _ _ Hin Hj'). split; [by eapply lookup_lt_Some|done].
Qed.

Lemma fec_keep j g g' q : q !! j = Some g -> (fec g = true -> fec g' = true) -> fec_has b zf H q -> fec_has b zf H (<[j := g']> q).
Proof using Type.
  intros Hj Hf Hh z Hz Hb. destruct (Hh z Hz Hb) as (i & x & Ez & Hi & Hx). destruct (decide (i = j)) as [->|Hne].
  - exists j, g'. rewrite list_lookup_insert_eq by (by eapply lookup_lt_Some). rewrite Hj in Hi. injection Hi as <-. auto.
  - exists i, x. by rewrite list_lookup_insert_ne.
Qed.

Lemma settled_insert cs q j g' : settled b cs zf st N None q -> settled b cs zf st N (Some j) (<[j := g']> q).
Proof using Type.
  intros Hs i x Hx Hne. rewrite list_lookup_insert_ne in Hx by congruence. by apply Hs.
Qed.

Lemma qinv_clip cs e m q j g g' :
  q !! j = Some g -> m ∈ gidx (zf j) st N -> mk b cs m = true -> m ∉ e ->
  base (grp g') = base (grp g) -> fec g' = fec g -> collected (grp g') = collected (grp g) + 1 ->
  clip_of (grp g') = cxor (clip_of (grp g)) (contrib ps (P m)) ->
  qinv b zf st N cs (m :: e) None F H q -> qinv b zf st N cs e (Some j) F H (<[j := g']> q).
Proof using Huniq.
  intros Hj Hin Hmk Hme Eb Ef Eq Ek (H1 & H2 & H3 & H4).
  split; [eapply fam_clip; try done; intros j'; by apply Huniq|]. split; [by apply settled_insert|].
  split; [|by eapply fec_keep; [exact Hj|congruence|]]. intros i x Hx Hf. destruct (decide (i = j)) as [->|Hne].
  - rewrite list_lookup_insert_eq in Hx by (by eapply lookup_lt_Some). injection Hx as <-. eapply H3; [exact Hj|congruence].
  - rewrite list_lookup_insert_ne in Hx by done. by eapply H3.
Qed.

Lemma qinv_flag cs e ex q j g g' :
  q !! j = Some g -> grp g' = grp g -> fec g' = fec g -> qinv b zf st N cs e ex F H q -> qinv b zf st N cs e ex F H (<[j := g']> q).
Proof using Type.
  intros Hj Eg Ef (H1 & H2 & H3 & H4). split; [by eapply fam_flag|]. split; [by eapply settled_flag|].
  split; [|by eapply fec_keep; [exact Hj|congruence|]]. intros i x Hx Hf. destruct (decide (i = j)) as [->|Hne].
  - rewrite list_lookup_insert_eq in Hx by (by eapply lookup_lt_Some). injection Hx as <-. eapply H3; [exact Hj|congruence].
  - rewrite list_lookup_insert_ne in Hx by done. by eapply H3.
Qed.

Lemma qinv_extend cs e ex q k d st' :
  qinv b zf st N cs e ex F H q ->
  qinv b zf st N cs e ex F H (q ++ map (fun i => rcv_group (ConfigureGroup c fresh (seq_of (zf (length q + i)%nat)) st' d)) (seq 0 k)).
Proof using Type.
  intros (H1 & H2 & H3 & H4). split; [by apply fam_extend|]. split; [by apply settled_extend|]. split.
  - intros j g Hj Hfec. apply lookup_app_Some in Hj as [Hj|[_ Hj]]; [by eapply H3|].
    apply list_lookup_fmap_Some in Hj as (i & -> & _). done.
  - intros z Hz Hb. destruct (H4 z Hz Hb) as (j & g & E & Hj & Hf). exists j, g. split; [done|]. split; [|done].
    by apply lookup_app_l_Some.
Qed.

(** The groups with their control packet and a packet that lacks. *)
Lemma qinv_two_lost cs q z m :
  qinv b zf st N cs [] None F H q -> z ∈ H -> b <= z -> m ∈ gidx z st N -> mk b cs m = false -> st <> 0 ->
  exists m', m' ∈ gidx z st N /\ m' <> m /\ mk b cs m' = false.
Proof using HN.
  intros ([H1 _] & H2 & _ & H4) Hz Hbz Hm Hu Hst. destruct (H4 z Hz Hbz) as (j & g & <- & Hj & Hf).
  destruct (decide (Exists (fun y => y <> m /\ mk b cs y = false) (gidx (zf j) st N))) as [He|Hne].
  - apply Exists_exists in He as (m' & Hin%list_elem_of_In & Hm'). exists m'. done.
  - exfalso. destruct (H1 _ _ Hj) as (_ & (l & Hnd & Hl & Hq & _ & Hor) & _).
    assert (all_marked b cs (gidx (zf j) st N) <> true) as Hna.
    { intros Ha. rewrite (proj1 (all_marked_spec _ _ _) Ha m Hm) in Hu. done. }
    apply Hna. eapply H2; [exact Hj|done|done|]. destruct Hor as [Ha|Hor]; [done|].
    assert (gidx (zf j) st N ≡ₚ m :: l) as Hp.
    { apply NoDup_Permutation; [by apply gidx_NoDup| |].
      - constructor; [|done]. intros Hml. destruct (Hl m Hml) as (_ & G & _). congruence.
      - intros y. rewrite elem_of_cons. split.
        + intros Hy. destruct (Z.eq_dec y m) as [|Hym]; [by left|right]. destruct (mk b cs y) eqn:Ey.
          * destruct (Hor y Hy Ey) as [?|Hn]; [done|]. by apply not_elem_of_nil in Hn.
          * exfalso. apply Hne, Exists_exists. exists y. by rewrite <- list_elem_of_In.
        + intros [->|Hy]; [done|]. by apply Hl. }
    apply Permutation_length in Hp. rewrite gidx_length in Hp. cbn [length] in Hp. lia.
Qed.

End Queue.

Lemma qinv_control b zf st N F H cs e q j g g' :
  q !! j = Some g -> fec g = false -> fec g' = true -> (forall y, y ∈ gidx (zf j) st N -> y < b + limit) ->
  base (grp g') = base (grp g) -> collected (grp g') = collected (grp g) ->
  clip_of (grp g') = cxor (clip_of (grp g)) (sum (gidx (zf j) st N)) -> gidx (zf j) st N ∈ F ->
  qinv b zf st N cs e None F H q -> qinv b zf st N cs e (Some j) F (zf j :: H) (<[j := g']> q).
Proof using Type.
  intros Hj Ef Ef' Hlim Eb Eq Ek HF (H1 & H2 & H3 & H4). split; [by eapply fam_control|]. split; [by apply settled_insert|]. split.
  - intros i x Hx Hf. destruct (decide (i = j)) as [->|Hne]; [done|]. rewrite list_lookup_insert_ne in Hx by done. by eapply H3.
  - intros z [->|Hz]%elem_of_cons Hb.
    + exists j, g'. rewrite list_lookup_insert_eq by (by eapply lookup_lt_Some). done.
    + by eapply fec_keep.
Qed.

(** The first groups and cells go; the bound on groups with a control packet is
    taken anew. *)
Lemma qinv_shift b b' zf zf' st N F F' H cs cs' (k : nat) q :
  (forall j, zf' j = zf (k + j)%nat) -> b <= b' -> (forall y, b' <= y -> mk b' cs' y = mk b cs y) ->
  (forall j y, y ∈ gidx (zf' j) st N -> b' <= y) -> (forall j, (j < k)%nat -> zf j < b') ->
  fec_in zf' st N F' (drop k q) ->
  qinv b zf st N cs [] None F H q -> qinv b' zf' st N cs' [] None F' H (drop k q).
Proof using Type.
  intros Hz Hb Hm Hix Hk HF (H1 & H2 & _ & H4). split; [by eapply fam_shift|]. split; [by eapply settled_shift|]. split; [done|].
  intros z Hzin Hzb. destruct (H4 z Hzin ltac:(lia)) as (j & g & E & Hj & Hf).
  destruct (decide (j < k)%nat) as [Hlt|Hge]; [specialize (Hk j Hlt); lia|]. exists (j - k)%nat, g.
  rewrite Hz, lookup_drop. replace (k + (j - k))%nat with j by lia. done.
Qed.

(** The groups of a queue that have their control packet. *)
Definition fec_groups zf st N q : list (list Z) :=
  omap (fun p : nat * RcvGroup => if fec (snd p) then Some (gidx (zf (fst p)) st N) else None) (imap pair q).

Lemma fec_groups_in zf st N q : fec_in zf st N (fec_groups zf st N q) q.
Proof using Type.
  intros j g Hj Hf. unfold fec_groups. apply list_elem_of_omap. exists (j, g). cbn. rewrite Hf. split; [|done].
  apply list_elem_of_lookup. exists j. by rewrite list_lookup_imap, Hj.
Qed.

Lemma fec_groups_length zf st N q : (length (fec_groups zf st N q) <= length q)%nat.
Proof using Type.
  unfold fec_groups. rewrite <- (length_imap pair q). generalize (imap pair q). intros l.
  induction l as [|x l IH]; cbn [omap list_omap length]; [lia|]. destruct (fec (snd x)); cbn [length]; lia.
Qed.

End Receiver.
