(* ===== verification/FecGroups.v ===== *)
(** * The receiver of the packet filter: finding groups

    The packets of the rows and columns, the invariant [rinv] of the receiver, the
    groups it finds for a packet, and the packet a group lacks. *)

From S2P Require Import Prelude SeqNo Packet Fec FecSpec FecSend FecRcv.

Import FEC.

(** The configuration also fits the receiver's buffer, and the column of a control
    packet its [signed char]. *)
Definition rcv_config_ok (c : config) : Prop :=
  config_ok c /\ 10 * (m_number_cols c * m_number_rows c) < rcvBufferSize c /\ (2 <= m_number_rows c -> m_number_cols c <= 255).

Section Hang.

Context (c : config) (P : Z -> CPacket.t) (Hrc : rcv_config_ok c) (HP : stream_ok c P).

Notation n := (m_number_cols c).
Notation R := (m_number_rows c).
Notation ps := (Z.to_nat (payloadSize c)).
Notation sum := (sum c P).
Notation limit := (limit c).
Notation qinv := (qinv c P).
Notation col_offset := (col_offset c).

Lemma cfg : 2 <= n /\ 1 <= R /\ 32 * (n * R) < 2 ^ 29 /\ 0 < payloadSize c <= 1452.
Proof using Hrc. destruct Hrc as ((Hn & HR & Hb & Hp & _) & _). unfold SRT_LIVE_MAX_PLSIZE in Hp. lia. Qed.

Lemma limit_range : 0 < limit <= 9 * (n * R) /\ limit <= 9 * (n * R) /\ (R <> 1 -> limit = 9 * (n * R)) /\ (R = 1 -> limit = 5 * n + 1).
Proof using Hrc. destruct cfg as (Hn & HR & _). unfold FecRcv.limit. destruct (Z.eqb_spec R 1); nia. Qed.

(** ** The packets of rows and columns *)

Definition rowz (b : Z) (j : nat) : Z := b + Z.of_nat j * n.
Definition colz (b : Z) (i : nat) : Z := b + col_offset (Z.of_nat i mod n) + Z.of_nat i / n * (R * n).

(** The column group of a packet. *)
Definition col_idx (b y : Z) : Z := (y - b) mod n + (y - b - col_offset ((y - b) mod n)) / (R * n) * n.

Lemma row_mem b j y : y ∈ gidx (rowz b j) 1 n <-> b <= y /\ Z.of_nat j = (y - b) / n.
Proof using Hrc.
  destruct cfg as (Hn & HR & _). rewrite elem_of_gidx. unfold rowz. split.
  - intros (i & Hi & ->). split; [nia|]. replace (b + Z.of_nat j * n + 1 * i - b) with (i + Z.of_nat j * n) by lia.
    rewrite Z.div_add, Z.div_small by lia. lia.
  - intros [Hb Hj]. exists ((y - b) mod n). split; [apply Z.mod_pos_bound; lia|]. rewrite Hj. pose proof (Z.div_mod (y - b) n). lia.
Qed.

Lemma col_mem b i y :
  y ∈ gidx (colz b i) n R <-> col_offset ((y - b) mod n) <= y - b /\ Z.of_nat i = col_idx b y.
Proof using Hrc.
  destruct cfg as (Hn & HR & _). rewrite elem_of_gidx. unfold colz, col_idx. split.
  - intros (t & Ht & ->).
    assert (0 <= Z.of_nat i mod n < n) as Hm by (apply Z.mod_pos_bound; lia).
    destruct (col_offset_range c (proj1 Hrc) _ Hm) as [Ho Hom].
    set (i0 := Z.of_nat i mod n) in *. set (s := Z.of_nat i / n) in *.
    assert (0 <= s) by (apply Z.div_pos; lia).
    assert ((b + col_offset i0 + s * (R * n) + n * t - b) mod n = i0) as E.
    { replace (b + col_offset i0 + s * (R * n) + n * t - b) with (col_offset i0 + (s * R + t) * n) by lia. by rewrite Z.mod_add by lia. }
    rewrite E. split; [nia|]. replace (b + col_offset i0 + s * (R * n) + n * t - b - col_offset i0) with (n * t + s * (R * n)) by lia.
    rewrite Z.div_add, (Z.div_small (n * t)) by nia. unfold i0, s. pose proof (Z.div_mod (Z.of_nat i) n). lia.
  - intros [Ho Hi]. set (i0 := (y - b) mod n) in *. assert (0 <= i0 < n) as Hm by (apply Z.mod_pos_bound; lia).
    destruct (col_offset_range c (proj1 Hrc) _ Hm) as [Ho' Hom]. set (s := (y - b - col_offset i0) / (R * n)) in *.
    assert (0 <= s) as Hs by (apply Z.div_pos; nia). rewrite Hi, Z.mod_add, Z.div_add, Z.mod_small, Z.div_small by lia. cbn [Z.add].
    assert ((y - b - col_offset i0) mod n = 0) as Hdiv.
    { rewrite Zminus_mod, Hom. fold i0. rewrite Z.sub_diag. apply Z.mod_0_l. lia. }
    exists ((y - b - col_offset i0) / n - s * R). pose proof (Z.div_mod (y - b - col_offset i0) n ltac:(lia)) as D1.
    pose proof (Z.div_mod (y - b - col_offset i0) (R * n) ltac:(nia)) as D2. fold s in D2.
    pose proof (Z.mod_pos_bound (y - b - col_offset i0) (R * n) ltac:(nia)). split; nia.
Qed.

Lemma row_uniq b y j j' : y ∈ gidx (rowz b j) 1 n -> y ∈ gidx (rowz b j') 1 n -> j' = j.
Proof using Hrc. rewrite !row_mem. lia. Qed.

Lemma col_uniq b y i i' : y ∈ gidx (colz b i) n R -> y ∈ gidx (colz b i') n R -> i' = i.
Proof using Hrc. rewrite !col_mem. lia. Qed.

Lemma col_ge b i y : y ∈ gidx (colz b i) n R -> b <= y.
Proof using Hrc.
  destruct cfg as (Hn & HR & _). intros [Ho _]%col_mem. assert (0 <= (y - b) mod n < n) as Hm by (apply Z.mod_pos_bound; lia).
  destruct (col_offset_range c (proj1 Hrc) _ Hm). lia.
Qed.

Lemma row_ge b j y : y ∈ gidx (rowz b j) 1 n -> b <= y.
Proof using Hrc. by intros [H _]%row_mem. Qed.

(** ** The invariant *)

Definition rows_inv (b : Z) (e : list Z) (ex : option nat) (F : list (list Z)) (H : list Z) (cs : list bool) (q : list RcvGroup) : Prop :=
  qinv b (rowz b) 1 n cs e ex F H q /\ 0 < Z.of_nat (length q) <= 9 * R + 6.

Definition cols_inv (b : Z) (e : list Z) (ex : option nat) (F : list (list Z)) (H : list Z) (cs : list bool) (q : list RcvGroup) : Prop :=
  R = 1 /\ q = []
  \/ 2 <= R /\ qinv b (colz b) n R cs e ex F H q /\ exists s, Z.of_nat (length q) = s * n /\ 1 <= s <= 9.

(** [er] and [ec]: packets marked but not yet in their row, or column; [exr] and
    [exc]: the row, or column, that may be rebuilt; [F]: the groups with a control
    packet; [Hr] and [Hv]: the rows and columns whose control packet has come. *)
Definition rinv (b : Z) (er ec : list Z) (exr exc : option nat) (F : list (list Z)) (Hr Hv : list Z) (r : Receive) : Prop :=
  cell_base r = seq_of b
  /\ rows_inv b er exr F Hr (cells r) (rowq r)
  /\ cols_inv b ec exc F Hv (cells r) (colq r)
  /\ (forall y, mk b (cells r) y = true -> y < b + limit)
  /\ (forall y, y ∈ er ++ ec -> mk b (cells r) y = true).

(** ** Finding the row *)

Lemma wp_row_at i g r (Q : RcvGroup -> Receive -> Prop) : 0 <= i -> rowq r !! Z.to_nat i = Some g -> Q g r -> wp (row_at i) Q r.
Proof using Type.
  intros Hi Hg HQ. unfold row_at. wstep. wstep. eapply wp_lift; [|exact HQ]. unfold aget. destruct (Z.leb_spec 0 i); [done|lia].
Qed.

Lemma wp_col_at i g r (Q : RcvGroup -> Receive -> Prop) : 0 <= i -> colq r !! Z.to_nat i = Some g -> Q g r -> wp (col_at i) Q r.
Proof using Type.
  intros Hi Hg HQ. unfold col_at. wstep. wstep. eapply wp_lift; [|exact HQ]. unfold aget. destruct (Z.leb_spec 0 i); [done|lia].
Qed.

Lemma wp_set_row i g r (Q : unit -> Receive -> Prop) :
  0 <= i < Z.of_nat (length (rowq r)) -> Q tt (set_rowq (<[Z.to_nat i := g]> (rowq r)) r) -> wp (set_row i g) Q r.
Proof using Type.
  intros Hi HQ. unfold set_row. wstep. wstep. wstep. eapply wp_lift; [by apply aset_Some|]. by wstep.
Qed.

Lemma wp_set_col i g r (Q : unit -> Receive -> Prop) :
  0 <= i < Z.of_nat (length (colq r)) -> Q tt (set_colq (<[Z.to_nat i := g]> (colq r)) r) -> wp (set_col i g) Q r.
Proof using Type.
  intros Hi HQ. unfold set_col. wstep. wstep. wstep. eapply wp_lift; [by apply aset_Some|]. by wstep.
Qed.

Lemma rows_head b e ex F H cs q : rows_inv b e ex F H cs q -> exists g, q !! 0%nat = Some g /\ base (grp g) = seq_of b.
Proof using Type.
  intros (([H1 _] & _) & Hlen). destruct (lookup_lt_is_Some_2 q 0) as [g Hg]; [lia|]. exists g. split; [done|].
  destruct (H1 _ _ Hg) as [-> _]. unfold rowz. f_equal. lia.
Qed.

Lemma col_base b e ex F H cs q (i : nat) :
  2 <= R -> cols_inv b e ex F H cs q -> Z.of_nat i < n ->
  exists g, q !! i = Some g /\ base (grp g) = seq_of (b + col_offset (Z.of_nat i)).
Proof using Hrc.
  destruct cfg as (Hn & HR & _). intros HR2 [[? _]|(_ & ([H1 _] & _) & s & Hs & Hs1)] Hi; [lia|].
  destruct (lookup_lt_is_Some_2 q i) as [g Hg]; [nia|]. exists g. split; [done|]. destruct (H1 _ _ Hg) as [-> _]. unfold colz.
  rewrite Z.mod_small, Z.div_small by lia. f_equal. lia.
Qed.

Lemma col_offset_0 : col_offset 0 = 0.
Proof using Hrc. destruct cfg as (Hn & HR & _). unfold FecSend.col_offset. destruct (m_arrangement_staircase c); [|done]. by rewrite Z.mod_0_l by lia. Qed.

Lemma cols_head b e ex F H cs q :
  2 <= R -> cols_inv b e ex F H cs q -> exists g, q !! 0%nat = Some g /\ base (grp g) = seq_of b.
Proof using Hrc.
  destruct cfg as (Hn & HR & _). intros HR2 Hq. destruct (col_base _ _ _ _ _ _ _ 0%nat HR2 Hq ltac:(lia)) as (g & Hg & Hb).
  exists g. split; [done|]. rewrite Hb. f_equal. change (Z.of_nat 0) with 0. rewrite col_offset_0. lia.
Qed.

Lemma wp_no_shrink k size r (Q : bool -> Receive -> Prop) :
  k < SRT_FEC_MAX_RCV_HISTORY -> size < rcvBufferSize c -> Q false r -> wp (CheckEmergencyShrink c k size) Q r.
Proof using Type.
  intros Hk Hs HQ. unfold CheckEmergencyShrink. cbv zeta. destruct (k <=? _); [by wstep|].
  destruct (Z.ltb_spec size (rcvBufferSize c)), (Z.ltb_spec k SRT_FEC_MAX_RCV_HISTORY); try lia. cbn [andb]. by wstep.
Qed.

(** The rows, extended up to the row of packet [y]. *)
Lemma wp_row_index b e ex F H y r Q :
  rows_inv b e ex F H (cells r) (rowq r) -> b <= y < b + limit ->
  (forall q, rows_inv b e ex F H (cells r) q -> Z.of_nat (length q) = Z.max (Z.of_nat (length (rowq r))) ((y - b) / n + 1) ->
     Q (inr ((y - b) / n)) (set_rowq q r)) ->
  wp (RcvGetRowGroupIndex c (seq_of y)) Q r.
Proof using Hrc.
  destruct cfg as (Hn & HR & Hb & _). destruct limit_range as (Hlim & _ & HlimR & Hlim1).
  intros Hrows Hy HQ. destruct (rows_head _ _ _ _ _ _ _ Hrows) as (g0 & Hg0 & Eb0).
  unfold RcvGetRowGroupIndex. wstep. eapply wp_row_at; [lia|exact Hg0|]. rewrite Eb0, seqoff_seq_of by (unfold CSeqNo.m_iSeqNoTH; nia).
  destruct (Z.ltb_spec (y - b) 0); [lia|]. wstep. wstep. wstep. rewrite Z.geb_leb.
  assert (0 <= (y - b) / n) as Hx0 by (apply Z.div_pos; lia).
  assert ((y - b) / n < 9 * R + 6 /\ (y - b) / n / R < 10 /\ (y - b) / n * n < 10 * (n * R)) as (Hx1 & Hx2 & Hx3).
  { pose proof (Z.mul_div_le (y - b) n ltac:(lia)). destruct (Z.eq_dec R 1) as [E1|E1].
    - rewrite (Hlim1 E1) in *. rewrite E1, Z.div_1_r. assert ((y - b) / n <= 5) by (apply Z.lt_succ_r, Z.div_lt_upper_bound; lia). nia.
    - rewrite (HlimR E1) in *. assert ((y - b) / n < 9 * R) by (apply Z.div_lt_upper_bound; nia).
      assert ((y - b) / n / R < 9) by (apply Z.div_lt_upper_bound; nia). nia. }
  destruct (Z.leb_spec (Z.of_nat (length (rowq r))) ((y - b) / n)) as [Hge|Hlt].
  - unfold ExtendRows. wstep. apply wp_no_shrink; [unfold SRT_FEC_MAX_RCV_HISTORY; lia|destruct Hrc as (_ & Hbuf & _); lia|].
    wstep. eapply wp_row_at; [lia|exact Hg0|]. wstep. wstep. cbv zeta. wstep. wstep. rewrite Eb0, take_ge by lia.
    assert (more_rows c (seq_of b) (Z.of_nat (length (rowq r))) ((y - b) / n + 1 - Z.of_nat (length (rowq r)))
            = map (fun i => rcv_group (ConfigureGroup c fresh (seq_of (rowz b (length (rowq r) + i)%nat)) 1 n))
                (seq 0 (Z.to_nat ((y - b) / n + 1 - Z.of_nat (length (rowq r)))))) as Em.
    { unfold more_rows. apply map_ext_in. intros i Hi%in_seq. do 2 f_equal. unfold rowz.
      rewrite i32_id, incseq_by_seq_of by (unfold is_i32, CSeqNo.m_iMaxSeqNo; nia). f_equal. lia. }
    rewrite Em. apply HQ.
    + destruct Hrows as (Hq & Hl). split; [by apply qinv_extend|]. rewrite length_app, length_map, length_seq. lia.
    + rewrite length_app, length_map, length_seq. lia.
  - wstep. wstep. specialize (HQ (rowq r) Hrows ltac:(lia)). destruct r as [? ? ? ? ? ?]. exact HQ.
Qed.


(** ** Finding the column *)

Lemma more_series_state b s (k : nat) :
  2 <= R -> 0 <= s -> s + Z.of_nat k <= 9 ->
  more_series c k (seq_of b) s
  = map (fun i => rcv_group (ConfigureGroup c fresh (seq_of (colz b (Z.to_nat (s * n) + i)%nat)) (sizeRow c) (sizeCol c * n)))
      (seq 0 (k * Z.to_nat n)).
Proof using Hrc.
  destruct cfg as (Hn & HR & Hb & _). intros HR2. revert s. induction k as [|k IH]; intros s Hs Hk; cbn [more_series]; [done|].
  rewrite i32_id, incseq_by_seq_of by (unfold is_i32, CSeqNo.m_iMaxSeqNo; nia). rewrite IH by lia.
  rewrite (ConfigureColumns_state c (proj1 Hrc)) by done. cbn [Nat.mul]. rewrite seq_app, map_app, map_map. cbn [Nat.add]. f_equal.
  - apply map_ext_in. intros i Hi%in_seq. do 3 f_equal. unfold colz. replace (Z.of_nat (Z.to_nat (s * n) + i)) with (Z.of_nat i + s * n) by lia.
    rewrite Z.mod_add, Z.div_add, Z.mod_small, Z.div_small by lia. lia.
  - rewrite <- (Nat.add_0_r (Z.to_nat n)) at 2. rewrite <- fmap_add_seq. setoid_rewrite map_map. apply map_ext. intros i.
    do 4 f_equal. lia.
Qed.

Lemma wp_col_index b e ex F H y r Q :
  2 <= R -> cols_inv b e ex F H (cells r) (colq r) -> b <= y < b + limit ->
  (y - b < col_offset ((y - b) mod n) -> Q (inl HANG_PAST) r) ->
  (col_offset ((y - b) mod n) <= y - b -> 0 <= col_idx b y ->
   forall q, cols_inv b e ex F H (cells r) q -> col_idx b y < Z.of_nat (length q) -> (length (colq r) <= length q)%nat ->
     Q (inr (col_idx b y)) (set_colq q r)) ->
  wp (RcvGetColumnGroupIndex c (seq_of y)) Q r.
Proof using Hrc.
  destruct cfg as (Hn & HR & Hb & _). destruct limit_range as (Hlim & _ & HlimR & _).
  intros HR2 Hcols Hy HQ1 HQ2. destruct (cols_head _ _ _ _ _ _ _ HR2 Hcols) as (g0 & Hg0 & Eb0). specialize (HlimR ltac:(lia)).
  assert (0 <= (y - b) mod n < n) as Hm by (apply Z.mod_pos_bound; lia).
  unfold RcvGetColumnGroupIndex. wstep. eapply wp_col_at; [lia|exact Hg0|]. rewrite Eb0, seqoff_seq_of by (unfold CSeqNo.m_iSeqNoTH; nia).
  cbv zeta. destruct (Z.ltb_spec (y - b) 0); [lia|]. rewrite Z.gtb_ltb. destruct (Z.ltb_spec (CSeqNo.m_iSeqNoTH / 2) (y - b)) as [Hbad|_].
  { exfalso. unfold CSeqNo.m_iSeqNoTH in Hbad. change (1073741823 / 2) with 536870911 in Hbad. nia. }
  destruct (col_base _ _ _ _ _ _ _ (Z.to_nat ((y - b) mod n)) HR2 Hcols ltac:(lia)) as (g & Hg & Ebg).
  rewrite Z2Nat.id in Ebg by lia. destruct (col_offset_range c (proj1 Hrc) _ Hm) as [Ho Hom].
  wstep. eapply wp_col_at; [lia|exact Hg|]. rewrite Ebg, seqoff_seq_of by (unfold CSeqNo.m_iSeqNoTH; nia).
  replace (y - (b + col_offset ((y - b) mod n))) with (y - b - col_offset ((y - b) mod n)) by lia.
  destruct (Z.ltb_spec (y - b - col_offset ((y - b) mod n)) 0) as [Hpast|Hin]; [wstep; apply HQ1; lia|].
  rewrite (Z.mul_comm n R). fold (col_idx b y). specialize (HQ2 ltac:(lia)).
  assert (0 <= (y - b - col_offset ((y - b) mod n)) / (R * n) < 9) as Hser.
  { split; [apply Z.div_pos; nia|]. apply Z.div_lt_upper_bound; nia. }
  assert (0 <= col_idx b y < 9 * n) as Hix by (unfold col_idx; nia). specialize (HQ2 ltac:(lia)).
  rewrite Z.gtb_ltb. unfold SRT_FEC_MAX_RCV_HISTORY. destruct (Z.ltb_spec (R * n * 10) (col_idx b y)) as [Hbad|_]; [nia|].
  wstep. wstep. wstep. rewrite Z.geb_leb. destruct (Z.leb_spec (Z.of_nat (length (colq r))) (col_idx b y)) as [Hge|Hlt].
  - assert (col_idx b y / n < 9) by (apply Z.div_lt_upper_bound; lia).
    unfold ExtendColumns. wstep. apply wp_no_shrink; [unfold SRT_FEC_MAX_RCV_HISTORY; lia|destruct Hrc as (_ & Hbuf & _); nia|].
    wstep. eapply wp_col_at; [lia|exact Hg0|]. wstep. wstep. cbv zeta. wstep. wstep. rewrite Eb0.
    destruct Hcols as [[? _]|(_ & Hq & s & Hs & Hs9)]; [lia|]. rewrite Hs, Z.div_mul by lia.
    assert (s <= col_idx b y / n) as Hsle by (apply Z.div_le_lower_bound; lia).
    rewrite more_series_state by lia. rewrite <- Hs, Nat2Z.id.
    assert (Z.of_nat (Z.to_nat (col_idx b y / n - s + 1) * Z.to_nat n) = (col_idx b y / n - s + 1) * n) as El by lia.
    pose proof (Z.div_mod (col_idx b y) n ltac:(lia)) as Hdm. pose proof (Z.mod_pos_bound (col_idx b y) n ltac:(lia)).
    apply HQ2.
    + right. split; [done|]. split; [by apply qinv_extend|]. exists (col_idx b y / n + 1).
      rewrite length_app, length_map, length_seq, Nat2Z.inj_add, El, Hs. split; lia.
    + rewrite length_app, length_map, length_seq, Nat2Z.inj_add, El, Hs. lia.
    + rewrite length_app. lia.
  - wstep. wstep. specialize (HQ2 (colq r) Hcols ltac:(lia) ltac:(lia)). destruct r as [? ? ? ? ? ?]. exact HQ2.
Qed.

(** ** The packet that lacks *)

Lemma wp_loss_seq b z N st g r Q :
  cell_base r = seq_of b -> base g = seq_of z -> b <= z -> 0 <= N -> 0 <= st ->
  (forall y, y ∈ gidx z st N -> y < b + limit) -> z - b < 2 ^ 29 ->
  (forall cs x, (forall y, mk b cs y = mk b (cells r) y) ->
     (x = -1 /\ all_marked b (cells r) (gidx z st N) = true
      \/ exists m, x = seq_of m /\ m ∈ gidx z st N /\ mk b (cells r) m = false) -> Q x (set_cells (cell_base r) cs r)) ->
  wp (loss_seq N st g) Q r.
Proof using Hrc.
  destruct cfg as (Hn & HR & Hb & _). destruct limit_range as (Hlim & _).
  intros Ecb Eb Hz HN Hst Hlt Hzb HQ. unfold loss_seq. wstep. wstep. rewrite Ecb, Eb, seqoff_seq_of by (unfold CSeqNo.m_iSeqNoTH; lia).
  destruct (Z.ltb_spec (z - b) 0); [lia|]. wstep. apply wp_first_missing; [done|done|]. intros cs x Hcs Hx. wstep.
  rewrite Z2Nat.id in Hx by done. apply HQ; [done|]. destruct Hx as [[-> Ha]|(m & -> & Hm & Hu)]; [by left|right]. exists m.
  assert (b <= m) by (apply elem_of_gidx in Hm as (i & Hi & ->); nia). specialize (Hlt m Hm).
  destruct (Z.eqb_spec (m - b) (-1)); [lia|]. rewrite incseq_by_seq_of by (unfold CSeqNo.m_iMaxSeqNo; nia).
  split; [f_equal; lia|done].
Qed.

(** The packet passed on in place of the lost packet [m]. *)
Definition reproduces (m : Z) (p : CPacket.t) : Prop :=
  CPacket.getSeqNo p = seq_of m /\ CPacket.getMsgTimeStamp p = CPacket.getMsgTimeStamp (P m)
  /\ CPacket.getMsgCryptoFlags p = CPacket.getMsgCryptoFlags (P m) /\ CPacket.m_pcData p = CPacket.m_pcData (P m)
  /\ CPacket.getRexmitFlag p = true /\ CPacket.getMsgBoundary p = PB_SOLO.

Lemma crypto_flags p : 0 <= CPacket.getMsgCryptoFlags p < 4.
Proof using Type.
  unfold CPacket.getMsgCryptoFlags, Bits.unwrap. change (Bits.mask MSGNO_ENCKEYSPEC) with (Z.shiftl (Z.ones 2) 27).
  change (Bits.offset MSGNO_ENCKEYSPEC) with 27. rewrite Z.shiftr_land, Z.shiftr_shiftl_l by lia. change (27 - 27) with 0.
  rewrite Z.shiftl_0_r, Z.land_ones by lia. apply Z.mod_pos_bound. lia.
Qed.

Lemma rebuilt_msgno (order : bool) f id ts data : 0 <= f < 4 ->
  let p := CPacket.mk id (Z.lor (Z.lor (Z.lor (Z.lor 1 (Bits.wrap MSGNO_PACKET_BOUNDARY (PacketBoundary_to PB_SOLO)))
                                   (Bits.wrap MSGNO_PACKET_INORDER (if order then 1 else 0)))
                            (Bits.wrap MSGNO_ENCKEYSPEC f)) (Bits.wrap MSGNO_REXMIT 1)) ts 0 data in
  CPacket.getMsgCryptoFlags p = f /\ CPacket.getRexmitFlag p = true /\ CPacket.getMsgBoundary p = PB_SOLO.
Proof using Type.
  intros Hf. assert (f = 0 \/ f = 1 \/ f = 2 \/ f = 3) as Hcases by lia.
  destruct order; repeat destruct Hcases as [->|Hcases]; subst; vm_compute; done.
Qed.

Lemma rebuilt_spec (order : bool) g m :
  clip_of g = contrib ps (P m) ->
  let p := rebuilt_packet c order g (seq_of m) in
  reproduces m (insert_rebuilt p) /\ htons (length_clip g) <= payloadSize c /\ Z.of_nat (length (payload_clip g)) <= SRT_LIVE_MAX_PLSIZE
  /\ forall g0, length (payload_clip g0) = ps -> clip_of (ClipRebuiltPacket c g0 p) = cxor (clip_of g0) (contrib ps (P m)).
Proof using Hrc HP.
  destruct cfg as (Hn & HR & Hb & Hps). intros Hk. destruct (HP m) as ((Hs & Hmn & Hts & _) & Hseq & _ & Hlen). cbv zeta.
  pose proof (packet_data c P HP m) as Hdl. pose proof (crypto_flags (P m)) as Hfl.
  assert (length_clip g = htons (u16 (CPacket.getLength (P m)))) as E1 by (exact (f_equal cl_len Hk)).
  assert (flag_clip g = CPacket.getMsgCryptoFlags (P m)) as E2.
  { pose proof (f_equal cl_flag Hk) as E. cbn in E. rewrite E. apply Z.mod_small. lia. }
  assert (timestamp_clip g = CPacket.getMsgTimeStamp (P m)) as E3 by (exact (f_equal cl_ts Hk)).
  assert (payload_clip g = resize ps 0 (CPacket.m_pcData (P m))) as E4 by (exact (f_equal cl_data Hk)).
  assert (0 <= CPacket.getLength (P m)) by (unfold CPacket.getLength; lia).
  assert (u16 (CPacket.getLength (P m)) = CPacket.getLength (P m)) as Eu by (apply Z.mod_small; lia).
  assert (htons (length_clip g) = CPacket.getLength (P m)) as El by (rewrite E1, Eu; apply htons_involutive; lia).
  assert (take (Z.to_nat (htons (length_clip g))) (payload_clip g) = CPacket.m_pcData (P m)) as Ed.
  { rewrite El, E4. unfold CPacket.getLength. rewrite Nat2Z.id, resize_ge by done. by rewrite take_app_length. }
  pose proof (seq_of_valid m) as Hv. assert (u32 (seq_of m) = seq_of m) as Es by (seq_facts; apply Z.mod_small; lia).
  destruct (rebuilt_msgno order (flag_clip g) (u32 (seq_of m)) (timestamp_clip g) [] ltac:(lia)) as (M1 & M2 & M3).
  split; [|split; [lia|split]].
  - unfold reproduces, insert_rebuilt, rebuilt_packet. cbn [hdr_seqno hdr_msgno hdr_timestamp hdr_id buffer len]. split.
    + unfold CPacket.getSeqNo. cbn [CPacket.ph_seqno]. rewrite Es. seq_facts. apply i32_id. unfold is_i32. lia.
    + split; [|split; [etrans; [exact M1|done]|split; [exact Ed|split; [exact M2|exact M3]]]].
      rewrite E3. unfold CPacket.getMsgTimeStamp. cbn [CPacket.ph_timestamp]. by rewrite <- Z.land_assoc, Z.land_diag.
  - rewrite E4, length_resize. unfold SRT_LIVE_MAX_PLSIZE. lia.
  - intros g0 Hg0. unfold ClipRebuiltPacket. cbn [hdr_seqno hdr_msgno hdr_timestamp hdr_id buffer len rebuilt_packet]. rewrite Ed.
    rewrite clip_of_ClipData by done. f_equal. unfold contrib. rewrite El, E3. f_equal.
    change (u8 (Bits.unwrap MSGNO_ENCKEYSPEC ?x)) with (u8 (CPacket.getMsgCryptoFlags (CPacket.mk (u32 (seq_of m)) x (timestamp_clip g) 0 []))).
    rewrite M1, E2. done.
Qed.

End Hang.
