(* ===== verification/FecRebuild.v ===== *)
(** * The receiver of the packet filter: rebuilding

    A group that lacks one packet gives that packet, which may leave another group,
    across, with one packet to rebuild, and so on. Every round completes a group that
    has its control packet, so there are no more rounds than such groups. *)

From S2P Require Import Prelude SeqNo Packet Fec FecSpec FecSend FecRcv FecGroups.

Import FEC.

Section Rebuild.

Context (c : config) (P : Z -> CPacket.t) (Hrc : rcv_config_ok c) (HP : stream_ok c P).

Notation n := (m_number_cols c).
Notation R := (m_number_rows c).
Notation ps := (Z.to_nat (payloadSize c)).
Notation limit := (limit c).
Notation rinv := (rinv c P).
Notation rowz := (rowz c).
Notation colz := (colz c).
Notation reproduces := (reproduces P).

Context (b : Z).

(** The packets rebuilt on the way from [r] to [r']. *)
Definition grew (r r' : Receive) : Prop :=
  exists ms qs, rebuilt r' = rebuilt r ++ qs /\ Forall2 (fun m q => reproduces m (insert_rebuilt q)) ms qs
    /\ (forall y, mk b (cells r') y = mk b (cells r) y || bool_decide (y ∈ ms))
    /\ (forall y, y ∈ ms -> mk b (cells r) y = false) /\ NoDup ms.

Lemma grew_same r r' : rebuilt r' = rebuilt r -> (forall y, mk b (cells r') y = mk b (cells r) y) -> grew r r'.
Proof using Type.
  intros E Hm. exists [], []. rewrite app_nil_r. split; [done|]. split; [constructor|]. split; [|split; [|constructor]].
  - intros y. by rewrite Hm, orb_false_r.
  - intros y Hy. by apply not_elem_of_nil in Hy.
Qed.

Lemma grew_one r r' m q :
  rebuilt r' = rebuilt r ++ [q] -> reproduces m (insert_rebuilt q) -> (forall y, mk b (cells r') y = mk b (cells r) y || (y =? m)) ->
  mk b (cells r) m = false -> grew r r'.
Proof using Type.
  intros E Hr Hm Hu. exists [m], [q]. split; [done|]. split; [constructor; [done|constructor]|]. split; [|split; [|apply NoDup_singleton]].
  - intros y. rewrite Hm. f_equal. destruct (Z.eqb_spec y m) as [->|Hne]; symmetry; [apply bool_decide_eq_true|apply bool_decide_eq_false]; by rewrite list_elem_of_singleton.
  - intros y ->%list_elem_of_singleton. done.
Qed.

Lemma grew_trans r1 r2 r3 : grew r1 r2 -> grew r2 r3 -> grew r1 r3.
Proof using Type.
  intros (ms & qs & E & Hf & Hm & Hu & Hnd) (ms' & qs' & E' & Hf' & Hm' & Hu' & Hnd'). exists (ms ++ ms'), (qs ++ qs').
  split; [by rewrite E', E, app_assoc|]. split; [by apply Forall2_app|]. split; [|split].
  - intros y. rewrite Hm', Hm, <- orb_assoc. f_equal. symmetry. destruct (bool_decide (y ∈ ms)) eqn:E1; cbn [orb].
    + apply bool_decide_eq_true in E1. apply bool_decide_eq_true, elem_of_app. by left.
    + apply bool_decide_eq_false in E1. apply bool_decide_ext. rewrite elem_of_app. tauto.
  - intros y [Hy|Hy]%elem_of_app; [by apply Hu|]. specialize (Hu' y Hy). rewrite Hm in Hu'. by apply orb_false_iff in Hu' as [? _].
  - apply list.NoDup_app. split; [done|]. split; [|done]. intros y Hy Hy'. specialize (Hu' y Hy'). rewrite Hm in Hu'.
    apply orb_false_iff in Hu' as [_ Hu']. by apply bool_decide_eq_false in Hu'.
Qed.

(** ** The measure *)

Definition undone (F : list (list Z)) (cs : list bool) : nat := length (filter (fun ix => all_marked b cs ix = false) F).

Lemma undone_le F cs cs' : (forall y, mk b cs y = true -> mk b cs' y = true) -> (undone F cs' <= undone F cs)%nat.
Proof using Type.
  intros Hm. unfold undone. induction F as [|ix F IH]; [done|]. rewrite !filter_cons.
  pose proof (all_marked_mono b cs cs' ix Hm).
  destruct (decide (all_marked b cs' ix = false)), (decide (all_marked b cs ix = false)); cbn [length]; try lia.
  destruct (all_marked b cs ix), (all_marked b cs' ix); intuition congruence.
Qed.

Lemma undone_lt F cs cs' ix :
  (forall y, mk b cs y = true -> mk b cs' y = true) -> ix ∈ F -> all_marked b cs ix = false -> all_marked b cs' ix = true ->
  (undone F cs' < undone F cs)%nat.
Proof using Type.
  intros Hm Hin H0 H1. induction F as [|ix' F IH]; [by apply not_elem_of_nil in Hin|]. pose proof (undone_le F cs cs' Hm) as Hle.
  unfold undone in *. rewrite !filter_cons. pose proof (all_marked_mono b cs cs' ix' Hm) as Hmono. apply elem_of_cons in Hin as [<-|Hin].
  - rewrite H0, H1. cbn [decide]. destruct (decide (true = false)), (decide (false = false)); try done. cbn [length]. lia.
  - specialize (IH Hin). destruct (decide (all_marked b cs' ix' = false)), (decide (all_marked b cs ix' = false)); cbn [length]; try lia.
    destruct (all_marked b cs ix'), (all_marked b cs' ix'); intuition congruence.
Qed.

(** ** One round *)

(** What [RcvRebuild] does with the packet it has rebuilt. *)
Definition hang_rebuilt (fuel : nat) (seqno : Z) (p : SrtPacket) (tp : Type_) : RM unit :=
  match tp with
  | SINGLE => mret ()
  | VERT =>
    ix ← RcvGetRowGroupIndex c seqno;
    match ix with
    | inl _ => mret ()
    | inr rowx =>
      rowg ← row_at rowx;
      if collected (grp rowg) >? n - 1 then mret ()
      else
        let g' := inc_collected (ClipRebuiltPacket c (grp rowg) p) in
        set_row rowx (set_grp g' rowg);;
        if fec rowg && (collected g' =? n - 1)
        then lost ← RcvGetLossSeqHoriz c g'; RcvRebuild c fuel g' lost HORIZ
        else mret ()
    end
  | HORIZ =>
    ix ← RcvGetColumnGroupIndex c seqno;
    match ix with
    | inl _ => mret ()
    | inr colx =>
      colg ← col_at colx;
      if collected (grp colg) >? R - 1 then mret ()
      else
        let g' := inc_collected (ClipRebuiltPacket c (grp colg) p) in
        set_col colx (set_grp g' colg);;
        if fec colg && (collected g' =? R - 1)
        then lost ← RcvGetLossSeqVert c g'; RcvRebuild c fuel g' lost VERT
        else mret ()
    end
  end.

(** What [loss_seq] finds. *)
Definition lost_of (cs : list bool) (ix : list Z) (x : Z) : Prop :=
  x = -1 /\ all_marked b cs ix = true \/ exists m, x = seq_of m /\ m ∈ ix /\ mk b cs m = false.

Lemma wp_rebuild fuel g m tp r Q :
  cell_base r = seq_of b -> b <= m < b + limit -> clip_of g = contrib ps (P m) ->
  (forall p cs, reproduces m (insert_rebuilt p) ->
     (forall g0, length (payload_clip g0) = ps -> clip_of (ClipRebuiltPacket c g0 p) = cxor (clip_of g0) (contrib ps (P m))) ->
     (forall y, mk b cs y = mk b (cells r) y || (y =? m)) ->
     wp (hang_rebuilt fuel (seq_of m) p tp) Q (set_cells (cell_base r) cs (set_rebuilt (rebuilt r ++ [p]) r))) ->
  wp (RcvRebuild c (S fuel) g (seq_of m) tp) Q r.
Proof using Hrc HP.
  destruct (cfg c Hrc) as (Hn & HR & Hb & _). destruct (limit_range c Hrc) as (Hlim & _). intros Ecb Hm Hk HQ.
  destruct (rebuilt_spec c P Hrc HP (order_required r) g m Hk) as (H1 & H2 & H3 & H4). cbn [RcvRebuild].
  pose proof (seq_of_valid m) as Hv. destruct (Z.eqb_spec (seq_of m) (-1)) as [E|_]; [seq_facts; lia|].
  rewrite Z.gtb_ltb. destruct (Z.ltb_spec (payloadSize c) (htons (length_clip g))); [lia|]. wstep. wstep. cbv zeta.
  destruct (Z.leb_spec (Z.of_nat (length (payload_clip g))) SRT_LIVE_MAX_PLSIZE); [|lia]. wstep. wstep. wstep.
  eapply wp_mark; [exact Ecb|nia|]. intros cs Hcs. by apply HQ.
Qed.

Lemma ginv_length cs ix e g : ginv c P b cs ix e g -> length (payload_clip (grp g)) = ps.
Proof using Type.
  intros (l & _ & _ & _ & Hk & _). change (payload_clip (grp g)) with (cl_data (clip_of (grp g))). rewrite Hk.
  destruct (fec g); [|apply sum_length]. cbn. rewrite xor_list_length; rewrite ?sum_length; done.
Qed.

(** A group with all its packets. *)
Lemma ginv_full cs ix e g : ginv c P b cs ix e g -> Z.of_nat (length ix) <= collected (grp g) -> all_marked b cs ix = true.
Proof using Type.
  intros (l & Hnd & Hl & Hq & _) Hc. apply all_marked_spec. intros y Hy.
  assert (l ⊆+ ix) as Hsub by (apply NoDup_submseteq; [done|]; intros z Hz; by apply Hl).
  assert (l ≡ₚ ix) as Hp by (apply submseteq_length_Permutation; [done|lia]). rewrite <- Hp in Hy. by apply Hl.
Qed.

Lemma set_grp_same x g : grp (set_grp g x) = g /\ fec (set_grp g x) = fec x.
Proof using Type. done. Qed.

Lemma marks_app cs cs' y m : (forall y, mk b cs' y = mk b cs y || (y =? m)) -> mk b cs y = true -> mk b cs' y = true.
Proof using Type. intros Hm Hy. by rewrite Hm, Hy. Qed.

Context (F : list (list Z)) (Hr Hv : list Z).

(** ** Looking for the packet that lacks *)

Lemma lost_of_same cs cs' ix x : (forall y, mk b cs' y = mk b cs y) -> lost_of cs ix x -> lost_of cs' ix x.
Proof using Type.
  intros Hm [[-> Ha]|(m & -> & Hin & Hu)]; [left|right; exists m; by rewrite Hm]. split; [done|].
  eapply all_marked_mono; [|exact Ha]. intros y. by rewrite Hm.
Qed.

Lemma rinv_same er ec exr exc r cs :
  (forall y, mk b cs y = mk b (cells r) y) -> rinv b er ec exr exc F Hr Hv r -> rinv b er ec exr exc F Hr Hv (set_cells (cell_base r) cs r).
Proof using Type.
  intros Hm (Ecb & (Hq & Hl) & Hcols & Hlt & Hp). split; [done|]. split; [split; [|done]; by eapply qinv_same|]. split; [|split].
  - destruct Hcols as [?|(HR2 & Hq2 & Hs)]; [by left|right]. split; [done|]. split; [by eapply qinv_same|done].
  - intros y. cbn [cells set_cells]. rewrite Hm. apply Hlt.
  - intros y. cbn [cells set_cells]. rewrite Hm. apply Hp.
Qed.

Lemma wp_lost_row er ec exr exc r j g Q :
  rinv b er ec exr exc F Hr Hv r -> rowq r !! j = Some g -> fec g = true ->
  (forall cs x, (forall y, mk b cs y = mk b (cells r) y) -> rinv b er ec exr exc F Hr Hv (set_cells (cell_base r) cs r) ->
     lost_of cs (gidx (rowz b j) 1 n) x -> Q x (set_cells (cell_base r) cs r)) ->
  wp (RcvGetLossSeqHoriz c (grp g)) Q r.
Proof using Hrc.
  destruct (cfg c Hrc) as (Hn & HR & Hb & _). destruct (limit_range c Hrc) as (Hlim & _). intros Hinv Hg Hf HQ.
  assert (H0 := Hinv). destruct H0 as (Ecb & (([H1 _] & _) & Hl) & _). destruct (H1 _ _ Hg) as (Hbase & _ & Hfl). specialize (Hfl Hf).
  apply lookup_lt_Some in Hg. assert (rowz b j < b + limit) by (apply Hfl, elem_of_gidx; exists 0; lia).
  assert (b <= rowz b j) by (unfold FecGroups.rowz; nia). unfold RcvGetLossSeqHoriz.
  eapply wp_loss_seq; [done|exact Ecb|exact Hbase|done|lia|lia|done|lia|]. intros cs x Hcs Hx.
  apply HQ; [done|by apply rinv_same|]. by eapply lost_of_same.
Qed.

Lemma wp_lost_col er ec exr exc r j g Q :
  2 <= R -> rinv b er ec exr exc F Hr Hv r -> colq r !! j = Some g -> fec g = true ->
  (forall cs x, (forall y, mk b cs y = mk b (cells r) y) -> rinv b er ec exr exc F Hr Hv (set_cells (cell_base r) cs r) ->
     lost_of cs (gidx (colz b j) n R) x -> Q x (set_cells (cell_base r) cs r)) ->
  wp (RcvGetLossSeqVert c (grp g)) Q r.
Proof using Hrc.
  destruct (cfg c Hrc) as (Hn & HR & Hb & _). destruct (limit_range c Hrc) as (Hlim & _). intros HR2 Hinv Hg Hf HQ.
  assert (H0 := Hinv). destruct H0 as (Ecb & _ & [?|(_ & ([H1 _] & _) & _)] & _); [lia|].
  destruct (H1 _ _ Hg) as (Hbase & _ & Hfl). specialize (Hfl Hf).
  assert (colz b j ∈ gidx (colz b j) n R) as Hin by (apply elem_of_gidx; exists 0; lia). specialize (Hfl _ Hin) as Hz.
  apply col_ge in Hin; [|done]. unfold RcvGetLossSeqVert, sizeCol, sizeRow.
  eapply wp_loss_seq; [done|exact Ecb|exact Hbase|done|lia|lia|done|lia|]. intros cs x Hcs Hx.
  apply HQ; [done|by apply rinv_same|]. by eapply lost_of_same.
Qed.

Lemma rinv_settle_row er ec exc r j g :
  rowq r !! j = Some g ->
  (fec g = true -> collected (grp g) = n - 1 -> all_marked b (cells r) (gidx (rowz b j) 1 n) = true) ->
  rinv b er ec (Some j) exc F Hr Hv r -> rinv b er ec None exc F Hr Hv r.
Proof using Type. intros Hg Hs (Ecb & (Hq & Hl) & Hrest). split; [done|]. split; [|done]. split; [by eapply qinv_settle|done]. Qed.

Lemma rinv_settle_col er ec exr r j g :
  colq r !! j = Some g ->
  (fec g = true -> collected (grp g) = R - 1 -> all_marked b (cells r) (gidx (colz b j) n R) = true) ->
  rinv b er ec exr (Some j) F Hr Hv r -> rinv b er ec exr None F Hr Hv r.
Proof using Type.
  intros Hg Hs (Ecb & Hrows & Hcols & Hrest). split; [done|]. split; [done|]. split; [|done].
  destruct Hcols as [?|(HR2 & Hq & Hl)]; [by left|right]. split; [done|]. split; [by eapply qinv_settle|done].
Qed.

(** ** Rounds *)

Definition row_rounds (fuel : nat) : Prop := forall er ec r j g lost,
  2 <= R -> rinv b er ec (Some j) None F Hr Hv r -> rowq r !! j = Some g -> fec g = true -> collected (grp g) = n - 1 ->
  lost_of (cells r) (gidx (rowz b j) 1 n) lost -> (undone F (cells r) < fuel)%nat ->
  wp (RcvRebuild c fuel (grp g) lost HORIZ) (fun _ r' => rinv b er ec None None F Hr Hv r' /\ grew r r') r.

Definition col_rounds (fuel : nat) : Prop := forall er ec r j g lost,
  2 <= R -> rinv b er ec None (Some j) F Hr Hv r -> colq r !! j = Some g -> fec g = true -> collected (grp g) = R - 1 ->
  lost_of (cells r) (gidx (colz b j) n R) lost -> (undone F (cells r) < fuel)%nat ->
  wp (RcvRebuild c fuel (grp g) lost VERT) (fun _ r' => rinv b er ec None None F Hr Hv r' /\ grew r r') r.

(** The rebuilt packet goes into its column. *)
Lemma wp_into_column fuel er ec m p r :
  col_rounds fuel -> 2 <= R -> rinv b er (m :: ec) None None F Hr Hv r -> m ∉ ec -> b <= m < b + limit ->
  (forall g0, length (payload_clip g0) = ps -> clip_of (ClipRebuiltPacket c g0 p) = cxor (clip_of g0) (contrib ps (P m))) ->
  (undone F (cells r) < fuel)%nat ->
  wp (hang_rebuilt fuel (seq_of m) p HORIZ) (fun _ r' => rinv b er ec None None F Hr Hv r' /\ grew r r') r.
Proof using Hrc.
  destruct (cfg c Hrc) as (Hn & HR & _). intros IH HR2 (Ecb & Hrows & Hcols & Hlt & Hpend) Hme Hm Hp Hfuel. cbn [hang_rebuilt].
  assert (forall y, y ∈ er ++ ec -> mk b (cells r) y = true) as Hpend' by (intros y Hy; apply Hpend; revert Hy; rewrite !elem_of_app, elem_of_cons; tauto).
  wstep. eapply wp_col_index; [done|done|exact Hcols|done| |].
  - intros Hpast. wstep. split; [|by apply grew_same]. split; [done|]. split; [done|]. split; [|done].
    destruct Hcols as [?|(_ & Hq & Hs)]; [lia|]. right. split; [done|]. split; [|done]. eapply qinv_drop; [|exact Hq].
    intros j [Hj _]%col_mem; [lia|done].
  - intros Hoff Hix0 q Hq Hix _. wstep.
    assert (m ∈ gidx (colz b (Z.to_nat (col_idx c b m))) n R) as Hin by (apply col_mem; [done|]; split; lia).
    destruct (lookup_lt_is_Some_2 q (Z.to_nat (col_idx c b m))) as [g Hg]; [lia|]. eapply wp_col_at; [done|exact Hg|]. cbv beta.
    destruct Hq as [?|(_ & Hq & Hs)]; [lia|]. assert (Hq' := Hq). destruct Hq' as ([H1 _] & _). destruct (H1 _ _ Hg) as (Hbase & Hgi & Hfl).
    rewrite Z.gtb_ltb. destruct (Z.ltb_spec (R - 1) (collected (grp g))) as [Hfull|Hnot].
    + wstep. split; [|by apply grew_same]. split; [done|]. split; [done|]. split; [|done]. right. split; [done|]. split; [|done].
      eapply qinv_drop; [|exact Hq]. intros j Hj. rewrite (col_uniq c Hrc _ _ _ _ Hin Hj). split; [by eapply lookup_lt_Some|].
      eapply ginv_full; [exact Hgi|]. rewrite gidx_length. lia.
    + cbv zeta. wstep. apply wp_set_col; [cbn [colq set_colq]; lia|]. cbv beta.
      set (g' := set_grp (inc_collected (ClipRebuiltPacket c (grp g) p)) g).
      assert (qinv c P b (colz b) n R (cells r) ec (Some (Z.to_nat (col_idx c b m))) F Hv (<[Z.to_nat (col_idx c b m):=g']> q)) as Hq2.
      { eapply qinv_clip; try exact Hq; try done; [intros y j j'; by apply col_uniq|apply Hpend; rewrite elem_of_app, elem_of_cons; tauto|].
        unfold g'. cbn [grp set_grp]. rewrite clip_of_inc. apply Hp. by eapply ginv_length. }
      set (r2 := set_colq _ _). assert (rinv b er ec None (Some (Z.to_nat (col_idx c b m))) F Hr Hv r2) as Hr2.
      { split; [done|]. split; [done|]. split; [|done]. right. split; [done|]. split; [exact Hq2|]. cbn. by rewrite length_insert. }
      assert (colq r2 !! Z.to_nat (col_idx c b m) = Some g') as Hg2.
      { apply list_lookup_insert_eq. by eapply lookup_lt_Some. }
      destruct (fec g && _) eqn:Eif.
      * apply andb_true_iff in Eif as [Ef Eq]. apply Z.eqb_eq in Eq. wstep.
        change (inc_collected (ClipRebuiltPacket c (grp g) p)) with (grp g'). eapply wp_lost_col; [done|exact Hr2|exact Hg2|done|].
        intros cs x Hcs Hr3 Hx. eapply wp_mono; [eapply IH; [done|exact Hr3|exact Hg2|done|exact Eq|exact Hx|]|].
        -- eapply Nat.le_lt_trans; [apply undone_le|exact Hfuel]. intros y. cbn [cells set_cells]. by rewrite Hcs.
        -- cbv beta. intros _ r' [Hi Hgr]. split; [done|]. eapply grew_trans; [|exact Hgr]. by apply grew_same.
      * wstep. split; [|by apply grew_same]. eapply rinv_settle_col; [exact Hg2| |exact Hr2]. intros Ef Eq.
        change (fec g') with (fec g) in Ef. rewrite Ef in Eif. cbn [andb] in Eif. apply Z.eqb_neq in Eif. done.
Qed.

(** The rebuilt packet goes into its row. *)
Lemma wp_into_row fuel er ec m p r :
  row_rounds fuel -> 2 <= R -> rinv b (m :: er) ec None None F Hr Hv r -> m ∉ er -> b <= m < b + limit ->
  (forall g0, length (payload_clip g0) = ps -> clip_of (ClipRebuiltPacket c g0 p) = cxor (clip_of g0) (contrib ps (P m))) ->
  (undone F (cells r) < fuel)%nat ->
  wp (hang_rebuilt fuel (seq_of m) p VERT) (fun _ r' => rinv b er ec None None F Hr Hv r' /\ grew r r') r.
Proof using Hrc.
  destruct (cfg c Hrc) as (Hn & HR & _). intros IH HR2 (Ecb & Hrows & Hcols & Hlt & Hpend) Hme Hm Hp Hfuel. cbn [hang_rebuilt].
  assert (forall y, y ∈ er ++ ec -> mk b (cells r) y = true) as Hpend' by (intros y Hy; apply Hpend; revert Hy; rewrite !elem_of_app, elem_of_cons; tauto).
  assert (0 <= (m - b) / n) as Hix0 by (apply Z.div_pos; lia).
  assert (m ∈ gidx (rowz b (Z.to_nat ((m - b) / n))) 1 n) as Hin by (apply row_mem; [done|]; split; lia).
  wstep. eapply wp_row_index; [done|exact Hrows|done|]. intros q [Hq Hl] Hix. wstep.
  destruct (lookup_lt_is_Some_2 q (Z.to_nat ((m - b) / n))) as [g Hg]; [lia|]. eapply wp_row_at; [done|exact Hg|]. cbv beta.
  assert (Hq' := Hq). destruct Hq' as ([H1 _] & _). destruct (H1 _ _ Hg) as (Hbase & Hgi & Hfl).
  rewrite Z.gtb_ltb. destruct (Z.ltb_spec (n - 1) (collected (grp g))) as [Hfull|Hnot].
  - wstep. split; [|by apply grew_same]. split; [done|]. split; [split; [|done]|done].
    eapply qinv_drop; [|exact Hq]. intros j Hj. rewrite (row_uniq c Hrc _ _ _ _ Hin Hj). split; [by eapply lookup_lt_Some|].
    eapply ginv_full; [exact Hgi|]. rewrite gidx_length. lia.
  - cbv zeta. wstep. apply wp_set_row; [cbn [rowq set_rowq]; lia|]. cbv beta.
    set (g' := set_grp (inc_collected (ClipRebuiltPacket c (grp g) p)) g).
    assert (qinv c P b (rowz b) 1 n (cells r) er (Some (Z.to_nat ((m - b) / n))) F Hr (<[Z.to_nat ((m - b) / n):=g']> q)) as Hq2.
    { eapply qinv_clip; try exact Hq; try done; [intros y j j'; by apply row_uniq|apply Hpend; rewrite elem_of_app, elem_of_cons; tauto|].
      unfold g'. cbn [grp set_grp]. rewrite clip_of_inc. apply Hp. by eapply ginv_length. }
    set (r2 := set_rowq _ _). assert (rinv b er ec (Some (Z.to_nat ((m - b) / n))) None F Hr Hv r2) as Hr2.
    { split; [done|]. split; [|done]. split; [exact Hq2|]. cbn. by rewrite length_insert. }
    assert (rowq r2 !! Z.to_nat ((m - b) / n) = Some g') as Hg2.
    { apply list_lookup_insert_eq. by eapply lookup_lt_Some. }
    destruct (fec g && _) eqn:Eif.
    * apply andb_true_iff in Eif as [Ef Eq]. apply Z.eqb_eq in Eq. wstep.
      change (inc_collected (ClipRebuiltPacket c (grp g) p)) with (grp g'). eapply wp_lost_row; [exact Hr2|exact Hg2|done|].
      intros cs x Hcs Hr3 Hx. eapply wp_mono; [eapply IH; [done|exact Hr3|exact Hg2|done|exact Eq|exact Hx|]|].
      -- eapply Nat.le_lt_trans; [apply undone_le|exact Hfuel]. intros y. cbn [cells set_cells]. by rewrite Hcs.
      -- cbv beta. intros _ r' [Hi Hgr]. split; [done|]. eapply grew_trans; [|exact Hgr]. by apply grew_same.
    * wstep. split; [|by apply grew_same]. eapply rinv_settle_row; [exact Hg2| |exact Hr2]. intros Ef Eq.
      change (fec g') with (fec g) in Ef. rewrite Ef in Eif. cbn [andb] in Eif. apply Z.eqb_neq in Eif. done.
Qed.


Lemma not_all_marked cs ix m : m ∈ ix -> mk b cs m = false -> all_marked b cs ix = false.
Proof using Type.
  intros Hin Hu. destruct (all_marked b cs ix) eqn:E; [|done]. by rewrite (proj1 (all_marked_spec _ _ _) E m Hin) in Hu.
Qed.

Lemma fresh_pending (e1 e2 : list Z) cs m : (forall y, y ∈ e1 ++ e2 -> mk b cs y = true) -> mk b cs m = false -> m ∉ e1 /\ m ∉ e2.
Proof using Type. intros Hp Hu. split; intros Hin; rewrite Hp in Hu; try done; apply elem_of_app; tauto. Qed.

(** The group that gives packet [m]. *)
Lemma row_gives er ec exc r j g m :
  rinv b er ec (Some j) exc F Hr Hv r -> rowq r !! j = Some g -> fec g = true -> collected (grp g) = n - 1 ->
  m ∈ gidx (rowz b j) 1 n -> mk b (cells r) m = false ->
  clip_of (grp g) = contrib ps (P m) /\ b <= m < b + limit /\ gidx (rowz b j) 1 n ∈ F.
Proof using Hrc.
  destruct (cfg c Hrc) as (Hn & HR & _). intros (_ & (([H1 _] & _ & HF & _) & _) & _) Hg Hf Hq Hin Hu.
  destruct (H1 _ _ Hg) as (_ & Hgi & Hfl). split; [|split].
  - eapply ginv_missing; [exact Hgi|done| |exact Hin|done]. rewrite gidx_length. lia.
  - split; [by eapply row_ge|by apply Hfl].
  - by eapply HF.
Qed.

Lemma col_gives er ec exr r j g m :
  2 <= R -> rinv b er ec exr (Some j) F Hr Hv r -> colq r !! j = Some g -> fec g = true -> collected (grp g) = R - 1 ->
  m ∈ gidx (colz b j) n R -> mk b (cells r) m = false ->
  clip_of (grp g) = contrib ps (P m) /\ b <= m < b + limit /\ gidx (colz b j) n R ∈ F.
Proof using Hrc.
  destruct (cfg c Hrc) as (Hn & HR & _). intros HR2 (_ & _ & [?|(_ & ([H1 _] & _ & HF & _) & _)] & _) Hg Hf Hq Hin Hu; [lia|].
  destruct (H1 _ _ Hg) as (_ & Hgi & Hfl). split; [|split].
  - eapply ginv_missing; [exact Hgi|done| |exact Hin|done]. rewrite gidx_length. lia.
  - split; [by eapply col_ge|by apply Hfl].
  - by eapply HF.
Qed.

(** A row completed by the packet [m], which is then to go into its column. *)
Lemma rinv_row_done er ec r j g m cs o :
  2 <= R -> rinv b er ec (Some j) None F Hr Hv r -> rowq r !! j = Some g -> fec g = true -> collected (grp g) = n - 1 ->
  m ∈ gidx (rowz b j) 1 n -> mk b (cells r) m = false -> m < b + limit -> (forall y, mk b cs y = mk b (cells r) y || (y =? m)) ->
  rinv b er (m :: ec) None None F Hr Hv (set_cells (cell_base r) cs (set_rebuilt o r))
  /\ all_marked b cs (gidx (rowz b j) 1 n) = true.
Proof using Hrc.
  destruct (cfg c Hrc) as (Hn & HR & _). intros HR2 (Ecb & (Hq & Hl) & Hcols & Hlt & Hpend) Hg Hf Hc Hin Hu Hm Hcs.
  destruct (qinv_completed c P b (rowz b) 1 n F Hr ltac:(lia) (row_uniq c Hrc b) _ _ _ _ _ _ _ Hcs Hu Hin Hg Hf Hc Hq) as [Hall Hq'].
  split; [|done]. split; [done|]. split; [by split|]. split; [|split].
  - destruct Hcols as [?|(_ & Hq2 & Hs)]; [by left|right]. split; [done|]. split; [by eapply qinv_marks|done].
  - intros y. cbn [cells set_cells]. rewrite Hcs. intros [Hy|Hy%Z.eqb_eq]%orb_true_iff; [by apply Hlt|lia].
  - intros y. cbn [cells set_cells]. rewrite Hcs, elem_of_app, elem_of_cons. intros [Hy|[->|Hy]].
    + rewrite Hpend; [done|]. apply elem_of_app. by left.
    + by rewrite Z.eqb_refl, orb_true_r.
    + rewrite Hpend; [done|]. apply elem_of_app. by right.
Qed.

Lemma rinv_col_done er ec r j g m cs o :
  2 <= R -> rinv b er ec None (Some j) F Hr Hv r -> colq r !! j = Some g -> fec g = true -> collected (grp g) = R - 1 ->
  m ∈ gidx (colz b j) n R -> mk b (cells r) m = false -> m < b + limit -> (forall y, mk b cs y = mk b (cells r) y || (y =? m)) ->
  rinv b (m :: er) ec None None F Hr Hv (set_cells (cell_base r) cs (set_rebuilt o r))
  /\ all_marked b cs (gidx (colz b j) n R) = true.
Proof using Hrc.
  destruct (cfg c Hrc) as (Hn & HR & _).
  intros HR2 (Ecb & (Hq & Hl) & [?|(_ & Hq2 & Hs)] & Hlt & Hpend) Hg Hf Hc Hin Hu Hm Hcs; [lia|].
  destruct (qinv_completed c P b (colz b) n R F Hv ltac:(lia) (col_uniq c Hrc b) _ _ _ _ _ _ _ Hcs Hu Hin Hg Hf Hc Hq2) as [Hall Hq'].
  split; [|done]. split; [done|]. split; [split; [by eapply qinv_marks|done]|]. split; [right; by split|split].
  - intros y. cbn [cells set_cells]. rewrite Hcs. intros [Hy|Hy%Z.eqb_eq]%orb_true_iff; [by apply Hlt|lia].
  - intros y. cbn [cells set_cells]. rewrite Hcs, elem_of_app, elem_of_cons. intros [[->|Hy]|Hy].
    + by rewrite Z.eqb_refl, orb_true_r.
    + rewrite Hpend; [done|]. apply elem_of_app. by left.
    + rewrite Hpend; [done|]. apply elem_of_app. by right.
Qed.

Lemma rounds fuel : row_rounds fuel /\ col_rounds fuel.
Proof using Hrc HP.
  induction fuel as [|fuel [IHr IHc]]; [split; intros ? ? ? ? ? ? _ _ _ _ _ _ Hlt; lia|]. split.
  - intros er ec r j g lost HR2 Hinv Hg Hf Hc Hlost Hfuel. destruct Hlost as [[-> Ha]|(m & -> & Hin & Hu)].
    + cbn [RcvRebuild]. rewrite Z.eqb_refl. wstep. split; [|by apply grew_same]. by eapply rinv_settle_row.
    + destruct (row_gives _ _ _ _ _ _ _ Hinv Hg Hf Hc Hin Hu) as (Hk & Hm & HF).
      apply wp_rebuild; [by destruct Hinv|done|done|]. intros p cs Hrep Hclip Hcs.
      destruct (rinv_row_done _ _ _ _ _ _ cs (rebuilt r ++ [p]) HR2 Hinv Hg Hf Hc Hin Hu ltac:(lia) Hcs) as [Hinv' Hall].
      eapply wp_mono; [eapply wp_into_column; [exact IHc|done|exact Hinv'| |done|done|]|].
      * destruct Hinv as (_ & _ & _ & _ & Hp). by apply (fresh_pending er ec (cells r) m Hp Hu).
      * eapply Nat.lt_le_trans; [eapply (undone_lt F (cells r))|]; [exact (fun y => marks_app _ _ y m Hcs)|exact HF|by eapply not_all_marked|exact Hall|lia].
      * cbv beta. intros _ r' [Hi Hgr]. split; [done|]. eapply grew_trans; [|exact Hgr]. by eapply grew_one.
  - intros er ec r j g lost HR2 Hinv Hg Hf Hc Hlost Hfuel. destruct Hlost as [[-> Ha]|(m & -> & Hin & Hu)].
    + cbn [RcvRebuild]. rewrite Z.eqb_refl. wstep. split; [|by apply grew_same]. by eapply rinv_settle_col.
    + destruct (col_gives _ _ _ _ _ _ _ HR2 Hinv Hg Hf Hc Hin Hu) as (Hk & Hm & HF).
      apply wp_rebuild; [by destruct Hinv|done|done|]. intros p cs Hrep Hclip Hcs.
      destruct (rinv_col_done _ _ _ _ _ _ cs (rebuilt r ++ [p]) HR2 Hinv Hg Hf Hc Hin Hu ltac:(lia) Hcs) as [Hinv' Hall].
      eapply wp_mono; [eapply wp_into_row; [exact IHr|done|exact Hinv'| |done|done|]|].
      * destruct Hinv as (_ & _ & _ & _ & Hp). by apply (fresh_pending er ec (cells r) m Hp Hu).
      * eapply Nat.lt_le_trans; [eapply (undone_lt F (cells r))|]; [exact (fun y => marks_app _ _ y m Hcs)|exact HF|by eapply not_all_marked|exact Hall|lia].
      * cbv beta. intros _ r' [Hi Hgr]. split; [done|]. eapply grew_trans; [|exact Hgr]. by eapply grew_one.
Qed.

End Rebuild.
