(* ===== verification/FecHang.v ===== *)
(** * The receiver of the packet filter: hanging packets

    What a packet of the stream, or a control packet of the sender, does to the
    receiver: it goes into its row and its column, what these lack is rebuilt, and
    the oldest groups go. *)

From S2P Require Import Prelude SeqNo Packet Fec FecSpec FecSend FecRcv FecGroups FecRebuild.

Import FEC.

Section Hang.

Context (c : config) (P : Z -> CPacket.t) (Hrc : rcv_config_ok c) (HP : stream_ok c P).

Notation n := (m_number_cols c).
Notation R := (m_number_rows c).
Notation ps := (Z.to_nat (payloadSize c)).
Notation sum := (sum c P).
Notation limit := (limit c).
Notation rinv := (rinv c P).
Notation rowz := (rowz c).
Notation colz := (colz c).
Notation grew := (grew P).

(** ** Rebuilding after a change of a group *)

Definition groups (b : Z) (r : Receive) : list (list Z) := fec_groups (rowz b) 1 n (rowq r) ++ fec_groups (colz b) n R (colq r).

Lemma rinv_refresh b er ec exr exc F Hr Hv r : rinv b er ec exr exc F Hr Hv r -> rinv b er ec exr exc (groups b r) Hr Hv r.
Proof using Type.
  intros (Ecb & ((H1 & H2 & _ & H4) & Hl) & Hcols & Hrest). split; [done|]. split; [split; [|done]|split; [|done]].
  - split; [done|]. split; [done|]. split; [|done]. intros j g Hj Hf. apply elem_of_app. left. by eapply fec_groups_in.
  - destruct Hcols as [?|(HR2 & (G1 & G2 & _ & G4) & Hs)]; [by left|right]. split; [done|]. split; [|done]. split; [done|].
    split; [done|]. split; [|done]. intros j g Hj Hf. apply elem_of_app. right. by eapply fec_groups_in.
Qed.

Lemma enough_fuel b cs r : (undone b (groups b r) cs < rebuild_fuel r)%nat.
Proof using Type.
  unfold undone, rebuild_fuel. pose proof (length_filter (fun ix => all_marked b cs ix = false) (groups b r)) as H.
  unfold groups in *. rewrite length_app in H. pose proof (fec_groups_length (rowz b) 1 n (rowq r)).
  pose proof (fec_groups_length (colz b) n R (colq r)). lia.
Qed.

Definition rinv0 (b : Z) (er ec Hr Hv : list Z) (r : Receive) : Prop := exists F, rinv b er ec None None F Hr Hv r.

Lemma wp_single fuel b r j g lost F Hr Hv :
  R = 1 -> rinv b [] [] (Some j) None F Hr Hv r -> rowq r !! j = Some g -> fec g = true -> collected (grp g) = n - 1 ->
  lost_of b (cells r) (gidx (rowz b j) 1 n) lost ->
  wp (RcvRebuild c (S fuel) (grp g) lost SINGLE)
    (fun _ r' => rinv b [] [] None None F Hr Hv r' /\ grew b r r' /\ length (rowq r') = length (rowq r)) r.
Proof using Hrc HP.
  destruct (cfg c Hrc) as (Hn & HR & _). intros HR1 Hinv Hg Hf Hc [[-> Ha]|(m & -> & Hin & Hu)].
  - cbn [RcvRebuild]. rewrite Z.eqb_refl. wstep. split; [by eapply rinv_settle_row|]. split; [by apply grew_same|done].
  - destruct (row_gives c P Hrc b F Hr Hv _ _ _ _ _ _ _ Hinv Hg Hf Hc Hin Hu) as (Hk & Hm & _).
    eapply wp_rebuild; [done|done|by destruct Hinv|done|done|]. intros p cs Hrep _ Hcs. cbn [hang_rebuilt]. wstep.
    split; [|split; [by eapply grew_one|done]]. destruct Hinv as (Ecb & (Hq & Hl) & Hcols & Hlt & Hpend).
    destruct (qinv_completed c P b (rowz b) 1 n F Hr ltac:(lia) (row_uniq c Hrc b) _ _ _ _ _ _ _ Hcs Hu Hin Hg Hf Hc Hq) as [Hall Hq'].
    split; [done|]. split; [by split|]. split; [left; destruct Hcols as [?|?]; [done|lia]|]. split.
    + intros y. cbn [cells set_cells]. rewrite Hcs. intros [Hy|Hy%Z.eqb_eq]%orb_true_iff; [by apply Hlt|lia].
    + intros y Hy. by apply not_elem_of_nil in Hy.
Qed.

(** The row has changed: what it lacks is rebuilt, if it is one packet. *)
Lemma wp_row_finish b er ec r j g F Hr Hv :
  (R = 1 -> er = [] /\ ec = []) -> rinv b er ec (Some j) None F Hr Hv r -> rowq r !! j = Some g ->
  wp (if fec g && (collected (grp g) =? n - 1) then
        lost ← RcvGetLossSeqHoriz c (grp g);
        r ← rget;
        RcvRebuild c (rebuild_fuel r) (grp g) lost (if R =? 1 then SINGLE else HORIZ)
      else mret ())
    (fun _ r' => rinv0 b er ec Hr Hv r' /\ grew b r r' /\ (R = 1 -> length (rowq r') = length (rowq r))) r.
Proof using Hrc HP.
  destruct (cfg c Hrc) as (Hn & HR & _). intros He Hinv Hg. destruct (fec g && _) eqn:Eif.
  - apply andb_true_iff in Eif as [Hf Hc%Z.eqb_eq]. wstep. eapply wp_lost_row; [done|exact (rinv_refresh _ _ _ _ _ _ _ _ _ Hinv)|exact Hg|done|].
    intros cs x Hcs Hinv' Hx. wstep. wstep. set (r1 := set_cells (cell_base r) cs r) in *.
    assert (grew b r r1) as Hg1 by (by apply grew_same). destruct (Z.eqb_spec R 1) as [HR1|HR1].
    + destruct (He HR1) as [-> ->]. eapply wp_mono; [eapply wp_single; done|]. cbv beta. intros _ r' (G1 & G2 & G3).
      split; [by eexists|]. split; [by eapply grew_trans|done].
    + eapply wp_mono; [eapply (proj1 (rounds c P Hrc HP b _ _ _ _)); [lia|exact Hinv'|done|done|done|done|exact (enough_fuel b _ r)]|].
      cbv beta. intros _ r' (G1 & G2). split; [by eexists|]. split; [by eapply grew_trans|lia].
  - wstep. split; [|split; [by apply grew_same|done]]. exists F. eapply rinv_settle_row; [exact Hg| |exact Hinv]. intros Hf Hc.
    rewrite Hf, Hc, Z.eqb_refl in Eif. done.
Qed.

Lemma wp_col_finish b er ec r j g F Hr Hv :
  2 <= R -> rinv b er ec None (Some j) F Hr Hv r -> colq r !! j = Some g ->
  wp (if fec g && (collected (grp g) =? R - 1) then
        lost ← RcvGetLossSeqVert c (grp g);
        r ← rget;
        RcvRebuild c (rebuild_fuel r) (grp g) lost VERT
      else mret ())
    (fun _ r' => rinv0 b er ec Hr Hv r' /\ grew b r r') r.
Proof using Hrc HP.
  intros HR2 Hinv Hg. destruct (fec g && _) eqn:Eif.
  - apply andb_true_iff in Eif as [Hf Hc%Z.eqb_eq]. wstep. eapply wp_lost_col; [done|done|exact (rinv_refresh _ _ _ _ _ _ _ _ _ Hinv)|exact Hg|done|].
    intros cs x Hcs Hinv' Hx. wstep. wstep. set (r1 := set_cells (cell_base r) cs r) in *.
    assert (grew b r r1) as Hg1 by (by apply grew_same).
    eapply wp_mono; [eapply (proj2 (rounds c P Hrc HP b _ _ _ _)); [lia|exact Hinv'|done|done|done|done|exact (enough_fuel b _ r)]|].
    cbv beta. intros _ r' (G1 & G2). split; [by eexists|by eapply grew_trans].
  - wstep. split; [|by apply grew_same]. exists F. eapply rinv_settle_col; [exact Hg| |exact Hinv]. intros Hf Hc.
    rewrite Hf, Hc, Z.eqb_refl in Eif. done.
Qed.

(** ** The oldest rows *)

(** The same groups, some of them dismissed. *)
Definition reflagged (q q' : list RcvGroup) : Prop :=
  length q' = length q /\ forall b zf st N cs e ex F H, qinv c P b zf st N cs e ex F H q -> qinv c P b zf st N cs e ex F H q'.

Lemma reflagged_refl q : reflagged q q.
Proof using Type. done. Qed.

Lemma reflagged_trans q1 q2 q3 : reflagged q1 q2 -> reflagged q2 q3 -> reflagged q1 q3.
Proof using Type. intros [E1 H1] [E2 H2]. split; [congruence|]. intros. by apply H2, H1. Qed.

Lemma reflagged_insert q j g d : q !! j = Some g -> reflagged q (<[j := mkRcvGroup (grp g) (fec g) d]> q).
Proof using Type. intros Hg. split; [apply length_insert|]. intros. by eapply qinv_flag. Qed.

Lemma set_rowq_same r : r = set_rowq (rowq r) r.
Proof using Type. by destruct r. Qed.

Lemma set_colq_same r : r = set_colq (colq r) r.
Proof using Type. by destruct r. Qed.

Lemma wp_collect_row i r :
  0 <= i < Z.of_nat (length (rowq r)) -> wp (CollectIrrecoverRow c i) (fun _ r' => exists q, r' = set_rowq q r /\ reflagged (rowq r) q) r.
Proof using Type.
  intros Hi. destruct (lookup_lt_is_Some_2 (rowq r) (Z.to_nat i)) as [g Hg]; [lia|].
  assert (exists q, r = set_rowq q r /\ reflagged (rowq r) q) as Hsame by (exists (rowq r); split; [apply set_rowq_same|done]).
  unfold CollectIrrecoverRow. wstep. eapply wp_row_at; [lia|exact Hg|]. destruct (dismissed g); [by wstep|]. wstep. wstep. cbv zeta.
  case_match; [by wstep|]. case_match; [by wstep|]. destruct (irrecover_loop _ _ _ _ _) as [[last val] out].
  wstep. apply wp_set_row; [done|]. wstep. eexists. split; [done|]. by apply reflagged_insert.
Qed.

Lemma wp_collect_rows (k : nat) i r :
  0 <= i -> i + Z.of_nat k <= Z.of_nat (length (rowq r)) ->
  wp (CollectIrrecoverRows c k i) (fun _ r' => exists q, r' = set_rowq q r /\ reflagged (rowq r) q) r.
Proof using Type.
  revert i r. induction k as [|k IH]; intros i r Hi Hk; cbn [CollectIrrecoverRows].
  - wstep. exists (rowq r). split; [apply set_rowq_same|done].
  - wstep. eapply wp_mono; [apply wp_collect_row; lia|]. cbv beta. intros o1 r1 (q & -> & Hq). wstep.
    eapply wp_mono; [apply IH; [lia|cbn [rowq set_rowq]; destruct Hq as [-> _]; lia]|]. cbv beta. intros o2 r2 (q2 & -> & Hq2). wstep.
    exists q2. split; [done|]. by eapply reflagged_trans.
Qed.

Lemma rinv_reflag_rows b er ec exr exc F Hr Hv r q :
  reflagged (rowq r) q -> rinv b er ec exr exc F Hr Hv r -> rinv b er ec exr exc F Hr Hv (set_rowq q r).
Proof using Type. intros [E H] (H1 & (H2 & H3) & H4). split; [done|]. split; [|done]. split; [by apply H|]. cbn. by rewrite E. Qed.

Lemma wp_rows_past seqno r :
  2 <= Z.of_nat (length (rowq r)) -> wp (rows_past c seqno) (fun p r' => r' = r /\ p <= Z.of_nat (length (rowq r)) - 3) r.
Proof using Type.
  intros Hl. unfold rows_past. wstep. wstep. cbv zeta. destruct (_ >? _); [wstep; split; [done|lia]|]. wstep.
  destruct (lookup_lt_is_Some_2 (rowq r) 1) as [g Hg]; [lia|]. eapply wp_row_at; [lia|exact Hg|]. wstep.
  split; [done|]. destruct (_ <=? _); lia.
Qed.

(** With columns the rows are only looked at. *)
Lemma wp_dismiss_rows_matrix b er ec F Hr Hv seqno r :
  2 <= R -> rinv b er ec None None F Hr Hv r ->
  wp (dismiss_rows c seqno) (fun _ r' => rinv b er ec None None F Hr Hv r' /\ cells r' = cells r /\ rebuilt r' = rebuilt r) r.
Proof using Type.
  intros HR2 Hinv. unfold dismiss_rows. wstep. wstep. cbv zeta. destruct (Z.eqb_spec R 1); [lia|].
  destruct (Z.gtb_spec (Z.of_nat (length (rowq r))) 1); cbn [andb orb negb]; [|by wstep].
  destruct (negb _); [by wstep|]. wstep. eapply wp_mono; [apply wp_rows_past; lia|]. cbv beta. intros p r' [-> Hp].
  destruct (Z.ltb_spec p 0); [by wstep|]. wstep. eapply wp_mono; [apply wp_collect_rows; lia|]. cbv beta. intros out r1 (q & -> & Hq).
  wstep. wstep. wstep. wstep. wstep. split; [by apply rinv_reflag_rows|done].
Qed.

(** The cells from [b'] on are still there. *)
Definition moved (b b' : Z) (r r' : Receive) : Prop :=
  b <= b' /\ rebuilt r' = rebuilt r /\ forall y, b' <= y -> mk b' (cells r') y = mk b (cells r) y.

Lemma moved_refl b r r' : cells r' = cells r -> rebuilt r' = rebuilt r -> moved b b r r'.
Proof using Type. intros E1 E2. split; [lia|]. split; [done|]. intros y _. by rewrite E1. Qed.

Lemma rowz_shift b (k j : nat) : rowz (rowz b k) j = rowz b (k + j)%nat.
Proof using Type. unfold FecGroups.rowz. lia. Qed.

(** Without columns the first rows go, all but two at most. *)
Lemma rinv_drop_rows b F Hr Hv r (k : nat) g :
  R = 1 -> rinv b [] [] None None F Hr Hv r -> rowq r !! k = Some g ->
  let r' := set_cells (base (grp g)) (drop (Z.to_nat (sizeRow c * Z.of_nat k)) (cells r)) (set_rowq (drop k (rowq r)) r) in
  rinv0 (rowz b k) [] [] Hr Hv r' /\ moved b (rowz b k) r r'.
Proof using Hrc.
  destruct (cfg c Hrc) as (Hn & HR & _). intros HR1 (Ecb & (Hq & Hl) & Hcols & Hlt & _) Hg. cbv zeta.
  assert (forall y, rowz b k <= y -> mk (rowz b k) (drop (Z.to_nat (sizeRow c * Z.of_nat k)) (cells r)) y = mk b (cells r) y) as Hmk.
  { intros y Hy. unfold sizeRow. assert (rowz b k = b + Z.of_nat (Z.to_nat (n * Z.of_nat k))) as E by (unfold FecGroups.rowz; lia).
    rewrite E in *. by apply mk_drop. }
  assert (b <= rowz b k) as Hbb by (unfold FecGroups.rowz; nia). split; [|by split].
  exists (groups (rowz b k) (set_rowq (drop k (rowq r)) r)). split; [|split; [|split; [|split]]].
  - cbn [cell_base set_cells]. destruct Hq as ([H1 _] & _). by destruct (H1 _ _ Hg) as [-> _].
  - cbn [rowq set_cells cells set_rowq]. split.
    + eapply (qinv_shift c P b); [intros j; apply rowz_shift|done|exact Hmk|intros j y; by apply row_ge| | |exact Hq].
      * intros j Hj. unfold FecGroups.rowz. nia.
      * intros j x Hj Hf. apply elem_of_app. left. by eapply fec_groups_in.
    + apply lookup_lt_Some in Hg. rewrite length_drop. lia.
  - left. destruct Hcols as [?|?]; [done|lia].
  - intros y Hy. cbn [cells set_cells] in Hy. pose proof (mk_ge _ _ _ Hy) as Hge. rewrite Hmk in Hy by done. specialize (Hlt y Hy). lia.
  - intros y Hy. by apply not_elem_of_nil in Hy.
Qed.

(** The rows left: with columns all of them, otherwise two at least if some go. [L]
    rows there were. *)
Definition trimmed (b b' L : Z) (r' : Receive) : Prop :=
  (2 <= R -> b' = b)
  /\ (R = 1 -> exists k : nat, b' = rowz b k /\ Z.of_nat (length (rowq r')) + Z.of_nat k = L /\ (k = 0%nat \/ 2 <= Z.of_nat (length (rowq r')))).

Lemma trimmed_none b r : trimmed b b (Z.of_nat (length (rowq r))) r.
Proof using Type. split; [done|]. intros _. exists 0%nat. unfold FecGroups.rowz. split; [lia|]. split; [lia|by left]. Qed.

Lemma wp_dismiss_rows b er ec Hr Hv seqno r :
  (R = 1 -> er = [] /\ ec = []) -> rinv0 b er ec Hr Hv r ->
  wp (dismiss_rows c seqno)
    (fun _ r' => exists b', rinv0 b' er ec Hr Hv r' /\ moved b b' r r' /\ trimmed b b' (Z.of_nat (length (rowq r))) r') r.
Proof using Hrc.
  destruct (cfg c Hrc) as (Hn & HR & _). intros He [F Hinv]. destruct (Z.eq_dec R 1) as [HR1|HR1].
  2: { eapply wp_mono; [eapply wp_dismiss_rows_matrix; [lia|exact Hinv]|]. cbv beta. intros _ r' (Hi & E1 & E2). exists b.
       split; [by exists F|]. split; [by apply moved_refl|]. split; [done|lia]. }
  destruct (He HR1) as [-> ->].
  assert (exists b', rinv0 b' [] [] Hr Hv r /\ moved b b' r r /\ trimmed b b' (Z.of_nat (length (rowq r))) r) as Hsame.
  { exists b. split; [by exists F|]. split; [by apply moved_refl|apply trimmed_none]. }
  unfold dismiss_rows. wstep. wstep. cbv zeta. rewrite HR1. cbn [Z.eqb Pos.eqb orb]. rewrite !andb_true_r.
  destruct (Z.gtb_spec (Z.of_nat (length (rowq r))) 1) as [Hmany|]; cbn [negb]; [|by wstep].
  wstep. eapply wp_mono; [apply wp_rows_past; lia|]. cbv beta. intros p r' [-> Hp].
  destruct (Z.ltb_spec p 0); [by wstep|]. wstep. eapply wp_mono; [apply wp_collect_rows; lia|]. cbv beta. intros out r1 (q & -> & Hq).
  assert (Hinv1 := rinv_reflag_rows _ _ _ _ _ _ _ _ _ _ Hq Hinv). destruct Hq as [El _]. wstep. wstep. wstep. cbn [rowq set_rowq].
  destruct (Z.gtb_spec (Z.of_nat (length q)) (1 + p)); [|lia]. cbn [andb].
  destruct (lookup_lt_is_Some_2 q (Z.to_nat (1 + p))) as [g Hg]; [lia|]. wstep.
  eapply (wp_lift _ g). { unfold aget. cbn [Z.leb Z.compare]. rewrite lookup_drop. change (Z.to_nat 0) with 0%nat. by rewrite Nat.add_0_r. }
  wstep. wstep. destruct (rinv_drop_rows b F Hr Hv _ (Z.to_nat (1 + p)) g HR1 Hinv1 Hg) as [Hi Hm].
  rewrite Z2Nat.id in Hi, Hm by lia. exists (rowz b (Z.to_nat (1 + p))). split; [exact Hi|]. split; [exact Hm|]. split; [lia|].
  intros _. exists (Z.to_nat (1 + p)). split; [done|]. cbn [rowq set_cells set_rowq]. rewrite length_drop. lia.
Qed.

(** ** Hanging a packet on its row *)

Lemma rinv_more b er ec exr exc F F' Hr Hv r :
  (forall ix, ix ∈ F -> ix ∈ F') -> rinv b er ec exr exc F Hr Hv r -> rinv b er ec exr exc F' Hr Hv r.
Proof using Type.
  intros HF (Ecb & ((H1 & H2 & H3 & H4) & Hl) & Hcols & Hrest). split; [done|]. split; [split; [|done]|split; [|done]].
  - split; [done|]. split; [done|]. split; [|done]. intros j g Hj Hf. apply HF. by eapply H3.
  - destruct Hcols as [?|(HR2 & (G1 & G2 & G3 & G4) & Hs)]; [by left|right]. split; [done|]. split; [|done]. split; [done|].
    split; [done|]. split; [|done]. intros j g Hj Hf. apply HF. by eapply G3.
Qed.

Definition hung (b : Z) (er ec Hr Hv : list Z) (r : Receive) (L : Z) (r' : Receive) : Prop :=
  exists b' r1, rinv0 b' er ec Hr Hv r' /\ grew b r r1 /\ moved b b' r1 r' /\ trimmed b b' L r'.

Lemma wp_horizontal b x p isfec er ec er' F Hr Hr' Hv r :
  CPacket.getSeqNo p = seq_of x -> b <= x < b + limit -> (R = 1 -> er' = [] /\ ec = []) -> (forall y, y ∈ er' -> y ∈ er) ->
  rinv b er ec None None F Hr Hv r ->
  (forall q g, qinv c P b (rowz b) 1 n (cells r) er None F Hr q -> q !! Z.to_nat ((x - b) / n) = Some g ->
     exists g', put_in c isfec p g = Some g'
       /\ qinv c P b (rowz b) 1 n (cells r) er' (Some (Z.to_nat ((x - b) / n))) F Hr' (<[Z.to_nat ((x - b) / n) := g']> q)) ->
  wp (HangHorizontal c p isfec)
    (fun s r' => fst s = HANG_SUCCESS /\ hung b er' ec Hr' Hv r (Z.max (Z.of_nat (length (rowq r))) ((x - b) / n + 1)) r') r.
Proof using Hrc HP.
  destruct (cfg c Hrc) as (Hn & HR & _). intros Hseq Hx He1 Hsub (Ecb & Hrows & Hcols & Hlt & Hpend) Hput.
  assert (0 <= (x - b) / n) as Hix0 by (apply Z.div_pos; lia). unfold HangHorizontal. cbv zeta. rewrite Hseq.
  wstep. eapply wp_row_index; [done|exact Hrows|done|]. intros q [Hq Hl] Hlen. wstep.
  destruct (lookup_lt_is_Some_2 q (Z.to_nat ((x - b) / n))) as [g Hg]; [lia|]. eapply wp_row_at; [done|exact Hg|]. cbv beta.
  destruct (Hput q g Hq Hg) as (g' & -> & Hq'). wstep. apply wp_set_row; [cbn [rowq set_rowq]; lia|]. wstep. cbv beta.
  set (r2 := set_rowq _ _). assert (rinv b er' ec (Some (Z.to_nat ((x - b) / n))) None F Hr' Hv r2) as Hinv2.
  { split; [done|]. split; [split; [exact Hq'|cbn; by rewrite length_insert]|]. split; [done|]. split; [done|].
    intros y Hy. apply Hpend. revert Hy. rewrite !elem_of_app. intros [Hy|Hy]; auto. }
  eapply wp_mono; [eapply wp_row_finish; [done|exact Hinv2|]|].
  { apply list_lookup_insert_eq. by eapply lookup_lt_Some. }
  cbv beta. intros _ r3 (Hi3 & Hg3 & Hl3). wstep. eapply wp_mono; [by apply (wp_dismiss_rows b er' ec Hr' Hv)|].
  cbv beta. intros loss r4 (b' & Hi4 & Hm4 & Ht4). wstep. split; [done|]. exists b', r3. split; [done|]. split; [|split; [done|]].
  - eapply grew_trans; [|exact Hg3]. by apply grew_same.
  - destruct Ht4 as [T1 T2]. split; [done|]. intros HR1. destruct (T2 HR1) as (k & E1 & E2 & E3). exists k. split; [done|].
    split; [|done]. rewrite E2, (Hl3 HR1). cbn [rowq set_rowq r2]. rewrite length_insert. lia.
Qed.

(** ** The oldest columns *)

Lemma rinv_reflag_cols b er ec exr exc F Hr Hv r q :
  reflagged (colq r) q -> rinv b er ec exr exc F Hr Hv r -> rinv b er ec exr exc F Hr Hv (set_colq q r).
Proof using Type.
  intros [E H] (H1 & H2 & Hcols & H4). split; [done|]. split; [done|]. split; [|done].
  destruct Hcols as [[HR1 Hnil]|(HR2 & Hq & Hs)].
  - left. split; [done|]. cbn. rewrite Hnil in E. by destruct q.
  - right. split; [done|]. split; [by apply H|]. cbn. by rewrite E.
Qed.

Lemma IsLost_total seqno r : exists v, IsLost seqno r = Some v.
Proof using Type.
  unfold IsLost. cbv zeta. set (o := CSeqNo.seqoff _ _). destruct (Z.ltb_spec o 0); [by eexists|].
  destruct (Z.geb_spec o (Z.of_nat (length (cells r)))); [by eexists|]. unfold aget. destruct (Z.leb_spec 0 o); [|lia].
  destruct (lookup_lt_is_Some_2 (cells r) (Z.to_nat o)) as [v Hv]; [lia|]. by exists v.
Qed.

Lemma column_losses_total (k : nat) base0 sof step r l : exists l', column_losses k base0 sof step r l = Some l'.
Proof using Type.
  revert sof l. induction k as [|k IH]; intros sof l; cbn [column_losses]; [by eexists|]. cbv zeta.
  destruct (IsLost_total (CSeqNo.incseq_by base0 (i32 sof)) r) as [v ->]. cbn. apply IH.
Qed.

Lemma wp_dismiss_columns (k : nat) seqno i loss r :
  0 <= i -> i + Z.of_nat k <= Z.of_nat (length (colq r)) ->
  wp (dismiss_columns c k seqno i loss) (fun _ r' => exists q, r' = set_colq q r /\ reflagged (colq r) q) r.
Proof using Type.
  revert i loss r. induction k as [|k IH]; intros i loss r Hi Hk; cbn [dismiss_columns].
  - wstep. exists (colq r). split; [apply set_colq_same|done].
  - destruct (lookup_lt_is_Some_2 (colq r) (Z.to_nat i)) as [g Hg]; [lia|]. wstep. eapply wp_col_at; [done|exact Hg|]. cbv zeta.
    destruct (dismissed g || _); [apply IH; lia|]. wstep. apply wp_set_col; [lia|]. wstep. wstep. wstep.
    edestruct (column_losses_total (Z.to_nat (sizeCol c))) as [l' Hl']. eapply wp_lift; [exact Hl'|].
    pose proof (reflagged_insert (colq r) _ g true Hg) as Hq. destruct Hq as [El Hq].
    eapply wp_mono; [apply IH; [lia|cbn [colq set_colq]; lia]|]. cbv beta. intros l2 r2 (q2 & -> & Hq2). exists q2. split; [done|].
    by eapply reflagged_trans.
Qed.

Lemma col_offset_small i : 0 <= i < n -> col_offset c i < n * R.
Proof using Hrc.
  destruct (cfg c Hrc) as (Hn & HR & _). intros Hi. unfold FecSend.col_offset. destruct (m_arrangement_staircase c); [|nia].
  pose proof (Z.mod_pos_bound i R ltac:(lia)). nia.
Qed.

Lemma colz_shift b j : colz (b + n * R) j = colz b (Z.to_nat n + j)%nat.
Proof using Hrc.
  destruct (cfg c Hrc) as (Hn & HR & _). unfold FecGroups.colz. replace (Z.of_nat (Z.to_nat n + j)) with (Z.of_nat j + 1 * n) by lia.
  rewrite Z.mod_add, Z.div_add by lia. lia.
Qed.

(** The rows that stay when one matrix goes. *)
Lemma rows_shift b F Hr cs cs' q :
  (forall y, b + n * R <= y -> mk (b + n * R) cs' y = mk b cs y) ->
  qinv c P b (rowz b) 1 n cs [] None F Hr q -> Z.of_nat (length q) <= R ->
  qinv c P (b + n * R) (rowz (b + n * R)) 1 n cs' [] None [] Hr (first_row c (seq_of (b + n * R))).
Proof using Hrc.
  destruct (cfg c Hrc) as (Hn & HR & _). intros Hmk ([H1 H2] & _ & _ & H4) Hl.
  pose proof (qinv_extend c P (b + n * R) (rowz (b + n * R)) 1 n [] Hr cs' [] None [] 1 (sizeRow c) 1) as Hext.
  cbn [length seq map app Nat.add] in Hext.
  assert (rowz (b + n * R) 0 = b + n * R) as E0 by (unfold FecGroups.rowz; lia). rewrite E0 in Hext. apply Hext.
  split; [|split; [|split]].
  - split; [intros j g Hj; by rewrite lookup_nil in Hj|]. intros y j Hy _ Hin. exfalso.
    pose proof (row_ge c Hrc _ _ _ Hin) as Hge. rewrite Hmk in Hy by done.
    assert (0 <= (y - b) / n) by (apply Z.div_pos; nia).
    assert (y ∈ gidx (rowz b (Z.to_nat ((y - b) / n))) 1 n) as Hin2 by (apply row_mem; [done|]; split; [nia|lia]).
    specialize (H2 _ _ Hy (not_elem_of_nil _) Hin2).
    assert (R <= (y - b) / n) by (apply Z.div_le_lower_bound; lia). lia.
  - intros j g Hj. by rewrite lookup_nil in Hj.
  - intros j g Hj. by rewrite lookup_nil in Hj.
  - intros z Hz Hb. exfalso. destruct (H4 z Hz ltac:(nia)) as (j & g & E & Hj & _). apply lookup_lt_Some in Hj.
    unfold FecGroups.rowz in E. nia.
Qed.

Lemma wp_dismiss_series b F Hr Hv r :
  2 <= R -> rinv b [] [] None None F Hr Hv r -> n < Z.of_nat (length (colq r)) ->
  wp (dismiss_series c) (fun _ r' => rinv0 (b + n * R) [] [] Hr Hv r' /\ moved b (b + n * R) r r') r.
Proof using Hrc.
  destruct (cfg c Hrc) as (Hn & HR & Hb & _). intros HR2 (Ecb & (Hq & Hl) & Hcols & Hlt & _) Hlen.
  destruct Hcols as [?|(_ & Hq2 & s & Hs & Hs9)]; [lia|].
  destruct (lookup_lt_is_Some_2 (colq r) (Z.to_nat n)) as [g Hg]; [lia|].
  assert (base (grp g) = seq_of (b + n * R)) as Eg.
  { destruct Hq2 as ([H1 _] & _). destruct (H1 _ _ Hg) as [-> _]. rewrite <- (Nat.add_0_r (Z.to_nat n)), <- colz_shift.
    unfold FecGroups.colz. change (Z.of_nat 0) with 0. rewrite Z.mod_0_l, Z.div_0_l, (col_offset_0 c Hrc) by lia. f_equal. lia. }
  unfold dismiss_series. wstep. eapply wp_col_at; [lia|exact Hg|]. wstep. wstep. cbv zeta. rewrite Eg. wstep.
  assert (exists under, (Z.of_nat (length (rowq r)) - 1 <? R) = under /\ (under = true -> Z.of_nat (length (rowq r)) <= R)
          /\ (under = false -> R < Z.of_nat (length (rowq r)))) as (under & Eu & Hut & Huf).
  { eexists. split; [done|]. split; [intros ?%Z.ltb_lt|intros ?%Z.ltb_ge]; lia. }
  rewrite Eu. apply (wp_mono _ (fun (v : bool) r' => r' = r /\ v = false)).
  { destruct under; [by wstep|]. specialize (Huf eq_refl). wstep.
    destruct (lookup_lt_is_Some_2 (rowq r) (Z.to_nat R)) as [gr Hgr]; [lia|]. eapply wp_row_at; [lia|exact Hgr|]. wstep. split; [done|].
    destruct Hq as ([H1 _] & _). destruct (H1 _ _ Hgr) as [-> _]. unfold FecGroups.rowz.
    replace (b + Z.of_nat (Z.to_nat R) * n) with (b + n * R) by lia. by rewrite Z.eqb_refl. }
  intros v r' [-> ->]. wstep. wstep. wstep. wstep. wstep. cbn [cell_base cells set_rowq set_colq].
  rewrite Ecb, i32_id, incseq_by_seq_of by (unfold is_i32, CSeqNo.m_iMaxSeqNo; nia). rewrite Z.eqb_refl. cbn [negb orb].
  set (cs' := if _ <=? _ then [] else _).
  assert (forall y, b + n * R <= y -> mk (b + n * R) cs' y = mk b (cells r) y) as Hmk.
  { assert (cs' = drop (Z.to_nat (n * R)) (cells r)) as ->.
    { subst cs'. destruct (Z.leb_spec (Z.of_nat (length (cells r))) (n * R)); [|done]. by rewrite drop_ge by lia. }
    intros y Hy. replace (b + n * R) with (b + Z.of_nat (Z.to_nat (n * R))) in * by lia. by apply mk_drop. }
  split; [|split; [nia|split; [done|exact Hmk]]].
  set (r2 := set_cells _ _ _). exists (groups (b + n * R) r2). split; [done|]. split; [|split; [|split]].
  - unfold r2. cbn [rowq colq cells set_cells set_rowq set_colq].
    destruct under; [specialize (Hut eq_refl)|specialize (Huf eq_refl)].
    + pose proof (rows_shift b F Hr (cells r) cs' (rowq r) Hmk Hq Hut) as (G1 & G2 & G3 & G4). split; [|cbn; lia].
      split; [done|]. split; [done|]. split; [|done]. intros j x Hj Hf. exfalso. specialize (G3 j x Hj Hf). by apply not_elem_of_nil in G3.
    + split; [|rewrite length_drop; lia].
      eapply (qinv_shift c P b); [|nia|exact Hmk|intros j y; by apply row_ge| | |exact Hq].
      * intros j. unfold FecGroups.rowz. lia.
      * intros j Hj. unfold FecGroups.rowz. nia.
      * intros j x Hj Hf. apply elem_of_app. left. by eapply fec_groups_in.
  - right. split; [done|]. unfold r2. cbn [rowq colq cells set_cells set_rowq set_colq]. split.
    + eapply (qinv_shift c P b); [apply colz_shift|nia|exact Hmk|intros j y; by apply col_ge| | |exact Hq2].
      * intros j Hj. unfold FecGroups.colz. rewrite Z.mod_small, Z.div_small by lia. pose proof (col_offset_small (Z.of_nat j) ltac:(lia)). lia.
      * intros j x Hj Hf. apply elem_of_app. right. by eapply fec_groups_in.
    + exists (s - 1). rewrite length_drop. split; nia.
  - intros y Hy. cbn [cells set_cells r2] in Hy. pose proof (mk_ge _ _ _ Hy) as Hge. rewrite Hmk in Hy by done. specialize (Hlt y Hy). nia.
  - intros y Hy. by apply not_elem_of_nil in Hy.
Qed.

Lemma wp_check_dismiss b x colgx Hr Hv r :
  2 <= R -> rinv0 b [] [] Hr Hv r -> b <= x < b + limit ->
  wp (RcvCheckDismissColumn c (seq_of x) colgx)
    (fun _ r' => exists b', rinv0 b' [] [] Hr Hv r' /\ moved b b' r r' /\ (b' = b \/ b' = b + n * R /\ b' <= x)) r.
Proof using Hrc.
  destruct (cfg c Hrc) as (Hn & HR & Hb & _). destruct (limit_range c Hrc) as (Hlim & _). intros HR2 [F Hinv] Hx.
  assert (exists b', rinv0 b' [] [] Hr Hv r /\ moved b b' r r /\ (b' = b \/ b' = b + n * R /\ b' <= x)) as Hsame.
  { exists b. split; [by exists F|]. split; [by apply moved_refl|by left]. }
  unfold RcvCheckDismissColumn. cbv zeta. destruct (_ =? 0); [by wstep|]. wstep.
  assert (n <= Z.of_nat (length (colq r))) as Hlen. { destruct Hinv as (_ & _ & [?|(_ & _ & s & Hs & Hs1)] & _); [lia|nia]. }
  eapply wp_mono; [apply wp_dismiss_columns; lia|]. cbv beta. intros loss r1 (q & -> & Hq).
  assert (Hinv1 := rinv_reflag_cols _ _ _ _ _ _ _ _ _ _ Hq Hinv).
  destruct (cols_head c P Hrc b [] None F Hv (cells r) q HR2) as (g0 & Hg0 & Eb0). { by destruct Hinv1 as (_ & _ & ? & _). }
  wstep. eapply wp_col_at; [lia|exact Hg0|]. wstep. wstep. wstep. rewrite Eb0, seqoff_seq_of by (unfold CSeqNo.m_iSeqNoTH; nia).
  assert (exists b', rinv0 b' [] [] Hr Hv (set_colq q r) /\ moved b b' r (set_colq q r) /\ (b' = b \/ b' = b + n * R /\ b' <= x)) as Hsame1.
  { exists b. split; [by exists F|]. split; [by apply moved_refl|by left]. }
  set (mindist := i32 _). assert (n * R <= mindist) as Hmin.
  { subst mindist. rewrite i32_id; [|unfold is_i32]; destruct (m_arrangement_staircase c); nia. }
  destruct (Z.ltb_spec (x - b) mindist); [wstep; by wstep|].
  destruct (Z.ltb_spec (Z.of_nat (length (colq (set_colq q r))) - 1) n); [wstep; by wstep|].
  eapply wp_mono; [eapply wp_dismiss_series; [done|exact Hinv1|lia]|]. cbv beta. intros _ r2 (Hi & Hm). wstep.
  exists (b + n * R). split; [done|]. split; [exact Hm|]. right. split; [done|lia].
Qed.

(** ** Hanging a packet on its column *)

Lemma wp_vertical b x p fec_col ec F Hr Hv Hv' r :
  2 <= R -> CPacket.getSeqNo p = seq_of x -> b <= x < b + limit -> rinv b [] ec None None F Hr Hv r ->
  (x - b < col_offset c ((x - b) mod n) -> rinv b [] [] None None F Hr Hv' r) ->
  (col_offset c ((x - b) mod n) <= x - b ->
   forall q g, qinv c P b (colz b) n R (cells r) ec None F Hv q -> q !! Z.to_nat (col_idx c b x) = Some g ->
     exists g', put_in c (negb (fec_col =? -1)) p g = Some g'
       /\ qinv c P b (colz b) n R (cells r) [] (Some (Z.to_nat (col_idx c b x))) F Hv' (<[Z.to_nat (col_idx c b x) := g']> q)) ->
  wp (HangVertical c p fec_col)
    (fun s r' => fst s <> HANG_CRAZY /\ exists b' r1, rinv0 b' [] [] Hr Hv' r' /\ grew b r r1 /\ moved b b' r1 r'
       /\ (b' = b \/ b' = b + n * R /\ b' <= x)) r.
Proof using Hrc HP.
  intros HR2 Hseq Hx Hinv Hpast Hput. assert (H0 := Hinv). destruct H0 as (Ecb & Hrows & Hcols & Hlt & Hpend).
  unfold HangVertical. cbv zeta. rewrite Hseq. wstep. eapply wp_col_index; [done|done|exact Hcols|done| |].
  - intros Hp. wstep. split; [done|]. exists b, r. split; [exists F; by apply Hpast|]. split; [by apply grew_same|].
    split; [by apply moved_refl|by left].
  - intros Hoff Hix0 q Hq Hix _. destruct Hq as [?|(_ & Hq & Hs)]; [lia|].
    destruct (lookup_lt_is_Some_2 q (Z.to_nat (col_idx c b x))) as [g Hg]; [lia|]. wstep. eapply wp_col_at; [done|exact Hg|]. cbv beta.
    destruct (Hput Hoff q g Hq Hg) as (g' & -> & Hq'). wstep. apply wp_set_col; [cbn [colq set_colq]; lia|]. wstep. cbv beta.
    set (r2 := set_colq _ _). assert (rinv b [] [] None (Some (Z.to_nat (col_idx c b x))) F Hr Hv' r2) as Hinv2.
    { split; [done|]. split; [done|]. split; [right; split; [done|]; split; [exact Hq'|cbn; by rewrite length_insert]|]. split; [done|].
      intros y Hy. by apply not_elem_of_nil in Hy. }
    eapply wp_mono; [eapply wp_col_finish; [done|exact Hinv2|]|].
    { apply list_lookup_insert_eq. by eapply lookup_lt_Some. }
    cbv beta. intros _ r3 (Hi3 & Hg3). wstep. eapply wp_mono; [by eapply wp_check_dismiss|].
    cbv beta. intros loss r4 (b' & Hi4 & Hm4 & Hb4). wstep. split; [done|]. exists b', r3. split; [done|]. split; [|done].
    eapply grew_trans; [|exact Hg3]. by apply grew_same.
Qed.

End Hang.
