(* ===== verification/FecReceive.v ===== *)
(** * The receiver of the packet filter: receiving

    The packets that arrive are those the sender of FecSend.v has put on the wire.
    [reach] are the states of the receiver, [rcv_ok] holds in all of them. *)

From S2P Require Import Prelude SeqNo Packet Fec FecSpec FecSend FecRcv FecGroups FecRebuild FecHang.

Import FEC.

Section Receive.

Context (c : config) (P : Z -> CPacket.t) (X kflg : Z) (Hrc : rcv_config_ok c) (HP : stream_ok c P).

Notation n := (m_number_cols c).
Notation R := (m_number_rows c).
Notation ps := (Z.to_nat (payloadSize c)).
Notation sum := (sum c P).
Notation limit := (limit c).
Notation rinv := (rinv c P).
Notation rinv0 := (rinv0 c P).
Notation rowz := (rowz c).
Notation colz := (colz c).
Notation grew := (grew P).

(** ** What arrives *)

(** Packet [x] of the stream, as it is received; a retransmitted packet differs in
    its flag. *)
Definition carries (x : Z) (p : CPacket.t) : Prop :=
  CPacket.getSeqNo p = seq_of x /\ CPacket.getMsgTimeStamp p = CPacket.getMsgTimeStamp (P x)
  /\ CPacket.getMsgCryptoFlags p = CPacket.getMsgCryptoFlags (P x) /\ CPacket.m_pcData p = CPacket.m_pcData (P x)
  /\ CPacket.getMsgSeq true p <> SRT_MSGNO_CONTROL.

(** All but the destination ID. *)
Definition sent_as (q p : CPacket.t) : Prop :=
  CPacket.ph_seqno p = CPacket.ph_seqno q /\ CPacket.ph_msgno p = CPacket.ph_msgno q
  /\ CPacket.ph_timestamp p = CPacket.ph_timestamp q /\ CPacket.m_pcData p = CPacket.m_pcData q.

Inductive arrival := Data (x : Z) | RowControl (x : Z) | ColControl (x : Z).

Definition index (a : arrival) : Z := match a with Data x | RowControl x | ColControl x => x end.

(** [p] arrives as [a]: a control packet is one that follows packet [x]. *)
Definition arrives (a : arrival) (p : CPacket.t) : Prop :=
  match a with
  | Data x => carries x p
  | RowControl x => exists q, q ∈ row_due c P X kflg x /\ sent_as q p
  | ColControl x => exists q, q ∈ col_due c P X kflg x /\ sent_as q p
  end.

(** The first packets of the rows and columns whose control packet has arrived. *)
Definition row_starts (l : list arrival) : list Z := omap (fun a => match a with RowControl x => Some (x - n + 1) | _ => None end) l.
Definition col_starts (l : list arrival) : list Z := omap (fun a => match a with ColControl x => Some (x - n * (R - 1)) | _ => None end) l.

(** ** Control packets *)

Definition clips (ix : list Z) (p : CPacket.t) : Prop := forall g, length (payload_clip g) = ps ->
  exists g', ClipControlPacket c g p = Some g' /\ base g' = base g /\ collected g' = collected g
    /\ clip_of g' = cxor (clip_of g) (sum ix).

Lemma control_clips idx x ix p :
  sent_as (control kflg idx x (sum ix)) p ->
  CPacket.getSeqNo p = seq_of x /\ CPacket.getMsgSeq true p = SRT_MSGNO_CONTROL /\ head (CPacket.m_pcData p) = Some (u8 idx) /\ clips ix p.
Proof using HP.
  intros (E1 & E2 & E3 & E4). pose proof (sum_in_range c P HP ix) as (Hl & Hf & Ht & Hd). split; [|split; [|split]].
  - unfold CPacket.getSeqNo. rewrite E1. cbn. pose proof (seq_of_valid x) as V. seq_facts. apply i32_id. unfold is_i32. lia.
  - unfold CPacket.getMsgSeq. rewrite E2. unfold control, CPacket.setMsgCryptoFlags. cbn [CPacket.ph_msgno CPacket.set_msgno].
    rewrite unwrap_set_other by (unfold Bits.wf; simpl; lia). done.
  - by rewrite E4.
  - intros g Hg. unfold ClipControlPacket. rewrite E4. cbn [control CPacket.setMsgCryptoFlags CPacket.set_msgno CPacket.m_pcData app].
    eexists. split; [done|]. split; [done|]. split; [done|]. rewrite clip_of_ClipData by (rewrite ?Hd; done). f_equal.
    rewrite length_bytes by done. unfold CPacket.getMsgTimeStamp. rewrite E3.
    cbn [control CPacket.setMsgCryptoFlags CPacket.set_msgno CPacket.ph_timestamp].
    change CPacket.MAX_TIMESTAMP with (Z.ones 32). rewrite Z.land_ones, Z.mod_small by lia.
    rewrite resize_all_alt by done. by destruct (sum ix).
Qed.

(** ** Groups that take a packet *)

Section Put.

Context (b : Z) (zf : nat -> Z) (st N : Z) (F : list (list Z)) (H : list Z) (cs : list bool) (q : list RcvGroup) (j : nat) (g : RcvGroup).
Context (Huniq : forall y j j', y ∈ gidx (zf j) st N -> y ∈ gidx (zf j') st N -> j' = j).
Context (Hg : q !! j = Some g).

Lemma qinv_length e ex : qinv c P b zf st N cs e ex F H q -> length (payload_clip (grp g)) = ps.
Proof using Hg. intros ([H1 _] & _). destruct (H1 _ _ Hg) as (_ & Hgi & _). by eapply ginv_length. Qed.

Lemma put_data x p :
  carries x p -> x ∈ gidx (zf j) st N -> mk b cs x = true -> qinv c P b zf st N cs [x] None F H q ->
  exists g', put_in c false p g = Some g' /\ qinv c P b zf st N cs [] (Some j) F H (<[j := g']> q).
Proof using Hg Huniq HP.
  intros (_ & Et & Ef & Ed & _) Hin Hmk Hq. eexists. split; [done|]. eapply qinv_clip; try exact Hq; try done; [apply not_elem_of_nil|].
  cbn [grp set_grp]. rewrite clip_of_inc. rewrite clip_of_ClipPacket.
  - f_equal. unfold contrib, CPacket.getLength. by rewrite Et, Ef, Ed.
  - by eapply qinv_length.
  - rewrite Ed. by apply packet_data.
Qed.

Lemma put_control p :
  clips (gidx (zf j) st N) p -> (forall y, y ∈ gidx (zf j) st N -> y < b + limit) -> gidx (zf j) st N ∈ F ->
  qinv c P b zf st N cs [] None F H q ->
  exists g', put_in c true p g = Some g' /\ qinv c P b zf st N cs [] (Some j) F (zf j :: H) (<[j := g']> q).
Proof using Hg.
  intros Hcl Hlt HF Hq. unfold put_in. destruct (fec g) eqn:Ef.
  - exists g. split; [done|]. rewrite list_insert_id by done. destruct Hq as (H1 & H2 & H3 & H4). split; [done|].
    split; [intros i x Hx _; by apply H2|]. split; [done|]. intros z [->|Hz]%elem_of_cons Hb; [by exists j, g|by apply H4].
  - destruct (Hcl (grp g)) as (g' & E & Eb & Ec & Ek); [by eapply qinv_length|]. rewrite E. cbn. eexists. split; [done|].
    by eapply qinv_control.
Qed.

End Put.

(** ** Hanging what arrives *)

(** The first packet moves on by rows, or by a matrix that packet [x] is behind. *)
Definition tail (b b' x L : Z) (r' : Receive) : Prop :=
  (2 <= R -> b' = b \/ b' = b + n * R /\ b' <= x)
  /\ (R = 1 -> exists k : nat, b' = rowz b k /\ Z.of_nat (length (rowq r')) + Z.of_nat k <= L /\ (k = 0%nat \/ 2 <= Z.of_nat (length (rowq r')))).

Definition took (b : Z) (Hr Hv : list Z) (x L : Z) (r r' : Receive) : Prop :=
  exists b' r1, rinv0 b' [] [] Hr Hv r' /\ grew b r r1 /\ moved b b' r1 r' /\ tail b b' x L r'.

Lemma took_nothing b Hr Hv x L r : rinv0 b [] [] Hr Hv r -> Z.of_nat (length (rowq r)) <= L -> took b Hr Hv x L r r.
Proof using Type.
  intros Hi HL. exists b, r. split; [done|]. split; [by apply grew_same|]. split; [by apply moved_refl|]. split; [by left|].
  intros _. exists 0%nat. unfold FecGroups.rowz. split; [lia|]. split; [lia|by left].
Qed.

Definition newest (b x : Z) (r : Receive) : Z := Z.max (Z.of_nat (length (rowq r))) ((x - b) / n + 1).

Lemma hung_took b Hr Hv x r r' : R = 1 -> hung c P b [] [] Hr Hv r (newest b x r) r' -> took b Hr Hv x (newest b x r) r r'.
Proof using Type.
  intros HR1 (b' & r1 & H1 & H2 & H3 & _ & H4). exists b', r1. split; [done|]. split; [done|]. split; [done|]. split; [lia|].
  intros _. destruct (H4 HR1) as (k & E & El & Hk). exists k. split; [done|]. split; [lia|done].
Qed.

Lemma hung_matrix b er ec Hr Hv L r r' : 2 <= R -> hung c P b er ec Hr Hv r L r' -> rinv0 b er ec Hr Hv r' /\ grew b r r'.
Proof using Type.
  intros HR2 (b' & r1 & H1 & H2 & (_ & M2 & M3) & H4 & _). specialize (H4 HR2). subst b'. split; [done|]. eapply grew_trans; [exact H2|].
  apply grew_same; [done|]. intros y. destruct (Z.leb_spec b y) as [Hy|Hy]; [by apply M3|]. unfold mk. destruct (Z.leb_spec b y); [lia|done].
Qed.

Lemma in_row b x : b <= x -> x ∈ gidx (rowz b (Z.to_nat ((x - b) / n))) 1 n.
Proof using Hrc. destruct (cfg c Hrc) as (Hn & _). intros Hx. apply row_mem; [done|]. split; [done|]. pose proof (Z.div_pos (x - b) n). lia. Qed.

Lemma in_col b x : b <= x -> col_offset c ((x - b) mod n) <= x - b -> x ∈ gidx (colz b (Z.to_nat (col_idx c b x))) n R.
Proof using Hrc.
  destruct (cfg c Hrc) as (Hn & HR & _). intros Hx Ho. apply col_mem; [done|]. split; [done|]. unfold col_idx.
  pose proof (Z.mod_pos_bound (x - b) n). pose proof (Z.div_pos (x - b - col_offset c ((x - b) mod n)) (R * n)). nia.
Qed.

Lemma wp_hang_data b x p F Hr Hv r :
  carries x p -> b <= x < b + limit -> rinv b [x] (if R =? 1 then [] else [x]) None None F Hr Hv r ->
  wp (hang c p false (-1)) (fun _ r' => took b Hr Hv x (newest b x r) r r') r.
Proof using Hrc HP.
  destruct (cfg c Hrc) as (Hn & HR & _). intros Hc Hx Hinv. assert (Hseq := Hc). destruct Hseq as [Hseq _].
  assert (mk b (cells r) x = true) as Hmk. { destruct Hinv as (_ & _ & _ & _ & Hp). apply Hp. by left. }
  unfold hang. cbn [andb negb]. wstep. eapply wp_mono.
  { eapply wp_horizontal with (er' := []) (Hr' := Hr); [done|done|exact Hseq|exact Hx| | |exact Hinv|].
    - intros ->. done.
    - intros y Hy. by apply not_elem_of_nil in Hy.
    - intros q g Hq Hg. eapply put_data; [intros y j j'; by apply row_uniq|exact Hg|exact Hc|apply in_row; lia|done|done]. }
  cbv beta. intros [hs hl] r1 [Ehs Hh]. cbn [fst] in Ehs. subst hs. wstep. rewrite Z.gtb_ltb. destruct (Z.ltb_spec 1 R) as [HR2|HR1].
  - destruct (Z.eqb_spec R 1); [lia|]. destruct (hung_matrix _ _ _ _ _ _ _ _ ltac:(lia) Hh) as [[F1 Hinv1] Hg1].
    assert (mk b (cells r1) x = true) as Hmk1. { destruct Hinv1 as (_ & _ & _ & _ & Hp). apply Hp. by left. }
    eapply wp_mono.
    { eapply wp_vertical with (ec := [x]) (Hv' := Hv); [done|done|lia|exact Hseq|exact Hx|exact Hinv1| |].
      - intros Hpast. destruct Hinv1 as (Ecb & Hrows & Hcols & Hlt & _). split; [done|]. split; [done|]. split; [|split; [done|]].
        + destruct Hcols as [?|(_ & Hq & Hs)]; [lia|right]. split; [lia|]. split; [|done]. eapply qinv_drop; [|exact Hq].
          intros j [Hj _]%col_mem; [lia|done].
        + intros y Hy. by apply not_elem_of_nil in Hy.
      - intros Hoff q g Hq Hg. eapply put_data; [intros y j j'; by apply col_uniq|exact Hg|exact Hc|apply in_col; lia|done|done]. }
    cbv beta. intros [vs vl] r2 [Hvs (b' & r3 & H1 & H2 & H3 & H4)]. cbn [fst] in *. wstep.
    rewrite !bool_decide_eq_false_2 by done. cbn [orb]. wstep. wstep. exists b', r3. split; [done|]. split; [by eapply grew_trans|].
    split; [done|]. split; [done|lia].
  - assert (R = 1) as E1 by lia. wstep. wstep. cbn [fst]. rewrite !bool_decide_eq_false_2 by done. cbn [orb]. wstep. wstep.
    apply hung_took; [done|]. by rewrite E1 in Hh.
Qed.

Lemma tail_none b x L r : Z.of_nat (length (rowq r)) <= L -> tail b b x L r.
Proof using Type.
  intros HL. split; [by left|]. intros _. exists 0%nat. unfold FecGroups.rowz. split; [lia|]. split; [lia|by left].
Qed.

Lemma wp_hang_row b x p F Hr Hv r :
  CPacket.getSeqNo p = seq_of x -> clips (gidx (x - n + 1) 1 n) p -> (x - b + 1) mod n = 0 -> b <= x < b + limit ->
  rinv b [] [] None None F Hr Hv r ->
  wp (hang c p true (-1)) (fun _ r' => took b (x - n + 1 :: Hr) Hv x (newest b x r) r r') r.
Proof using Hrc HP.
  destruct (cfg c Hrc) as (Hn & HR & _). intros Hseq Hcl Hend Hx Hinv.
  assert (rowz b (Z.to_nat ((x - b) / n)) = x - n + 1) as Ez.
  { unfold FecGroups.rowz. pose proof (Z.div_pos (x - b) n ltac:(lia) ltac:(lia)). rewrite Z2Nat.id by done.
    pose proof (Z.div_mod (x - b + 1) n ltac:(lia)) as D. rewrite Hend in D.
    assert ((x - b) / n = (x - b + 1) / n - 1); [|nia]. symmetry. apply Z.div_unique with (n - 1); lia. }
  apply (rinv_more c P b [] [] None None F (gidx (x - n + 1) 1 n :: F)) in Hinv; [|intros ix Hix; by right].
  unfold hang. cbn [andb negb Z.eqb Pos.eqb]. wstep. eapply wp_mono.
  { eapply wp_horizontal with (er' := []) (Hr' := x - n + 1 :: Hr); [done|done|exact Hseq|exact Hx|done|done|exact Hinv|].
    intros q g Hq Hg. rewrite <- Ez. eapply put_control; [exact Hg|by rewrite Ez| |rewrite Ez; by left|by rewrite Ez].
    intros y. rewrite Ez. intros (i & Hi & ->)%elem_of_gidx. lia. }
  cbv beta. intros [hs hl] r1 [Ehs Hh]. cbn [fst] in Ehs. subst hs. wstep. wstep. wstep. cbn [fst]. rewrite !bool_decide_eq_false_2 by done.
  cbn [orb]. wstep. wstep. destruct (Z.eq_dec R 1) as [HR1|HR1]; [by apply hung_took|]. assert (2 <= R) as HR2 by lia.
  destruct (hung_matrix _ _ _ _ _ _ _ _ HR2 Hh) as [Hi Hg]. exists b, r1. split; [done|]. split; [done|]. split; [by apply moved_refl|].
  split; [by left|lia].
Qed.

(** A group that begins before the first cell need not be kept. *)
Lemma rinv_past_row b F Hr Hv r z : z < b -> rinv b [] [] None None F Hr Hv r -> rinv b [] [] None None F (z :: Hr) Hv r.
Proof using Type.
  intros Hz (Ecb & ((H1 & H2 & H3 & H4) & Hl) & Hrest). split; [done|]. split; [|done]. split; [|done]. repeat (split; [done|]).
  intros y [->|Hy]%elem_of_cons Hb; [lia|by apply H4].
Qed.

Lemma rinv_past_col b F Hr Hv r z : z < b -> rinv b [] [] None None F Hr Hv r -> rinv b [] [] None None F Hr (z :: Hv) r.
Proof using Type.
  intros Hz (Ecb & Hrows & Hcols & Hrest). split; [done|]. split; [done|]. split; [|done].
  destruct Hcols as [?|(HR2 & (H1 & H2 & H3 & H4) & Hs)]; [by left|right]. split; [done|]. split; [|done]. repeat (split; [done|]).
  intros y [->|Hy]%elem_of_cons Hb; [lia|by apply H4].
Qed.

Lemma col_last b x :
  b <= x -> (col_offset c ((x - b) mod n) <= x - b -> ((x - b - col_offset c ((x - b) mod n)) / n) mod R = R - 1) ->
  if x - b <? col_offset c ((x - b) mod n) then x - n * (R - 1) < b else colz b (Z.to_nat (col_idx c b x)) = x - n * (R - 1).
Proof using Hrc.
  destruct (cfg c Hrc) as (Hn & HR & _). intros Hx Hend. set (i := (x - b) mod n) in *.
  assert (0 <= i < n) as Hi by (apply Z.mod_pos_bound; lia). pose proof (col_offset_range c (proj1 Hrc) i Hi) as [Ho Hom].
  pose proof (col_offset_small c Hrc i Hi) as Hos. pose proof (Z.div_mod (x - b) n ltac:(lia)) as Dx. fold i in Dx.
  pose proof (Z.div_mod (col_offset c i) n ltac:(lia)) as Do. rewrite Hom in Do.
  destruct (Z.ltb_spec (x - b) (col_offset c i)) as [Hpast|Hin].
  - assert (col_offset c i / n < R) by (apply Z.div_lt_upper_bound; lia). assert ((x - b) / n < col_offset c i / n) by nia. nia.
  - specialize (Hend Hin). set (o := col_offset c i) in *.
    assert (0 <= (x - b - o) / (R * n)) as Hs by (apply Z.div_pos; nia).
    assert ((x - b - o) / n / R = (x - b - o) / (R * n)) as Ed by (rewrite Z.div_div by lia; f_equal; lia).
    pose proof (Z.div_mod ((x - b - o) / n) R ltac:(lia)) as D2. rewrite Hend, Ed in D2.
    assert (n * ((x - b - o) / n) = x - b - o) as En.
    { symmetry. apply Z_div_exact_full_2; [lia|]. rewrite Zminus_mod, Hom. fold i. rewrite Z.sub_diag. apply Z.mod_0_l. lia. }
    unfold FecGroups.colz, col_idx. fold i. fold o. rewrite Z2Nat.id by nia. rewrite Z.mod_add, Z.div_add, Z.mod_small, Z.div_small by lia.
    fold o. nia.
Qed.

Lemma wp_hang_col b x p colx F Hr Hv r :
  2 <= R -> colx <> -1 -> CPacket.getSeqNo p = seq_of x -> clips (gidx (x - n * (R - 1)) n R) p ->
  (col_offset c ((x - b) mod n) <= x - b -> ((x - b - col_offset c ((x - b) mod n)) / n) mod R = R - 1) -> b <= x < b + limit ->
  rinv b [] [] None None F Hr Hv r ->
  wp (hang c p true colx) (fun _ r' => took b Hr (x - n * (R - 1) :: Hv) x (newest b x r) r r') r.
Proof using Hrc HP.
  destruct (cfg c Hrc) as (Hn & HR & _). intros HR2 Hcolx Hseq Hcl Hend Hx Hinv.
  pose proof (col_last b x ltac:(lia) Hend) as Hz. set (z := x - n * (R - 1)) in *.
  apply (rinv_more c P b [] [] None None F (gidx z n R :: F)) in Hinv; [|intros ix Hix; by right].
  unfold hang. destruct (Z.eqb_spec colx (-1)) as [|_]; [done|]. cbn [andb negb]. wstep. wstep. rewrite Z.gtb_ltb.
  destruct (Z.ltb_spec 1 R); [|lia]. wstep. eapply wp_mono.
  { eapply wp_vertical with (ec := []) (Hv' := z :: Hv); [done|done|lia|exact Hseq|exact Hx|exact Hinv| |].
    - intros Hpast. destruct (Z.ltb_spec (x - b) (col_offset c ((x - b) mod n))); [|lia]. by apply rinv_past_col.
    - intros Hoff q g Hq Hg. destruct (Z.ltb_spec (x - b) (col_offset c ((x - b) mod n))); [lia|].
      destruct (Z.eqb_spec colx (-1)) as [|_]; [done|]. cbn [negb]. rewrite <- Hz.
      eapply put_control; [exact Hg|by rewrite Hz| |rewrite Hz; by left|by rewrite Hz].
      intros y. rewrite Hz. intros (i & Hi & ->)%elem_of_gidx. subst z. nia. }
  cbv beta. intros [vs vl] r2 [Hvs (b' & r3 & H1 & H2 & H3 & H4)]. cbn [fst] in *. wstep.
  rewrite !bool_decide_eq_false_2 by done. cbn [orb]. wstep. wstep. exists b', r3. split; [done|]. split; [done|].
  split; [done|]. split; [done|lia].
Qed.

(** ** Receiving *)

Lemma wp_no_large_drop b x er ec F Hr Hv r (Q : unit -> Receive -> Prop) :
  rinv b er ec None None F Hr Hv r -> - 2 ^ 29 < x - b < limit -> Q tt r -> wp (CheckLargeDrop c (seq_of x)) Q r.
Proof using Hrc.
  destruct (cfg c Hrc) as (Hn & HR & Hb & _). destruct (limit_range c Hrc) as (Hlim & _ & HlimR & Hlim1).
  intros (Ecb & Hrows & Hcols & _) Hx HQ. destruct (rows_head c P _ _ _ _ _ _ _ Hrows) as (g0 & Hg0 & E0).
  unfold CheckLargeDrop. wstep. eapply wp_row_at; [lia|exact Hg0|]. rewrite E0, seqoff_seq_of by (unfold CSeqNo.m_iSeqNoTH; nia). cbv zeta.
  destruct (Z.ltb_spec (x - b) 0) as [|Hge]; [by wstep|]. destruct (Z.eqb_spec R 1) as [E1|E1].
  - rewrite Z.gtb_ltb. unfold sizeRow. rewrite i32_id by (unfold is_i32; nia). specialize (Hlim1 E1).
    destruct (Z.ltb_spec (5 * n) (x - b)); [lia|by wstep].
  - assert (2 <= R) as HR2 by lia. destruct (cols_head c P Hrc _ _ _ _ _ _ _ HR2 Hcols) as (h0 & Hh0 & Eh0). specialize (HlimR E1).
    wstep. eapply wp_col_at; [lia|exact Hh0|]. rewrite Eh0, seqoff_seq_of, Z.eqb_refl by (unfold CSeqNo.m_iSeqNoTH; nia). cbn [negb].
    pose proof (Z.mod_pos_bound (x - b) n ltac:(lia)) as Hm.
    destruct (col_base c P Hrc _ _ _ _ _ _ _ (Z.to_nat ((x - b) mod n)) HR2 Hcols ltac:(lia)) as (g & Hg & Eg).
    rewrite Z2Nat.id in Eg by lia. pose proof (col_offset_range c (proj1 Hrc) _ Hm) as [Ho _].
    wstep. eapply wp_col_at; [lia|exact Hg|]. rewrite Eg, seqoff_seq_of by (unfold CSeqNo.m_iSeqNoTH; nia).
    destruct (Z.ltb_spec (x - (b + col_offset c ((x - b) mod n))) 0); [by wstep|]. rewrite !Z.gtb_ltb.
    destruct Hrc as (_ & Hbuf & _).
    assert (5 * (n * R) <= rcvBufferSize c / 2) by (apply Z.div_le_lower_bound; lia).
    destruct (Z.ltb_spec (rcvBufferSize c / 2) ((x - b) mod n * R)); [nia|].
    destruct (Z.ltb_spec SRT_FEC_MAX_RCV_HISTORY ((x - (b + col_offset c ((x - b) mod n))) / (R * n))) as [Hbad|]; [|cbn [orb]; by wstep].
    exfalso. unfold SRT_FEC_MAX_RCV_HISTORY in Hbad.
    assert ((x - (b + col_offset c ((x - b) mod n))) / (R * n) < 9) by (apply Z.div_lt_upper_bound; nia). lia.
Qed.

(** The control packet of a group that is no longer there. *)
Lemma wp_hang_past b x p colx F Hr Hv r (Q : loss_seqs_t -> Receive -> Prop) :
  CPacket.getSeqNo p = seq_of x -> - 2 ^ 29 < x - b < 0 -> (colx <> -1 -> 2 <= R) -> rinv b [] [] None None F Hr Hv r -> (forall l, Q l r) ->
  wp (hang c p true colx) Q r.
Proof using Hrc.
  intros Hseq Hx Hcol (Ecb & Hrows & Hcols & _) HQ. unfold hang. destruct (Z.eqb_spec colx (-1)) as [Ec|Ec]; cbn [andb negb].
  - destruct (rows_head c P _ _ _ _ _ _ _ Hrows) as (g0 & Hg0 & E0). wstep. unfold HangHorizontal. cbv zeta. rewrite Hseq. wstep.
    unfold RcvGetRowGroupIndex. wstep. eapply wp_row_at; [lia|exact Hg0|]. rewrite E0, seqoff_seq_of by (unfold CSeqNo.m_iSeqNoTH; lia).
    cbv zeta. destruct (Z.ltb_spec (x - b) 0); [|lia]. wstep. wstep. wstep. wstep. wstep. cbn [fst].
    rewrite !bool_decide_eq_false_2 by done. cbn [orb]. wstep. wstep. apply HQ.
  - specialize (Hcol Ec). destruct (cols_head c P Hrc _ _ _ _ _ _ _ Hcol Hcols) as (h0 & Hh0 & Eh0). wstep. wstep. wstep.
    rewrite Z.gtb_ltb. destruct (Z.ltb_spec 1 R); [|lia]. unfold HangVertical. cbv zeta. rewrite Hseq. wstep.
    unfold RcvGetColumnGroupIndex. wstep. eapply wp_col_at; [lia|exact Hh0|]. rewrite Eh0, seqoff_seq_of by (unfold CSeqNo.m_iSeqNoTH; lia).
    cbv zeta. destruct (Z.ltb_spec (x - b) 0); [|lia]. wstep. wstep. wstep. cbn [fst].
    rewrite !bool_decide_eq_false_2 by done. cbn [orb]. wstep. wstep. apply HQ.
Qed.

Definition data_of (a : arrival) : list Z := match a with Data x => [x] | _ => [] end.

(** Everything that arrived from index [b] on is marked. *)
Definition marked (b : Z) (D : list Z) (r : Receive) : Prop := forall y, b <= y -> mk b (cells r) y = bool_decide (y ∈ D).

Definition rcv_ok (b : Z) (A : list arrival) (D : list Z) (r : Receive) : Prop :=
  rinv0 b [] [] (row_starts A) (col_starts A) r /\ rebuilt r = [] /\ marked b D r
  /\ (exists t, 0 <= t /\ b = X + t * (n * R))
  /\ (R = 1 -> Z.of_nat (length (rowq r)) = 1 \/ exists a, a ∈ A /\ b + (Z.of_nat (length (rowq r)) - 1) * n <= index a).

Definition taken (b : Z) (A : list arrival) (D : list Z) (a : arrival) (r r' : Receive) : Prop :=
  exists r0, rebuilt r0 = rebuilt r /\ marked b (data_of a ++ D) r0
    /\ took b (row_starts (a :: A)) (col_starts (a :: A)) (index a) (newest b (index a) r) r0 r'.

Lemma row_inside b t x : b = X + t * (n * R) -> row_ends c X x = true -> (x - b + 1) mod n = 0.
Proof using Hrc.
  destruct (cfg c Hrc) as (Hn & _). intros -> [=Hx%Z.eqb_eq]. replace (x - (X + t * (n * R)) + 1) with (x - X + 1 + (- t * R) * n) by lia.
  by rewrite Z.mod_add by lia.
Qed.

Lemma col_inside b t x :
  b = X + t * (n * R) -> col_ends c X x = true ->
  2 <= R /\ (col_offset c ((x - b) mod n) <= x - b -> ((x - b - col_offset c ((x - b) mod n)) / n) mod R = R - 1).
Proof using Hrc.
  destruct (cfg c Hrc) as (Hn & HR & _). unfold col_ends. cbv zeta. intros -> Hx.
  apply andb_true_iff in Hx as [[H1 H2]%andb_true_iff H3]. apply Z.leb_le in H1. apply Z.eqb_eq in H3. split; [done|]. intros _.
  assert ((x - (X + t * (n * R))) mod n = (x - X) mod n) as ->.
  { replace (x - (X + t * (n * R))) with (x - X + (- t * R) * n) by lia. by rewrite Z.mod_add by lia. }
  set (o := col_offset c ((x - X) mod n)) in *. replace (x - (X + t * (n * R)) - o) with (x - X - o + (- t * R) * n) by lia.
  rewrite Z.div_add by lia. by rewrite Z.mod_add by lia.
Qed.

Lemma wp_receive_data b A D x p r :
  rcv_ok b A D r -> carries x p -> - 2 ^ 29 < x - b < limit ->
  wp (receive c p) (fun s r' => fst s = true /\ taken b A D (Data x) r r') r.
Proof using Hrc HP.
  destruct (cfg c Hrc) as (Hn & HR & Hb & _). destruct (limit_range c Hrc) as (Hlim & _).
  intros ([F Hinv] & Ereb & Hmk & _) Hc Hx. assert (Hc' := Hc). destruct Hc' as (Hseq & _ & _ & _ & Hnc).
  unfold receive. cbv zeta. rewrite Hseq. wstep. eapply wp_no_large_drop; [exact Hinv|done|].
  destruct (Z.eqb_spec (CPacket.getMsgSeq true p) SRT_MSGNO_CONTROL) as [|_]; [done|]. wstep. wstep.
  assert (Ecb := proj1 Hinv). rewrite Ecb, seqoff_seq_of by (unfold CSeqNo.m_iSeqNoTH; nia).
  assert (forall y, b <= y -> mk b (cells r) x = true \/ x < b -> bool_decide (y ∈ [x] ++ D) = bool_decide (y ∈ D)) as Hdup.
  { intros y Hy Hor. apply bool_decide_ext. rewrite elem_of_app, list_elem_of_singleton. split; [|by right]. intros [->|?]; [|done].
    destruct Hor as [Hm|?]; [|lia]. rewrite Hmk in Hm by done. by apply bool_decide_eq_true in Hm. }
  assert (mk b (cells r) x = true \/ x < b -> taken b A D (Data x) r r) as Hnothing.
  { intros Hor. exists r. split; [done|]. split; [intros y Hy; rewrite Hmk by done; symmetry; by apply Hdup|].
    apply took_nothing; [by exists F|]. unfold newest. lia. }
  destruct (Z.ltb_spec (x - b) 0); cbn [orb negb]; [wstep; split; [done|]; apply Hnothing; right; lia|]. rewrite andb_true_r.
  assert ((x - b <? Z.of_nat (length (cells r))) && default false (aget (cells r) (x - b)) = mk b (cells r) x) as ->.
  { unfold mk, aget. destruct (Z.leb_spec 0 (x - b)), (Z.leb_spec b x); try lia. cbn [andb].
    destruct (Z.ltb_spec (x - b) (Z.of_nat (length (cells r)))); [done|]. by rewrite lookup_ge_None_2 by lia. }
  destruct (mk b (cells r) x) eqn:Emk; [wstep; split; [done|]; apply Hnothing; by left|].
  wstep. eapply wp_mark; [exact Ecb|nia|]. intros cs Hcs. wstep. wstep. wstep.
  set (r0 := set_order _ _). assert (rinv b [x] (if R =? 1 then [] else [x]) None None F (row_starts A) (col_starts A) r0) as Hinv0.
  { destruct Hinv as (_ & (Hq & Hl) & Hcols & Hlt & _). split; [done|]. split; [split; [by eapply qinv_marks|done]|]. split; [|split].
    - destruct Hcols as [?|(HR2 & Hq2 & Hs)]; [by left|right]. split; [done|]. destruct (Z.eqb_spec R 1); [lia|].
      split; [by eapply qinv_marks|done].
    - intros y. cbn [cells r0 set_order set_cells]. rewrite Hcs. intros [Hy|Hy%Z.eqb_eq]%orb_true_iff; [by apply Hlt|lia].
    - intros y Hy. cbn [cells r0 set_order set_cells]. rewrite Hcs. assert (y = x) as ->; [|by rewrite Z.eqb_refl, orb_true_r].
      revert Hy. destruct (R =? 1); cbn [app]; [by intros ->%list_elem_of_singleton|]. intros [->|Hy]%elem_of_cons; [done|].
      by apply list_elem_of_singleton in Hy. }
  eapply wp_mono; [eapply (wp_hang_data b x); [exact Hc|lia|exact Hinv0]|]. cbv beta. intros l r' Ht. wstep. split; [done|]. exists r0.
  split; [done|]. split; [|exact Ht]. intros y Hy. cbn [cells r0 set_order set_cells data_of]. rewrite Hcs, Hmk by done.
  rewrite orb_comm. destruct (Z.eqb_spec y x) as [->|Hne]; cbn [orb]; symmetry; [apply bool_decide_eq_true; by left|].
  apply bool_decide_ext. rewrite elem_of_app, list_elem_of_singleton. tauto.
Qed.

(** A control packet, up to where it is hung. *)
Lemma wp_receive_control b A D x p idx r (Q : loss_seqs_t -> Receive -> Prop) :
  rcv_ok b A D r -> - 2 ^ 29 < x - b < limit -> CPacket.getSeqNo p = seq_of x -> CPacket.getMsgSeq true p = SRT_MSGNO_CONTROL ->
  head (CPacket.m_pcData p) = Some (u8 idx) ->
  (forall F r0, rinv b [] [] None None F (row_starts A) (col_starts A) r0 -> rebuilt r0 = rebuilt r -> marked b D r0 -> rowq r0 = rowq r ->
     wp (hang c p true (schar (u8 idx))) Q r0) ->
  wp (receive c p) (fun s r' => fst s = false /\ Q (snd s) r') r.
Proof using Hrc.
  destruct (cfg c Hrc) as (Hn & HR & Hb & _). destruct (limit_range c Hrc) as (Hlim & _).
  intros ([F Hinv] & Ereb & Hmk & _) Hx Hseq Hctl Hhd HQ. unfold receive. cbv zeta. rewrite Hseq. wstep.
  eapply wp_no_large_drop; [exact Hinv|done|]. rewrite Hctl, Z.eqb_refl. wstep. eapply wp_lift; [exact Hhd|]. wstep.
  eapply wp_extend; [exact (proj1 Hinv)|nia|]. intros cs Hcs. wstep.
  eapply wp_mono; [apply (HQ F); [by apply rinv_same|done| |done]|].
  - intros y Hy. cbn [cells set_cells]. rewrite Hcs. by apply Hmk.
  - cbv beta. intros l r' HQ'. wstep. done.
Qed.

Lemma wp_receive b A D a p r :
  rcv_ok b A D r -> arrives a p -> - 2 ^ 29 < index a - b < limit ->
  wp (receive c p) (fun s r' => fst s = (match a with Data _ => true | _ => false end) /\ taken b A D a r r') r.
Proof using Hrc HP.
  destruct (cfg c Hrc) as (Hn & HR & Hb & _). intros Hok Ha Hx. assert (H0 := Hok). destruct H0 as (_ & _ & _ & (t & Ht & Eb) & _).
  destruct a as [x|x|x]; cbn [index arrives] in *; [by apply wp_receive_data| |].
  - destruct Ha as (q & Hq & Hs). unfold row_due in Hq. destruct (row_ends c X x) eqn:Ee; [|by apply not_elem_of_nil in Hq].
    destruct (negb (m_cols_only c)); [|by apply not_elem_of_nil in Hq]. apply list_elem_of_singleton in Hq. subst q.
    destruct (control_clips _ _ _ _ Hs) as (Hseq & Hctl & Hhd & Hcl). pose proof (row_inside b t x Eb Ee) as Hend.
    apply (wp_receive_control b A D x p _ r (fun _ r' => taken b A D (RowControl x) r r') Hok Hx Hseq Hctl Hhd).
    intros F r0 Hinv Ereb Hmk Erow. change (schar (u8 (-1))) with (-1).
    destruct (Z.ltb_spec x b) as [Hpast|Hin].
    + eapply wp_hang_past; [exact Hseq|split; [|apply Z.lt_sub_0; exact Hpast]; lia|done|exact Hinv|]. intros _. exists r0. split; [done|]. split; [done|].
      cbn [row_starts col_starts omap list_omap]. apply took_nothing; [|unfold newest; rewrite Erow; lia]. exists F. apply rinv_past_row; [lia|done].
    + eapply wp_mono; [eapply (wp_hang_row b x); [done|done|done|lia|exact Hinv]|]. cbv beta. intros _ r' Htook. exists r0.
      split; [done|]. split; [done|]. unfold newest in *. rewrite Erow in Htook. exact Htook.
  - destruct Ha as (q & Hq & Hs). unfold col_due in Hq. destruct (col_ends c X x) eqn:Ee; [|by apply not_elem_of_nil in Hq].
    apply list_elem_of_singleton in Hq. subst q. destruct (col_inside b t x Eb Ee) as [HR2 Hend].
    destruct (control_clips _ _ _ _ Hs) as (Hseq & Hctl & Hhd & Hcl). pose proof (Z.mod_pos_bound (x - X) n ltac:(lia)) as Hm.
    assert (n <= 255) as Hn255 by (destruct Hrc as (_ & _ & H); by apply H).
    assert (schar (u8 ((x - X) mod n)) <> -1) as Hsc.
    { unfold schar. unfold u8. rewrite Z.mod_small by lia. destruct (Z.ltb_spec ((x - X) mod n) 128); lia. }
    apply (wp_receive_control b A D x p _ r (fun _ r' => taken b A D (ColControl x) r r') Hok Hx Hseq Hctl Hhd).
    intros F r0 Hinv Ereb Hmk Erow. destruct (Z.ltb_spec x b) as [Hpast|Hin].
    + eapply wp_hang_past; [exact Hseq|split; [|apply Z.lt_sub_0; exact Hpast]; lia|done|exact Hinv|]. intros _. exists r0. split; [done|]. split; [done|].
      cbn [row_starts col_starts omap list_omap]. apply took_nothing; [|unfold newest; rewrite Erow; lia]. exists F. apply rinv_past_col; [nia|done].
    + eapply wp_mono; [eapply (wp_hang_col b x); [done|exact Hsc|done|done|done|lia|exact Hinv]|]. cbv beta. intros _ r' Htook. exists r0.
      split; [done|]. split; [done|]. unfold newest in *. rewrite Erow in Htook. exact Htook.
Qed.

(** ** The states of the receiver *)

Lemma sort_perm l : sort_by_seq l ≡ₚ l.
Proof using Type.
  assert (forall p l, insert_by_seq p l ≡ₚ p :: l) as Hins.
  { intros p l0. induction l0 as [|q l0 IH]; cbn [insert_by_seq]; [done|]. destruct (_ <? 0); [done|]. rewrite IH. constructor. }
  induction l as [|p l IH]; [done|]. change (sort_by_seq (p :: l)) with (insert_by_seq p (sort_by_seq l)). by rewrite Hins, IH.
Qed.

(** The index next to [b] that has sequence number [s]. *)
Definition near (b s : Z) : Z := b + CSeqNo.seqoff (seq_of b) s.

Lemma near_eq b x : Z.abs (x - b) < 2 ^ 30 - 1 -> near b (seq_of x) = x.
Proof using Type. intros H. unfold near. rewrite seqoff_seq_of by (unfold CSeqNo.m_iSeqNoTH; lia). lia. Qed.

(** The packets, and the packet at [b], after what arrived. *)
Inductive reach : Z -> list arrival -> list Z -> Receive -> Prop :=
| reach_init : reach X [] [] (init_receive c (seq_of (X - 1)))
| reach_step b A D r a p out loss r' :
    reach b A D r -> arrives a p -> - 2 ^ 29 < index a - b < limit ->
    PacketFilter_receive c p r = Some ((out, loss), r') ->
    reach (near b (cell_base r')) (a :: A) (map (fun q => near b (CPacket.getSeqNo q)) out ++ D) r'.


Lemma tail_range b b' x r r' :
  - 2 ^ 29 < x - b < limit -> Z.of_nat (length (rowq r)) <= 9 * R + 6 -> b <= b' -> tail b b' x (newest b x r) r' -> b' - b <= 15 * (n * R).
Proof using Hrc.
  destruct (cfg c Hrc) as (Hn & HR & Hb & _). destruct (limit_range c Hrc) as (_ & _ & _ & Hlim1). intros Hx Hl Hbb [T1 T2].
  destruct (Z.eq_dec R 1) as [E1|E1].
  - destruct (T2 E1) as (k & -> & Hk & _). specialize (Hlim1 E1). unfold newest in Hk.
    assert ((x - b) / n <= 5) by (apply Z.lt_succ_r, Z.div_lt_upper_bound; lia).
    assert (Z.of_nat k <= 15) by lia. unfold FecGroups.rowz. rewrite E1. nia.
  - destruct (T1 ltac:(lia)) as [->|[-> _]]; nia.
Qed.

(** The first packet never passes the newest one. *)
Lemma tail_newest b b' A a r r' :
  (R = 1 -> Z.of_nat (length (rowq r)) = 1 \/ exists a, a ∈ A /\ b + (Z.of_nat (length (rowq r)) - 1) * n <= index a) ->
  0 < Z.of_nat (length (rowq r')) -> tail b b' (index a) (newest b (index a) r) r' ->
  (R = 1 -> Z.of_nat (length (rowq r')) = 1 \/ exists a', a' ∈ a :: A /\ b' + (Z.of_nat (length (rowq r')) - 1) * n <= index a')
  /\ (b' = b \/ exists a', a' ∈ a :: A /\ b' <= index a').
Proof using Hrc.
  destruct (cfg c Hrc) as (Hn & HR & _). intros Hold Hpos [T1 T2]. destruct (Z.eq_dec R 1) as [E1|E1].
  - destruct (T2 E1) as (k & -> & Hk & Hor). specialize (Hold E1).
    assert (Z.of_nat (length (rowq r')) = 1 /\ k = 0%nat
            \/ exists a', a' ∈ a :: A /\ rowz b k + (Z.of_nat (length (rowq r')) - 1) * n <= index a') as Hnew.
    { unfold newest in Hk. unfold FecGroups.rowz.
      destruct (Z.max_spec (Z.of_nat (length (rowq r))) ((index a - b) / n + 1)) as [[_ Em]|[_ Em]]; rewrite Em in Hk.
      - right. exists a. split; [by left|]. pose proof (Z.mul_div_le (index a - b) n ltac:(lia)). nia.
      - destruct Hold as [Hone|(a' & Ha' & Hle)]; [left; lia|right]. exists a'. split; [by right|nia]. }
    destruct Hnew as [[-> ->]|(a' & Ha' & Hle)].
    + split; [by left|left]. unfold FecGroups.rowz. lia.
    + split; [intros _; right; by exists a'|]. right. exists a'. split; [done|]. nia.
  - split; [done|]. destruct (T1 ltac:(lia)) as [->|[-> Hle]]; [by left|right]. exists a. split; [by left|done].
Qed.

Lemma tail_aligned b b' x L r' : tail b b' x L r' -> (exists t, 0 <= t /\ b = X + t * (n * R)) -> exists t, 0 <= t /\ b' = X + t * (n * R).
Proof using Hrc.
  destruct (cfg c Hrc) as (Hn & HR & _). intros [T1 T2] (t & Ht & ->). destruct (Z.eq_dec R 1) as [E1|E1].
  - destruct (T2 E1) as (k & -> & _). exists (t + Z.of_nat k). unfold FecGroups.rowz. rewrite E1. lia.
  - destruct (T1 ltac:(lia)) as [->|[-> _]]; [by exists t|exists (t + 1); lia].
Qed.

(** What is passed on, but for the order. *)
Definition passes (b : Z) (D : list Z) (a : arrival) (p : CPacket.t) (out : list CPacket.t) : Prop :=
  exists ms qs, out ≡ₚ (match a with Data _ => [p] | _ => [] end) ++ qs /\ Forall2 (reproduces P) ms qs /\ NoDup ms
    /\ forall m, m ∈ ms -> b <= m /\ m ∉ data_of a ++ D.

Lemma passes_indices b (ms : list Z) qs :
  (forall m, m ∈ ms -> Z.abs (m - b) < 2 ^ 30 - 1) -> Forall2 (reproduces P) ms qs -> map (fun q => near b (CPacket.getSeqNo q)) qs = ms.
Proof using Type.
  intros Hn Hf. induction Hf as [|m q ms qs Hr _ IH]; [done|]. cbn [map]. rewrite IH by (intros y Hy; apply Hn; by right).
  destruct Hr as [-> _]. rewrite near_eq; [done|]. apply Hn. by left.
Qed.

Lemma filter_receive b A D a p r :
  rcv_ok b A D r -> arrives a p -> - 2 ^ 29 < index a - b < limit ->
  exists out loss r', PacketFilter_receive c p r = Some ((out, loss), r') /\ passes b D a p out
    /\ let b' := near b (cell_base r') in
       b <= b' /\ rcv_ok b' (a :: A) (map (fun q => near b (CPacket.getSeqNo q)) out ++ D) r'
       /\ (b' = b \/ exists a', a' ∈ a :: A /\ b' <= index a').
Proof using Hrc HP.
  destruct (cfg c Hrc) as (Hn & HR & Hb & _). destruct (limit_range c Hrc) as (Hlim & _). intros Hok Ha Hx.
  destruct (wp_receive b A D a p r Hok Ha Hx) as ([want loss] & r1 & Erun & Ewant & r0 & Ereb0 & Hmk0 & b' & r2 & [F' Hinv1] & Hgrew & Hmoved & Htail).
  destruct Hok as ([F Hinv] & Ereb & Hmk & Halign & Hnew). cbn [fst] in Ewant. subst want.
  destruct Hgrew as (ms & qs & Eqs & Hrep & Hmk2 & Hun & Hnd). destruct Hmoved as (Hbb & Ereb1 & Hmk1).
  rewrite Ereb0, Ereb in Eqs. cbn [app] in Eqs. rewrite Eqs in Ereb1.
  assert (b' - b <= 15 * (n * R)) as Hrange.
  { eapply tail_range; [exact Hx| |done|exact Htail]. destruct Hinv as (_ & (_ & Hl) & _). lia. }
  assert (0 < Z.of_nat (length (rowq r1))) as Hpos by (destruct Hinv1 as (_ & (_ & Hl) & _); lia).
  destruct (tail_newest _ _ _ _ _ _ Hnew Hpos Htail) as [Hnew' Hback].
  set (out := sort_by_seq ((match a with Data _ => [p] | _ => [] end) ++ map insert_rebuilt qs)).
  set (r' := set_rebuilt [] r1). exists out, loss, r'.
  assert (near b (cell_base r') = b') as Eb'.
  { unfold r'. cbn [cell_base set_rebuilt]. destruct Hinv1 as [-> _]. apply near_eq. lia. }
  assert (forall m, m ∈ ms -> b <= m < b + 2 ^ 29 /\ m ∉ data_of a ++ D) as Hms.
  { intros m Hm. assert (mk b (cells r2) m = true) as Hm2 by (rewrite Hmk2; apply orb_true_iff; right; by apply bool_decide_eq_true).
    pose proof (mk_ge _ _ _ Hm2) as Hge. split.
    - split; [done|]. destruct (Z.leb_spec b' m) as [Hle|]; [|nia]. rewrite <- Hmk1 in Hm2 by done.
      destruct Hinv1 as (_ & _ & _ & Hlt & _). specialize (Hlt m Hm2). nia.
    - specialize (Hun m Hm). rewrite Hmk0 in Hun by done. by apply bool_decide_eq_false in Hun. }
  assert (Forall2 (reproduces P) ms (map insert_rebuilt qs)) as Hrep'.
  { apply Forall2_fmap_r. exact Hrep. }
  assert (map (fun q => near b (CPacket.getSeqNo q)) out ≡ₚ data_of a ++ ms) as Hperm.
  { unfold out. rewrite sort_perm, map_app. rewrite (passes_indices b ms (map insert_rebuilt qs)); [|intros m Hm; destruct (Hms m Hm); lia|exact Hrep'].
    apply Permutation_app_tail. destruct a as [x| |]; [|done|done]. cbn [map data_of arrives index] in *.
    destruct Ha as [-> _]. rewrite near_eq by nia. done. }
  split; [|split; [|cbv zeta; rewrite Eb'; split; [done|]; split; [|done]]].
  - unfold PacketFilter_receive, mbind, RM_bind. rewrite Erun. cbn. rewrite Ereb1. unfold out, r'. by destruct a.
  - exists ms, (map insert_rebuilt qs). split; [apply sort_perm|]. split; [done|]. split; [done|]. intros m Hm. destruct (Hms m Hm). split; [lia|done].
  - split; [exists F'; exact Hinv1|]. split; [done|]. split; [|split; [by eapply tail_aligned|exact Hnew']].
    intros y Hy. cbn [cells r' set_rebuilt]. rewrite Hmk1, Hmk2, Hmk0 by lia. rewrite <- bool_decide_or. apply bool_decide_ext.
    rewrite !elem_of_app, Hperm, elem_of_app. tauto.
Qed.

(** ** The initial state *)

Lemma qinv_new b zf st N (k : nat) st' d cs F :
  (forall y, mk b cs y = false) ->
  qinv c P b zf st N cs [] None F [] (map (fun i => rcv_group (ConfigureGroup c fresh (seq_of (zf i)) st' d)) (seq 0 k)).
Proof using Type.
  intros Hm. pose proof (qinv_extend c P b zf st N F [] cs [] None [] k d st') as Hext. cbn [length app Nat.add] in Hext. apply Hext.
  split; [|split; [|split]].
  - split; [intros j g Hj; by rewrite lookup_nil in Hj|]. intros y j Hy. by rewrite Hm in Hy.
  - intros j g Hj. by rewrite lookup_nil in Hj.
  - intros j g Hj. by rewrite lookup_nil in Hj.
  - intros z Hz. by apply not_elem_of_nil in Hz.
Qed.

Lemma rcv_ok_init : rcv_ok X [] [] (init_receive c (seq_of (X - 1))).
Proof using Hrc.
  destruct (cfg c Hrc) as (Hn & HR & _). unfold init_receive. cbv zeta. rewrite incseq_seq_of. replace (X - 1 + 1) with X by lia.
  assert (forall y, mk X (replicate (Z.to_nat (sizeCol c * sizeRow c)) false) y = false) as Hm.
  { intros y. unfold mk. destruct (X <=? y); [|done]. cbn [andb]. destruct (replicate _ _ !! _) as [v|] eqn:Ev; [|done].
    by apply lookup_replicate in Ev as [-> _]. }
  split; [|split; [done|split; [|split; [exists 0; lia|by left]]]].
  - exists []. split; [done|]. split; [|split; [|split]].
    + split; [|cbn; lia]. pose proof (qinv_new X (rowz X) 1 n 1 1 (sizeRow c) _ [] Hm) as Hq. cbn [seq map] in Hq.
      assert (rowz X 0 = X) as E by (unfold FecGroups.rowz; lia). rewrite E in Hq. exact Hq.
    + cbn [colq]. replace (sizeCol c >? 1) with (1 <? R) by (symmetry; apply Z.gtb_ltb). destruct (Z.ltb_spec 1 R) as [HR2|]; [right|left; split; [lia|done]].
      split; [lia|]. rewrite (ConfigureColumns_state c (proj1 Hrc)) by lia. rewrite map_map. split.
      * rewrite (map_ext_in _ (fun i => rcv_group (ConfigureGroup c fresh (seq_of (colz X i)) (sizeRow c) (sizeCol c * n)))).
        { by apply (qinv_new X (colz X)). }
        intros i Hi%in_seq. cbv beta. do 3 f_equal. unfold FecGroups.colz. rewrite Z.mod_small, Z.div_small by lia. lia.
      * exists 1. rewrite length_map, length_seq. lia.
    + intros y. cbn [cells]. by rewrite Hm.
    + intros y Hy. by apply not_elem_of_nil in Hy.
  - intros y Hy. cbn [cells]. by rewrite Hm.
Qed.

Lemma reach_ok b A D r : reach b A D r -> rcv_ok b A D r.
Proof using Hrc HP.
  induction 1 as [|b A D r a p out loss r' _ IH Ha Hx E]; [apply rcv_ok_init|].
  destruct (filter_receive _ _ _ _ _ _ IH Ha Hx) as (out' & loss' & r'' & E' & _ & _ & Hok & _). rewrite E in E'.
  injection E' as <- <- <-. exact Hok.
Qed.

End Receive.
