(* ===== verification/FecProps.v ===== *)
(** * Theorems on the packet filter

    The sender puts on the wire the packets and, after the last packet of each row
    and column, the clip of exactly its packets; the receiver rebuilds exactly what
    was lost, and leaves no row or column that lacks one packet. *)

From S2P Require Import Prelude SeqNo Packet Fec FecSpec FecSend FecRcv FecGroups FecRebuild FecHang FecReceive.

Import FEC.

(** Packets that arrive one after another: what is passed on and the losses
    reported. *)
Fixpoint rcv_run (c : config) (l : list CPacket.t) (r : Receive) : option (list CPacket.t * loss_seqs_t * Receive) :=
  match l with
  | [] => Some ([], [], r)
  | p :: l' =>
    s ← PacketFilter_receive c p r;
    let '(out, loss, r) := s in
    s' ← rcv_run c l' r;
    let '(out', loss', r') := s' in
    Some (out ++ out', loss ++ loss', r')
  end.

(** ** A stream *)

Definition sample (x : Z) : CPacket.t :=
  CPacket.mk (seq_of x) (Z.lor (PacketBoundaryBits PB_SOLO) 7) ((1000 + 7 * x) mod 2 ^ 32) 5
    (if Z.even x then [x mod 256; 17; 99] else [x mod 256; 200]).

Definition row_config : config := mkConfig 4 1 false true SRT_ARQ_ONREQ 77 6 8192.
Definition matrix_config : config := mkConfig 3 2 false true SRT_ARQ_ONREQ 77 6 8192.

Lemma sample_ok c : 6 <= payloadSize c -> stream_ok c sample.
Proof.
  intros Hp x. pose proof (seq_of_valid x) as V. seq_facts. split; [|split; [done|split; [done|]]].
  - unfold CPacket.wf, sample. cbn [CPacket.ph_seqno CPacket.ph_msgno CPacket.ph_timestamp CPacket.ph_id CPacket.m_pcData].
    split; [unfold is_u32; lia|]. split; [done|]. split; [apply Z.mod_pos_bound; lia|]. split; [done|].
    assert (is_byte (x mod 256)) by (unfold is_byte; apply Z.mod_pos_bound; lia). destruct (Z.even x); (repeat apply Forall_cons; repeat split; try done; try apply Forall_nil; unfold is_byte in *; lia).
  - unfold CPacket.getLength, sample. cbn. destruct (Z.even x); cbn; lia.
Qed.

Lemma row_config_ok : rcv_config_ok row_config.
Proof. repeat split; cbn; unfold SRT_LIVE_MAX_PLSIZE; try lia; done. Qed.

Lemma matrix_config_ok : rcv_config_ok matrix_config.
Proof. repeat split; cbn; unfold SRT_LIVE_MAX_PLSIZE; try lia; done. Qed.

(** ** The sender *)

Lemma wire_control c P X kflg K x q :
  X <= x < X + K -> q ∈ due c P X kflg x -> q ∈ wire c P X kflg K.
Proof.
  intros Hx Hq. unfold wire. apply list_elem_of_In, in_concat. exists (P x :: due c P X kflg x).
  split; [|apply list_elem_of_In; by right]. apply in_map_iff. exists x. split; [done|]. apply list_elem_of_In, elem_of_seqZ. lia.
Qed.

Lemma row_control_due c P X kflg j :
  config_ok c -> m_cols_only c = false ->
  control kflg (-1) (X + j * m_number_cols c + m_number_cols c - 1) (sum c P (gidx (X + j * m_number_cols c) 1 (m_number_cols c)))
    ∈ due c P X kflg (X + j * m_number_cols c + m_number_cols c - 1).
Proof.
  intros (Hn & _) Hco. set (n := m_number_cols c) in *. apply elem_of_app. right. unfold row_due, row_ends. rewrite Hco.
  replace (X + j * n + n - 1 - X + 1) with ((j + 1) * n) by lia. fold n. rewrite Z.mod_mul by lia. cbn [Z.eqb andb negb].
  apply list_elem_of_singleton. do 3 f_equal. lia.
Qed.

Lemma col_control_due c P X kflg i t :
  let n := m_number_cols c in let R := m_number_rows c in let z := X + col_offset c i + t * (R * n) in
  config_ok c -> 2 <= R -> 0 <= i < n -> 0 <= t ->
  control kflg i (z + n * (R - 1)) (sum c P (gidx z n R)) ∈ due c P X kflg (z + n * (R - 1)).
Proof.
  cbv zeta. intros Hc HR Hi Ht. destruct (col_offset_range c Hc i Hi) as [Ho Hom]. destruct Hc as (Hn & _).
  set (n := m_number_cols c) in *. set (R := m_number_rows c) in *. set (o := col_offset c i) in *.
  apply elem_of_app. left. unfold col_due, col_ends. fold n R.
  replace (X + o + t * (R * n) + n * (R - 1) - X) with (o + (t * R + (R - 1)) * n) by lia. rewrite Z.mod_add, Hom by lia. fold o.
  replace (o + (t * R + (R - 1)) * n - o) with ((t * R + (R - 1)) * n) by lia. rewrite Z.div_mul by lia.
  rewrite (Z.add_comm (t * R)), Z.mod_add, Z.mod_small, Z.eqb_refl by lia.
  destruct (Z.leb_spec 2 R); [|lia]. destruct (Z.leb_spec o (o + (R - 1 + t * R) * n)); [|nia]. cbn [andb].
  apply list_elem_of_singleton. do 3 f_equal. lia.
Qed.

(** C12: The sender of the packet filter, called by [packData] again and again for a
    stream of packets, sends the packets in order and, after the last packet of a
    column or a row, the control packet with that packet's sequence number and the
    clip of exactly the packets of this column or row; every row and every column
    that is complete has had its control packet, columns only if so configured. No
    access is out of range, wherever the sequence numbers wrap around. *)
Theorem fec_sender_exact c P X kflg (K : nat) :
  config_ok c -> stream_ok c P ->
  let n := m_number_cols c in let R := m_number_rows c in let w := wire c P X kflg (Z.of_nat K) in
  (exists rp s, send_calls c P kflg (length w) X (mkPacket 0 0 0 0 [] 0) (init_send c (seq_of (X - 1))) = Some (w, X + Z.of_nat K, rp, s))
  /\ (forall j, 0 <= j -> (j + 1) * n <= Z.of_nat K -> m_cols_only c = false ->
        control kflg (-1) (X + j * n + n - 1) (sum c P (gidx (X + j * n) 1 n)) ∈ w)
  /\ (forall i t, let z := X + col_offset c i + t * (R * n) in
        2 <= R -> 0 <= i < n -> 0 <= t -> z + n * (R - 1) < X + Z.of_nat K ->
        control kflg i (z + n * (R - 1)) (sum c P (gidx z n R)) ∈ w).
Proof.
  intros Hc HP. cbv zeta. assert (Hc' := Hc). destruct Hc' as (Hn & HR & _). split; [|split].
  - destruct (send_wire c P Hc HP X kflg K) as (rp & s & E & _). by exists rp, s.
  - intros j Hj Hle Hco. eapply wire_control; [|by apply row_control_due]. nia.
  - intros i t HR2 Hi Ht Hlt. eapply wire_control; [|by apply col_control_due].
    destruct (col_offset_range c Hc i Hi). split; [nia|done].
Qed.

Lemma fec_sender_exact_witness :
  let w := wire matrix_config sample (2 ^ 31 - 2) 0 9 in
  (exists rp s, send_calls matrix_config sample 0 (length w) (2 ^ 31 - 2) (mkPacket 0 0 0 0 [] 0) (init_send matrix_config (seq_of (2 ^ 31 - 3)))
                = Some (w, 2 ^ 31 + 7, rp, s))
  /\ control 0 0 (2 ^ 31 + 1) (sum matrix_config sample [2 ^ 31 - 2; 2 ^ 31 + 1]) ∈ w.
Proof.
  destruct (fec_sender_exact matrix_config sample (2 ^ 31 - 2) 0 9 (proj1 matrix_config_ok) (sample_ok matrix_config ltac:(cbn; lia)))
    as (H1 & _ & H3).
  split; [exact H1|]. exact (H3 0 0 ltac:(by vm_compute) ltac:(by split; vm_compute) ltac:(lia) ltac:(by vm_compute)).
Defined.

(** ** The receiver *)

(** A row, or column, [z] with a packet not in [D] has another one. *)
Definition two_lost (D : list Z) (z st N : Z) : Prop :=
  forall m, m ∈ gidx z st N -> m ∉ D -> exists m', m' ∈ gidx z st N /\ m' <> m /\ m' ∉ D.

Lemma marked_iff b D r y : marked b D r -> b <= y -> (y ∈ D <-> mk b (cells r) y = true).
Proof. intros Hm Hy. rewrite Hm by done. by rewrite bool_decide_eq_true. Qed.

Lemma settled_two_lost c P b zf st N F H D r q z :
  marked b D r -> 1 <= N -> 0 < st -> qinv c P b zf st N (cells r) [] None F H q -> z ∈ H -> b <= z -> two_lost D z st N.
Proof.
  intros Hm HN Hst Hq Hz Hb m Hin Hnot.
  assert (forall y, y ∈ gidx z st N -> b <= y) as Hge by (intros y (i & Hi & ->)%elem_of_gidx; nia).
  destruct (qinv_two_lost c P b zf st N F H HN (cells r) q z m Hq Hz Hb Hin) as (m' & Hin' & Hne & Hu); [|lia|].
  - destruct (mk b (cells r) m) eqn:E; [|done]. exfalso. apply Hnot. apply (marked_iff b D r m Hm); [by apply Hge|done].
  - exists m'. split; [done|]. split; [done|]. rewrite (marked_iff b D r m' Hm) by (by apply Hge). congruence.
Qed.


(** The states after a list of arrivals, each within the bounds of [reach]. *)
Fixpoint reach_run (c : config) (b : Z) (A : list arrival) (D : list Z) (r : Receive) (l : list (arrival * CPacket.t))
    : option (Z * list arrival * list Z * Receive) :=
  match l with
  | [] => Some (b, A, D, r)
  | (a, p) :: l' =>
    if (- 2 ^ 29 <? index a - b) && (index a - b <? limit c) then
      s ← PacketFilter_receive c p r;
      let '(out, _, r') := s in
      reach_run c (near b (cell_base r')) (a :: A) (map (fun q => near b (CPacket.getSeqNo q)) out ++ D) r' l'
    else None
  end.

Lemma reach_run_ok c P X kflg l b A D r s :
  reach c P X kflg b A D r -> Forall (fun x => arrives c P X kflg (fst x) (snd x)) l -> reach_run c b A D r l = Some s ->
  let '(b', A', D', r') := s in reach c P X kflg b' A' D' r'.
Proof.
  intros Hr Hl. revert b A D r Hr. induction Hl as [|[a p] l Ha _ IH]; intros b A D r Hr E; cbn [reach_run] in E; [by injection E as <-|].
  destruct (Z.ltb_spec (- 2 ^ 29) (index a - b)), (Z.ltb_spec (index a - b) (limit c)); try done. cbn [andb] in E.
  destruct (PacketFilter_receive c p r) as [[[out loss] r']|] eqn:Er; [|done]. cbn in E. eapply IH; [|exact E].
  eapply reach_step; [exact Hr|exact Ha|lia|exact Er].
Qed.

Lemma carries_sample x : carries sample x (sample x).
Proof. split; [apply (packet_seqno matrix_config), sample_ok; cbn; lia|]. done. Qed.

(** In a matrix of two rows of three packets, packets 0 to 3 have come and the
    control packet of the second row; packets 4 and 5 have not. *)
Definition four_of_six : list (arrival * CPacket.t) :=
  let X := 2 ^ 31 - 2 in
  [(Data X, sample X); (Data (X + 1), sample (X + 1)); (Data (X + 2), sample (X + 2)); (Data (X + 3), sample (X + 3));
   (RowControl (X + 5), control 0 (-1) (X + 5) (sum matrix_config sample (gidx (X + 3) 1 3)))].

Lemma four_of_six_arrive : Forall (fun x => arrives matrix_config sample (2 ^ 31 - 2) 0 (fst x) (snd x)) four_of_six.
Proof.
  unfold four_of_six. do 4 (constructor; [apply carries_sample|]). constructor; [|constructor].
  eexists. split; [|repeat split]. apply list_elem_of_singleton. reflexivity.
Qed.


