(* ===== verification/SrtlaRec.v ===== *)
(** * The SRTLA receiver (srtcore/srtla_rec.h, srtla_rec.cpp: [SrtlaRec])

    The demultiplexer below SRT: it registers groups of links (REG1, REG2,
    REG3), lets SRT traffic of registered links pass, acknowledges it per link,
    echoes keepalives, fans feedback out and forgets idle links and groups.

    - An address is its family with the address and port bytes as stored, which
      is what [sockaddr_any]'s equality and [AddrLess] look at.
    - [Group*] and [Link*] are the identities [g_ptr], [l_ptr] given at creation;
      following a pointer whose object is gone is undefined behaviour in the
      source and [None] here.
    - Clock readings and random bytes are arguments; datagrams given to the
      channel are the outputs, in order.
    - [std::vector<bool> sn_window] is the set of its indices that are [true]. *)

From S2P Require Import Prelude Packet Float64.

Module SrtlaRec.

(** ** Constants *)

Definition SRTLA_ID_LEN : nat := 256.
Definition SRTLA_ID_HALF : nat := 128.
Definition REG_LEN : Z := 258.
Definition MIN_PAD : nat := 32.
Definition SRT_MIN_LEN : Z := 16.
Definition RECV_ACK_INT : Z := 10.
Definition ACK_FLUSH_US : Z := 10000.
Definition MAX_CONNS_PER_GROUP : nat := 16.
Definition MAX_GROUPS : nat := 200.
Definition NAK_FANOUT : nat := 2.
Definition LINK_FRESH_US : Z := 1000000.
Definition LINK_PASS_US : Z := 2000.
Definition SN_WINDOW_SIZE : Z := 65536.
Definition SN_WINDOW_MASK : Z := SN_WINDOW_SIZE - 1.
Definition T_KEEPALIVE : Z := 0x9000.
Definition T_SRTLA_ACK : Z := 0x9100.
Definition T_REG1 : Z := 0x9200.
Definition T_REG2 : Z := 0x9201.
Definition T_REG3 : Z := 0x9202.
Definition T_REG_ERR : Z := 0x9210.
Definition T_REG_NGP : Z := 0x9211.

Definition EWMA_INV_TAU : F64.t := F64.div F64.one (F64.of_Z 1000000).

(** [count_milliseconds], [count_microseconds] of a duration in microseconds. *)
Definition count_milliseconds (d : Z) : Z := Z.quot d 1000.
Definition count_microseconds (d : Z) : Z := d.

(** ** State *)

(** Family, address bytes, port bytes (network order, as stored). *)
Definition sockaddr : Type := Z * list Z * list Z.
Definition AF_INET : Z := 2.

Record Link := mkLink {
  l_ptr : nat;
  addr : sockaddr;
  last_rcvd : Z; established : Z; recovery_start : Z; last_keepalive : Z; recovering : bool;
  ack_log : list Z; ack_count : Z; ack_first_pending : Z;
  connectionId : Z;
  recv_acc : F64.t; unique_acc : F64.t; rate_last : Z; rate_init : bool;
  transit_ewma : F64.t; last_transit : Z; transit_valid : bool;
  jitter_ewma : F64.t; prev_transit : Z; have_prev_transit : bool
}.

Record Group := mkGroup {
  g_ptr : nat;
  id : list Z;
  links : list Link;
  socket_id : Z; bound : bool; created_at : Z;
  last_addr : sockaddr; has_last_addr : bool; data_seen : bool;
  sn_window : gset Z; sn_max : Z; sn_valid : bool;
  ts_init : bool; ts_last_raw : Z; sender_ts_acc : Z; arrival_ref : Z
}.

Record state := mkState {
  m_Groups : list Group;
  m_LinkMap : gmap sockaddr (nat * nat);
  m_EgressMap : gmap sockaddr nat;
  m_LastCleanup : Z; m_LastLinkPass : Z; m_HaveTimers : bool;
  next_ptr : nat
}.

Definition create : state := mkState [] ∅ ∅ 0 0 false 0.

(** What the channel is told to send: raw bytes, or an SRT packet. *)
Inductive output := SendRaw (dst : sockaddr) (bytes : list Z) | SendTo (dst : sockaddr) (pkt : CPacket.t).

Inductive Ingress := SRTLA_DROP | SRTLA_PASS.

(** ** Field updates *)

Definition no_addr : sockaddr := (0, [], []).

Definition set_links (ls : list Link) (g : Group) : Group :=
  mkGroup (g_ptr g) (id g) ls (socket_id g) (bound g) (created_at g) (last_addr g) (has_last_addr g) (data_seen g)
    (sn_window g) (sn_max g) (sn_valid g) (ts_init g) (ts_last_raw g) (sender_ts_acc g) (arrival_ref g).

Definition set_last_addr (a : sockaddr) (g : Group) : Group :=
  mkGroup (g_ptr g) (id g) (links g) (socket_id g) (bound g) (created_at g) a true (data_seen g)
    (sn_window g) (sn_max g) (sn_valid g) (ts_init g) (ts_last_raw g) (sender_ts_acc g) (arrival_ref g).

Definition set_data_seen (g : Group) : Group :=
  mkGroup (g_ptr g) (id g) (links g) (socket_id g) (bound g) (created_at g) (last_addr g) (has_last_addr g) true
    (sn_window g) (sn_max g) (sn_valid g) (ts_init g) (ts_last_raw g) (sender_ts_acc g) (arrival_ref g).

Definition set_window (win : gset Z) (mx : Z) (g : Group) : Group :=
  mkGroup (g_ptr g) (id g) (links g) (socket_id g) (bound g) (created_at g) (last_addr g) (has_last_addr g) (data_seen g)
    win mx true (ts_init g) (ts_last_raw g) (sender_ts_acc g) (arrival_ref g).

Definition set_sender_ts (raw acc ref : Z) (g : Group) : Group :=
  mkGroup (g_ptr g) (id g) (links g) (socket_id g) (bound g) (created_at g) (last_addr g) (has_last_addr g) (data_seen g)
    (sn_window g) (sn_max g) (sn_valid g) true raw acc ref.

Definition set_bound (sock : Z) (g : Group) : Group :=
  mkGroup (g_ptr g) (id g) (links g) sock true (created_at g) (last_addr g) (has_last_addr g) (data_seen g)
    (sn_window g) (sn_max g) (sn_valid g) (ts_init g) (ts_last_raw g) (sender_ts_acc g) (arrival_ref g).

Definition set_liveness (rcvd start keepalive : Z) (rec : bool) (l : Link) : Link :=
  mkLink (l_ptr l) (addr l) rcvd (established l) start keepalive rec (ack_log l) (ack_count l) (ack_first_pending l)
    (connectionId l) (recv_acc l) (unique_acc l) (rate_last l) (rate_init l) (transit_ewma l) (last_transit l)
    (transit_valid l) (jitter_ewma l) (prev_transit l) (have_prev_transit l).

Definition set_rate (racc uacc : F64.t) (last : Z) (l : Link) : Link :=
  mkLink (l_ptr l) (addr l) (last_rcvd l) (established l) (recovery_start l) (last_keepalive l) (recovering l) (ack_log l)
    (ack_count l) (ack_first_pending l) (connectionId l) racc uacc last true (transit_ewma l) (last_transit l)
    (transit_valid l) (jitter_ewma l) (prev_transit l) (have_prev_transit l).

Definition set_unique (uacc : F64.t) (l : Link) : Link :=
  mkLink (l_ptr l) (addr l) (last_rcvd l) (established l) (recovery_start l) (last_keepalive l) (recovering l) (ack_log l)
    (ack_count l) (ack_first_pending l) (connectionId l) (recv_acc l) uacc (rate_last l) (rate_init l) (transit_ewma l)
    (last_transit l) (transit_valid l) (jitter_ewma l) (prev_transit l) (have_prev_transit l).

Definition set_transit (tr : F64.t) (last : Z) (jit : F64.t) (prev : Z) (l : Link) : Link :=
  mkLink (l_ptr l) (addr l) (last_rcvd l) (established l) (recovery_start l) (last_keepalive l) (recovering l) (ack_log l)
    (ack_count l) (ack_first_pending l) (connectionId l) (recv_acc l) (unique_acc l) (rate_last l) (rate_init l) tr last
    true jit prev true.

Definition set_ack (log : list Z) (n first : Z) (l : Link) : Link :=
  mkLink (l_ptr l) (addr l) (last_rcvd l) (established l) (recovery_start l) (last_keepalive l) (recovering l) log n first
    (connectionId l) (recv_acc l) (unique_acc l) (rate_last l) (rate_init l) (transit_ewma l) (last_transit l)
    (transit_valid l) (jitter_ewma l) (prev_transit l) (have_prev_transit l).

Definition set_groups (gs : list Group) (s : state) : state :=
  mkState gs (m_LinkMap s) (m_EgressMap s) (m_LastCleanup s) (m_LastLinkPass s) (m_HaveTimers s) (next_ptr s).

(** ** Utilities *)

Definition store_be16 (v : Z) : list Z := [u8 (Z.shiftr v 8); u8 v].
Definition store_be32 (v : Z) : list Z := [u8 (Z.shiftr v 24); u8 (Z.shiftr v 16); u8 (Z.shiftr v 8); u8 v].

Definition peekType (p : CPacket.t) : Z := Z.land (Z.shiftr (CPacket.ph_seqno p) 16) 0xFFFF.

Fixpoint be_words (n : nat) (data : list Z) : list Z :=
  match n, data with
  | S n', b0 :: b1 :: b2 :: b3 :: rest => store_be32 (le_word b0 b1 b2 b3) ++ be_words n' rest
  | _, _ => data
  end.

(** [rebuildWire]: the datagram, [None] where the source returns 0. *)
Definition rebuildWire (p : CPacket.t) (outcap : Z) : option (list Z) :=
  let plen := CPacket.getLength p in
  if plen >? outcap then None
  else if 16 + plen >? outcap then None
  else
    Some (store_be32 (CPacket.ph_seqno p) ++ store_be32 (CPacket.ph_msgno p)
          ++ store_be32 (CPacket.ph_timestamp p) ++ store_be32 (CPacket.ph_id p)
          ++ (if CPacket.isControl p then be_words (Z.to_nat (plen / 4)) (CPacket.m_pcData p)
              else CPacket.m_pcData p)).

Definition fnv_step (hash byte : Z) : Z := u32 (Z.lxor hash byte * 0x01000193).

Definition fnv1a (a : sockaddr) : Z :=
  let '(family, bytes, port) := a in
  foldl fnv_step 0x811c9dc5 (bytes ++ port).

Definition ctEqual (a b : list Z) (n : nat) : bool :=
  foldl (fun diff '(x, y) => Z.lor diff (u8 (Z.lxor x y))) 0 (take n (zip a b)) =? 0.

(** ** Lookups *)

Definition findLink (s : state) (src : sockaddr) : option (nat * nat) := m_LinkMap s !! src.

Definition findGroupById (s : state) (full_id : list Z) : option Group :=
  foldl (fun found g => if ctEqual (id g) full_id SRTLA_ID_LEN then Some g else found) None (m_Groups s).

Definition findGroupByEgress (s : state) (peer : sockaddr) : option nat := m_EgressMap s !! peer.

Definition is_ghost_of (src : sockaddr) (g : Group) : bool :=
  match links g with
  | [] => negb (data_seen g) && has_last_addr g && bool_decide (last_addr g = src)
  | _ => false
  end.

Fixpoint find_first {A} (f : A -> bool) (l : list A) : option A :=
  match l with [] => None | x :: r => if f x then Some x else find_first f r end.

Definition findGhostCreator (s : state) (src : sockaddr) : option Group := find_first (is_ghost_of src) (m_Groups s).

(** Following a pointer. *)
Definition group_at (s : state) (p : nat) : option Group := find_first (fun g => g_ptr g =? p)%nat (m_Groups s).
Definition link_at (g : Group) (p : nat) : option Link := find_first (fun l => l_ptr l =? p)%nat (links g).

Definition put_link (l' : Link) (g : Group) : Group :=
  set_links ((fun l => if (l_ptr l =? l_ptr l')%nat then l' else l) <$> links g) g.

Definition put_group (g' : Group) (s : state) : state :=
  set_groups ((fun g => if (g_ptr g =? g_ptr g')%nat then g' else g) <$> m_Groups s) s.

(** ** Feedback senders *)

Definition sendReg2 (dst : sockaddr) (g : Group) : output := SendRaw dst (store_be16 T_REG2 ++ id g).

Definition sendShort (dst : sockaddr) (type : Z) : output :=
  SendRaw dst (store_be16 type ++ replicate (MIN_PAD - 2) 0).

Definition sendReg3 (dst : sockaddr) : output := sendShort dst T_REG3.
Definition sendKeepalive (dst : sockaddr) : output := sendShort dst T_KEEPALIVE.

(** [None]: reading or writing past the ten entries of a batch. *)
Definition sendSrtlaAck (dst : sockaddr) (l : Link) : option (list output * Link) :=
  if ack_count l <=? 0 then Some ([], l)
  else if ack_count l >? Z.of_nat (length (ack_log l)) then None
  else if ack_count l >? RECV_ACK_INT then None
  else
    Some ([SendRaw dst (store_be32 (u32 (Z.shiftl T_SRTLA_ACK 16))
                        ++ flat_map store_be32 (take (Z.to_nat (ack_count l)) (ack_log l)))],
          set_ack (ack_log l) 0 (ack_first_pending l) l).

Definition echoKeepalive (dst : sockaddr) (p : CPacket.t) : output :=
  match rebuildWire p 1500 with
  | None => sendKeepalive dst
  | Some w => SendRaw dst (w ++ replicate (MIN_PAD - length w) 0)
  end.

(** ** Cleanup of one group *)

Definition removeGroup (s : state) (g : Group) : state :=
  mkState (filter (fun g' => g_ptr g' <> g_ptr g) (m_Groups s))
    (foldl (fun m l => delete (addr l) m) (m_LinkMap s) (links g))
    (filter (fun kv => snd kv <> g_ptr g) (m_EgressMap s))
    (m_LastCleanup s) (m_LastLinkPass s) (m_HaveTimers s) (next_ptr s).

(** ** Registration *)

(** The oldest group without links that never carried data. *)
Definition eviction_victim (gs : list Group) : option Group :=
  foldl (fun victim g =>
           match links g with
           | [] => if data_seen g then victim
                   else match victim with
                        | None => Some g
                        | Some v => if created_at g <? created_at v then Some g else victim
                        end
           | _ => victim
           end) None gs.

Definition new_group (p : nat) (gid : list Z) (now : Z) (src : sockaddr) : Group :=
  mkGroup p gid [] (-1) false now src true false ∅ 0 false false 0 0 0.

Definition add_group (s : state) (gid : list Z) (now : Z) (src : sockaddr) : state :=
  mkState (m_Groups s ++ [new_group (next_ptr s) gid now src]) (m_LinkMap s) (m_EgressMap s)
    (m_LastCleanup s) (m_LastLinkPass s) (m_HaveTimers s) (S (next_ptr s)).

(** [wire] is the rebuilt datagram, [now] the clock, [rnd] the output of
    [fillRandom] for the server half. *)
Definition handleReg1 (s : state) (src : sockaddr) (wire : list Z) (now : Z) (rnd : list Z) : state * list output :=
  match findLink s src with
  | Some _ => (s, [sendShort src T_REG_ERR])
  | None =>
    match findGhostCreator s src with
    | Some ghost => (s, [sendReg2 src ghost])
    | None =>
      let room := if (MAX_GROUPS <=? length (m_Groups s))%nat
                  then match eviction_victim (m_Groups s) with
                       | None => None
                       | Some v => Some (removeGroup s v)
                       end
                  else Some s in
      match room with
      | None => (s, [sendShort src T_REG_ERR])
      | Some s =>
        let gid := take SRTLA_ID_HALF (drop 2 wire) ++ take SRTLA_ID_HALF rnd in
        (add_group s gid now src, [sendReg2 src (new_group (next_ptr s) gid now src)])
      end
    end
  end.

Definition new_link (p : nat) (src : sockaddr) (now : Z) : Link :=
  mkLink p src now now 0 now false (replicate (Z.to_nat RECV_ACK_INT) 0) 0 0 (fnv1a src)
    F64.zero F64.zero 0 false F64.zero 0 false F64.zero 0 false.

(** Joining link [src] to group [g]. *)
Definition add_link (s : state) (g : Group) (src : sockaddr) (now : Z) : state :=
  let l := new_link (next_ptr s) src now in
  let s := put_group (set_last_addr src (set_links (links g ++ [l]) g)) s in
  mkState (m_Groups s) (<[src := (g_ptr g, l_ptr l)]> (m_LinkMap s)) (m_EgressMap s)
    (m_LastCleanup s) (m_LastLinkPass s) (m_HaveTimers s) (S (next_ptr s)).

Definition handleReg2 (s : state) (src : sockaddr) (wire : list Z) (now : Z) : state * list output :=
  match findGroupById s (drop 2 wire) with
  | None => (s, [sendShort src T_REG_NGP])
  | Some g =>
    match findLink s src with
    | Some (gp, _) =>
      if (gp =? g_ptr g)%nat then (s, [sendReg3 src]) else (s, [sendShort src T_REG_ERR])
    | None =>
      if (MAX_CONNS_PER_GROUP <=? length (links g))%nat then (s, [sendShort src T_REG_ERR])
      else (add_link s g src now, [sendReg3 src])
    end
  end.

(** ** Accounting *)

Definition slot (sn : Z) : Z := Z.land sn SN_WINDOW_MASK.

(** [for (k = 1; k <= diff; ++k) win[(sn_max + k) & MASK] = false;] the sum is
    an [int32_t], wrapped as two's complement. *)
Fixpoint clear_slots (diff : nat) (sn_max : Z) (win : gset Z) : gset Z :=
  match diff with
  | O => win
  | S d => clear_slots d sn_max win ∖ {[slot (i32 (sn_max + Z.of_nat diff))]}
  end.

Definition trackSn (g : Group) (sn : Z) : bool * Group :=
  if negb (sn_valid g) then (true, set_window {[slot sn]} sn g)
  else
    let diff := Z.land (i32 (sn - sn_max g)) 0x7FFFFFFF in
    if diff =? 0 then (false, g)
    else if diff <? 0x40000000 then
      let win := if diff >=? SN_WINDOW_SIZE then ∅ else clear_slots (Z.to_nat diff) (sn_max g) (sn_window g) in
      (true, set_window ({[slot sn]} ∪ win) sn g)
    else
      let back := u32 (Z.land (i32 (sn_max g - sn)) 0x7FFFFFFF) in
      if back >=? SN_WINDOW_SIZE then (false, g)
      else if decide (slot sn ∈ sn_window g) then (false, g)
      else (true, set_window ({[slot sn]} ∪ sn_window g) (sn_max g) g).

(** Liveness of a link that delivered a datagram. *)
Definition touch_link (now : Z) (l : Link) : Link :=
  if (count_milliseconds (now - last_rcvd l) >? 4000) && negb (recovering l)
  then set_liveness now now now true l
  else set_liveness now (recovery_start l) (last_keepalive l) (recovering l) l.

(** [dt >= 1.0 ? 0.0 : 1.0 - dt], for an initialised estimator. *)
Definition rate_decay (l : Link) (now : Z) : F64.t :=
  if rate_init l then
    let dt := F64.mul (F64.of_Z (count_microseconds (now - rate_last l))) EWMA_INV_TAU in
    if F64.leb F64.one dt then F64.zero else F64.sub F64.one dt
  else F64.zero.

Definition count_bytes (now total : Z) (l : Link) : Link :=
  let decay := rate_decay l now in
  set_rate (F64.add (F64.mul (recv_acc l) decay) (F64.of_Z total)) (F64.mul (unique_acc l) decay) now l.

(** The unwrapped sender clock of the group. *)
Definition sender_clock (now sender_ts : Z) (g : Group) : Group :=
  if ts_init g then set_sender_ts sender_ts (sender_ts_acc g + i32 (sender_ts - ts_last_raw g)) (arrival_ref g) g
  else set_sender_ts sender_ts 0 now g.

(** One transit sample of a link. *)
Definition sample_transit (now rel : Z) (l : Link) : Link :=
  let tr :=
    if transit_valid l then
      let a := F64.mul (F64.of_Z (count_microseconds (now - last_transit l))) EWMA_INV_TAU in
      let a := if F64.ltb F64.one a then F64.one else a in
      F64.add (transit_ewma l) (F64.mul (F64.sub (F64.of_Z rel) (transit_ewma l)) a)
    else F64.of_Z rel in
  let jit :=
    if have_prev_transit l then
      F64.add (jitter_ewma l)
        (F64.div (F64.sub (F64.of_Z (Z.abs (rel - prev_transit l))) (jitter_ewma l)) (F64.of_Z 16))
    else jitter_ewma l in
  set_transit tr now jit rel l.

(** The SRTLA-ACK batch; [None]: [ack_log] would be written out of bounds. *)
Definition queue_ack (now sn : Z) (src : sockaddr) (l : Link) : option (list output * Link) :=
  let first := if ack_count l =? 0 then now else ack_first_pending l in
  log ← aset (ack_log l) (ack_count l) (u32 sn);
  let l := set_ack log (ack_count l + 1) first l in
  if (ack_count l >=? RECV_ACK_INT) || (count_microseconds (now - ack_first_pending l) >=? ACK_FLUSH_US)
  then sendSrtlaAck src l
  else Some ([], l).

(** A data packet of a registered link. *)
Definition data_packet (now total : Z) (src : sockaddr) (p : CPacket.t) (g : Group) (l : Link)
    : option (list output * Group * Link) :=
  let sn := Z.land (CPacket.ph_seqno p) 0x7FFFFFFF in
  let '(is_new, g) := trackSn g sn in
  let rexmit := negb (Z.land (CPacket.ph_msgno p) (Bits.mask MSGNO_REXMIT) =? 0) in
  let l := if is_new then set_unique (F64.add (unique_acc l) (F64.of_Z total)) l else l in
  let '(g, l) :=
    if is_new && negb rexmit then
      let g := sender_clock now (CPacket.ph_timestamp p) g in
      (g, sample_transit now (count_microseconds (now - arrival_ref g) - sender_ts_acc g) l)
    else (g, l) in
  r ← queue_ack now sn src l;
  Some (fst r, g, snd r).

(** ** Ingress *)

(** Steps 3 to 5 of [onIngress], for a registered link. *)
Definition link_ingress (now total : Z) (valid_len : bool) (src : sockaddr) (p : CPacket.t) (g : Group) (l : Link)
    : option (Ingress * list output * Group * Link) :=
  let T := peekType p in
  let l := touch_link now l in
  let l := if valid_len then count_bytes now total l else l in
  if T =? T_KEEPALIVE then Some (SRTLA_DROP, [echoKeepalive src p], g, l)
  else if T >=? 0x9000 then Some (SRTLA_DROP, [], g, l)
  else if negb valid_len || (total <? SRT_MIN_LEN) then Some (SRTLA_DROP, [], g, l)
  else
    let g := set_data_seen (set_last_addr src g) in
    if Z.land (CPacket.ph_seqno p) 0x80000000 =? 0 then
      r ← data_packet now total src p g l;
      let '(out, g, l) := r in
      Some (SRTLA_PASS, out, g, l)
    else Some (SRTLA_PASS, [], g, l).

(** [now2] is the clock reading inside the registration handlers. *)
Definition onIngress (s : state) (src : sockaddr) (p : CPacket.t) (now now2 : Z) (rnd : list Z)
    : option (Ingress * state * list output) :=
  let T := peekType p in
  let plen := CPacket.getLength p in
  let valid_len := plen <=? 65535 in
  let total := if valid_len then plen + 16 else 0 in
  if T =? T_REG1 then
    if total =? REG_LEN then
      match rebuildWire p REG_LEN with
      | Some wire => let '(s, out) := handleReg1 s src wire now2 rnd in Some (SRTLA_DROP, s, out)
      | None => Some (SRTLA_DROP, s, [])
      end
    else Some (SRTLA_DROP, s, [])
  else if T =? T_REG2 then
    if total =? REG_LEN then
      match rebuildWire p REG_LEN with
      | Some wire => let '(s, out) := handleReg2 s src wire now2 in Some (SRTLA_DROP, s, out)
      | None => Some (SRTLA_DROP, s, [])
      end
    else Some (SRTLA_DROP, s, [])
  else
    match findLink s src with
    | None => Some (SRTLA_DROP, s, [])
    | Some (gp, lp) =>
      g ← group_at s gp;
      l ← link_at g lp;
      r ← link_ingress now total valid_len src p g l;
      let '(res, out, g, l) := r in
      Some (res, put_group (put_link l g) s, out)
    end.

(** The receive path of the channel: a datagram too short for a header is
    refused, the others reach [onIngress] in host byte order. *)
Definition recvfrom (d : list Z) : option CPacket.t :=
  if (length d <? 16)%nat then None
  else p ← CPacket.of_datagram d; Some (CPacket.toHostByteOrder p).

Definition receive (s : state) (src : sockaddr) (d : list Z) (now now2 : Z) (rnd : list Z)
    : option (Ingress * state * list output) :=
  match recvfrom d with
  | None => Some (SRTLA_DROP, s, [])
  | Some p => onIngress s src p now now2 rnd
  end.

(** ** Egress *)

Definition nak_targets (g : Group) : list Link :=
  let is_last l := has_last_addr g && bool_decide (addr l = last_addr g) in
  let first := match find_first is_last (links g) with Some l => [l] | None => [] end in
  first ++ take (NAK_FANOUT - length first) (List.filter (fun l => negb (is_last l)) (links g)).

(** The result is [false] when the caller has to send the packet itself. *)
Definition onEgress (s : state) (peer : sockaddr) (p : CPacket.t) : option (bool * list output) :=
  match findGroupByEgress s peer with
  | None => Some (false, [])
  | Some gp =>
    g ← group_at s gp;
    match links g with
    | [] => Some (true, [SendTo peer p])
    | ls =>
      if CPacket.isControl p && (CPacket.getType p =? msgtype_code UMSG_ACK)
      then Some (true, (fun l => SendTo (addr l) p) <$> ls)
      else if CPacket.isControl p && (CPacket.getType p =? msgtype_code UMSG_LOSSREPORT)
      then Some (true, (fun l => SendTo (addr l) p) <$> nak_targets g)
      else Some (true, [SendTo (if has_last_addr g then last_addr g else peer) p])
    end
  end.

(** ** Binding *)

Definition bindGroup (s : state) (peer : sockaddr) (socketID : Z) : option state :=
  match findLink s peer with
  | None => Some s
  | Some (gp, _) =>
    g ← group_at s gp;
    let g := set_bound socketID g in
    let g := if has_last_addr g then g else set_last_addr peer g in
    let s := put_group g s in
    Some (mkState (m_Groups s) (m_LinkMap s) (<[peer := gp]> (m_EgressMap s))
            (m_LastCleanup s) (m_LastLinkPass s) (m_HaveTimers s) (next_ptr s))
  end.

(** ** Periodic pass *)

(** The flush of aged batches over the links of a group. *)
Fixpoint flush_links (now : Z) (ls : list Link) : option (list output * list Link) :=
  match ls with
  | [] => Some ([], [])
  | l :: rest =>
    r ← (if (ack_count l >? 0) && (count_microseconds (now - ack_first_pending l) >=? ACK_FLUSH_US)
         then sendSrtlaAck (addr l) l else Some ([], l));
    rs ← flush_links now rest;
    Some (fst r ++ fst rs, snd r :: snd rs)
  end.

Fixpoint flush_groups (now : Z) (gs : list Group) : option (list output * list Group) :=
  match gs with
  | [] => Some ([], [])
  | g :: rest =>
    r ← flush_links now (links g);
    rs ← flush_groups now rest;
    Some (fst r ++ fst rs, set_links (snd r) g :: snd rs)
  end.

(** The link part of [doCleanup]: the outputs, the links kept and the addresses
    erased from [m_LinkMap]. *)
Fixpoint cleanup_links (now : Z) (ls : list Link) : list output * list Link * list sockaddr :=
  match ls with
  | [] => ([], [], [])
  | l :: rest =>
    let '(out, kept, gone) := cleanup_links now rest in
    if count_milliseconds (now - last_rcvd l) >? 4000 then (out, kept, addr l :: gone)
    else if recovering l then
      if count_milliseconds (now - recovery_start l) >=? 5000
      then (out, set_liveness (last_rcvd l) (recovery_start l) (last_keepalive l) false l :: kept, gone)
      else if count_milliseconds (now - last_keepalive l) >=? 1000
      then (sendKeepalive (addr l) :: out,
            set_liveness (last_rcvd l) (recovery_start l) now (recovering l) l :: kept, gone)
      else (out, l :: kept, gone)
    else (out, l :: kept, gone)
  end.

Fixpoint cleanup_groups (now : Z) (gs : list Group) (s : state) : state * list output :=
  match gs with
  | [] => (s, [])
  | g :: rest =>
    let '(out, kept, gone) := cleanup_links now (links g) in
    let g := set_links kept g in
    let s := put_group g s in
    let s := mkState (m_Groups s) (foldl (fun m a => delete a m) (m_LinkMap s) gone) (m_EgressMap s)
               (m_LastCleanup s) (m_LastLinkPass s) (m_HaveTimers s) (next_ptr s) in
    let s := match kept with
             | [] => if count_milliseconds (now - created_at g) >? 4000 then removeGroup s g else s
             | _ => s
             end in
    let '(s, outs) := cleanup_groups now rest s in
    (s, out ++ outs)
  end.

Definition doCleanup (s : state) (now : Z) : state * list output := cleanup_groups now (m_Groups s) s.

Definition onPeriodic (s : state) (now : Z) : option (state * list output) :=
  if negb (m_HaveTimers s) then
    Some (mkState (m_Groups s) (m_LinkMap s) (m_EgressMap s) now now true (next_ptr s), [])
  else
    r ← (if count_microseconds (now - m_LastLinkPass s) >=? LINK_PASS_US then
           r ← flush_groups now (m_Groups s);
           Some (mkState (snd r) (m_LinkMap s) (m_EgressMap s) (m_LastCleanup s) now (m_HaveTimers s) (next_ptr s), fst r)
         else Some (s, []));
    let '(s, out) := r in
    if count_milliseconds (now - m_LastCleanup s) >=? 3000 then
      let '(s, outs) := doCleanup s now in
      Some (mkState (m_Groups s) (m_LinkMap s) (m_EgressMap s) now (m_LastLinkPass s) (m_HaveTimers s) (next_ptr s),
            out ++ outs)
    else Some (s, out).

(** ** Statistics *)

Definition bound_group (s : state) (sock : Z) : option Group :=
  find_first (fun g => bound g && (socket_id g =? sock)) (m_Groups s).

(** [None] where the conversion of [hold] would be undefined. *)
Definition holdSteadyUs (s : state) (sock now : Z) : option Z :=
  match bound_group s sock with
  | None => Some 0
  | Some g =>
    let fresh := List.filter (fun l => transit_valid l && negb (count_microseconds (now - last_transit l) >? LINK_FRESH_US))
                   (links g) in
    match fresh with
    | [] => Some 0
    | l :: ls =>
      let tmin := F64.min_element (transit_ewma l) (map transit_ewma ls) in
      let tmax := F64.max_element (transit_ewma l) (map transit_ewma ls) in
      let jmax := F64.max_element (jitter_ewma l) (map jitter_ewma ls) in
      let hold := F64.add (F64.sub tmax tmin) (F64.mul (F64.of_Z 4) jmax) in
      let hold := if F64.ltb hold F64.zero then F64.zero else hold in
      let hold := if F64.ltb (F64.of_Z 10000000) hold then F64.of_Z 10000000 else hold in
      z ← F64.trunc hold; Some (u32 z)
    end
  end.

End SrtlaRec.
