(* ===== verification/SrtlaRecInv.v ===== *)
(** * The registry invariant of the SRTLA receiver

    [m_Groups] owns the groups and links; [m_LinkMap] and [m_EgressMap] point into
    it. The invariant says that the maps and the lists describe the same
    registrations: no pointer dangles, an address belongs to one link only, and
    the tables stay within their limits. Every operation preserves it, and no
    operation follows a dangling pointer or leaves an array. *)

From S2P Require Import Prelude Packet Float64 SrtlaRec.
Import SrtlaRec.

(** ** Shapes: what the maps refer to *)

Notation lshape := (nat * sockaddr)%type.
Notation gshape := (nat * list lshape)%type.

Definition lsh (l : Link) : lshape := (l_ptr l, addr l).
Definition gsh (g : Group) : gshape := (g_ptr g, lsh <$> links g).

Record maps_ok (ss : list gshape) (lm : gmap sockaddr (nat * nat)) (em : gmap sockaddr nat) (next : nat) : Prop := {
  mo_nodup : NoDup (fst <$> ss);
  mo_ptr : forall p ls, (p, ls) ∈ ss -> (p < next)%nat /\ NoDup (fst <$> ls);
  mo_link : forall p ls lp a, (p, ls) ∈ ss -> (lp, a) ∈ ls -> (lp < next)%nat /\ lm !! a = Some (p, lp);
  mo_lm : forall a p lp, lm !! a = Some (p, lp) -> exists ls, (p, ls) ∈ ss /\ (lp, a) ∈ ls;
  mo_em : forall a p, em !! a = Some p -> exists ls, (p, ls) ∈ ss
}.

Lemma ptr_unique {A B} (ss : list (A * B)) p x y :
  NoDup (fst <$> ss) -> (p, x) ∈ ss -> (p, y) ∈ ss -> x = y.
Proof.
  induction ss as [|[q z] ss IH]; simpl; [by intros _ ?%not_elem_of_nil|].
  intros [Hn Hd]%list.NoDup_cons [Hx|Hx]%elem_of_cons [Hy|Hy]%elem_of_cons; simplify_eq; auto.
  - exfalso. apply Hn, list_elem_of_fmap. eexists. split; [|exact Hy]. done.
  - exfalso. apply Hn, list_elem_of_fmap. eexists. split; [|exact Hx]. done.
Qed.

Lemma maps_ok_add_group ss lm em next :
  maps_ok ss lm em next -> maps_ok (ss ++ [(next, [])]) lm em (S next).
Proof.
  intros [H1 H2 H3 H4 H5]. constructor.
  - rewrite fmap_app. apply list.NoDup_app. split; [done|]. split; [|repeat constructor; by intros ?%not_elem_of_nil].
    intros p ([q ls] & -> & Hin)%list_elem_of_fmap Hp%list_elem_of_singleton.
    destruct (H2 _ _ Hin). simpl in *. lia.
  - intros p ls [Hin|Hin]%elem_of_app; [destruct (H2 _ _ Hin); split; [lia|done]|].
    apply list_elem_of_singleton in Hin. simplify_eq. split; [lia|constructor].
  - intros p ls lp a [Hin|Hin]%elem_of_app Hl; [destruct (H3 _ _ _ _ Hin Hl); split; [lia|done]|].
    apply list_elem_of_singleton in Hin. simplify_eq. by apply not_elem_of_nil in Hl.
  - intros a p lp (ls & Hin & Hl)%H4. exists ls. split; [|done]. apply elem_of_app. by left.
  - intros a p (ls & Hin)%H5. exists ls. apply elem_of_app. by left.
Qed.

(** Replacing the links of one group. *)
Definition put_shape (p : nat) (ls : list lshape) (ss : list gshape) : list gshape :=
  (fun s => if (fst s =? p)%nat then (p, ls) else s) <$> ss.

Lemma put_shape_fst p ls ss : fst <$> put_shape p ls ss = fst <$> ss.
Proof.
  unfold put_shape. rewrite <- list_fmap_compose. apply list_fmap_ext. intros i [q z] _. simpl.
  by destruct (Nat.eqb_spec q p).
Qed.

Lemma elem_of_put_shape p ls ss q z :
  (q, z) ∈ put_shape p ls ss <-> (q = p /\ z = ls /\ p ∈ fst <$> ss) \/ (q <> p /\ (q, z) ∈ ss).
Proof.
  unfold put_shape. rewrite list_elem_of_fmap. split.
  - intros ([q' z'] & E & Hin). simpl in E. destruct (Nat.eqb_spec q' p); simplify_eq.
    + left. repeat split. apply list_elem_of_fmap. by exists (p, z').
    + by right.
  - intros [(-> & -> & Hin)|[Hne Hin]].
    + apply list_elem_of_fmap in Hin as ([q' z'] & -> & Hin). exists (q', z'). simpl. by rewrite Nat.eqb_refl.
    + exists (q, z). simpl. by destruct (Nat.eqb_spec q p).
Qed.

Lemma maps_ok_add_link ss lm em next p ls a :
  maps_ok ss lm em next -> (p, ls) ∈ ss -> lm !! a = None ->
  maps_ok (put_shape p (ls ++ [(next, a)]) ss) (<[a := (p, next)]> lm) em (S next).
Proof.
  intros [H1 H2 H3 H4 H5] Hp Ha.
  assert (p ∈ fst <$> ss) as Hpin by (apply list_elem_of_fmap; by exists (p, ls)).
  constructor.
  - by rewrite put_shape_fst.
  - intros q z [(-> & -> & _)|[Hne Hin]]%elem_of_put_shape; [|destruct (H2 _ _ Hin); split; [lia|done]].
    destruct (H2 _ _ Hp) as [? Hd]. split; [lia|]. rewrite fmap_app. apply list.NoDup_app. split; [done|].
    split; [|repeat constructor; by intros ?%not_elem_of_nil].
    intros x ([lp a'] & -> & Hin)%list_elem_of_fmap Hx%list_elem_of_singleton.
    destruct (H3 _ _ _ _ Hp Hin). simpl in *. lia.
  - intros q z lp a' [(-> & -> & _)|[Hne Hin]]%elem_of_put_shape Hl.
    + apply elem_of_app in Hl as [Hl|Hl%list_elem_of_singleton].
      * destruct (H3 _ _ _ _ Hp Hl) as [? Hlk]. split; [lia|]. rewrite lookup_insert_ne; [done|]. intros ->. congruence.
      * simplify_eq. split; [lia|]. apply lookup_insert_eq.
    + destruct (H3 _ _ _ _ Hin Hl) as [? Hlk]. split; [lia|]. rewrite lookup_insert_ne; [done|]. intros ->. congruence.
  - intros a' q lp [[<- E]|[Hne Hlk]]%lookup_insert_Some.
    + simplify_eq. exists (ls ++ [(lp, a)]). split; [apply elem_of_put_shape; by left|]. apply elem_of_app. right. constructor.
    + destruct (H4 _ _ _ Hlk) as (z & Hin & Hl). destruct (decide (q = p)) as [->|Hq].
      * rewrite (ptr_unique _ _ _ _ H1 Hin Hp) in Hl. exists (ls ++ [(next, a)]).
        split; [apply elem_of_put_shape; by left|]. apply elem_of_app. by left.
      * exists z. split; [apply elem_of_put_shape; by right|done].
  - intros a' q (z & Hin)%H5. destruct (decide (q = p)) as [->|Hq].
    + exists (ls ++ [(next, a)]). apply elem_of_put_shape. by left.
    + exists z. apply elem_of_put_shape. by right.
Qed.

(** Deleting several addresses. *)
Lemma lookup_foldl_delete (gone : list sockaddr) (lm : gmap sockaddr (nat * nat)) a :
  foldl (fun m a => delete a m) lm gone !! a = if decide (a ∈ gone) then None else lm !! a.
Proof.
  revert lm. induction gone as [|x gone IH]; intros lm; cbn [foldl].
  - rewrite decide_False; [done|]. apply not_elem_of_nil.
  - rewrite IH. destruct (decide (a ∈ gone)) as [Hg|Hg]; [rewrite decide_True; [done|by constructor]|].
    destruct (decide (a = x)) as [->|Hne].
    + rewrite lookup_delete_eq, decide_True; [done|constructor].
    + rewrite lookup_delete_ne, decide_False by (rewrite ?not_elem_of_cons; auto). done.
Qed.

(** Dropping some links of a group, with their addresses. *)
Lemma maps_ok_drop_links ss lm em next p ls kept gone :
  maps_ok ss lm em next -> (p, ls) ∈ ss -> kept `sublist_of` ls ->
  (forall lp a, (lp, a) ∈ ls -> (a ∈ gone <-> (lp, a) ∉ kept)) ->
  (forall a, a ∈ gone -> exists lp, (lp, a) ∈ ls) ->
  maps_ok (put_shape p kept ss) (foldl (fun m a => delete a m) lm gone) em next.
Proof.
  intros [H1 H2 H3 H4 H5] Hp Hsub Hgone Hls.
  assert (p ∈ fst <$> ss) as Hpin by (apply list_elem_of_fmap; by exists (p, ls)).
  assert (forall x, x ∈ kept -> x ∈ ls) as Hk by (intros x Hx; by eapply elem_of_sublist).
  assert (forall q z lp a, (q, z) ∈ ss -> (lp, a) ∈ z -> a ∈ gone -> q = p) as Hq.
  { intros q z lp a Hin Hl (lp' & Hl')%Hls. destruct (H3 _ _ _ _ Hin Hl) as [_ E1], (H3 _ _ _ _ Hp Hl') as [_ E2].
    congruence. }
  constructor.
  - by rewrite put_shape_fst.
  - intros q z [(-> & -> & _)|[Hne Hin]]%elem_of_put_shape; [|by apply H2].
    destruct (H2 _ _ Hp) as [? Hd]. split; [done|]. eapply sublist_NoDup; [exact Hd|]. by apply fmap_sublist.
  - intros q z lp a [(-> & -> & _)|[Hne Hin]]%elem_of_put_shape Hl; rewrite lookup_foldl_delete.
    + destruct (H3 _ _ _ _ Hp (Hk _ Hl)) as [? Hlk]. split; [done|]. rewrite decide_False; [done|].
      intros Hg. apply (Hgone lp a (Hk _ Hl)) in Hg. done.
    + destruct (H3 _ _ _ _ Hin Hl) as [? Hlk]. split; [done|]. rewrite decide_False; [done|].
      intros Hg. apply Hne. by eapply Hq.
  - intros a q lp. rewrite lookup_foldl_delete. case_decide as Hg; [done|]. intros Hlk.
    destruct (H4 _ _ _ Hlk) as (z & Hin & Hl). destruct (decide (q = p)) as [->|Hne].
    + rewrite (ptr_unique _ _ _ _ H1 Hin Hp) in Hl. exists kept. split; [apply elem_of_put_shape; by left|].
      destruct (decide ((lp, a) ∈ kept)) as [|Hnk]; [done|]. exfalso. apply Hg. by apply (Hgone lp a Hl).
    + exists z. split; [apply elem_of_put_shape; by right|done].
  - intros a q (z & Hin)%H5. destruct (decide (q = p)) as [->|Hne].
    + exists kept. apply elem_of_put_shape. by left.
    + exists z. apply elem_of_put_shape. by right.
Qed.

(** Dropping a group without links. *)
Lemma maps_ok_drop_group ss lm em next p :
  maps_ok ss lm em next -> (p, []) ∈ ss ->
  maps_ok (filter (fun s => fst s <> p) ss) lm (filter (fun kv => snd kv <> p) em) next.
Proof.
  intros [H1 H2 H3 H4 H5] Hp. constructor.
  - eapply sublist_NoDup; [exact H1|]. apply fmap_sublist, sublist_filter.
  - intros q z [_ Hin]%list_elem_of_filter. by apply H2.
  - intros q z lp a [_ Hin]%list_elem_of_filter. by apply H3.
  - intros a q lp Hlk. destruct (H4 _ _ _ Hlk) as (z & Hin & Hl). exists z. split; [|done].
    apply list_elem_of_filter. split; [|done]. simpl. intros ->.
    rewrite (ptr_unique _ _ _ _ H1 Hin Hp) in Hl. by apply not_elem_of_nil in Hl.
  - intros a q [Hlk Hne]%map_lookup_filter_Some. destruct (H5 _ _ Hlk) as (z & Hin). exists z.
    apply list_elem_of_filter. done.
Qed.

(** ** The invariant *)

Definition link_ok (l : Link) : Prop := 0 <= ack_count l < RECV_ACK_INT /\ length (ack_log l) = 10%nat.

Record inv (s : state) : Prop := {
  inv_maps : maps_ok (gsh <$> m_Groups s) (m_LinkMap s) (m_EgressMap s) (next_ptr s);
  inv_ngroups : (length (m_Groups s) <= MAX_GROUPS)%nat;
  inv_group : forall g, g ∈ m_Groups s -> (length (links g) <= MAX_CONNS_PER_GROUP)%nat /\ Forall link_ok (links g)
}.

Lemma find_first_spec {A} (f : A -> bool) l :
  match find_first f l with
  | Some x => x ∈ l /\ f x = true
  | None => forall x, x ∈ l -> f x = false
  end.
Proof.
  induction l as [|y l IH]; simpl; [by intros x ?%not_elem_of_nil|].
  destruct (f y) eqn:E; [split; [constructor|done]|].
  destruct (find_first f l) as [x|]; [destruct IH; split; [by constructor|done]|].
  intros x [->|Hx]%elem_of_cons; auto.
Qed.

Lemma group_at_shape s p ls :
  (p, ls) ∈ gsh <$> m_Groups s -> exists g, group_at s p = Some g /\ g ∈ m_Groups s /\ g_ptr g = p.
Proof.
  intros (g & E & Hg)%list_elem_of_fmap. unfold group_at.
  pose proof (find_first_spec (fun g => g_ptr g =? p)%nat (m_Groups s)) as Hf.
  destruct (find_first _ _) as [g'|].
  - destruct Hf as [Hin Hp%Nat.eqb_eq]. eauto.
  - specialize (Hf g Hg). injection E as Ep _. apply Nat.eqb_neq in Hf. congruence.
Qed.

Lemma link_at_shape g lp a :
  (lp, a) ∈ lsh <$> links g -> NoDup (fst <$> (lsh <$> links g)) ->
  exists l, link_at g lp = Some l /\ l ∈ links g /\ l_ptr l = lp /\ addr l = a.
Proof.
  intros Hla Hnd. pose proof Hla as (l & E & Hl)%list_elem_of_fmap. unfold link_at.
  pose proof (find_first_spec (fun l => l_ptr l =? lp)%nat (links g)) as Hf.
  destruct (find_first _ _) as [l'|].
  - destruct Hf as [Hin Hp%Nat.eqb_eq]. exists l'. split; [done|]. split; [done|]. split; [done|].
    assert ((lp, addr l') ∈ lsh <$> links g) as Hla' by (apply list_elem_of_fmap; exists l'; unfold lsh; by rewrite Hp).
    by rewrite (ptr_unique _ _ _ _ Hnd Hla Hla').
  - specialize (Hf l Hl). injection E as Ep _. apply Nat.eqb_neq in Hf. congruence.
Qed.

(** A registered address leads to its link. *)
Lemma findLink_deref s a p lp :
  inv s -> findLink s a = Some (p, lp) ->
  exists g l, group_at s p = Some g /\ g ∈ m_Groups s /\ g_ptr g = p
    /\ link_at g lp = Some l /\ l ∈ links g /\ l_ptr l = lp /\ addr l = a.
Proof.
  intros [M _ _] Hf. destruct (mo_lm _ _ _ _ M _ _ _ Hf) as (ls & Hs & Hl).
  destruct (group_at_shape _ _ _ Hs) as (g & Eg & Hg & Hp).
  assert ((p, lsh <$> links g) ∈ gsh <$> m_Groups s) as Hs' by (apply list_elem_of_fmap; exists g; unfold gsh; by rewrite Hp).
  rewrite (ptr_unique _ _ _ _ (mo_nodup _ _ _ _ M) Hs Hs') in Hl.
  destruct (link_at_shape g lp a Hl) as (l & ? & ? & ? & ?); [|eauto 10].
  by apply (mo_ptr _ _ _ _ M _ _ Hs').
Qed.

Lemma shape_put_group g' s :
  gsh <$> m_Groups (put_group g' s) = put_shape (g_ptr g') (lsh <$> links g') (gsh <$> m_Groups s).
Proof.
  unfold put_group, put_shape. simpl. rewrite <- !list_fmap_compose. apply list_fmap_ext. intros i g _. simpl.
  by destruct (Nat.eqb_spec (g_ptr g) (g_ptr g')).
Qed.

Lemma put_shape_same p ls ss : NoDup (fst <$> ss) -> (p, ls) ∈ ss -> put_shape p ls ss = ss.
Proof.
  intros Hnd Hp. unfold put_shape. rewrite <- (list_fmap_id ss) at 2. apply list_fmap_ext. intros i [q z] Hi%list_elem_of_lookup_2.
  simpl. destruct (Nat.eqb_spec q p) as [->|]; [|done]. by rewrite (ptr_unique _ _ _ _ Hnd Hi Hp).
Qed.

Lemma elem_of_put_group g' s g : g ∈ m_Groups (put_group g' s) -> g = g' \/ g ∈ m_Groups s.
Proof.
  unfold put_group. simpl. intros (g0 & -> & Hin)%list_elem_of_fmap. destruct (_ =? _)%nat; auto.
Qed.

Lemma gsh_elem s g : g ∈ m_Groups s -> (g_ptr g, lsh <$> links g) ∈ gsh <$> m_Groups s.
Proof. intros. apply list_elem_of_fmap. by exists g. Qed.

(** Updating a group in place keeps the registry. *)
Lemma inv_put_same s g g' :
  inv s -> g ∈ m_Groups s -> gsh g' = gsh g -> Forall link_ok (links g') -> inv (put_group g' s).
Proof.
  intros [M Hn Hg] Hin Hsh Hok. injection Hsh as Hp Hl.
  assert (length (links g') = length (links g)) as Hlen
    by (rewrite <- (length_fmap lsh (links g')), <- (length_fmap lsh (links g)); by f_equal).
  constructor.
  - rewrite shape_put_group, Hp, Hl, put_shape_same; [exact M|apply M|by apply gsh_elem].
  - unfold put_group. simpl. by rewrite length_fmap.
  - intros x [->|Hx]%elem_of_put_group; [|by apply Hg]. rewrite Hlen. split; [by apply Hg|done].
Qed.

Lemma put_link_shape l' g :
  (exists l, l ∈ links g /\ lsh l = lsh l') -> NoDup (fst <$> (lsh <$> links g)) -> gsh (put_link l' g) = gsh g.
Proof.
  intros (l & Hl & E) Hnd. unfold gsh, put_link. simpl. f_equal. rewrite <- list_fmap_compose.
  apply list_fmap_ext. intros i x Hx%list_elem_of_lookup_2. simpl. destruct (Nat.eqb_spec (l_ptr x) (l_ptr l')) as [Ep|]; [|done].
  assert ((l_ptr x, addr x) ∈ lsh <$> links g) as H1 by (apply list_elem_of_fmap; by exists x).
  assert ((l_ptr x, addr l') ∈ lsh <$> links g) as H2
    by (apply list_elem_of_fmap; exists l; rewrite E; unfold lsh; by rewrite Ep).
  unfold lsh. rewrite <- Ep. by rewrite (ptr_unique _ _ _ _ Hnd H1 H2).
Qed.

Lemma put_link_ok l' g : Forall link_ok (links g) -> link_ok l' -> Forall link_ok (links (put_link l' g)).
Proof.
  intros Hf Hl. unfold put_link. simpl. apply Forall_fmap. eapply list.Forall_impl; [exact Hf|].
  intros x Hx. simpl. by destruct (_ =? _)%nat.
Qed.

(** ** Ingress *)

Lemma sendSrtlaAck_ok dst l :
  0 <= ack_count l <= RECV_ACK_INT -> length (ack_log l) = 10%nat ->
  exists out l', sendSrtlaAck dst l = Some (out, l') /\ lsh l' = lsh l /\ link_ok l'.
Proof.
  unfold RECV_ACK_INT. intros Hc Hl. unfold sendSrtlaAck. rewrite Hl, !Z.gtb_ltb. unfold RECV_ACK_INT.
  destruct (Z.leb_spec (ack_count l) 0), (Z.ltb_spec (Z.of_nat 10) (ack_count l)), (Z.ltb_spec 10 (ack_count l)); try lia.
  - eexists _, _. split; [done|]. split; [done|]. unfold link_ok, RECV_ACK_INT. lia.
  - eexists _, _. split; [done|]. split; [done|]. unfold link_ok, RECV_ACK_INT. simpl. lia.
Qed.

Lemma queue_ack_ok now sn src l :
  link_ok l -> exists out l', queue_ack now sn src l = Some (out, l') /\ lsh l' = lsh l /\ link_ok l'.
Proof.
  intros [Hc Hl]. unfold RECV_ACK_INT in Hc. unfold queue_ack.
  rewrite aset_Some by (unfold in_bounds; lia). cbn [mbind option_bind]. cbv zeta.
  set (l1 := set_ack _ _ _ l).
  assert (length (ack_log l1) = 10%nat) as Hl1 by (unfold l1; simpl; by rewrite length_insert).
  assert (ack_count l1 = ack_count l + 1) as Hc1 by done.
  assert (lsh l1 = lsh l) as Hs1 by done. clearbody l1. rewrite Z.geb_leb.
  destruct (Z.leb_spec RECV_ACK_INT (ack_count l1)) as [Hle|Hgt]; unfold RECV_ACK_INT in *; simpl orb.
  - rewrite <- Hs1. apply sendSrtlaAck_ok; [unfold RECV_ACK_INT; lia|done].
  - destruct (_ >=? _).
    + rewrite <- Hs1. apply sendSrtlaAck_ok; [unfold RECV_ACK_INT; lia|done].
    + eexists _, _. split; [done|]. split; [done|]. unfold link_ok, RECV_ACK_INT. lia.
Qed.

Lemma trackSn_shape g sn : gsh (snd (trackSn g sn)) = gsh g /\ links (snd (trackSn g sn)) = links g.
Proof. unfold trackSn. repeat case_match; done. Qed.

Lemma data_packet_ok now total src p g l :
  link_ok l ->
  exists out g' l', data_packet now total src p g l = Some (out, g', l')
    /\ lsh l' = lsh l /\ link_ok l' /\ gsh g' = gsh g /\ links g' = links g.
Proof.
  intros Hok. unfold data_packet. cbv zeta. set (sn := Z.land _ 0x7FFFFFFF).
  destruct (trackSn_shape g sn) as [Hs Hl]. destruct (trackSn g sn) as [is_new g1]. simpl in Hs, Hl.
  set (l1 := if is_new then _ else l).
  assert (lsh l1 = lsh l /\ link_ok l1) as [Hs1 Hok1] by (unfold l1; by destruct is_new). clearbody l1.
  set (gl := if is_new && _ then _ else _).
  assert (lsh (snd gl) = lsh l /\ link_ok (snd gl) /\ gsh (fst gl) = gsh g /\ links (fst gl) = links g) as (H1 & H2 & H3 & H4).
  { unfold gl. destruct (is_new && _); [|done]. simpl. split; [done|]. split; [done|].
    unfold sender_clock. destruct (ts_init g1); done. }
  destruct gl as [g2 l2]. simpl in *.
  destruct (queue_ack_ok now sn src l2 H2) as (out & l' & -> & E & Hok'). simpl.
  eexists _, _, _. split; [done|]. split; [congruence|]. done.
Qed.

Lemma link_ingress_ok now total valid src p g l :
  link_ok l ->
  exists res out g' l', link_ingress now total valid src p g l = Some (res, out, g', l')
    /\ lsh l' = lsh l /\ link_ok l' /\ gsh g' = gsh g /\ links g' = links g.
Proof.
  intros Hok. unfold link_ingress. cbv zeta.
  set (l1 := if valid then count_bytes now total (touch_link now l) else touch_link now l).
  assert (lsh l1 = lsh l /\ link_ok l1) as [Hs1 Hok1].
  { unfold l1, touch_link, count_bytes. repeat case_match; done. }
  clearbody l1.
  destruct (peekType p =? T_KEEPALIVE); [eexists _, _, _, _; split; [reflexivity|done]|].
  destruct (peekType p >=? 0x9000); [eexists _, _, _, _; split; [reflexivity|done]|].
  destruct (negb valid || _); [eexists _, _, _, _; split; [reflexivity|done]|].
  destruct (_ =? 0); [|eexists _, _, _, _; split; [reflexivity|done]].
  destruct (data_packet_ok now total src p (set_data_seen (set_last_addr src g)) l1 Hok1) as (out & g' & l' & -> & E1 & E2 & E3 & E4).
  simpl. eexists _, _, _, _. split; [reflexivity|]. split; [congruence|]. done.
Qed.

(** ** Registration *)

Lemma eviction_victim_spec gs v :
  eviction_victim gs = Some v -> v ∈ gs /\ links v = [] /\ data_seen v = false.
Proof.
  unfold eviction_victim.
  assert (forall acc, (forall x, acc = Some x -> x ∈ gs /\ links x = [] /\ data_seen x = false) ->
    forall l, (forall x, x ∈ l -> x ∈ gs) ->
    forall x, foldl (fun victim g => match links g with
           | [] => if data_seen g then victim
                   else match victim with None => Some g
                        | Some v => if created_at g <? created_at v then Some g else victim end
           | _ => victim end) acc l = Some x -> x ∈ gs /\ links x = [] /\ data_seen x = false) as H.
  { intros acc Hacc l. revert acc Hacc. induction l as [|g l IH]; intros acc Hacc Hl x; simpl; [apply Hacc|].
    apply IH; [|intros y Hy; apply Hl; by constructor]. intros y Hy.
    assert (g ∈ gs) by (apply Hl; constructor).
    destruct (links g) eqn:El; [|auto]. destruct (data_seen g) eqn:Ed; [auto|].
    destruct acc as [w|]; [destruct (_ <? _)|]; simplify_eq; auto. }
  apply H; done.
Qed.

Lemma inv_remove_empty s g : inv s -> g ∈ m_Groups s -> links g = [] ->
  inv (removeGroup s g) /\ (length (m_Groups (removeGroup s g)) < length (m_Groups s))%nat.
Proof.
  intros [M Hn Hg] Hin Hl. split; [constructor|].
  - unfold removeGroup. simpl. rewrite Hl. simpl.
    assert (gsh <$> filter (fun g' => g_ptr g' <> g_ptr g) (m_Groups s)
      = filter (fun s => fst s <> g_ptr g) (gsh <$> m_Groups s)) as ->.
    { clear. induction (m_Groups s) as [|x l IH]; [done|]. rewrite fmap_cons, !filter_cons. simpl.
      destruct (decide (g_ptr x <> g_ptr g)), (decide (g_ptr x <> g_ptr g)); try done. rewrite fmap_cons. by f_equal. }
    apply maps_ok_drop_group; [done|]. apply list_elem_of_fmap. exists g. unfold gsh. by rewrite Hl.
  - unfold removeGroup. simpl. etrans; [apply length_filter|done].
  - unfold removeGroup. simpl. intros x [_ Hx]%list_elem_of_filter. by apply Hg.
  - unfold removeGroup. simpl. apply (length_filter_lt _ _ g Hin). simpl. intros Hne. done.
Qed.

Lemma inv_add_group s gid now src :
  inv s -> (length (m_Groups s) < MAX_GROUPS)%nat -> inv (add_group s gid now src).
Proof.
  intros [M Hn Hg] Hlt. constructor; simpl.
  - rewrite fmap_app. by apply maps_ok_add_group.
  - rewrite length_app. simpl. lia.
  - intros g [Hin|Hin]%elem_of_app; [by apply Hg|]. apply list_elem_of_singleton in Hin. subst g. simpl.
    split; [unfold MAX_CONNS_PER_GROUP; lia|constructor].
Qed.

Lemma handleReg1_inv s src wire now rnd : inv s -> inv (fst (handleReg1 s src wire now rnd)).
Proof.
  intros I. unfold handleReg1. destruct (findLink s src); [done|]. destruct (findGhostCreator s src); [done|].
  cbv zeta. destruct (Nat.leb_spec MAX_GROUPS (length (m_Groups s))) as [Hfull|Hroom]; [|by apply inv_add_group].
  destruct (eviction_victim (m_Groups s)) as [v|] eqn:Ev; [|done].
  apply eviction_victim_spec in Ev as (Hin & Hl & _).
  destruct (inv_remove_empty s v I Hin Hl) as [I' Hlt]. apply inv_add_group; [done|].
  pose proof (inv_ngroups _ I). lia.
Qed.

Lemma findGroupById_elem s fid g : findGroupById s fid = Some g -> g ∈ m_Groups s /\ ctEqual (id g) fid SRTLA_ID_LEN = true.
Proof.
  unfold findGroupById.
  assert (forall l acc, (forall x, acc = Some x -> x ∈ m_Groups s /\ ctEqual (id x) fid SRTLA_ID_LEN = true) ->
    (forall x, x ∈ l -> x ∈ m_Groups s) ->
    forall x, foldl (fun found g => if ctEqual (id g) fid SRTLA_ID_LEN then Some g else found) acc l = Some x ->
    x ∈ m_Groups s /\ ctEqual (id x) fid SRTLA_ID_LEN = true) as H.
  { induction l as [|y l IH]; intros acc Hacc Hl x; cbn [foldl]; [apply Hacc|].
    apply IH; [|intros z Hz; apply Hl; by constructor]. intros z. destruct (ctEqual (id y) fid SRTLA_ID_LEN) eqn:E; [|apply Hacc].
    intros [= ->]. split; [apply Hl; constructor|done]. }
  apply H; done.
Qed.

Lemma handleReg2_inv s src wire now : inv s -> inv (fst (handleReg2 s src wire now)).
Proof.
  intros I. unfold handleReg2. destruct (findGroupById s (drop 2 wire)) as [g|] eqn:Eg; [|done].
  apply findGroupById_elem in Eg as [Hin _].
  destruct (findLink s src) as [[gp lp]|] eqn:El; [by destruct (_ =? _)%nat|].
  destruct (Nat.leb_spec MAX_CONNS_PER_GROUP (length (links g))); [done|]. simpl.
  destruct I as [M Hn Hg]. unfold add_link. cbv zeta.
  set (g' := set_last_addr src (set_links (links g ++ [new_link (next_ptr s) src now]) g)).
  constructor.
  - cbn [m_Groups m_LinkMap m_EgressMap next_ptr]. rewrite shape_put_group. unfold g'. cbn [g_ptr links set_last_addr set_links].
    rewrite fmap_app. apply (maps_ok_add_link _ _ _ _ (g_ptr g) (lsh <$> links g) src); [exact M|by apply gsh_elem|exact El].
  - unfold put_group. simpl. by rewrite length_fmap.
  - cbn [m_Groups]. intros x [->|Hx]%elem_of_put_group; [|by apply Hg]. unfold g'. cbn [links set_last_addr set_links].
    destruct (Hg _ Hin). rewrite length_app. split; [simpl; lia|]. apply Forall_app. split; [done|].
    repeat constructor; unfold RECV_ACK_INT; simpl; lia.
Qed.

(** ** [onIngress] never follows a dangling pointer *)

Lemma onIngress_inv s src p now now2 rnd :
  inv s -> exists res s' out, onIngress s src p now now2 rnd = Some (res, s', out) /\ inv s'.
Proof.
  intros I. unfold onIngress. cbv zeta.
  destruct (peekType p =? T_REG1).
  { destruct (_ =? REG_LEN); [|by eexists _, _, _]. destruct (rebuildWire p REG_LEN) as [w|]; [|by eexists _, _, _].
    pose proof (handleReg1_inv s src w now2 rnd I). destruct (handleReg1 s src w now2 rnd) as [s' out]. by eexists _, _, _. }
  destruct (peekType p =? T_REG2).
  { destruct (_ =? REG_LEN); [|by eexists _, _, _]. destruct (rebuildWire p REG_LEN) as [w|]; [|by eexists _, _, _].
    pose proof (handleReg2_inv s src w now2 I). destruct (handleReg2 s src w now2) as [s' out]. by eexists _, _, _. }
  destruct (findLink s src) as [[gp lp]|] eqn:El; [|by eexists _, _, _].
  destruct (findLink_deref _ _ _ _ I El) as (g & l & -> & Hg & Hgp & El' & Hl & Hlp & Ha).
  cbn [mbind option_bind]. rewrite El'. cbn [mbind option_bind].
  destruct (inv_group _ I g Hg) as [_ Hok].
  assert (link_ok l) as Hlok by (rewrite list.Forall_forall in Hok; auto).
  destruct (link_ingress_ok now (if CPacket.getLength p <=? 65535 then CPacket.getLength p + 16 else 0)
    (CPacket.getLength p <=? 65535) src p g l Hlok) as (res & out & g' & l' & -> & E1 & E2 & E3 & E4).
  simpl. eexists _, _, _. split; [reflexivity|].
  apply (inv_put_same s g); [done|done| |].
  - rewrite <- E3. apply put_link_shape.
    + exists l. rewrite E4. split; [done|]. by rewrite E1.
    + rewrite E4. destruct I as [M _ _]. by apply (mo_ptr _ _ _ _ M _ _ (gsh_elem _ _ Hg)).
  - apply put_link_ok; [by rewrite E4|done].
Qed.

(** ** Binding *)

Lemma bindGroup_inv s peer sock : inv s -> exists s', bindGroup s peer sock = Some s' /\ inv s'.
Proof.
  intros I. unfold bindGroup. destruct (findLink s peer) as [[gp lp]|] eqn:El; [|by eexists].
  destruct (findLink_deref _ _ _ _ I El) as (g & l & -> & Hg & Hgp & _). cbn [mbind option_bind]. cbv zeta.
  set (g' := if has_last_addr _ then _ else _).
  assert (gsh g' = gsh g /\ links g' = links g) as [Hs Hl] by (unfold g'; by destruct (has_last_addr _)). clearbody g'.
  eexists. split; [reflexivity|].
  assert (inv (put_group g' s)) as I1
    by (apply (inv_put_same s g); [done|done|done|rewrite Hl; by apply (inv_group _ I)]).
  destruct I1 as [[M1 M2 M3 M4 M5] Hn1 Hg1]. constructor; [|done|done]. constructor; try done.
  cbn [m_EgressMap]. intros a q [[<- <-]|[_ Hq]]%lookup_insert_Some; [|by apply (M5 a)].
  exists (lsh <$> links g). cbn [m_Groups]. rewrite shape_put_group.
  injection Hs as Hp Hl'. rewrite Hp, Hl', put_shape_same; [rewrite <- Hgp; by apply gsh_elem|apply I|by apply gsh_elem].
Qed.

(** ** The periodic pass *)

Lemma flush_links_ok now ls :
  Forall link_ok ls -> exists out ls', flush_links now ls = Some (out, ls') /\ lsh <$> ls' = lsh <$> ls /\ Forall link_ok ls'.
Proof.
  induction 1 as [|l ls [Hc Hlen] Hf (out & ls' & E & Hs & Hok)]; simpl; [by eexists _, _|].
  assert (exists o l', (if (ack_count l >? 0) && (count_microseconds (now - ack_first_pending l) >=? ACK_FLUSH_US)
         then sendSrtlaAck (addr l) l else Some ([], l)) = Some (o, l') /\ lsh l' = lsh l /\ link_ok l') as (o & l' & -> & Hl & Hok').
  { destruct (_ && _); [apply sendSrtlaAck_ok; [unfold RECV_ACK_INT in *; lia|done]|]. by eexists _, _. }
  cbn [mbind option_bind]. rewrite E. simpl. eexists _, _. split; [done|]. split; [|by constructor].
  change (lsh l' :: (lsh <$> ls') = lsh l :: (lsh <$> ls)). by rewrite Hl, Hs.
Qed.

Lemma flush_groups_ok now gs :
  (forall g, g ∈ gs -> Forall link_ok (links g)) ->
  exists out gs', flush_groups now gs = Some (out, gs') /\ gsh <$> gs' = gsh <$> gs
    /\ (forall g', g' ∈ gs' -> exists g, g ∈ gs /\ length (links g') = length (links g) /\ Forall link_ok (links g')).
Proof.
  induction gs as [|g gs IH]; intros Hok; [eexists _, _; split; [done|]; split; [done|]; by intros ? ?%not_elem_of_nil|].
  destruct (IH ltac:(intros; apply Hok; by constructor)) as (out & gs' & E & Hs & Hg).
  destruct (flush_links_ok now (links g) (Hok g ltac:(constructor))) as (o & ls & El & Hls & Hlok).
  cbn [flush_groups]. rewrite El. cbn [mbind option_bind]. rewrite E. cbn [mbind option_bind fst snd].
  eexists _, _. split; [reflexivity|]. split.
  - rewrite !fmap_cons, Hs. f_equal. unfold gsh. simpl. by rewrite Hls.
  - intros g' [->|Hin]%elem_of_cons.
    + exists g. split; [constructor|]. simpl. split; [|done].
      rewrite <- (length_fmap lsh ls), Hls. apply length_fmap.
    + destruct (Hg _ Hin) as (g0 & ? & ? & ?). exists g0. split; [by constructor|done].
Qed.

Lemma cleanup_links_ok now ls out kept gone :
  cleanup_links now ls = (out, kept, gone) -> NoDup (addr <$> ls) ->
  (lsh <$> kept) `sublist_of` (lsh <$> ls)
  /\ (forall lp a, (lp, a) ∈ lsh <$> ls -> (a ∈ gone <-> (lp, a) ∉ lsh <$> kept))
  /\ (forall a, a ∈ gone -> exists lp, (lp, a) ∈ lsh <$> ls)
  /\ (Forall link_ok ls -> Forall link_ok kept).
Proof.
  revert out kept gone. induction ls as [|l ls IH]; intros out kept gone E Hnd.
  { simpl in E. simplify_eq. split; [constructor|]. split; [by intros ?? ?%not_elem_of_nil|].
    split; [by intros ? ?%not_elem_of_nil|done]. }
  cbn [cleanup_links] in E. destruct (cleanup_links now ls) as [[o k] gn] eqn:Er.
  rewrite fmap_cons in Hnd. apply list.NoDup_cons in Hnd as [Hni Hnd].
  destruct (IH _ _ _ eq_refl Hnd) as (Hsub & Hiff & Hls & Hok).
  assert (forall lp, (lp, addr l) ∉ lsh <$> ls) as Hna.
  { intros lp (x & Ex & Hx)%list_elem_of_fmap. apply Hni, list_elem_of_fmap. exists x. unfold lsh in Ex. by simplify_eq. }
  assert (addr l ∉ gn) as Hng by (intros (lp & Hlp)%Hls; by eapply Hna).
  assert (Hkeep : forall l', lsh l' = lsh l -> (link_ok l -> link_ok l') ->
    (lsh <$> (l' :: k)) `sublist_of` (lsh <$> l :: ls)
    /\ (forall lp a, (lp, a) ∈ lsh <$> l :: ls -> (a ∈ gn <-> (lp, a) ∉ lsh <$> (l' :: k)))
    /\ (forall a, a ∈ gn -> exists lp, (lp, a) ∈ lsh <$> l :: ls)
    /\ (Forall link_ok (l :: ls) -> Forall link_ok (l' :: k))).
  { intros l' El Hl'. rewrite !fmap_cons, El. split; [by apply sublist_skip|]. split.
    - intros lp a [Hx|Hin]%elem_of_cons.
      + unfold lsh in Hx. simplify_eq. split; [done|]. intros Hc. exfalso. apply Hc. constructor.
      + rewrite (Hiff _ _ Hin), not_elem_of_cons. split; [|tauto]. intros Hk. split; [|done].
        intros Hx. unfold lsh in Hx. simplify_eq. by eapply Hna.
    - split.
      + intros a (lp & Hlp)%Hls. exists lp. by constructor.
      + intros [? ?]%list.Forall_cons. constructor; auto. }
  destruct (_ >? 4000).
  - simplify_eq. rewrite fmap_cons. split; [by apply sublist_cons|]. split; [|split].
    + intros lp a [Hx|Hin]%elem_of_cons.
      * unfold lsh in Hx. simplify_eq. split; [|intros; constructor]. intros _ Hk.
        apply (Hna (l_ptr l)). by eapply elem_of_sublist.
      * rewrite elem_of_cons, (Hiff _ _ Hin). split; [|tauto]. intros [->|?]; [|done]. exfalso. by eapply Hna.
    + intros a [->|(lp & Hlp)%Hls]%elem_of_cons; [exists (l_ptr l); constructor|exists lp; by constructor].
    + intros [_ ?]%list.Forall_cons. auto.
  - destruct (recovering l); [destruct (_ >=? 5000); [|destruct (_ >=? 1000)]|]; simplify_eq;
      match goal with |- (lsh <$> (?l' :: _)) `sublist_of` _ /\ _ =>
        apply (Hkeep l'); [done|by intros []] end.
Qed.

Lemma maps_addr_NoDup ss lm em next p ls : maps_ok ss lm em next -> (p, ls) ∈ ss -> NoDup (snd <$> ls).
Proof.
  intros [_ H2 H3 _ _] Hp. destruct (H2 _ _ Hp) as [_ Hnd].
  assert (forall lp a, (lp, a) ∈ ls -> lm !! a = Some (p, lp)) as Hlk by (intros lp a Hl; by apply (H3 _ _ _ _ Hp Hl)).
  clear - Hnd Hlk. induction ls as [|[lp a] ls IH]; [constructor|].
  apply list.NoDup_cons in Hnd as [Hni Hnd]. apply list.NoDup_cons. split.
  - intros ([lp' a'] & E & Hin)%list_elem_of_fmap. simpl in E. subst a'. apply Hni. simpl.
    assert (Some (p, lp) = Some (p, lp')) as E2.
    { rewrite <- (Hlk lp a) by constructor. apply Hlk. by constructor. }
    simplify_eq. apply list_elem_of_fmap. by exists (lp', a).
  - apply IH; [done|]. intros lp' a' Hin. apply Hlk. by constructor.
Qed.

Lemma elem_of_put_group_other g' s g : g ∈ m_Groups s -> g_ptr g <> g_ptr g' -> g ∈ m_Groups (put_group g' s).
Proof.
  intros Hin Hne. unfold put_group. simpl. apply list_elem_of_fmap. exists g.
  by destruct (Nat.eqb_spec (g_ptr g) (g_ptr g')).
Qed.

Lemma elem_of_put_group_self g' s g : g ∈ m_Groups s -> g_ptr g = g_ptr g' -> g' ∈ m_Groups (put_group g' s).
Proof.
  intros Hin He. unfold put_group. simpl. apply list_elem_of_fmap. exists g.
  by destruct (Nat.eqb_spec (g_ptr g) (g_ptr g')).
Qed.

(** The cleanup of one group. *)
Definition drop_idle (s : state) (g : Group) (kept : list Link) (gone : list sockaddr) : state :=
  let s := put_group (set_links kept g) s in
  mkState (m_Groups s) (foldl (fun m a => delete a m) (m_LinkMap s) gone) (m_EgressMap s)
    (m_LastCleanup s) (m_LastLinkPass s) (m_HaveTimers s) (next_ptr s).

Lemma drop_idle_inv s g now out kept gone :
  inv s -> g ∈ m_Groups s -> cleanup_links now (links g) = (out, kept, gone) -> inv (drop_idle s g kept gone).
Proof.
  intros [M Hn Hg] Hin E. pose proof (gsh_elem _ _ Hin) as Hs.
  assert (NoDup (addr <$> links g)) as Hnd.
  { pose proof (maps_addr_NoDup _ _ _ _ _ _ M Hs) as H. by rewrite <- list_fmap_compose in H. }
  destruct (cleanup_links_ok _ _ _ _ _ E Hnd) as (Hsub & Hiff & Hls & Hok).
  unfold drop_idle. constructor.
  - cbn [m_Groups m_LinkMap m_EgressMap next_ptr]. rewrite shape_put_group. cbn [set_links g_ptr links].
    by apply (maps_ok_drop_links _ _ _ _ (g_ptr g) (lsh <$> links g)).
  - simpl. by rewrite length_fmap.
  - cbn [m_Groups]. intros x [->|Hx]%elem_of_put_group; [|by apply Hg]. cbn [set_links links].
    destruct (Hg _ Hin). split; [|auto]. apply sublist_length in Hsub. rewrite !length_fmap in Hsub. lia.
Qed.

Lemma cleanup_groups_inv now gs s :
  inv s -> (forall g, g ∈ gs -> g ∈ m_Groups s) -> NoDup (g_ptr <$> gs) -> inv (fst (cleanup_groups now gs s)).
Proof.
  revert s. induction gs as [|g gs IH]; intros s I Hin Hnd; [done|].
  cbn [cleanup_groups]. destruct (cleanup_links now (links g)) as [[out kept] gone] eqn:E.
  pose proof (Hin g ltac:(constructor)) as Hg.
  pose proof (drop_idle_inv _ _ _ _ _ _ I Hg E) as I1. cbv zeta. fold (drop_idle s g kept gone).
  rewrite fmap_cons in Hnd. apply list.NoDup_cons in Hnd as [Hni Hnd].
  assert (Hother : forall g', g' ∈ gs -> g' ∈ m_Groups (drop_idle s g kept gone) /\ g_ptr g' <> g_ptr g).
  { intros g' Hg'. assert (g_ptr g' <> g_ptr g) as Hne
      by (intros Ep; apply Hni, list_elem_of_fmap; by exists g').
    split; [|done]. unfold drop_idle. cbn [m_Groups]. apply elem_of_put_group_other; [apply Hin; by constructor|done]. }
  assert (Hself : set_links kept g ∈ m_Groups (drop_idle s g kept gone))
    by (unfold drop_idle; cbn [m_Groups]; by eapply elem_of_put_group_self).
  set (s2 := match kept with [] => _ | _ => _ end).
  assert (inv s2 /\ forall g', g' ∈ gs -> g' ∈ m_Groups s2) as [I2 H2].
  { unfold s2. destruct kept; [|split; [done|intros g' Hg'; by apply Hother]].
    destruct (_ >? 4000); [|split; [done|intros g' Hg'; by apply Hother]].
    split; [by apply inv_remove_empty|]. intros g' [Hg' Hne]%Hother. unfold removeGroup. cbn [m_Groups].
    by apply list_elem_of_filter. }
  clearbody s2. specialize (IH s2 I2 H2 Hnd). by destruct (cleanup_groups now gs s2).
Qed.

Lemma ptr_NoDup s : inv s -> NoDup (g_ptr <$> m_Groups s).
Proof.
  intros [M _ _]. pose proof (mo_nodup _ _ _ _ M) as H. by rewrite <- list_fmap_compose in H.
Qed.

Lemma inv_timers s a b h : inv s ->
  inv (mkState (m_Groups s) (m_LinkMap s) (m_EgressMap s) a b h (next_ptr s)).
Proof. intros [M Hn Hg]. by constructor. Qed.

Lemma onPeriodic_inv s now : inv s -> exists s' out, onPeriodic s now = Some (s', out) /\ inv s'.
Proof.
  intros I. unfold onPeriodic. destruct (negb (m_HaveTimers s)); [eexists _, _; split; [done|by apply inv_timers]|].
  assert (exists s1 out1, (if count_microseconds (now - m_LastLinkPass s) >=? LINK_PASS_US then
           r ← flush_groups now (m_Groups s);
           Some (mkState (snd r) (m_LinkMap s) (m_EgressMap s) (m_LastCleanup s) now (m_HaveTimers s) (next_ptr s), fst r)
         else Some (s, [])) = Some (s1, out1) /\ inv s1) as (s1 & out1 & -> & I1).
  { destruct (_ >=? _); [|by eexists _, _]. destruct I as [M Hn Hg].
    destruct (flush_groups_ok now (m_Groups s)) as (out & gs' & -> & Hs & Hgs); [intros g Hin; by apply Hg|].
    simpl. eexists _, _. split; [reflexivity|]. constructor; simpl.
    - by rewrite Hs.
    - rewrite <- (length_fmap gsh gs'), Hs, length_fmap. done.
    - intros g' (g & Hin & -> & ?)%Hgs. split; [by apply Hg|done]. }
  cbn [mbind option_bind]. destruct (_ >=? 3000); [|by eexists _, _]. unfold doCleanup.
  pose proof (cleanup_groups_inv now (m_Groups s1) s1 I1 ltac:(done) (ptr_NoDup _ I1)) as I2.
  destruct (cleanup_groups now (m_Groups s1) s1) as [s2 outs]. eexists _, _. split; [reflexivity|]. by apply inv_timers.
Qed.

(** ** Egress *)

Lemma onEgress_total s peer p : inv s -> exists b out, onEgress s peer p = Some (b, out).
Proof.
  intros [M _ _]. unfold onEgress. destruct (findGroupByEgress s peer) as [gp|] eqn:E; [|by eexists _, _].
  destruct (mo_em _ _ _ _ M _ _ E) as (ls & Hs). destruct (group_at_shape _ _ _ Hs) as (g & -> & _ & _).
  cbn [mbind option_bind]. destruct (links g); [by eexists _, _|]. repeat case_match; by eexists _, _.
Qed.

(** ** Runs *)

Inductive event :=
| EvIngress (src : sockaddr) (p : CPacket.t) (now now2 : Z) (rnd : list Z)
| EvEgress (peer : sockaddr) (p : CPacket.t)
| EvBind (peer : sockaddr) (sock : Z)
| EvPeriodic (now : Z).

Definition step (s : state) (ev : event) : option (state * list output) :=
  match ev with
  | EvIngress src p now now2 rnd => r ← onIngress s src p now now2 rnd; Some (snd (fst r), snd r)
  | EvEgress peer p => r ← onEgress s peer p; Some (s, snd r)
  | EvBind peer sock => s' ← bindGroup s peer sock; Some (s', [])
  | EvPeriodic now => onPeriodic s now
  end.

Fixpoint run (s : state) (evs : list event) : option (state * list output) :=
  match evs with
  | [] => Some (s, [])
  | ev :: evs => r ← step s ev; rs ← run (fst r) evs; Some (fst rs, snd r ++ snd rs)
  end.

Lemma rec_step_inv s ev : inv s -> exists s' out, step s ev = Some (s', out) /\ inv s'.
Proof.
  intros I. destruct ev as [src p now now2 rnd|peer p|peer sock|now]; simpl.
  - destruct (onIngress_inv s src p now now2 rnd I) as (res & s' & out & -> & I'). by eexists _, _.
  - destruct (onEgress_total s peer p I) as (b & out & ->). by eexists _, _.
  - destruct (bindGroup_inv s peer sock I) as (s' & -> & I'). by eexists _, _.
  - by apply onPeriodic_inv.
Qed.

Lemma create_inv : inv create.
Proof.
  constructor; simpl; [|unfold MAX_GROUPS; lia|by intros g ?%not_elem_of_nil]. constructor; simpl.
  - constructor.
  - by intros ?? ?%not_elem_of_nil.
  - by intros ???? ?%not_elem_of_nil.
  - intros a p lp H. by rewrite lookup_empty in H.
  - intros a p H. by rewrite lookup_empty in H.
Qed.

Lemma run_inv s evs : inv s -> exists s' out, run s evs = Some (s', out) /\ inv s'.
Proof.
  revert s. induction evs as [|ev evs IH]; intros s I; simpl; [by eexists _, _|].
  destruct (rec_step_inv s ev I) as (s1 & o & -> & I1). simpl. destruct (IH s1 I1) as (s2 & os & -> & I2).
  simpl. by eexists _, _.
Qed.
