(* ===== verification/SrtlaRecWire.v ===== *)
(** * The SRTLA receiver's byte-level helpers

    Rebuilding the datagram of a received packet, comparing group ids, the
    per-link acknowledgement batches and the window that recognises the first
    copy of a packet. *)

From S2P Require Import Prelude SeqNo Packet Float64 SrtlaRec SrtlaRecInv.
Import SrtlaRec.

(** ** [rebuildWire] reverses the channel's conversion *)

Lemma u8_land x : u8 x = Z.land x 255.
Proof. unfold u8. by rewrite land_255. Qed.

Lemma store_be32_rev w : store_be32 w = rev (le_bytes w).
Proof. unfold store_be32, le_bytes. simpl. by rewrite !u8_land. Qed.

Lemma store_be32_bswap w : is_u32 w -> store_be32 (bswap32 w) = le_bytes w.
Proof.
  intros H. rewrite store_be32_rev. pose proof (le_word_le_bytes w H) as E. rewrite <- E at 1.
  rewrite bswap32_le_word by apply byte_range. rewrite le_bytes_le_word by apply byte_range. done.
Qed.

Lemma be_words_swap n data : Forall is_byte data -> be_words n (swap_words n data) = data.
Proof.
  revert data. induction n as [|n IH]; intros data Hd; [by destruct data|].
  destruct data as [|b0 [|b1 [|b2 [|b3 rest]]]]; try done.
  apply Forall_byte_4 in Hd as [(H0 & H1 & H2 & H3) Hr].
  rewrite swap_words_reverse by done. cbn [be_words].
  rewrite store_be32_rev, le_bytes_le_word by done. simpl. by rewrite IH.
Qed.

Lemma rebuildWire_exact p outcap :
  CPacket.wf p -> 16 + CPacket.getLength p <= outcap ->
  rebuildWire (CPacket.toHostByteOrder p) outcap = Some (CPacket.datagram p).
Proof.
  intros Hwf Hcap. pose proof Hwf as (H1 & H2 & H3 & H4 & Hd).
  assert (CPacket.getLength (CPacket.toHostByteOrder p) = CPacket.getLength p) as Hlen.
  { unfold CPacket.toHostByteOrder, CPacket.getLength. cbv zeta.
    destruct (CPacket.isControl _); cbn [CPacket.m_pcData CPacket.set_data CPacket.swap_header]; [|done].
    f_equal. by apply swap_words_facts. }
  unfold rebuildWire. cbv zeta. rewrite Hlen, !Z.gtb_ltb.
  assert (0 <= CPacket.getLength p) by (unfold CPacket.getLength; lia).
  destruct (Z.ltb_spec outcap (CPacket.getLength p)); [lia|].
  destruct (Z.ltb_spec outcap (16 + CPacket.getLength p)); [lia|]. f_equal.
  unfold CPacket.toHostByteOrder, CPacket.datagram. cbv zeta.
  destruct (CPacket.isControl (CPacket.swap_header p)) eqn:Ec.
  - change (CPacket.isControl (CPacket.set_data ?d ?q)) with (CPacket.isControl q). rewrite Ec.
    cbn [CPacket.set_data CPacket.swap_header CPacket.ph_seqno CPacket.ph_msgno CPacket.ph_timestamp CPacket.ph_id CPacket.m_pcData].
    rewrite !store_be32_bswap by done. unfold CPacket.getLength. cbn [CPacket.swap_header CPacket.m_pcData].
    by rewrite be_words_swap.
  - rewrite Ec. cbn [CPacket.swap_header CPacket.ph_seqno CPacket.ph_msgno CPacket.ph_timestamp CPacket.ph_id CPacket.m_pcData].
    by rewrite !store_be32_bswap.
Qed.

(** the datagram rebuilt from a received packet is the datagram that was
    received, byte for byte, whenever it fits the buffer; a larger one is
    refused. *)
Theorem rebuild_wire_roundtrip (p : CPacket.t) (outcap : Z) :
  CPacket.wf p ->
  rebuildWire (CPacket.toHostByteOrder p) outcap =
    if 16 + CPacket.getLength p <=? outcap then Some (CPacket.datagram p) else None.
Proof.
  intros Hwf. destruct (Z.leb_spec (16 + CPacket.getLength p) outcap); [by apply rebuildWire_exact|].
  pose proof Hwf as (_ & _ & _ & _ & Hd).
  assert (CPacket.getLength (CPacket.toHostByteOrder p) = CPacket.getLength p) as Hlen.
  { unfold CPacket.toHostByteOrder, CPacket.getLength. cbv zeta.
    destruct (CPacket.isControl _); cbn [CPacket.m_pcData CPacket.set_data CPacket.swap_header]; [|done].
    f_equal. by apply swap_words_facts. }
  unfold rebuildWire. cbv zeta. rewrite Hlen, !Z.gtb_ltb.
  destruct (Z.ltb_spec outcap (CPacket.getLength p)); [done|].
  destruct (Z.ltb_spec outcap (16 + CPacket.getLength p)); [done|lia].
Qed.

Lemma rebuild_wire_roundtrip_witness :
  let p := CPacket.mk 0x92 0 0 0 [7; 8; 9; 10; 11] in
  rebuildWire (CPacket.toHostByteOrder p) 258 = Some (CPacket.datagram p).
Proof.
  intros p. rewrite (rebuild_wire_roundtrip p 258); [reflexivity|].
  unfold p, CPacket.wf, is_u32. cbn [CPacket.ph_seqno CPacket.ph_msgno CPacket.ph_timestamp CPacket.ph_id CPacket.m_pcData].
  split_and!; try lia. repeat (apply Forall_cons_2; [unfold is_byte; lia|]). constructor.
Defined.

(** ** Group ids *)

Lemma foldl_lor_zero l d :
  0 <= d -> Forall (fun '(x, y) => is_byte x /\ is_byte y) l ->
  foldl (fun diff '(x, y) => Z.lor diff (u8 (Z.lxor x y))) d l = 0 <-> d = 0 /\ Forall (fun '(x, y) => x = y) l.
Proof.
  revert d. induction l as [|[x y] l IH]; intros d Hd Hl; simpl.
  - split; [intros ->; by split|by intros [-> _]].
  - apply list.Forall_cons in Hl as [[Hx Hy] Hl].
    assert (0 <= Z.lxor x y < 256) as Hr.
    { unfold is_byte in *. split; [apply Z.lxor_nonneg; lia|].
      destruct (Z.eq_dec (Z.lxor x y) 0); [lia|]. assert (0 <= Z.lxor x y) by (apply Z.lxor_nonneg; lia).
      change 256 with (2 ^ 8). apply Z.log2_lt_pow2; [lia|]. eapply Z.le_lt_trans; [apply Z.log2_lxor; lia|].
      apply Z.max_lub_lt; (destruct (Z.eq_dec x 0), (Z.eq_dec y 0); subst; try (simpl; lia); apply Z.log2_lt_pow2; lia). }
    assert (u8 (Z.lxor x y) = Z.lxor x y) as -> by (unfold u8; apply Z.mod_small; lia).
    rewrite IH; [|apply Z.lor_nonneg; lia|done]. rewrite Z.lor_eq_0_iff, Z.lxor_eq_0_iff, list.Forall_cons. tauto.
Qed.

(** The constant-time comparison of group ids decides equality. *)
Lemma ctEqual_spec a b n :
  Forall is_byte a -> Forall is_byte b -> length a = n -> length b = n ->
  (ctEqual a b n = true <-> a = b).
Proof.
  intros Ha Hb Hla Hlb. unfold ctEqual. rewrite take_ge by (rewrite length_zip; lia).
  rewrite Z.eqb_eq, foldl_lor_zero; [|lia|].
  - split; [|intros ->; split; [done|]].
    + intros [_ HF]. clear Ha Hb. revert b n Hla Hlb HF. induction a as [|x a IH]; intros [|y b] n Hla Hlb HF; simpl in *; try lia; [done|].
      apply list.Forall_cons in HF as [-> HF]. f_equal. apply (IH b (pred n)); [lia|lia|done].
    + clear. induction b as [|y b IH]; simpl; constructor; done.
  - clear Hla Hlb n. revert b Hb. induction Ha as [|x a Hx Ha IH]; intros b Hb; [constructor|].
    destruct Hb as [|y b Hy Hb]; [constructor|]. constructor; [done|]. by apply IH.
Qed.

(** ** First copies of a packet

    Reference definition: the numbers seen that lie less than [SN_WINDOW_SIZE]
    behind the newest one, as a set of whole sequence numbers. *)

Definition is_sn (x : Z) : Prop := 0 <= x < 2 ^ 31.

Definition behind (m x : Z) : Z := (m - x) mod 2 ^ 31.

Definition first_seen (st : option (Z * gset Z)) (sn : Z) : bool * option (Z * gset Z) :=
  match st with
  | None => (true, Some (sn, {[sn]}))
  | Some (m, seen) =>
    let ahead := behind sn m in
    if decide (0 < ahead < 2 ^ 30) then
      (true, Some (sn, {[sn]} ∪ filter (fun x => behind sn x < SN_WINDOW_SIZE) seen))
    else if decide (behind m sn < SN_WINDOW_SIZE /\ sn ∉ seen) then (true, Some (m, {[sn]} ∪ seen))
    else (false, Some (m, seen))
  end.

(** The window of a group holds the slots of the seen numbers. *)
Definition window_ok (g : Group) (st : option (Z * gset Z)) : Prop :=
  match st with
  | None => sn_valid g = false
  | Some (m, seen) =>
    sn_valid g = true /\ sn_max g = m /\ is_sn m
    /\ (forall x, x ∈ seen -> is_sn x /\ behind m x < SN_WINDOW_SIZE) /\ m ∈ seen
    /\ (forall x, is_sn x -> behind m x < SN_WINDOW_SIZE -> slot x ∈ sn_window g <-> x ∈ seen)
  end.

Lemma slot_mod x : slot x = x mod 65536.
Proof. unfold slot, SN_WINDOW_MASK, SN_WINDOW_SIZE. change (65536 - 1) with (Z.ones 16). by rewrite Z.land_ones by lia. Qed.

Lemma land_31 x : Z.land (i32 x) 0x7FFFFFFF = x mod 2 ^ 31.
Proof. change 0x7FFFFFFF with (Z.ones 31). rewrite Z.land_ones by lia. unfold i32. zlia. Qed.

Lemma slot_i32 x : slot (i32 x) = slot x.
Proof. rewrite !slot_mod. unfold i32. zlia. Qed.

Lemma elem_of_clear_slots n m win y :
  y ∈ clear_slots n m win <-> y ∈ win /\ forall k, 1 <= k <= Z.of_nat n -> y <> slot (m + k).
Proof.
  induction n as [|n IH]; cbn [clear_slots].
  - split; [intros H; split; [done|lia]|by intros [H _]].
  - rewrite elem_of_difference, IH, elem_of_singleton, slot_i32. split.
    + intros [[Hy Hk] Hn]. split; [done|]. intros k Hr. destruct (Z.eq_dec k (Z.of_nat (S n))) as [->|]; [done|].
      apply Hk. lia.
    + intros [Hy Hk]. split; [split; [done|]|]; [intros k Hr; apply Hk; lia|apply Hk; lia].
Qed.

(** Two numbers in the window have distinct slots. *)
Lemma slot_inj m x y :
  is_sn x -> is_sn y -> behind m x < SN_WINDOW_SIZE -> behind m y < SN_WINDOW_SIZE -> slot x = slot y -> x = y.
Proof. unfold is_sn, behind, SN_WINDOW_SIZE. rewrite !slot_mod. intros. zlia. Qed.

Section Advance.
Context (m sn x : Z).
Context (Hm : is_sn m) (Hs : is_sn sn) (Hx : is_sn x) (Hd : 0 < behind sn m < 2 ^ 30).

Lemma behind_trans : behind m x < SN_WINDOW_SIZE -> behind sn x = behind sn m + behind m x.
Proof using Hm Hs Hx Hd. unfold is_sn, behind, SN_WINDOW_SIZE in *. intros. zlia. Qed.

Lemma behind_new :
  behind sn x < behind sn m < SN_WINDOW_SIZE ->
  SN_WINDOW_SIZE <= behind m x /\ slot x = slot (m + (behind sn m - behind sn x)).
Proof using Hm Hs Hx Hd. rewrite !slot_mod. unfold is_sn, behind, SN_WINDOW_SIZE in *. intros. zlia. Qed.

Lemma behind_old k :
  behind sn m <= behind sn x < SN_WINDOW_SIZE -> 1 <= k <= behind sn m ->
  behind m x < SN_WINDOW_SIZE /\ slot x <> slot (m + k).
Proof using Hm Hs Hx Hd. rewrite !slot_mod. unfold is_sn, behind, SN_WINDOW_SIZE in *. intros. split; zlia. Qed.
End Advance.

Lemma behind_self m : behind m m = 0.
Proof. unfold behind. by rewrite Z.sub_diag. Qed.

(** Moving the window forward. *)
Lemma advance_ok g m seen sn win :
  window_ok g (Some (m, seen)) -> is_sn sn -> 0 < behind sn m < 2 ^ 30 ->
  win = (if behind sn m >=? SN_WINDOW_SIZE then ∅ else clear_slots (Z.to_nat (behind sn m)) m (sn_window g)) ->
  window_ok (set_window ({[slot sn]} ∪ win) sn g)
    (Some (sn, {[sn]} ∪ filter (fun x => behind sn x < SN_WINDOW_SIZE) seen)).
Proof.
  intros (Hv & Hmax & Hm & Hin & Hmin & Hw) Hs Hd Hwin. split_and!; [done|done|done| | |].
  - intros x [->%elem_of_singleton|[Hb Hx]%elem_of_filter]%elem_of_union; [split; [done|by rewrite behind_self]|].
    split; [by apply Hin|done].
  - set_solver.
  - intros x Hx Hb. cbn [set_window sn_window]. rewrite !elem_of_union, !elem_of_singleton, elem_of_filter.
    assert (slot x = slot sn <-> x = sn) as ->.
    { split; [|by intros ->]. apply (slot_inj sn); [done|done|done|by rewrite behind_self]. }
    assert (slot x ∈ win <-> x ∈ seen) as ->; [|tauto]. subst win. rewrite Z.geb_leb.
    destruct (Z.leb_spec SN_WINDOW_SIZE (behind sn m)) as [Hle|Hlt].
    + split; [set_solver|]. intros Hxs. destruct (Hin x Hxs) as [_ Hbm].
      rewrite (behind_trans m sn x) in Hb by done. assert (0 <= behind m x) by (unfold behind; zlia). lia.
    + rewrite elem_of_clear_slots. destruct (Z.lt_ge_cases (behind sn x) (behind sn m)) as [Hn|Ho].
      * destruct (behind_new m sn x) as [Hge Hsl]; try done. split.
        -- intros [_ Hk]. exfalso. apply (Hk (behind sn m - behind sn x)); [|done].
           assert (0 <= behind sn x) by (unfold behind; zlia). lia.
        -- intros Hxs. destruct (Hin x Hxs). lia.
      * destruct (behind_old m sn x Hm Hs Hx Hd 1) as [Hbm _]; [lia|lia|]. rewrite Hw by done. split; [tauto|].
        intros Hxs. split; [done|]. intros k Hk. apply (behind_old m sn x); try done; lia.
Qed.

Lemma trackSn_refines g st sn :
  window_ok g st -> is_sn sn ->
  fst (trackSn g sn) = fst (first_seen st sn) /\ window_ok (snd (trackSn g sn)) (snd (first_seen st sn)).
Proof.
  intros Hok Hs. destruct st as [[m seen]|]; unfold trackSn, first_seen.
  - pose proof Hok as (Hv & Hmax & Hm & Hin & Hmin & Hw). rewrite Hv, Hmax. cbn [negb]. rewrite !land_31.
    change ((sn - m) mod 2 ^ 31) with (behind sn m). change ((m - sn) mod 2 ^ 31) with (behind m sn).
    assert (0 <= behind sn m < 2 ^ 31) as Hr by (unfold behind; zlia).
    assert (0 <= behind m sn < 2 ^ 31) as Hr' by (unfold behind; zlia).
    rewrite u32_id by (unfold is_u32; lia). cbv zeta.
    destruct (Z.eqb_spec (behind sn m) 0) as [E0|N0].
    + assert (sn = m) as -> by (unfold behind, is_sn in *; zlia).
      rewrite decide_False by lia. rewrite decide_False by tauto. by split.
    + destruct (Z.ltb_spec (behind sn m) 0x40000000).
      * rewrite decide_True by lia. split; [done|]. cbn [fst snd]. eapply advance_ok; [done|done|lia|done].
      * rewrite (decide_False (P := 0 < behind sn m < 2 ^ 30)) by lia. rewrite Z.geb_leb.
        destruct (Z.leb_spec SN_WINDOW_SIZE (behind m sn)) as [|Hb]; [rewrite decide_False by lia; by split|].
        destruct (decide (slot sn ∈ sn_window g)) as [Hi|Hi]; rewrite (Hw sn Hs Hb) in Hi.
        -- rewrite decide_False by tauto. by split.
        -- rewrite decide_True by done. split; [done|]. cbn [fst snd]. split_and!; [done|done|done| |set_solver|].
           ++ intros x [->%elem_of_singleton|Hx]%elem_of_union; [done|by apply Hin].
           ++ intros x Hx Hbx. cbn [set_window sn_window]. rewrite !elem_of_union, !elem_of_singleton, Hw by done.
              assert (slot x = slot sn <-> x = sn) as ->; [|done].
              split; [|by intros ->]. by apply (slot_inj m).
  - cbn [window_ok] in Hok. rewrite Hok. cbn [negb fst snd]. split; [done|]. split_and!; [done|done|done| |set_solver|].
    + intros x ->%elem_of_singleton. split; [done|by rewrite behind_self].
    + intros x Hx Hb. cbn [set_window sn_window]. rewrite !elem_of_singleton. split; [|by intros ->].
      apply (slot_inj sn); [done|done|done|by rewrite behind_self].
Qed.

(** The answers over a whole stream of numbers. *)
Fixpoint track_all {A} (f : A -> Z -> bool * A) (a : A) (sns : list Z) : list bool :=
  match sns with [] => [] | sn :: rest => fst (f a sn) :: track_all f (snd (f a sn)) rest end.

Lemma track_all_refines g st sns :
  window_ok g st -> Forall is_sn sns -> track_all trackSn g sns = track_all first_seen st sns.
Proof.
  intros Hok Hf. revert g st Hok. induction Hf as [|sn sns Hs Hf IH]; intros g st Hok; [done|]. cbn [track_all].
  destruct (trackSn_refines g st sn Hok Hs) as [E Hok']. by rewrite E, (IH _ _ Hok').
Qed.

(** C31: on every stream of sequence numbers, wrapping ones included, a new
    group's 65536-bit circular window gives the answers of the reference
    definition that keeps the set of all numbers seen within the window: a
    packet is new when it is ahead of everything or in the window and not yet
    seen. *)
Theorem track_sn_refines (p : nat) (gid : list Z) (now : Z) (src : sockaddr) (sns : list Z) :
  Forall is_sn sns ->
  track_all trackSn (new_group p gid now src) sns = track_all first_seen None sns.
Proof. intros. by apply track_all_refines. Qed.

Lemma track_sn_refines_witness :
  let sns := [2 ^ 31 - 2; 3; 1; 2 ^ 31 - 2; 1; 65600; 3] in
  track_all trackSn (new_group 0 [] 0 no_addr) sns = [true; true; true; false; false; true; false].
Proof.
  intros sns. rewrite (track_sn_refines 0 [] 0 no_addr sns); [vm_compute; reflexivity|].
  unfold sns. repeat (apply Forall_cons_2; [unfold is_sn; lia|]). constructor.
Defined.

(** ** Acknowledgement batches *)

Definition pending (l : Link) : list Z := take (Z.to_nat (ack_count l)) (ack_log l).

Fixpoint be_numbers (bytes : list Z) : list Z :=
  match bytes with
  | b0 :: b1 :: b2 :: b3 :: rest => le_word b3 b2 b1 b0 :: be_numbers rest
  | _ => []
  end.

(** The sequence numbers an SRTLA-ACK datagram carries, for its receiver. *)
Definition acked (o : output) : list Z :=
  match o with
  | SendRaw _ (t0 :: t1 :: _ :: _ :: body) => if (t0 =? 0x91) && (t1 =? 0) then be_numbers body else []
  | _ => []
  end.

Inductive ack_event := AckData (now sn : Z) | AckFlush (now : Z).

Definition ack_step (l : Link) (ev : ack_event) : option (list output * Link) :=
  match ev with
  | AckData now sn => queue_ack now sn (addr l) l
  | AckFlush now =>
    r ← flush_links now [l];
    l' ← head (snd r); Some (fst r, l')
  end.

Fixpoint ack_run (l : Link) (evs : list ack_event) : option (list output * Link) :=
  match evs with
  | [] => Some ([], l)
  | ev :: rest =>
    r ← ack_step l ev;
    rs ← ack_run (snd r) rest;
    Some (fst r ++ fst rs, snd rs)
  end.

Fixpoint data_numbers (evs : list ack_event) : list Z :=
  match evs with
  | [] => []
  | AckData _ sn :: rest => sn :: data_numbers rest
  | AckFlush _ :: rest => data_numbers rest
  end.

(** One SRTLA-ACK datagram: its type, then its numbers. *)
Definition ack_datagram (dst : sockaddr) (ns : list Z) : output :=
  SendRaw dst (store_be32 0x91000000 ++ flat_map store_be32 ns).

Lemma be_numbers_store ns : Forall is_u32 ns -> be_numbers (flat_map store_be32 ns) = ns.
Proof.
  induction 1 as [|n ns Hn _ IH]; [done|]. cbn [flat_map]. rewrite store_be32_rev.
  change (rev (le_bytes n)) with
    [Z.land (Z.shiftr n 24) 255; Z.land (Z.shiftr n 16) 255; Z.land (Z.shiftr n 8) 255; Z.land n 255].
  cbn [app be_numbers]. rewrite IH. f_equal. by apply (le_word_le_bytes n).
Qed.

Lemma acked_datagram dst ns : Forall is_u32 ns -> acked (ack_datagram dst ns) = ns.
Proof. intros. unfold ack_datagram, acked. change (store_be32 0x91000000) with [145; 0; 0; 0]. cbn [app Z.eqb]. simpl. by apply be_numbers_store. Qed.

Definition ack_ok (l : Link) : Prop := link_ok l /\ Forall is_u32 (pending l).

(** What one send does to a batch. *)
Lemma sendSrtlaAck_spec dst l :
  0 < ack_count l <= RECV_ACK_INT -> length (ack_log l) = 10%nat ->
  exists l', sendSrtlaAck dst l = Some ([ack_datagram dst (pending l)], l') /\ pending l' = [] /\ link_ok l' /\ addr l' = addr l.
Proof.
  unfold RECV_ACK_INT. intros Hc Hl. unfold sendSrtlaAck. rewrite Hl, !Z.gtb_ltb. unfold RECV_ACK_INT.
  destruct (Z.leb_spec (ack_count l) 0), (Z.ltb_spec (Z.of_nat 10) (ack_count l)), (Z.ltb_spec 10 (ack_count l)); try lia.
  eexists. split; [done|]. split; [done|]. split; [|done]. split; [done|by simpl].
Qed.

Definition event_ok (ev : ack_event) : Prop := match ev with AckData _ sn => is_sn sn | AckFlush _ => True end.

(** A datagram is one batch of at most ten numbers, to the link's address. *)
Definition is_batch (a : sockaddr) (o : output) : Prop :=
  exists ns, o = ack_datagram a ns /\ (1 <= length ns <= 10)%nat.

(** A step keeps the numbers: those sent, then those still pending. *)
Definition ack_keeps (l : Link) (ns : list Z) (out : list output) (l' : Link) : Prop :=
  flat_map acked out ++ pending l' = pending l ++ ns /\ Forall (is_batch (addr l)) out
  /\ ack_ok l' /\ addr l' = addr l.

Lemma send_keeps l l0 ns :
  0 < ack_count l0 <= RECV_ACK_INT -> length (ack_log l0) = 10%nat -> addr l0 = addr l ->
  pending l0 = pending l ++ ns -> Forall is_u32 (pending l0) ->
  exists out l', sendSrtlaAck (addr l) l0 = Some (out, l') /\ ack_keeps l ns out l'.
Proof.
  intros Hc Hl Ha Hp Hu. destruct (sendSrtlaAck_spec (addr l) l0 Hc Hl) as (l' & E & Hp' & Hok & Ha').
  eexists _, _. split; [exact E|]. unfold ack_keeps, ack_ok. rewrite Hp'. split_and!; [| |done|constructor|congruence].
  - cbn [flat_map]. rewrite acked_datagram by done. by rewrite !app_nil_r.
  - repeat constructor. exists (pending l0). split; [done|]. unfold pending. rewrite length_take, Hl.
    unfold RECV_ACK_INT in Hc. lia.
Qed.

Lemma queue_ack_keeps l now sn :
  ack_ok l -> is_sn sn -> exists out l', queue_ack now sn (addr l) l = Some (out, l') /\ ack_keeps l [sn] out l'.
Proof.
  intros [[Hc Hl] Hu] Hs. unfold RECV_ACK_INT in Hc. unfold queue_ack.
  rewrite aset_Some by (unfold in_bounds; lia). cbn [mbind option_bind]. cbv zeta.
  rewrite u32_id by (unfold is_u32, is_sn in *; lia). set (l1 := set_ack _ _ _ l).
  assert (length (ack_log l1) = 10%nat) as Hl1 by (unfold l1; simpl; by rewrite length_insert).
  assert (ack_count l1 = ack_count l + 1) as Hc1 by done.
  assert (pending l1 = pending l ++ [sn]) as Hp1.
  { unfold pending. rewrite Hc1. unfold l1. cbn [set_ack ack_log].
    replace (Z.to_nat (ack_count l + 1)) with (S (Z.to_nat (ack_count l))) by lia.
    rewrite (take_S_r _ _ sn) by (apply list_lookup_insert_eq; lia). by rewrite take_insert_ge by lia. }
  assert (Forall is_u32 (pending l1)) as Hu1.
  { rewrite Hp1. apply Forall_app. split; [done|]. repeat constructor; unfold is_sn in *; lia. }
  assert (addr l1 = addr l) as Ha1 by done. clearbody l1.
  destruct (_ || _) eqn:Eb.
  - apply send_keeps; try done. unfold RECV_ACK_INT. lia.
  - eexists _, _. split; [done|]. apply orb_false_iff in Eb as [Eb _]. unfold ack_keeps, ack_ok, link_ok, RECV_ACK_INT in *.
    split_and!; try done; try lia.
Qed.

Lemma ack_step_keeps l ev :
  ack_ok l -> event_ok ev -> exists out l', ack_step l ev = Some (out, l') /\ ack_keeps l (data_numbers [ev]) out l'.
Proof.
  intros Hok He. destruct ev as [now sn|now]; cbn [ack_step data_numbers].
  - by apply queue_ack_keeps.
  - pose proof Hok as [[Hc Hl] Hu]. cbn [flush_links]. destruct (_ && _) eqn:Eb.
    + apply andb_true_iff in Eb as [Eb _].
      destruct (send_keeps l l []) as (out & l' & E & HK); try done; [lia|by rewrite app_nil_r|].
      exists out, l'. rewrite E. cbn. by rewrite app_nil_r.
    + exists [], l. split; [done|]. unfold ack_keeps. rewrite app_nil_r. split_and!; done.
Qed.

Lemma ack_run_keeps l evs :
  ack_ok l -> Forall event_ok evs -> exists out l', ack_run l evs = Some (out, l') /\ ack_keeps l (data_numbers evs) out l'.
Proof.
  intros Hok He. revert l Hok. induction He as [|ev evs He Hes IH]; intros l Hok.
  - exists [], l. split; [done|]. unfold ack_keeps. rewrite app_nil_r. split_and!; done.
  - destruct (ack_step_keeps l ev Hok He) as (o1 & l1 & E1 & K1 & B1 & Hok1 & A1).
    destruct (IH l1 Hok1) as (o2 & l2 & E2 & K2 & B2 & Hok2 & A2).
    exists (o1 ++ o2), l2. cbn [ack_run]. rewrite E1. cbn [mbind option_bind snd]. rewrite E2. split; [done|].
    rewrite A1 in B2. split_and!; [|by apply Forall_app|done|congruence].
    rewrite flat_map_app, <- app_assoc, K2, app_assoc, K1, <- app_assoc. f_equal. by destruct ev.
Qed.

(** C30: the SRTLA acknowledgements of a link are exactly-once and in order.
    Whatever the arrivals and the flush ticks, the numbers of the SRTLA-ACK
    datagrams sent, followed by those of the batch being filled, are the numbers
    of the data packets received; each datagram goes to the link's address with
    one to ten numbers; fewer than ten stay pending; no batch is overrun. *)
Theorem srtla_ack_exactly_once (p : nat) (src : sockaddr) (t0 : Z) (evs : list ack_event) :
  Forall event_ok evs ->
  exists out l', ack_run (new_link p src t0) evs = Some (out, l')
    /\ flat_map acked out ++ pending l' = data_numbers evs
    /\ Forall (is_batch src) out /\ (length (pending l') < 10)%nat.
Proof.
  intros He. destruct (ack_run_keeps (new_link p src t0) evs) as (out & l' & E & K & B & [[Hc Hl] _] & _); [|done|].
  - repeat split; simpl; unfold RECV_ACK_INT; try lia. constructor.
  - exists out, l'. split_and!; try done. unfold pending. rewrite length_take, Hl. unfold RECV_ACK_INT in Hc. lia.
Qed.

Lemma srtla_ack_exactly_once_witness :
  exists out l', ack_run (new_link 0 no_addr 0) [AckData 0 5; AckFlush 9000; AckData 9500 7; AckFlush 11000; AckData 12000 9]
    = Some (out, l') /\ flat_map acked out ++ pending l' = [5; 7; 9].
Proof.
  destruct (srtla_ack_exactly_once 0 no_addr 0
    [AckData 0 5; AckFlush 9000; AckData 9500 7; AckFlush 11000; AckData 12000 9]) as (out & l' & E & K & _).
  - repeat (apply Forall_cons_2; [simpl; unfold is_sn; lia|]). constructor.
  - exists out, l'. split; [exact E|exact K].
Defined.
