(* ===== verification/SrtlaRecProps.v ===== *)
(** * Behaviour of the SRTLA receiver

    What the registry promises to the sender and to SRT above it: registration
    by REG1, REG2 and REG3, admission of traffic, the fan-out of feedback and the
    cleanup of idle links and groups. *)

From S2P Require Import Prelude SeqNo Packet Float64 SrtlaRec SrtlaRecInv SrtlaRecWire.
Import SrtlaRec.

(** ** The registry over any run *)

Lemma link_map_iff s a gp lp :
  inv s -> m_LinkMap s !! a = Some (gp, lp) <->
    exists g l, g ∈ m_Groups s /\ l ∈ links g /\ g_ptr g = gp /\ l_ptr l = lp /\ addr l = a.
Proof.
  intros I. split.
  - intros Hf. destruct (findLink_deref _ _ _ _ I Hf) as (g & l & _ & ? & ? & _ & ? & ? & ?). eauto 10.
  - intros (g & l & Hgs & Hl & <- & <- & <-). destruct I as [M _ _].
    apply (mo_link _ _ _ _ M _ _ (l_ptr l) (addr l) (gsh_elem _ _ Hgs)). apply list_elem_of_fmap. by exists l.
Qed.

(** C4: after any sequence of datagrams, sends, bindings and periodic passes
    the receiver is in a consistent state, and it never follows a dangling
    pointer or leaves an array: the link map and the group list describe the
    same links, every address is registered at most once, the egress map leads to
    live groups, and the limits on groups, links and pending acknowledgements
    hold. *)
Theorem srtla_registry_invariant (evs : list event) :
  exists s out, run create evs = Some (s, out)
    /\ (forall a gp lp, m_LinkMap s !! a = Some (gp, lp) <->
          exists g l, g ∈ m_Groups s /\ l ∈ links g /\ g_ptr g = gp /\ l_ptr l = lp /\ addr l = a)
    /\ (forall a gp, m_EgressMap s !! a = Some gp -> exists g, group_at s gp = Some g /\ g ∈ m_Groups s)
    /\ NoDup (g_ptr <$> m_Groups s)
    /\ (length (m_Groups s) <= 200)%nat
    /\ (forall g, g ∈ m_Groups s -> (length (links g) <= 16)%nat
          /\ forall l, l ∈ links g -> 0 <= ack_count l < 10 /\ length (ack_log l) = 10%nat).
Proof.
  destruct (run_inv create evs create_inv) as (s & out & E & I). exists s, out. split; [done|].
  pose proof I as [M Hn Hg]. split_and!.
  - intros a gp lp. by apply link_map_iff.
  - intros a gp Ha. destruct (mo_em _ _ _ _ M _ _ Ha) as (ls & Hs).
    destruct (group_at_shape _ _ _ Hs) as (g & ? & ? & _). eauto.
  - by apply ptr_NoDup.
  - exact Hn.
  - intros g Hin. destruct (Hg g Hin) as [H1 H2]. split; [exact H1|]. intros l Hl.
    rewrite list.Forall_forall in H2. by apply H2.
Qed.

(** ** Admission *)

(** The answer to a packet that is no registration request, by its source and type. *)
Lemma admission s src p now now2 rnd :
  inv s ->
  exists res s' out, onIngress s src p now now2 rnd = Some (res, s', out)
    /\ (res = SRTLA_PASS <-> findLink s src <> None /\ peekType p < 0x9000 /\ CPacket.getLength p <= 65535)
    /\ (findLink s src = None -> peekType p <> T_REG1 -> peekType p <> T_REG2 -> s' = s /\ out = [])
    /\ (res = SRTLA_PASS -> m_LinkMap s' = m_LinkMap s /\ m_EgressMap s' = m_EgressMap s).
Proof.
  intros I.
  destruct (onIngress_inv s src p now now2 rnd I) as (res & s' & out & E & _). exists res, s', out. split; [done|].
  revert E. unfold onIngress. cbv zeta. destruct (Z.eqb_spec (peekType p) T_REG1) as [HT1|HT1].
  { intros E. assert (res = SRTLA_DROP) as -> by (repeat case_match; by simplify_eq). rewrite HT1. unfold T_REG1.
    split; [split; [done|lia]|done]. }
  destruct (Z.eqb_spec (peekType p) T_REG2) as [HT2|HT2].
  { intros E. assert (res = SRTLA_DROP) as -> by (repeat case_match; by simplify_eq). rewrite HT2. unfold T_REG2.
    split; [split; [done|lia]|done]. }
  destruct (findLink s src) as [[gp lp]|] eqn:El; [|intros; simplify_eq; split; [split; [done|tauto]|done]].
  destruct (findLink_deref _ _ _ _ I El) as (g & l & -> & Hg & Hgp & El' & Hl & Hlp & Ha).
  cbn [mbind option_bind]. rewrite El'. cbn [mbind option_bind].
  destruct (link_ingress _ _ _ _ _ _ _) as [[[[res' o'] g'] l']|] eqn:Ei; cbn [mbind option_bind]; [|done].
  intros [= -> <- ->]. split; [|done]. clear -Ei.
  assert (0 <= CPacket.getLength p) by (unfold CPacket.getLength; lia).
  revert Ei. unfold link_ingress. cbv zeta. rewrite Z.geb_leb.
  destruct (Z.eqb_spec (peekType p) T_KEEPALIVE) as [->|];
    [unfold T_KEEPALIVE; intros; simplify_eq; split; [done|lia]|].
  destruct (Z.leb_spec 0x9000 (peekType p)); [intros; simplify_eq; split; [done|lia]|].
  destruct (Z.leb_spec (CPacket.getLength p) 65535); cbn [negb orb]; [|intros; simplify_eq; split; [done|lia]].
  destruct (Z.ltb_spec (CPacket.getLength p + 16) SRT_MIN_LEN) as [Hs|]; [unfold SRT_MIN_LEN in Hs; lia|].
  destruct (_ =? 0); intros; bind_inv; simplify_eq; split; (try done); (repeat case_match); by simplify_eq.
Qed.

Lemma pass_registered s src p now now2 rnd :
  inv s -> findLink s src <> None -> peekType p < 0x9000 -> CPacket.getLength p <= 65535 ->
  exists s' out, onIngress s src p now now2 rnd = Some (SRTLA_PASS, s', out).
Proof.
  intros I Hf HT HL. destruct (admission s src p now now2 rnd I) as (res & s' & out & E & Hp & _).
  assert (res = SRTLA_PASS) as -> by tauto. eauto.
Qed.

(** C32: exactly the SRT traffic of registered links passes. A packet goes on to
    SRT when its source is a registered link, its type is below the SRTLA range
    and its length is that of a datagram; a packet from an unknown address that
    is no registration request is dropped and changes nothing. *)
Theorem srtla_admission (evs : list event) (s : state) (out0 : list output)
    (src : sockaddr) (p : CPacket.t) (now now2 : Z) (rnd : list Z) :
  run create evs = Some (s, out0) ->
  exists res s' out, onIngress s src p now now2 rnd = Some (res, s', out)
    /\ (res = SRTLA_PASS <-> findLink s src <> None /\ peekType p < 0x9000 /\ CPacket.getLength p <= 65535)
    /\ (findLink s src = None -> peekType p <> T_REG1 -> peekType p <> T_REG2 -> s' = s /\ out = [])
    /\ (res = SRTLA_PASS -> m_LinkMap s' = m_LinkMap s /\ m_EgressMap s' = m_EgressMap s).
Proof.
  intros Hrun. destruct (run_inv create evs create_inv) as (s0 & o0 & E0 & I).
  rewrite Hrun in E0. injection E0 as <- <-. by apply admission.
Qed.

(** ** From datagrams to packets *)

Lemma of_datagram_exact d :
  Forall is_byte d -> (16 <= length d)%nat ->
  exists q, CPacket.of_datagram d = Some q /\ CPacket.datagram q = d /\ CPacket.wf q
    /\ CPacket.ph_seqno q = le_word (nth 0 d 0) (nth 1 d 0) (nth 2 d 0) (nth 3 d 0).
Proof.
  intros Hb Hl.
  destruct d as [|a0 [|a1 [|a2 [|a3 [|b0 [|b1 [|b2 [|b3 [|c0 [|c1 [|c2 [|c3 [|d0 [|d1 [|d2 [|d3 rest]]]]]]]]]]]]]]]];
    cbn [length] in Hl; try lia.
  apply Forall_byte_4 in Hb as [(A0 & A1 & A2 & A3) Hb]. apply Forall_byte_4 in Hb as [(B0 & B1 & B2 & B3) Hb].
  apply Forall_byte_4 in Hb as [(C0 & C1 & C2 & C3) Hb]. apply Forall_byte_4 in Hb as [(D0 & D1 & D2 & D3) Hb].
  eexists. split; [reflexivity|]. split; [|split; [|reflexivity]].
  - unfold CPacket.datagram. cbn [CPacket.ph_seqno CPacket.ph_msgno CPacket.ph_timestamp CPacket.ph_id CPacket.m_pcData].
    by rewrite !le_bytes_le_word by done.
  - unfold CPacket.wf. cbn [CPacket.ph_seqno CPacket.ph_msgno CPacket.ph_timestamp CPacket.ph_id CPacket.m_pcData].
    split_and!; try (by apply le_word_range). done.
Qed.

(** A received packet shows its type, its length and its bytes. *)
Lemma recvfrom_wire d :
  Forall is_byte d -> (16 <= length d)%nat ->
  exists p, recvfrom d = Some p /\ peekType p = nth 0 d 0 * 2 ^ 8 + nth 1 d 0
    /\ CPacket.getLength p = Z.of_nat (length d) - 16
    /\ forall cap, Z.of_nat (length d) <= cap -> rebuildWire p cap = Some d.
Proof.
  intros Hb Hl. destruct (of_datagram_exact d Hb Hl) as (q & Eq & Ed & Hwf & Hs).
  assert (Z.of_nat (length d) = 16 + CPacket.getLength q) as HL.
  { rewrite <- Ed, length_datagram. unfold CPacket.getLength. lia. }
  exists (CPacket.toHostByteOrder q). unfold recvfrom.
  destruct (Nat.ltb_spec (length d) 16); [lia|]. rewrite Eq. split; [done|]. split_and!.
  - assert (CPacket.ph_seqno (CPacket.toHostByteOrder q) = bswap32 (CPacket.ph_seqno q)) as E
      by (unfold CPacket.toHostByteOrder; cbv zeta; by destruct (CPacket.isControl _)).
    unfold peekType. rewrite E, Hs.
    assert (forall i, is_byte (nth i d 0)) as Hn.
    { intros i. rewrite nth_lookup. destruct (d !! i) as [x|] eqn:Ex; [|simpl; unfold is_byte; lia].
      simpl. by apply (Forall_lookup_1 _ _ _ _ Hb Ex). }
    rewrite bswap32_le_word, le_word_sum by apply Hn. change 0xFFFF with (Z.ones 16).
    rewrite Z.land_ones, Z.shiftr_div_pow2 by lia. pose proof (Hn 0%nat). pose proof (Hn 1%nat).
    pose proof (Hn 2%nat). pose proof (Hn 3%nat). unfold is_byte in *. zlia.
  - unfold CPacket.toHostByteOrder, CPacket.getLength in *. cbv zeta.
    destruct (CPacket.isControl _); cbn [CPacket.m_pcData CPacket.set_data CPacket.swap_header]; [|lia].
    pose proof Hwf as (_ & _ & _ & _ & Hd).
    assert (length (swap_words (Z.to_nat (Z.of_nat (length (CPacket.m_pcData q)) / 4)) (CPacket.m_pcData q))
      = length (CPacket.m_pcData q)) as -> by (by apply swap_words_facts). lia.
  - intros cap Hcap. rewrite rebuildWire_exact by (done || lia). by rewrite Ed.
Qed.

(** ** Registration *)

Lemma receive_registration s src d now now2 rnd p :
  recvfrom d = Some p -> CPacket.getLength p = 242 -> rebuildWire p REG_LEN = Some d ->
  (peekType p = T_REG1 -> receive s src d now now2 rnd =
     Some (SRTLA_DROP, fst (handleReg1 s src d now2 rnd), snd (handleReg1 s src d now2 rnd)))
  /\ (peekType p = T_REG2 -> receive s src d now now2 rnd =
     Some (SRTLA_DROP, fst (handleReg2 s src d now2), snd (handleReg2 s src d now2))).
Proof.
  intros Er El Ew. unfold receive. rewrite Er. unfold onIngress. cbv zeta. rewrite El, Ew.
  change (242 <=? 65535) with true. cbn iota. change (242 + 16 =? REG_LEN) with true. cbn iota.
  split; intros ->.
  - change (T_REG1 =? T_REG1) with true. cbn iota. by destruct (handleReg1 s src d now2 rnd).
  - change (T_REG2 =? T_REG1) with false. change (T_REG2 =? T_REG2) with true. cbn iota.
    by destruct (handleReg2 s src d now2).
Qed.

Lemma recvfrom_reg t id0 :
  is_byte (t / 2 ^ 8) -> Forall is_byte id0 -> length id0 = 256%nat ->
  exists p, recvfrom (store_be16 t ++ id0) = Some p /\ CPacket.getLength p = 242
    /\ rebuildWire p REG_LEN = Some (store_be16 t ++ id0) /\ peekType p = t.
Proof.
  intros Ht Hb Hl. destruct (recvfrom_wire (store_be16 t ++ id0)) as (p & Er & Et & Elen & Ew).
  - apply Forall_app. split; [|done]. repeat constructor; unfold is_byte; rewrite ?u8_land, ?land_255; zlia.
  - rewrite length_app. cbn [store_be16 length]. lia.
  - rewrite length_app, Hl in *. cbn [store_be16 length] in *. exists p. split; [done|]. split; [lia|].
    split; [apply Ew; unfold REG_LEN; lia|]. rewrite Et. cbn [store_be16 app nth]. unfold is_byte, u8 in *.
    rewrite Z.shiftr_div_pow2 by lia. zlia.
Qed.

Definition reg1_datagram (client : list Z) : list Z := store_be16 T_REG1 ++ client.

(** The registry REG1 leaves once there is room. *)
Definition make_room (s : state) : option state :=
  if (MAX_GROUPS <=? length (m_Groups s))%nat
  then match eviction_victim (m_Groups s) with None => None | Some v => Some (removeGroup s v) end
  else Some s.

Lemma make_room_same s s0 : make_room s = Some s0 -> m_LinkMap s0 = m_LinkMap s /\ next_ptr s0 = next_ptr s
  /\ forall g, g ∈ m_Groups s0 -> g ∈ m_Groups s.
Proof.
  unfold make_room. destruct (_ <=? _)%nat; [|by intros [= <-]].
  destruct (eviction_victim (m_Groups s)) as [v|] eqn:Ev; [|done]. intros [= <-].
  apply eviction_victim_spec in Ev as (_ & Hl & _). unfold removeGroup. simpl. rewrite Hl. split_and!; try done.
  by intros g [_ ?]%list_elem_of_filter.
Qed.

Lemma findGroupById_last fid g :
  ctEqual (id g) fid SRTLA_ID_LEN = true -> forall gs lm em a b c n,
  findGroupById (mkState (gs ++ [g]) lm em a b c n) fid = Some g.
Proof. intros E gs lm em a b c n. unfold findGroupById. simpl. rewrite foldl_app. simpl. by rewrite E. Qed.

(** REG2 joins an address to the group just created. *)
Lemma join_new_group s0 gid src now src2 t2 :
  Forall is_byte gid -> length gid = 256%nat -> m_LinkMap s0 !! src2 = None ->
  let s1 := add_group s0 gid now src in
  exists s2, handleReg2 s1 src2 (store_be16 T_REG2 ++ gid) t2 = (s2, [sendReg3 src2])
    /\ m_LinkMap s2 = <[src2 := (next_ptr s0, S (next_ptr s0))]> (m_LinkMap s0).
Proof.
  intros Hb Hl Hf s1. unfold handleReg2. change (drop 2 (store_be16 T_REG2 ++ gid)) with gid.
  unfold s1, add_group. rewrite (findGroupById_last gid (new_group (next_ptr s0) gid now src)).
  - unfold findLink. cbn [m_LinkMap]. rewrite Hf. cbn [new_group links length]. eexists. split; [reflexivity|]. reflexivity.
  - apply ctEqual_spec; done.
Qed.

Lemma handleReg1_new s s0 src wire now rnd :
  findLink s src = None -> findGhostCreator s src = None -> make_room s = Some s0 ->
  let gid := take SRTLA_ID_HALF (drop 2 wire) ++ take SRTLA_ID_HALF rnd in
  handleReg1 s src wire now rnd = (add_group s0 gid now src, [SendRaw src (store_be16 T_REG2 ++ gid)]).
Proof.
  intros E1 E2 E3 gid. unfold handleReg1. rewrite E1, E2. cbv zeta. unfold make_room in E3.
  destruct (MAX_GROUPS <=? length (m_Groups s))%nat.
  - destruct (eviction_victim (m_Groups s)); [|done]. by injection E3 as <-.
  - by injection E3 as <-.
Qed.

(** C29: the registration handshake completes. A REG1 datagram from an unknown
    address, while there is room for a group, is answered with a REG2 datagram;
    sending that very datagram back, from any address that is not registered yet,
    is answered with REG3 and registers that address in the new group, leaving
    every other registration as it was; SRT packets from it then pass. *)
Theorem srtla_registration_handshake (evs : list event) (s s0 : state) (out0 : list output)
    (src src2 : sockaddr) (client rnd : list Z) (t1 t1' t2 t2' : Z) :
  run create evs = Some (s, out0) ->
  findLink s src = None -> findGhostCreator s src = None -> make_room s = Some s0 -> findLink s src2 = None ->
  Forall is_byte client -> length client = 256%nat -> Forall is_byte rnd -> (128 <= length rnd)%nat ->
  exists s1 s2 reply,
    receive s src (reg1_datagram client) t1 t1' rnd = Some (SRTLA_DROP, s1, [SendRaw src reply])
    /\ take 128 (drop 2 reply) = take 128 client
    /\ receive s1 src2 reply t2 t2' [] = Some (SRTLA_DROP, s2, [SendRaw src2 (store_be16 T_REG3 ++ replicate 30 0)])
    /\ findLink s2 src2 <> None
    /\ (forall a, a <> src2 -> findLink s2 a = findLink s a)
    /\ forall p now now2 r, peekType p < 0x9000 -> CPacket.getLength p <= 65535 ->
         exists s3 out, onIngress s2 src2 p now now2 r = Some (SRTLA_PASS, s3, out).
Proof.
  intros Hrun E1 E2 E3 E4 Hc Hlc Hr Hlr.
  destruct (recvfrom_reg T_REG1 client) as (p1 & R1 & L1 & W1 & P1); [unfold is_byte, T_REG1; zlia|done|done|].
  set (gid := take SRTLA_ID_HALF client ++ take SRTLA_ID_HALF rnd).
  assert (Forall is_byte gid) as Hbg by (apply Forall_app; split; by apply Forall_take).
  assert (length gid = 256%nat) as Hlg by (unfold gid, SRTLA_ID_HALF; rewrite length_app, !length_take; lia).
  destruct (recvfrom_reg T_REG2 gid) as (p2 & R2 & L2 & W2 & P2); [unfold is_byte, T_REG2; zlia|done|done|].
  destruct (make_room_same _ _ E3) as (Elm & Enp & _).
  destruct (join_new_group s0 gid src t1' src2 t2') as (s2 & J & Em); [done|done|by rewrite Elm|].
  exists (add_group s0 gid t1' src), s2, (store_be16 T_REG2 ++ gid).
  assert (receive s src (reg1_datagram client) t1 t1' rnd =
    Some (SRTLA_DROP, add_group s0 gid t1' src, [SendRaw src (store_be16 T_REG2 ++ gid)])) as G1.
  { unfold reg1_datagram. rewrite (proj1 (receive_registration s src _ t1 t1' rnd p1 R1 L1 W1) P1).
    by rewrite (handleReg1_new s s0) by done. }
  assert (receive (add_group s0 gid t1' src) src2 (store_be16 T_REG2 ++ gid) t2 t2' [] =
    Some (SRTLA_DROP, s2, [sendReg3 src2])) as G2.
  { rewrite (proj2 (receive_registration _ src2 _ t2 t2' [] p2 R2 L2 W2) P2). by rewrite J. }
  assert (findLink s2 src2 <> None) as Hf by (unfold findLink; by rewrite Em, lookup_insert_eq).
  split_and!; [exact G1| |exact G2|exact Hf| |].
  - change (drop 2 (store_be16 T_REG2 ++ gid)) with gid. unfold gid, SRTLA_ID_HALF.
    rewrite take_app_le by (rewrite length_take; lia). by rewrite take_take.
  - intros a Ha. unfold findLink. by rewrite Em, lookup_insert_ne, Elm.
  - intros p now now2 r HT HL.
    set (ev1 := EvIngress src p1 t1 t1' rnd). set (ev2 := EvIngress src2 p2 t2 t2' []).
    assert (exists o, run s [ev1; ev2] = Some (s2, o)) as (o & Hrun2).
    { unfold receive in G1, G2. unfold reg1_datagram in G1. rewrite R1 in G1. rewrite R2 in G2. cbn [run step ev1 ev2].
      unfold ev1, ev2. cbn [step]. rewrite G1. cbn [mbind option_bind fst snd]. rewrite G2. by eexists. }
    destruct (run_inv create evs create_inv) as (s' & o' & E' & I). rewrite Hrun in E'. injection E' as <- <-.
    destruct (run_inv s [ev1; ev2] I) as (s'' & o'' & E'' & I2). rewrite Hrun2 in E''. injection E'' as <- <-.
    by apply pass_registered.
Qed.

(** Addresses and packets for the concrete runs. *)
Definition addr_a : sockaddr := (AF_INET, [10; 0; 0; 1], [39; 15]).
Definition addr_b : sockaddr := (AF_INET, [192; 168; 1; 2], [156; 64]).
Definition client_id : list Z := replicate 256 7.
Definition random_half : list Z := replicate 128 9.
Definition packet_of (d : list Z) : CPacket.t := default (CPacket.mk 0 0 0 0 []) (recvfrom d).
Definition group_id : list Z := take 128 client_id ++ random_half.

(** REG1 and REG2 from [addr_a] at time 0. *)
Definition registered_a : list event :=
  [EvIngress addr_a (packet_of (reg1_datagram client_id)) 0 0 random_half;
   EvIngress addr_a (packet_of (store_be16 T_REG2 ++ group_id)) 0 0 []].

Lemma srtla_admission_witness :
  exists s out0, run create registered_a = Some (s, out0)
    /\ exists res s' out, onIngress s addr_a (CPacket.mk 5 0 0 0 [1; 2; 3]) 10 10 [] = Some (res, s', out) /\ res = SRTLA_PASS.
Proof.
  destruct (run create registered_a) as [[s out0]|] eqn:E; [|vm_compute in E; discriminate E].
  exists s, out0. split; [reflexivity|].
  destruct (srtla_admission registered_a s out0 addr_a (CPacket.mk 5 0 0 0 [1; 2; 3]) 10 10 [] E)
    as (res & s' & out & E' & Hp & _).
  exists res, s', out. split; [exact E'|]. apply Hp. split; [|split; [vm_compute; reflexivity|vm_compute; discriminate]].
  vm_compute in E. injection E as <- _. vm_compute. discriminate.
Defined.

Lemma srtla_registration_handshake_witness :
  exists s1 s2 reply,
    receive create addr_a (reg1_datagram client_id) 0 0 random_half = Some (SRTLA_DROP, s1, [SendRaw addr_a reply])
    /\ receive s1 addr_b reply 5 5 [] = Some (SRTLA_DROP, s2, [SendRaw addr_b (store_be16 T_REG3 ++ replicate 30 0)])
    /\ findLink s2 addr_b <> None.
Proof.
  destruct (srtla_registration_handshake [] create create [] addr_a addr_b client_id random_half 0 0 5 5)
    as (s1 & s2 & reply & H1 & _ & H2 & H3 & _); try reflexivity.
  - apply Forall_replicate. unfold is_byte. lia.
  - apply Forall_replicate. unfold is_byte. lia.
  - exists s1, s2, reply. split; [exact H1|]. split; [exact H2|exact H3].
Defined.

(** ** REG1 is idempotent *)

Lemma find_first_None {A} (f : A -> bool) l : (forall x, x ∈ l -> f x = false) -> find_first f l = None.
Proof.
  intros H. pose proof (find_first_spec f l) as Hs. destruct (find_first f l) as [x|]; [|done].
  destruct Hs as [Hx Ht]. by rewrite H in Ht.
Qed.

Lemma find_first_app {A} (f : A -> bool) l1 l2 :
  find_first f (l1 ++ l2) = match find_first f l1 with Some x => Some x | None => find_first f l2 end.
Proof. induction l1 as [|x l1 IH]; simpl; [done|]. by destruct (f x). Qed.

Lemma ghost_of_new s0 gid now src :
  (forall g, g ∈ m_Groups s0 -> is_ghost_of src g = false) ->
  findGhostCreator (add_group s0 gid now src) src = Some (new_group (next_ptr s0) gid now src).
Proof.
  intros H. unfold findGhostCreator, add_group. cbn [m_Groups]. rewrite find_first_app, find_first_None by done.
  simpl. unfold is_ghost_of. simpl. by rewrite bool_decide_eq_true_2.
Qed.

(** Repeating REG1 is harmless. Whatever the first REG1 of an address did,
    a second one from it, with any contents and at any time, changes nothing and
    repeats the answer: one unfinished group per address, one id per group. *)
Theorem srtla_reg1_idempotent (s : state) (src : sockaddr) (wire wire' rnd rnd' : list Z) (now now' : Z) :
  let r := handleReg1 s src wire now rnd in
  handleReg1 (fst r) src wire' now' rnd' = r.
Proof.
  intros r. destruct (findLink s src) as [ref|] eqn:El.
  { unfold r, handleReg1. rewrite !El. simpl. by rewrite El. }
  destruct (findGhostCreator s src) as [ghost|] eqn:Eg.
  { unfold r, handleReg1. rewrite !El, !Eg. simpl. by rewrite El, Eg. }
  destruct (make_room s) as [s0|] eqn:Em.
  - assert (r = handleReg1 s src wire now rnd) as Er by done. rewrite (handleReg1_new s s0) in Er by done.
    rewrite Er. cbn [fst]. destruct (make_room_same _ _ Em) as (Elm & _ & Hin).
    unfold handleReg1 at 1. unfold findLink, add_group at 1. cbn [m_LinkMap].
    unfold findLink in El. rewrite Elm, El. rewrite ghost_of_new; [done|]. intros g Hg%Hin.
    unfold findGhostCreator in Eg. pose proof (find_first_spec (is_ghost_of src) (m_Groups s)) as Hs.
    rewrite Eg in Hs. by apply Hs.
  - assert (forall w n rd, handleReg1 s src w n rd = (s, [sendShort src T_REG_ERR])) as Hfail.
    { intros w n rd. unfold handleReg1. rewrite El, Eg. cbv zeta. unfold make_room in Em.
      destruct (MAX_GROUPS <=? length (m_Groups s))%nat; [|done]. by destruct (eviction_victim (m_Groups s)). }
    unfold r. rewrite Hfail. simpl. apply Hfail.
Qed.

(** ** Feedback fan-out *)

Definition is_type (type : UDTMessageType) (p : CPacket.t) : bool :=
  CPacket.isControl p && (CPacket.getType p =? msgtype_code type).

Definition is_last (g : Group) (l : Link) : bool := has_last_addr g && bool_decide (addr l = last_addr g).

Lemma is_last_addr g l : is_last g l = true -> addr l = last_addr g.
Proof. unfold is_last. by intros [_ ?%bool_decide_eq_true]%andb_true_iff. Qed.

(** In a group with distinct addresses at most one link is the last active one. *)
Lemma filter_not_last g ls :
  NoDup (addr <$> ls) ->
  length ls = (length (match find_first (is_last g) ls with Some l => [l] | None => [] end)
               + length (List.filter (fun l => negb (is_last g l)) ls))%nat.
Proof.
  induction ls as [|l ls IH]; cbn [fmap list_fmap]; [done|]. intros [Hn Hd]%list.NoDup_cons. specialize (IH Hd).
  cbn [find_first List.filter]. destruct (is_last g l) eqn:E; cbn [negb length]; [|destruct (find_first _ ls); simpl in *; lia].
  rewrite find_first_None in IH; [simpl in *; lia|]. intros x Hx. destruct (is_last g x) eqn:Ex; [|done].
  exfalso. apply Hn. rewrite (is_last_addr _ _ E), <- (is_last_addr _ _ Ex). apply list_elem_of_fmap. by exists x.
Qed.

Lemma elem_of_nak_rest g n l :
  l ∈ take n (List.filter (fun l => negb (is_last g l)) (links g)) -> l ∈ links g /\ is_last g l = false.
Proof.
  intros H%elem_of_take. destruct H as (i & Hi & _). apply list_elem_of_lookup_2, list_elem_of_In, filter_In in Hi.
  destruct Hi as [Hin Hb]. split; [by apply list_elem_of_In|by destruct (is_last g l)].
Qed.

Lemma NoDup_nak_rest g n :
  NoDup (addr <$> links g) -> NoDup (addr <$> take n (List.filter (fun l => negb (is_last g l)) (links g))).
Proof.
  intros Hd. rewrite fmap_take. eapply sublist_NoDup; [exact Hd|].
  transitivity (addr <$> List.filter (fun l => negb (is_last g l)) (links g)); [apply sublist_take|].
  apply fmap_sublist. clear Hd. induction (links g) as [|l ls IH]; simpl; [done|].
  destruct (negb (is_last g l)); by constructor.
Qed.

Lemma nak_targets_spec g :
  NoDup (addr <$> links g) ->
  NoDup (addr <$> nak_targets g) /\ length (nak_targets g) = min 2 (length (links g))
  /\ (forall l, l ∈ nak_targets g -> l ∈ links g)
  /\ (forall l, l ∈ links g -> is_last g l = true -> addr l ∈ addr <$> nak_targets g).
Proof.
  intros Hd. pose proof (filter_not_last g _ Hd) as Hlen. unfold nak_targets, NAK_FANOUT. cbv zeta.
  change (fun l => negb (has_last_addr g && bool_decide (addr l = last_addr g))) with (fun l => negb (is_last g l)).
  fold (is_last g). pose proof (find_first_spec (is_last g) (links g)) as Hf.
  destruct (find_first (is_last g) (links g)) as [l0|] eqn:E; cbn [length app] in *.
  - destruct Hf as [Hin Hl0]. split_and!.
    + cbn [fmap list_fmap]. apply list.NoDup_cons. split; [|by apply NoDup_nak_rest].
      intros (l & Ea & [Hl Hnl]%elem_of_nak_rest)%list_elem_of_fmap. unfold is_last in Hl0, Hnl.
      rewrite Ea in Hl0. congruence.
    + rewrite length_take. lia.
    + intros l [->|[Hl _]%elem_of_nak_rest]%elem_of_cons; done.
    + intros l Hl Hlast. cbn [fmap list_fmap]. rewrite (is_last_addr _ _ Hlast), <- (is_last_addr _ _ Hl0). constructor.
  - split_and!.
    + by apply NoDup_nak_rest.
    + rewrite length_take. lia.
    + by intros l [Hl _]%elem_of_nak_rest.
    + intros l Hl Hlast. by rewrite (Hf l Hl) in Hlast.
Qed.

(** feedback fans out as intended. For a bound peer whose group has links,
    an ACK goes once to every link of the group; a NAK goes to two distinct links
    (to the only one if there is one), the most recently active one among them
    when it is still registered; any other packet goes to the last active
    address. For a peer without a group the caller sends the packet itself. *)
Theorem srtla_egress_fanout (evs : list event) (s : state) (out0 : list output) (peer : sockaddr) (p : CPacket.t) :
  run create evs = Some (s, out0) ->
  match m_EgressMap s !! peer with
  | None => onEgress s peer p = Some (false, [])
  | Some gp => exists g dsts, group_at s gp = Some g /\ onEgress s peer p = Some (true, (fun a => SendTo a p) <$> dsts)
    /\ if bool_decide (links g = []) then dsts = [peer]
       else if is_type UMSG_ACK p then dsts = addr <$> links g /\ NoDup dsts
       else if is_type UMSG_LOSSREPORT p then
         NoDup dsts /\ length dsts = min 2 (length (links g)) /\ (forall a, a ∈ dsts -> a ∈ addr <$> links g)
         /\ (has_last_addr g = true -> last_addr g ∈ addr <$> links g -> last_addr g ∈ dsts)
       else dsts = [if has_last_addr g then last_addr g else peer]
  end.
Proof.
  intros Hrun. destruct (run_inv create evs create_inv) as (s' & o' & E' & I). rewrite Hrun in E'. injection E' as <- <-.
  unfold onEgress, findGroupByEgress. destruct (m_EgressMap s !! peer) as [gp|] eqn:Ee; [|done].
  pose proof I as [M _ _]. destruct (mo_em _ _ _ _ M _ _ Ee) as (ls & Hs).
  destruct (group_at_shape _ _ _ Hs) as (g & Eg & Hg & Hp). rewrite Eg. cbn [mbind option_bind].
  assert (NoDup (addr <$> links g)) as Hnd.
  { pose proof (maps_addr_NoDup _ _ _ _ _ _ M (gsh_elem _ _ Hg)) as H. by rewrite <- list_fmap_compose in H. }
  exists g. destruct (links g) as [|l0 ls0] eqn:El; [by exists [peer]|].
  rewrite bool_decide_eq_false_2 by done. rewrite <- El in *. unfold is_type.
  destruct (CPacket.isControl p && (CPacket.getType p =? msgtype_code UMSG_ACK)).
  { exists (addr <$> links g). rewrite <- list_fmap_compose. done. }
  destruct (CPacket.isControl p && (CPacket.getType p =? msgtype_code UMSG_LOSSREPORT)).
  - exists (addr <$> nak_targets g). rewrite <- list_fmap_compose.
    destruct (nak_targets_spec g Hnd) as (H1 & H2 & H3 & H4). split_and!; try done.
    + by rewrite length_fmap.
    + intros a (l & -> & Hl)%list_elem_of_fmap. apply list_elem_of_fmap. exists l. auto.
    + intros Hh (l & Ea & Hl)%list_elem_of_fmap. rewrite Ea. apply H4; [done|]. unfold is_last.
      rewrite Hh, Ea. by rewrite bool_decide_eq_true_2.
  - by eexists [_].
Qed.

Lemma srtla_egress_fanout_witness :
  exists s out0, run create (registered_a ++ [EvBind addr_a 77]) = Some (s, out0)
    /\ exists gp g dsts, m_EgressMap s !! addr_a = Some gp /\ group_at s gp = Some g
    /\ onEgress s addr_a (CPacket.mk 0x80030000 0 0 0 [0; 0; 0; 0]) = Some (true, (fun a => SendTo a (CPacket.mk 0x80030000 0 0 0 [0; 0; 0; 0])) <$> dsts)
    /\ dsts = [addr_a].
Proof.
  destruct (run create (registered_a ++ [EvBind addr_a 77])) as [[s out0]|] eqn:E; [|vm_compute in E; discriminate E].
  exists s, out0. split; [reflexivity|].
  pose proof (srtla_egress_fanout _ s out0 addr_a (CPacket.mk 0x80030000 0 0 0 [0; 0; 0; 0]) E) as H.
  assert (m_EgressMap s !! addr_a = Some 0%nat) as Ee by (vm_compute in E; injection E as <- _; vm_compute; reflexivity).
  rewrite Ee in H. destruct H as (g & dsts & Eg & Eo & H). exists 0%nat, g, dsts. split; [exact Ee|].
  split; [exact Eg|]. split; [exact Eo|]. revert Eo. vm_compute in E. injection E as <- _. vm_compute in Eg. injection Eg as <-.
  intros Eo. vm_compute in Eo. destruct dsts as [|d [|d' ds]]; try discriminate Eo. by injection Eo as <-.
Defined.

(** ** Cleanup *)

Definition alive (now : Z) (l : Link) : bool := count_milliseconds (now - last_rcvd l) <=? 4000.

(** What the pass does to a link it keeps. *)
Definition clean_link (now : Z) (l : Link) : Link :=
  if recovering l then
    if count_milliseconds (now - recovery_start l) >=? 5000
    then set_liveness (last_rcvd l) (recovery_start l) (last_keepalive l) false l
    else if count_milliseconds (now - last_keepalive l) >=? 1000
    then set_liveness (last_rcvd l) (recovery_start l) now (recovering l) l else l
  else l.

Definition clean_group (now : Z) (g : Group) : Group :=
  set_links (clean_link now <$> List.filter (alive now) (links g)) g.

(** A group stays while it has links, or for four seconds after its creation. *)
Definition group_stays (now : Z) (g : Group) : bool :=
  match links g with [] => count_milliseconds (now - created_at g) <=? 4000 | _ => true end.

Lemma cleanup_links_kept now ls : snd (fst (cleanup_links now ls)) = clean_link now <$> List.filter (alive now) ls.
Proof.
  induction ls as [|l ls IH]; [done|]. cbn [cleanup_links List.filter]. unfold alive at 1.
  destruct (cleanup_links now ls) as [[out kept] gone]. cbn [fst snd] in IH. rewrite Z.gtb_ltb.
  destruct (Z.ltb_spec 4000 (count_milliseconds (now - last_rcvd l))), (Z.leb_spec (count_milliseconds (now - last_rcvd l)) 4000);
    try lia; cbn [fst snd]; [done|]. rewrite fmap_cons. rewrite <- IH.
  unfold clean_link. destruct (recovering l); [|done].
  destruct (_ >=? 5000); [done|]. by destruct (_ >=? 1000).
Qed.

Lemma put_group_middle pre g g' gs (s : state) :
  m_Groups s = pre ++ g :: gs -> NoDup (g_ptr <$> m_Groups s) -> g_ptr g' = g_ptr g ->
  m_Groups (put_group g' s) = pre ++ g' :: gs.
Proof.
  intros E Hd Hp. unfold put_group. simpl. rewrite E in *. rewrite fmap_app in Hd. cbn [fmap list_fmap] in Hd.
  apply list.NoDup_app in Hd as (_ & H2 & H3). apply list.NoDup_cons in H3 as [H3 _].
  assert (forall l, (forall x, x ∈ l -> g_ptr x <> g_ptr g') ->
    ((fun g => if (g_ptr g =? g_ptr g')%nat then g' else g) <$> l : list Group) = l) as Hid.
  { intros l Hl. rewrite <- (list_fmap_id l) at 2. apply list_fmap_ext. intros i x Hx%list_elem_of_lookup_2.
    destruct (Nat.eqb_spec (g_ptr x) (g_ptr g')); [|done]. by destruct (Hl x Hx). }
  rewrite fmap_app. rewrite fmap_cons. rewrite !Hid.
  - by rewrite Hp, Nat.eqb_refl.
  - intros x Hx Ex. apply H3. rewrite <- Hp, <- Ex. apply list_elem_of_fmap. by exists x.
  - intros x Hx Ex. apply (H2 (g_ptr g)); [|constructor]. rewrite <- Hp, <- Ex. apply list_elem_of_fmap. by exists x.
Qed.

Lemma filter_keep {A} (P : A -> Prop) `{forall x, Decision (P x)} (l : list A) :
  (forall x, x ∈ l -> P x) -> filter P l = l.
Proof.
  induction l as [|x l IH]; intros Hl; [done|]. rewrite filter_cons_True by (apply Hl; constructor).
  f_equal. apply IH. intros y Hy. apply Hl. by constructor.
Qed.

Lemma filter_middle pre (g : Group) gs :
  NoDup (g_ptr <$> (pre ++ g :: gs)) -> filter (fun g' => g_ptr g' <> g_ptr g) (pre ++ g :: gs) = pre ++ gs.
Proof.
  intros Hd. rewrite fmap_app in Hd. cbn [fmap list_fmap] in Hd.
  apply list.NoDup_app in Hd as (_ & H2 & H3). apply list.NoDup_cons in H3 as [H3 _].
  rewrite list.filter_app, filter_cons_False by (by intros H). f_equal.
  - apply filter_keep. intros x Hx Ex. apply (H2 (g_ptr g)); [|constructor].
    rewrite <- Ex. apply list_elem_of_fmap. by exists x.
  - apply filter_keep. intros x Hx Ex. apply H3. rewrite <- Ex. apply list_elem_of_fmap. by exists x.
Qed.

Lemma cleanup_groups_exact now gs pre s :
  m_Groups s = pre ++ gs -> NoDup (g_ptr <$> m_Groups s) ->
  m_Groups (fst (cleanup_groups now gs s)) = pre ++ List.filter (group_stays now) (clean_group now <$> gs).
Proof.
  revert pre s. induction gs as [|g gs IH]; intros pre s E Hd; [by rewrite app_nil_r in *|]. cbn [cleanup_groups].
  pose proof (cleanup_links_kept now (links g)) as Hk.
  destruct (cleanup_links now (links g)) as [[out kept] gone]. cbn [fst snd] in Hk. cbv zeta.
  replace (set_links kept g) with (clean_group now g) by (unfold clean_group; by rewrite Hk).
  set (s1 := mkState _ _ _ _ _ _ _).
  assert (m_Groups s1 = pre ++ clean_group now g :: gs) as E1 by (by apply (put_group_middle pre g)).
  assert (NoDup (g_ptr <$> m_Groups s1)) as Hd1.
  { rewrite E1. rewrite E in Hd. rewrite fmap_app in *. exact Hd. }
  rewrite fmap_cons. cbn [List.filter].
  assert (links (clean_group now g) = kept) as Hlk by (by rewrite Hk). unfold group_stays at 1. rewrite Hlk.
  set (s2 := match kept with [] => _ | _ => _ end).
  assert (m_Groups s2 = pre ++ (if match kept with [] => count_milliseconds (now - created_at (clean_group now g)) <=? 4000 | _ => true end
    then [clean_group now g] else []) ++ gs /\ NoDup (g_ptr <$> m_Groups s2)) as [E2 Hd2].
  { unfold s2. destruct kept as [|l0 kept0]; [|by rewrite E1 in *]. rewrite Z.gtb_ltb.
    destruct (Z.ltb_spec 4000 (count_milliseconds (now - created_at (clean_group now g)))),
      (Z.leb_spec (count_milliseconds (now - created_at (clean_group now g))) 4000); try lia; [|by rewrite E1 in *].
    unfold removeGroup. cbn [m_Groups]. rewrite E1, filter_middle by (by rewrite <- E1). split; [done|].
    rewrite E1, fmap_app in Hd1. rewrite fmap_app. eapply sublist_NoDup; [exact Hd1|].
    apply sublist_app; [done|]. cbn [fmap list_fmap]. by apply sublist_cons. }
  clearbody s2. destruct (cleanup_groups now gs s2) as [s3 outs] eqn:E3. cbn [fst].
  specialize (IH (pre ++ (if match kept with [] => count_milliseconds (now - created_at (clean_group now g)) <=? 4000 | _ => true end
    then [clean_group now g] else [])) s2). rewrite E3 in IH. cbn [fst] in IH. rewrite IH; [|by rewrite <- app_assoc|done].
  rewrite <- app_assoc. f_equal. by destruct (match kept with [] => _ | _ => _ end).
Qed.

Lemma clean_link_shape now l : lsh (clean_link now l) = lsh l.
Proof. unfold clean_link. by repeat case_match. Qed.

Lemma elem_of_clean_links now g l' :
  l' ∈ links (clean_group now g) <-> exists l, l ∈ links g /\ alive now l = true /\ l' = clean_link now l.
Proof.
  unfold clean_group. cbn [set_links links]. rewrite list_elem_of_fmap. split.
  - intros (l & -> & H). apply list_elem_of_In, filter_In in H as [H1 H2]. apply list_elem_of_In in H1. eauto.
  - intros (l & H1 & H2 & ->). exists l. split; [done|]. apply list_elem_of_In, filter_In. split; [by apply list_elem_of_In|done].
Qed.

(** the cleanup forgets exactly the idle. A link is kept, and its address
    stays registered, when a datagram of it arrived at most four seconds ago; a
    group stays while it keeps a link or is at most four seconds old; the order
    of groups and links and everything else about them is kept, up to the
    recovery state of the links. *)
Theorem srtla_cleanup_exact (evs : list event) (s : state) (out0 : list output) (now : Z) :
  run create evs = Some (s, out0) ->
  let s' := fst (doCleanup s now) in
  m_Groups s' = List.filter (group_stays now) (clean_group now <$> m_Groups s)
  /\ forall a gp lp, m_LinkMap s' !! a = Some (gp, lp) <->
       exists g l, g ∈ m_Groups s /\ l ∈ links g /\ alive now l = true /\ g_ptr g = gp /\ l_ptr l = lp /\ addr l = a.
Proof.
  intros Hrun s'. destruct (run_inv create evs create_inv) as (s1 & o1 & E1 & I). rewrite Hrun in E1. injection E1 as <- <-.
  assert (inv s') as I' by (apply cleanup_groups_inv; [done|done|by apply ptr_NoDup]).
  assert (m_Groups s' = List.filter (group_stays now) (clean_group now <$> m_Groups s)) as Eg
    by (apply (cleanup_groups_exact now (m_Groups s) []); [done|by apply ptr_NoDup]).
  split; [done|]. intros a gp lp. rewrite link_map_iff by done. rewrite Eg. split.
  - intros (g' & l' & Hg & Hl & <- & <- & <-). apply list_elem_of_In, filter_In in Hg as [Hg _].
    apply list_elem_of_In, list_elem_of_fmap in Hg as (g & -> & Hg).
    apply elem_of_clean_links in Hl as (l & Hl & Ha & ->). pose proof (clean_link_shape now l) as Hsh.
    injection Hsh as -> ->. eauto 10.
  - intros (g & l & Hg & Hl & Ha & <- & <- & <-). pose proof (clean_link_shape now l) as Hsh. injection Hsh as <- <-.
    assert (clean_link now l ∈ links (clean_group now g)) as Hcl by (apply elem_of_clean_links; eauto).
    exists (clean_group now g), (clean_link now l). split_and!; try done.
    apply list_elem_of_In, filter_In. split; [apply list_elem_of_In, list_elem_of_fmap; eauto|].
    unfold group_stays. destruct (links (clean_group now g)); [by apply not_elem_of_nil in Hcl|done].
Qed.

Lemma srtla_cleanup_exact_witness :
  exists s out0, run create registered_a = Some (s, out0)
    /\ m_Groups (fst (doCleanup s 4001000)) = [] /\ m_LinkMap (fst (doCleanup s 4001000)) !! addr_a = None.
Proof.
  destruct (run create registered_a) as [[s out0]|] eqn:E; [|vm_compute in E; discriminate E].
  exists s, out0. split; [reflexivity|].
  destruct (srtla_cleanup_exact registered_a s out0 4001000 E) as [H1 H2]. rewrite H1.
  vm_compute in E. injection E as <- _. split; [vm_compute; reflexivity|].
  destruct (m_LinkMap _ !! addr_a) as [[gp lp]|] eqn:Em; [|reflexivity]. vm_compute in Em. discriminate Em.
Defined.

(** ** A stale last address

    The cleanup removes links but leaves [last_addr]. Here the sender moves from
    [addr_a] to [addr_b], which only sends keepalives: after the cleanup of
    [addr_a] its address is still the target of single-target packets. *)
Definition stale_run : list event :=
  registered_a ++
  [EvPeriodic 0;
   EvIngress addr_b (packet_of (store_be16 T_REG2 ++ group_id)) 1000 1000 [];
   EvIngress addr_a (CPacket.mk 5 0 0 0 [1; 2; 3]) 2000 2000 [];
   EvBind addr_a 77;
   EvIngress addr_b (CPacket.mk 0x90000000 0 0 0 []) 4000000 4000000 [];
   EvPeriodic 6000000].

(** the address for single-target packets can be stale. There is a run
    after which a keepalive for a bound group that still has a live link is sent
    to the address of a link the cleanup removed, not to the live one. *)
Theorem stale_last_addr :
  exists s out p, run create stale_run = Some (s, out)
    /\ findLink s addr_a = None /\ findLink s addr_b <> None
    /\ onEgress s addr_a p = Some (true, [SendTo addr_a p]).
Proof.
  destruct (run create stale_run) as [[s out]|] eqn:E; [|vm_compute in E; discriminate E].
  exists s, out, (CPacket.mk 0x80010000 0 0 0 []). split; [reflexivity|]. vm_compute in E. injection E as <- _.
  split; [vm_compute; reflexivity|]. split; [vm_compute; discriminate|]. vm_compute. reflexivity.
Qed.
